(* ===== verification/_CoqProject ===== *)
-Q . S2P
Prelude.v
Clock.v
Canonical.v
Timeline.v
Memory.v
Pic.v
PicPair.v
PicCanonical.v
Dma.v
Rtc.v
FatName.v
Fat32.v
Fat32Volume.v
CpuFlags.v
CpuAlu.v
CpuShift.v
CpuMulDiv.v
CpuLazy.v
Tlb.v
Paging.v
PagingSound.v
PagingMemory.v
Exec.v
Segment.v
Access.v
SegLoad.v
Transfer.v
FlatMachine.v
AccessSound.v
SegmentSound.v
DeliverySound.v
ReturnSound.v
InterruptReturn.v
Pit.v
PitAdvance.v
PitPeek.v
PitRise.v
PitCanonical.v
PitObserve.v
SectorCache.v
Ata.v
AtaInv.v
AtaPio.v
Pci.v
BusMaster.v
Storage.v
DiskBytes.v
BusMasterSound.v
StorageSound.v
Mouse.v
MouseSound.v
Keyboard.v
KeyboardSound.v
KeyboardGuest.v
