(* ===== verification/Prelude.v ===== *)
(** * IzarraVM: a verification library for the processor core and the devices

    IzarraVM is a PC emulator written in Rust (src/crates/).  This library is a
    shallow embedding of the processor's arithmetic, paging, protection and control
    transfers and of the devices
    that keep the machine's state and time: each Rust function is a Rocq function on an explicit state, each
    fallible function returns [option] or [result], each panic the source can
    reach is a visible [None] or error, and machine integers are [Z] with the
    width and the wrap-around written out.  The release profile has no overflow
    checks, so [+] and [-] wrap ([wrap w]) wherever they can leave their width.

    ** Files

    - Prelude.v: results, record update, machine integers, byte ranges, shared
      tactics ([widths], [zlia], [bool_prop]) and list lemmas.
    - Clock.v: izarravm-core/src/clock.rs ([Rate]) and gsw.rs ([Gsw]).
    - Canonical.v: izarravm-core/src/canonical_state.rs, the capture container.
      The class [Allocator] stands for the fallible reservations of the global
      allocator; [CanonicalPayload] is the interface a device's payload writer
      discharges.
    - Timeline.v: izarravm-machine/src/timeline.rs: [Phase] is [RatePhase],
      [Machine] the master-tick timeline with its device clocks.
    - Memory.v: the byte memory and bus widths of izarravm-bus/src/lib.rs.
    - Pic.v, PicPair.v, PicCanonical.v: izarravm-machine/src/pic.rs, one 8259, the
      cascaded pair, and what the capture payload determines.
    - Dma.v: izarravm-machine/src/dma.rs: [Channel], [Chip], [Pair].  A chip carries the
      flag [panicked], which every index beyond its four channels sets.
    - Rtc.v: izarravm-machine/src/rtc.rs: [Calendar] is the broken-down time,
      [Device] the registers, interrupts and battery-backed RAM.
    - FatName.v, Fat32.v, Fat32Volume.v: fat_name.rs, fat32.rs and fat32_volume.rs,
      a host folder served as a FAT32 disk.
    - CpuFlags.v, CpuAlu.v: izarravm-cpu/src/flags.rs and the flag, register and
      arithmetic functions of core.rs.  CpuShift.v, CpuMulDiv.v and CpuLazy.v hold
      only proofs: the closed forms of the shift loops, the arithmetic of the
      multiplier, and the equivalence of lazy and eager flags.
    - Tlb.v: the translation cache of izarravm-cpu/src/paging.rs and the context
      ring of lib.rs.  Paging.v: translation and page walks (memory.rs) and every
      flush (core.rs, control.rs, execute_extended.rs) over a bus given by the class
      [PhysicalBus] with the laws [BusLaws], followed by the specification, a
      processor without any cache.  PagingSound.v proves the refinement,
      PagingMemory.v discharges the laws with [Memory] and runs examples.
    - Exec.v: stateful fallible code, a state and a result ([Exec]), and what a run can
      do to the state ([obeys], [fails]).  Segment.v: the processor as far as accesses and
      control transfers use it, the pure checks of memory.rs and lib.rs.  Access.v: linear
      and segmented accesses, the stack, system accesses (memory.rs, control.rs) over
      [PhysicalBus] and [DataBus].  SegLoad.v: segment and table-register loads
      (control.rs).  Transfer.v: interrupts, exception delivery, IRET, far transfers, call
      gates, task switches (control.rs) and the exception arm of [finish_instruction]
      (run.rs).  The proofs: AccessSound.v (what an access can change and raise),
      SegmentSound.v, DeliverySound.v, ReturnSound.v, InterruptReturn.v; FlatMachine.v is
      the small machine of their concrete runs.
    - Pit.v: izarravm-machine/src/pit.rs, one 8254 counter ([Counter]) and the chip
      ([Chip]).  PitAdvance.v: the analytic advance against the clock-by-clock one.
      PitPeek.v: reads in the middle of a batch.  PitRise.v: reachable states, the
      next interrupt, programmed rates.  PitCanonical.v, PitObserve.v: the capture payload
      and what it determines.
    - SectorCache.v: izarravm-machine/src/sector_cache.rs, the linked array ([Cache]) and
      the list it implements ([Lru]).
    - Ata.v: izarravm-machine/src/ata.rs, the disk over any [SectorStore].  A store with a
      content whose reads may degrade obeys [ContentLaws]; one whose reads are always its
      content obeys [StoreLaws], as the flat image [image_store] does.  AtaInv.v: the events the machine sends it, their
      invariant, the cache.  AtaPio.v: transfers through the ports.  DiskBytes.v: its
      sectors stay bytes, and what can touch its DMA request.
    - Pci.v: izarravm-machine/src/pci.rs, configuration space over the display card's
      registers ([ConfigBytes]; vega.rs's are [distira_config]).  BusMaster.v:
      bmide.rs, the bus-master IDE engine over [Memory] and the disk.  Storage.v: the arms of
      bus.rs, bios.rs, timing.rs and storage.rs that tie the four together.
      BusMasterSound.v: the descriptor tables and the two copies; StorageSound.v: the
      invariant of the whole channel and its transfers.
    - Mouse.v, Keyboard.v: izarravm-machine/src/mouse.rs and keyboard.rs, the PS/2 mouse and
      the 8042 in front of it.  MouseSound.v: packets against motion.  KeyboardSound.v: the
      two byte streams, the three clocks and the invariant of the controller.
      KeyboardGuest.v: histories of everything the machine does to it.

    Within a file a Module is a component: a Record for its state, one
    Definition or Fixpoint per source function under the source's name, an
    invariant ([wf], [pic_wf], [rtc_wf], [builder_wf], ...) and the lemmas about
    it.

    ** How the parts interact

    The timeline turns elapsed CPU clocks into master ticks and hands each device
    its exact share of events; [Phase] is also the RTC's periodic divider.  The
    RTC and the DMA controllers raise lines of the [PicPair]; DMA moves bytes of
    [Memory].  The slave PIC reaches the processor through line 2 of the master, which only the pair
    drives.  Every device writes its state through the [Canonical] writer.
    The FAT32 volume reads the host folder once and answers sectors.
    The paging unit reads its tables from the bus, caches them in the [Tlb] under
    the generation the context ring selects, and hears of the processor's stores through
    [note_code_write] and of the devices' through [note_device_memory_write_range]; its faults are the [InternalFault] of the arithmetic unit.
    Segmented accesses check the segment, translate through the paging unit and store
    through its code-invalidation door; segment loads and deliveries read their tables with
    the same accesses as a supervisor; a fault of any of them comes back to the exception
    arm, which delivers it and climbs the ladder of [escalate_delivery].
    The disk reads and writes its store through the [SectorCache] and runs its commands
    on the master clock of the timeline.
    The bus master meets the disk's DMA request with the transfer the guest starts in its
    registers, in either order: every write to one of the two, or to configuration space,
    ends with [Engine.synchronize]; the clock completes the transfer, between memory and the
    disk's store, and forwards its interrupt.
    The keyboard controller multiplexes its own replies, scancodes and mouse packets into one
    output register on the master clock; its deadlines are what the run loop may advance to.

    ** What the theorems show

    - The processor's caches are unobservable: lazily evaluated flags
      ([lazy_flags_transparent]) answer as a processor without them at every point, cached
      translations ([paging_transparent]) as long as every change of the page tables
      reaches the unit: through its stores, a device write it is told of, or a flush.  A
      change it is not told of leaves the cached answer in place, as on the hardware
      ([unreported_change_is_stale]); [ps_entry_survives_cr3_reload] and
      [generation_wrap_joins_slots] exhibit two more cases.
    - Arithmetic is exact: [alu_exact], [multiword_exact], [compare_conditions],
      [shift_rotate_exact], [double_shift_exact], [mul_exact], [div_exact].
    - Control transfers protect: a faulting delivery is undone ([delivery_atomic]) and
      resolved as the architecture says ([escalation_architectural]) except with alignment
      checking armed ([alignment_chain_unbounded]); IRET undoes an interrupt
      ([interrupt_returns]); outward returns take inner segments away
      ([outer_return_seals]); flag loads respect the level ([load_flags_exact]); VERR and
      VERW predict loads ([verify_predicts_load]); a wide access is its bytes
      ([range_is_bytes]).  Three runs show where the code does not:
      [inward_return_unchecked], [gate_fault_keeps_inner_level],
      [outer_return_fault_truncates_eip].
    - Time is exact: splitting an advance changes nothing ([timeline_split]),
      deadlines are the exact inverse of advances ([ticks_until_exact], [margo_deadline_exact],
      [wake_estimate_exact], [alarm_bulk_exact]), the calendar is the
      proleptic Gregorian day count ([tick_absolute]).
    - The timer's closed forms are the timer: [bulk_advance_exact],
      [in_batch_access], [next_rise_exact], [irq0_rate], and the one estimate
      that is not, [halt_search_misses_strobe].
    - The disk moves the sectors asked for and no others: [pio_read_delivers],
      [pio_write_stores], [sector_changes_accounted]; its registers follow the protocol and
      it never panics ([disk_protocol]); its host-side cache is an LRU list
      ([lru_refines]) that cannot be observed and remembers no degraded read
      ([sector_cache_transparent]).
    - The bus master and the disk stay in step through any history ([channel_in_step]), a
      plan is made of exactly the descriptor tables it should be ([prd_plan_exact]), and a
      transfer moves the sectors asked for, on time, between the regions described and
      nowhere else ([dma_read_delivers], [dma_write_stores]).
    - Keyboard and mouse bytes reach the guest once and in order ([streams_in_order]), the
      controller can be advanced in any stride ([advance_any_stride]), and the mouse reports
      the motion it was fed ([motion_reported]); [masked_byte_blocks_keyboard] is the run in
      which a keystroke is not announced.
    - Interrupts are neither lost nor invented: [priority_resolution],
      [fully_nested_stack], [rotation_no_starvation], [cascade_no_loss] (a request of
      the slave, from the programming of both chips on),
      and the exceptions found: [masked_pulse_is_spurious], and a master programmed alone
      under a pending slave ([lone_master_reset_loses]).
    - DMA moves the programmed block and nothing else: [single_cycle_block],
      [auto_init_ring], [mem_to_mem_copies], [device_write_isolated]; no sequence of
      operations indexes past a chip's channels, and every address on the bus lies below
      16 MB ([dma_never_panics]).
    - Captures are canonical and complete: [container_roundtrip] (payload callbacks and
      allocations may fail on the way),
      [parse_canonical], [capture_total], [payload_determines_behaviour],
      [pit_payload_determines].
    - Persisted and synthesized media are faithful: [nvram_restores],
      [tampered_image_rejected], [volume_represents_tree], [build_total].

    ** Bounds and fuel

    [Rtc.Calendar.roll_days] runs on one unit of fuel per 28 days carried plus
    four, and [tick_absolute] shows that this is enough up to the year 65536.
    [Dma.Chip.copy_loop] has 65,536 units, the most a 16-bit count allows
    ([mem_to_mem_terminates], [dma_never_panics]).  The FAT32 volume counts the clusters of
    a file in 32 bits, as the source does: [volume_represents_tree] says which clusters a file
    of 4 GB or more keeps.  [Rtc.Device.find_delta] searches the 86,400
    seconds of a day, as the source does.  [FatName.Name.decimal] has ten
    digits, enough for 32 bits.  [shift_rotate] and [double_shift] loop at most 31
    times.  [paging_transparent] speaks of histories of up to (2^32 - 4) / 8 events,
    each of which mints at most eight generations; past that the counter wraps.
    The edge enumerations of the timer have one unit more than the clocks they
    cover, and [bulk_advance_exact] shows that they end.  The loops over the fragments of an
    access that crosses a page complete a byte or more per round and have one round per
    byte.  [escalation_ladder] has the code's own bound of eight escalations;
    [escalation_architectural] shows that three are enough unless alignment checking is
    armed.  All other recursion is
    structural; the parser of descriptors runs once per entry it may read, as the source's
    loop does, and [prd_plan_exact] shows that its cap refuses no table.  The clock loop of
    the keyboard controller has three events per byte time of the interval and three more;
    [advance_any_stride] shows that this is enough ([events_left] bounds what is due).

    ** Not modelled

    Trace and log output; host I/O (files, windows, audio); the dynamic
    translator, which emits host machine code, and what the paging unit keeps for
    it (decoded lines, compiled blocks, the fast map, the elision of stores that
    change no byte; whether a store into code flushes wholesale is an arbitrary
    predicate); instruction decoding and dispatch, the prefetch window, debug registers, the
    single-step arm, the clocks charged for transfers, and the reflected-call memo, which is
    off by default; the host-folder volume under the disk,
    whose two-way synchronization with host files is host I/O (it enters as a store: the
    theorems over [ContentLaws], [disk_protocol] and [sector_cache_transparent], cover its
    degraded reads; those over [StoreLaws] cover it only while its host files stay readable; a
    host file whose content is changed from outside is covered by neither); the video and audio devices, the floppy and packet controllers and
    the other port devices. *)

From stdpp Require Export base list list_numbers numbers option sets.
From Stdlib Require Export ZArith Lia Bool.
From Stdlib Require Import Zquot.

#[global] Open Scope Z_scope.

(* ------------------------------------------------------------------ *)
(** ** Results *)

(** Rust's [Result<A, E>]. *)
Inductive result (E A : Type) : Type :=
| Ok (a : A)
| Err (e : E).
Arguments Ok {E A} a.
Arguments Err {E A} e.

(** The [?] operator, [ok_or(e)?] on an option, and an early error return. *)
Notation "'let?' x ':=' r 'in' k" :=
  (match r with Ok x => k | Err err => Err err end)
  (at level 10, x pattern at level 0, k at level 200).
Notation "'let!' x ':=' o 'else' e 'in' k" :=
  (match o with Some x => k | None => Err e end)
  (at level 10, x pattern at level 0, e at level 99, k at level 200).
Notation "'ensure' b 'else' e 'in' k" :=
  (if b then k else Err e)
  (at level 10, b at level 99, e at level 99, k at level 200).

Definition is_ok {E A} (r : result E A) : bool :=
  match r with Ok _ => true | Err _ => false end.

(* ------------------------------------------------------------------ *)
(** ** Record update

    [r <| f := v |>] is the record [r] with the field [f] set to [v].  A record
    declares once how it is rebuilt from its projections ([Eta]); the setter of
    a field is then found by type-class resolution. *)

Class Eta (R : Type) := eta : R -> R.
#[global] Hint Mode Eta ! : typeclass_instances.

Class Update {R T : Type} (field : R -> T) := update : (T -> T) -> R -> R.
Arguments update {R T} field {_} _ _ / : simpl nomatch.

Ltac derive_update :=
  lazymatch goal with
  | |- @Update ?R ?T ?field =>
      let f := fresh "f" in
      let r := fresh "r" in
      refine (fun (f : T -> T) (r : R) => _);
      let inst := constr:(_ : Eta R) in
      let body := eval hnf in inst in
      let body := eval cbv beta in (body r) in
      let abs := eval pattern (field r) in body in
      lazymatch abs with
      | ?g (field r) =>
          let res := eval cbv beta in (g (f (field r))) in exact res
      end
  end.
#[global] Hint Extern 0 (Update _) => derive_update : typeclass_instances.

Declare Scope vm_scope.
Delimit Scope vm_scope with vm.
#[global] Open Scope vm_scope.

Notation "r <| field := v |>" := (update field (fun _ => v) r)
  (at level 1, left associativity, v at level 200) : vm_scope.

(* ------------------------------------------------------------------ *)
(** ** Machine integers

    A [w]-bit unsigned integer is a [Z] in [[0, 2^w)]. *)

Definition in_width (w z : Z) : Prop := 0 <= z < 2 ^ w.
Abbreviation u8 := (in_width 8).
Abbreviation u16 := (in_width 16).
Abbreviation u32 := (in_width 32).
Abbreviation u64 := (in_width 64).

Definition U64_MAX : Z := 2 ^ 64 - 1.
Definition U128_MAX : Z := 2 ^ 128 - 1.

(** [as] casts and [wrapping_*]: reduction modulo [2^w]. *)
Definition wrap (w z : Z) : Z := z mod 2 ^ w.

(** [checked_add], [checked_mul], [checked_sub] at width [w]. *)
Definition checked (w z : Z) : option Z :=
  if (0 <=? z) && (z <? 2 ^ w) then Some z else None.

(** [saturating_*] of unsigned operands at width [w]. *)
Definition saturate (w z : Z) : Z := Z.max 0 (Z.min z (2 ^ w - 1)).

(** [u64::div_ceil] / [u128::div_ceil]. *)
Definition div_ceil (a b : Z) : Z :=
  if a mod b =? 0 then a / b else a / b + 1.

(** [v & m != 0] *)
Definition has (v m : Z) : bool := negb (Z.land v m =? 0).
(** [1 << n] *)
Definition bit (n : Z) : Z := Z.shiftl 1 n.
(** [u8::from(b)] *)
Definition b2z (b : bool) : Z := if b then 1 else 0.

(** [value.to_le_bytes()] of an [n]-byte integer. *)
Fixpoint le_bytes (n : nat) (z : Z) : list Z :=
  match n with
  | O => []
  | S k => z mod 256 :: le_bytes k (z / 256)
  end.

(** [from_le_bytes] *)
Fixpoint le_value (bs : list Z) : Z :=
  match bs with
  | [] => 0
  | b :: t => b + 256 * le_value t
  end.

(** [Vec::len] and byte ranges. *)
Definition zlen {A} (l : list A) : Z := Z.of_nat (length l).

(** [bytes.get(a..b)] *)
Definition slice (l : list Z) (a b : Z) : option (list Z) :=
  if (0 <=? a) && (a <=? b) && (b <=? zlen l)
  then Some (take (Z.to_nat (b - a)) (drop (Z.to_nat a) l)) else None.

(** [bytes[off..off + v.len()].copy_from_slice(v)], in range. *)
Definition splice (l : list Z) (off : Z) (v : list Z) : list Z :=
  take (Z.to_nat off) l ++ v ++ drop (Z.to_nat off + length v) l.

(* ------------------------------------------------------------------ *)
(** ** Tactics *)

Create HintDb vm discriminated.
Create Rewrite HintDb vm_bits.

(** Evaluates the powers of two the widths stand for. *)
Ltac widths :=
  unfold U64_MAX, U128_MAX, in_width in *;
  repeat match goal with
  | |- context [2 ^ ?k] =>
      lazymatch k with Zpos _ => let c := eval vm_compute in (2 ^ k) in change (2 ^ k) with c end
  | H : context [2 ^ ?k] |- _ =>
      lazymatch k with Zpos _ => let c := eval vm_compute in (2 ^ k) in change (2 ^ k) with c in H end
  end.

Ltac zlia := widths; lia.

(** Turns boolean tests of the goal and of the hypotheses into propositions. *)
Ltac bool_prop :=
  repeat match goal with
  | H : (_ =? _) = true |- _ => apply Z.eqb_eq in H
  | H : (_ =? _) = false |- _ => apply Z.eqb_neq in H
  | H : (_ <? _) = true |- _ => apply Z.ltb_lt in H
  | H : (_ <? _) = false |- _ => apply Z.ltb_ge in H
  | H : (_ <=? _) = true |- _ => apply Z.leb_le in H
  | H : (_ <=? _) = false |- _ => apply Z.leb_gt in H
  | H : (_ && _) = true |- _ => apply andb_true_iff in H; destruct H
  | H : (_ && _) = false |- _ => apply andb_false_iff in H
  | H : (_ || _) = true |- _ => apply orb_true_iff in H
  | H : (_ || _) = false |- _ => apply orb_false_iff in H; destruct H
  | H : negb _ = true |- _ => apply negb_true_iff in H
  | H : negb _ = false |- _ => apply negb_false_iff in H
  end.

(** Splits the goal on the scrutinee of one [match] or [if]. *)
Ltac case_step :=
  match goal with
  | |- context [if ?b then _ else _] =>
      lazymatch b with
      | context [if _ then _ else _] => fail
      | context [match _ with _ => _ end] => fail
      | _ => let E := fresh "E" in destruct b eqn:E
      end
  | |- context [match ?x with _ => _ end] =>
      lazymatch x with
      | context [match _ with _ => _ end] => fail
      | _ => let E := fresh "E" in destruct x eqn:E
      end
  end.
Ltac cases := repeat case_step.

(* ------------------------------------------------------------------ *)
(** ** Arithmetic lemmas *)

Lemma in_width_mono w w' z : w <= w' -> in_width w z -> in_width w' z.
Proof.
  unfold in_width. intros Hw [? ?]. split; [done|].
  assert (0 <= w \/ w < 0) as [?|Hneg] by lia.
  - pose proof (Z.pow_le_mono_r 2 w w'). lia.
  - rewrite Z.pow_neg_r in * by lia. lia.
Qed.

Lemma wrap_in_width w z : 0 <= w -> in_width w (wrap w z).
Proof. intros. apply Z.mod_pos_bound, Z.pow_pos_nonneg; lia. Qed.

Lemma wrap_id w z : in_width w z -> wrap w z = z.
Proof. apply Z.mod_small. Qed.

Lemma checked_Some w z z' : checked w z = Some z' <-> in_width w z /\ z' = z.
Proof.
  unfold checked, in_width. case_step; bool_prop; split; intros.
  - simplify_eq. lia.
  - destruct H1 as [_ ->]. done.
  - done.
  - lia.
Qed.

Lemma checked_None w z : 0 <= z -> checked w z = None <-> 2 ^ w <= z.
Proof.
  unfold checked. intros. case_step; bool_prop; split; intros; try done; lia.
Qed.

Lemma saturate_min w z : 0 <= z -> 0 <= w -> saturate w z = Z.min z (2 ^ w - 1).
Proof.
  unfold saturate. intros. pose proof (Z.pow_pos_nonneg 2 w). lia.
Qed.

Lemma saturate_in_width w z : 0 <= w -> in_width w (saturate w z).
Proof. unfold saturate, in_width. intros. pose proof (Z.pow_pos_nonneg 2 w). lia. Qed.

Lemma saturate_id w z : in_width w z -> saturate w z = z.
Proof. unfold saturate, in_width. lia. Qed.

Lemma div_ceil_le a b c : 0 < b -> div_ceil a b <= c <-> a <= c * b.
Proof.
  intros Hb. unfold div_ceil. case_step; bool_prop;
    pose proof (Z.div_mod a b); pose proof (Z.mod_pos_bound a b Hb); split; intros; nia.
Qed.

Lemma le_div a b c : 0 < b -> c <= a / b <-> c * b <= a.
Proof.
  intros Hb. pose proof (Z.div_mod a b); pose proof (Z.mod_pos_bound a b Hb); split; intros; nia.
Qed.

Lemma div_ceil_nonneg a b : 0 <= a -> 0 < b -> 0 <= div_ceil a b.
Proof. intros. unfold div_ceil. pose proof (Z.div_pos a b). case_step; lia. Qed.

(* ------------------------------------------------------------------ *)
(** ** Bit lemmas *)

Lemma bit_pow n : 0 <= n -> bit n = 2 ^ n.
Proof. intros. unfold bit. rewrite Z.shiftl_mul_pow2 by done. lia. Qed.

Lemma testbit_bit n k : 0 <= n -> Z.testbit (bit n) k = (n =? k).
Proof.
  intros. rewrite bit_pow by done. destruct (Z.eqb_spec n k) as [->|].
  - apply Z.pow2_bits_true; lia.
  - apply Z.pow2_bits_false; lia.
Qed.

Lemma has_bit v n : 0 <= n -> has v (bit n) = Z.testbit v n.
Proof.
  intros Hn. unfold has. destruct (Z.testbit v n) eqn:E.
  - apply negb_true_iff, Z.eqb_neq. intros H0.
    assert (Z.testbit (Z.land v (bit n)) n = true) as Ht.
    { rewrite Z.land_spec, E, testbit_bit by lia. by rewrite Z.eqb_refl. }
    rewrite H0, Z.bits_0 in Ht. done.
  - apply negb_false_iff, Z.eqb_eq, Z.bits_inj'. intros k Hk.
    rewrite Z.bits_0, Z.land_spec, testbit_bit by lia.
    destruct (Z.eqb_spec n k) as [->|]; [by rewrite E|apply andb_false_r].
Qed.

Lemma testbit_high w z k : 0 <= w -> in_width w z -> w <= k -> Z.testbit z k = false.
Proof.
  intros Hw Hz Hk. rewrite <-(Z.mod_small z (2 ^ w)) by done.
  apply Z.mod_pow2_bits_high; lia.
Qed.

Lemma in_width_bits w z :
  0 <= w -> 0 <= z -> (forall k, w <= k -> Z.testbit z k = false) -> in_width w z.
Proof.
  intros Hw Hz Hb. unfold in_width.
  replace z with (z mod 2 ^ w).
  - apply Z.mod_pos_bound, Z.pow_pos_nonneg; lia.
  - apply Z.bits_inj'. intros k Hk. destruct (Z.lt_ge_cases k w).
    + rewrite Z.mod_pow2_bits_low by lia. done.
    + rewrite Z.mod_pow2_bits_high by lia. by rewrite Hb.
Qed.

Lemma land_width w a b : 0 <= w -> in_width w a -> 0 <= b -> in_width w (Z.land a b).
Proof.
  intros Hw Ha Hb. apply in_width_bits; [done| |].
  - apply Z.land_nonneg. by right.
  - intros. rewrite Z.land_spec. by rewrite (testbit_high w a).
Qed.

Lemma land_width_r w a b : 0 <= w -> in_width w b -> in_width w (Z.land a b).
Proof.
  intros Hw [? Hb]. apply in_width_bits; [done| |].
  - apply Z.land_nonneg. by right.
  - intros. rewrite Z.land_spec, (testbit_high w b); [apply andb_false_r|done..].
Qed.

Lemma lor_width w a b : 0 <= w -> in_width w a -> in_width w b -> in_width w (Z.lor a b).
Proof.
  intros Hw [? ?] [? ?]. apply in_width_bits; [done| |].
  - apply Z.lor_nonneg. done.
  - intros. rewrite Z.lor_spec. by rewrite (testbit_high w a), (testbit_high w b).
Qed.

Lemma ldiff_width w a b : 0 <= w -> in_width w a -> in_width w (Z.ldiff a b).
Proof.
  intros Hw [? ?]. apply in_width_bits; [done| |].
  - apply Z.ldiff_nonneg. by left.
  - intros. rewrite Z.ldiff_spec. by rewrite (testbit_high w a).
Qed.

Lemma bit_width w n : 0 <= n < w -> in_width w (bit n).
Proof.
  intros. rewrite bit_pow by lia. unfold in_width.
  pose proof (Z.pow_pos_nonneg 2 n). pose proof (Z.pow_lt_mono_r 2 n w). lia.
Qed.

Lemma testbit_set v n k : 0 <= n -> Z.testbit (Z.lor v (bit n)) k = Z.testbit v k || (n =? k).
Proof. intros. by rewrite Z.lor_spec, testbit_bit. Qed.

Lemma testbit_clear v n k :
  0 <= n -> Z.testbit (Z.ldiff v (bit n)) k = Z.testbit v k && negb (n =? k).
Proof. intros. by rewrite Z.ldiff_spec, testbit_bit. Qed.

Lemma land_shiftl_low w lo hi : 0 <= w -> in_width w lo -> Z.land lo (Z.shiftl hi w) = 0.
Proof.
  intros Hw Hlo. apply Z.bits_inj'. intros n Hn. rewrite Z.land_spec, Z.bits_0.
  destruct (Z.lt_ge_cases n w).
  - by rewrite Z.shiftl_spec_low, andb_false_r by lia.
  - by rewrite (testbit_high w lo).
Qed.

(** Concatenation of bit fields. *)
Lemma lor_shiftl w lo hi : 0 <= w -> in_width w lo -> Z.lor lo (Z.shiftl hi w) = lo + 2 ^ w * hi.
Proof.
  intros Hw Hlo. rewrite <-Z.add_nocarry_lor by by apply land_shiftl_low.
  rewrite Z.shiftl_mul_pow2 by done. lia.
Qed.

#[export] Hint Resolve land_width_r lor_width ldiff_width bit_width : vm.
#[export] Hint Rewrite testbit_set testbit_clear has_bit testbit_bit using lia : vm_bits.

(* ------------------------------------------------------------------ *)
(** ** Little-endian byte strings *)

Lemma le_bytes_length n z : length (le_bytes n z) = n.
Proof. revert z. induction n; intros; simpl; auto. Qed.

Lemma le_value_bytes n z :
  0 <= z < 256 ^ Z.of_nat n -> le_value (le_bytes n z) = z.
Proof.
  revert z. induction n as [|n IH]; intros z Hz.
  - simpl in *. lia.
  - cbn [le_bytes le_value]. rewrite IH.
    + pose proof (Z.div_mod z 256). lia.
    + rewrite Nat2Z.inj_succ, Z.pow_succ_r in Hz by lia.
      split; [apply Z.div_pos; lia|apply Z.div_lt_upper_bound; lia].
Qed.

Lemma le_bytes_u8 n z : Forall u8 (le_bytes n z).
Proof.
  revert z. induction n; intros; simpl; constructor; auto.
  unfold in_width. change (2 ^ 8) with 256. by apply Z.mod_pos_bound.
Qed.

Lemma le_bytes_inj n a b :
  0 <= a < 256 ^ Z.of_nat n -> 0 <= b < 256 ^ Z.of_nat n -> le_bytes n a = le_bytes n b -> a = b.
Proof. intros Ha Hb E. by rewrite <-(le_value_bytes n a), <-(le_value_bytes n b), E. Qed.

Lemma le_value_bound bs : Forall u8 bs -> 0 <= le_value bs < 256 ^ Z.of_nat (length bs).
Proof.
  induction 1 as [|b bs Hb _ IH]; cbn [le_value length]; [lia|].
  rewrite Nat2Z.inj_succ, Z.pow_succ_r by lia. zlia.
Qed.

Lemma le_bytes_value bs : Forall u8 bs -> le_bytes (length bs) (le_value bs) = bs.
Proof.
  induction 1 as [|b bs Hb _ IH]; cbn [le_value le_bytes length]; [done|].
  widths. rewrite Z.mul_comm, Z.mod_add, Z.mod_small by lia.
  rewrite Z.div_add, Z.div_small, Z.add_0_l by lia. by rewrite IH.
Qed.

(* ------------------------------------------------------------------ *)
(** ** The first element of a list that is accepted, all before it being passed over *)

Section First.
Context {A : Type} (good pass : A -> Prop).

Definition first_such (l : list A) (i : A) : Prop :=
  exists k, l !! k = Some i /\ good i /\ forall k' j, (k' < k)%nat -> l !! k' = Some j -> pass j.

Lemma first_nil i : ~ first_such [] i.
Proof. intros (k & E & _). by rewrite lookup_nil in E. Qed.

Lemma first_hit x l i : good x -> ~ pass x -> first_such (x :: l) i <-> Some x = Some i.
Proof.
  intros Hg Hp. split.
  - intros ([|k] & E & _ & Hlt); [done|]. destruct Hp. by apply (Hlt 0%nat); [lia|].
  - intros [= ->]. exists 0%nat. split_and!; [done..|]. intros; lia.
Qed.

Lemma first_stop x l i : ~ good x -> ~ pass x -> ~ first_such (x :: l) i.
Proof.
  intros Hg Hp ([|k] & E & Hi & Hlt); [by injection E as <-|].
  destruct Hp. by apply (Hlt 0%nat); [lia|].
Qed.

Lemma first_skip x l i : ~ good x -> pass x -> first_such (x :: l) i <-> first_such l i.
Proof.
  intros Hg Hp. split.
  - intros ([|k] & E & Hi & Hlt); [by injection E as <-|]. exists k. split_and!; [done..|].
    intros k' j ? ?. apply (Hlt (S k')); [lia|done].
  - intros (k & E & Hi & Hlt). exists (S k). split_and!; [done..|].
    intros [|k'] j Hk E'; [by injection E' as <-|]. by apply (Hlt k'); [lia|].
Qed.
End First.

Lemma find_first {A} (f : A -> bool) l i :
  List.find f l = Some i <-> first_such (fun x => f x = true) (fun x => f x = false) l i.
Proof.
  induction l as [|x l IH]; cbn [List.find].
  - split; [done|]. by intros ?%first_nil.
  - destruct (f x) eqn:E; [rewrite first_hit by congruence|rewrite IH, first_skip by congruence]; done.
Qed.

Lemma zlen_app {A} (l k : list A) : zlen (l ++ k) = zlen l + zlen k.
Proof. unfold zlen. rewrite length_app. lia. Qed.
Lemma zlen_cons {A} (a : A) (l : list A) : zlen (a :: l) = 1 + zlen l.
Proof. unfold zlen. cbn [length]. lia. Qed.
Lemma zlen_nonneg {A} (l : list A) : 0 <= zlen l.
Proof. unfold zlen. lia. Qed.
Lemma zlen_nil {A} : zlen (@nil A) = 0.
Proof. done. Qed.
Lemma zlen_le_bytes n z : zlen (le_bytes n z) = Z.of_nat n.
Proof. unfold zlen. by rewrite le_bytes_length. Qed.

Lemma slice_Some l a b x :
  slice l a b = Some x <-> 0 <= a <= b /\ b <= zlen l /\
    x = take (Z.to_nat (b - a)) (drop (Z.to_nat a) l).
Proof.
  unfold slice. destruct ((0 <=? a) && (a <=? b) && (b <=? zlen l)) eqn:E; split; intros H.
  - bool_prop. simplify_eq. repeat split; try lia.
  - by destruct H as (_ & _ & ->).
  - done.
  - exfalso. repeat (apply andb_false_iff in E as [E|E]; bool_prop); lia.
Qed.

(** A range exactly covered is replaced. *)
Lemma splice_exact pre mid post v :
  length v = length mid -> splice (pre ++ mid ++ post) (zlen pre) v = pre ++ v ++ post.
Proof.
  intros H. unfold splice, zlen. rewrite Nat2Z.id, take_app_length. f_equal. f_equal.
  rewrite H, app_assoc, <- length_app. apply drop_app_length.
Qed.

#[global] Arguments le_bytes : simpl never.
