(* ===== verification/Clock.v ===== *)
(** * Clock rates and CPU modes

    [ClockRate] (crates/izarravm-core/src/clock.rs): exact rational clock rates
    against the fixed machine timeline of [MASTER_CLOCK_HZ] ticks per second,
    with the rounding and saturation of the [u64]/[u128] arithmetic.
    [GswMode] (crates/izarravm-core/src/gsw.rs): the four CPU modes, their table
    of specifications, and the parsing of a mode's name. *)

From stdpp Require Import strings.
From Stdlib Require Import Ascii.
From S2P Require Import Prelude.

Module Rate.

Definition MASTER_CLOCK_HZ : Z := 5478000000.

(** [saturating_u64]: a [u128] clamped at [u64::MAX]. *)
Definition saturating_u64 (value : Z) : Z :=
  if U64_MAX <? value then U64_MAX else value.

Record ClockRate := mkClockRate { numerator_hz : Z; denominator : Z }.

(** [None]: one of the two assertions of the constructor fails. *)
Definition new (numerator_hz denominator : Z) : option ClockRate :=
  if numerator_hz =? 0 then None
  else if denominator =? 0 then None
  else Some (mkClockRate numerator_hz denominator).

Definition from_hz (hz : Z) : option ClockRate := new hz 1.

Definition master_ticks_per_clock (r : ClockRate) : option Z :=
  let scaled := MASTER_CLOCK_HZ * denominator r in
  let divisor := numerator_hz r in
  if negb (scaled mod divisor =? 0) then None
  else
    let ticks := scaled / divisor in
    if U64_MAX <? ticks then None else Some ticks.

Definition master_ticks_for_clocks_floor (r : ClockRate) (clocks : Z) : Z :=
  let per_clock := MASTER_CLOCK_HZ * denominator r in
  match checked 128 (per_clock * clocks) with
  | Some scaled => saturating_u64 (scaled / numerator_hz r)
  | None => U64_MAX
  end.

Definition master_ticks_for_clocks_ceil (r : ClockRate) (clocks : Z) : Z :=
  let per_clock := MASTER_CLOCK_HZ * denominator r in
  match checked 128 (per_clock * clocks) with
  | Some scaled => saturating_u64 (div_ceil scaled (numerator_hz r))
  | None => U64_MAX
  end.

Definition clocks_for_master_ticks_floor (r : ClockRate) (master_ticks : Z) : Z :=
  let scaled := master_ticks * numerator_hz r in
  let divisor := MASTER_CLOCK_HZ * denominator r in
  saturating_u64 (scaled / divisor).

Definition clocks_for_master_ticks_ceil (r : ClockRate) (master_ticks : Z) : Z :=
  let scaled := master_ticks * numerator_hz r in
  let divisor := MASTER_CLOCK_HZ * denominator r in
  saturating_u64 (div_ceil scaled divisor).

(** [None]: the assertion on the denominator fails. *)
Definition clocks_for_fraction_floor (r : ClockRate)
    (seconds_numerator seconds_denominator : Z) : option Z :=
  if seconds_denominator =? 0 then None
  else
    let clocks :=
      (numerator_hz r * seconds_numerator) / (denominator r * seconds_denominator) in
    Some (saturating_u64 clocks).

Definition floor_hz (r : ClockRate) : Z := numerator_hz r / denominator r.

(** The rates the constructor can produce. *)
Definition wf (r : ClockRate) : Prop :=
  0 < numerator_hz r <= U64_MAX /\ 0 < denominator r <= U64_MAX.

(* ------------------------------------------------------------------ *)

Lemma new_wf n d r : u64 n -> u64 d -> new n d = Some r -> wf r.
Proof.
  unfold new, wf. intros Hn Hd. cases; intros; simplify_eq; bool_prop; cbn; zlia.
Qed.

Lemma saturating_u64_min v : saturating_u64 v = Z.min v U64_MAX.
Proof. unfold saturating_u64. case_step; bool_prop; lia. Qed.

(** A saturated value compared with an unsaturated bound. *)
Lemma saturating_le v c : c < U64_MAX -> saturating_u64 v <= c <-> v <= c.
Proof. rewrite saturating_u64_min. lia. Qed.

Lemma le_saturating v c : c <= U64_MAX -> c <= saturating_u64 v <-> c <= v.
Proof. rewrite saturating_u64_min. lia. Qed.

(** An overflowing [u128] product is past every [u64] quotient. *)
Lemma overflow_big m n c : 0 < n <= U64_MAX -> checked 128 m = None -> 0 <= m ->
  0 <= c <= U64_MAX -> c * n < m.
Proof.
  intros Hn Hm H0 Hc. apply checked_None in Hm; [|done].
  assert (c * n <= U64_MAX * U64_MAX) by nia. zlia.
Qed.

(** Rounding is exact in the causal direction: the first master tick by
    which [clocks] clocks have elapsed ([master_ticks_for_clocks_ceil]) and the
    clocks elapsed by a tick ([clocks_for_master_ticks_floor]) form a Galois
    connection, for every rate a constructor can build, whatever saturates. *)
Theorem clocks_ticks_galois r clocks ticks :
  wf r -> u64 clocks -> 0 <= ticks < U64_MAX ->
  master_ticks_for_clocks_ceil r clocks <= ticks <->
  clocks <= clocks_for_master_ticks_floor r ticks.
Proof.
  intros [Hn Hd] Hc Ht.
  unfold master_ticks_for_clocks_ceil, clocks_for_master_ticks_floor.
  assert (0 < MASTER_CLOCK_HZ * denominator r) by (unfold MASTER_CLOCK_HZ; lia).
  rewrite le_saturating, le_div by zlia.
  destruct (checked _ _) as [s|] eqn:E.
  - apply checked_Some in E as [_ ->].
    rewrite saturating_le, div_ceil_le by lia. lia.
  - pose proof (overflow_big _ (numerator_hz r) ticks Hn E). zlia.
Qed.

(** The same for the two roundings in the other direction. *)
Theorem ticks_clocks_galois r clocks ticks :
  wf r -> 0 <= clocks < U64_MAX -> u64 ticks ->
  clocks_for_master_ticks_ceil r ticks <= clocks <->
  ticks <= master_ticks_for_clocks_floor r clocks.
Proof.
  intros [Hn Hd] Hc Ht.
  unfold clocks_for_master_ticks_ceil, master_ticks_for_clocks_floor.
  assert (0 < MASTER_CLOCK_HZ * denominator r) by (unfold MASTER_CLOCK_HZ; lia).
  rewrite saturating_le, div_ceil_le by lia.
  destruct (checked _ _) as [s|] eqn:E.
  - apply checked_Some in E as [_ ->].
    rewrite le_saturating, le_div by zlia. lia.
  - pose proof (overflow_big _ (numerator_hz r) ticks Hn E). zlia.
Qed.

Lemma clocks_ticks_galois_witness :
  wf (mkClockRate 22000000 3) /\
  (master_ticks_for_clocks_ceil (mkClockRate 22000000 3) 7 <= 5229 <->
   7 <= clocks_for_master_ticks_floor (mkClockRate 22000000 3) 5229).
Proof.
  split.
  - unfold wf. cbn. unfold U64_MAX. lia.
  - apply (clocks_ticks_galois (mkClockRate 22000000 3) 7 5229);
      [unfold wf; cbn; unfold U64_MAX; lia|zlia|unfold U64_MAX; lia].
Defined.

End Rate.

Module Gsw.
Import Rate.

Inductive GswMode := Gsw386Slow | Gsw386 | Gsw486 | Gsw586.
#[export] Instance GswMode_eq_dec : EqDecision GswMode.
Proof. solve_decision. Defined.

Inductive CpuPersona := I386 | I486 | I586.

Definition has_fpu (p : CpuPersona) : bool :=
  match p with I486 | I586 => true | I386 => false end.

Inductive L1Cache :=
| L1None
| L1Unified (kib : Z)
| L1Split (instruction_kib data_kib : Z).

Definition total_kib (c : L1Cache) : Z :=
  match c with
  | L1None => 0
  | L1Unified kib => kib
  | L1Split instruction_kib data_kib => wrap 16 (instruction_kib + data_kib)
  end.

Record CacheGeometry := mkCacheGeometry { l1 : L1Cache; external_kib : Z }.

Definition compatibility_kib (g : CacheGeometry) : Z * Z :=
  (total_kib (l1 g), external_kib g).

Record GswModeSpec := mkSpec {
  mode : GswMode;
  canonical_name_of : string;
  rank_of : Z;
  register_code_of : Z;
  clock_of : ClockRate;
  persona_of : CpuPersona;
  cache_of : CacheGeometry
}.

Definition GSW_MODE_SPECS : list GswModeSpec := [
  mkSpec Gsw386Slow "386-slow" 0 3 (mkClockRate 22000000 3) I386
    (mkCacheGeometry L1None 512);
  mkSpec Gsw386 "386" 1 0 (mkClockRate 22000000 1) I386
    (mkCacheGeometry L1None 512);
  mkSpec Gsw486 "486" 2 1 (mkClockRate 66000000 1) I486
    (mkCacheGeometry (L1Unified 8) 512);
  mkSpec Gsw586 "586" 3 2 (mkClockRate 166000000 1) I586
    (mkCacheGeometry (L1Split 16 16) 512)
].

Definition spec (m : GswMode) : option GswModeSpec :=
  match m with
  | Gsw386Slow => GSW_MODE_SPECS !! 0%nat
  | Gsw386 => GSW_MODE_SPECS !! 1%nat
  | Gsw486 => GSW_MODE_SPECS !! 2%nat
  | Gsw586 => GSW_MODE_SPECS !! 3%nat
  end.

(** The [while] scan of the table for the first row whose key matches. *)
Fixpoint find_spec (key : GswModeSpec -> Z) (v : Z) (specs : list GswModeSpec) : option GswMode :=
  match specs with
  | [] => None
  | s :: rest => if key s =? v then Some (mode s) else find_spec key v rest
  end.

Definition from_rank (rank : Z) : option GswMode := find_spec rank_of rank GSW_MODE_SPECS.
Definition from_register_code (code : Z) : option GswMode :=
  find_spec register_code_of code GSW_MODE_SPECS.

Definition canonical_name (m : GswMode) : option string := canonical_name_of <$> spec m.
Definition rank (m : GswMode) : option Z := rank_of <$> spec m.
Definition register_code (m : GswMode) : option Z := register_code_of <$> spec m.
Definition clock_rate (m : GswMode) : option ClockRate := clock_of <$> spec m.
Definition persona (m : GswMode) : option CpuPersona := persona_of <$> spec m.
Definition cache_geometry (m : GswMode) : option CacheGeometry := cache_of <$> spec m.
Definition cache_kb (m : GswMode) : option (Z * Z) := compatibility_kib <$> cache_geometry m.

Definition uses_approximate_timing (m : GswMode) : option bool :=
  (fun p => match p with I486 | I586 => true | I386 => false end) <$> persona m.

(** [exact_cpu_quantum]: master ticks in one CPU clock; [None] is its [expect]. *)
Definition exact_cpu_quantum (m : GswMode) : option Z :=
  clock_rate m ≫= master_ticks_per_clock.

(** [char::to_ascii_lowercase] *)
Definition ascii_lower (c : ascii) : ascii :=
  let n := nat_of_ascii c in
  if (65 <=? n)%nat && (n <=? 90)%nat then ascii_of_nat (n + 32) else c.

Fixpoint normalize (value : string) : string :=
  match value with
  | EmptyString => EmptyString
  | String c rest =>
      if bool_decide (c = "-"%char) || bool_decide (c = " "%char)
      then normalize rest
      else String (ascii_lower c) (normalize rest)
  end.

Inductive ConfigError :=
| RemovedCpu286
| UnknownPreset (kind value : string).

Definition one_of (s : string) (names : list string) : bool :=
  existsb (String.eqb s) names.

Definition from_str (value : string) : result ConfigError GswMode :=
  let n := normalize value in
  if one_of n ["286"; "80286"; "i286"; "gsw286"]%string then Err RemovedCpu286
  else if one_of n ["386"; "gsw386"; "386dx25"; "i386dx25"; "i386dx_25"; "386_25"]%string
  then Ok Gsw386
  else if one_of n ["386slow"; "slow"; "gsw386slow"]%string then Ok Gsw386Slow
  else if one_of n ["486"; "gsw486"; "486dx266"; "i486dx266"; "i486dx2_66"; "486dx2_66"]%string
  then Ok Gsw486
  else if one_of n ["586"; "gsw586"]%string then Ok Gsw586
  else Err (UnknownPreset "CPU" value).

(* ------------------------------------------------------------------ *)

Lemma find_spec_Some (key : GswModeSpec -> Z) v specs m :
  find_spec key v specs = Some m -> exists s, s ∈ specs /\ key s = v /\ mode s = m.
Proof.
  induction specs as [|s specs IH]; cbn; [done|]. case_step; bool_prop; intros; simplify_eq.
  - exists s. split; [constructor|done].
  - destruct (IH H) as (s' & ? & ? & ?). exists s'. split; [by constructor|done].
Qed.

Lemma exact_cpu_quantum_values :
  exact_cpu_quantum <$> [Gsw386Slow; Gsw386; Gsw486; Gsw586]
  = [Some 747; Some 249; Some 83; Some 33].
Proof. reflexivity. Qed.

Lemma exact_cpu_quantum_total m :
  exists q, exact_cpu_quantum m = Some q /\ 0 < q <= MASTER_CLOCK_HZ.
Proof. destruct m; eexists; (split; [reflexivity|]); vm_compute; split; discriminate || reflexivity. Qed.

(** The mode codes are faithful: the name, the rank and the hardware register
    code a mode is written out with are each read back as that mode, only the
    modes' own ranks and codes are accepted, and every mode's clock divides the
    machine timeline exactly, one CPU clock being a whole number of ticks. *)
Theorem gsw_mode_codes :
  (forall m, exists name r c q,
     canonical_name m = Some name /\ from_str name = Ok m /\
     rank m = Some r /\ from_rank r = Some m /\
     register_code m = Some c /\ from_register_code c = Some m /\
     exact_cpu_quantum m = Some q /\ 0 < q /\
     forall rate, clock_rate m = Some rate ->
       q * numerator_hz rate = MASTER_CLOCK_HZ * denominator rate) /\
  (forall r m, from_rank r = Some m -> rank m = Some r) /\
  (forall c m, from_register_code c = Some m -> register_code m = Some c).
Proof.
  repeat split.
  - intros m. destruct m; do 4 eexists; repeat split; try reflexivity;
      intros rate Hr; vm_compute in Hr; simplify_eq; reflexivity.
  - intros r m (s & Hs & <- & <-)%find_spec_Some.
    unfold GSW_MODE_SPECS in Hs. rewrite !elem_of_cons in Hs.
    destruct Hs as [->|[->|[->|[->|[]%not_elem_of_nil]]]]; reflexivity.
  - intros r m (s & Hs & <- & <-)%find_spec_Some.
    unfold GSW_MODE_SPECS in Hs. rewrite !elem_of_cons in Hs.
    destruct Hs as [->|[->|[->|[->|[]%not_elem_of_nil]]]]; reflexivity.
Qed.

End Gsw.
