(* ===== verification/Canonical.v ===== *)
(** * The canonical state container

    crates/izarravm-core/src/canonical_state.rs: the field writer with which every
    device emits its section payload, the container writer (ordered sections,
    rollback of a failed section, back-patched length and count fields) and the
    validating parser.

    A field writer is a computation on the byte vector that may stop with an
    error, leaving the bytes it had already appended.  Reserving memory may
    fail: the allocator is a parameter ([Allocator]). *)

From S2P Require Import Prelude.

(** Whether [Vec::try_reserve] succeeds on a vector of the given length for the
    given number of additional elements. *)
Class Allocator := try_reserve : Z -> Z -> bool.

(** An allocator with memory for every request. *)
Definition plentiful (A : Allocator) : Prop := forall len additional, try_reserve len additional = true.

Definition HEADER_LEN : Z := 20.
Definition SECTION_HEADER_LEN : Z := 16.
Definition HEADER_FLAGS_OFFSET : Z := 12.
Definition SECTION_COUNT_OFFSET : Z := 16.
Definition OPTIONAL_SECTION_FLAG : Z := 1.
(** [*b"IZCSTATE"] *)
Definition CANONICAL_STATE_CONTAINER_MAGIC : list Z := [73; 90; 67; 83; 84; 65; 84; 69].
Definition CANONICAL_STATE_CONTAINER_MAJOR : Z := 1.
Definition CANONICAL_STATE_CONTAINER_MINOR : Z := 0.

Inductive CanonicalSectionRequirement := Required | Optional.

Inductive CanonicalStateError :=
| AllocationFailed
| LengthOverflow
| SectionCountOverflow
| SectionOutOfOrder (previous next : Z)
| TruncatedHeader
| InvalidMagic
| UnsupportedMajorVersion (found : Z)
| UnsupportedHeaderFlags (found : Z)
| TruncatedSectionHeader (index : Z)
| ReservedSectionId
| ReservedSectionVersion (section_id : Z)
| UnsupportedSectionFlags (section_id found : Z)
| TruncatedSectionPayload (section_id declared remaining : Z)
| TrailingBytes (count : Z).

Abbreviation res := (result CanonicalStateError).

(** [NonZeroU32] / [NonZeroU16] constructors. *)
Definition section_id_new (v : Z) : option Z := if v =? 0 then None else Some v.
Definition section_version_new (v : Z) : option Z := if v =? 0 then None else Some v.

Definition flags (r : CanonicalSectionRequirement) : Z :=
  match r with Required => 0 | Optional => OPTIONAL_SECTION_FLAG end.

Definition from_flags (f : Z) : option CanonicalSectionRequirement :=
  if f =? 0 then Some Required
  else if f =? OPTIONAL_SECTION_FLAG then Some Optional
  else None.

Definition checked_add (l r : Z) : res Z :=
  match checked 64 (l + r) with Some s => Ok s | None => Err LengthOverflow end.

Section Fields.
Context {Alloc : Allocator}.

(** [reserve(values, additional)] on a vector of length [len]. *)
Definition reserve (len additional : Z) : res unit :=
  match checked 64 (len + additional) with
  | None => Err LengthOverflow
  | Some _ => if try_reserve len additional then Ok tt else Err AllocationFailed
  end.

(** A computation of [CanonicalFieldWriter]: it appends to the byte vector and
    may stop with an error. *)
Definition FW : Type := list Z -> list Z * res unit.

Definition fw_seq (a b : FW) : FW := fun bytes =>
  match a bytes with
  | (bytes', Ok _) => b bytes'
  | (bytes', Err e) => (bytes', Err e)
  end.

Definition fw_ok : FW := fun bytes => (bytes, Ok tt).

Definition fw_each {A} (f : A -> FW) (l : list A) : FW :=
  foldr (fun a k => fw_seq (f a) k) fw_ok l.

Definition append (value : list Z) : FW := fun bytes =>
  match reserve (zlen bytes) (zlen value) with
  | Err e => (bytes, Err e)
  | Ok _ => (bytes ++ value, Ok tt)
  end.

Definition write_u8 (v : Z) : FW := append [v].
Definition write_u16 (v : Z) : FW := append (le_bytes 2 v).
Definition write_u32 (v : Z) : FW := append (le_bytes 4 v).
Definition write_u64 (v : Z) : FW := append (le_bytes 8 v).
(** Two's complement: [le_bytes] of a negative number. *)
Definition write_i8 (v : Z) : FW := append (le_bytes 1 v).
Definition write_i16 (v : Z) : FW := append (le_bytes 2 v).
Definition write_i32 (v : Z) : FW := append (le_bytes 4 v).
Definition write_i64 (v : Z) : FW := append (le_bytes 8 v).
Definition write_bool (v : bool) : FW := write_u8 (b2z v).
Definition write_raw_bytes (v : list Z) : FW := append v.
Definition write_tag (v : Z) : FW := write_u32 v.
Definition write_count (v : Z) : FW := write_u64 v.

Definition write_len_prefixed_bytes (v : list Z) : FW := fun bytes =>
  let reserved : res Z :=
    let! encoded_len := checked 64 (zlen v) else LengthOverflow in
    let? additional := checked_add 8 (zlen v) in
    let? _ := reserve (zlen bytes) additional in
    Ok encoded_len in
  match reserved with
  | Err e => (bytes, Err e)
  | Ok encoded_len => (bytes ++ le_bytes 8 encoded_len ++ v, Ok tt)
  end.

(* ------------------------------------------------------------------ *)
(** ** What a field writer emits

    [emits w out]: on success [w] has appended exactly [out]; on failure it has
    appended a prefix of it, and with a plentiful allocator it fails only when
    the vector would outgrow [usize]. *)

Definition emits (w : FW) (out : list Z) : Prop := forall bs, exists pre r,
  w bs = (bs ++ pre, r) /\
  match r with
  | Ok _ => pre = out
  | Err _ => pre `prefix_of` out /\ (plentiful Alloc -> 2 ^ 64 <= zlen (bs ++ out))
  end.

Lemma reserve_Err len n e :
  0 <= len -> 0 <= n -> reserve len n = Err e -> plentiful Alloc -> 2 ^ 64 <= len + n.
Proof.
  unfold reserve. intros Hl Hn. destruct (checked _ _) eqn:E.
  - intros He Hp. by rewrite Hp in He.
  - intros _ _. by apply checked_None in E; [|lia].
Qed.

Lemma emits_append out : emits (append out) out.
Proof.
  intros bs. unfold append. destruct (reserve _ _) as [|e] eqn:E.
  - by exists out, (Ok tt).
  - exists [], (Err e). rewrite app_nil_r. split; [done|]. split; [apply prefix_nil|].
    intros Hp. rewrite zlen_app. by eapply reserve_Err; eauto using zlen_nonneg.
Qed.

Lemma emits_Ok w out bs bs' u : emits w out -> w bs = (bs', Ok u) -> bs' = bs ++ out.
Proof. intros H E. destruct (H bs) as (pre & r & E' & Hr). rewrite E in E'. by simplify_eq. Qed.

Lemma emits_ok : emits fw_ok [].
Proof. intros bs. exists [], (Ok tt). by rewrite app_nil_r. Qed.

Lemma emits_seq a b out1 out2 :
  emits a out1 -> emits b out2 -> emits (fw_seq a b) (out1 ++ out2).
Proof.
  intros Ha Hb bs. unfold fw_seq. destruct (Ha bs) as (pre & r & -> & Hr).
  destruct r as [|e].
  - subst pre. destruct (Hb (bs ++ out1)) as (pre & r & -> & Hr).
    exists (out1 ++ pre), r. rewrite (assoc_L (++)). split; [done|].
    destruct r; [by subst|]. destruct Hr as [Hpre Hsz]. split; [by apply prefix_app|].
    by rewrite (assoc_L (++)).
  - exists pre, (Err e). split; [done|]. destruct Hr as [Hpre Hsz].
    split; [by apply prefix_app_r|]. intros Hp. specialize (Hsz Hp).
    rewrite !zlen_app in *. pose proof (zlen_nonneg out2). lia.
Qed.

Lemma emits_each {A} (f : A -> FW) (out : A -> list Z) (l : list A) :
  (forall a, emits (f a) (out a)) -> emits (fw_each f l) (concat (out <$> l)).
Proof.
  intros Hf. induction l as [|a l IH]; cbn.
  - apply emits_ok.
  - by apply emits_seq.
Qed.

Lemma emits_len_prefixed v : u64 (zlen v) ->
  emits (write_len_prefixed_bytes v) (le_bytes 8 (zlen v) ++ v).
Proof.
  intros Hv bs. unfold write_len_prefixed_bytes, checked_add.
  assert (checked 64 (zlen v) = Some (zlen v)) as -> by by apply checked_Some.
  destruct (checked 64 (8 + zlen v)) as [s|] eqn:E.
  - apply checked_Some in E as [_ ->]. destruct (reserve _ _) as [|e] eqn:E.
    + by eexists _, _.
    + exists [], (Err e). rewrite app_nil_r. split; [done|]. split; [apply prefix_nil|].
      intros Hp. apply reserve_Err in E; [|auto using zlen_nonneg| |done].
      * rewrite !zlen_app, zlen_le_bytes. lia.
      * pose proof (zlen_nonneg v). lia.
  - exists [], (Err LengthOverflow). rewrite app_nil_r. split; [done|]. split; [apply prefix_nil|].
    intros _. apply checked_None in E; [|pose proof (zlen_nonneg v); lia].
    rewrite !zlen_app, zlen_le_bytes. pose proof (zlen_nonneg bs). lia.
Qed.

End Fields.

Arguments emits {Alloc} w out.
#[export] Hint Resolve emits_append emits_ok emits_seq : vm.

(** Writes run one after the other, stopping at the first error. *)
Notation "a >> b" := (fw_seq a b) (at level 60, right associativity) : vm_scope.

(** The state a device contributes to the container: a payload of a fixed
    number of bytes, written field by field. *)
Class CanonicalPayload {Alloc : Allocator} (T : Type) := {
  payload_wf : T -> Prop;
  payload : T -> list Z;
  payload_len : nat;
  write_payload : T -> FW;
  write_payload_emits : forall t, emits (write_payload t) (payload t);
  payload_length : forall t, payload_wf t -> length (payload t) = payload_len
}.

(* ------------------------------------------------------------------ *)

Module Container.
Section Container.
Context {Alloc : Allocator}.

Record CanonicalStateWriter := mkWriter {
  bytes : list Z;
  section_count : Z;
  last_section : option Z
}.

Definition new : res CanonicalStateWriter :=
  let? _ := reserve 0 HEADER_LEN in
  Ok (mkWriter
    (CANONICAL_STATE_CONTAINER_MAGIC
     ++ le_bytes 2 CANONICAL_STATE_CONTAINER_MAJOR
     ++ le_bytes 2 CANONICAL_STATE_CONTAINER_MINOR
     ++ le_bytes 4 0
     ++ le_bytes 4 0) 0 None).

(** The closure of [section] that writes header and payload. *)
Definition section_body (id version : Z) (requirement : CanonicalSectionRequirement)
    (write : FW) : FW := fun bs0 =>
  match reserve (zlen bs0) SECTION_HEADER_LEN with
  | Err e => (bs0, Err e)
  | Ok _ =>
      let bs1 := bs0 ++ le_bytes 4 id ++ le_bytes 2 version ++ le_bytes 2 (flags requirement) in
      let length_offset := zlen bs1 in
      let bs2 := bs1 ++ le_bytes 8 0 in
      let payload_start := zlen bs2 in
      match write bs2 with
      | (bs3, Err e) => (bs3, Err e)
      | (bs3, Ok _) =>
          let back_patch : res (list Z) :=
            let! payload_len := checked 64 (zlen bs3 - payload_start) else LengthOverflow in
            let? _ := checked_add length_offset 8 in
            Ok (splice bs3 length_offset (le_bytes 8 payload_len)) in
          match back_patch with
          | Err e => (bs3, Err e)
          | Ok bs4 => (bs4, Ok tt)
          end
      end
  end.

(** The ascending-identifier check of the writer and of the parser. *)
Definition in_order (last : option Z) (id : Z) : res unit :=
  match last with
  | Some previous =>
      ensure negb (id <=? previous) else SectionOutOfOrder previous id in Ok tt
  | None => Ok tt
  end.

Definition section (w : CanonicalStateWriter) (id version : Z)
    (requirement : CanonicalSectionRequirement) (write : FW) : CanonicalStateWriter * res unit :=
  let counted : res Z :=
    let? _ := in_order (last_section w) id in
    let! next_count := checked 32 (section_count w + 1) else SectionCountOverflow in
    Ok next_count in
  match counted with
  | Err e => (w, Err e)
  | Ok next_count =>
      let section_start := zlen (bytes w) in
      match section_body id version requirement write (bytes w) with
      | (bs, Err e) =>
          (mkWriter (take (Z.to_nat section_start) bs) (section_count w) (last_section w), Err e)
      | (bs, Ok _) => (mkWriter bs next_count (Some id), Ok tt)
      end
  end.

(* ------------------------------------------------------------------ *)

Record CanonicalSection := mkSection {
  id : Z;
  version : Z;
  requirement : CanonicalSectionRequirement;
  payload_of : list Z
}.

Record CanonicalStateView := mkView { minor_version : Z; sections : list CanonicalSection }.

(** [read_u16], [read_u32], [read_u64]: [n] little-endian bytes at [offset]. *)
Definition read_le (n : Z) (bs : list Z) (offset : Z) : res Z :=
  let? end_ := checked_add offset n in
  let! raw := slice bs offset end_ else TruncatedHeader in
  Ok (le_value raw).
Definition read_u16 := read_le 2.
Definition read_u32 := read_le 4.
Definition read_u64 := read_le 8.

(** One iteration of the parser's loop: the section at [cursor] and the cursor
    behind it.  [n_sections] is the number of sections already collected. *)
Definition parse_section (bs : list Z) (index cursor : Z) (last : option Z)
    (n_sections : Z) : res (CanonicalSection * Z) :=
  let? header_end := checked_add cursor SECTION_HEADER_LEN in
  ensure negb (zlen bs <? header_end) else TruncatedSectionHeader index in
  let? raw_id := read_u32 bs cursor in
  let! sid := section_id_new raw_id else ReservedSectionId in
  let? _ := in_order last raw_id in
  let? raw_version := read_u16 bs (cursor + 4) in
  let! ver := section_version_new raw_version else ReservedSectionVersion raw_id in
  let? raw_flags := read_u16 bs (cursor + 6) in
  let! req := from_flags raw_flags else UnsupportedSectionFlags raw_id raw_flags in
  let? declared := read_u64 bs (cursor + 8) in
  let! payload_len := checked 64 declared else LengthOverflow in
  let! payload_end := checked 64 (header_end + payload_len) else LengthOverflow in
  ensure negb (zlen bs <? payload_end)
    else TruncatedSectionPayload raw_id declared (saturate 64 (zlen bs - header_end)) in
  let? _ := reserve n_sections 1 in
  let! payload := slice bs header_end payload_end else LengthOverflow in
  Ok (mkSection sid ver req payload, payload_end).

(** [for index in index..section_count], [remaining] iterations left. *)
Fixpoint parse_sections (remaining : nat) (bs : list Z) (index cursor : Z) (last : option Z)
    (acc : list CanonicalSection) : res (list CanonicalSection * Z) :=
  match remaining with
  | O => Ok (acc, cursor)
  | S k =>
      let? (s, next) := parse_section bs index cursor last (zlen acc) in
      parse_sections k bs (index + 1) next (Some (id s)) (acc ++ [s])
  end.

Definition parse (bs : list Z) : res CanonicalStateView :=
  ensure negb (zlen bs <? HEADER_LEN) else TruncatedHeader in
  ensure bool_decide (take 8 bs = CANONICAL_STATE_CONTAINER_MAGIC) else InvalidMagic in
  let? major := read_u16 bs 8 in
  ensure major =? CANONICAL_STATE_CONTAINER_MAJOR else UnsupportedMajorVersion major in
  let? minor := read_u16 bs 10 in
  let? header_flags := read_u32 bs HEADER_FLAGS_OFFSET in
  ensure header_flags =? 0 else UnsupportedHeaderFlags header_flags in
  let? section_count := read_u32 bs SECTION_COUNT_OFFSET in
  let? (secs, cursor) := parse_sections (Z.to_nat section_count) bs 0 HEADER_LEN None [] in
  ensure cursor =? zlen bs else TrailingBytes (zlen bs - cursor) in
  Ok (mkView minor secs).

(** [finish]: back-patch the section count and validate. *)
Definition finish (w : CanonicalStateWriter) : res (list Z) :=
  let? _ := checked_add SECTION_COUNT_OFFSET 4 in
  let bs := splice (bytes w) SECTION_COUNT_OFFSET (le_bytes 4 (section_count w)) in
  let? _ := parse bs in
  Ok bs.

(* ------------------------------------------------------------------ *)
(** ** The format: the byte string of a view *)

Definition enc_section (s : CanonicalSection) : list Z :=
  le_bytes 4 (id s) ++ le_bytes 2 (version s) ++ le_bytes 2 (flags (requirement s))
  ++ le_bytes 8 (zlen (payload_of s)) ++ payload_of s.

Definition enc_header (minor count : Z) : list Z :=
  CANONICAL_STATE_CONTAINER_MAGIC ++ le_bytes 2 CANONICAL_STATE_CONTAINER_MAJOR
  ++ le_bytes 2 minor ++ le_bytes 4 0 ++ le_bytes 4 count.

Definition enc_sections (secs : list CanonicalSection) : list Z := concat (enc_section <$> secs).

Lemma enc_sections_cons s secs : enc_sections (s :: secs) = enc_section s ++ enc_sections secs.
Proof. reflexivity. Qed.

Lemma enc_sections_snoc secs s : enc_sections (secs ++ [s]) = enc_sections secs ++ enc_section s.
Proof. unfold enc_sections. rewrite fmap_app, concat_app. cbn. by rewrite app_nil_r. Qed.

Definition encode (v : CanonicalStateView) : list Z :=
  enc_header (minor_version v) (zlen (sections v)) ++ enc_sections (sections v).

Definition valid_section (s : CanonicalSection) : Prop :=
  0 < id s < 2 ^ 32 /\ 0 < version s < 2 ^ 16 /\ zlen (payload_of s) < 2 ^ 64.

(** Identifiers ascend strictly from [last]. *)
Fixpoint ascending (last : option Z) (secs : list CanonicalSection) : Prop :=
  match secs with
  | [] => True
  | s :: rest => in_order last (id s) = Ok tt /\ ascending (Some (id s)) rest
  end.

Definition valid_view (v : CanonicalStateView) : Prop :=
  u16 (minor_version v) /\ u32 (zlen (sections v)) /\
  Forall valid_section (sections v) /\ ascending None (sections v).

(* ------------------------------------------------------------------ *)
(** ** Slices and reads *)

Lemma slice_at pre x post : slice (pre ++ x ++ post) (zlen pre) (zlen pre + zlen x) = Some x.
Proof.
  apply slice_Some. rewrite !zlen_app.
  pose proof (zlen_nonneg pre). pose proof (zlen_nonneg x). pose proof (zlen_nonneg post).
  repeat split; try lia.
  unfold zlen. rewrite Nat2Z.id, drop_app_length.
  replace (Z.to_nat _) with (length x) by lia. by rewrite take_app_length.
Qed.

Lemma slice_app l a b c x y :
  slice l a b = Some x -> slice l b c = Some y -> slice l a c = Some (x ++ y).
Proof.
  rewrite !slice_Some. intros (? & ? & ->) (? & ? & ->).
  repeat split; try lia.
  replace (Z.to_nat b) with (Z.to_nat a + Z.to_nat (b - a))%nat by lia.
  rewrite <-drop_drop, take_take_drop. f_equal. lia.
Qed.

Lemma slice_all l x : slice l 0 (zlen l) = Some x -> x = l.
Proof.
  rewrite slice_Some. intros (_ & _ & ->). rewrite drop_0, take_ge; [done|]. unfold zlen. lia.
Qed.

Lemma slice_nil l a : 0 <= a <= zlen l -> slice l a a = Some [].
Proof. intros. apply slice_Some. rewrite Z.sub_diag. repeat split; lia. Qed.

Lemma slice_length l a b x : slice l a b = Some x -> zlen x = b - a.
Proof.
  rewrite slice_Some. intros (? & ? & ->). unfold zlen in *.
  rewrite length_take, length_drop. lia.
Qed.

Lemma slice_u8 l a b x : Forall u8 l -> slice l a b = Some x -> Forall u8 x.
Proof. rewrite slice_Some. intros Hl (_ & _ & ->). by apply Forall_take, Forall_drop. Qed.

Lemma read_at (n : nat) pre v post :
  0 <= v < 256 ^ Z.of_nat n -> zlen (pre ++ le_bytes n v ++ post) < 2 ^ 64 ->
  read_le (Z.of_nat n) (pre ++ le_bytes n v ++ post) (zlen pre) = Ok v.
Proof.
  intros Hv Hlen. rewrite !zlen_app, zlen_le_bytes in Hlen.
  unfold read_le, checked_add.
  assert (checked 64 (zlen pre + Z.of_nat n) = Some (zlen pre + Z.of_nat n)) as ->.
  { apply checked_Some. pose proof (zlen_nonneg pre). pose proof (zlen_nonneg post).
    split; [split; lia|done]. }
  pose proof (slice_at pre (le_bytes n v) post) as Hs. rewrite zlen_le_bytes in Hs.
  rewrite Hs. by rewrite le_value_bytes.
Qed.

(** [read_at] with the offset and the reader in the parser's form. *)
Lemma read_as (n : nat) k bs off pre v post :
  bs = pre ++ le_bytes n v ++ post -> off = zlen pre -> k = Z.of_nat n ->
  0 <= v < 256 ^ k -> zlen bs < 2 ^ 64 -> read_le k bs off = Ok v.
Proof. intros -> -> -> ??. by apply read_at. Qed.

Lemma read_inv (n : nat) bs off v :
  Forall u8 bs -> read_le (Z.of_nat n) bs off = Ok v ->
  slice bs off (off + Z.of_nat n) = Some (le_bytes n v) /\ 0 <= v < 256 ^ Z.of_nat n.
Proof.
  intros Hbs. unfold read_le, checked_add.
  destruct (checked _ _) as [e|] eqn:E; [|done]. apply checked_Some in E as [_ ->].
  destruct (slice _ _ _) as [raw|] eqn:Es; [|done]. intros [= <-].
  pose proof (slice_length _ _ _ _ Es) as Hl. pose proof (slice_u8 _ _ _ _ Hbs Es) as Hu.
  assert (length raw = n) as <- by (unfold zlen in Hl; lia).
  split; [by rewrite le_bytes_value|by apply le_value_bound].
Qed.

Lemma in_order_tt last i u : in_order last i = Ok u -> in_order last i = Ok tt.
Proof. by destruct u. Qed.

Lemma flags_from r : from_flags (flags r) = Some r.
Proof. by destruct r. Qed.

Lemma from_flags_Some f r : from_flags f = Some r -> f = flags r.
Proof.
  unfold from_flags. repeat case_step; bool_prop; intros; simplify_eq; done.
Qed.

Lemma flags_bound r : 0 <= flags r < 256 ^ 2.
Proof. destruct r; vm_compute; split; congruence. Qed.

Lemma zlen_enc_section s : zlen (enc_section s) = 16 + zlen (payload_of s).
Proof. unfold enc_section. rewrite !zlen_app, !zlen_le_bytes. lia. Qed.

Lemma zlen_enc_header m c : zlen (enc_header m c) = 20.
Proof. unfold enc_header. rewrite !zlen_app, !zlen_le_bytes. done. Qed.

(* ------------------------------------------------------------------ *)
(** ** The parser accepts exactly the format *)

Ltac zl := rewrite ?zlen_app, ?zlen_le_bytes, ?zlen_enc_section, ?zlen_enc_header in *; lia.
Ltac reassoc := unfold enc_section; by rewrite <-!(assoc_L (++)).

(** The four fields of a section header, read where the parser reads them. *)
Lemma section_fields pre s post bs :
  bs = pre ++ enc_section s ++ post -> zlen bs < 2 ^ 64 -> valid_section s ->
  read_u32 bs (zlen pre) = Ok (id s) /\
  read_u16 bs (zlen pre + 4) = Ok (version s) /\
  read_u16 bs (zlen pre + 6) = Ok (flags (requirement s)) /\
  read_u64 bs (zlen pre + 8) = Ok (zlen (payload_of s)).
Proof.
  intros Hbs Hlen (Hid & Hver & Hpay). pose proof (zlen_nonneg (payload_of s)).
  set (i := le_bytes 4 (id s)). set (v := le_bytes 2 (version s)).
  set (f := le_bytes 2 (flags (requirement s))). set (p := payload_of s ++ post).
  set (n := le_bytes 8 (zlen (payload_of s))).
  repeat split.
  - apply (read_as 4 _ _ _ pre _ (v ++ f ++ n ++ p)); [subst bs; reassoc|done|done|lia|done].
  - apply (read_as 2 _ _ _ (pre ++ i) _ (f ++ n ++ p));
      [subst bs; reassoc|unfold i; zl|done|lia|done].
  - apply (read_as 2 _ _ _ (pre ++ i ++ v) _ (n ++ p));
      [subst bs; reassoc|unfold i, v; zl|done|apply flags_bound|done].
  - apply (read_as 8 _ _ _ (pre ++ i ++ v ++ f) _ p);
      [subst bs; reassoc|unfold i, v, f; zl|done|lia|done].
Qed.

Lemma section_payload pre s post :
  slice (pre ++ enc_section s ++ post) (zlen pre + 16) (zlen pre + 16 + zlen (payload_of s))
  = Some (payload_of s).
Proof.
  set (hdr := le_bytes 4 (id s) ++ le_bytes 2 (version s) ++ le_bytes 2 (flags (requirement s))
      ++ le_bytes 8 (zlen (payload_of s))).
  assert (pre ++ enc_section s ++ post = (pre ++ hdr) ++ payload_of s ++ post) as ->
    by (unfold hdr; reassoc).
  assert (zlen pre + 16 = zlen (pre ++ hdr)) as -> by (unfold hdr; zl).
  apply slice_at.
Qed.

Lemma checked_in w z : in_width w z -> checked w z = Some z.
Proof. intros. by apply checked_Some. Qed.

(** Parsing a section the format holds fails only when the allocator refuses. *)
Lemma parse_section_enc bs pre s post idx last k :
  bs = pre ++ enc_section s ++ post -> zlen bs < 2 ^ 64 -> 0 <= k < 2 ^ 32 ->
  valid_section s -> in_order last (id s) = Ok tt ->
  parse_section bs idx (zlen pre) last k =
  if try_reserve k 1 then Ok (s, zlen (pre ++ enc_section s)) else Err AllocationFailed.
Proof.
  intros Hbs Hlen Hk Hv Hord.
  destruct (section_fields pre s post bs Hbs Hlen Hv) as (Ri & Rv & Rf & Rn).
  pose proof (section_payload pre s post) as Hpay.
  pose proof (zlen_nonneg pre). pose proof (zlen_nonneg post). pose proof (zlen_nonneg (payload_of s)).
  assert (zlen bs = zlen pre + 16 + zlen (payload_of s) + zlen post) as Hl by (subst bs; zl).
  destruct Hv as (Hid & Hver & _).
  unfold parse_section, checked_add, SECTION_HEADER_LEN.
  rewrite (checked_in 64) by (split; lia).
  rewrite (proj2 (Z.ltb_ge _ _)) by lia. cbn [negb].
  rewrite Ri. unfold section_id_new. rewrite (proj2 (Z.eqb_neq _ _)) by lia.
  rewrite Hord, Rv. unfold section_version_new. rewrite (proj2 (Z.eqb_neq _ _)) by lia.
  rewrite Rf, flags_from, Rn. rewrite !(checked_in 64) by (split; lia).
  rewrite (proj2 (Z.ltb_ge _ _)) by lia. cbn [negb].
  unfold reserve. rewrite (checked_in 64) by (split; lia).
  destruct (try_reserve k 1); [|done].
  replace (zlen (pre ++ enc_section s)) with (zlen pre + 16 + zlen (payload_of s)) by zl.
  subst bs. rewrite Hpay. by destruct s.
Qed.

(** [parsed r v]: the parser returned [v], or an allocator that is not plentiful
    refused it memory. *)
Definition parsed {A} (r : res A) (v : A) : Prop :=
  r = Ok v \/ r = Err AllocationFailed /\ ~ plentiful Alloc.

Lemma parse_sections_enc secs : forall bs pre post idx last acc,
  bs = pre ++ enc_sections secs ++ post -> zlen bs < 2 ^ 64 ->
  zlen acc + zlen secs < 2 ^ 32 -> Forall valid_section secs -> ascending last secs ->
  parsed (parse_sections (length secs) bs idx (zlen pre) last acc)
    (acc ++ secs, zlen (pre ++ enc_sections secs)).
Proof.
  induction secs as [|s secs IH]; intros bs pre post idx last acc Hbs Hlen Hn Hv Ha.
  - left. cbn. by rewrite !app_nil_r.
  - apply Forall_cons in Hv as [Hs Hv]. destruct Ha as [Ho Ha].
    rewrite zlen_cons in Hn. pose proof (zlen_nonneg acc). pose proof (zlen_nonneg secs).
    cbn [length parse_sections].
    rewrite (parse_section_enc bs pre s (enc_sections secs ++ post)); try done; [|..|lia].
    2: { subst bs. unfold enc_sections. cbn. by rewrite <-(assoc_L (++)). }
    destruct (try_reserve (zlen acc) 1) eqn:Er.
    2: { right. split; [done|]. intros Hp. by rewrite Hp in Er. }
    replace (acc ++ s :: secs) with ((acc ++ [s]) ++ secs) by (by rewrite <-(assoc_L (++))).
    replace (pre ++ enc_sections (s :: secs)) with ((pre ++ enc_section s) ++ enc_sections secs)
      by (unfold enc_sections; cbn; by rewrite <-(assoc_L (++))).
    apply (IH bs (pre ++ enc_section s) post); try done.
    + subst bs. unfold enc_sections. cbn. by rewrite <-!(assoc_L (++)).
    + rewrite zlen_app, zlen_cons, zlen_nil. lia.
Qed.

Lemma parse_encode_gen v :
  valid_view v -> zlen (encode v) < 2 ^ 64 -> parsed (parse (encode v)) v.
Proof.
  intros (Hm & Hc & Hv & Ha) Hlen. destruct v as [minor secs].
  unfold encode in *. cbn [minor_version sections] in *.
  set (bs := enc_header minor (zlen secs) ++ enc_sections secs) in *.
  assert (zlen bs = 20 + zlen (enc_sections secs)) as Hl by (unfold bs; zl).
  pose proof (zlen_nonneg (enc_sections secs)).
  set (mj := le_bytes 2 CANONICAL_STATE_CONTAINER_MAJOR). set (mn := le_bytes 2 minor).
  set (z4 := le_bytes 4 0). set (cn := le_bytes 4 (zlen secs)).
  set (mg := CANONICAL_STATE_CONTAINER_MAGIC).
  assert (bs = mg ++ mj ++ mn ++ z4 ++ cn ++ enc_sections secs) as Hbs
    by (unfold bs, enc_header; by rewrite <-!(assoc_L (++))).
  assert (read_u16 bs 8 = Ok CANONICAL_STATE_CONTAINER_MAJOR) as R1.
  { by apply (read_as 2 _ _ _ mg _ (mn ++ z4 ++ cn ++ enc_sections secs)). }
  assert (read_u16 bs 10 = Ok minor) as R2.
  { by apply (read_as 2 _ _ _ (mg ++ mj) _ (z4 ++ cn ++ enc_sections secs)). }
  assert (read_u32 bs HEADER_FLAGS_OFFSET = Ok 0) as R3.
  { by apply (read_as 4 _ _ _ (mg ++ mj ++ mn) _ (cn ++ enc_sections secs)). }
  assert (read_u32 bs SECTION_COUNT_OFFSET = Ok (zlen secs)) as R4.
  { by apply (read_as 4 _ _ _ (mg ++ mj ++ mn ++ z4) _ (enc_sections secs)). }
  unfold parse. rewrite (proj2 (Z.ltb_ge _ _)) by (unfold HEADER_LEN; lia). cbn [negb].
  rewrite bool_decide_eq_true_2 by (by rewrite Hbs).
  rewrite R1, Z.eqb_refl, R2, R3, Z.eqb_refl, R4.
  replace (Z.to_nat (zlen secs)) with (length secs) by (unfold zlen; lia).
  change HEADER_LEN with 20. rewrite <-(zlen_enc_header minor (zlen secs)).
  destruct (parse_sections_enc secs bs (enc_header minor (zlen secs)) [] 0 None [])
    as [->|[-> Hp]]; try done.
  - unfold bs. by rewrite app_nil_r.
  - rewrite zlen_nil. destruct Hc. lia.
  - left. fold bs. by rewrite Z.eqb_refl.
  - by right.
Qed.

Lemma parse_section_inv bs idx cur last k s next :
  Forall u8 bs -> parse_section bs idx cur last k = Ok (s, next) ->
  valid_section s /\ in_order last (id s) = Ok tt /\
  slice bs cur next = Some (enc_section s).
Proof.
  intros Hbs. unfold parse_section.
  destruct (checked_add cur _) as [hend|] eqn:E1; [|done].
  destruct (negb _); [|done].
  destruct (read_u32 bs cur) as [rid|] eqn:E2; [|done].
  destruct (section_id_new rid) as [sid|] eqn:E3; [|done].
  destruct (in_order last rid) as [[]|] eqn:E4; [|done].
  destruct (read_u16 bs (cur + 4)) as [rv|] eqn:E5; [|done].
  destruct (section_version_new rv) as [ver|] eqn:E6; [|done].
  destruct (read_u16 bs (cur + 6)) as [rf|] eqn:E7; [|done].
  destruct (from_flags rf) as [req|] eqn:E8; [|done].
  destruct (read_u64 bs (cur + 8)) as [decl|] eqn:E9; [|done].
  destruct (checked 64 decl) as [plen|] eqn:E10; [|done].
  destruct (checked 64 (hend + plen)) as [pend|] eqn:E11; [|done].
  destruct (negb _); [|done]. destruct (reserve _ _); [|done].
  destruct (slice bs hend pend) as [pay|] eqn:E12; [|done]. intros [= <- <-].
  unfold checked_add in E1. destruct (checked 64 (cur + _)) eqn:E1'; [|done].
  apply checked_Some in E1' as [_ ->]. injection E1 as <-.
  apply checked_Some in E10 as [Hd ->]. apply checked_Some in E11 as [_ ->].
  unfold section_id_new in E3. destruct (Z.eqb_spec rid 0); [done|]. injection E3 as <-.
  unfold section_version_new in E6. destruct (Z.eqb_spec rv 0); [done|]. injection E6 as <-.
  apply from_flags_Some in E8 as ->.
  apply (read_inv 4) in E2 as [S2 B2]; [|done]. apply (read_inv 2) in E5 as [S5 B5]; [|done].
  apply (read_inv 2) in E7 as [S7 B7]; [|done]. apply (read_inv 8) in E9 as [S9 B9]; [|done].
  pose proof (slice_length _ _ _ _ E12) as Hpl.
  assert (zlen pay = decl) as <- by lia.
  split; [|split; [done|]].
  - unfold valid_section. cbn. destruct Hd. lia.
  - unfold enc_section. cbn [id version requirement payload_of].
    eapply slice_app; [exact S2|]. eapply slice_app.
    { replace (cur + Z.of_nat 4) with (cur + 4) by lia. exact S5. }
    eapply slice_app.
    { replace (cur + 4 + Z.of_nat 2) with (cur + 6) by lia. exact S7. }
    eapply slice_app.
    { replace (cur + 6 + Z.of_nat 2) with (cur + 8) by lia. exact S9. }
    unfold SECTION_HEADER_LEN in E12.
    replace (cur + 8 + Z.of_nat 8) with (cur + 16) by lia. exact E12.
Qed.

Lemma parse_sections_inv n : forall bs idx cur last acc out fin,
  Forall u8 bs -> 0 <= cur <= zlen bs ->
  parse_sections n bs idx cur last acc = Ok (out, fin) ->
  exists secs, out = acc ++ secs /\ length secs = n /\ Forall valid_section secs /\
    ascending last secs /\ slice bs cur fin = Some (enc_sections secs).
Proof.
  induction n as [|n IH]; intros bs idx cur last acc out fin Hbs Hc; cbn [parse_sections].
  - intros [= <- <-]. exists []. rewrite app_nil_r. repeat split; [constructor|].
    by apply slice_nil.
  - destruct (parse_section _ _ _ _ _) as [[s next]|] eqn:E; [|done]. intros H.
    apply parse_section_inv in E as (Hs & Ho & Hsl); [|done].
    pose proof Hsl as (? & ? & _)%slice_Some.
    apply IH in H as (secs & -> & <- & Hv & Ha & Hsl'); [|done|lia].
    exists (s :: secs). rewrite <-(assoc_L (++)). repeat split; try done; [by constructor|].
    rewrite enc_sections_cons. by eapply slice_app.
Qed.

Lemma parse_inv bs v :
  Forall u8 bs -> parse bs = Ok v -> valid_view v /\ bs = encode v.
Proof.
  intros Hbs. unfold parse. destruct (zlen bs <? HEADER_LEN) eqn:E0; [done|]. bool_prop.
  unfold HEADER_LEN in E0. cbn [negb].
  case_bool_decide as Emg; [|done].
  destruct (read_u16 bs 8) as [mj|] eqn:E1; [|done]. destruct (Z.eqb_spec mj CANONICAL_STATE_CONTAINER_MAJOR) as [->|]; [|done].
  destruct (read_u16 bs 10) as [mn|] eqn:E2; [|done].
  destruct (read_u32 bs _) as [hf|] eqn:E3; [|done]. destruct (Z.eqb_spec hf 0) as [->|]; [|done].
  destruct (read_u32 bs SECTION_COUNT_OFFSET) as [cnt|] eqn:E4; [|done].
  destruct (parse_sections _ _ _ _ _ _) as [[secs fin]|] eqn:E5; [|done].
  destruct (Z.eqb_spec fin (zlen bs)) as [->|]; [|done]. intros [= <-].
  apply (read_inv 2) in E1 as [S1 _]; [|done]. apply (read_inv 2) in E2 as [S2 B2]; [|done].
  apply (read_inv 4) in E3 as [S3 _]; [|done]. apply (read_inv 4) in E4 as [S4 B4]; [|done].
  apply parse_sections_inv in E5 as (secs' & -> & Hn & Hv & Ha & Hsl); [|done|unfold HEADER_LEN; lia].
  assert (cnt = zlen secs') as -> by (unfold zlen; lia).
  split; [done|]. symmetry. apply (slice_all bs).
  unfold encode, enc_header. cbn [minor_version sections]. rewrite <-!(assoc_L (++)).
  assert (slice bs 0 8 = Some CANONICAL_STATE_CONTAINER_MAGIC) as S0.
  { rewrite <-Emg. apply slice_Some. repeat split; lia || done. }
  eapply slice_app; [exact S0|]. eapply slice_app; [exact S1|]. eapply slice_app; [exact S2|].
  eapply slice_app; [exact S3|]. eapply slice_app; [exact S4|]. exact Hsl.
Qed.

(* ------------------------------------------------------------------ *)
(** ** The writer maintains the format *)

(** What the writer's bytes hold between operations: the header with a zero
    count, and the sections written so far. *)
Definition represents (w : CanonicalStateWriter) (secs : list CanonicalSection) : Prop :=
  bytes w = enc_header CANONICAL_STATE_CONTAINER_MINOR 0 ++ enc_sections secs /\
  section_count w = zlen secs /\ last_section w = id <$> last secs /\
  Forall valid_section secs /\ ascending None secs.

Lemma splice_at pre old post new :
  length old = length new -> splice (pre ++ old ++ post) (zlen pre) new = pre ++ new ++ post.
Proof.
  intros Hl. unfold splice, zlen. rewrite Nat2Z.id, take_app_length, <-Hl.
  by rewrite (assoc_L (++) pre old post), <-length_app, drop_app_length.
Qed.

(** A callback of [section]: it only appends, and appends exactly [out] when it
    succeeds; it may fail for any reason, having appended anything. *)
Definition appends (write : FW) (out : list Z) : Prop := forall bs, exists pre r,
  write bs = (bs ++ pre, r) /\ match r with Ok _ => pre = out | Err _ => True end.

Lemma emits_appends write out : emits write out -> appends write out.
Proof. intros Hw bs. destruct (Hw bs) as (pre & r & E & Hr). exists pre, r. by destruct r. Qed.

Lemma section_body_spec sid ver req write out bs0 :
  appends write out -> zlen out < 2 ^ 64 ->
  exists pre r, section_body sid ver req write bs0 = (bs0 ++ pre, r) /\
    match r with Ok _ => pre = enc_section (mkSection sid ver req out) | Err _ => True end.
Proof.
  intros Hw Hout. unfold section_body. destruct (reserve _ _) as [|e]; [|exists [], (Err e); by rewrite app_nil_r].
  set (hdr := le_bytes 4 sid ++ le_bytes 2 ver ++ le_bytes 2 (flags req)).
  destruct (Hw ((bs0 ++ hdr) ++ le_bytes 8 0)) as (pre & r & -> & Hr).
  destruct r as [|e].
  - subst pre. rewrite zlen_app. rewrite Z.add_simpl_l, (checked_in 64) by
      (pose proof (zlen_nonneg out); split; lia).
    destruct (checked_add _ _) as [|e].
    + exists (enc_section (mkSection sid ver req out)), (Ok tt). split; [|done]. cbn [id version requirement payload_of].
      rewrite <-(assoc_L (++) _ (le_bytes 8 0)), splice_at by (by rewrite !le_bytes_length).
      unfold enc_section, hdr. cbn [id version requirement payload_of].
      by rewrite <-!(assoc_L (++)).
    + eexists _, (Err e). split; [by rewrite <-!(assoc_L (++))|done].
  - eexists _, (Err e). split; [by rewrite <-!(assoc_L (++))|done].
Qed.

Lemma ascending_snoc secs s : forall prev,
  ascending prev secs ->
  in_order (match last secs with Some t => Some (id t) | None => prev end) (id s) = Ok tt ->
  ascending prev (secs ++ [s]).
Proof.
  induction secs as [|t secs IH]; intros prev Ha Ho; cbn [app ascending] in *; [done|].
  destruct Ha as [Ht Ha]. split; [done|]. apply IH; [done|].
  destruct secs as [|u secs]; [done|]. rewrite last_cons_cons in Ho.
  destruct (last (u :: secs)) eqn:E; [done|]. by apply last_None in E.
Qed.

Definition append_only (write : FW) : Prop := forall bs, exists pre r, write bs = (bs ++ pre, r).

Lemma appends_append_only write out : appends write out -> append_only write.
Proof. intros Hw bs. destruct (Hw bs) as (pre & r & H & _). by exists pre, r. Qed.

Lemma section_ok_spec w secs sid ver req write out w' u :
  represents w secs -> appends write out -> zlen out < 2 ^ 64 ->
  0 < sid < 2 ^ 32 -> 0 < ver < 2 ^ 16 ->
  section w sid ver req write = (w', Ok u) ->
  represents w' (secs ++ [mkSection sid ver req out]) /\ u32 (zlen (secs ++ [mkSection sid ver req out])).
Proof.
  intros (Hb & Hc & Hl & Hv & Ha) Hw Hout Hid Hver. unfold section.
  destruct (in_order _ _) as [[]|] eqn:Eo; [|done].
  destruct (checked 32 _) as [n|] eqn:Ec; [|done]. apply checked_Some in Ec as [Hn ->].
  destruct (section_body_spec sid ver req write out (bytes w) Hw Hout) as (pre & r & -> & Hr).
  destruct r; [|done]. subst pre. intros [= <- <-].
  rewrite Hc in *. set (s := mkSection sid ver req out).
  assert (zlen (secs ++ [s]) = zlen secs + 1) as Hz by (rewrite zlen_app; reflexivity).
  split; [|by rewrite Hz]. unfold represents. cbn [bytes section_count last_section].
  rewrite Hz, enc_sections_snoc, Hb, last_snoc, <-(assoc_L (++)). repeat split; try done.
  - apply Forall_app. split; [done|]. apply Forall_singleton. unfold valid_section. cbn. lia.
  - apply ascending_snoc; [done|]. rewrite Hl in Eo. by destruct (last secs).
Qed.

Lemma new_represents w : new = Ok w -> represents w [].
Proof. unfold new. destruct (reserve _ _); [|done]. intros [= <-]. by repeat split. Qed.

Lemma finish_encode w secs :
  represents w secs -> u32 (zlen secs) -> zlen (encode (mkView 0 secs)) < 2 ^ 64 ->
  finish w = Ok (encode (mkView 0 secs)) /\ parse (encode (mkView 0 secs)) = Ok (mkView 0 secs) \/
  finish w = Err AllocationFailed /\ ~ plentiful Alloc.
Proof.
  intros (Hb & Hc & _ & Hv & Ha) Hn Hlen. unfold finish.
  assert (splice (bytes w) SECTION_COUNT_OFFSET (le_bytes 4 (section_count w))
          = encode (mkView 0 secs)) as ->.
  { set (pre := CANONICAL_STATE_CONTAINER_MAGIC ++ le_bytes 2 CANONICAL_STATE_CONTAINER_MAJOR
      ++ le_bytes 2 CANONICAL_STATE_CONTAINER_MINOR ++ le_bytes 4 0).
    assert (bytes w = pre ++ le_bytes 4 0 ++ enc_sections secs) as ->
      by (rewrite Hb; unfold pre, enc_header; by rewrite <-!(assoc_L (++))).
    rewrite (splice_at pre (le_bytes 4 0)) by (by rewrite !le_bytes_length).
    rewrite Hc. unfold encode, enc_header, pre. by rewrite <-!(assoc_L (++)). }
  destruct (parse_encode_gen (mkView 0 secs)) as [->|[-> Hp]]; [|done|by left|by right].
  split; [split; reflexivity || discriminate|]. done.
Qed.

(** A sequence of [section] calls, failed calls being ignored by the caller.  A
    well-formed call has an identifier, a version and a length in their ranges; its
    callback may fail. *)
Record SectionCall := mkCall { call_section : CanonicalSection; call_write : FW }.

Definition well_formed_call (c : SectionCall) : Prop :=
  valid_section (call_section c) /\ appends (call_write c) (payload_of (call_section c)).

Fixpoint run_calls (calls : list SectionCall) (w : CanonicalStateWriter)
    (accepted : list CanonicalSection) : CanonicalStateWriter * list CanonicalSection :=
  match calls with
  | [] => (w, accepted)
  | c :: rest =>
      let s := call_section c in
      match section w (id s) (version s) (requirement s) (call_write c) with
      | (w', Ok _) => run_calls rest w' (accepted ++ [s])
      | (w', Err _) => run_calls rest w' accepted
      end
  end.

Lemma section_body_err sid ver req write bs0 bs e :
  append_only write -> section_body sid ver req write bs0 = (bs, Err e) ->
  exists pre, bs = bs0 ++ pre.
Proof.
  intros Hw. unfold section_body.
  destruct (reserve _ _) as [|e1]; [|intros [= <- _]; exists []; by rewrite app_nil_r].
  match goal with |- context [write ?b] => destruct (Hw b) as (pre & r & ->) end.
  destruct r as [|e1].
  - match goal with |- context [match ?x with Ok _ => _ | Err _ => _ end] => destruct x end; [done|].
    intros [= <- _]. eexists. by rewrite <-!(assoc_L (++)).
  - intros [= <- _]. eexists. by rewrite <-!(assoc_L (++)).
Qed.

Lemma section_err_unchanged w sid ver req write w' e :
  append_only write -> section w sid ver req write = (w', Err e) -> w' = w.
Proof.
  intros Hw. unfold section.
  destruct (in_order _ _) as [[]|]; [|by intros [= <- _]].
  destruct (checked 32 _) as [n|]; [|by intros [= <- _]].
  destruct (section_body _ _ _ _ _) as [bs [|e']] eqn:E; [done|].
  apply section_body_err in E as [pre ->]; [|done]. intros [= <- _].
  destruct w; cbn. unfold zlen. by rewrite Nat2Z.id, take_app_length.
Qed.

Lemma run_calls_represents calls : forall w acc w' acc',
  Forall well_formed_call calls -> represents w acc -> u32 (zlen acc) ->
  run_calls calls w acc = (w', acc') -> represents w' acc' /\ u32 (zlen acc').
Proof.
  induction calls as [|c calls IH]; cbn [run_calls]; intros w acc w' acc' Hcs Hr Hn.
  - by intros [= <- <-].
  - apply Forall_cons in Hcs as [[(Hi & Hver & Hpay) Hw] Hcs].
    destruct (section _ _ _ _ _) as [w1 [u|e]] eqn:E.
    + eapply section_ok_spec in E as [Hr1 Hn1]; try done.
      destruct (call_section c); cbn in *. by apply IH.
    + apply section_err_unchanged in E as ->; [|by eapply appends_append_only]. by apply IH.
Qed.

(* ------------------------------------------------------------------ *)
(** ** Properties *)

(** C33.  Write, then parse.  Take any sequence of well-formed [section] calls, in
    which a call may fail because it comes out of order, because the allocator
    refuses, or because its callback fails at any point, whatever it has appended by
    then.  The finished container parses back to exactly the sections whose call
    succeeded, in order, payloads included: a failed call leaves no trace.  Finishing
    itself can only fail for want of memory, which an allocator that never refuses
    rules out.  The container is shorter than 2^64 bytes, as anything in memory is. *)
Theorem container_roundtrip w0 calls w accepted :
  new = Ok w0 -> Forall well_formed_call calls ->
  run_calls calls w0 [] = (w, accepted) ->
  zlen (encode (mkView 0 accepted)) < 2 ^ 64 ->
  (exists bs, finish w = Ok bs /\ parse bs = Ok (mkView 0 accepted)) \/
  finish w = Err AllocationFailed /\ ~ plentiful Alloc.
Proof.
  intros Hnew Hcs Hrun Hlen.
  destruct (run_calls_represents calls w0 [] w accepted Hcs) as [Hr Hn]; try done.
  { by apply new_represents. }
  destruct (finish_encode w accepted Hr Hn Hlen) as [[Hf Hp]|Hf]; [left|by right].
  by exists (encode (mkView 0 accepted)).
Qed.

(** The encoding is canonical: the parser accepts a byte string only if it is
    the encoding of the view it returns, so equal views come from equal bytes,
    and the section identifiers of an accepted container ascend strictly. *)
Theorem parse_canonical bs bs' v :
  Forall u8 bs -> Forall u8 bs' -> parse bs = Ok v -> parse bs' = Ok v ->
  bs = bs' /\ bs = encode v /\ ascending None (sections v) /\
  Forall (fun s => id s <> 0 /\ version s <> 0) (sections v).
Proof.
  intros Hb Hb' H H'. apply parse_inv in H as [(_ & _ & Hv & Ha) ->]; [|done].
  apply parse_inv in H' as [_ ->]; [|done]. repeat split; try done.
  eapply Forall_impl; [exact Hv|]. intros s (? & ? & _). lia.
Qed.

(** A section whose callback fails, or that comes out of order, leaves no
    trace: the writer is exactly what it was before the call, whatever the
    callback had appended before failing. *)
Theorem section_failure_rolls_back w sid ver req write w' e :
  append_only write -> section w sid ver req write = (w', Err e) -> w' = w.
Proof. apply section_err_unchanged. Qed.

End Container.

(** An allocator with 40 bytes of memory. *)
Definition small_allocator : Allocator := fun len additional => len + additional <=? 40.
Definition all_memory : Allocator := fun _ _ => true.

Definition example_call (i : Z) (write : FW) (out : list Z) : SectionCall :=
  mkCall (mkSection i 1 Required out) write.

(** A callback that appends two bytes and then fails. *)
Definition failing_write : FW := fun bs => (bs ++ [66; 67], Err LengthOverflow).

(** Two accepted sections around one out of order and one whose callback fails. *)
Definition example_calls : list SectionCall :=
  [example_call 2 (append (Alloc:=all_memory) [7; 8]) [7; 8];
   example_call 1 (append (Alloc:=all_memory) [9]) [9];
   example_call 4 failing_write [66; 67; 68];
   example_call 5 (append (Alloc:=all_memory) []) []].

Lemma container_roundtrip_witness :
  exists w0, new (Alloc:=all_memory) = Ok w0 /\
  exists bs, finish (Alloc:=all_memory) (fst (run_calls (Alloc:=all_memory) example_calls w0 [])) = Ok bs /\
    parse (Alloc:=all_memory) bs
    = Ok (mkView 0 [mkSection 2 1 Required [7; 8]; mkSection 5 1 Required []]).
Proof.
  exists (mkWriter (enc_header 0 0) 0 None). split; [reflexivity|].
  destruct (container_roundtrip (Alloc:=all_memory) (mkWriter (enc_header 0 0) 0 None) example_calls
    (fst (run_calls (Alloc:=all_memory) example_calls (mkWriter (enc_header 0 0) 0 None) []))
    [mkSection 2 1 Required [7; 8]; mkSection 5 1 Required []]) as [H|[_ H]];
    [reflexivity| |reflexivity|reflexivity|exact H|by destruct H].
  assert (Ha : forall out, appends (append (Alloc:=all_memory) out) out)
    by (intros; apply (emits_appends (Alloc:=all_memory)), (emits_append (Alloc:=all_memory))).
  repeat constructor; try done; try apply Ha.
  intros bs. by exists [66; 67], (Err LengthOverflow).
Defined.

Lemma parse_canonical_witness :
  let bs := encode (mkView 3 [mkSection 9 2 Optional [1; 2; 3]]) in
  parse (Alloc:=all_memory) bs = Ok (mkView 3 [mkSection 9 2 Optional [1; 2; 3]]) /\
  (bs = bs /\ bs = encode (mkView 3 [mkSection 9 2 Optional [1; 2; 3]]) /\
   ascending None [mkSection 9 2 Optional [1; 2; 3]] /\
   Forall (fun s => id s <> 0 /\ version s <> 0) [mkSection 9 2 Optional [1; 2; 3]]).
Proof.
  cbv zeta. split; [reflexivity|].
  apply (parse_canonical (Alloc:=all_memory) _ _ (mkView 3 [mkSection 9 2 Optional [1; 2; 3]]));
    [| |reflexivity|reflexivity]; vm_compute; repeat constructor; discriminate.
Defined.

Lemma section_failure_rolls_back_witness :
  let w := mkWriter (enc_header 0 0) 0 None in
  let write := append (Alloc:=small_allocator) [1] >> append (Alloc:=small_allocator) [2; 3; 4; 5] in
  section (Alloc:=small_allocator) w 7 1 Required write = (w, Err AllocationFailed) /\ w = w.
Proof.
  cbv zeta. split; [reflexivity|].
  apply (section_failure_rolls_back (Alloc:=small_allocator) (mkWriter (enc_header 0 0) 0 None) 7 1 Required
    (append (Alloc:=small_allocator) [1] >> append (Alloc:=small_allocator) [2; 3; 4; 5])
    (mkWriter (enc_header 0 0) 0 None) AllocationFailed); [|reflexivity].
  apply (appends_append_only _ ([1] ++ [2; 3; 4; 5])), (emits_appends (Alloc:=small_allocator)).
  apply (emits_seq (Alloc:=small_allocator)); apply (emits_append (Alloc:=small_allocator)).
Defined.

End Container.
