(* ===== verification/Timeline.v ===== *)
(** * The machine timeline

    crates/izarravm-machine/src/timeline.rs: every device clock is a fractional
    phase ([RatePhase]) of one master timeline.  Advancing it yields whole device
    events; the fast [u64] arms and the wide [u128] arms of the arithmetic are
    both modelled as written. *)

From stdpp Require Import strings.
From S2P Require Import Prelude Clock Canonical.
Import Rate Gsw.

Definition PIT_INPUT_HZ : Z := 1193182.
Definition MICROSECOND_HZ : Z := 1000000.
Definition NANOSECOND_HZ : Z := 1000000000.
Definition MARGO_FRAME_HZ : Z := 60.
Definition DISTIRA_LINE_HZ : Z := 525 * 60.
Definition BUS_CLOCK_MASTER_TICKS : Z := 33.

Module Phase.

Record RatePhase := mkPhase { remainder : Z }.

(** [None]: the assertion of the constructor fails. *)
Definition with_remainder (r : Z) : option RatePhase :=
  if r <? MASTER_CLOCK_HZ then Some (mkPhase r) else None.

Definition default : RatePhase := mkPhase 0.

(** The phase after [master_ticks] and the whole events due. *)
Definition advance (p : RatePhase) (master_ticks rate_hz : Z) : RatePhase * Z :=
  let narrow :=
    scaled ← checked 64 (master_ticks * rate_hz);
    checked 64 (scaled + remainder p) in
  match narrow with
  | Some total => (mkPhase (total mod MASTER_CLOCK_HZ), total / MASTER_CLOCK_HZ)
  | None =>
      let total := remainder p + master_ticks * rate_hz in
      (mkPhase (total mod MASTER_CLOCK_HZ), saturating_u64 (total / MASTER_CLOCK_HZ))
  end.

(** On the narrow arm the subtraction is [u64]'s and the result stays below
    [u64::MAX]; the difference is taken in [Z], the phase invariant keeping it
    positive. *)
Definition ticks_until (p : RatePhase) (events rate_hz : Z) : option Z :=
  if events =? 0 then Some 0
  else if rate_hz =? 0 then None
  else
    match checked 64 (events * MASTER_CLOCK_HZ) with
    | Some scaled => Some (div_ceil (scaled - remainder p) rate_hz)
    | None =>
        let needed := events * MASTER_CLOCK_HZ - remainder p in
        Some (saturating_u64 (div_ceil needed rate_hz))
    end.

(** "The remainder is always less than [MASTER_CLOCK_HZ]." *)
Definition wf (p : RatePhase) : Prop := 0 <= remainder p < MASTER_CLOCK_HZ.

(* ------------------------------------------------------------------ *)

(** Total phase accumulated: the exact, unbounded reading of [advance]. *)
Definition total (p : RatePhase) (ticks rate : Z) : Z := remainder p + ticks * rate.

Lemma advance_wide p ticks rate :
  wf p -> 0 <= ticks -> 0 <= rate ->
  advance p ticks rate =
  (mkPhase (total p ticks rate mod MASTER_CLOCK_HZ),
   saturating_u64 (total p ticks rate / MASTER_CLOCK_HZ)).
Proof.
  intros [Hr _] Ht Hrate. unfold advance, total.
  destruct (checked 64 (ticks * rate)) as [s|] eqn:E; cbn [mbind option_bind]; [|done].
  apply checked_Some in E as [Hs ->].
  destruct (checked 64 _) as [t|] eqn:E; [|done]. apply checked_Some in E as [Hs' ->].
  rewrite Z.add_comm. f_equal. rewrite saturating_u64_min.
  assert ((remainder p + ticks * rate) / MASTER_CLOCK_HZ <= remainder p + ticks * rate).
  { apply Z.div_le_upper_bound; unfold MASTER_CLOCK_HZ; zlia. }
  zlia.
Qed.

Lemma advance_wf p ticks rate :
  wf p -> 0 <= ticks -> 0 <= rate -> wf (fst (advance p ticks rate)).
Proof.
  intros. rewrite advance_wide by done. unfold wf. cbn. apply Z.mod_pos_bound. done.
Qed.

(** Whole events of an advance split in two, over the exact totals. *)
Lemma total_split p a b rate :
  total p (a + b) rate / MASTER_CLOCK_HZ =
    total p a rate / MASTER_CLOCK_HZ
    + total (mkPhase (total p a rate mod MASTER_CLOCK_HZ)) b rate / MASTER_CLOCK_HZ /\
  total p (a + b) rate mod MASTER_CLOCK_HZ =
    total (mkPhase (total p a rate mod MASTER_CLOCK_HZ)) b rate mod MASTER_CLOCK_HZ.
Proof.
  unfold total. cbn [remainder].
  assert (MASTER_CLOCK_HZ <> 0) by done.
  set (x := remainder p + a * rate).
  replace (remainder p + (a + b) * rate) with
    (x mod MASTER_CLOCK_HZ + b * rate + (x / MASTER_CLOCK_HZ) * MASTER_CLOCK_HZ).
  - rewrite Z.div_add, Z.mod_add by done. lia.
  - pose proof (Z.div_mod x MASTER_CLOCK_HZ). unfold x in *. lia.
Qed.

(** A rate no faster than the timeline yields at most one event per tick. *)
Lemma events_bound p ticks rate :
  wf p -> 0 <= ticks -> 0 <= rate <= MASTER_CLOCK_HZ ->
  0 <= total p ticks rate / MASTER_CLOCK_HZ <= ticks.
Proof.
  intros [H1 H2] Ht Hr. unfold total. split.
  - apply Z.div_pos; [nia|done].
  - assert (remainder p + ticks * rate < MASTER_CLOCK_HZ * (ticks + 1)) by nia.
    pose proof (Z.div_lt_upper_bound (remainder p + ticks * rate) MASTER_CLOCK_HZ (ticks + 1)
      ltac:(done) ltac:(done)). lia.
Qed.

Lemma advance_events p ticks rate :
  wf p -> u64 ticks -> 0 <= rate <= MASTER_CLOCK_HZ ->
  snd (advance p ticks rate) = total p ticks rate / MASTER_CLOCK_HZ.
Proof.
  intros Hp [H0 Ht] Hr. rewrite advance_wide by (done || lia). cbn [snd].
  rewrite saturating_u64_min. pose proof (events_bound p ticks rate Hp H0 Hr). zlia.
Qed.

Lemma advance_split p a b rate :
  wf p -> 0 <= a -> 0 <= b -> u64 (a + b) -> 0 <= rate <= MASTER_CLOCK_HZ ->
  fst (advance p (a + b) rate) = fst (advance (fst (advance p a rate)) b rate) /\
  snd (advance p (a + b) rate) = snd (advance p a rate) + snd (advance (fst (advance p a rate)) b rate).
Proof.
  intros Hp Ha Hb [_ Hab] Hr.
  assert (fst (advance p a rate) = mkPhase (total p a rate mod MASTER_CLOCK_HZ)) as Hq
    by (by rewrite advance_wide by (done || lia)).
  pose proof (advance_wf p a rate Hp Ha ltac:(lia)) as Hp'.
  pose proof (total_split p a b rate) as [H1 H2]. split.
  - rewrite (advance_wide p (a + b)), advance_wide by (done || lia). cbn [fst].
    by rewrite H2, Hq.
  - rewrite !advance_events by (done || split; lia). by rewrite H1, Hq.
Qed.

(** Splitting one advance into batches gives the same event total and the
    same final remainder, for every device rate up to the master clock and
    every way of splitting, through both arms of the arithmetic. *)
Theorem advance_batches p batches rate :
  wf p -> Forall (Z.le 0) batches -> u64 (foldr Z.add 0 batches) -> 0 <= rate <= MASTER_CLOCK_HZ ->
  foldl (fun '(q, n) t => let '(q', k) := advance q t rate in (q', n + k)) (p, 0) batches
  = advance p (foldr Z.add 0 batches) rate.
Proof.
  assert (forall bs q n, wf q -> Forall (Z.le 0) bs -> u64 (foldr Z.add 0 bs) ->
    0 <= rate <= MASTER_CLOCK_HZ ->
    foldl (fun '(q, n) t => let '(q', k) := advance q t rate in (q', n + k)) (q, n) bs
    = (fst (advance q (foldr Z.add 0 bs) rate), n + snd (advance q (foldr Z.add 0 bs) rate))) as H.
  { clear p batches. induction bs as [|b bs IH]; intros q n Hq Hbs Hs Hr; cbn [foldl foldr] in *.
    - rewrite advance_wide by (done || lia). destruct q as [r]. unfold total, wf in *. cbn in *.
      rewrite Z.add_0_r, Z.mod_small, Z.div_small by done. by rewrite Z.add_0_r.
    - apply Forall_cons in Hbs as [Hb Hbs].
      assert (0 <= foldr Z.add 0 bs) by (clear -Hbs; induction Hbs; cbn; lia).
      destruct (advance_split q b (foldr Z.add 0 bs) rate) as [E1 E2]; try done.
      pose proof (advance_wf q b rate Hq Hb ltac:(lia)).
      destruct (advance q b rate) as [q' k] eqn:E. cbn [fst snd] in *.
      rewrite IH; [|done|done|destruct Hs; split; lia|done].
      rewrite E1, E2. f_equal. lia. }
  intros Hp Hb Hs Hr. rewrite H by done. by destruct (advance _ _ _).
Qed.

(** [ticks_until] is the exact causal inverse of [advance]: the events are
    due after [k] ticks precisely when [k] has reached the answer, so no deadline
    is early and none is late; only a stopped clock has no answer. *)
Theorem ticks_until_exact p events rate k :
  wf p -> u64 events -> u64 rate -> 0 <= k < U64_MAX ->
  match ticks_until p events rate with
  | Some t => t <= k <-> events <= snd (advance p k rate)
  | None => rate = 0 /\ snd (advance p k rate) < events
  end.
Proof.
  intros Hp [He He'] [Hr Hr'] Hk. pose proof Hp as [Hw1 Hw2]. unfold ticks_until.
  rewrite advance_wide by (done || lia). cbn [snd].
  assert (HM : 0 < MASTER_CLOCK_HZ) by done.
  destruct (Z.eqb_spec events 0) as [->|Hne].
  - rewrite le_saturating, le_div by zlia. unfold total. split; nia.
  - destruct (Z.eqb_spec rate 0) as [->|Hrz].
    + split; [done|]. unfold total. rewrite Z.mul_0_r, Z.add_0_r, Z.div_small by done.
      rewrite saturating_u64_min. zlia.
    + assert (events * MASTER_CLOCK_HZ - remainder p <= k * rate <->
              events <= saturating_u64 (total p k rate / MASTER_CLOCK_HZ)) as Hiff.
      { rewrite le_saturating, le_div by zlia. unfold total. lia. }
      destruct (checked _ _) as [s|] eqn:E.
      * apply checked_Some in E as [_ ->]. by rewrite div_ceil_le by lia.
      * by rewrite saturating_le, div_ceil_le by lia.
Qed.

Lemma advance_batches_witness :
  wf (mkPhase 5477999999) /\
  foldl (fun '(q, n) t => let '(q', k) := advance q t PIT_INPUT_HZ in (q', n + k))
    (mkPhase 5477999999, 0) [4591; 18000000000000; 7]
  = advance (mkPhase 5477999999) 18000000004598 PIT_INPUT_HZ.
Proof.
  split; [vm_compute; split; congruence|].
  apply (advance_batches (mkPhase 5477999999) [4591; 18000000000000; 7] PIT_INPUT_HZ);
    [vm_compute; split; congruence|repeat constructor; lia
    |vm_compute; split; congruence|vm_compute; split; congruence].
Defined.

Lemma ticks_until_exact_witness :
  ticks_until (mkPhase 100) 3 PIT_INPUT_HZ = Some 13774 /\
  (13774 <= 13773 <-> 3 <= snd (advance (mkPhase 100) 13773 PIT_INPUT_HZ)).
Proof.
  split; [reflexivity|].
  apply (ticks_until_exact (mkPhase 100) 3 PIT_INPUT_HZ 13773);
    vm_compute; split; congruence.
Defined.

End Phase.

Module Machine.
Import Phase.

Record DeviceRates := mkRates {
  dsp_hz : Z;
  wss_hz : Z;
  cd_playing : bool;
  vga_dot_hz : Z
}.

Record DeviceAdvance := mkAdvance {
  master_ticks : Z;
  pit_remainder_before : Z;
  microseconds_due : Z;
  pit_clocks : Z;
  dsp_frames : Z;
  wss_frames : Z;
  cd_frames : Z;
  rtc_seconds : Z;
  margo_nanoseconds : Z;
  margo_frames : Z;
  distira_lines : Z;
  vga_dots : Z
}.

Record MargoScanout := mkScanout { dots : Z; beam : Z }.

Inductive DeviceClock := Pit | Dsp | Wss | MargoFrame | MargoNs | Rtc | Vga.

Record Timeline := mkTimeline {
  now_ticks : Z;
  io_stall_ticks : Z;
  ticks_per_cpu_clock : Z;
  tsc_clocks : Z;
  tsc_phase_ticks : Z;
  microseconds : RatePhase;
  pit : RatePhase;
  dsp : RatePhase;
  wss : RatePhase;
  cd : RatePhase;
  rtc : RatePhase;
  margo : RatePhase;
  margo_frame : RatePhase;
  distira : RatePhase;
  vga : RatePhase
}.
#[export] Instance eta_Timeline : Eta Timeline := fun t =>
  mkTimeline (now_ticks t) (io_stall_ticks t) (ticks_per_cpu_clock t) (tsc_clocks t)
    (tsc_phase_ticks t) (microseconds t) (pit t) (dsp t) (wss t) (cd t) (rtc t) (margo t)
    (margo_frame t) (distira t) (vga t).

Inductive CanonicalTimelineError :=
| CpuQuantum (expected actual : Z)
| PhaseRemainder (phase : string) (remainder limit : Z)
| Totals (now_ticks io_stall_ticks : Z).

(** [None]: the [expect] of [exact_cpu_quantum] fails. *)
Definition new (mode : GswMode) : option Timeline :=
  q ← exact_cpu_quantum mode;
  Some (mkTimeline 0 0 q 0 0 default default default default default default default
          default default default).

Definition set_mode (t : Timeline) (mode : GswMode) : option Timeline :=
  q ← exact_cpu_quantum mode;
  Some (t <| ticks_per_cpu_clock := q |> <| tsc_phase_ticks := 0 |>).

Definition bus_timing (mode : GswMode) : option (Z * Z) :=
  q ← exact_cpu_quantum mode;
  Some (wrap 32 BUS_CLOCK_MASTER_TICKS, wrap 32 q).

Definition master_ticks_for_cpu_clocks (t : Timeline) (cpu_clocks : Z) : Z :=
  saturate 64 (cpu_clocks * ticks_per_cpu_clock t).

Definition cpu_clocks_for_master_ticks_ceil (t : Timeline) (ticks : Z) : Z :=
  div_ceil ticks (ticks_per_cpu_clock t).

(** The clocks and the new phase of the time-stamp counter. *)
Definition tsc_step (quantum phase0 ticks : Z) : Z * Z :=
  if (phase0 <? quantum) && (quantum <=? MASTER_CLOCK_HZ) then
    let clocks := ticks / quantum in
    let phase := ticks mod quantum + phase0 in
    if quantum <=? phase then (clocks + 1, phase - quantum) else (clocks, phase)
  else
    let tsc_ticks := phase0 + ticks in
    (wrap 64 (tsc_ticks / quantum), wrap 64 (tsc_ticks mod quantum)).

Definition advance_master_ticks (t : Timeline) (requested_ticks : Z) (rates : DeviceRates)
    : Timeline * DeviceAdvance :=
  let ticks := Z.min requested_ticks (U64_MAX - now_ticks t) in
  let '(clocks, phase) := tsc_step (ticks_per_cpu_clock t) (tsc_phase_ticks t) ticks in
  let pit_remainder := remainder (pit t) in
  let '(microseconds', us) := advance (microseconds t) ticks MICROSECOND_HZ in
  let '(pit', pit_n) := advance (pit t) ticks PIT_INPUT_HZ in
  let '(dsp', dsp_n) := advance (dsp t) ticks (dsp_hz rates) in
  let '(wss', wss_n) := advance (wss t) ticks (wss_hz rates) in
  let '(cd', cd_n) := advance (cd t) ticks (if cd_playing rates then 75 else 0) in
  let '(rtc', rtc_n) := advance (rtc t) ticks 1 in
  let '(margo', margo_n) := advance (margo t) ticks NANOSECOND_HZ in
  let '(margo_frame', frame_n) := advance (margo_frame t) ticks MARGO_FRAME_HZ in
  let '(distira', distira_n) := advance (distira t) ticks DISTIRA_LINE_HZ in
  let '(vga', vga_n) := advance (vga t) ticks (vga_dot_hz rates) in
  (mkTimeline (now_ticks t + ticks) (io_stall_ticks t) (ticks_per_cpu_clock t)
     (wrap 64 (tsc_clocks t + clocks)) phase microseconds' pit' dsp' wss' cd' rtc' margo'
     margo_frame' distira' vga',
   mkAdvance ticks pit_remainder us pit_n dsp_n wss_n cd_n rtc_n margo_n frame_n distira_n vga_n).

Definition advance_io_stall_ticks (t : Timeline) (ticks : Z) (rates : DeviceRates)
    : Timeline * DeviceAdvance :=
  let '(t', a) := advance_master_ticks t ticks rates in
  (t' <| io_stall_ticks := saturate 64 (io_stall_ticks t' + master_ticks a) |>, a).

Definition preview_master_ticks (t : Timeline) (ticks vga_dot_hz : Z) : Z * Z :=
  (snd (advance (pit t) ticks PIT_INPUT_HZ), snd (advance (vga t) ticks vga_dot_hz)).

Definition preview_microseconds_at_ticks (t : Timeline) (ticks : Z) : Z :=
  snd (advance (microseconds t) ticks MICROSECOND_HZ).

Definition preview_margo_nanoseconds_at_ticks (t : Timeline) (ticks : Z) : Z :=
  snd (advance (margo t) ticks NANOSECOND_HZ).

(** [None]: the [unwrap] fails (it cannot: the rate is not zero). *)
Definition master_ticks_until_microseconds (t : Timeline) (micros : Z) : option Z :=
  ticks_until (microseconds t) micros MICROSECOND_HZ.

Definition preview_margo_scanout_at_ticks (t : Timeline) (ticks frame_dots : Z) : MargoScanout :=
  if frame_dots =? 0 then mkScanout 0 0
  else
    let '(margo_frame', frames) := advance (margo_frame t) ticks MARGO_FRAME_HZ in
    let beam := saturating_u64 (remainder margo_frame' * frame_dots) / MASTER_CLOCK_HZ in
    mkScanout (saturate 64 (saturate 64 (frames * frame_dots) + beam)) beam.

Definition preview_margo_scanout (t : Timeline) (cpu_clocks frame_dots : Z) : MargoScanout :=
  preview_margo_scanout_at_ticks t (master_ticks_for_cpu_clocks t cpu_clocks) frame_dots.

Definition margo_master_ticks_until_dots (t : Timeline) (dots frame_dots : Z) : option Z :=
  if frame_dots =? 0 then None
  else
    dot_hz ← checked 64 (frame_dots * MARGO_FRAME_HZ);
    let scaled := remainder (margo_frame t) * frame_dots in
    p ← with_remainder (scaled mod MASTER_CLOCK_HZ);
    ticks_until p dots dot_hz.

Definition margo_cpu_clocks_until_dots (t : Timeline) (dots frame_dots : Z) : option Z :=
  (fun ticks => Z.max (cpu_clocks_for_master_ticks_ceil t ticks) 1)
    <$> margo_master_ticks_until_dots t dots frame_dots.

Definition master_ticks_until (t : Timeline) (clock : DeviceClock) (events rate_hz : Z) : option Z :=
  let phase :=
    match clock with
    | Pit => pit t
    | Dsp => dsp t
    | Wss => wss t
    | MargoFrame => margo_frame t
    | MargoNs => margo t
    | Rtc => rtc t
    | Vga => vga t
    end in
  ticks_until phase events rate_hz.

Definition cpu_clocks_until (t : Timeline) (clock : DeviceClock) (events rate_hz : Z) : option Z :=
  (fun ticks => Z.max (cpu_clocks_for_master_ticks_ceil t ticks) 1)
    <$> master_ticks_until t clock events rate_hz.

(** The first phase of the list whose remainder is not below the master clock. *)
Fixpoint check_phases (phases : list (string * Z)) : result CanonicalTimelineError unit :=
  match phases with
  | [] => Ok tt
  | (name, r) :: rest =>
      if MASTER_CLOCK_HZ <=? r then Err (PhaseRemainder name r MASTER_CLOCK_HZ)
      else check_phases rest
  end.

Definition phases (t : Timeline) : list (string * Z) := [
  ("microseconds", remainder (microseconds t)); ("pit", remainder (pit t));
  ("dsp", remainder (dsp t)); ("wss", remainder (wss t)); ("cd", remainder (cd t));
  ("rtc", remainder (rtc t)); ("margo", remainder (margo t));
  ("margo_frame", remainder (margo_frame t)); ("distira", remainder (distira t));
  ("vga", remainder (vga t))]%string.

(** The words of a validated projection.  [None]: [exact_cpu_quantum] panics. *)
Definition canonical_projection (t : Timeline) (mode : GswMode)
    : option (result CanonicalTimelineError (list Z)) :=
  expected ← exact_cpu_quantum mode;
  Some (
    ensure ticks_per_cpu_clock t =? expected
      else CpuQuantum expected (ticks_per_cpu_clock t) in
    ensure tsc_phase_ticks t <? ticks_per_cpu_clock t
      else PhaseRemainder "tsc" (tsc_phase_ticks t) (ticks_per_cpu_clock t) in
    let? _ := check_phases (phases t) in
    ensure io_stall_ticks t <=? now_ticks t else Totals (now_ticks t) (io_stall_ticks t) in
    Ok [now_ticks t; io_stall_ticks t; tsc_phase_ticks t; remainder (microseconds t);
        remainder (pit t); remainder (dsp t); remainder (wss t); remainder (cd t);
        remainder (rtc t); remainder (margo t); remainder (margo_frame t);
        remainder (distira t); remainder (vga t)]).

Record TimelineWords := mkWords { words : list Z }.

(** The projection's payload: its words as little-endian [u64]s. *)
Definition write_words {Alloc : Allocator} (p : TimelineWords) : FW := fw_each write_u64 (words p).

(* ------------------------------------------------------------------ *)
(** ** The payload *)

#[export] Instance timeline_payload {Alloc : Allocator} : CanonicalPayload TimelineWords.
Proof.
  refine {|
    payload_wf p := length (words p) = 13%nat;
    payload p := concat (le_bytes 8 <$> words p);
    payload_len := 104;
    write_payload := write_words
  |}.
  - intros p. apply emits_each. intros. apply emits_append.
  - intros [ws] Hl. cbn in *. do 14 (destruct ws as [|? ws]; try done).
Defined.

(* ------------------------------------------------------------------ *)
(** ** The timeline's invariant *)

Record wf (t : Timeline) : Prop := {
  wf_now : 0 <= io_stall_ticks t <= now_ticks t /\ now_ticks t <= U64_MAX;
  wf_tsc : u64 (tsc_clocks t);
  wf_quantum : 0 <= tsc_phase_ticks t < ticks_per_cpu_clock t /\
               ticks_per_cpu_clock t <= MASTER_CLOCK_HZ;
  wf_phases : Forall Phase.wf [microseconds t; pit t; dsp t; wss t; cd t; rtc t; margo t;
                               margo_frame t; distira t; vga t]
}.

(** Device rates no faster than the master clock. *)
Definition rates_ok (r : DeviceRates) : Prop :=
  0 <= dsp_hz r <= MASTER_CLOCK_HZ /\ 0 <= wss_hz r <= MASTER_CLOCK_HZ /\
  0 <= vga_dot_hz r <= MASTER_CLOCK_HZ.

Lemma tsc_step_spec q p ticks :
  0 <= p < q -> q <= MASTER_CLOCK_HZ -> 0 <= ticks ->
  tsc_step q p ticks = ((p + ticks) / q, (p + ticks) mod q).
Proof.
  intros Hp Hq Ht. unfold tsc_step.
  rewrite (proj2 (Z.ltb_lt p q)), (proj2 (Z.leb_le q MASTER_CLOCK_HZ)) by lia. cbn [andb].
  pose proof (Z.div_mod ticks q ltac:(lia)) as Hd. pose proof (Z.mod_pos_bound ticks q ltac:(lia)) as Hm.
  case_step; bool_prop; f_equal.
  - apply (Z.div_unique _ _ _ (ticks mod q + p - q)); lia.
  - apply (Z.mod_unique _ _ (ticks / q + 1)); lia.
  - apply (Z.div_unique _ _ _ (ticks mod q + p)); lia.
  - apply (Z.mod_unique _ _ (ticks / q)); lia.
Qed.

Lemma wf_new mode t : new mode = Some t -> wf t.
Proof.
  unfold new. destruct (exact_cpu_quantum_total mode) as (q & -> & Hq). cbn. intros [= <-].
  constructor; cbn [now_ticks io_stall_ticks tsc_clocks tsc_phase_ticks ticks_per_cpu_clock
    microseconds pit dsp wss cd rtc margo margo_frame distira vga].
  - zlia.
  - zlia.
  - lia.
  - repeat constructor; vm_compute; congruence.
Qed.

Lemma wf_set_mode t mode t' : wf t -> set_mode t mode = Some t' -> wf t'.
Proof.
  intros [] . unfold set_mode. destruct (exact_cpu_quantum_total mode) as (q & -> & Hq).
  cbn. intros [= <-]. constructor; cbn; try done. lia.
Qed.

Lemma advance_master_ticks_eq t req rates :
  let ticks := Z.min req (U64_MAX - now_ticks t) in
  let adv p r := Phase.advance p ticks r in
  let cd_rate := if cd_playing rates then 75 else 0 in
  let tsc := tsc_step (ticks_per_cpu_clock t) (tsc_phase_ticks t) ticks in
  advance_master_ticks t req rates =
  (mkTimeline (now_ticks t + ticks) (io_stall_ticks t) (ticks_per_cpu_clock t)
     (wrap 64 (tsc_clocks t + fst tsc)) (snd tsc)
     (fst (adv (microseconds t) MICROSECOND_HZ)) (fst (adv (pit t) PIT_INPUT_HZ))
     (fst (adv (dsp t) (dsp_hz rates))) (fst (adv (wss t) (wss_hz rates)))
     (fst (adv (cd t) cd_rate)) (fst (adv (rtc t) 1))
     (fst (adv (margo t) NANOSECOND_HZ)) (fst (adv (margo_frame t) MARGO_FRAME_HZ))
     (fst (adv (distira t) DISTIRA_LINE_HZ)) (fst (adv (vga t) (vga_dot_hz rates))),
   mkAdvance ticks (remainder (pit t))
     (snd (adv (microseconds t) MICROSECOND_HZ)) (snd (adv (pit t) PIT_INPUT_HZ))
     (snd (adv (dsp t) (dsp_hz rates))) (snd (adv (wss t) (wss_hz rates)))
     (snd (adv (cd t) cd_rate)) (snd (adv (rtc t) 1))
     (snd (adv (margo t) NANOSECOND_HZ)) (snd (adv (margo_frame t) MARGO_FRAME_HZ))
     (snd (adv (distira t) DISTIRA_LINE_HZ)) (snd (adv (vga t) (vga_dot_hz rates)))).
Proof.
  cbv zeta. unfold advance_master_ticks.
  destruct (tsc_step _ _ _).
  repeat match goal with |- context [let '(_, _) := Phase.advance ?p ?a ?r in _] =>
    destruct (Phase.advance p a r) end.
  reflexivity.
Qed.

Lemma wf_advance t req rates :
  wf t -> 0 <= req -> rates_ok rates -> wf (fst (advance_master_ticks t req rates)).
Proof.
  intros [Hnow Htsc Hq Hph] Hreq (Hr1 & Hr2 & Hr3). rewrite advance_master_ticks_eq.
  rewrite tsc_step_spec by lia. cbn [fst snd].
  set (ticks := Z.min _ _). assert (0 <= ticks) by lia.
  rewrite !Forall_cons in Hph. destruct Hph as (?&?&?&?&?&?&?&?&?&?&_).
  constructor; cbn.
  - unfold ticks. lia.
  - by apply wrap_in_width.
  - pose proof (Z.mod_pos_bound (tsc_phase_ticks t + ticks) (ticks_per_cpu_clock t)). lia.
  - repeat constructor; try (apply advance_wf; try done; try lia).
    1-2: by destruct (cd_playing rates).
Qed.

Lemma advance_ticks_bound t req rates :
  wf t -> 0 <= req ->
  now_ticks (fst (advance_master_ticks t req rates)) = Z.min (now_ticks t + req) U64_MAX /\
  master_ticks (snd (advance_master_ticks t req rates)) = Z.min req (U64_MAX - now_ticks t) /\
  io_stall_ticks (fst (advance_master_ticks t req rates)) = io_stall_ticks t /\
  ticks_per_cpu_clock (fst (advance_master_ticks t req rates)) = ticks_per_cpu_clock t.
Proof. intros []. rewrite advance_master_ticks_eq. cbn. lia. Qed.

Lemma wf_advance_io_stall t req rates :
  wf t -> 0 <= req -> rates_ok rates -> wf (fst (advance_io_stall_ticks t req rates)).
Proof.
  intros Hwf Hreq Hr. pose proof (wf_advance t req rates Hwf Hreq Hr) as Hwf'.
  destruct (advance_ticks_bound t req rates Hwf Hreq) as (Hn & Hm & Hio & _).
  unfold advance_io_stall_ticks. destruct (advance_master_ticks _ _ _) as [t' a].
  cbn [fst snd] in *. destruct Hwf' as [Hnow' ? ? ?]. destruct Hwf as [Hnow _ _ _].
  constructor; cbn; try done.
  rewrite saturate_min; unfold U64_MAX in *; lia.
Qed.

(* ------------------------------------------------------------------ *)
(** ** Splitting an advance *)

(** Two consecutive advances reported as one. *)
Definition merge (a b : DeviceAdvance) : DeviceAdvance :=
  mkAdvance (master_ticks a + master_ticks b) (pit_remainder_before a)
    (microseconds_due a + microseconds_due b) (pit_clocks a + pit_clocks b)
    (dsp_frames a + dsp_frames b) (wss_frames a + wss_frames b) (cd_frames a + cd_frames b)
    (rtc_seconds a + rtc_seconds b) (margo_nanoseconds a + margo_nanoseconds b)
    (margo_frames a + margo_frames b) (distira_lines a + distira_lines b)
    (vga_dots a + vga_dots b).

Lemma tsc_split q p a b :
  0 <= p < q -> q <= MASTER_CLOCK_HZ -> 0 <= a -> 0 <= b ->
  tsc_step q p (a + b) =
  (fst (tsc_step q p a) + fst (tsc_step q (snd (tsc_step q p a)) b),
   snd (tsc_step q (snd (tsc_step q p a)) b)).
Proof.
  intros Hp Hq Ha Hb. pose proof (Z.mod_pos_bound (p + a) q ltac:(lia)) as Hm.
  rewrite (tsc_step_spec q p a), (tsc_step_spec q p (a + b)) by lia. cbn [fst snd].
  rewrite tsc_step_spec by lia. cbn [fst snd].
  pose proof (Z.div_mod (p + a) q ltac:(lia)) as Hd.
  replace (p + (a + b)) with ((p + a) mod q + b + (p + a) / q * q) by lia.
  rewrite Z.div_add, Z.mod_add by lia. f_equal. lia.
Qed.

(** C27.  The timeline does not depend on how an interval is cut: advancing by [a]
    and then by [b] ticks leaves the same clock, time-stamp counter and device
    phases as advancing by [a + b], and reports the same device events in total, for any
    well-formed timeline whose clock does not pass [u64::MAX] in the interval and device
    rates of at most the master clock. *)
Theorem timeline_split t a b rates :
  wf t -> 0 <= a -> 0 <= b -> now_ticks t + (a + b) <= U64_MAX -> rates_ok rates ->
  advance_master_ticks t (a + b) rates =
  let '(t1, d1) := advance_master_ticks t a rates in
  let '(t2, d2) := advance_master_ticks t1 b rates in
  (t2, merge d1 d2).
Proof.
  intros Hwf Ha Hb Hmax (Hr1 & Hr2 & Hr3).
  pose proof Hwf as [Hnow Htsc Hq Hph].
  rewrite !Forall_cons in Hph. destruct Hph as (P1&P2&P3&P4&P5&P6&P7&P8&P9&P10&_).
  rewrite (advance_master_ticks_eq t a rates). cbv zeta.
  rewrite (advance_master_ticks_eq t (a + b) rates). cbv zeta.
  rewrite !Z.min_l by lia. rewrite advance_master_ticks_eq.
  cbn [now_ticks io_stall_ticks tsc_clocks tsc_phase_ticks ticks_per_cpu_clock
    microseconds pit dsp wss cd rtc margo margo_frame distira vga].
  rewrite Z.min_l by lia. cbv zeta.
  rewrite (tsc_split _ _ a b) by lia. cbn [fst snd].
  assert (forall p r, Phase.wf p -> 0 <= r <= MASTER_CLOCK_HZ ->
    fst (advance p (a + b) r) = fst (advance (fst (advance p a r)) b r) /\
    snd (advance p (a + b) r) = snd (advance p a r) + snd (advance (fst (advance p a r)) b r)) as Hs.
  { intros. apply advance_split; try done. zlia. }
  assert (0 <= (if cd_playing rates then 75 else 0) <= MASTER_CLOCK_HZ)
    by (destruct (cd_playing rates); done).
  destruct (Hs _ MICROSECOND_HZ P1 ltac:(done)) as [-> ->].
  destruct (Hs _ PIT_INPUT_HZ P2 ltac:(done)) as [-> ->].
  destruct (Hs _ (dsp_hz rates) P3 ltac:(done)) as [-> ->].
  destruct (Hs _ (wss_hz rates) P4 ltac:(done)) as [-> ->].
  destruct (Hs _ (if cd_playing rates then 75 else 0) P5 ltac:(done)) as [-> ->].
  destruct (Hs _ 1 P6 ltac:(done)) as [-> ->].
  destruct (Hs _ NANOSECOND_HZ P7 ltac:(done)) as [-> ->].
  destruct (Hs _ MARGO_FRAME_HZ P8 ltac:(done)) as [-> ->].
  destruct (Hs _ DISTIRA_LINE_HZ P9 ltac:(done)) as [-> ->].
  destruct (Hs _ (vga_dot_hz rates) P10 ltac:(done)) as [-> ->].
  unfold merge. cbn. f_equal. f_equal; [lia|]. unfold wrap.
  rewrite Zplus_mod_idemp_l. f_equal. lia.
Qed.

(* ------------------------------------------------------------------ *)
(** ** Reachable timelines *)

(** The timeline's transitions. *)
Inductive step : Timeline -> Timeline -> Prop :=
| step_advance t req rates :
    u64 req -> rates_ok rates -> step t (fst (advance_master_ticks t req rates))
| step_io_stall t req rates :
    u64 req -> rates_ok rates -> step t (fst (advance_io_stall_ticks t req rates))
| step_set_mode t mode t' : set_mode t mode = Some t' -> step t t'.

Inductive reachable : Timeline -> Prop :=
| reachable_new mode t : new mode = Some t -> reachable t
| reachable_step t t' : reachable t -> step t t' -> reachable t'.

Lemma reachable_wf t : reachable t -> wf t.
Proof.
  induction 1 as [mode t Hn|t t' _ IH Hs]; [by eapply wf_new|].
  destruct Hs as [? ? ? [] ?|? ? ? [] ?|].
  - by apply wf_advance.
  - by apply wf_advance_io_stall.
  - by eapply wf_set_mode.
Qed.

(** The quantum a reachable timeline runs at is that of the last mode set. *)
Inductive runs_in : Timeline -> GswMode -> Prop :=
| runs_new mode t : new mode = Some t -> runs_in t mode
| runs_advance t mode req rates :
    runs_in t mode -> u64 req -> rates_ok rates ->
    runs_in (fst (advance_master_ticks t req rates)) mode
| runs_io_stall t mode req rates :
    runs_in t mode -> u64 req -> rates_ok rates ->
    runs_in (fst (advance_io_stall_ticks t req rates)) mode
| runs_set_mode t mode mode' t' :
    runs_in t mode -> set_mode t mode' = Some t' -> runs_in t' mode'.

Lemma io_stall_quantum t req rates :
  ticks_per_cpu_clock (fst (advance_io_stall_ticks t req rates)) = ticks_per_cpu_clock t.
Proof.
  unfold advance_io_stall_ticks. rewrite advance_master_ticks_eq. done.
Qed.

Lemma runs_in_spec t mode :
  runs_in t mode -> reachable t /\ exact_cpu_quantum mode = Some (ticks_per_cpu_clock t).
Proof.
  induction 1 as [mode t Hn|t mode req rates _ [IH1 IH2]|t mode req rates _ [IH1 IH2]|
    t mode mode' t' _ [IH1 _] Hs].
  - split; [by econstructor|]. unfold new in Hn. destruct (exact_cpu_quantum mode); [|done].
    by injection Hn as <-.
  - split; [by eapply reachable_step, step_advance|].
    rewrite advance_master_ticks_eq. done.
  - split; [by eapply reachable_step, step_io_stall|]. by rewrite io_stall_quantum.
  - split; [by eapply reachable_step, step_set_mode|]. unfold set_mode in Hs.
    destruct (exact_cpu_quantum mode'); [|done]. by injection Hs as <-.
Qed.

Lemma check_phases_ok l : Forall (fun x => snd x < MASTER_CLOCK_HZ) l -> check_phases l = Ok tt.
Proof.
  induction 1 as [|[n r] l Hr _ IH]; [done|]. cbn in *.
  by rewrite (proj2 (Z.leb_gt _ _)) by done.
Qed.

(** The capture checks never fire: in whatever order the machine advances,
    stalls on I/O and changes mode, the timeline projects successfully in the
    mode it runs in, and the projection is thirteen words. *)
Theorem capture_total t mode :
  runs_in t mode ->
  exists ws, canonical_projection t mode = Some (Ok ws) /\ length ws = 13%nat /\ Forall u64 ws.
Proof.
  intros [Hr Hq]%runs_in_spec. pose proof (reachable_wf t Hr) as [Hnow Htsc Hph Hall].
  unfold canonical_projection. rewrite Hq. cbn [mbind option_bind].
  rewrite Z.eqb_refl, (proj2 (Z.ltb_lt _ _)) by lia.
  rewrite !Forall_cons in Hall. unfold Phase.wf in Hall. destruct Hall as (?&?&?&?&?&?&?&?&?&?&_).
  rewrite check_phases_ok.
  - rewrite (proj2 (Z.leb_le _ _)) by lia. eexists. split; [done|]. split; [done|].
    unfold MASTER_CLOCK_HZ in *. repeat constructor; zlia.
  - unfold phases. repeat constructor; cbn; lia.
Qed.

(* ------------------------------------------------------------------ *)
(** ** Mode changes *)

(** What a mode change must not touch. *)
Definition device_view (t : Timeline) :=
  (now_ticks t, io_stall_ticks t, (microseconds t, pit t, dsp t, wss t, cd t),
   (rtc t, margo t, margo_frame t, distira t, vga t)).

Inductive Command :=
| Advance (req : Z) (rates : DeviceRates)
| IoStall (req : Z) (rates : DeviceRates)
| SetMode (mode : GswMode).

(** Runs a script of commands, collecting what the devices are told. *)
Fixpoint run_script (script : list Command) (t : Timeline) : option (Timeline * list DeviceAdvance) :=
  match script with
  | [] => Some (t, [])
  | Advance req rates :: rest =>
      let '(t', d) := advance_master_ticks t req rates in
      '(t'', ds) ← run_script rest t'; Some (t'', d :: ds)
  | IoStall req rates :: rest =>
      let '(t', d) := advance_io_stall_ticks t req rates in
      '(t'', ds) ← run_script rest t'; Some (t'', d :: ds)
  | SetMode mode :: rest => t' ← set_mode t mode; run_script rest t'
  end.

Definition without_mode_changes (script : list Command) : list Command :=
  List.filter (fun c => match c with SetMode _ => false | _ => true end) script.

Lemma advance_view t u req rates :
  device_view t = device_view u ->
  snd (advance_master_ticks t req rates) = snd (advance_master_ticks u req rates) /\
  device_view (fst (advance_master_ticks t req rates))
  = device_view (fst (advance_master_ticks u req rates)).
Proof.
  unfold device_view. intros [= H1 H2 H3 H4 H5 H6 H7 H8 H9 H10 H11 H12].
  rewrite !advance_master_ticks_eq. cbn.
  by rewrite H1, H2, H3, H4, H5, H6, H7, H8, H9, H10, H11, H12.
Qed.

Lemma io_stall_view t u req rates :
  device_view t = device_view u ->
  snd (advance_io_stall_ticks t req rates) = snd (advance_io_stall_ticks u req rates) /\
  device_view (fst (advance_io_stall_ticks t req rates))
  = device_view (fst (advance_io_stall_ticks u req rates)).
Proof.
  intros H. destruct (advance_view t u req rates H) as [E1 E2].
  unfold advance_io_stall_ticks.
  destruct (advance_master_ticks t _ _) as [t1 d1], (advance_master_ticks u _ _) as [u1 e1].
  cbn [fst snd] in *. subst e1. split; [done|].
  unfold device_view in *. cbn. injection E2 as -> -> -> -> -> -> -> -> -> -> -> ->. done.
Qed.

Lemma run_script_view script : forall t u,
  device_view t = device_view u ->
  match run_script script t, run_script (without_mode_changes script) u with
  | Some (t', ds), Some (u', es) => ds = es /\ device_view t' = device_view u'
  | _, _ => False
  end.
Proof.
  induction script as [|c script IH]; intros t u H; [done|].
  destruct c as [req rates|req rates|mode]; cbn.
  - destruct (advance_view t u req rates H) as [Ed Ev].
    destruct (advance_master_ticks t _ _) as [t1 d1], (advance_master_ticks u _ _) as [u1 e1].
    cbn in *. specialize (IH t1 u1 Ev). subst. unfold without_mode_changes in IH.
    destruct (run_script script t1) as [[]|], (run_script _ u1) as [[]|]; cbn; try done.
    by destruct IH as [-> ->].
  - destruct (io_stall_view t u req rates H) as [Ed Ev].
    destruct (advance_io_stall_ticks t _ _) as [t1 d1], (advance_io_stall_ticks u _ _) as [u1 e1].
    cbn in *. specialize (IH t1 u1 Ev). subst. unfold without_mode_changes in IH.
    destruct (run_script script t1) as [[]|], (run_script _ u1) as [[]|]; cbn; try done.
    by destruct IH as [-> ->].
  - unfold set_mode. destruct (exact_cpu_quantum_total mode) as (q & -> & _). cbn.
    apply IH. unfold device_view in *. by cbn.
Qed.

(** "Changing CPU mode changes future CPU quanta without changing elapsed time
    or device phase": deleting every mode change from a script of advances and
    I/O stalls changes neither what the devices are told nor the phases. *)
Theorem mode_changes_invisible script t :
  match run_script script t, run_script (without_mode_changes script) t with
  | Some (t', ds), Some (u', es) => ds = es /\ device_view t' = device_view u'
  | _, _ => False
  end.
Proof. by apply run_script_view. Qed.

(* ------------------------------------------------------------------ *)
(** ** Margo's beam *)

Lemma margo_dots t k fd :
  wf t -> 0 < fd <= 2 ^ 31 -> u64 k ->
  total (margo_frame t) k MARGO_FRAME_HZ * fd / MASTER_CLOCK_HZ <= U64_MAX ->
  let s := preview_margo_scanout_at_ticks t k fd in
  dots s = total (margo_frame t) k MARGO_FRAME_HZ * fd / MASTER_CLOCK_HZ /\
  0 <= beam s < fd /\ dots s mod fd = beam s.
Proof.
  intros [_ _ _ Hph] Hfd [Hk Hk'] Hfit. cbv zeta.
  rewrite !Forall_cons in Hph. destruct Hph as (_&_&_&_&_&_&_&Hp&_).
  unfold preview_margo_scanout_at_ticks. rewrite (proj2 (Z.eqb_neq _ _)) by lia.
  pose proof (advance_events (margo_frame t) k MARGO_FRAME_HZ Hp ltac:(done) ltac:(done)) as He.
  pose proof (advance_wide (margo_frame t) k MARGO_FRAME_HZ Hp Hk ltac:(done)) as Hw.
  destruct (advance _ _ _) as [p' frames]. cbn [snd] in He. injection Hw as -> _.
  cbn [remainder dots beam]. set (T := total _ _ _) in *.
  pose proof (Z.div_mod T MASTER_CLOCK_HZ ltac:(done)) as Hdm.
  pose proof (Z.mod_pos_bound T MASTER_CLOCK_HZ ltac:(done)) as Hm.
  assert (0 <= T mod MASTER_CLOCK_HZ * fd < MASTER_CLOCK_HZ * fd) as Hb by nia.
  assert (saturating_u64 (T mod MASTER_CLOCK_HZ * fd) = T mod MASTER_CLOCK_HZ * fd) as ->.
  { rewrite saturating_u64_min. assert (MASTER_CLOCK_HZ * fd <= MASTER_CLOCK_HZ * 2 ^ 31) by nia.
    unfold MASTER_CLOCK_HZ in *. zlia. }
  assert (T * fd / MASTER_CLOCK_HZ = frames * fd + T mod MASTER_CLOCK_HZ * fd / MASTER_CLOCK_HZ) as Hd.
  { rewrite He. rewrite <-Z.div_add_l by done. f_equal. rewrite Hdm at 1. ring. }
  assert (0 <= T mod MASTER_CLOCK_HZ * fd / MASTER_CLOCK_HZ < fd) as Hbeam.
  { split; [apply Z.div_pos; [lia|done]|]. apply Z.div_lt_upper_bound; [done|lia]. }
  assert (0 <= frames) by (rewrite He; apply Z.div_pos; [|done]; unfold T, total, MARGO_FRAME_HZ; destruct Hp; lia).
  rewrite Hd in *. assert (0 <= frames * fd) by nia.
  rewrite (saturate_id 64 (frames * fd)) by zlia. rewrite saturate_id by zlia.
  split; [done|]. split; [done|]. rewrite Z.add_comm, Z.mod_add, Z.mod_small by lia. done.
Qed.

(** The beam and the frame clock are one clock: the dots of a scanout are the
    frame phase scaled by the dots of a frame, the beam is their remainder inside
    the frame, and the deadline of a dot distance is exact, the beam having moved
    [n] dots after [k] ticks precisely when [k] has reached it. *)
Theorem margo_deadline_exact t n fd k :
  wf t -> 0 < fd <= 2 ^ 31 -> u64 n -> 0 <= k < U64_MAX ->
  total (margo_frame t) k MARGO_FRAME_HZ * fd / MASTER_CLOCK_HZ <= U64_MAX ->
  let at_tick j := preview_margo_scanout_at_ticks t j fd in
  beam (at_tick k) = dots (at_tick k) mod fd /\
  exists ticks, margo_master_ticks_until_dots t n fd = Some ticks /\
    (ticks <= k <-> n <= dots (at_tick k) - dots (at_tick 0)).
Proof.
  intros Hwf Hfd Hn Hk Hfit. cbv zeta.
  destruct (margo_dots t k fd Hwf Hfd ltac:(zlia) Hfit) as (Hdk & _ & Hbk).
  split; [done|]. rewrite Hdk.
  pose proof Hwf as [_ _ _ Hph]. rewrite !Forall_cons in Hph. destruct Hph as (_&_&_&_&_&_&_&Hp&_).
  destruct Hp as [Hr Hr'].
  set (r := remainder (margo_frame t)) in *.
  assert (total (margo_frame t) 0 MARGO_FRAME_HZ = r) as H0t by (unfold total; lia).
  assert (0 <= r * fd < MASTER_CLOCK_HZ * fd) as Hrf by nia.
  assert (r * fd / MASTER_CLOCK_HZ < fd) by (apply Z.div_lt_upper_bound; [done|lia]).
  destruct (margo_dots t 0 fd Hwf Hfd ltac:(zlia) ltac:(rewrite H0t; zlia)) as (Hd0 & _ & _).
  rewrite Hd0, H0t. unfold margo_master_ticks_until_dots.
  rewrite (proj2 (Z.eqb_neq _ _)) by lia.
  assert (checked 64 (fd * MARGO_FRAME_HZ) = Some (fd * MARGO_FRAME_HZ)) as ->.
  { apply checked_Some. unfold MARGO_FRAME_HZ. split; [zlia|done]. }
  cbn [mbind option_bind]. fold r. unfold with_remainder.
  pose proof (Z.mod_pos_bound (r * fd) MASTER_CLOCK_HZ ltac:(done)) as Hm.
  rewrite (proj2 (Z.ltb_lt _ _)) by lia. cbn [mbind option_bind].
  set (p := mkPhase (r * fd mod MASTER_CLOCK_HZ)).
  pose proof (ticks_until_exact p n (fd * MARGO_FRAME_HZ) k Hm Hn
    ltac:(unfold MARGO_FRAME_HZ; zlia) Hk) as Hex.
  destruct (ticks_until p n _) as [ticks|]; [|unfold MARGO_FRAME_HZ in Hex; lia].
  exists ticks. split; [done|]. rewrite Hex, advance_wide by (done || unfold MARGO_FRAME_HZ; lia).
  cbn [snd].
  assert (total (margo_frame t) k MARGO_FRAME_HZ * fd / MASTER_CLOCK_HZ =
    r * fd / MASTER_CLOCK_HZ + total p k (fd * MARGO_FRAME_HZ) / MASTER_CLOCK_HZ) as Hsum.
  { unfold total. fold r. cbn [remainder p]. rewrite <-Z.div_add_l by done. f_equal.
    pose proof (Z.div_mod (r * fd) MASTER_CLOCK_HZ ltac:(done)). nia. }
  rewrite le_saturating by zlia. rewrite Hsum. split; intros; lia.
Qed.

(** A timeline in mid-run, for the witnesses. *)
Definition example_rates : DeviceRates := mkRates 44100 48000 true 25175000.
Definition example_timeline : option Timeline :=
  t ← new Gsw586;
  Some (fst (advance_master_ticks t 123456789 example_rates)).

Lemma timeline_split_witness :
  exists t, example_timeline = Some t /\
  advance_master_ticks t (1000 + 54780000) example_rates =
  let '(t1, d1) := advance_master_ticks t 1000 example_rates in
  let '(t2, d2) := advance_master_ticks t1 54780000 example_rates in
  (t2, merge d1 d2).
Proof.
  eexists. split; [reflexivity|].
  assert (rates_ok example_rates) by (unfold rates_ok, example_rates, MASTER_CLOCK_HZ; cbn; lia).
  apply timeline_split; [|lia|lia|vm_compute; congruence|done].
  apply wf_advance; [by apply (wf_new Gsw586)|lia|done].
Defined.

Lemma capture_total_witness :
  exists t, example_timeline = Some t /\
  exists ws, canonical_projection t Gsw586 = Some (Ok ws) /\ length ws = 13%nat /\ Forall u64 ws.
Proof.
  eexists. split; [reflexivity|]. apply capture_total.
  apply runs_advance; [by apply runs_new|zlia|].
  unfold rates_ok, example_rates, MASTER_CLOCK_HZ; cbn; lia.
Defined.

Lemma margo_deadline_exact_witness :
  exists t, example_timeline = Some t /\
  let at_tick j := preview_margo_scanout_at_ticks t j 420000 in
  beam (at_tick 91300000) = dots (at_tick 91300000) mod 420000 /\
  exists ticks, margo_master_ticks_until_dots t 420000 420000 = Some ticks /\
    (ticks <= 91300000 <-> 420000 <= dots (at_tick 91300000) - dots (at_tick 0)).
Proof.
  eexists. split; [reflexivity|].
  apply margo_deadline_exact; [|lia|zlia|unfold U64_MAX; lia|vm_compute; congruence].
  apply wf_advance; [by apply (wf_new Gsw586)|lia|].
  unfold rates_ok, example_rates, MASTER_CLOCK_HZ; cbn; lia.
Defined.

End Machine.
