(* ===== verification/Memory.v ===== *)
(** * Guest memory

    [Memory] of crates/izarravm-bus/src/lib.rs: the guest's RAM as a byte vector.
    Every access is bounds checked and reports [MemoryOutOfBounds]; a wide write
    stores its bytes in ascending order and stops at the first one out of range. *)

From S2P Require Import Prelude.

Inductive BusWidth := Byte | Word | Dword.
#[export] Instance BusWidth_eq_dec : EqDecision BusWidth.
Proof. solve_decision. Defined.

Inductive BusError :=
| EmptyMemory
| MemoryOutOfBounds (address end_ len : Z)
| UnmappedMemory (address : Z)
| UnsupportedPort (port : Z)
| WidthMismatch (width : BusWidth).

(** [BusWidth::bytes] *)
Definition width_bytes (w : BusWidth) : Z :=
  match w with Byte => 1 | Word => 2 | Dword => 4 end.

Definition misaligned_at (w : BusWidth) (address : Z) : bool :=
  has address (width_bytes w - 1).

Definition byte_enable (w : BusWidth) (address : Z) : Z :=
  match w with
  | Byte => wrap 8 (Z.shiftl 1 (Z.land address 3))
  | Word => wrap 8 (Z.shiftl 3 (Z.land address 2))
  | Dword => 15
  end.

(** [scale_core_clocks]: [None] on overflow or a zero denominator. *)
Definition scale_core_clocks (raw num den rem : Z) : option Z :=
  scaled ← checked 64 (raw * num);
  sum ← checked 64 (scaled + rem);
  if den =? 0 then None else Some (sum / den).

Record Memory := mkMemory { data : list Z }.
#[export] Instance eta_Memory : Eta Memory := fun m => mkMemory (data m).

(** [PageAlignedBytes::zeroed] *)
Definition zeroed (len : Z) : list Z := replicate (Z.to_nat len) 0.

Definition memory_new (size : Z) : result BusError Memory :=
  if size =? 0 then Err EmptyMemory else Ok (mkMemory (zeroed size)).

Definition from_mib (memory_mib : Z) : result BusError Memory :=
  memory_new (memory_mib * 1024 * 1024).

Definition memory_len (m : Memory) : Z := Z.of_nat (length (data m)).

Definition out_of_bounds (m : Memory) (address width : Z) : BusError :=
  MemoryOutOfBounds address (saturate 64 (address + width)) (memory_len m).

Definition read_u8 (m : Memory) (address : Z) : result BusError Z :=
  match data m !! Z.to_nat address with
  | Some b => Ok b
  | None => Err (out_of_bounds m address 1)
  end.

Definition read_u16 (m : Memory) (address : Z) : result BusError Z :=
  let? b0 := read_u8 m address in
  let? b1 := read_u8 m (address + 1) in
  Ok (le_value [b0; b1]).

Definition read_u32 (m : Memory) (address : Z) : result BusError Z :=
  let? b0 := read_u8 m address in
  let? b1 := read_u8 m (address + 1) in
  let? b2 := read_u8 m (address + 2) in
  let? b3 := read_u8 m (address + 3) in
  Ok (le_value [b0; b1; b2; b3]).

(** [None] for [Err]: the failed write leaves the memory as it is. *)
Definition write_u8 (m : Memory) (address value : Z) : result BusError Memory :=
  match data m !! Z.to_nat address with
  | Some _ => Ok (mkMemory (<[Z.to_nat address := value]> (data m)))
  | None => Err (out_of_bounds m address 1)
  end.

(** The byte loop of the wide writes: the memory it leaves, and its result. *)
Fixpoint write_bytes (m : Memory) (address : Z) (bs : list Z) : Memory * result BusError unit :=
  match bs with
  | [] => (m, Ok tt)
  | b :: rest =>
      match write_u8 m address b with
      | Err e => (m, Err e)
      | Ok m' => write_bytes m' (address + 1) rest
      end
  end.

Definition write_u16 (m : Memory) (address value : Z) : Memory * result BusError unit :=
  write_bytes m address (le_bytes 2 value).
Definition write_u32 (m : Memory) (address value : Z) : Memory * result BusError unit :=
  write_bytes m address (le_bytes 4 value).

(* ------------------------------------------------------------------ *)

(** In-range addresses. *)
Definition in_memory (m : Memory) (a : Z) : Prop := 0 <= a < memory_len m.

Lemma read_u8_in m a : in_memory m a -> exists b, read_u8 m a = Ok b.
Proof.
  unfold in_memory, memory_len, read_u8. intros Ha.
  destruct (lookup_lt_is_Some_2 (data m) (Z.to_nat a)) as [b ->]; [lia|]. by exists b.
Qed.

Lemma write_u8_in m a v :
  in_memory m a -> write_u8 m a v = Ok (mkMemory (<[Z.to_nat a := v]> (data m))).
Proof.
  unfold in_memory, memory_len, write_u8. intros Ha.
  by destruct (lookup_lt_is_Some_2 (data m) (Z.to_nat a)) as [b ->]; [lia|].
Qed.

Lemma write_u8_len m a v m' : write_u8 m a v = Ok m' -> memory_len m' = memory_len m.
Proof.
  unfold write_u8, memory_len. case_step; [|done]. intros [= <-]. cbn. by rewrite length_insert.
Qed.

Lemma write_u8_ok m a v m' : 0 <= a -> write_u8 m a v = Ok m' -> in_memory m a.
Proof.
  unfold write_u8, in_memory, memory_len. case_step; [|done]. intros.
  apply lookup_lt_Some in E. lia.
Qed.

Lemma read_write m a v m' b :
  0 <= a -> 0 <= b -> write_u8 m a v = Ok m' ->
  read_u8 m' b = if b =? a then Ok v else read_u8 m b.
Proof.
  intros Ha Hb Hw. pose proof (write_u8_len _ _ _ _ Hw) as Hl.
  pose proof (write_u8_ok _ _ _ _ Ha Hw) as Hin.
  rewrite write_u8_in in Hw by done. injection Hw as <-. unfold read_u8. cbn.
  unfold in_memory, memory_len in Hin.
  destruct (Z.eqb_spec b a) as [->|Hne].
  - by rewrite list_lookup_insert_eq by lia.
  - rewrite list_lookup_insert_ne by lia. unfold out_of_bounds. by rewrite Hl.
Qed.

Lemma read_u8_Ok m a b : 0 <= a -> read_u8 m a = Ok b -> in_memory m a.
Proof.
  unfold read_u8, in_memory, memory_len. case_step; [|done]. intros.
  apply lookup_lt_Some in E. lia.
Qed.

Lemma write_bytes_in bs : forall m a,
  0 <= a -> a + Z.of_nat (length bs) <= memory_len m ->
  exists m', write_bytes m a bs = (m', Ok tt) /\ memory_len m' = memory_len m /\
    forall b, 0 <= b ->
      read_u8 m' b = match bs !! Z.to_nat (b - a) with
                     | Some v => if a <=? b then Ok v else read_u8 m b
                     | None => read_u8 m b
                     end.
Proof.
  induction bs as [|v bs IH]; intros m a Ha Hl; cbn [write_bytes length] in *.
  - exists m. split; [done|]. split; [done|]. intros. by rewrite lookup_nil.
  - rewrite write_u8_in by (unfold in_memory; lia).
    set (m1 := mkMemory _). assert (write_u8 m a v = Ok m1) as Hw
      by (by rewrite write_u8_in by (unfold in_memory; lia)).
    pose proof (write_u8_len _ _ _ _ Hw) as Hl1.
    destruct (IH m1 (a + 1)) as (m' & -> & Hl' & Hr); [lia|lia|].
    exists m'. split; [done|]. split; [lia|]. intros b Hb. rewrite Hr by done.
    rewrite (read_write _ _ _ _ _ Ha Hb Hw).
    destruct (Z.eqb_spec b a) as [->|Hne].
    + rewrite Z.sub_diag. cbn. rewrite (proj2 (Z.leb_gt (a + 1) a)) by lia.
      rewrite (proj2 (Z.leb_le a a)) by lia. by case_match.
    + destruct (Z.lt_ge_cases b a).
      * rewrite !(proj2 (Z.leb_gt _ _)) by lia. by repeat case_match.
      * replace (Z.to_nat (b - a)) with (S (Z.to_nat (b - (a + 1)))) by lia. cbn.
        by rewrite !(proj2 (Z.leb_le _ _)) by lia.
Qed.
