(* ===== verification/Pic.v ===== *)
(** * The 8259A interrupt controller

    crates/izarravm-machine/src/pic.rs: [Chip] is one 8259A ([Pic]); the cascade is
    in PicPair.v.  A register is a byte held as a [Z]; the methods that return a
    value return the new state with it.  Theorems: priority resolution against its
    declarative specification, the stack discipline of fully nested mode, freedom
    from starvation under rotation, and the initialization sequence. *)

From Stdlib Require Import Sorted.
From S2P Require Import Prelude Clock Canonical.

Module Chip.

Inductive InitStage := Ready | ExpectIcw2 | ExpectIcw3 | ExpectIcw4.
#[export] Instance InitStage_eq_dec : EqDecision InitStage.
Proof. solve_decision. Defined.

Record Pic := mkPic {
  irr : Z;
  asserted : Z;
  isr : Z;
  imr : Z;
  icw2 : Z;
  icw3 : Z;
  init : InitStage;
  expect_icw4 : bool;
  single : bool;
  level_triggered : bool;
  auto_eoi : bool;
  buffered : bool;
  is_master : bool;
  read_isr : bool;
  poll_pending : bool;
  special_mask : bool;
  sfnm : bool;
  lowest : Z;
  auto_rotate : bool
}.
#[export] Instance eta_Pic : Eta Pic := fun p =>
  mkPic (irr p) (asserted p) (isr p) (imr p) (icw2 p) (icw3 p) (init p) (expect_icw4 p)
    (single p) (level_triggered p) (auto_eoi p) (buffered p) (is_master p) (read_isr p)
    (poll_pending p) (special_mask p) (sfnm p) (lowest p) (auto_rotate p).

(** [Pic::default()], the power-on chip. *)
Definition default : Pic :=
  mkPic 0 0 0 0 0 0 Ready false false false false false false false false false false 0 false.

(** The eight levels in priority order, highest first. *)
Definition priority_order (p : Pic) : list Z :=
  (fun slot => wrap 8 (lowest p + 1 + slot) mod 8) <$> [0; 1; 2; 3; 4; 5; 6; 7].

Definition request (p : Pic) (irq : Z) : Pic := p <| irr := Z.lor (irr p) (bit irq) |>.

Definition set_input_level (p : Pic) (irq : Z) (level : bool) : Pic :=
  let b := bit irq in
  let was_asserted := has (asserted p) b in
  if level then
    let p := p <| asserted := Z.lor (asserted p) b |> in
    if level_triggered p || negb was_asserted
    then p <| irr := Z.lor (irr p) b |> else p
  else
    let p := p <| asserted := Z.ldiff (asserted p) b |> in
    if level_triggered p then p <| irr := Z.ldiff (irr p) b |> else p.

Definition clear_in_service (p : Pic) (irq : Z) : Pic :=
  let b := bit irq in
  let p := p <| isr := Z.ldiff (isr p) b |> in
  if level_triggered p && has (asserted p) b
  then p <| irr := Z.lor (irr p) b |> else p.

Definition highest_in_service (p : Pic) : option Z :=
  List.find (fun irq => has (isr p) (bit irq)) (priority_order p).

(** OCW2. *)
Definition end_of_interrupt (p : Pic) (ocw2 : Z) : Pic :=
  let level := Z.land ocw2 7 in
  match Z.shiftr ocw2 5 with
  | 0 | 4 => p <| auto_rotate := has ocw2 128 |>
  | 1 =>
      match highest_in_service p with
      | Some level => clear_in_service p level
      | None => p
      end
  | 3 => clear_in_service p level
  | 5 =>
      match highest_in_service p with
      | Some level => (clear_in_service p level) <| lowest := level |>
      | None => p
      end
  | 6 => p <| lowest := level |>
  | 7 => (clear_in_service p level) <| lowest := level |>
  | _ => p
  end.

(** The walk of [highest_pending] over the levels still to be considered. *)
Fixpoint pending_walk (p : Pic) (cascade_exempt : option Z) (order : list Z) : option Z :=
  match order with
  | [] => None
  | irq :: rest =>
      if has (isr p) (bit irq) && negb (bool_decide (cascade_exempt = Some irq)) then
        if special_mask p then pending_walk p cascade_exempt rest else None
      else if has (Z.ldiff (irr p) (imr p)) (bit irq) then Some irq
      else pending_walk p cascade_exempt rest
  end.

Definition highest_pending (p : Pic) (cascade_exempt : option Z) : option Z :=
  pending_walk p cascade_exempt (priority_order p).

Definition vector (p : Pic) (irq : Z) : Z := Z.lor (Z.land (icw2 p) 248) irq.

Definition set_in_service (p : Pic) (irq : Z) : Pic :=
  let b := bit irq in
  let p := p <| isr := Z.lor (isr p) b |> in
  let p := p <| irr := Z.ldiff (irr p) b |> in
  if auto_eoi p then
    let p := clear_in_service p irq in
    if auto_rotate p then p <| lowest := irq |> else p
  else p.

(** The poll command: an acknowledge in software. *)
Definition poll (p : Pic) (cascade_exempt : option Z) : Pic * Z :=
  match highest_pending p cascade_exempt with
  | Some level => (set_in_service p level, Z.lor 128 level)
  | None => (p, 0)
  end.

(** ICW1: master clear, then start the initialization sequence. *)
Definition write_icw1 (p : Pic) (value : Z) : Pic :=
  let p := p <| isr := 0 |> <| imr := 0 |> <| read_isr := false |> <| lowest := 7 |>
             <| auto_rotate := false |> <| expect_icw4 := has value 1 |>
             <| single := has value 2 |> <| level_triggered := has value 8 |> in
  p <| irr := if level_triggered p then asserted p else 0 |> <| init := ExpectIcw2 |>.

Definition write_ocw3 (p : Pic) (value : Z) : Pic :=
  let p := if has value 2 then p <| read_isr := has value 1 |> else p in
  let p := if has value 4 then p <| poll_pending := true |> else p in
  if has value 64 then p <| special_mask := has value 32 |> else p.

Definition write_data (p : Pic) (value : Z) : Pic :=
  match init p with
  | ExpectIcw2 =>
      p <| icw2 := value |>
        <| init := if negb (single p) then ExpectIcw3
                   else if expect_icw4 p then ExpectIcw4 else Ready |>
  | ExpectIcw3 =>
      p <| icw3 := value |> <| init := if expect_icw4 p then ExpectIcw4 else Ready |>
  | ExpectIcw4 =>
      p <| auto_eoi := has value 2 |> <| buffered := has value 8 |>
        <| is_master := has value 4 |> <| sfnm := has value 16 |> <| init := Ready |>
  | Ready => p <| imr := value |>
  end.

Definition write_port (p : Pic) (port value : Z) : Pic :=
  if negb (has port 1) then
    if has value 16 then write_icw1 p value
    else if has value 8 then write_ocw3 p value
    else end_of_interrupt p value
  else write_data p value.

Definition read_port (p : Pic) (port : Z) (cascade_exempt : option Z) : Pic * Z :=
  if poll_pending p then poll (p <| poll_pending := false |>) cascade_exempt
  else if negb (has port 1) then (p, if read_isr p then isr p else irr p)
  else (p, imr p).

Definition init_stage_tag (s : InitStage) : Z :=
  match s with Ready => 0 | ExpectIcw2 => 1 | ExpectIcw3 => 2 | ExpectIcw4 => 3 end.

Definition write_canonical_pic {Alloc : Allocator} (p : Pic) (cascade : Z) (master : bool) : FW :=
  let stage_expects := bool_decide (init p = ExpectIcw2) || bool_decide (init p = ExpectIcw3) in
  write_u8 (irr p) >> write_u8 (asserted p) >> write_u8 (isr p) >> write_u8 (imr p) >>
  write_u8 (Z.land (icw2 p) 248) >> write_u8 cascade >> write_u8 (init_stage_tag (init p)) >>
  write_bool (stage_expects && expect_icw4 p) >>
  write_bool (bool_decide (init p = ExpectIcw2) && single p) >>
  write_bool (level_triggered p) >> write_bool (auto_eoi p) >> write_bool (read_isr p) >>
  write_bool (poll_pending p) >> write_bool (special_mask p) >> write_bool (master && sfnm p) >>
  write_u8 (lowest p) >> write_bool (auto_eoi p && auto_rotate p).

(* ------------------------------------------------------------------ *)
(** ** Well-formed chips *)

Definition pic_wf (p : Pic) : Prop :=
  u8 (irr p) /\ u8 (asserted p) /\ u8 (isr p) /\ u8 (imr p) /\ u8 (icw2 p) /\ u8 (icw3 p) /\
  in_width 3 (lowest p).

Definition level (i : Z) : Prop := in_width 3 i.

Lemma level_bit i : level i -> u8 (bit i).
Proof. intros [? Hi]. apply bit_width. zlia. Qed.
#[local] Hint Resolve level_bit : vm.

Lemma default_wf : pic_wf default.
Proof. unfold pic_wf, in_width; simpl; lia. Qed.

Ltac wf_step :=
  match goal with
  | H : pic_wf _ |- _ => destruct H as (? & ? & ? & ? & ? & ? & ?)
  | |- pic_wf _ => unfold pic_wf; cbn
  | |- _ /\ _ => split
  | |- context [if ?b then _ else _] => destruct b; cbn
  end.
Ltac wf := repeat wf_step; try (auto using lor_width, ldiff_width, level_bit with vm lia).

Lemma request_wf p i : level i -> pic_wf p -> pic_wf (request p i).
Proof. unfold request. intros. wf. Qed.

Lemma set_input_level_wf p i b : level i -> pic_wf p -> pic_wf (set_input_level p i b).
Proof. unfold set_input_level. intros. wf. Qed.

Lemma clear_in_service_wf p i : level i -> pic_wf p -> pic_wf (clear_in_service p i).
Proof. unfold clear_in_service. intros. wf. Qed.

Lemma set_in_service_wf p i : level i -> pic_wf p -> pic_wf (set_in_service p i).
Proof. unfold set_in_service, clear_in_service. intros. cbn. wf. Qed.

Lemma set_lowest_wf p i : level i -> pic_wf p -> pic_wf (p <| lowest := i |>).
Proof. intros. wf. Qed.

(* ------------------------------------------------------------------ *)
(** ** Priority

    The rank of a level is its distance below the level that follows [lowest]:
    rank 0 is served first. *)

Definition rank (p : Pic) (i : Z) : Z := (i - lowest p - 1) mod 8.

Lemma rank_bound p i : 0 <= rank p i < 8.
Proof. apply Z.mod_pos_bound. lia. Qed.

Lemma priority_order_lookup p k i :
  pic_wf p -> priority_order p !! k = Some i <-> level i /\ rank p i = Z.of_nat k.
Proof.
  intros (_ & _ & _ & _ & _ & _ & Hl). unfold level, rank. widths.
  unfold priority_order, wrap. change (2 ^ 8) with 256.
  do 8 (destruct k as [|k]; [cbn; split;
    [intros E; injection E as <-; split; [apply Z.mod_pos_bound; lia|]|];
    rewrite ?(Z.mod_small _ 256) by lia; [|intros [? E]; f_equal];
    Z.div_mod_to_equations; lia|]).
  cbn. split; [done|]. intros [_ E]. pose proof (Z.mod_pos_bound (i - lowest p - 1) 8). lia.
Qed.

Lemma rank_inj p i j : level i -> level j -> rank p i = rank p j -> i = j.
Proof. unfold level, rank. widths. Z.div_mod_to_equations. lia. Qed.

(** A level stands in the way of those below it while it is in service, unless it
    is the input exempted by the special fully nested mode. *)
Definition in_way (p : Pic) (exempt : option Z) (i : Z) : Prop :=
  Z.testbit (isr p) i = true /\ exempt <> Some i.
#[export] Instance in_way_dec p exempt i : Decision (in_way p exempt i).
Proof. unfold in_way. apply _. Defined.

Definition wanted (p : Pic) (i : Z) : bool := Z.testbit (irr p) i && negb (Z.testbit (imr p) i).

(** The levels the chip may interrupt for. *)
Definition serviceable (p : Pic) (exempt : option Z) (i : Z) : Prop :=
  level i /\ wanted p i = true /\ ~ in_way p exempt i /\
  (special_mask p = false -> forall j, level j -> rank p j < rank p i -> ~ in_way p exempt j).

Definition passed (p : Pic) (exempt : option Z) (i : Z) : Prop :=
  (in_way p exempt i -> special_mask p = true) /\ (~ in_way p exempt i -> wanted p i = false).

Lemma has_wanted p i : level i -> has (Z.ldiff (irr p) (imr p)) (bit i) = wanted p i.
Proof. intros [? ?]. rewrite has_bit by lia. by rewrite Z.ldiff_spec. Qed.

Lemma in_way_test p exempt i :
  level i ->
  has (isr p) (bit i) && negb (bool_decide (exempt = Some i)) = bool_decide (in_way p exempt i).
Proof.
  intros [? ?]. rewrite has_bit by lia. apply eq_true_iff_eq.
  by rewrite andb_true_iff, negb_true_iff, bool_decide_eq_true, bool_decide_eq_false.
Qed.

Lemma pending_walk_Some p exempt order i :
  Forall level order ->
  pending_walk p exempt order = Some i <->
  first_such (fun j => wanted p j = true /\ ~ in_way p exempt j) (passed p exempt) order i.
Proof.
  unfold passed. induction 1 as [|j order Hj _ IH]; cbn [pending_walk].
  { split; [done|]. by intros ?%first_nil. }
  rewrite in_way_test, has_wanted by done.
  destruct (bool_decide_reflect (in_way p exempt j)).
  - destruct (special_mask p) eqn:Em.
    + rewrite first_skip; tauto.
    + split; [done|]. intros Hf. apply first_stop in Hf; tauto || congruence || idtac.
      intros [H _]. specialize (H i0). congruence.
  - destruct (wanted p j) eqn:Ew.
    + rewrite first_hit; [done|tauto|]. intros [_ H]. specialize (H n). congruence.
    + rewrite first_skip; [done| |tauto]. intros [? _]. congruence.
Qed.

Lemma priority_order_levels p : pic_wf p -> Forall level (priority_order p).
Proof.
  intros Hwf. apply Forall_lookup. intros k i E. by apply priority_order_lookup in E as [? _].
Qed.

Lemma highest_pending_spec p exempt i :
  pic_wf p ->
  highest_pending p exempt = Some i <->
  serviceable p exempt i /\ forall j, serviceable p exempt j -> rank p i <= rank p j.
Proof.
  intros Hwf. unfold highest_pending.
  rewrite pending_walk_Some by by apply priority_order_levels. split.
  - intros (k & E & [Hw Hi] & Hlt). apply priority_order_lookup in E as [Hl Hk]; [|done].
    assert (Hbelow : forall j, level j -> rank p j < rank p i -> passed p exempt j).
    { intros j Hj Hr. pose proof (rank_bound p j). apply (Hlt (Z.to_nat (rank p j))); [lia|].
      apply priority_order_lookup; [done|]. split; [done|lia]. }
    split.
    + split_and!; [done..|]. intros Hm j Hj Hr Hin.
      destruct (Hbelow j Hj Hr) as [Hp _]. rewrite Hm in Hp. by apply Hp in Hin.
    + intros j (Hj & Hwj & Hij & _). destruct (Z.le_gt_cases (rank p i) (rank p j)); [done|].
      destruct (Hbelow j Hj) as [_ Hp]; [lia|]. rewrite Hp in Hwj; done.
  - intros [(Hl & Hw & Hi & Hb) Hmin]. pose proof (rank_bound p i).
    exists (Z.to_nat (rank p i)). split_and!; [|done..|].
    { apply priority_order_lookup; [done|]. split; [done|lia]. }
    (* the first unpassed level below [i] would be serviceable *)
    intros k' j Hk' E. apply priority_order_lookup in E as [Hj Hr]; [|done].
    assert (Hrj : rank p j < rank p i) by lia.
    unfold passed. split.
    + intros Hin. destruct (special_mask p) eqn:Em; [done|]. by destruct (Hb eq_refl j Hj Hrj).
    + intros Hin. destruct (wanted p j) eqn:Ew; [|done].
      assert (rank p i <= rank p j); [|lia].
      apply Hmin. split_and!; [done..|]. intros Hm j' Hj' Hr'. apply Hb; [done..|lia].
Qed.

Lemma highest_pending_None p exempt :
  pic_wf p -> highest_pending p exempt = None <-> forall i, ~ serviceable p exempt i.
Proof.
  intros Hwf. split.
  - intros E i Hs.
    assert (Hmin : forall n j, serviceable p exempt j -> rank p j < Z.of_nat n ->
      exists m, highest_pending p exempt = Some m).
    { induction n as [|n IH]; intros j Hj Hn; [pose proof (rank_bound p j); lia|].
      destruct (decide (Exists (fun m => rank p m < rank p j /\ wanted p m = true /\
         ~ in_way p exempt m) (priority_order p))) as [He|He].
      - apply Exists_exists in He as (m & Hm & Hlt & Hw & Hi).
        apply list_elem_of_lookup in Hm as [k Hk].
        apply priority_order_lookup in Hk as [Hl _]; [|done].
        apply (IH m); [|lia]. destruct Hj as (? & ? & ? & Hb).
        split_and!; [done..|]. intros. apply Hb; [done..|lia].
      - exists j. apply highest_pending_spec; [done|]. split; [done|].
        intros m (Hl & Hw & Hi & _). destruct (Z.le_gt_cases (rank p j) (rank p m)); [done|].
        destruct He. apply Exists_exists. exists m. split; [|done].
        apply list_elem_of_lookup. exists (Z.to_nat (rank p m)). pose proof (rank_bound p m).
        apply priority_order_lookup; [done|]. split; [done|lia]. }
    destruct (Hmin 8%nat i Hs) as [m Em]; [pose proof (rank_bound p i); lia|congruence].
  - intros Hn. destruct (highest_pending p exempt) eqn:E; [|done].
    apply highest_pending_spec in E as [Hs _]; [|done]. by destruct (Hn _ Hs).
Qed.

Lemma highest_in_service_spec p i :
  pic_wf p ->
  highest_in_service p = Some i <->
  level i /\ Z.testbit (isr p) i = true /\
  forall j, level j -> Z.testbit (isr p) j = true -> rank p i <= rank p j.
Proof.
  intros Hwf. unfold highest_in_service.
  rewrite find_first. split.
  - intros (k & E & Ht & Hlt). apply priority_order_lookup in E as [Hl Hk]; [|done].
    rewrite has_bit in Ht by apply Hl.
    split_and!; [done..|]. intros j Hj Htj. destruct (Z.le_gt_cases (rank p i) (rank p j)); [done|].
    pose proof (rank_bound p j). rewrite <-has_bit in Htj by apply Hj.
    rewrite (Hlt (Z.to_nat (rank p j)) j) in Htj; [done|lia|]. apply priority_order_lookup; [done|]. split; [done|lia].
  - intros (Hl & Ht & Hmin). pose proof (rank_bound p i). exists (Z.to_nat (rank p i)).
    split_and!; [|by rewrite has_bit by apply Hl|].
    { apply priority_order_lookup; [done|]. split; [done|lia]. }
    intros k' j Hk' E. apply priority_order_lookup in E as [Hj Hr]; [|done].
    rewrite has_bit by apply Hj. destruct (Z.testbit (isr p) j) eqn:Ej; [|done].
    pose proof (Hmin j Hj Ej). lia.
Qed.

(** Priority resolution: the level [highest_pending] answers is requested,
    unmasked and not in service; unless the special mask mode is on, no level above
    it is in service; and among the levels for which all this holds it is the one
    of highest priority.  It answers [None] only when there is no such level. *)
Theorem priority_resolution p exempt :
  pic_wf p ->
  match highest_pending p exempt with
  | Some i => serviceable p exempt i /\ forall j, serviceable p exempt j -> rank p i <= rank p j
  | None => forall i, ~ serviceable p exempt i
  end.
Proof.
  intros Hwf. destruct (highest_pending p exempt) eqn:E.
  - by apply highest_pending_spec.
  - by apply highest_pending_None.
Qed.

(** Levels 2 and 5 requested, level 3 in service: level 2 interrupts it. *)
Definition two_requests : Pic :=
  set_in_service (request (request (request (write_icw1 default 17) 3) 2) 5) 3.

Lemma priority_resolution_witness :
  pic_wf two_requests /\ highest_pending two_requests None = Some 2 /\
  match highest_pending two_requests None with
  | Some i => serviceable two_requests None i /\
              forall j, serviceable two_requests None j -> rank two_requests i <= rank two_requests j
  | None => forall i, ~ serviceable two_requests None i
  end.
Proof.
  assert (H : pic_wf two_requests).
  { unfold pic_wf, in_width. vm_compute. intuition congruence. }
  split; [exact H|]. split; [reflexivity|]. apply (priority_resolution two_requests None H).
Defined.

(* ------------------------------------------------------------------ *)
(** ** Fully nested mode

    What the handlers of a running machine do to a chip that is initialized,
    not in special mask or automatic-EOI mode, and acknowledged with the
    non-specific EOI. *)

Inductive Event :=
| Raise (i : Z)
| Line (i : Z) (b : bool)
| Mask (v : Z)
| Ack
| Eoi.

Definition event_ok (e : Event) : Prop :=
  match e with Raise i | Line i _ => level i | Mask v => u8 v | Ack | Eoi => True end.

(** One event, with the stack of the handlers entered and not yet ended. *)
Definition step (s : Pic * list Z) (e : Event) : Pic * list Z :=
  let '(p, handlers) := s in
  match e with
  | Raise i => (request p i, handlers)
  | Line i b => (set_input_level p i b, handlers)
  | Mask v => (write_port p 33 v, handlers)
  | Ack =>
      match highest_pending p None with
      | Some i => (set_in_service p i, i :: handlers)
      | None => (p, handlers)
      end
  | Eoi => (write_port p 32 32, tail handlers)
  end.

Definition run (s : Pic * list Z) (es : list Event) : Pic * list Z := fold_left step es s.

Definition fully_nested (p : Pic) : Prop :=
  pic_wf p /\ init p = Ready /\ special_mask p = false /\ auto_eoi p = false.

Record nested (p : Pic) (handlers : list Z) : Prop := {
  nested_mode : fully_nested p;
  nested_levels : Forall level handlers;
  nested_isr : forall i, level i -> Z.testbit (isr p) i = true <-> i ∈ handlers;
  nested_order : StronglySorted (fun a b => rank p a < rank p b) handlers
}.

Lemma write_eoi p : init p = Ready ->
  write_port p 32 32 = match highest_in_service p with
                       | Some i => clear_in_service p i | None => p end.
Proof. reflexivity. Qed.

Lemma write_mask p v : init p = Ready -> write_port p 33 v = p <| imr := v |>.
Proof. intros E. unfold write_port, write_data. by rewrite E. Qed.

Lemma set_in_service_nested p i :
  auto_eoi p = false ->
  set_in_service p i = p <| isr := Z.lor (isr p) (bit i) |> <| irr := Z.ldiff (irr p) (bit i) |>.
Proof. intros E. unfold set_in_service. cbn. by rewrite E. Qed.

(** A level of an exempt-free chip that is out of the way of everything pending. *)
Lemma nested_ack p handlers i :
  nested p handlers -> highest_pending p None = Some i ->
  level i /\ Forall (fun j => rank p i < rank p j) handlers.
Proof.
  intros [(Hwf & _ & Hm & _) Hl Hisr _] E.
  apply highest_pending_spec in E as [(Hi & _ & Hnot & Hb) _]; [|done].
  split; [done|]. apply Forall_forall. intros j Hj.
  assert (level j) by by eapply Forall_forall in Hj; [|exact Hl].
  assert (Hin : in_way p None j) by (split; [by apply Hisr|done]).
  pose proof (fun Hr => Hb Hm j H Hr Hin).
  assert (rank p i = rank p j -> False) by (intros ->%rank_inj; done). lia.
Qed.

Lemma nested_top p handlers : nested p handlers -> highest_in_service p = head handlers.
Proof.
  intros [(Hwf & _) Hl Hisr Ho]. destruct handlers as [|i st]; cbn.
  - destruct (highest_in_service p) as [i|] eqn:E; [|done].
    apply highest_in_service_spec in E as (Hi & Ht & _); [|done].
    apply Hisr in Ht; [|done]. by apply elem_of_nil in Ht.
  - inversion Hl; subst. apply highest_in_service_spec; [done|]. split_and!; [done| |].
    + apply Hisr; [done|left].
    + intros j Hj Ht. apply Hisr in Ht; [|done]. apply StronglySorted_inv in Ho as [_ Hlt].
      apply elem_of_cons in Ht as [->|Ht]; [lia|]. eapply Forall_forall in Ht; [|exact Hlt].
      cbn in Ht. lia.
Qed.

(** The events that leave the in-service register, the modes and the rotation alone. *)
Lemma nested_frame p p' handlers :
  nested p handlers -> pic_wf p' -> init p' = init p -> special_mask p' = special_mask p ->
  auto_eoi p' = auto_eoi p -> isr p' = isr p -> lowest p' = lowest p -> nested p' handlers.
Proof.
  intros [(? & ? & ? & ?) Hl Hisr Ho] Hwf Ei Em Ea Es Elo. split; [|done| |].
  - unfold fully_nested. by rewrite Ei, Em, Ea.
  - intros i Hi. rewrite Es. by apply Hisr.
  - unfold rank in *. by rewrite Elo.
Qed.

Lemma nested_push p handlers i :
  nested p handlers -> highest_pending p None = Some i -> nested (set_in_service p i) (i :: handlers).
Proof.
  intros Hn E. destruct (nested_ack _ _ _ Hn E) as [Hi Hlt].
  destruct Hn as [(Hwf & ? & ? & Ha) Hl Hisr Ho].
  pose proof (set_in_service_wf p i Hi Hwf) as Hwf'.
  rewrite set_in_service_nested in * by done. split; [done|by constructor| |].
  - intros j Hj. cbn. rewrite testbit_set, elem_of_cons, <-(Hisr j Hj) by apply Hi.
    rewrite orb_true_iff, Z.eqb_eq. split; intros [->|]; auto.
  - unfold rank in *; cbn. by constructor.
Qed.

Lemma nested_pop p handlers :
  nested p handlers -> nested (write_port p 32 32) (tail handlers).
Proof.
  intros Hn. rewrite write_eoi by apply Hn. rewrite (nested_top _ _ Hn).
  destruct handlers as [|i st]; cbn [head tail]; [done|].
  destruct Hn as [(Hwf & Hr & Hm & Ha) Hl Hisr Ho].
  apply Forall_cons in Hl as [Hi Hl]. apply StronglySorted_inv in Ho as [Ho Hlt].
  pose proof (clear_in_service_wf p i Hi Hwf) as Hwf'.
  assert (Hf : init (clear_in_service p i) = init p /\
    special_mask (clear_in_service p i) = special_mask p /\
    auto_eoi (clear_in_service p i) = auto_eoi p /\
    isr (clear_in_service p i) = Z.ldiff (isr p) (bit i) /\
    lowest (clear_in_service p i) = lowest p).
  { unfold clear_in_service. cbn. by case_step. }
  destruct Hf as (E1 & E2 & E3 & E4 & E5). split; [|done| |].
  - unfold fully_nested. by rewrite E1, E2, E3.
  - intros j Hj. rewrite E4, testbit_clear, andb_true_iff, negb_true_iff, Z.eqb_neq by apply Hi.
    rewrite (Hisr j Hj), elem_of_cons. split.
    + intros [[->|?] ?]; done.
    + intros Hin. split; [by right|]. intros <-.
      eapply Forall_forall in Hin; [|exact Hlt]. cbn in Hin. lia.
  - unfold rank in *. by rewrite E5.
Qed.

Lemma nested_step s e :
  event_ok e -> nested (fst s) (snd s) -> nested (fst (step s e)) (snd (step s e)).
Proof.
  destruct s as [p st]; cbn [fst snd]. intros He Hn.
  assert (Hwf : pic_wf p) by apply Hn.
  destruct e as [i|i b|v| |]; cbn [step fst snd event_ok] in *.
  - eapply nested_frame; [exact Hn|by apply request_wf|done..].
  - eapply nested_frame; [exact Hn|by apply set_input_level_wf|..];
      unfold set_input_level; cbn; cases; done.
  - rewrite write_mask by apply Hn. eapply nested_frame; [exact Hn| |done..]. wf.
  - destruct (highest_pending p None) eqn:E; [by apply nested_push|done].
  - by apply nested_pop.
Qed.

(** C39.  Fully nested mode is a stack discipline: from a chip with nothing in
    service, after any sequence of requests, input changes, mask writes,
    acknowledges and non-specific EOIs, the levels in service are exactly the
    handlers entered and not ended, each of strictly higher priority than the ones
    below it, and the level the next non-specific EOI retires is the handler
    entered last. *)
Theorem fully_nested_stack p es :
  fully_nested p -> isr p = 0 -> Forall event_ok es ->
  let '(p', handlers) := run (p, []) es in
  nested p' handlers /\ highest_in_service p' = head handlers.
Proof.
  intros Hm H0 Hes.
  assert (Hn : nested (fst (p, @nil Z)) (snd (p, @nil Z))).
  { split; cbn; [done|constructor| |constructor].
    intros i _. rewrite H0, Z.bits_0, elem_of_nil. done. }
  assert (nested (fst (run (p, []) es)) (snd (run (p, []) es))) as Hrun.
  { unfold run. revert Hn. generalize (p, @nil Z). induction Hes as [|e es He _ IH]; [done|].
    intros s Hs. cbn [fold_left]. by apply IH, nested_step. }
  destruct (run (p, []) es) as [p' st]. split; [done|by apply nested_top].
Qed.

Definition initialized : Pic :=
  fold_left (fun p w => write_port p (fst w) (snd w))
    [(32, 17); (33, 8); (33, 4); (33, 1)] default.

Lemma fully_nested_stack_witness :
  let es := [Raise 5; Ack; Raise 1; Raise 6; Ack; Eoi] in
  snd (run (initialized, []) es) = [5] /\
  let '(p', handlers) := run (initialized, []) es in
  nested p' handlers /\ highest_in_service p' = head handlers.
Proof.
  split; [reflexivity|].
  apply (fully_nested_stack initialized [Raise 5; Ack; Raise 1; Raise 6; Ack; Eoi]).
  - unfold fully_nested, pic_wf, in_width. vm_compute. intuition congruence.
  - reflexivity.
  - repeat constructor; vm_compute; congruence.
Defined.

(* ------------------------------------------------------------------ *)
(** ** Rotation: no level starves *)

(** One interrupt served with the rotating non-specific EOI (OCW2 A0h), after the
    devices raised [raises]. *)
Definition round (p : Pic) (raises : list Z) : Pic * option Z :=
  let p := fold_left request raises p in
  match highest_pending p None with
  | Some i => (write_port (set_in_service p i) 32 160, Some i)
  | None => (p, None)
  end.

(** The levels served by successive rounds. *)
Fixpoint serve (p : Pic) (rounds : list (list Z)) : list (option Z) :=
  match rounds with
  | [] => []
  | raises :: rest => let '(p', served) := round p raises in served :: serve p' rest
  end.

Definition waiting (p : Pic) (i : Z) : Prop :=
  fully_nested p /\ isr p = 0 /\ level i /\ wanted p i = true.

Lemma waiting_request p i j : level j -> waiting p i -> waiting (request p j) i.
Proof.
  intros Hj ((Hwf & Hm) & H0 & Hi & Hw). split_and!; [|done..|].
  - split; [by apply request_wf|done].
  - unfold wanted, request in *; cbn. rewrite testbit_set by apply Hj.
    apply andb_true_iff in Hw as [-> ->]. done.
Qed.

Lemma waiting_raises p i raises :
  Forall level raises -> waiting p i ->
  waiting (fold_left request raises p) i /\ rank (fold_left request raises p) i = rank p i.
Proof.
  intros Hr. revert p. induction Hr as [|j raises Hj _ IH]; intros p Hp; [done|].
  cbn [fold_left]. destruct (IH (request p j)) as [H1 H2]; [by apply waiting_request|].
  split; [exact H1|by rewrite H2].
Qed.

Lemma waiting_serviceable p i : waiting p i -> serviceable p None i.
Proof.
  intros (_ & H0 & Hi & Hw).
  assert (Hn : forall j, ~ in_way p None j).
  { intros j [Ht _]. rewrite H0, Z.bits_0 in Ht. done. }
  split_and!; auto.
Qed.

(** After the rotating EOI of the only level in service, that level is lowest. *)
Lemma rotating_eoi p j :
  fully_nested p -> isr p = 0 -> level j ->
  let p' := write_port (set_in_service p j) 32 160 in
  fully_nested p' /\ isr p' = 0 /\ lowest p' = j /\ imr p' = imr p /\
  forall i, i <> j -> Z.testbit (irr p) i = true -> Z.testbit (irr p') i = true.
Proof.
  intros (Hwf & Hr & Hm & Ha) H0 Hj.
  pose proof (set_in_service_wf p j Hj Hwf) as Hwf1.
  assert (E : highest_in_service (set_in_service p j) = Some j).
  { apply highest_in_service_spec; [done|]. rewrite set_in_service_nested by done. cbn.
    rewrite H0, Z.lor_0_l. split_and!; [done| |].
    - by rewrite testbit_bit, Z.eqb_refl by apply Hj.
    - intros i _ Ht. rewrite testbit_bit, Z.eqb_eq in Ht by apply Hj. subst. lia. }
  assert (W : write_port (set_in_service p j) 32 160 =
    (clear_in_service (set_in_service p j) j) <| lowest := j |>).
  { change (write_port (set_in_service p j) 32 160) with
      (match highest_in_service (set_in_service p j) with
       | Some i => (clear_in_service (set_in_service p j) i) <| lowest := i |>
       | None => set_in_service p j end). by rewrite E. }
  cbn zeta. rewrite W.
  pose proof (clear_in_service_wf _ j Hj Hwf1) as Hwf2.
  pose proof (set_lowest_wf _ j Hj Hwf2) as Hwf3.
  rewrite set_in_service_nested in * by done.
  unfold fully_nested. split_and!; [exact Hwf3| | | | |done| |];
    unfold clear_in_service; cbn; try (by case_step).
  - rewrite H0. case_step; cbn; by rewrite Z.lor_0_l, Z.ldiff_diag.
  - intros i Hi Ht.
    assert (Z.testbit (Z.ldiff (irr p) (bit j)) i = true).
    { rewrite testbit_clear, Ht by apply Hj. by destruct (Z.eqb_spec j i); [congruence|]. }
    case_step; cbn; [|done]. by rewrite testbit_set, H by apply Hj.
Qed.

Lemma waiting_round p i raises :
  Forall level raises -> waiting p i ->
  exists j, snd (round p raises) = Some j /\
    (j = i \/ waiting (fst (round p raises)) i /\ rank (fst (round p raises)) i < rank p i).
Proof.
  intros Hr Hp. unfold round. destruct (waiting_raises p i raises Hr Hp) as [Hq <-].
  revert Hq. generalize (fold_left request raises p) as q. clear p Hp Hr. intros q Hq.
  pose proof (waiting_serviceable _ _ Hq) as Hs.
  destruct Hq as (Hm & H0 & Hi & Hw). assert (Hwf : pic_wf q) by apply Hm.
  destruct (highest_pending q None) as [j|] eqn:E.
  2: { rewrite highest_pending_None in E by done. by destruct (E i). }
  apply highest_pending_spec in E as [(Hj & _) Hmin]; [|done]. specialize (Hmin i Hs).
  exists j. split; [done|]. destruct (decide (j = i)) as [|Hne]; [by left|right].
  destruct (rotating_eoi q j Hm H0 Hj) as (Hm' & H0' & Hlo & Him & Hirr). cbn [fst]. split.
  - split_and!; [done..|]. unfold wanted in *. rewrite Him.
    apply andb_true_iff in Hw as [Hw ->]. rewrite Hirr; auto.
  - assert (rank q j <> rank q i) by (intros ?%rank_inj; done).
    destruct Hwf as (_ & _ & _ & _ & _ & _ & Hl).
    unfold rank in *. rewrite Hlo. unfold level in *. widths. Z.div_mod_to_equations. lia.
Qed.

(** Under rotating priority no level starves: a level that is requested and
    unmasked is served within one round more than its current rank, so within
    eight, whatever the devices raise between the rounds. *)
Theorem rotation_no_starvation p i rounds :
  waiting p i -> Forall (Forall level) rounds -> rank p i < Z.of_nat (length rounds) ->
  Some i ∈ serve p rounds.
Proof.
  intros Hp Hr. revert p Hp. induction Hr as [|raises rest Hl _ IH]; intros p Hp Hlen.
  { pose proof (rank_bound p i). cbn in Hlen. lia. }
  cbn [serve]. destruct (waiting_round p i raises Hl Hp) as (j & E & Hj).
  destruct (round p raises) as [p' served]; cbn [fst snd] in *. subst served.
  destruct Hj as [->|[Hp' Hrank]]; [by left|right].
  apply IH; [done|]. cbn [length] in Hlen. lia.
Qed.

Lemma rotation_no_starvation_witness :
  let p := request initialized 7 in
  serve p [[0]; [0; 1]; [0; 1]; [0]; [0]; [0]; [0]; [0]] =
    [Some 0; Some 1; Some 7; Some 0; Some 1; Some 0; Some 0; Some 0] /\
  Some 7 ∈ serve p [[0]; [0; 1]; [0; 1]; [0]; [0]; [0]; [0]; [0]].
Proof.
  split; [reflexivity|].
  apply (rotation_no_starvation (request initialized 7) 7 [[0]; [0; 1]; [0; 1]; [0]; [0]; [0]; [0]; [0]]).
  - unfold waiting, fully_nested, pic_wf, level, in_width. vm_compute. intuition congruence.
  - repeat constructor; vm_compute; congruence.
  - reflexivity.
Defined.

(* ------------------------------------------------------------------ *)
(** ** The initialization sequence *)

(** The bytes written to the data port after ICW1: which of them the chip expects
    is decided by ICW1's SNGL and IC4 bits. *)
Definition icw_bytes (v1 v2 v3 v4 : Z) : list Z :=
  v2 :: (if has v1 2 then [] else [v3]) ++ (if has v1 1 then [v4] else []).

Definition write_data_bytes (p : Pic) (bs : list Z) : Pic :=
  fold_left (fun p b => write_port p 33 b) bs p.

(** The initialization sequence: whatever state the chip is in, ICW1 followed
    by exactly the words it announces leaves it ready with the vector base, the
    cascade word and the modes written, no level in service, every level unmasked,
    level 7 lowest, and only the asserted inputs requested (none when
    edge-triggered); the modes of ICW4 keep their old values when ICW1 announces
    no ICW4.  The next data write is a mask. *)
Theorem init_sequence p v1 v2 v3 v4 m :
  has v1 16 = true ->
  write_data_bytes (write_port p 32 v1) (icw_bytes v1 v2 v3 v4 ++ [m]) =
  mkPic (if has v1 8 then asserted p else 0) (asserted p) 0 m v2
    (if has v1 2 then icw3 p else v3) Ready (has v1 1) (has v1 2) (has v1 8)
    (if has v1 1 then has v4 2 else auto_eoi p) (if has v1 1 then has v4 8 else buffered p)
    (if has v1 1 then has v4 4 else is_master p) false (poll_pending p) (special_mask p)
    (if has v1 1 then has v4 16 else sfnm p) 7 false.
Proof.
  intros H16. unfold write_port at 1. cbn [has Z.land Z.eqb negb]. rewrite H16.
  unfold icw_bytes, write_data_bytes.
  destruct (has v1 2) eqn:E2, (has v1 1) eqn:E1; cbn [app fold_left];
    unfold write_port, write_icw1, write_data;
    change (has 33 1) with true; change (has 32 1) with false;
    cbn -[has]; rewrite ?H16, ?E1, ?E2; cbn -[has]; rewrite ?E1, ?E2; reflexivity.
Qed.

(** The PC's master: ICW1 11h, vectors at 08h, slave on pin 2, 8086 mode. *)
Lemma init_sequence_witness :
  write_data_bytes (write_port default 32 17) (icw_bytes 17 8 4 1 ++ [184]) =
  mkPic 0 0 0 184 8 4 Ready true false false false false false false false false false 7 false.
Proof. apply (init_sequence default 17 8 4 1 184). reflexivity. Defined.

End Chip.
