(* ===== verification/PicPair.v ===== *)
(** * The cascaded 8259A pair

    crates/izarravm-machine/src/pic.rs: [Pair] is the master/slave pair
    ([Pic8259Pair]) built on the chip of Pic.v.  Theorems: no slave request is lost
    between the chips, what an acknowledge delivers, the software poll, and that the
    canonical payload determines every later answer of the pair. *)

From S2P Require Import Prelude Clock Canonical Pic.

Module Pair.
Import Chip.

Record Pic8259Pair := mkPair { master : Pic; slave : Pic }.
#[export] Instance eta_Pair : Eta Pic8259Pair := fun pr => mkPair (master pr) (slave pr).

Definition default : Pic8259Pair := mkPair Chip.default Chip.default.

(** The master pin the slave's INT output is wired to: the slave's ICW3 id. *)
Definition cascade_pin (pr : Pic8259Pair) : Z := Z.land (icw3 (slave pr)) 7.

Definition sync_cascade (pr : Pic8259Pair) : Pic8259Pair :=
  let asserted := match highest_pending (slave pr) None with Some _ => true | None => false end in
  pr <| master := set_input_level (master pr) (cascade_pin pr) asserted |>.

Definition master_cascade_exempt (pr : Pic8259Pair) : option Z :=
  let pin_has_slave := has (icw3 (master pr)) (bit (cascade_pin pr)) in
  if sfnm (master pr) && pin_has_slave then Some (cascade_pin pr) else None.

Definition master_pending (pr : Pic8259Pair) : option Z :=
  highest_pending (master pr) (master_cascade_exempt pr).

Definition interrupt_pending (pr : Pic8259Pair) : bool :=
  match master_pending pr with Some _ => true | None => false end.

Definition write_port (pr : Pic8259Pair) (port value : Z) : Pic8259Pair * bool :=
  if (port =? 32) || (port =? 33) then
    (pr <| master := Chip.write_port (master pr) port value |>, true)
  else if (port =? 160) || (port =? 161) then
    let old_pin := cascade_pin pr in
    let pr := pr <| slave := Chip.write_port (slave pr) port value |> in
    let new_pin := cascade_pin pr in
    let pr := if negb (old_pin =? new_pin)
              then pr <| master := set_input_level (master pr) old_pin false |> else pr in
    (sync_cascade pr, true)
  else (pr, false).

Definition read_port (pr : Pic8259Pair) (port : Z) : Pic8259Pair * option Z :=
  if (port =? 32) || (port =? 33) then
    let cascade_exempt := master_cascade_exempt pr in
    let '(m, value) := Chip.read_port (master pr) port cascade_exempt in
    (pr <| master := m |>, Some value)
  else if (port =? 160) || (port =? 161) then
    let '(s, value) := Chip.read_port (slave pr) port None in
    (sync_cascade (pr <| slave := s |>), Some value)
  else (pr, None).

Definition irq_unmasked (pr : Pic8259Pair) (irq : Z) : bool :=
  if irq <? 8 then negb (has (imr (master pr)) (bit irq))
  else negb (has (imr (slave pr)) (bit (irq - 8))).

Definition irq0_unmasked (pr : Pic8259Pair) : bool := irq_unmasked pr 0.

Definition deliverable (pr : Pic8259Pair) (irq : Z) : bool :=
  if irq <? 8 then irq_unmasked pr irq
  else irq_unmasked pr irq && negb (has (imr (master pr)) (bit (cascade_pin pr))).

Definition request (pr : Pic8259Pair) (irq : Z) : Pic8259Pair :=
  if irq <? 8 then pr <| master := Chip.request (master pr) irq |>
  else if irq <? 16 then
    let pr := pr <| slave := Chip.request (slave pr) (irq - 8) |> in
    pr <| master := Chip.request (master pr) (cascade_pin pr) |>
  else pr.

Definition set_irq_level (pr : Pic8259Pair) (irq : Z) (asserted : bool) : Pic8259Pair :=
  if irq <? 8 then pr <| master := set_input_level (master pr) irq asserted |>
  else if irq <? 16 then
    sync_cascade (pr <| slave := set_input_level (slave pr) (irq - 8) asserted |>)
  else pr.

(** The vector delivered and the master line it was resolved on. *)
Definition acknowledge_with_irq (pr : Pic8259Pair) : Pic8259Pair * option (Z * Z) :=
  match master_pending pr with
  | None => (pr, None)
  | Some master_irq =>
      let pr := pr <| master := set_in_service (master pr) master_irq |> in
      let pin_has_slave := has (icw3 (master pr)) (bit master_irq) in
      if negb pin_has_slave || negb (master_irq =? cascade_pin pr) then
        (pr, Some (vector (master pr) master_irq, master_irq))
      else
        match highest_pending (slave pr) None with
        | Some slave_irq =>
            let pr := sync_cascade (pr <| slave := set_in_service (slave pr) slave_irq |>) in
            (pr, Some (vector (slave pr) slave_irq, master_irq))
        | None =>
            let pr := sync_cascade pr in
            (pr, Some (vector (slave pr) 7, master_irq))
        end
  end.

Definition acknowledge (pr : Pic8259Pair) : Pic8259Pair * option Z :=
  let '(pr, r) := acknowledge_with_irq pr in (pr, fst <$> r).

Definition write_payload {Alloc : Allocator} (pr : Pic8259Pair) : FW :=
  write_canonical_pic (master pr) (icw3 (master pr)) true >>
  write_canonical_pic (slave pr) (Z.land (icw3 (slave pr)) 7) false.

(* ------------------------------------------------------------------ *)
(** ** The cascade keeps every slave request visible *)

(** The eight bytes of the initialization of both chips, ICW1 to ICW4 of the master
    and then of the slave, and the writes that carry them. *)
Record Setup := mkSetup {
  m_icw1 : Z; m_icw2 : Z; m_icw3 : Z; m_icw4 : Z;
  s_icw1 : Z; s_icw2 : Z; s_icw3 : Z; s_icw4 : Z
}.

Definition program (w : Setup) (pr : Pic8259Pair) : Pic8259Pair :=
  fold_left (fun pr w => fst (write_port pr (fst w) (snd w)))
    [(32, m_icw1 w); (33, m_icw2 w); (33, m_icw3 w); (33, m_icw4 w);
     (160, s_icw1 w); (161, s_icw2 w); (161, s_icw3 w); (161, s_icw4 w)] pr.

(** A full sequence: both ICW1s announce a cascade and an ICW4, the master's ICW3
    marks pin [pin] as a slave's and the slave's ICW3 names it; the slave is
    edge-triggered and without automatic EOI. *)
Definition icw1_ok (v : Z) : Prop := has v 16 = true /\ has v 2 = false /\ has v 1 = true.
Definition setup_ok (pin : Z) (w : Setup) : Prop :=
  icw1_ok (m_icw1 w) /\ u8 (m_icw2 w) /\ u8 (m_icw3 w) /\ has (m_icw3 w) (bit pin) = true /\
  icw1_ok (s_icw1 w) /\ u8 (s_icw2 w) /\ u8 (s_icw3 w) /\ Z.land (s_icw3 w) 7 = pin /\
  has (s_icw1 w) 8 = false /\ has (s_icw4 w) 2 = false.

(** The traffic of an initialized pair: device pulses and lines, mask writes,
    OCW2 commands to either chip, the CPU's acknowledges, and a new initialization
    of both chips. *)
Inductive Event :=
| Reprogram (w : Setup)
| Pulse (irq : Z)
| SetLine (irq : Z) (b : bool)
| MaskMaster (v : Z)
| MaskSlave (v : Z)
| CommandMaster (ocw2 : Z)
| CommandSlave (ocw2 : Z)
| Acknowledge.

Definition is_ocw2 (v : Z) : Prop := u8 v /\ has v 16 = false /\ has v 8 = false.

(** The cascade pin carries the slave: no device drives it. *)
Definition event_ok (pin : Z) (e : Event) : Prop :=
  match e with
  | Reprogram w => setup_ok pin w
  | Pulse irq | SetLine irq _ => in_width 4 irq /\ irq <> pin
  | MaskMaster v | MaskSlave v => u8 v
  | CommandMaster v | CommandSlave v => is_ocw2 v
  | Acknowledge => True
  end.

Definition step (pr : Pic8259Pair) (e : Event) : Pic8259Pair :=
  match e with
  | Reprogram w => program w pr
  | Pulse irq => request pr irq
  | SetLine irq b => set_irq_level pr irq b
  | MaskMaster v => fst (write_port pr 33 v)
  | MaskSlave v => fst (write_port pr 161 v)
  | CommandMaster v => fst (write_port pr 32 v)
  | CommandSlave v => fst (write_port pr 160 v)
  | Acknowledge => fst (acknowledge pr)
  end.

Definition slave_int (pr : Pic8259Pair) : Prop := highest_pending (slave pr) None <> None.

(** The invariant of a pair programmed as [setup_ok] says.  Its last two clauses tie
    the master's input to the slave's INT: the initialization of both chips
    establishes them ([program_cascaded]), and re-initializing the master alone
    breaks them ([lone_master_reset_loses]). *)
Record cascaded (pin : Z) (pr : Pic8259Pair) : Prop := {
  cascaded_master : pic_wf (master pr);
  cascaded_slave : pic_wf (slave pr);
  cascaded_ready : init (master pr) = Ready /\ init (slave pr) = Ready;
  cascaded_mode : special_mask (slave pr) = false /\ auto_eoi (slave pr) = false;
  cascaded_pin : cascade_pin pr = pin;
  cascaded_wired : has (icw3 (master pr)) (bit pin) = true;
  cascaded_asserted :
    Z.testbit (asserted (master pr)) pin = true -> Z.testbit (irr (master pr)) pin = true;
  cascaded_latched : slave_int pr -> Z.testbit (irr (master pr)) pin = true
}.

(** What the operations on a chip leave alone. *)
Definition same_setup (p p' : Pic) : Prop :=
  init p' = init p /\ special_mask p' = special_mask p /\ auto_eoi p' = auto_eoi p /\
  icw3 p' = icw3 p.

Lemma same_setup_level p i b : same_setup p (set_input_level p i b).
Proof. unfold same_setup, set_input_level; cbn; cases; done. Qed.

Lemma same_setup_service p i : same_setup p (set_in_service p i).
Proof. unfold same_setup, set_in_service, clear_in_service; cbn; cases; cbn; done. Qed.

Lemma same_setup_ocw2 p v : same_setup p (end_of_interrupt p v).
Proof.
  unfold same_setup, end_of_interrupt, clear_in_service; cbn. cases; cbn; done.
Qed.

Lemma pin_level pr : level (cascade_pin pr).
Proof. unfold cascade_pin, level. apply (land_width_r 3); [lia|zlia]. Qed.

Lemma ocw2_level v : level (Z.land v 7).
Proof. apply (land_width_r 3); [lia|zlia]. Qed.

Lemma end_of_interrupt_wf p v : pic_wf p -> pic_wf (end_of_interrupt p v).
Proof.
  intros Hwf. pose proof (ocw2_level v) as Hl. unfold end_of_interrupt.
  destruct (highest_in_service p) as [i|] eqn:E.
  - apply highest_in_service_spec in E as (Hi & _); [|done].
    repeat (case_match; try done);
      eauto using clear_in_service_wf, set_lowest_wf.
  - repeat (case_match; try done); eauto using clear_in_service_wf, set_lowest_wf.
Qed.

(** Driving an input: its request is latched by the edge or follows the level. *)
Lemma set_input_level_pin p i b :
  level i -> (Z.testbit (asserted p) i = true -> Z.testbit (irr p) i = true) ->
  let p' := set_input_level p i b in
  Z.testbit (asserted p') i = b /\ (b = true -> Z.testbit (irr p') i = true).
Proof.
  intros [Hi _] Ha. unfold set_input_level. rewrite has_bit by done.
  destruct b; cbn; [|case_step; cbn; by rewrite testbit_clear, Z.eqb_refl, andb_false_r by done].
  destruct (Z.testbit (asserted p) i), (level_triggered p); cbn;
    rewrite !testbit_set, Z.eqb_refl, !orb_true_r by done; auto.
Qed.

Lemma set_input_level_other p i j b :
  level i -> i <> j ->
  Z.testbit (asserted (set_input_level p i b)) j = Z.testbit (asserted p) j /\
  Z.testbit (irr (set_input_level p i b)) j = Z.testbit (irr p) j.
Proof.
  intros [Hi _] Hne. apply Z.eqb_neq in Hne. unfold set_input_level.
  destruct b; cbn; case_step; cbn;
    rewrite ?testbit_set, ?testbit_clear, Hne, ?orb_false_r, ?andb_true_r by done; done.
Qed.

Lemma set_in_service_other p i j :
  level i -> i <> j ->
  Z.testbit (asserted (set_in_service p i)) j = Z.testbit (asserted p) j /\
  Z.testbit (irr (set_in_service p i)) j = Z.testbit (irr p) j.
Proof.
  intros [Hi _] Hne. apply Z.eqb_neq in Hne. unfold set_in_service, clear_in_service.
  cbn; cases; cbn;
    rewrite ?testbit_set, ?testbit_clear, Hne, ?orb_false_r, ?andb_true_r by done; done.
Qed.

Lemma clear_in_service_keeps p i j :
  level i -> asserted (clear_in_service p i) = asserted p /\
  (Z.testbit (irr p) j = true -> Z.testbit (irr (clear_in_service p i)) j = true).
Proof.
  intros [Hi _]. unfold clear_in_service; cbn. case_step; cbn; split; auto.
  intros Ht. by rewrite testbit_set, Ht by done.
Qed.

Lemma end_of_interrupt_keeps p v j :
  pic_wf p -> asserted (end_of_interrupt p v) = asserted p /\
  (Z.testbit (irr p) j = true -> Z.testbit (irr (end_of_interrupt p v)) j = true).
Proof.
  intros Hwf. pose proof (clear_in_service_keeps p (Z.land v 7) j (ocw2_level v)).
  unfold end_of_interrupt. destruct (highest_in_service p) as [i|] eqn:E.
  - apply highest_in_service_spec in E as (Hi & _); [|done].
    pose proof (clear_in_service_keeps p i j Hi). repeat case_match; cbn; auto.
  - repeat case_match; cbn; auto.
Qed.

(** The invariant without its two clauses about the latched request. *)
Definition linked (pin : Z) (pr : Pic8259Pair) : Prop :=
  pic_wf (master pr) /\ pic_wf (slave pr) /\
  (init (master pr) = Ready /\ init (slave pr) = Ready) /\
  (special_mask (slave pr) = false /\ auto_eoi (slave pr) = false) /\
  cascade_pin pr = pin /\ has (icw3 (master pr)) (bit pin) = true.

Lemma cascaded_linked pin pr : cascaded pin pr -> linked pin pr.
Proof. intros []. unfold linked. split_and!; tauto. Qed.

Lemma linked_update pin pr m s :
  linked pin pr -> pic_wf m -> pic_wf s -> same_setup (master pr) m -> same_setup (slave pr) s ->
  linked pin (mkPair m s).
Proof.
  unfold linked, same_setup, cascade_pin; cbn.
  intros (_ & _ & [? ?] & [? ?] & ? & ?) ? ? (-> & _ & _ & ->) (-> & -> & -> & ->).
  split_and!; done.
Qed.

Lemma same_setup_refl p : same_setup p p.
Proof. done. Qed.

(** The link resynchronized: the master input follows the slave's INT output. *)
Lemma cascaded_sync pin pr :
  linked pin pr ->
  (slave_int pr -> Z.testbit (asserted (master pr)) pin = true ->
   Z.testbit (irr (master pr)) pin = true) ->
  cascaded pin (sync_cascade pr).
Proof.
  intros Hl Hj. unfold sync_cascade.
  assert (Hp : level pin) by (destruct Hl as (_ & _ & _ & _ & <- & _); apply pin_level).
  assert (cascade_pin pr = pin) as -> by apply Hl.
  set (b := match highest_pending (slave pr) None with Some _ => true | None => false end).
  assert (Hb : slave_int pr <-> b = true).
  { unfold slave_int, b. destruct (highest_pending _ _); naive_solver. }
  assert (Hl' : linked pin (pr <| master := set_input_level (master pr) pin b |>)).
  { eapply linked_update; [exact Hl| |apply Hl|apply same_setup_level|apply same_setup_refl].
    apply set_input_level_wf; [done|apply Hl]. }
  unfold linked in Hl'. destruct Hl' as (? & ? & ? & ? & ? & ?). split; auto.
  - cbn -[set_input_level]. intros Ha. destruct b eqn:Eb.
    + apply set_input_level_pin; auto. apply Hj. tauto.
    + exfalso. revert Ha. unfold set_input_level; cbn.
      case_step; cbn; by rewrite testbit_clear, Z.eqb_refl, andb_false_r by apply Hp.
  - intros Hi. change (slave_int pr) in Hi. pose proof (proj1 Hb Hi) as Eb. rewrite Eb in *.
    cbn -[set_input_level]. apply set_input_level_pin; auto.
Qed.

(** After its acknowledge a slave in normal mode asserts nothing: what else is
    pending ranks below the level now in service. *)
Lemma acknowledged_quiet p i :
  pic_wf p -> special_mask p = false -> auto_eoi p = false ->
  highest_pending p None = Some i -> highest_pending (set_in_service p i) None = None.
Proof.
  intros Hwf Hm Ha E. apply highest_pending_spec in E as [(Hi & _ & Hnot & Hb) Hmin]; [|done].
  apply highest_pending_None; [by apply set_in_service_wf|].
  rewrite set_in_service_nested by done. intros j (Hj & Hw & Hnj & Hbj).
  unfold wanted, in_way, rank in *; cbn in *.
  rewrite testbit_clear in Hw by apply Hi. rewrite testbit_set in Hnj by apply Hi.
  destruct (Z.eqb_spec i j) as [|Hne]; [subst; by rewrite andb_false_r in Hw|].
  rewrite orb_false_r in Hnj. rewrite andb_true_r in Hw.
  destruct (Z.lt_total (rank p i) (rank p j)) as [Hr|[Hr|Hr]].
  - apply (Hbj Hm i Hi Hr). rewrite testbit_set, Z.eqb_refl, orb_true_r by apply Hi. done.
  - apply rank_inj in Hr; done.
  - assert (serviceable p None j) as Hs.
    { split_and!; [done|done|done|]. intros _ k Hk Hkr. apply Hb; [done|done|].
      unfold rank in *. lia. }
    specialize (Hmin j Hs). unfold rank in *. lia.
Qed.

Lemma cascaded_request pin pr irq :
  in_width 4 irq -> irq <> pin -> cascaded pin pr -> cascaded pin (request pr irq).
Proof.
  intros Hw Hne Hc. pose proof (cascaded_linked _ _ Hc) as Hl.
  destruct Hc as [Hm Hs _ _ Hp _ Ha Hi]. unfold request.
  assert (Hpl : level pin) by (rewrite <-Hp; apply pin_level).
  assert (Hor : forall i, 0 <= i -> Z.testbit (irr (master pr)) pin = true ->
    Z.testbit (Z.lor (irr (master pr)) (bit i)) pin = true).
  { intros i ? Ht. by rewrite testbit_set, Ht. }
  case_step; bool_prop; [|rewrite (proj2 (Z.ltb_lt irq 16)) by zlia].
  - assert (level irq) by (unfold level; zlia).
    destruct (linked_update pin pr (Chip.request (master pr) irq) (slave pr) Hl)
      as (? & ? & ? & ? & ? & ?); [by apply request_wf|done|done|done|].
    split; auto; cbn; intros; apply Hor; auto; zlia.
  - assert (level (irq - 8)) by (unfold level; zlia).
    change (cascade_pin _) with (cascade_pin pr). rewrite Hp.
    destruct (linked_update pin pr (Chip.request (master pr) pin)
      (Chip.request (slave pr) (irq - 8)) Hl) as (? & ? & ? & ? & ? & ?);
      [by apply request_wf|by apply request_wf|done|done|].
    split; auto; cbn; intros; by rewrite testbit_set, Z.eqb_refl, orb_true_r by apply Hpl.
Qed.

Lemma cascaded_line pin pr irq b :
  in_width 4 irq -> irq <> pin -> cascaded pin pr -> cascaded pin (set_irq_level pr irq b).
Proof.
  intros Hw Hne Hc. pose proof (cascaded_linked _ _ Hc) as Hl.
  destruct Hc as [Hm Hs _ _ Hp _ Ha Hi]. unfold set_irq_level.
  case_step; bool_prop; [|rewrite (proj2 (Z.ltb_lt irq 16)) by zlia].
  - assert (Hlv : level irq) by (unfold level; zlia).
    destruct (linked_update pin pr (set_input_level (master pr) irq b) (slave pr) Hl)
      as (? & ? & ? & ? & ? & ?);
      [by apply set_input_level_wf|done|apply same_setup_level|done|].
    destruct (set_input_level_other (master pr) irq pin b Hlv Hne) as [E1 E2].
    split; auto; cbn; rewrite ?E1, ?E2; auto.
  - apply cascaded_sync; [|cbn; auto].
    eapply linked_update; [exact Hl|done| |done|apply same_setup_level].
    apply set_input_level_wf; [unfold level; zlia|done].
Qed.

(** A write that leaves the slave's identity alone ends in a resynchronization. *)
Lemma slave_write_sync pr port v :
  port = 160 \/ port = 161 -> icw3 (Chip.write_port (slave pr) port v) = icw3 (slave pr) ->
  fst (write_port pr port v) = sync_cascade (pr <| slave := Chip.write_port (slave pr) port v |>).
Proof.
  intros Hport Ei. unfold write_port, cascade_pin at 1 2. cbn [slave].
  destruct Hport as [->| ->]; cbn -[Chip.write_port sync_cascade Z.land]; by rewrite Ei, Z.eqb_refl.
Qed.

(** A command or mask write that leaves the chip's setup alone. *)
Lemma cascaded_slave_write pin pr port v :
  port = 160 \/ port = 161 -> pic_wf (Chip.write_port (slave pr) port v) ->
  same_setup (slave pr) (Chip.write_port (slave pr) port v) ->
  cascaded pin pr -> cascaded pin (fst (write_port pr port v)).
Proof.
  intros Hport Hwf Hsame Hc. pose proof (cascaded_linked _ _ Hc) as Hl.
  rewrite slave_write_sync by (try apply Hsame; done). apply cascaded_sync.
  - eapply linked_update; [exact Hl|apply Hl|done|done|exact Hsame].
  - cbn. intros _. apply Hc.
Qed.

Lemma cascaded_master_write pin pr port v :
  port = 32 \/ port = 33 -> pic_wf (Chip.write_port (master pr) port v) ->
  same_setup (master pr) (Chip.write_port (master pr) port v) ->
  asserted (Chip.write_port (master pr) port v) = asserted (master pr) ->
  (Z.testbit (irr (master pr)) pin = true ->
   Z.testbit (irr (Chip.write_port (master pr) port v)) pin = true) ->
  cascaded pin pr -> cascaded pin (fst (write_port pr port v)).
Proof.
  intros Hport Hwf Hsame Ea Hirr Hc. pose proof (cascaded_linked _ _ Hc) as Hl.
  assert (E : fst (write_port pr port v) =
    pr <| master := Chip.write_port (master pr) port v |>).
  { unfold write_port. by destruct Hport as [->| ->]. }
  rewrite E. destruct (linked_update pin pr (Chip.write_port (master pr) port v) (slave pr) Hl)
    as (? & ? & ? & ? & ? & ?); [done|apply Hl|done|done|].
  split; auto; cbn; rewrite ?Ea; intros; apply Hirr.
  - by apply (cascaded_asserted pin pr Hc).
  - by apply (cascaded_latched pin pr Hc).
Qed.

Lemma write_ocw2 p port v :
  has port 1 = false -> is_ocw2 v -> Chip.write_port p port v = end_of_interrupt p v.
Proof. intros Hp (_ & H16 & H8). unfold Chip.write_port. by rewrite Hp, H16, H8. Qed.

Lemma cascaded_acknowledge pin pr : cascaded pin pr -> cascaded pin (fst (acknowledge pr)).
Proof.
  intros Hc. pose proof (cascaded_linked _ _ Hc) as Hl. unfold acknowledge, acknowledge_with_irq.
  destruct (master_pending pr) as [m|] eqn:E; [|done].
  unfold master_pending in E. assert (Hwm : pic_wf (master pr)) by apply Hl.
  apply highest_pending_spec in E as [(Hlm & _) _]; [|done].
  pose proof (set_in_service_wf (master pr) m Hlm Hwm) as Hwf'.
  pose proof (same_setup_service (master pr) m) as Hsame.
  assert (Hl' : linked pin (pr <| master := set_in_service (master pr) m |>)).
  { eapply linked_update; [exact Hl|done|apply Hl|done|done]. }
  change (cascade_pin (pr <| master := set_in_service (master pr) m |>)) with (cascade_pin pr).
  rewrite (cascaded_pin _ _ Hc).
  destruct (decide (m = pin)) as [->|Hne].
  - assert (has (icw3 (set_in_service (master pr) pin)) (bit pin) = true) as Hw by apply Hl'.
    cbn -[has Chip.set_in_service sync_cascade highest_pending]. rewrite Hw, Z.eqb_refl. cbn [negb orb].
    assert (Hmode : special_mask (slave pr) = false /\ auto_eoi (slave pr) = false) by apply Hl.
    destruct (highest_pending (slave pr) None) as [s|] eqn:Es; cbn [fst].
    + assert (Hws : pic_wf (slave pr)) by apply Hl.
      pose proof (acknowledged_quiet _ _ Hws (proj1 Hmode) (proj2 Hmode) Es) as Hq.
      apply cascaded_sync; [|intros Hi; by destruct Hi].
      apply highest_pending_spec in Es as [(Hls & _) _]; [|done].
      eapply (linked_update pin _ _ _ Hl'); cbn;
        [done|by apply set_in_service_wf|done|apply same_setup_service].
    + apply cascaded_sync; [done|]. intros Hi. by destruct Hi.
  - apply Z.eqb_neq in Hne as Hne'. rewrite Hne', orb_true_r. cbn [fst].
    destruct (set_in_service_other (master pr) m pin Hlm Hne) as [E1 E2].
    destruct Hl' as (? & ? & ? & ? & ? & ?). split; auto; cbn; rewrite ?E1, ?E2; apply Hc.
Qed.

Lemma write_mask_setup p port v :
  has port 1 = true -> init p = Ready -> Chip.write_port p port v = p <| imr := v |>.
Proof. intros Hp E. unfold Chip.write_port, write_data. by rewrite Hp, E. Qed.

Lemma set_mask_wf p v : u8 v -> pic_wf p -> pic_wf (p <| imr := v |>).
Proof. intros. wf. Qed.

(** The four writes of an initialization, on one chip: the first three and the last. *)
Lemma icw_prefix p cmd data a b c :
  has cmd 1 = false -> has data 1 = true -> icw1_ok a ->
  Chip.write_port (Chip.write_port (Chip.write_port p cmd a) data b) data c =
  (write_icw1 p a) <| icw2 := b |> <| icw3 := c |> <| init := ExpectIcw4 |>.
Proof.
  intros Hc Hd (H16 & H2 & H1). unfold Chip.write_port. rewrite Hc, Hd, H16. cbn [negb].
  unfold write_icw1, write_data. cbn. rewrite H2, H1. cbn. done.
Qed.

Definition configured (p : Pic) (d : Z) : Pic :=
  p <| auto_eoi := has d 2 |> <| buffered := has d 8 |> <| is_master := has d 4 |>
    <| sfnm := has d 16 |> <| init := Ready |>.

Lemma icw_last p data d :
  has data 1 = true -> init p = ExpectIcw4 -> Chip.write_port p data d = configured p d.
Proof. intros Hd Hi. unfold Chip.write_port, write_data. by rewrite Hd, Hi. Qed.

Lemma initialized_wf p a b c d :
  pic_wf p -> u8 b -> u8 c ->
  pic_wf (configured ((write_icw1 p a) <| icw2 := b |> <| icw3 := c |> <| init := ExpectIcw4 |>) d).
Proof.
  intros (? & ? & ? & ? & ? & ? & ?) ? ?. unfold pic_wf, configured, write_icw1; cbn.
  split_and!; try done; [case_step; [done|zlia]|zlia..].
Qed.

Lemma same_setup_trans p q r : same_setup p q -> same_setup q r -> same_setup p r.
Proof. intros (? & ? & ? & ?) (? & ? & ? & ?). unfold same_setup. split_and!; congruence. Qed.

(** What a write to the slave does to either chip. *)
Lemma slave_write pr port v :
  port = 160 \/ port = 161 -> pic_wf (master pr) ->
  let pr' := fst (write_port pr port v) in
  slave pr' = Chip.write_port (slave pr) port v /\ pic_wf (master pr') /\
  same_setup (master pr) (master pr').
Proof.
  intros Hport Hm. cbn zeta. unfold write_port.
  replace ((port =? 32) || (port =? 33)) with false by (by destruct Hport as [->| ->]).
  replace ((port =? 160) || (port =? 161)) with true by (by destruct Hport as [->| ->]).
  set (m1 := if negb _ then _ else _ : Pic8259Pair).
  assert (Hm1 : slave m1 = Chip.write_port (slave pr) port v /\ pic_wf (master m1) /\
    same_setup (master pr) (master m1)).
  { unfold m1. case_step; [|done]. cbn -[set_input_level Chip.write_port].
    split_and!; [done|apply set_input_level_wf; [apply pin_level|done]|apply same_setup_level]. }
  clearbody m1. destruct Hm1 as (H1 & H2 & H3). unfold sync_cascade. cbn -[set_input_level].
  split_and!; [done|apply set_input_level_wf; [apply pin_level|done]|].
  eapply same_setup_trans; [exact H3|apply same_setup_level].
Qed.

(** A slave without requests asserts nothing. *)
Lemma no_request_quiet p : pic_wf p -> irr p = 0 -> highest_pending p None = None.
Proof.
  intros Hwf E. apply highest_pending_None; [done|]. intros i (_ & Hw & _).
  unfold wanted in Hw. by rewrite E, Z.bits_0 in Hw.
Qed.

(** Initializing both chips establishes the link, whatever the pair was doing. *)
Lemma program_cascaded pin w pr :
  setup_ok pin w -> pic_wf (master pr) -> pic_wf (slave pr) -> special_mask (slave pr) = false ->
  cascaded pin (program w pr).
Proof.
  intros (Hm1 & Hm2 & Hm3 & Hwired & Hs1 & Hs2 & Hs3 & Hpin & Hedge & Haeoi) Hm Hs Hsm.
  unfold program. cbn [fold_left fst snd].
  (* the master *)
  set (p0 := fst (write_port (fst (write_port (fst (write_port (fst (write_port pr _ _)) _ _)) _ _)) _ _)).
  assert (Hp0 : slave p0 = slave pr /\ pic_wf (master p0) /\ init (master p0) = Ready /\
    icw3 (master p0) = m_icw3 w).
  { assert (E : p0 = pr <| master := Chip.write_port (Chip.write_port (Chip.write_port
      (Chip.write_port (master pr) 32 (m_icw1 w)) 33 (m_icw2 w)) 33 (m_icw3 w)) 33 (m_icw4 w) |>) by done.
    rewrite E. cbn -[Chip.write_port]. rewrite (icw_prefix _ 32 33), icw_last by done.
    split_and!; [done|by apply initialized_wf|done|done]. }
  clearbody p0. destruct Hp0 as (Es0 & Hw0 & Hr0 & Hi0).
  (* the slave's ICW1 to ICW3 *)
  destruct (slave_write p0 160 (s_icw1 w)) as (Es1 & Hw1 & Hk1); [by left|done|].
  set (p1 := fst (write_port p0 160 (s_icw1 w))) in *. clearbody p1.
  destruct (slave_write p1 161 (s_icw2 w)) as (Es2 & Hw2 & Hk2); [by right|done|].
  set (p2 := fst (write_port p1 161 (s_icw2 w))) in *. clearbody p2.
  destruct (slave_write p2 161 (s_icw3 w)) as (Es3 & Hw3 & Hk3); [by right|done|].
  set (p3 := fst (write_port p2 161 (s_icw3 w))) in *. clearbody p3.
  rewrite Es2, Es1, Es0, (icw_prefix _ 160 161) in Es3 by done.
  assert (Hk : same_setup (master p0) (master p3)) by eauto using same_setup_trans.
  (* its ICW4 *)
  assert (Elast : Chip.write_port (slave p3) 161 (s_icw4 w) = configured (slave p3) (s_icw4 w)).
  { apply icw_last; [done|by rewrite Es3]. }
  pose proof (initialized_wf (slave pr) (s_icw1 w) (s_icw2 w) (s_icw3 w) (s_icw4 w) Hs Hs2 Hs3) as Hws.
  rewrite <-Es3 in Hws.
  rewrite slave_write_sync by (rewrite ?Elast; auto). rewrite Elast. apply cascaded_sync.
  - destruct Hk as (Hk1' & _ & _ & Hk4).
    split_and!; [exact Hw3|exact Hws|..]; cbn [master slave update].
    + by rewrite Hk1'.
    + done.
    + rewrite Es3. exact Hsm.
    + exact Haeoi.
    + unfold cascade_pin. cbn [slave]. rewrite Es3. exact Hpin.
    + rewrite Hk4, Hi0. exact Hwired.
  - intros Hi. destruct Hi. cbn [slave update]. apply no_request_quiet; [exact Hws|].
    rewrite Es3. unfold write_icw1; cbn. by rewrite Hedge.
Qed.

Lemma cascaded_step pin pr e : event_ok pin e -> cascaded pin pr -> cascaded pin (step pr e).
Proof.
  intros He Hc. assert (Hm : pic_wf (master pr)) by apply Hc.
  assert (Hs : pic_wf (slave pr)) by apply Hc.
  destruct (cascaded_ready _ _ Hc) as [Hrm Hrs].
  destruct e as [w|irq|irq b|v|v|v|v|]; cbn [step event_ok] in *.
  - apply program_cascaded; try done. apply Hc.
  - apply cascaded_request; tauto.
  - apply cascaded_line; tauto.
  - apply cascaded_master_write; rewrite ?write_mask_setup by done; auto using set_mask_wf.
    done.
  - apply cascaded_slave_write; rewrite ?write_mask_setup by done; auto using set_mask_wf.
    done.
  - apply cascaded_master_write; rewrite ?write_ocw2 by done;
      auto using end_of_interrupt_wf, same_setup_ocw2; by apply end_of_interrupt_keeps.
  - apply cascaded_slave_write; rewrite ?write_ocw2 by done;
      auto using end_of_interrupt_wf, same_setup_ocw2.
  - by apply cascaded_acknowledge.
Qed.

(** C28.  No slave interrupt is lost in the cascade.  Whatever the pair was doing
    before, once the software has run a full initialization of both chips, master
    first, that wires the slave to pin [pin], leaves the slave edge-triggered and out
    of automatic EOI and special mask mode, then after any sequence of device pulses
    and line changes, mask writes, OCW2 commands to either chip, acknowledges and
    further such initializations of both chips: whenever the slave has a level to
    deliver the master holds the request of its cascade pin, and the CPU sees an
    interrupt if that pin is unmasked and the master has nothing in service.  The
    sequence excludes what breaks the link on this code: a device driving the
    cascade pin itself, OCW3 commands (a poll of the master acknowledges the slave's
    request behind its back), and an initialization of one chip alone, after which a
    request still pending on the slave is not presented again. *)
Theorem cascade_no_loss pin w pr es :
  pic_wf (master pr) -> pic_wf (slave pr) -> special_mask (slave pr) = false ->
  setup_ok pin w -> Forall (event_ok pin) es ->
  let pr' := fold_left step es (program w pr) in
  slave_int pr' ->
  Z.testbit (irr (master pr')) pin = true /\
  (isr (master pr') = 0 -> Z.testbit (imr (master pr')) pin = false ->
   interrupt_pending pr' = true).
Proof.
  intros Hwm Hws Hsm Hw He. cbn zeta.
  pose proof (program_cascaded pin w pr Hw Hwm Hws Hsm) as Hc.
  assert (Hc' : cascaded pin (fold_left step es (program w pr))).
  { revert Hc. generalize (program w pr) as q. induction He as [|e es He _ IH]; intros q Hc; [done|].
    cbn [fold_left]. by apply IH, cascaded_step. }
  revert Hc'. generalize (fold_left step es (program w pr)) as pr'. intros pr' Hc' Hi.
  split; [by apply (cascaded_latched _ _ Hc')|]. intros H0 Hmask. unfold interrupt_pending.
  destruct (master_pending pr') eqn:E; [done|]. unfold master_pending in E.
  rewrite highest_pending_None in E by apply Hc'. destruct (E pin).
  assert (Hn : forall j, ~ in_way (master pr') (master_cascade_exempt pr') j).
  { intros j [Ht _]. rewrite H0, Z.bits_0 in Ht. done. }
  split_and!; auto.
  - rewrite <-(cascaded_pin _ _ Hc'). apply pin_level.
  - unfold wanted. by rewrite (cascaded_latched _ _ Hc' Hi), Hmask.
Qed.

(** The AT pair as the BIOS programs it: vectors 08h and 70h, cascade on pin 2,
    every level unmasked. *)
Definition at_setup : Setup := mkSetup 17 8 4 1 17 112 2 1.
Definition at_pair : Pic8259Pair := program at_setup default.

Lemma at_setup_ok : setup_ok 2 at_setup.
Proof. unfold setup_ok, icw1_ok. split_and!; try reflexivity; cbn; zlia. Qed.

Lemma at_pair_cascaded : cascaded 2 at_pair.
Proof.
  apply program_cascaded; [apply at_setup_ok|apply default_wf|apply default_wf|done].
Qed.

(** A pair in use (a request in service, another pending) is initialized again and
    then serves the clock's line. *)
Lemma cascade_no_loss_witness :
  let pr := fold_left step [Pulse 8; Acknowledge; SetLine 14 true] at_pair in
  let pr' := fold_left step
    [Pulse 8; SetLine 14 false; SetLine 14 true; Acknowledge; CommandSlave 32; CommandMaster 32]
    (program at_setup pr) in
  Z.testbit (irr (master pr')) 2 = true /\ interrupt_pending pr' = true.
Proof.
  cbn zeta.
  destruct (cascade_no_loss 2 at_setup (fold_left step [Pulse 8; Acknowledge; SetLine 14 true] at_pair)
    [Pulse 8; SetLine 14 false; SetLine 14 true; Acknowledge; CommandSlave 32; CommandMaster 32])
    as [H1 H2].
  - unfold pic_wf, in_width; vm_compute; intuition congruence.
  - unfold pic_wf, in_width; vm_compute; intuition congruence.
  - reflexivity.
  - apply at_setup_ok.
  - repeat constructor; cbn; try done; zlia.
  - vm_compute. discriminate.
  - split; [exact H1|apply H2; reflexivity].
Defined.

(** The limit of the theorem: a line of the slave is up and its request pending;
    initializing the master alone clears the request it latched, and, the cascade
    input never having dropped, nothing sets it again: the slave still has a level
    to deliver, the master shows none. *)
Lemma lone_master_reset_loses :
  let pr := fold_left (fun pr w => fst (write_port pr (fst w) (snd w)))
    [(32, 17); (33, 8); (33, 4); (33, 1)] (set_irq_level at_pair 14 true) in
  highest_pending (slave pr) None = Some 6 /\ irr (master pr) = 0 /\ interrupt_pending pr = false.
Proof. vm_compute. done. Qed.

(** What an acknowledge delivers.  On a cascaded pair in any mode: no vector
    exactly when the master has nothing serviceable; otherwise the master enters
    service at its best level, and the vector is that level's when it is not the
    cascade pin, the slave's best level (which enters service too) when it is, and
    the slave's level 7, with no slave level in service, when the slave has
    withdrawn. *)
Theorem acknowledge_resolves pr :
  pic_wf (master pr) -> pic_wf (slave pr) -> has (icw3 (master pr)) (bit (cascade_pin pr)) = true ->
  let exempt := master_cascade_exempt pr in
  match acknowledge_with_irq pr with
  | (pr', None) => pr' = pr /\ forall i, ~ serviceable (master pr) exempt i
  | (pr', Some (v, m)) =>
      serviceable (master pr) exempt m /\
      (forall j, serviceable (master pr) exempt j -> rank (master pr) m <= rank (master pr) j) /\
      isr (master pr') = isr (set_in_service (master pr) m) /\
      if m =? cascade_pin pr then
        (exists s, v = Z.lor (Z.land (icw2 (slave pr)) 248) s /\ serviceable (slave pr) None s /\
           (forall j, serviceable (slave pr) None j -> rank (slave pr) s <= rank (slave pr) j) /\
           slave pr' = set_in_service (slave pr) s) \/
        (v = Z.lor (Z.land (icw2 (slave pr)) 248) 7 /\ slave pr' = slave pr /\
           forall j, ~ serviceable (slave pr) None j)
      else v = Z.lor (Z.land (icw2 (master pr)) 248) m /\ slave pr' = slave pr
  end.
Proof.
  intros Hm Hs Hw. cbn zeta. unfold acknowledge_with_irq.
  destruct (master_pending pr) as [m|] eqn:E; unfold master_pending in E.
  2: { rewrite highest_pending_None in E by done. done. }
  apply highest_pending_spec in E as [Hsv Hmin]; [|done].
  assert (Es : icw3 (set_in_service (master pr) m) = icw3 (master pr) /\
    icw2 (set_in_service (master pr) m) = icw2 (master pr)).
  { unfold set_in_service, clear_in_service; cbn; cases; done. }
  destruct Es as [E3 E2].
  cbn -[has set_in_service sync_cascade highest_pending cascade_pin vector].
  change (cascade_pin (mkPair (set_in_service (master pr) m) (slave pr))) with (cascade_pin pr).
  rewrite E3. destruct (Z.eqb_spec m (cascade_pin pr)) as [->|Hne].
  2: { rewrite orb_true_r. rewrite (proj2 (Z.eqb_neq _ _) Hne). unfold vector. cbn [master slave].
       rewrite E2. split_and!; done. }
  rewrite Hw. cbn [negb orb].
  assert (Hsync : forall q b i, isr (set_input_level q i b) = isr q).
  { intros. unfold set_input_level; cbn; cases; done. }
  destruct (highest_pending (slave pr) None) as [s|] eqn:Es.
  - apply highest_pending_spec in Es as [Hss Hsm]; [|done].
    rewrite Z.eqb_refl.
    split_and!; [done|done|cbn -[set_in_service set_input_level]; by rewrite Hsync|].
    left. exists s. split_and!; [|done|done|done].
    unfold vector. cbn -[set_in_service Z.land Z.lor].
    unfold set_in_service, clear_in_service; cbn; cases; done.
  - rewrite highest_pending_None in Es by done.
    rewrite Z.eqb_refl.
    split_and!; [done|done|cbn -[set_in_service set_input_level]; by rewrite Hsync|].
    right. done.
Qed.

Lemma acknowledge_resolves_witness :
  let pr := request at_pair 8 in
  snd (acknowledge_with_irq pr) = Some (112, 2) /\
  let exempt := master_cascade_exempt pr in
  match acknowledge_with_irq pr with
  | (pr', None) => pr' = pr /\ forall i, ~ serviceable (master pr) exempt i
  | (pr', Some (v, m)) =>
      serviceable (master pr) exempt m /\
      (forall j, serviceable (master pr) exempt j -> rank (master pr) m <= rank (master pr) j) /\
      isr (master pr') = isr (set_in_service (master pr) m) /\
      if m =? cascade_pin pr then
        (exists s, v = Z.lor (Z.land (icw2 (slave pr)) 248) s /\ serviceable (slave pr) None s /\
           (forall j, serviceable (slave pr) None j -> rank (slave pr) s <= rank (slave pr) j) /\
           slave pr' = set_in_service (slave pr) s) \/
        (v = Z.lor (Z.land (icw2 (slave pr)) 248) 7 /\ slave pr' = slave pr /\
           forall j, ~ serviceable (slave pr) None j)
      else v = Z.lor (Z.land (icw2 (master pr)) 248) m /\ slave pr' = slave pr
  end.
Proof.
  split; [reflexivity|]. apply (acknowledge_resolves (request at_pair 8)).
  - unfold pic_wf, in_width. vm_compute. intuition congruence.
  - unfold pic_wf, in_width. vm_compute. intuition congruence.
  - reflexivity.
Defined.

(** A request the chip masks changes nothing it could deliver. *)
Lemma request_masked_quiet p i :
  pic_wf p -> level i -> Z.testbit (imr p) i = true -> highest_pending p None = None ->
  highest_pending (Chip.request p i) None = None.
Proof.
  intros Hwf Hi Hmask Hn. apply highest_pending_None; [by apply request_wf|].
  intros j (Hj & Hw & Hin & Hb). rewrite highest_pending_None in Hn by done.
  apply (Hn j). split_and!; [done| |done|done].
  unfold wanted in *. cbn in Hw. rewrite testbit_set in Hw by apply Hi.
  destruct (Z.eqb_spec i j) as [<-|]; [by rewrite Hmask, andb_false_r in Hw|].
  by rewrite orb_false_r in Hw.
Qed.

(** A request the chip does not mask is delivered by a chip that was idle. *)
Lemma request_idle_pending p exempt i :
  pic_wf p -> level i -> Z.testbit (imr p) i = false -> isr p = 0 ->
  (forall j, ~ serviceable p exempt j) -> highest_pending (Chip.request p i) exempt = Some i.
Proof.
  intros Hwf Hi Hmask H0 Hidle. apply highest_pending_spec; [by apply request_wf|].
  assert (Hn : forall q j, isr q = 0 -> ~ in_way q exempt j).
  { intros q j Hq [Ht _]. by rewrite Hq, Z.bits_0 in Ht. }
  split.
  - split_and!; auto. unfold wanted; cbn.
    by rewrite testbit_set, Z.eqb_refl, orb_true_r, Hmask by apply Hi.
  - intros j (Hj & Hw & _). destruct (decide (j = i)) as [->|Hne]; [lia|].
    destruct (Hidle j). split_and!; auto. unfold wanted in *; cbn in Hw.
    rewrite testbit_set in Hw by apply Hi.
    by rewrite (proj2 (Z.eqb_neq i j)), orb_false_r in Hw by done.
Qed.

(** A pulse on a masked slave line still interrupts: with nothing for the
    slave to deliver, the master idle and the cascade pin unmasked, the pulse of a
    line that [deliverable] reports undeliverable makes the pair deliver the
    slave's spurious vector. *)
Theorem masked_pulse_is_spurious pr irq :
  cascaded (cascade_pin pr) pr -> 8 <= irq < 16 ->
  Z.testbit (imr (slave pr)) (irq - 8) = true -> ~ slave_int pr ->
  interrupt_pending pr = false -> isr (master pr) = 0 ->
  Z.testbit (imr (master pr)) (cascade_pin pr) = false ->
  deliverable pr irq = false /\ snd (acknowledge (request pr irq)) = Some (vector (slave pr) 7).
Proof.
  intros Hc Hirq Hmask Hq Hidle H0 Hpin. assert (Hm : pic_wf (master pr)) by apply Hc.
  assert (Hl : level (irq - 8)) by (unfold level; zlia).
  assert (Hlt : (irq <? 8) = false) by (apply Z.ltb_ge; lia). split.
  { unfold deliverable, irq_unmasked. by rewrite Hlt, has_bit, Hmask by lia. }
  set (p := cascade_pin pr) in *. assert (Hp : level p) by apply pin_level.
  assert (Er : request pr irq =
    mkPair (Chip.request (master pr) p) (Chip.request (slave pr) (irq - 8))).
  { unfold request. by rewrite Hlt, (proj2 (Z.ltb_lt irq 16)) by lia. }
  assert (Hsl : highest_pending (Chip.request (slave pr) (irq - 8)) None = None).
  { apply request_masked_quiet; [apply Hc|done|done|].
    destruct (highest_pending (slave pr) None) eqn:E; [|done]. destruct Hq. congruence. }
  assert (Hmp : master_pending (request pr irq) = Some p).
  { rewrite Er. apply request_idle_pending; [done..|].
    apply highest_pending_None; [done|]. unfold interrupt_pending, master_pending in Hidle.
    change (master_cascade_exempt _) with (master_cascade_exempt pr).
    by destruct (highest_pending (master pr) (master_cascade_exempt pr)). }
  unfold acknowledge, acknowledge_with_irq. rewrite Hmp, Er.
  cbn -[has set_in_service sync_cascade highest_pending cascade_pin vector].
  change (cascade_pin _) with p. rewrite Z.eqb_refl.
  destruct (same_setup_service (Chip.request (master pr) p) p) as (_ & _ & _ & ->).
  change (icw3 (Chip.request (master pr) p)) with (icw3 (master pr)).
  rewrite (cascaded_wired _ _ Hc). cbn [negb orb]. by rewrite Hsl.
Qed.

(** The RTC's pulse with IRQ 8 masked delivers vector 77h. *)
Lemma masked_pulse_is_spurious_witness :
  let pr := fst (write_port at_pair 161 1) in
  deliverable pr 8 = false /\ snd (acknowledge (request pr 8)) = Some 119.
Proof.
  apply (masked_pulse_is_spurious (fst (write_port at_pair 161 1)) 8);
    [|lia|reflexivity| |reflexivity..].
  - apply (cascaded_step 2 at_pair (MaskSlave 1)); [cbn; zlia|apply at_pair_cascaded].
  - intros H. by apply H.
Defined.

End Pair.
