(* ===== verification/PicCanonical.v ===== *)
(** * The canonical state of the interrupt controller pair

    crates/izarravm-machine/src/pic.rs ([CanonicalPic8259Pair]).  The 34-byte payload
    leaves out what it considers unobservable: the low bits of the vector base, the
    buffered-mode bits, the special fully nested flag of the slave, initialization
    bits that the stage no longer reads.  The theorem of this file is that nothing
    observable is left out. *)

From S2P Require Import Prelude Clock Canonical Pic PicPair.
Import Chip.

(* ------------------------------------------------------------------ *)
(** ** The payload *)

Definition stage_expects (p : Pic) : bool :=
  bool_decide (init p = ExpectIcw2) || bool_decide (init p = ExpectIcw3).

Definition pic_bytes (p : Pic) (cascade : Z) (master : bool) : list Z :=
  [irr p; asserted p; isr p; imr p; Z.land (icw2 p) 248; cascade; init_stage_tag (init p);
   b2z (stage_expects p && expect_icw4 p); b2z (bool_decide (init p = ExpectIcw2) && single p);
   b2z (level_triggered p); b2z (auto_eoi p); b2z (read_isr p); b2z (poll_pending p);
   b2z (special_mask p); b2z (master && sfnm p); lowest p; b2z (auto_eoi p && auto_rotate p)].

#[export] Instance pic_payload {Alloc : Allocator} : CanonicalPayload Pair.Pic8259Pair.
Proof.
  refine {|
    payload_wf _ := True;
    payload pr := pic_bytes (Pair.master pr) (icw3 (Pair.master pr)) true ++
                  pic_bytes (Pair.slave pr) (Z.land (icw3 (Pair.slave pr)) 7) false;
    payload_len := 34;
    write_payload := Pair.write_payload
  |}; [|done].
  assert (forall p c m, emits (write_canonical_pic p c m) (pic_bytes p c m)) as H.
  { intros. unfold write_canonical_pic, pic_bytes.
    repeat (eapply (emits_seq _ _ [_] _); [apply emits_append|]). apply emits_append. }
  intros pr. apply emits_seq; apply H.
Defined.

(* ------------------------------------------------------------------ *)
(** ** Observational normal form

    The chip with everything the payload leaves out reset. *)

Definition observed (m : bool) (p : Pic) : Pic :=
  mkPic (irr p) (asserted p) (isr p) (imr p) (Z.land (icw2 p) 248)
    (if m then icw3 p else Z.land (icw3 p) 7) (init p) (stage_expects p && expect_icw4 p)
    (bool_decide (init p = ExpectIcw2) && single p) (level_triggered p) (auto_eoi p) false false
    (read_isr p) (poll_pending p) (special_mask p) (m && sfnm p) (lowest p)
    ((auto_eoi p || negb (bool_decide (init p = Ready))) && auto_rotate p).

Lemma land_idem x m : Z.land (Z.land x m) m = Z.land x m.
Proof. by rewrite <-Z.land_assoc, Z.land_diag. Qed.

(** An operation that gives equal observations on equally observed chips. *)
Definition respects (m : bool) (op : Pic -> Pic) : Prop :=
  forall p, observed m (op (observed m p)) = observed m (op p).

Lemma observed_idem m p : observed m (observed m p) = observed m p.
Proof.
  destruct p as [? ? ? ? ? ? st ? ? ? ae ? ? ? ? ? ? ? ?], m, st, ae;
    unfold observed, stage_expects; cbn; rewrite ?land_idem; done.
Qed.

(** Destructs a chip, its stage and its flags named in [tac]. *)
Tactic Notation "observe" constr(p) :=
  destruct p as [irr0 asserted0 isr0 imr0 icw20 icw30 st expect0 single0 level0 aeoi0 buf0 mas0
    risr0 poll0 smm0 sfnm0 low0 rot0];
  unfold observed, stage_expects; cbn -[has bit Z.land Z.lor Z.ldiff].

Lemma highest_pending_observed m p exempt :
  highest_pending (observed m p) exempt = highest_pending p exempt.
Proof. reflexivity. Qed.

Lemma highest_in_service_observed m p : highest_in_service (observed m p) = highest_in_service p.
Proof. reflexivity. Qed.

Lemma vector_observed m p i : vector (observed m p) i = vector p i.
Proof. unfold vector; cbn. by rewrite land_idem. Qed.

(** An operation that commutes with the normal form respects it. *)
Lemma commutes_respects m op : (forall p, op (observed m p) = observed m (op p)) -> respects m op.
Proof. intros H p. by rewrite H, observed_idem. Qed.

Lemma request_respects m i : respects m (fun p => request p i).
Proof. by apply commutes_respects. Qed.

Lemma set_input_level_respects m i b : respects m (fun p => set_input_level p i b).
Proof. apply commutes_respects. intros p. unfold set_input_level. observe p. cases; done. Qed.

Lemma clear_in_service_respects m i : respects m (fun p => clear_in_service p i).
Proof. apply commutes_respects. intros p. unfold clear_in_service. observe p. cases; done. Qed.

Lemma set_in_service_respects m i : respects m (fun p => set_in_service p i).
Proof.
  apply commutes_respects. intros p. unfold set_in_service, clear_in_service. observe p.
  destruct aeoi0; cbn -[has bit Z.land Z.lor Z.ldiff]; [|done].
  destruct rot0, level0; cbn -[has bit Z.land Z.lor Z.ldiff]; cases; done.
Qed.

Lemma set_lowest_respects m i : respects m (fun p => p <| lowest := i |>).
Proof. by apply commutes_respects. Qed.

Lemma set_rotate_respects m b : respects m (fun p => p <| auto_rotate := b |>).
Proof.
  intros p. observe p. rewrite !land_idem. destruct m, st, aeoi0; cbn; rewrite ?land_idem; done.
Qed.

Lemma respects_compose m f g : respects m f -> respects m g -> respects m (fun p => g (f p)).
Proof.
  intros Hf Hg p. cbn. rewrite <-(Hg (f (observed m p))), Hf, Hg. done.
Qed.

Lemma end_of_interrupt_respects m v : respects m (fun p => end_of_interrupt p v).
Proof.
  intros p. unfold end_of_interrupt. rewrite highest_in_service_observed.
  repeat case_match;
    first [apply set_rotate_respects|apply clear_in_service_respects
          |apply (respects_compose m (fun p => clear_in_service p _) (fun p => p <| lowest := _ |>));
             [apply clear_in_service_respects|apply set_lowest_respects]
          |apply set_lowest_respects|apply observed_idem].
Qed.

Lemma write_icw1_respects m v : respects m (fun p => write_icw1 p v).
Proof.
  intros p. unfold write_icw1. observe p. rewrite !land_idem.
  destruct m, level0; cbn -[has]; rewrite ?land_idem, ?andb_false_r; done.
Qed.

Lemma write_ocw3_respects m v : respects m (fun p => write_ocw3 p v).
Proof.
  apply commutes_respects. intros p. unfold write_ocw3. observe p.
  destruct (has v 2), (has v 4), (has v 64); done.
Qed.

Lemma write_data_respects m v : respects m (fun p => write_data p v).
Proof.
  intros p. unfold write_data. observe p.
  destruct m, st, aeoi0, single0, expect0; cbn -[has Z.land];
    rewrite ?land_idem, ?andb_true_r, ?andb_false_r; try done;
    destruct (has v 2); cbn -[has Z.land]; rewrite ?land_idem, ?andb_true_r; done.
Qed.

Lemma write_port_respects m port v : respects m (fun p => write_port p port v).
Proof.
  intros p. unfold write_port. cases;
    first [apply write_icw1_respects|apply write_ocw3_respects|apply end_of_interrupt_respects
          |apply write_data_respects].
Qed.

Lemma poll_respects m exempt : respects m (fun p => fst (poll p exempt)).
Proof.
  intros p. unfold poll. rewrite highest_pending_observed.
  destruct (highest_pending p exempt); cbn [fst];
    [apply set_in_service_respects|apply observed_idem].
Qed.

Lemma poll_observed m p exempt : snd (poll (observed m p) exempt) = snd (poll p exempt).
Proof. unfold poll. rewrite highest_pending_observed. by case_match. Qed.

Lemma clear_poll_commutes m p :
  (observed m p) <| poll_pending := false |> = observed m (p <| poll_pending := false |>).
Proof. done. Qed.

Lemma read_port_respects m port exempt : respects m (fun p => fst (read_port p port exempt)).
Proof.
  intros p. unfold read_port. change (poll_pending (observed m p)) with (poll_pending p).
  cases; try apply observed_idem. rewrite clear_poll_commutes. apply poll_respects.
Qed.

Lemma read_port_observed m p port exempt :
  snd (read_port (observed m p) port exempt) = snd (read_port p port exempt).
Proof.
  unfold read_port. change (poll_pending (observed m p)) with (poll_pending p).
  rewrite clear_poll_commutes. case_step; [apply poll_observed|]. by case_step.
Qed.

(* ------------------------------------------------------------------ *)
(** ** The pair *)

Module Observe.
Import Pair.

(** What the machine and the guest do to the pair, and what they see. *)
Inductive Action :=
| WritePort (port value : Z)
| ReadPort (port : Z)
| Request (irq : Z)
| SetLine (irq : Z) (b : bool)
| Acknowledge
| Query (irq : Z).

Inductive Answer :=
| Nothing
| Claimed (b : bool)
| Value (v : option Z)
| Vector (v : option (Z * Z))
| Status (pending unmasked reaches : bool).

Definition act (pr : Pic8259Pair) (a : Action) : Pic8259Pair * Answer :=
  match a with
  | WritePort port v => let '(pr, b) := write_port pr port v in (pr, Claimed b)
  | ReadPort port => let '(pr, v) := read_port pr port in (pr, Value v)
  | Request irq => (request pr irq, Nothing)
  | SetLine irq b => (set_irq_level pr irq b, Nothing)
  | Acknowledge => let '(pr, v) := acknowledge_with_irq pr in (pr, Vector v)
  | Query irq => (pr, Status (interrupt_pending pr) (irq_unmasked pr irq) (deliverable pr irq))
  end.

Fixpoint answers (pr : Pic8259Pair) (acts : list Action) : list Answer :=
  match acts with
  | [] => []
  | a :: rest => let '(pr', r) := act pr a in r :: answers pr' rest
  end.

Definition observed_pair (pr : Pic8259Pair) : Pic8259Pair :=
  mkPair (observed true (master pr)) (observed false (slave pr)).

Lemma observed_pair_idem pr : observed_pair (observed_pair pr) = observed_pair pr.
Proof. unfold observed_pair; cbn [master slave]. by rewrite !observed_idem. Qed.

Lemma cascade_pin_observed pr : cascade_pin (observed_pair pr) = cascade_pin pr.
Proof. apply land_idem. Qed.

Lemma exempt_observed pr : master_cascade_exempt (observed_pair pr) = master_cascade_exempt pr.
Proof. unfold master_cascade_exempt. by rewrite cascade_pin_observed. Qed.

Lemma master_pending_observed pr : master_pending (observed_pair pr) = master_pending pr.
Proof. unfold master_pending. by rewrite exempt_observed. Qed.

Lemma slave_pending_observed pr :
  highest_pending (slave (observed_pair pr)) None = highest_pending (slave pr) None.
Proof. reflexivity. Qed.

Lemma observed_pin_of pr pr' : observed_pair pr = observed_pair pr' -> cascade_pin pr = cascade_pin pr'.
Proof. intros E. by rewrite <-cascade_pin_observed, E, cascade_pin_observed. Qed.

(** An operation on the pair that gives equal observations on equal observations. *)
Definition respects_pair (op : Pic8259Pair -> Pic8259Pair) : Prop :=
  forall pr, observed_pair (op (observed_pair pr)) = observed_pair (op pr).

Lemma on_master f : respects true f -> respects_pair (fun pr => pr <| master := f (master pr) |>).
Proof.
  intros Hf pr. unfold observed_pair; cbn [master slave update]. by rewrite Hf, observed_idem.
Qed.

Lemma on_slave f : respects false f -> respects_pair (fun pr => pr <| slave := f (slave pr) |>).
Proof.
  intros Hf pr. unfold observed_pair; cbn [master slave update]. by rewrite Hf, observed_idem.
Qed.

Lemma pair_compose f g : respects_pair f -> respects_pair g -> respects_pair (fun pr => g (f pr)).
Proof. intros Hf Hg pr. cbn. by rewrite <-(Hg (f (observed_pair pr))), Hf, Hg. Qed.

Lemma sync_cascade_respects : respects_pair sync_cascade.
Proof.
  intros pr. unfold sync_cascade. rewrite slave_pending_observed, cascade_pin_observed.
  apply (on_master (fun p => set_input_level p _ _)), set_input_level_respects.
Qed.

Lemma write_port_respects_pair port v : respects_pair (fun pr => fst (write_port pr port v)).
Proof.
  intros pr. unfold write_port. case_step; [|case_step]; cbn [fst].
  - apply (on_master (fun p => Chip.write_port p port v)), write_port_respects.
  - pose proof (on_slave (fun p => Chip.write_port p port v) (write_port_respects false port v) pr)
      as Hs. cbn beta in Hs. rewrite cascade_pin_observed.
    rewrite (observed_pin_of _ _ Hs).
    set (a := _ <| slave := _ |>) in Hs |- *. set (b := pr <| slave := _ |>) in Hs |- *.
    rewrite <-(sync_cascade_respects (if negb _ then a <| master := _ |> else a)).
    rewrite <-(sync_cascade_respects (if negb _ then b <| master := _ |> else b)).
    f_equal. f_equal. case_step; [|exact Hs].
    pose proof (on_master (fun p => set_input_level p (cascade_pin pr) false)
      (set_input_level_respects true _ _)) as Hm.
    rewrite <-(Hm a), Hs, (Hm b). done.
  - apply observed_pair_idem.
Qed.

Lemma read_port_respects_pair port : respects_pair (fun pr => fst (read_port pr port)).
Proof.
  intros pr. unfold read_port. rewrite exempt_observed. case_step; [|case_step]; cbn [fst].
  - pose proof (on_master (fun p => fst (Chip.read_port p port (master_cascade_exempt pr)))
      (read_port_respects _ _ _) pr) as Hm. cbn beta in Hm.
    destruct (Chip.read_port (master (observed_pair pr)) _ _),
      (Chip.read_port (master pr) _ _). exact Hm.
  - pose proof (pair_compose _ _ (on_slave (fun p => fst (Chip.read_port p port None))
      (read_port_respects _ _ _)) sync_cascade_respects pr) as Hs. cbn beta in Hs.
    destruct (Chip.read_port (slave (observed_pair pr)) _ _),
      (Chip.read_port (slave pr) _ _). exact Hs.
  - apply observed_pair_idem.
Qed.

Lemma read_port_answer pr port : snd (read_port (observed_pair pr) port) = snd (read_port pr port).
Proof.
  unfold read_port. rewrite exempt_observed. case_step; [|case_step]; [| |done].
  - pose proof (read_port_observed true (master pr) port (master_cascade_exempt pr)) as Er.
    change (master (observed_pair pr)) with (observed true (master pr)).
    destruct (Chip.read_port _ _ _), (Chip.read_port (master pr) _ _). cbn in *. by rewrite Er.
  - pose proof (read_port_observed false (slave pr) port None) as Er.
    change (slave (observed_pair pr)) with (observed false (slave pr)).
    destruct (Chip.read_port _ _ _), (Chip.read_port (slave pr) _ _). cbn in *. by rewrite Er.
Qed.

Lemma request_respects_pair irq : respects_pair (fun pr => request pr irq).
Proof.
  intros pr. unfold request. case_step; [|case_step]; [| |apply observed_pair_idem].
  - apply (on_master (fun p => Chip.request p irq)), request_respects.
  - change (cascade_pin (_ <| slave := Chip.request (slave (observed_pair pr)) (irq - 8) |>))
      with (cascade_pin (observed_pair pr)).
    change (cascade_pin (_ <| slave := Chip.request (slave pr) (irq - 8) |>)) with (cascade_pin pr).
    rewrite cascade_pin_observed.
    apply (pair_compose _ _
      (on_slave (fun p => Chip.request p (irq - 8)) (request_respects false _))
      (on_master (fun p => Chip.request p (cascade_pin pr)) (request_respects true _))).
Qed.

Lemma set_irq_level_respects_pair irq b : respects_pair (fun pr => set_irq_level pr irq b).
Proof.
  intros pr. unfold set_irq_level. case_step; [|case_step]; [| |apply observed_pair_idem].
  - apply (on_master (fun p => set_input_level p irq b)), set_input_level_respects.
  - apply (pair_compose _ _
      (on_slave (fun p => set_input_level p (irq - 8) b) (set_input_level_respects false _ _))
      sync_cascade_respects).
Qed.

Lemma set_in_service_setup p i :
  icw2 (set_in_service p i) = icw2 p /\ icw3 (set_in_service p i) = icw3 p.
Proof. unfold set_in_service, clear_in_service; cbn; cases; done. Qed.

Lemma sync_cascade_slave pr : slave (sync_cascade pr) = slave pr.
Proof. done. Qed.

Lemma acknowledge_respects_pair :
  respects_pair (fun pr => fst (acknowledge_with_irq pr)) /\
  forall pr, snd (acknowledge_with_irq (observed_pair pr)) = snd (acknowledge_with_irq pr).
Proof.
  apply forall_and_distr. intros pr. unfold acknowledge_with_irq.
  rewrite master_pending_observed. destruct (master_pending pr) as [m|];
    [|split; [apply observed_pair_idem|done]].
  pose proof (on_master (fun p => set_in_service p m) (set_in_service_respects true m) pr) as Hm.
  cbn beta in Hm.
  set (a := (observed_pair pr) <| master := _ |>) in Hm |- *. set (b := pr <| master := _ |>) in Hm |- *.
  rewrite (observed_pin_of _ _ Hm).
  assert (E3 : icw3 (master a) = icw3 (master b)).
  { cbn. rewrite !(proj2 (set_in_service_setup _ _)). done. }
  assert (Ev : vector (master a) m = vector (master b) m).
  { unfold vector; cbn. rewrite !(proj1 (set_in_service_setup _ _)). apply (vector_observed true). }
  cbv zeta. rewrite E3, Ev. case_step; [by split|].
  change (highest_pending (slave a) None) with (highest_pending (slave b) None).
  destruct (highest_pending (slave b) None) as [s|]; cbn [fst snd].
  - pose proof (pair_compose _ _ (on_slave (fun p => set_in_service p s)
      (set_in_service_respects false s)) sync_cascade_respects) as Hs. cbn beta in Hs. split.
    + by rewrite <-(Hs b), <-Hm, (Hs a).
    + rewrite !sync_cascade_slave. unfold vector; cbn [slave update].
      rewrite !(proj1 (set_in_service_setup _ _)). cbn. by rewrite land_idem.
  - split.
    + by rewrite <-(sync_cascade_respects b), <-Hm, sync_cascade_respects.
    + rewrite !sync_cascade_slave. change (slave a) with (observed false (slave pr)).
      by rewrite vector_observed.
Qed.

Lemma act_observed pr a :
  observed_pair (fst (act (observed_pair pr) a)) = observed_pair (fst (act pr a)) /\
  snd (act (observed_pair pr) a) = snd (act pr a).
Proof.
  destruct a as [port v|port|irq|irq b| |irq]; cbn [act].
  - pose proof (write_port_respects_pair port v pr) as H.
    assert (E : snd (write_port (observed_pair pr) port v) = snd (write_port pr port v)).
    { unfold write_port. by repeat case_step. }
    cbn beta in H. destruct (write_port _ _ _), (write_port pr _ _). cbn in *. by rewrite H, E.
  - pose proof (read_port_respects_pair port pr) as H. pose proof (read_port_answer pr port) as E.
    cbn beta in H. destruct (read_port _ _), (read_port pr _). cbn in *. by rewrite H, E.
  - split; [apply request_respects_pair|done].
  - split; [apply set_irq_level_respects_pair|done].
  - destruct acknowledge_respects_pair as [H E]. specialize (H pr). specialize (E pr).
    cbn beta in H, E. destruct (acknowledge_with_irq _), (acknowledge_with_irq pr).
    cbn in *. by rewrite H, E.
  - split; [apply observed_pair_idem|]. cbn [snd]. unfold interrupt_pending, deliverable.
    rewrite master_pending_observed, cascade_pin_observed. done.
Qed.

Lemma act_equal pr pr' a :
  observed_pair pr = observed_pair pr' ->
  observed_pair (fst (act pr a)) = observed_pair (fst (act pr' a)) /\
  snd (act pr a) = snd (act pr' a).
Proof.
  intros E. destruct (act_observed pr a) as [<- <-], (act_observed pr' a) as [<- <-]. by rewrite E.
Qed.

(** The payload holds the observation, unless a chip in the middle of its
    initialization carries a rotate-in-AEOI flag that its mode does not use yet. *)
Definition rotation_settled (p : Pic) : Prop :=
  init p = Ready \/ auto_eoi p = true \/ auto_rotate p = false.

Definition settled (pr : Pic8259Pair) : Prop :=
  rotation_settled (master pr) /\ rotation_settled (slave pr).

Lemma b2z_inj a b : b2z a = b2z b -> a = b.
Proof. by destruct a, b. Qed.

Lemma init_stage_tag_inj a b : init_stage_tag a = init_stage_tag b -> a = b.
Proof. by destruct a, b. Qed.

Lemma rotate_observed p :
  rotation_settled p ->
  (auto_eoi p || negb (bool_decide (init p = Ready))) && auto_rotate p = auto_eoi p && auto_rotate p.
Proof.
  intros [E|[E|E]].
  - rewrite bool_decide_eq_true_2 by done. by rewrite orb_false_r.
  - by rewrite E.
  - by rewrite E, !andb_false_r.
Qed.

Lemma pic_bytes_observed p q (m : bool) :
  rotation_settled p -> rotation_settled q ->
  pic_bytes p (if m then icw3 p else Z.land (icw3 p) 7) m =
  pic_bytes q (if m then icw3 q else Z.land (icw3 q) 7) m ->
  observed m p = observed m q.
Proof.
  intros Hp Hq E. unfold observed. rewrite !rotate_observed by done.
  unfold pic_bytes in E. injection E.
  intros ->%b2z_inj -> ->%b2z_inj ->%b2z_inj ->%b2z_inj ->%b2z_inj Ha ->%b2z_inj
    Hs%b2z_inj He%b2z_inj Ht%init_stage_tag_inj -> -> -> -> -> ->.
  apply b2z_inj in Ha. rewrite Ha, Hs, He, Ht. done.
Qed.

Lemma payload_observed {Alloc : Allocator} a b :
  settled a -> settled b -> payload a = payload b -> observed_pair a = observed_pair b.
Proof.
  intros [Ham Has] [Hbm Hbs] E. cbn [payload pic_payload] in E.
  apply app_inj_1 in E as [Em Es]; [|done]. unfold observed_pair. f_equal.
  - by apply (pic_bytes_observed _ _ true).
  - by apply (pic_bytes_observed _ _ false).
Qed.

Lemma answers_observed a b acts :
  observed_pair a = observed_pair b -> answers a acts = answers b acts.
Proof.
  revert a b. induction acts as [|act1 acts IH]; intros a b E; [done|]. cbn [answers].
  pose proof (act_equal a b act1 E) as [H1 H2].
  destruct (act a act1), (act b act1). cbn in *. subst. f_equal. by apply IH.
Qed.

(** C35.  The canonical payload determines the pair: two settled pairs for which the
    code writes the same payload give the same answer to every port access, query
    and acknowledge of every later sequence of actions. *)
Theorem payload_determines_behaviour {Alloc : Allocator} a b bs acts :
  settled a -> settled b ->
  Pair.write_payload a [] = (bs, Ok tt) -> Pair.write_payload b [] = (bs, Ok tt) ->
  length bs = 34%nat /\ answers a acts = answers b acts.
Proof.
  intros Ha Hb Ea Eb.
  pose proof (emits_Ok _ _ _ _ _ (write_payload_emits (CanonicalPayload:=pic_payload) a) Ea) as Ea'.
  pose proof (emits_Ok _ _ _ _ _ (write_payload_emits (CanonicalPayload:=pic_payload) b) Eb) as Eb'.
  cbn [app] in Ea', Eb'. split.
  - by rewrite Ea'.
  - apply answers_observed, payload_observed; [done..|]. congruence.
Qed.

(** Two pairs that differ in the buffered-mode bits and the low vector bits. *)
Definition buffered_pair : Pic8259Pair :=
  at_pair <| master := (master at_pair) <| buffered := true |> <| icw2 := 15 |> |>.

Lemma payload_determines_behaviour_witness :
  exists bs, Pair.write_payload (Alloc:=fun _ _ => true) at_pair [] = (bs, Ok tt) /\
  length bs = 34%nat /\
  answers at_pair [Request 1; Acknowledge] = answers buffered_pair [Request 1; Acknowledge].
Proof.
  eexists. split; [vm_compute; reflexivity|].
  apply (payload_determines_behaviour (Alloc:=fun _ _ => true)).
  - split; left; reflexivity.
  - split; left; reflexivity.
  - vm_compute; reflexivity.
  - vm_compute; reflexivity.
Defined.

End Observe.
