(* ===== verification/Dma.v ===== *)
(** * The 8237A DMA controller pair

    crates/izarravm-machine/src/dma.rs.  [Channel] is one channel ([DmaChannel]),
    [Chip] one 8237A ([DmaChip]), [Pair] the master/slave cascade
    ([DmaController]).  Transfers take the guest memory of Memory.v and return it
    with the channel.  The trace output of the source is not modelled. *)

From stdpp Require Import relations.
From S2P Require Import Prelude Clock Canonical Memory.

Definition BYTE_CYCLE_TICKS : Z := div_ceil (600 * Rate.MASTER_CLOCK_HZ) 1000000000.

Module Channel.

Record TransferWindow := mkWindow { start_tick : Z; deadline_tick : Z; start_count : Z }.

Record DmaChannel := mkChannel {
  base_addr : Z;
  cur_addr : Z;
  base_count : Z;
  cur_count : Z;
  page : Z;
  addr_decrement : bool;
  auto_init : bool;
  transfer_kind : Z;
  transfer_mode : Z;
  mask : bool;
  reached_tc : bool;
  dreq : bool;
  active : bool;
  transfer_cycles : Z;
  transfer_window : option TransferWindow
}.
#[export] Instance eta_DmaChannel : Eta DmaChannel := fun c =>
  mkChannel (base_addr c) (cur_addr c) (base_count c) (cur_count c) (page c) (addr_decrement c)
    (auto_init c) (transfer_kind c) (transfer_mode c) (mask c) (reached_tc c) (dreq c) (active c)
    (transfer_cycles c) (transfer_window c).

Definition default : DmaChannel :=
  mkChannel 0 0 0 0 0 false false 0 0 true false false false 0 None.
#[export] Instance DmaChannel_inhabited : Inhabited DmaChannel := populate default.

Definition arm_transfer_window (c : DmaChannel) (now_ticks deadline : Z) : DmaChannel :=
  c <| transfer_window := Some (mkWindow now_ticks (Z.max deadline now_ticks) (cur_count c)) |>.

(** The current count as the guest sees it at [now_ticks]. *)
Definition count_after (c : DmaChannel) (now_ticks : Z) : Z :=
  match transfer_window c with
  | None => cur_count c
  | Some window =>
      if now_ticks <=? start_tick window then start_count window
      else if deadline_tick window <=? now_ticks then cur_count c
      else
        let elapsed := now_ticks - start_tick window in
        let span := Z.max (deadline_tick window - start_tick window) 1 in
        let total_bytes := start_count window + 1 in
        let proportional_done := wrap 64 (elapsed * total_bytes / span) in
        let bus_bound_done := elapsed / Z.max BYTE_CYCLE_TICKS 1 in
        let bytes_done :=
          Z.min (Z.min proportional_done bus_bound_done) (saturate 64 (total_bytes - 1)) in
        saturate 16 (start_count window - wrap 16 bytes_done)
  end.

Definition set_mode (c : DmaChannel) (value : Z) : DmaChannel :=
  c <| transfer_kind := Z.land (Z.shiftr value 2) 3 |> <| auto_init := has value 16 |>
    <| addr_decrement := has value 32 |> <| transfer_mode := Z.land (Z.shiftr value 6) 3 |>.

Definition byte_address (c : DmaChannel) : Z := Z.lor (Z.shiftl (page c) 16) (cur_addr c).

Definition word_address (c : DmaChannel) : Z :=
  Z.lor (Z.shiftl (Z.land (page c) 254) 16) (Z.shiftl (cur_addr c) 1).

Definition step_transfer (c : DmaChannel) : DmaChannel :=
  let c := c <| transfer_cycles := saturate 64 (transfer_cycles c + 1) |> in
  let c := c <| cur_addr := wrap 16 (if addr_decrement c then cur_addr c - 1 else cur_addr c + 1) |> in
  let next := wrap 16 (cur_count c - 1) in
  let c := c <| reached_tc := cur_count c =? 0 |> in
  let c := c <| cur_count := next |> in
  if reached_tc c then
    if auto_init c then c <| cur_addr := base_addr c |> <| cur_count := base_count c |>
    else c <| mask := true |>
  else c.

(** A transfer on a channel: the channel and the memory it leaves, and its result. *)
Definition Transfer (A : Type) : Type := DmaChannel -> Memory -> DmaChannel * Memory * option A.

Definition read_byte : Transfer Z := fun c m =>
  if mask c || negb (transfer_kind c =? 2) then (c, m, None)
  else match read_u8 m (byte_address c) with
       | Err _ => (c, m, None)
       | Ok b => (step_transfer c, m, Some b)
       end.

Definition read_word : Transfer Z := fun c m =>
  if mask c || negb (transfer_kind c =? 2) then (c, m, None)
  else
    let addr := word_address c in
    match read_u8 m addr with
    | Err _ => (c, m, None)
    | Ok lo =>
        match read_u8 m (addr + 1) with
        | Err _ => (c, m, None)
        | Ok hi => (step_transfer c, m, Some (le_value [lo; hi]))
        end
    end.

(** The physical address written. *)
Definition write_byte (byte : Z) : Transfer Z := fun c m =>
  if mask c || negb (transfer_kind c =? 1) then (c, m, None)
  else
    let address := byte_address c in
    match write_u8 m address byte with
    | Err _ => (c, m, None)
    | Ok m => (step_transfer c, m, Some address)
    end.

Definition write_word (word : Z) : Transfer unit := fun c m =>
  if mask c || negb (transfer_kind c =? 1) then (c, m, None)
  else
    let addr := word_address c in
    match write_u8 m addr (word mod 256) with
    | Err _ => (c, m, None)
    | Ok m =>
        match write_u8 m (addr + 1) (word / 256) with
        | Err _ => (c, m, None)
        | Ok m => (step_transfer c, m, Some tt)
        end
    end.

Definition verify : Transfer unit := fun c m =>
  if mask c || negb (transfer_kind c =? 0) then (c, m, None) else (step_transfer c, m, Some tt).

End Channel.

Module Chip.
Import Channel.

Record DmaChip := mkChip {
  channels : list DmaChannel;
  hi_lo : bool;
  command : Z;
  status : Z;
  request_reg : Z;
  panicked : bool
}.
#[export] Instance eta_DmaChip : Eta DmaChip := fun p =>
  mkChip (channels p) (hi_lo p) (command p) (status p) (request_reg p) (panicked p).

Definition default : DmaChip := mkChip (replicate 4 Channel.default) false 0 0 0 false.

(** [self.channels[ci]] indexes an array of four: out of range the source panics.
    [index] records that in [panicked], a field the source does not have; every
    operation below that evaluates [self.channels[ci]] goes through [index], and
    what it computes after a panic is meaningless.  [channel] is the element read. *)
Definition index (p : DmaChip) (ci : nat) : DmaChip :=
  p <| panicked := panicked p || negb (ci <? length (channels p))%nat |>.
Definition channel (p : DmaChip) (ci : nat) : DmaChannel := channels p !!! ci.
Definition with_channel (p : DmaChip) (ci : nat) (f : DmaChannel -> DmaChannel) : DmaChip :=
  (index p ci) <| channels := alter f ci (channels p) |>.

Definition addr_channel (local : Z) : option nat :=
  if (local <? 8) && (local mod 2 =? 0) then Some (Z.to_nat (local / 2)) else None.
Definition count_channel (local : Z) : option nat :=
  if (local <? 8) && (local mod 2 =? 1) then Some (Z.to_nat (local / 2)) else None.

(** The byte the flip-flop selects, replaced in [old]. *)
Definition load_byte (hi : bool) (old value : Z) : Z :=
  if negb hi then Z.lor (Z.land old 65280) value
  else Z.lor (Z.land old 255) (wrap 16 (Z.shiftl value 8)).
Definition select_byte (hi : bool) (v : Z) : Z :=
  if negb hi then wrap 8 (Z.land v 255) else wrap 8 (Z.shiftr v 8).

Definition write_addr (p : DmaChip) (ci : nat) (value : Z) : DmaChip :=
  let new := load_byte (hi_lo p) (base_addr (channel p ci)) value in
  let p := with_channel p ci (fun c => c <| base_addr := new |> <| cur_addr := new |>) in
  p <| hi_lo := negb (hi_lo p) |>.

Definition write_count (p : DmaChip) (ci : nat) (value : Z) : DmaChip :=
  let new := load_byte (hi_lo p) (base_count (channel p ci)) value in
  let p := with_channel p ci (fun c =>
    c <| base_count := new |> <| cur_count := new |> <| reached_tc := false |>) in
  let p := p <| status := Z.ldiff (status p) (bit (Z.of_nat ci)) |> in
  let p := with_channel p ci (fun c => c <| transfer_window := None |>) in
  p <| hi_lo := negb (hi_lo p) |>.

Definition read_addr (p : DmaChip) (ci : nat) : DmaChip * Z :=
  ((index p ci) <| hi_lo := negb (hi_lo p) |>, select_byte (hi_lo p) (cur_addr (channel p ci))).

Definition read_count (p : DmaChip) (ci : nat) : DmaChip * Z :=
  ((index p ci) <| hi_lo := negb (hi_lo p) |>, select_byte (hi_lo p) (cur_count (channel p ci))).

Definition read_count_timed (p : DmaChip) (ci : nat) (now_ticks : Z) : DmaChip * Z :=
  ((index p ci) <| hi_lo := negb (hi_lo p) |>, select_byte (hi_lo p) (count_after (channel p ci) now_ticks)).

Definition set_mask (b : bool) (c : DmaChannel) : DmaChannel :=
  let c := c <| mask := b |> in if mask c then c <| active := false |> else c.

Definition master_clear (p : DmaChip) : DmaChip :=
  p <| command := 0 |> <| status := 0 |> <| request_reg := 0 |> <| hi_lo := false |>
    <| channels := (fun c => c <| mask := true |> <| dreq := false |> <| active := false |>)
                   <$> channels p |>.

Definition write_local (p : DmaChip) (local value : Z) : DmaChip :=
  match addr_channel local with
  | Some ci => write_addr p ci value
  | None =>
      match count_channel local with
      | Some ci => write_count p ci value
      | None =>
          let ci := Z.to_nat (Z.land value 3) in
          match local with
          | 8 => p <| command := value |>
          | 9 =>
              if has value 4 then p <| request_reg := Z.lor (request_reg p) (bit (Z.land value 3)) |>
              else p <| request_reg := Z.ldiff (request_reg p) (bit (Z.land value 3)) |>
          | 10 => with_channel p ci (set_mask (has value 4))
          | 11 => with_channel p ci (fun c => set_mode c value)
          | 12 => p <| hi_lo := false |>
          | 13 => master_clear p
          | 14 => p <| channels := (fun c => c <| mask := false |>) <$> channels p |>
          | 15 => p <| channels := imap (fun ci c => set_mask (has value (bit (Z.of_nat ci))) c)
                                     (channels p) |>
          | _ => p
          end
      end
  end.

(** The DREQ levels of a status read: software requests, then each asserted input. *)
Definition request_levels (p : DmaChip) : Z :=
  foldl (fun requests ic => if dreq ic.2 then Z.lor requests (bit ic.1) else requests)
    (Z.land (request_reg p) 15) (imap (fun ci c => (Z.of_nat ci, c)) (channels p)).

Definition read_local (p : DmaChip) (local : Z) : DmaChip * option Z :=
  match addr_channel local with
  | Some ci => let '(p, v) := read_addr p ci in (p, Some v)
  | None =>
      match count_channel local with
      | Some ci => let '(p, v) := read_count p ci in (p, Some v)
      | None =>
          match local with
          | 8 =>
              let s := Z.lor (Z.land (status p) 15) (wrap 8 (Z.shiftl (request_levels p) 4)) in
              (p <| status := 0 |>, Some s)
          | 13 => (p, Some 0)
          | _ => (p, None)
          end
      end
  end.

Definition mem_to_mem_enabled (p : DmaChip) : bool := has (command p) 1.
Definition channel0_hold (p : DmaChip) : bool := has (command p) 2.
Definition controller_disabled (p : DmaChip) : bool := has (command p) 4.

Definition set_hardware_request (p : DmaChip) (ci : nat) (asserted : bool) : DmaChip :=
  with_channel p ci (fun c =>
    let c := c <| dreq := asserted |> in
    if negb asserted && negb (transfer_mode c =? 2) then c <| active := false |> else c).

Definition request_active (p : DmaChip) (ci : nat) : bool :=
  dreq (channel p ci) || has (request_reg p) (bit (Z.of_nat ci)).

Definition begin_cycle (p : DmaChip) (ci : nat) : DmaChip * bool :=
  let block_active := (transfer_mode (channel p ci) =? 2) && active (channel p ci) in
  if controller_disabled p || mask (channel p ci) || (transfer_mode (channel p ci) =? 3) ||
     (negb (request_active p ci) && negb block_active)
  then (index p ci, false)
  else (with_channel p ci (fun c => c <| reached_tc := false |> <| active := true |>), true).

Definition finish_cycle (p : DmaChip) (ci : nat) (completed : bool) : DmaChip :=
  if negb completed then with_channel p ci (fun c => c <| active := false |>)
  else if reached_tc (channel p ci) then
    let p := p <| status := Z.lor (status p) (bit (Z.of_nat ci)) |>
               <| request_reg := Z.ldiff (request_reg p) (bit (Z.of_nat ci)) |> in
    with_channel p ci (fun c => c <| active := false |>)
  else if negb (transfer_mode (channel p ci) =? 2) then
    with_channel p ci (fun c => c <| active := false |>)
  else index p ci.

(** [mem_to_mem_request_armed] *)
Definition mem_to_mem_request_armed (p : DmaChip) : bool :=
  mem_to_mem_enabled p && negb (controller_disabled p) && negb (mask (channel p 0)) &&
  has (request_reg p) 1.

(** One granted cycle: the body shared by the five transfer methods. *)
Definition cycle {A} (p : DmaChip) (ci : nat) (m : Memory) (op : Transfer A)
    : DmaChip * Memory * option A :=
  let '(p, granted) := begin_cycle p ci in
  if negb granted then (p, m, None)
  else
    let '(c, m, r) := op (channel p ci) m in
    let p := with_channel p ci (fun _ => c) in
    (finish_cycle p ci (match r with Some _ => true | None => false end), m, r).

Definition read_byte p ci m := cycle p ci m Channel.read_byte.
Definition read_word p ci m := cycle p ci m Channel.read_word.
Definition write_byte p ci m byte := cycle p ci m (Channel.write_byte byte).
Definition write_word p ci m word := cycle p ci m (Channel.write_word word).
Definition verify p ci m := cycle p ci m Channel.verify.

Definition release (p : DmaChip) : DmaChip :=
  with_channel (with_channel p 0 (fun c => c <| active := false |>))
    1 (fun c => c <| active := false |>).

(** Channel 0's step when the command register holds the source address. *)
Definition hold_step (c : DmaChannel) : DmaChannel :=
  let c := c <| transfer_cycles := saturate 64 (transfer_cycles c + 1) |> in
  c <| cur_count := wrap 16 (cur_count c - 1) |>.

(** The copy loop; [None] when [fuel] runs out. *)
Fixpoint copy_loop (fuel : nat) (hold : bool) (p : DmaChip) (m : Memory) (copied : Z)
    : option (DmaChip * Memory * option Z) :=
  match fuel with
  | O => None
  | S fuel =>
      let src := byte_address (channel p 0) in
      let dst := byte_address (channel p 1) in
      match read_u8 m src with
      | Err _ => Some (release p, m, None)
      | Ok byte =>
          match write_u8 m dst byte with
          | Err _ => Some (release p, m, None)
          | Ok m =>
              let copied := copied + 1 in
              let p := with_channel p 1 step_transfer in
              let p := with_channel p 0 (if hold then hold_step else step_transfer) in
              if reached_tc (channel p 1) then
                let p := p <| status := Z.lor (status p) 2 |> in
                let p := p <| request_reg := Z.ldiff (request_reg p) 3 |> in
                Some (release p, m, Some copied)
              else copy_loop fuel hold p m copied
          end
      end
  end.

(** Channel 1 counts through at most 2^16 transfers. *)
Definition COPY_FUEL : nat := Z.to_nat 65536.

Definition mem_to_mem (p : DmaChip) (m : Memory) : option (DmaChip * Memory * option Z) :=
  if controller_disabled p || negb (mem_to_mem_enabled p) then Some (p, m, None)
  else if mask (channel p 0) then Some (index p 0, m, None)
  else
    let hold := channel0_hold p in
    let p := with_channel p 0 (fun c => c <| active := true |>) in
    let p := with_channel p 1 (fun c => c <| active := true |>) in
    copy_loop COPY_FUEL hold p m 0.

End Chip.

Module Pair.
Import Channel Chip.

Record DmaController := mkController {
  master : DmaChip;
  slave : DmaChip;
  page_scratch : list Z;
  refresh_page : Z
}.
#[export] Instance eta_DmaController : Eta DmaController := fun d =>
  mkController (master d) (slave d) (page_scratch d) (refresh_page d).

Definition default : DmaController := mkController Chip.default Chip.default (replicate 16 0) 0.

Definition slave_local (port : Z) : option Z :=
  match port with
  | 192 | 194 | 196 | 198 | 200 | 202 | 204 | 206 => Some ((port - 192) / 2)
  | 208 => Some 8 | 210 => Some 9 | 212 => Some 10 | 214 => Some 11
  | 216 => Some 12 | 218 => Some 13 | 220 => Some 14 | 222 => Some 15
  | _ => None
  end.

Inductive Side := Master | Slave.

Definition page_target (port : Z) : option (Side * nat) :=
  match port with
  | 131 => Some (Master, 1%nat) | 129 => Some (Master, 2%nat) | 130 => Some (Master, 3%nat)
  | 135 => Some (Master, 0%nat)
  | 139 => Some (Slave, 1%nat) | 137 => Some (Slave, 2%nat) | 138 => Some (Slave, 3%nat)
  | _ => None
  end.

Definition is_scratch_page (port : Z) : bool :=
  match port with 132 | 133 | 134 | 136 | 140 | 141 | 142 => true | _ => false end.

Definition write_port (d : DmaController) (port value : Z) : DmaController * bool :=
  if port <=? 15 then (d <| master := write_local (master d) port value |>, true)
  else match slave_local port with
  | Some local => (d <| slave := write_local (slave d) local value |>, true)
  | None =>
      match page_target port with
      | Some (Master, ci) =>
          (d <| master := with_channel (master d) ci (fun c => c <| page := value |>) |>, true)
      | Some (Slave, ci) =>
          (d <| slave := with_channel (slave d) ci (fun c => c <| page := value |>) |>, true)
      | None =>
          if port =? 143 then (d <| refresh_page := value |>, true)
          else if is_scratch_page port then
            (d <| page_scratch := <[Z.to_nat (Z.land port 15) := value]> (page_scratch d) |>, true)
          else (d, false)
      end
  end.

Definition read_port (d : DmaController) (port : Z) : DmaController * option Z :=
  if port <=? 15 then
    let '(p, v) := read_local (master d) port in (d <| master := p |>, v)
  else match slave_local port with
  | Some local => let '(p, v) := read_local (slave d) local in (d <| slave := p |>, v)
  | None =>
      match page_target port with
      | Some (Master, ci) =>
          (d <| master := index (master d) ci |>, Some (page (channel (master d) ci)))
      | Some (Slave, ci) =>
          (d <| slave := index (slave d) ci |>, Some (page (channel (slave d) ci)))
      | None =>
          if port =? 143 then (d, Some (refresh_page d))
          else if is_scratch_page port then (d, page_scratch d !! Z.to_nat (Z.land port 15))
          else (d, None)
      end
  end.

(** [dma] is the profile's [dma] flag. *)
Definition read_port_timed (d : DmaController) (port now_ticks : Z) (dma : bool)
    : DmaController * option Z :=
  if negb dma then read_port d port
  else if port <=? 15 then
    match count_channel port with
    | Some ci =>
        let '(p, v) := read_count_timed (master d) ci now_ticks in (d <| master := p |>, Some v)
    | None => read_port d port
    end
  else
    match slave_local port with
    | Some local =>
        match count_channel local with
        | Some ci =>
            let '(p, v) := read_count_timed (slave d) ci now_ticks in (d <| slave := p |>, Some v)
        | None => read_port d port
        end
    | None => read_port d port
    end.

Definition arm_transfer_window (d : DmaController) (ch : nat) (now_ticks deadline : Z)
    : DmaController :=
  if (ch <? 4)%nat then
    d <| master := with_channel (master d) ch (fun c => Channel.arm_transfer_window c now_ticks deadline) |>
  else
    d <| slave := with_channel (slave d) (ch - 4)
                    (fun c => Channel.arm_transfer_window c now_ticks deadline) |>.

(** A device's request, grant and transfer: the body shared by the transfer methods. *)
Definition device_cycle {A} (d : DmaController) (ch : nat) (m : Memory) (op : Transfer A)
    : DmaController * Memory * option A :=
  if (ch <? 4)%nat then
    let p := set_hardware_request (master d) ch true in
    let '(p, m, r) := cycle p ch m op in
    (d <| master := set_hardware_request p ch false |>, m, r)
  else
    let local := (ch - 4)%nat in
    let p := set_hardware_request (slave d) local true in
    let '(p, m, r) := cycle p local m op in
    (d <| slave := set_hardware_request p local false |>, m, r).

Definition read_byte d ch m := device_cycle d ch m Channel.read_byte.
Definition read_word (d : DmaController) (ch : nat) (m : Memory) :=
  if (ch <? 4)%nat then (d, m, None) else device_cycle d ch m Channel.read_word.
Definition write_byte d ch m byte := device_cycle d ch m (Channel.write_byte byte).
Definition pull_byte d ch m := read_byte d ch m.

Definition at_terminal_count (d : DmaController) (ch : nat) : bool :=
  if (ch <? 4)%nat then reached_tc (channel (master d) ch)
  else reached_tc (channel (slave d) (ch - 4)).

Definition mem_to_mem (d : DmaController) (m : Memory)
    : option (DmaController * Memory * option Z) :=
  r ← Chip.mem_to_mem (master d) m;
  let '(p, m, copied) := r in Some (d <| master := p |>, m, copied).

Definition mem_to_mem_request_armed (d : DmaController) : bool :=
  Chip.mem_to_mem_request_armed (master d).

(* ------------------------------------------------------------------ *)
(** ** Canonical state *)

Definition effective_command (p : DmaChip) (is_master : bool) : Z :=
  let disabled := Z.land (command p) 4 in
  if negb is_master then disabled
  else
    let m2m := Z.land (command p) 1 in
    let address_hold := if negb (m2m =? 0) then Z.land (command p) 2 else 0 in
    Z.lor (Z.lor disabled m2m) address_hold.

Definition write_canonical_dma_channel {Alloc : Allocator} (c : DmaChannel) : FW :=
  Canonical.write_u16 (base_addr c) >> Canonical.write_u16 (cur_addr c) >> Canonical.write_u16 (base_count c) >>
  Canonical.write_u16 (cur_count c) >> Canonical.write_u8 (page c) >> write_bool (addr_decrement c) >>
  write_bool (auto_init c) >> Canonical.write_u8 (transfer_kind c) >> Canonical.write_u8 (transfer_mode c) >>
  write_bool (mask c) >> write_bool (reached_tc c) >> write_bool (dreq c) >>
  write_bool (active c).

Definition write_canonical_dma_chip {Alloc : Allocator} (p : DmaChip) (is_master : bool) : FW :=
  write_bool (hi_lo p) >> Canonical.write_u8 (effective_command p is_master) >>
  Canonical.write_u8 (Z.land (status p) 15) >> Canonical.write_u8 (Z.land (request_reg p) 15) >>
  fw_each write_canonical_dma_channel (channels p).

Definition write_dma_payload {Alloc : Allocator} (d : DmaController) : FW :=
  write_canonical_dma_chip (master d) true >> write_canonical_dma_chip (slave d) false >>
  fw_each (fun port => Canonical.write_u8 (page_scratch d !!! Z.to_nat (Z.land port 15)))
    [132; 133; 134; 136; 140; 141; 142] >>
  Canonical.write_u8 (refresh_page d).

Definition write_event_totals {Alloc : Allocator} (d : DmaController) : FW :=
  fw_each (fun p => fw_each (fun c => write_u64 (transfer_cycles c)) (channels p))
    [master d; slave d].

(* ------------------------------------------------------------------ *)
(** ** Well-formed controllers and channel access *)

Definition channel_wf (c : DmaChannel) : Prop :=
  u16 (base_addr c) /\ u16 (cur_addr c) /\ u16 (base_count c) /\ u16 (cur_count c) /\ u8 (page c).

Definition chip_wf (p : DmaChip) : Prop := length (channels p) = 4%nat /\ Forall channel_wf (channels p).

Definition wf (d : DmaController) : Prop := chip_wf (master d) /\ chip_wf (slave d).

(** The chip and the local index that serve global channel [ch]. *)
Definition chip_of (d : DmaController) (ch : nat) : DmaChip :=
  if (ch <? 4)%nat then master d else slave d.
Definition local_of (ch : nat) : nat := if (ch <? 4)%nat then ch else (ch - 4)%nat.
Definition channel_of (d : DmaController) (ch : nat) : DmaChannel :=
  channel (chip_of d ch) (local_of ch).

Lemma local_of_lt ch : (ch < 8)%nat -> (local_of ch < 4)%nat.
Proof. unfold local_of. intros. destruct (Nat.ltb_spec ch 4); lia. Qed.

Lemma channel_index p ci cj : channel (index p ci) cj = channel p cj.
Proof. done. Qed.

Lemma channel_with_eq p ci f :
  (ci < length (channels p))%nat -> channel (with_channel p ci f) ci = f (channel p ci).
Proof. intros. unfold channel, with_channel; cbn. rewrite list_lookup_total_alter. by rewrite decide_True by done. Qed.

Lemma channel_with_ne p ci cj f : ci <> cj -> channel (with_channel p ci f) cj = channel p cj.
Proof. intros. unfold channel, with_channel; cbn. by rewrite list_lookup_total_alter_ne. Qed.

Lemma length_with p ci f : length (channels (with_channel p ci f)) = length (channels p).
Proof. cbn. apply length_alter. Qed.

(** One granted device cycle in closed form. *)
Definition granted (p : DmaChip) (ci : nat) : Prop :=
  controller_disabled p = false /\ mask (channel p ci) = false /\
  transfer_mode (channel p ci) <> 3.

(** What a completed device cycle leaves of the stepped channel. *)
Definition settle (c : DmaChannel) : DmaChannel :=
  c <| dreq := false |> <| active := (transfer_mode c =? 2) && negb (reached_tc c) |>.

Definition readable (c : DmaChannel) : Prop :=
  mask c = false /\ transfer_kind c = 2 /\ transfer_mode c <> 3.

Lemma step_transfer_mode c : transfer_mode (step_transfer c) = transfer_mode c.
Proof. unfold step_transfer. cbn. cases; done. Qed.

(** The step does not look at the request flags. *)
Lemma step_transfer_flags c t d a :
  step_transfer (c <| reached_tc := t |> <| dreq := d |> <| active := a |>) =
  (step_transfer c) <| dreq := d |> <| active := a |>.
Proof. unfold step_transfer. cbn. cases; done. Qed.


(** A chip with the other channels, the command and the shared registers of [p]. *)
Definition same_rest (p p' : DmaChip) (ci : nat) : Prop :=
  length (channels p') = length (channels p) /\ command p' = command p /\ hi_lo p' = hi_lo p /\
  forall cj, cj <> ci -> channel p' cj = channel p cj.

Lemma same_rest_with p ci f : same_rest p (with_channel p ci f) ci.
Proof. split_and!; [apply length_with|done|done|]. intros. by apply channel_with_ne. Qed.

Lemma same_rest_trans p q r ci : same_rest p q ci -> same_rest q r ci -> same_rest p r ci.
Proof.
  intros (? & ? & ? & Ha) (? & ? & ? & Hb). split_and!; try congruence. intros.
  by rewrite Hb, Ha.
Qed.

Lemma finish_cycle_rest p ci b : same_rest p (finish_cycle p ci b) ci.
Proof.
  unfold finish_cycle. cases; try apply same_rest_with; [|done].
  eapply same_rest_trans; [|apply same_rest_with]. done.
Qed.

Lemma finish_cycle_true p ci :
  (ci < length (channels p))%nat -> active (channel p ci) = true ->
  channel (finish_cycle p ci true) ci =
  (channel p ci) <| active := (transfer_mode (channel p ci) =? 2) && negb (reached_tc (channel p ci)) |>.
Proof.
  intros Hl Ha. unfold finish_cycle. cbn [negb].
  destruct (reached_tc (channel p ci)) eqn:Et.
  - rewrite channel_with_eq by done. cbn [negb]. by rewrite andb_false_r.
  - destruct (transfer_mode (channel p ci) =? 2) eqn:Em; cbn [negb andb].
    + rewrite channel_index. destruct (channel p ci); cbn in *. by subst.
    + by rewrite channel_with_eq.
Qed.

Lemma set_hardware_request_true p ci :
  set_hardware_request p ci true = with_channel p ci (fun c => c <| dreq := true |>).
Proof. done. Qed.

(** A device cycle on chip [p]: what the controller does on either side. *)
Definition chip_cycle {A} (p : DmaChip) (ci : nat) (m : Memory) (op : Transfer A) :=
  let '(p, m, r) := cycle (set_hardware_request p ci true) ci m op in
  (set_hardware_request p ci false, m, r).

Lemma device_cycle_chip {A} d ch m (op : Transfer A) d' m' r :
  device_cycle d ch m op = (d', m', r) ->
  chip_cycle (chip_of d ch) (local_of ch) m op = (chip_of d' ch, m', r) /\
  page_scratch d' = page_scratch d /\ refresh_page d' = refresh_page d /\
  if (ch <? 4)%nat then slave d' = slave d else master d' = master d.
Proof.
  unfold device_cycle, chip_cycle, chip_of, local_of.
  destruct (ch <? 4)%nat; destruct (cycle _ _ _ _) as [[? ?] ?]; intros [= <- <- <-]; done.
Qed.

(** The cycle is granted exactly when the controller is enabled and the channel is
    unmasked and not a cascade. *)
Lemma chip_cycle_granted {A} p ci m (op : Transfer A) :
  (ci < length (channels p))%nat -> granted p ci ->
  let c := (channel p ci) <| dreq := true |> <| reached_tc := false |> <| active := true |> in
  exists p1, same_rest p p1 ci /\ channel p1 ci = c /\
  chip_cycle p ci m op =
    (set_hardware_request
       (finish_cycle (with_channel p1 ci (fun _ => fst (fst (op c m)))) ci
          (match snd (op c m) with Some _ => true | None => false end)) ci false,
     snd (fst (op c m)), snd (op c m)).
Proof.
  intros Hl (Hd & Hm & Hk) c. unfold chip_cycle, cycle, begin_cycle.
  rewrite set_hardware_request_true. set (p0 := with_channel p ci _).
  assert (E0 : channel p0 ci = (channel p ci) <| dreq := true |>) by (by apply channel_with_eq).
  change (controller_disabled p0) with (controller_disabled p). unfold request_active.
  rewrite E0, Hd. cbn [mask transfer_mode dreq active update]. cbn [orb].
  rewrite Hm, (proj2 (Z.eqb_neq _ _) Hk). cbn [negb orb andb].
  set (p1 := with_channel p0 ci _). exists p1.
  assert (E1 : channel p1 ci = c).
  { unfold p1. rewrite channel_with_eq by (unfold p0; by rewrite length_with). by rewrite E0. }
  split_and!; [eapply same_rest_trans; apply same_rest_with|done|].
  rewrite E1. destruct (op c m) as [[c' m'] r]. done.
Qed.

Lemma set_request_false p ci :
  (ci < length (channels p))%nat ->
  channel (set_hardware_request p ci false) ci =
  (channel p ci) <| dreq := false |>
    <| active := (transfer_mode (channel p ci) =? 2) && active (channel p ci) |>.
Proof.
  intros. unfold set_hardware_request. rewrite channel_with_eq by done.
  cbn [negb andb]. destruct (channel p ci) as [? ? ? ? ? ? ? ? tm ? ? ? ? ? ?]; cbn.
  by destruct (tm =? 2).
Qed.

(** A granted cycle whose operation steps the channel. *)
Lemma chip_cycle_step {A} p ci m (op : Transfer A) m' r :
  (ci < length (channels p))%nat -> granted p ci ->
  (forall t d a, let c := (channel p ci) <| reached_tc := t |> <| dreq := d |> <| active := a |> in
     op c m = (step_transfer c, m', Some r)) ->
  exists p', chip_cycle p ci m op = (p', m', Some r) /\ same_rest p p' ci /\
    channel p' ci = settle (step_transfer (channel p ci)).
Proof.
  intros Hl Hg Hop. destruct (chip_cycle_granted p ci m op Hl Hg) as (p1 & Hr & Hc & ->).
  specialize (Hop false true true). cbn zeta in Hop.
  change ((channel p ci) <| reached_tc := false |> <| dreq := true |> <| active := true |>)
    with ((channel p ci) <| dreq := true |> <| reached_tc := false |> <| active := true |>) in Hop.
  rewrite Hop. cbn [fst snd]. eexists. split; [done|].
  assert (Hl1 : (ci < length (channels p1))%nat) by (by rewrite (proj1 Hr)).
  set (p2 := with_channel p1 ci _).
  assert (E2 : channel p2 ci =
    (step_transfer (channel p ci)) <| dreq := true |> <| active := true |>).
  { unfold p2. rewrite channel_with_eq by done. apply (step_transfer_flags (channel p ci)). }
  assert (Hl2 : (ci < length (channels p2))%nat) by (unfold p2; by rewrite length_with).
  split.
  - eapply same_rest_trans; [exact Hr|]. eapply same_rest_trans; [apply same_rest_with|].
    eapply same_rest_trans; [apply finish_cycle_rest|apply same_rest_with].
  - rewrite set_request_false by (by rewrite (proj1 (finish_cycle_rest p2 ci true))).
    rewrite finish_cycle_true, E2 by (by rewrite ?E2). unfold settle.
    destruct (step_transfer (channel p ci)); cbn. by destruct (transfer_mode0 =? 2).
Qed.

Lemma read_byte_step c m b :
  readable c -> read_u8 m (byte_address c) = Ok b ->
  forall t d a, let c' := c <| reached_tc := t |> <| dreq := d |> <| active := a |> in
    Channel.read_byte c' m = (step_transfer c', m, Some b).
Proof.
  intros (Hm & Hk & _) Hr t d a. unfold Channel.read_byte. cbn [mask transfer_kind update].
  rewrite Hm, Hk. cbn [orb negb]. unfold byte_address in *. cbn. by rewrite Hr.
Qed.

(** One byte read by a device on an enabled, readable channel. *)
Lemma read_byte_device d ch m b :
  (ch < 8)%nat -> length (channels (master d)) = 4%nat -> length (channels (slave d)) = 4%nat ->
  controller_disabled (chip_of d ch) = false -> readable (channel_of d ch) ->
  read_u8 m (byte_address (channel_of d ch)) = Ok b ->
  exists d', read_byte d ch m = (d', m, Some b) /\
    channel_of d' ch = settle (step_transfer (channel_of d ch)) /\
    length (channels (master d')) = 4%nat /\ length (channels (slave d')) = 4%nat /\
    controller_disabled (chip_of d' ch) = false.
Proof.
  intros Hch Hlm Hls Hd Hrd Hb. unfold read_byte.
  destruct (device_cycle d ch m Channel.read_byte) as [[d' m'] r] eqn:E.
  apply device_cycle_chip in E as (E & _ & _ & Hother).
  assert (Hlen : length (channels (chip_of d ch)) = 4%nat)
    by (unfold chip_of; by destruct (ch <? 4)%nat).
  destruct (chip_cycle_step (chip_of d ch) (local_of ch) m Channel.read_byte m b)
    as (p' & E' & (Hl' & Hc' & _) & Hch').
  { rewrite Hlen. by apply local_of_lt. }
  { destruct Hrd as (? & ? & ?). done. }
  { by apply read_byte_step. }
  rewrite E in E'. injection E' as <- <- <-. exists d'. split; [done|]. split; [done|].
  split_and!; unfold chip_of in *; destruct (ch <? 4)%nat; cbn in *; try congruence;
    unfold controller_disabled in *; by rewrite Hc'.
Qed.

(** A cycle that is not granted touches neither the memory nor the channel's
    programming. *)
Lemma chip_cycle_denied {A} p ci m (op : Transfer A) :
  (ci < length (channels p))%nat ->
  controller_disabled p = true \/ mask (channel p ci) = true \/ transfer_mode (channel p ci) = 3 ->
  exists p', chip_cycle p ci m op = (p', m, None) /\ same_rest p p' ci /\
    exists a, channel p' ci = (channel p ci) <| dreq := false |> <| active := a |>.
Proof.
  intros Hl Hden. unfold chip_cycle, cycle, begin_cycle. rewrite set_hardware_request_true.
  set (p0 := with_channel p ci _).
  assert (E0 : channel p0 ci = (channel p ci) <| dreq := true |>) by (by apply channel_with_eq).
  rewrite E0. change (controller_disabled p0) with (controller_disabled p).
  cbn [mask transfer_mode update].
  assert (controller_disabled p || mask (channel p ci) || (transfer_mode (channel p ci) =? 3) = true)
    as ->.
  { destruct Hden as [-> | [-> | ->]]; cbn; by rewrite ?orb_true_r. }
  cbn [orb negb]. eexists. split; [done|].
  assert (Hr : same_rest p (index p0 ci) ci) by exact (same_rest_with p ci _). split.
  - eapply same_rest_trans; [exact Hr|apply same_rest_with].
  - rewrite set_request_false by (by rewrite (proj1 Hr)). rewrite channel_index, E0. cbn. by eexists.
Qed.

Lemma device_lengths d d' ch p' :
  length (channels (master d)) = 4%nat -> length (channels (slave d)) = 4%nat ->
  p' = chip_of d' ch -> length (channels p') = length (channels (chip_of d ch)) ->
  (if (ch <? 4)%nat then slave d' = slave d else master d' = master d) ->
  length (channels (master d')) = 4%nat /\ length (channels (slave d')) = 4%nat.
Proof.
  unfold chip_of. intros Hm Hs -> Hl Ho. by destruct (ch <? 4)%nat; rewrite Hl, Ho.
Qed.

Lemma read_byte_masked d ch m :
  (ch < 8)%nat -> length (channels (master d)) = 4%nat -> length (channels (slave d)) = 4%nat ->
  mask (channel_of d ch) = true ->
  exists d', read_byte d ch m = (d', m, None) /\ mask (channel_of d' ch) = true /\
    length (channels (master d')) = 4%nat /\ length (channels (slave d')) = 4%nat.
Proof.
  intros Hch Hlm Hls Hmask. unfold read_byte.
  destruct (device_cycle d ch m Channel.read_byte) as [[d' m'] r] eqn:E.
  apply device_cycle_chip in E as (E & _ & _ & Hother).
  destruct (chip_cycle_denied (chip_of d ch) (local_of ch) m Channel.read_byte)
    as (p' & E' & (Hl' & _) & a & Hc).
  { pose proof (local_of_lt ch Hch). unfold chip_of. destruct (ch <? 4)%nat; lia. }
  { right. by left. }
  rewrite E in E'. injection E' as <- <- <-. exists d'. split; [done|]. split.
  - unfold channel_of. rewrite Hc. done.
  - by eapply device_lengths.
Qed.

(* ------------------------------------------------------------------ *)
(** ** Blocks *)

(** The address of the [k]th transfer of the block the channel is programmed for. *)
Definition moved (c : DmaChannel) (k : Z) : Z :=
  wrap 16 (if addr_decrement c then cur_addr c - k else cur_addr c + k).
Definition data_address (c : DmaChannel) (k : Z) : Z := Z.lor (Z.shiftl (page c) 16) (moved c k).

(** [c] is the channel [c0] after [j] transfers within a block. *)
Definition at_position (c0 c : DmaChannel) (j : Z) : Prop :=
  page c = page c0 /\ addr_decrement c = addr_decrement c0 /\ auto_init c = auto_init c0 /\
  base_addr c = base_addr c0 /\ base_count c = base_count c0 /\ readable c /\
  cur_addr c = moved c0 j /\ cur_count c = cur_count c0 - j.

Lemma at_position_start c : readable c -> channel_wf c -> at_position c c 0.
Proof.
  intros Hr (_ & Ha & _). unfold at_position, moved. split_and!; try done; [|lia].
  destruct (addr_decrement c); rewrite wrap_id; rewrite ?Z.sub_0_r, ?Z.add_0_r; done.
Qed.

Lemma at_position_address c0 c j : at_position c0 c j -> byte_address c = data_address c0 j.
Proof. intros (Hp & _ & _ & _ & _ & _ & Ha & _). unfold byte_address. by rewrite Hp, Ha. Qed.

Lemma moved_next c0 c j :
  addr_decrement c = addr_decrement c0 -> cur_addr c = moved c0 j -> moved c 1 = moved c0 (j + 1).
Proof.
  intros Hd Ha. unfold moved at 1. rewrite Hd, Ha. unfold moved, wrap. destruct (addr_decrement c0).
  - rewrite Zminus_mod_idemp_l. f_equal. lia.
  - rewrite Zplus_mod_idemp_l. f_equal. lia.
Qed.

Lemma step_within c0 c j :
  u16 (cur_count c0) -> 0 <= j < cur_count c0 -> at_position c0 c j ->
  at_position c0 (settle (step_transfer c)) (j + 1) /\ reached_tc (settle (step_transfer c)) = false.
Proof.
  intros Hc Hj (Hp & Hd & Hau & Hba & Hbc & Hr & Ha & Hco).
  pose proof (moved_next c0 c j Hd Ha) as Hn. unfold moved in Hn at 1.
  assert (E0 : (cur_count c =? 0) = false) by (apply Z.eqb_neq; lia).
  unfold at_position, settle, step_transfer. cbn. rewrite E0. cbn. unfold readable; cbn.
  split_and!; try done; try apply Hr. rewrite Hco, wrap_id by zlia. lia.
Qed.

Lemma step_last c0 c :
  u16 (cur_count c0) -> at_position c0 c (cur_count c0) ->
  let c' := settle (step_transfer c) in
  reached_tc c' = true /\
  if auto_init c0 then
    page c' = page c0 /\ addr_decrement c' = addr_decrement c0 /\ auto_init c' = auto_init c0 /\
    base_addr c' = base_addr c0 /\ base_count c' = base_count c0 /\ readable c' /\
    cur_addr c' = base_addr c0 /\ cur_count c' = base_count c0
  else mask c' = true.
Proof.
  intros Hc (Hp & Hd & Hau & Hba & Hbc & Hr & Ha & Hco).
  assert (E0 : (cur_count c =? 0) = true) by (apply Z.eqb_eq; lia).
  unfold settle, step_transfer. cbn. rewrite E0. cbn. rewrite Hau.
  destruct (auto_init c0); cbn; [|done]. unfold readable; cbn. split_and!; try done; apply Hr.
Qed.

(** [n] reads by the device on channel [ch]. *)
Fixpoint reads (n : nat) (d : DmaController) (ch : nat) (m : Memory)
    : DmaController * list (option Z) :=
  match n with
  | O => (d, [])
  | S n =>
      let '(d, _, r) := read_byte d ch m in
      let '(d, rs) := reads n d ch m in (d, r :: rs)
  end.

Definition byte_at (m : Memory) (a : Z) : option Z :=
  match read_u8 m a with Ok b => Some b | Err _ => None end.

Lemma reads_app n k d ch m :
  snd (reads (n + k) d ch m) =
  snd (reads n d ch m) ++ snd (reads k (fst (reads n d ch m)) ch m) /\
  fst (reads (n + k) d ch m) = fst (reads k (fst (reads n d ch m)) ch m).
Proof.
  revert d. induction n as [|n IH]; intros d; [done|]. cbn [Nat.add reads].
  destruct (read_byte d ch m) as [[d1 m1] r]. destruct (IH d1) as [E1 E2].
  destruct (reads (n + k) d1 ch m), (reads n d1 ch m). cbn [fst snd] in *. by rewrite E1, E2.
Qed.

(** The controller around an enabled channel that is [j] transfers into a block. *)
Definition reading (d : DmaController) (ch : nat) (c0 : DmaChannel) (j : Z) : Prop :=
  (ch < 8)%nat /\ length (channels (master d)) = 4%nat /\ length (channels (slave d)) = 4%nat /\
  controller_disabled (chip_of d ch) = false /\ at_position c0 (channel_of d ch) j.

Lemma read_step d ch m c0 j :
  reading d ch c0 j -> in_memory m (data_address c0 j) ->
  exists d' c', read_byte d ch m = (d', m, byte_at m (data_address c0 j)) /\
    channel_of d' ch = settle (step_transfer c') /\ at_position c0 c' j /\
    length (channels (master d')) = 4%nat /\ length (channels (slave d')) = 4%nat /\
    controller_disabled (chip_of d' ch) = false.
Proof.
  intros (Hch & Hm & Hs & Hd & Hpos) Hin. destruct (read_u8_in _ _ Hin) as [b Hb].
  destruct (read_byte_device d ch m b) as (d' & E & Hc & ? & ? & ?); try done.
  - apply Hpos.
  - by rewrite (at_position_address _ _ _ Hpos).
  - exists d', (channel_of d ch). unfold byte_at. by rewrite Hb.
Qed.

(** The transfers of a block up to position [n]. *)
Lemma reads_within m ch c0 n d :
  u16 (cur_count c0) -> Z.of_nat n <= cur_count c0 ->
  (forall k, 0 <= k <= cur_count c0 -> in_memory m (data_address c0 k)) ->
  reading d ch c0 0 ->
  snd (reads n d ch m) = (fun k => byte_at m (data_address c0 k)) <$> seqZ 0 (Z.of_nat n) /\
  reading (fst (reads n d ch m)) ch c0 (Z.of_nat n) /\
  (n <> O -> at_terminal_count (fst (reads n d ch m)) ch = false).
Proof.
  intros Hc Hn Hin Hd. induction n as [|n IH]; [done|].
  destruct IH as (IH1 & IH2 & _); [lia|].
  destruct (reads_app n 1 d ch m) as [E1 E2]. rewrite Nat.add_1_r in E1, E2.
  rewrite E1, E2, IH1. revert IH2. generalize (fst (reads n d ch m)) as d1. intros d1 Hd1.
  destruct (read_step d1 ch m c0 (Z.of_nat n) Hd1) as (d' & c' & Er & Hc' & Hpos & ? & ? & ?);
    [apply Hin; lia|].
  destruct (step_within c0 c' (Z.of_nat n) Hc) as [Hpos' Htc]; [lia|done|].
  cbn [reads]. rewrite Er. cbn [fst snd]. split_and!.
  - rewrite Nat2Z.inj_succ, <-Z.add_1_r, seqZ_app, fmap_app by lia. done.
  - split_and!; try done; [apply Hd1|]. rewrite Hc'. by rewrite Nat2Z.inj_succ, <-Z.add_1_r.
  - intros _. unfold at_terminal_count. revert Hc' Htc. unfold channel_of, chip_of, local_of.
    destruct (ch <? 4)%nat; by intros ->.
Qed.

(** The whole block: [count + 1] reads, the last of them at terminal count. *)
Lemma reads_block m ch c0 d :
  u16 (cur_count c0) ->
  (forall k, 0 <= k <= cur_count c0 -> in_memory m (data_address c0 k)) ->
  reading d ch c0 0 ->
  let n := Z.to_nat (cur_count c0 + 1) in
  let d' := fst (reads n d ch m) in
  snd (reads n d ch m) = (fun k => byte_at m (data_address c0 k)) <$> seqZ 0 (cur_count c0 + 1) /\
  at_terminal_count d' ch = true /\
  length (channels (master d')) = 4%nat /\ length (channels (slave d')) = 4%nat /\
  controller_disabled (chip_of d' ch) = false /\
  exists c, at_position c0 c (cur_count c0) /\ channel_of d' ch = settle (step_transfer c).
Proof.
  intros Hc Hin Hd. cbn zeta. set (n := Z.to_nat (cur_count c0)).
  assert (En : Z.of_nat n = cur_count c0) by zlia.
  replace (Z.to_nat (cur_count c0 + 1)) with (n + 1)%nat by zlia.
  destruct (reads_within m ch c0 n d) as (IH1 & IH2 & _); [done|lia|done|done|].
  rewrite En in IH1, IH2.
  destruct (reads_app n 1 d ch m) as [-> ->]. rewrite IH1. revert IH2.
  generalize (fst (reads n d ch m)) as d1. intros d1 Hd1.
  destruct (read_step d1 ch m c0 (cur_count c0) Hd1) as (d' & c' & Er & Hc' & Hpos & ? & ? & ?);
    [apply Hin; zlia|].
  destruct (step_last c0 c' Hc Hpos) as [Htc _]. cbn [reads]. rewrite Er. cbn [fst snd].
  split_and!; [|unfold at_terminal_count|done..|by exists c'].
  - rewrite seqZ_app, fmap_app by zlia. done.
  - revert Hc' Htc. unfold channel_of, chip_of, local_of. destruct (ch <? 4)%nat; by intros ->.
Qed.

Lemma reads_masked m ch k d :
  (ch < 8)%nat -> length (channels (master d)) = 4%nat -> length (channels (slave d)) = 4%nat ->
  mask (channel_of d ch) = true -> snd (reads k d ch m) = replicate k None.
Proof.
  revert d. induction k as [|k IH]; intros d Hch Hm Hs Hmask; [done|]. cbn [reads].
  destruct (read_byte_masked d ch m Hch Hm Hs Hmask) as (d' & -> & Hmask' & Hm' & Hs').
  specialize (IH d' Hch Hm' Hs' Hmask'). destruct (reads k d' ch m). cbn in *. by rewrite IH.
Qed.

Lemma chip_channel_wf p ci : chip_wf p -> (ci < 4)%nat -> channel_wf (channel p ci).
Proof.
  intros [Hl Hf] Hci. unfold channel. eapply Forall_lookup_total_1; [exact Hf|lia].
Qed.

Lemma channel_of_wf d ch : (ch < 8)%nat -> wf d -> channel_wf (channel_of d ch).
Proof.
  intros Hch [Hm Hs]. pose proof (local_of_lt ch Hch) as Hlt. unfold channel_of, chip_of.
  destruct (ch <? 4)%nat; by apply chip_channel_wf.
Qed.

(** C32.  A single-cycle block: a device reading an enabled channel programmed with
    count N, its block inside the guest's memory, gets exactly the N+1 bytes of the block, in address order modulo 64K
    within the page; terminal count is reported after the last of them and not
    before; and every further read gets nothing. *)
Theorem single_cycle_block d ch m extra :
  let c := channel_of d ch in
  (ch < 8)%nat -> wf d -> controller_disabled (chip_of d ch) = false -> readable c ->
  auto_init c = false ->
  (forall k, 0 <= k <= cur_count c -> in_memory m (data_address c k)) ->
  let n := Z.to_nat (cur_count c + 1) in
  snd (reads (n + extra) d ch m) =
    ((fun k => byte_at m (data_address c k)) <$> seqZ 0 (cur_count c + 1)) ++ replicate extra None /\
  at_terminal_count (fst (reads n d ch m)) ch = true /\
  (forall i, (0 < i < n)%nat -> at_terminal_count (fst (reads i d ch m)) ch = false).
Proof.
  intros c Hch Hwf Hd Hr Ha Hin.
  pose proof (channel_of_wf d ch Hch Hwf) as Hwc. fold c in Hwc.
  destruct Hwf as [[Hm _] [Hs _]]. cbn zeta.
  assert (Hc : u16 (cur_count c)) by apply Hwc.
  assert (Hd0 : reading d ch c 0) by (split_and!; try done; by apply at_position_start).
  destruct (reads_block m ch c d Hc Hin Hd0) as (E & Htc & Hm' & Hs' & _ & c' & Hpos & Ec').
  split_and!; [|done|].
  - destruct (reads_app (Z.to_nat (cur_count c + 1)) extra d ch m) as [-> _]. rewrite E. f_equal.
    apply reads_masked; try done. rewrite Ec'.
    destruct (step_last c c' Hc Hpos) as [_ Hmask]. by rewrite Ha in Hmask.
  - intros i Hi. apply (reads_within m ch c i d); [done|zlia|done|done|lia].
Qed.

(** Auto-initialization is a ring: a device that keeps reading an auto-init
    channel whose current registers equal its base registers gets the bytes of the
    block over and over, with period N+1, without software reprogramming it. *)
Theorem auto_init_ring d ch m rounds :
  let c := channel_of d ch in
  (ch < 8)%nat -> wf d -> controller_disabled (chip_of d ch) = false -> readable c ->
  auto_init c = true -> cur_addr c = base_addr c -> cur_count c = base_count c ->
  (forall k, 0 <= k <= cur_count c -> in_memory m (data_address c k)) ->
  snd (reads (rounds * Z.to_nat (cur_count c + 1)) d ch m) =
    concat (replicate rounds
      ((fun k => byte_at m (data_address c k)) <$> seqZ 0 (cur_count c + 1))).
Proof.
  intros c Hch Hwf Hd Hr Ha Eaddr Ecount Hin.
  pose proof (channel_of_wf d ch Hch Hwf) as Hwc. fold c in Hwc.
  destruct Hwf as [[Hm _] [Hs _]].
  assert (Hc : u16 (cur_count c)) by apply Hwc.
  assert (Hd0 : reading d ch c 0) by (split_and!; try done; by apply at_position_start).
  clearbody c. clear Hm Hs Hd Hch. revert d Hd0.
  induction rounds as [|rounds IH]; intros d Hd0; [done|].
  cbn [Nat.mul replicate concat].
  destruct (reads_app (Z.to_nat (cur_count c + 1)) (rounds * Z.to_nat (cur_count c + 1)) d ch m)
    as [-> _].
  destruct (reads_block m ch c d Hc Hin Hd0) as (-> & _ & Hm' & Hs' & Hd' & c' & Hpos & Ec').
  f_equal. apply IH. split_and!; [apply Hd0|done..|].
  destruct (step_last c c' Hc Hpos) as [_ Hl]. rewrite Ha in Hl. rewrite Ec'.
  destruct Hl as (? & ? & ? & ? & ? & ? & Hca & Hcc).
  destruct (at_position_start c Hr Hwc) as (_ & _ & _ & _ & _ & _ & E0 & _).
  split_and!; try done; [by rewrite Ha|by rewrite Hca, <-E0|by rewrite Hcc, Z.sub_0_r].
Qed.

(** Channel 2 programmed through the ports for the four bytes at 1234h: page 0,
    increment, single mode, read; [mode] selects auto-init. *)
Definition programmed (mode : Z) : DmaController :=
  fold_left (fun d w => fst (write_port d (fst w) (snd w)))
    [(12, 0); (4, 4); (4, 0); (5, 3); (5, 0); (129, 0); (11, mode); (10, 2)] default.

Definition small_memory : Memory := mkMemory [0; 1; 2; 3; 40; 50; 60; 70; 8; 9].

Lemma small_block mode k :
  0 <= k <= 3 -> addr_decrement (channel_of (programmed mode) 2) = false ->
  cur_addr (channel_of (programmed mode) 2) = 4 -> page (channel_of (programmed mode) 2) = 0 ->
  in_memory small_memory (data_address (channel_of (programmed mode) 2) k).
Proof.
  intros Hk Hd Ha Hp. unfold data_address, moved. rewrite Hd, Ha, Hp, wrap_id by zlia.
  unfold in_memory. vm_compute (memory_len _). rewrite Z.shiftl_0_l, Z.lor_0_l. lia.
Qed.

(** Evaluates a concrete channel array. *)
Ltac eval_channels :=
  match goal with
  | |- Forall _ ?l =>
      let v := eval vm_compute in l in
      replace l with v by (vm_compute; reflexivity);
      repeat constructor; unfold in_width; cbn; lia
  end.

Lemma programmed_wf mode : In mode [70; 74; 90] -> wf (programmed mode).
Proof.
  intros [<-|[<-|[<-|[]]]]; split; (split; [vm_compute; reflexivity|eval_channels]).
Qed.

Lemma single_cycle_block_witness :
  snd (reads (4 + 2) (programmed 74) 2 small_memory) =
    [Some 40; Some 50; Some 60; Some 70; None; None] /\
  snd (reads (4 + 2) (programmed 74) 2 small_memory) =
    ((fun k => byte_at small_memory (data_address (channel_of (programmed 74) 2) k))
       <$> seqZ 0 4) ++ replicate 2 None.
Proof.
  split; [vm_compute; reflexivity|].
  apply (single_cycle_block (programmed 74) 2 small_memory 2).
  - lia.
  - apply programmed_wf. cbn. tauto.
  - reflexivity.
  - unfold readable. vm_compute. intuition congruence.
  - reflexivity.
  - intros k Hk. apply (small_block 74); [exact Hk|reflexivity..].
Defined.

Lemma auto_init_ring_witness :
  snd (reads (2 * 4) (programmed 90) 2 small_memory) =
    [Some 40; Some 50; Some 60; Some 70; Some 40; Some 50; Some 60; Some 70] /\
  snd (reads (2 * 4) (programmed 90) 2 small_memory) =
    concat (replicate 2
      ((fun k => byte_at small_memory (data_address (channel_of (programmed 90) 2) k))
         <$> seqZ 0 4)).
Proof.
  split; [vm_compute; reflexivity|].
  apply (auto_init_ring (programmed 90) 2 small_memory 2).
  - lia.
  - apply programmed_wf. cbn. tauto.
  - reflexivity.
  - unfold readable. vm_compute. intuition congruence.
  - reflexivity.
  - reflexivity.
  - reflexivity.
  - intros k Hk. apply (small_block 90); [exact Hk|reflexivity..].
Defined.

(* ------------------------------------------------------------------ *)
(** ** Memory safety *)

(** The address and width a device write of channel [c] may touch. *)
Definition may_write (d : DmaController) (ch : nat) (a : Z) : Prop :=
  controller_disabled (chip_of d ch) = false /\ mask (channel_of d ch) = false /\
  transfer_mode (channel_of d ch) <> 3 /\ transfer_kind (channel_of d ch) = 1 /\
  a = byte_address (channel_of d ch).

Lemma write_byte_cases c m byte c' m' r :
  Channel.write_byte byte c m = (c', m', r) ->
  r = None /\ m' = m \/
  r = Some (byte_address c) /\ mask c = false /\ transfer_kind c = 1 /\
    write_u8 m (byte_address c) byte = Ok m'.
Proof.
  unfold Channel.write_byte. destruct (mask c) eqn:Em; cbn [orb]; [intros E; injection E; auto|].
  destruct (Z.eqb_spec (transfer_kind c) 1); cbn [negb]; [|intros E; injection E; auto].
  destruct (write_u8 m (byte_address c) byte); rewrite !pair_equal_spec; intros [[_ <-] <-]; auto.
Qed.

Lemma chip_cycle_memory {A} p ci m (op : Transfer A) :
  (ci < length (channels p))%nat -> granted p ci ->
  let c := (channel p ci) <| dreq := true |> <| reached_tc := false |> <| active := true |> in
  exists p', chip_cycle p ci m op = (p', snd (fst (op c m)), snd (op c m)).
Proof.
  intros Hl Hg c. destruct (chip_cycle_granted p ci m op Hl Hg) as (p1 & _ & _ & ->). by eexists.
Qed.

Lemma byte_address_nonneg c : channel_wf c -> 0 <= byte_address c.
Proof.
  intros (_ & ? & _ & _ & ?). apply Z.lor_nonneg. split; [apply Z.shiftl_nonneg|]; zlia.
Qed.

(** DMA isolation: a device write changes at most the one byte the channel
    addresses, and only when the controller is enabled and the channel unmasked,
    not a cascade and programmed for writes; the address reported for code-cache
    invalidation is the byte that was written. *)
Theorem device_write_isolated d ch m byte d' m' r a :
  (ch < 8)%nat -> wf d -> write_byte d ch m byte = (d', m', r) -> 0 <= a ->
  memory_len m' = memory_len m /\
  (r = None -> m' = m) /\
  (forall a', r = Some a' -> may_write d ch a' /\ read_u8 m' a' = Ok byte) /\
  (read_u8 m' a <> read_u8 m a -> r = Some a).
Proof.
  intros Hch Hwf E Ha. pose proof (byte_address_nonneg _ (channel_of_wf d ch Hch Hwf)) as Hpos.
  destruct Hwf as [[Hm _] [Hs _]]. unfold write_byte in E. apply device_cycle_chip in E as (E & _).
  assert (Hl : (local_of ch < length (channels (chip_of d ch)))%nat).
  { pose proof (local_of_lt ch Hch). unfold chip_of. destruct (ch <? 4)%nat; lia. }
  destruct (decide (granted (chip_of d ch) (local_of ch))) as [Hg|Hg].
  - destruct (chip_cycle_memory _ _ m (Channel.write_byte byte) Hl Hg) as (p' & E').
    rewrite E in E'. destruct (Channel.write_byte byte _ m) as [[c1 m1] r1] eqn:Eop.
    cbn [fst snd] in E'. apply pair_equal_spec in E' as [[_ <-]%pair_equal_spec <-].
    apply write_byte_cases in Eop as [[-> ->]|(-> & Hmask & Hk & Hw)]; [done|].
    change (byte_address _) with (byte_address (channel_of d ch)) in *.
    destruct Hg as (Hd & Hmask' & Hmode).
    split_and!; [by eapply write_u8_len|done| |].
    + intros a' [= <-]. split; [by split_and!|].
      by rewrite (read_write _ _ _ _ _ Hpos Hpos Hw), Z.eqb_refl.
    + rewrite (read_write _ _ _ _ _ Hpos Ha Hw).
      destruct (Z.eqb_spec a (byte_address (channel_of d ch))); [by subst|done].
  - destruct (chip_cycle_denied (chip_of d ch) (local_of ch) m (Channel.write_byte byte) Hl)
      as (p' & E' & _).
    { unfold granted in Hg. destruct (controller_disabled (chip_of d ch)); [by left|right].
      destruct (mask (channel (chip_of d ch) (local_of ch))); [by left|right].
      destruct (decide (transfer_mode (channel (chip_of d ch) (local_of ch)) = 3)); [done|].
      by destruct Hg. }
    rewrite E, !pair_equal_spec in E'. destruct E' as [[_ ->] ->]. done.
Qed.

Lemma device_write_isolated_witness :
  let '(d', m', r) := write_byte (programmed 70) 2 small_memory 99 in
  r = Some 4 /\ memory_len m' = memory_len small_memory /\
  (read_u8 m' 5 <> read_u8 small_memory 5 -> r = Some 5).
Proof.
  destruct (write_byte (programmed 70) 2 small_memory 99) as [[d' m'] r] eqn:E.
  assert (H0 : (2 < 8)%nat) by lia. assert (H1 : 0 <= 5) by lia.
  assert (H2 : wf (programmed 70)) by (apply programmed_wf; cbn; tauto).
  pose proof (device_write_isolated _ _ _ _ _ _ _ 5 H0 H2 E H1) as (Hl & _ & _ & Hr).
  split; [|split; [exact Hl|exact Hr]].
  vm_compute in E. injection E as _ _ <-. reflexivity.
Defined.

(* ------------------------------------------------------------------ *)
(** ** Programming through the ports *)

Definition writes (d : DmaController) (ws : list (Z * Z)) : DmaController :=
  fold_left (fun d w => fst (write_port d (fst w) (snd w))) ws d.

(** The address and count ports of channel [ch], and the flip-flop reset port of
    its chip. *)
Definition addr_port (ch : nat) : Z :=
  if (ch <? 4)%nat then 2 * Z.of_nat ch else 192 + 4 * (Z.of_nat ch - 4).
Definition count_port (ch : nat) : Z :=
  if (ch <? 4)%nat then 2 * Z.of_nat ch + 1 else 192 + 4 * (Z.of_nat ch - 4) + 2.
Definition clear_port (ch : nat) : Z := if (ch <? 4)%nat then 12 else 216.

Lemma load_bytes old lo hi :
  u8 lo -> u8 hi -> load_byte true (load_byte false old lo) hi = le_value [lo; hi].
Proof.
  intros Hlo Hhi. cbn [load_byte negb le_value].
  replace (lo + 256 * (hi + 256 * 0)) with (Z.lor lo (Z.shiftl hi 8))
    by (rewrite lor_shiftl by (lia || done); lia).
  rewrite (wrap_id 16 (Z.shiftl hi 8)).
  2: { rewrite Z.shiftl_mul_pow2 by lia. zlia. }
  f_equal. apply Z.bits_inj'. intros n Hn. rewrite !Z.land_spec, Z.lor_spec, Z.land_spec.
  change 255 with (Z.ones 8). change 65280 with (Z.shiftl (Z.ones 8) 8).
  destruct (Z.lt_ge_cases n 8).
  - rewrite Z.shiftl_spec_low, andb_false_r, Z.ones_spec_low, andb_true_r by lia. done.
  - rewrite Z.ones_spec_high, andb_false_r by lia. by rewrite (testbit_high 8 lo) by (lia || done).
Qed.

Definition on_chip (d : DmaController) (ch : nat) (f : DmaChip -> DmaChip) : DmaController :=
  if (ch <? 4)%nat then d <| master := f (master d) |> else d <| slave := f (slave d) |>.

Ltac eight ch := do 8 (destruct ch as [|ch]; [reflexivity|]); lia.

Lemma write_addr_port d ch v :
  (ch < 8)%nat ->
  fst (write_port d (addr_port ch) v) = on_chip d ch (fun p => write_addr p (local_of ch) v).
Proof. intros. eight ch. Qed.

Lemma write_count_port d ch v :
  (ch < 8)%nat ->
  fst (write_port d (count_port ch) v) = on_chip d ch (fun p => write_count p (local_of ch) v).
Proof. intros. eight ch. Qed.

Lemma write_clear_port d ch v :
  (ch < 8)%nat ->
  fst (write_port d (clear_port ch) v) = on_chip d ch (fun p => p <| hi_lo := false |>).
Proof. intros. eight ch. Qed.

Lemma read_addr_port d ch :
  (ch < 8)%nat ->
  read_port d (addr_port ch) =
  (on_chip d ch (fun p => fst (read_addr p (local_of ch))),
   Some (snd (read_addr (chip_of d ch) (local_of ch)))).
Proof. intros. eight ch. Qed.

Lemma read_count_port d ch :
  (ch < 8)%nat ->
  read_port d (count_port ch) =
  (on_chip d ch (fun p => fst (read_count p (local_of ch))),
   Some (snd (read_count (chip_of d ch) (local_of ch)))).
Proof. intros. eight ch. Qed.

Lemma chip_of_on d ch f : chip_of (on_chip d ch f) ch = f (chip_of d ch).
Proof. unfold chip_of, on_chip. by destruct (ch <? 4)%nat. Qed.

(** The channels other than [ch] after an operation on its chip that leaves the
    other local channels alone. *)
Lemma channel_of_on d ch ch' f :
  (ch < 8)%nat -> (ch' < 8)%nat -> ch' <> ch ->
  (forall p cj, cj <> local_of ch -> channel (f p) cj = channel p cj) ->
  channel_of (on_chip d ch f) ch' = channel_of d ch'.
Proof.
  intros H1 H2 Hne Hf. unfold channel_of, chip_of, on_chip.
  destruct (Nat.ltb_spec ch 4), (Nat.ltb_spec ch' 4); cbn; try done; apply Hf;
    unfold local_of; destruct (Nat.ltb_spec ch 4), (Nat.ltb_spec ch' 4); lia.
Qed.

Lemma on_chip_compose d ch f g : on_chip (on_chip d ch f) ch g = on_chip d ch (g ∘ f).
Proof. unfold on_chip. by destruct (ch <? 4)%nat. Qed.

(** What the five programming writes do to the chip. *)
Definition program (ci : nat) (lo hi clo chi : Z) (p : DmaChip) : DmaChip :=
  write_count (write_count (write_addr (write_addr (p <| hi_lo := false |>) ci lo) ci hi) ci clo) ci chi.

Lemma write_addr_channel p ci v :
  (ci < length (channels p))%nat ->
  channel (write_addr p ci v) ci =
  (channel p ci) <| base_addr := load_byte (hi_lo p) (base_addr (channel p ci)) v |>
                 <| cur_addr := load_byte (hi_lo p) (base_addr (channel p ci)) v |>.
Proof. intros. by apply (channel_with_eq p ci). Qed.

Lemma write_count_channel p ci v :
  (ci < length (channels p))%nat ->
  channel (write_count p ci v) ci =
  (channel p ci) <| base_count := load_byte (hi_lo p) (base_count (channel p ci)) v |>
                 <| cur_count := load_byte (hi_lo p) (base_count (channel p ci)) v |>
                 <| reached_tc := false |> <| transfer_window := None |>.
Proof.
  intros Hl. unfold write_count. set (p1 := with_channel p ci _).
  change (channel ((with_channel (p1 <| status := _ |>) ci ?f) <| hi_lo := _ |>) ci)
    with (channel (with_channel p1 ci f) ci).
  rewrite channel_with_eq by (unfold p1; by rewrite length_with).
  unfold p1. by rewrite channel_with_eq.
Qed.

Lemma write_addr_rest p ci v cj : cj <> ci -> channel (write_addr p ci v) cj = channel p cj.
Proof. intros. by apply (channel_with_ne p ci cj). Qed.

Lemma write_count_rest p ci v cj : cj <> ci -> channel (write_count p ci v) cj = channel p cj.
Proof.
  intros. unfold write_count. set (p1 := with_channel p ci _).
  change (channel ((with_channel (p1 <| status := _ |>) ci ?f) <| hi_lo := _ |>) cj)
    with (channel (with_channel p1 ci f) cj).
  rewrite channel_with_ne by done. by apply channel_with_ne.
Qed.

Lemma length_write_addr p ci v : length (channels (write_addr p ci v)) = length (channels p).
Proof. apply length_with. Qed.
Lemma length_write_count p ci v : length (channels (write_count p ci v)) = length (channels p).
Proof. cbn. by rewrite !length_alter. Qed.

(** Both writes, as what they do to an opaque chip. *)
Lemma write_addr_effect p ci v :
  (ci < length (channels p))%nat ->
  exists p', write_addr p ci v = p' /\ length (channels p') = length (channels p) /\
    hi_lo p' = negb (hi_lo p) /\
    channel p' ci = (channel p ci)
      <| base_addr := load_byte (hi_lo p) (base_addr (channel p ci)) v |>
      <| cur_addr := load_byte (hi_lo p) (base_addr (channel p ci)) v |> /\
    forall cj, cj <> ci -> channel p' cj = channel p cj.
Proof.
  intros. eexists. split; [done|].
  split_and!; [apply length_write_addr|done|by apply write_addr_channel|].
  intros. by apply write_addr_rest.
Qed.

Lemma write_count_effect p ci v :
  (ci < length (channels p))%nat ->
  exists p', write_count p ci v = p' /\ length (channels p') = length (channels p) /\
    hi_lo p' = negb (hi_lo p) /\
    channel p' ci = (channel p ci)
      <| base_count := load_byte (hi_lo p) (base_count (channel p ci)) v |>
      <| cur_count := load_byte (hi_lo p) (base_count (channel p ci)) v |>
      <| reached_tc := false |> <| transfer_window := None |> /\
    forall cj, cj <> ci -> channel p' cj = channel p cj.
Proof.
  intros. eexists. split; [done|].
  split_and!; [apply length_write_count|done|by apply write_count_channel|].
  intros. by apply write_count_rest.
Qed.

Lemma program_channel p ci lo hi clo chi :
  (ci < length (channels p))%nat -> u8 lo -> u8 hi -> u8 clo -> u8 chi ->
  channel (program ci lo hi clo chi p) ci =
    (channel p ci) <| base_addr := le_value [lo; hi] |> <| cur_addr := le_value [lo; hi] |>
      <| base_count := le_value [clo; chi] |> <| cur_count := le_value [clo; chi] |>
      <| reached_tc := false |> <| transfer_window := None |> /\
  hi_lo (program ci lo hi clo chi p) = false /\
  forall cj, cj <> ci -> channel (program ci lo hi clo chi p) cj = channel p cj.
Proof.
  intros Hl Hlo Hhi Hclo Hchi. unfold program.
  assert (exists p0, p <| hi_lo := false |> = p0 /\ length (channels p0) = length (channels p) /\
    hi_lo p0 = false /\ forall cj, channel p0 cj = channel p cj)
    as (p0 & -> & L0 & F0 & R0) by by eexists.
  destruct (write_addr_effect p0 ci lo) as (p1 & -> & L1 & F1 & C1 & R1); [by rewrite L0|].
  destruct (write_addr_effect p1 ci hi) as (p2 & -> & L2 & F2 & C2 & R2); [by rewrite L1, L0|].
  destruct (write_count_effect p2 ci clo) as (p3 & -> & L3 & F3 & C3 & R3);
    [by rewrite L2, L1, L0|].
  destruct (write_count_effect p3 ci chi) as (p4 & -> & L4 & F4 & C4 & R4);
    [by rewrite L3, L2, L1, L0|].
  rewrite F0 in F1, C1. rewrite F1 in F2, C2. rewrite F2 in F3, C3. rewrite F3 in F4, C4.
  rewrite R0 in C1. split_and!; [|done|intros cj Hne; by rewrite R4, R3, R2, R1, R0].
  destruct (channel p ci). cbn -[load_byte le_value] in C1.
  rewrite C1 in C2. cbn -[load_byte le_value] in C2. rewrite load_bytes in C2 by done.
  rewrite C2 in C3. cbn -[load_byte le_value] in C3.
  rewrite C3 in C4. cbn -[load_byte le_value] in C4. rewrite load_bytes in C4 by done. exact C4.
Qed.

Fixpoint read_ports (d : DmaController) (ports : list Z) : list (option Z) :=
  match ports with
  | [] => []
  | port :: rest => let '(d, v) := read_port d port in v :: read_ports d rest
  end.

Lemma select_bytes lo hi :
  u8 lo -> u8 hi ->
  select_byte false (le_value [lo; hi]) = lo /\ select_byte true (le_value [lo; hi]) = hi.
Proof.
  intros Hlo Hhi. cbn [select_byte negb le_value].
  replace (lo + 256 * (hi + 256 * 0)) with (lo + hi * 256) by lia.
  change 255 with (Z.ones 8). rewrite Z.land_ones, Z.shiftr_div_pow2 by lia. unfold wrap.
  change (2 ^ 8) with 256. rewrite Z.mod_mod by lia. widths.
  rewrite Z.mod_add, Z.div_add, Z.mod_small, Z.div_small, Z.add_0_l, Z.mod_small by lia. done.
Qed.

Lemma writes_program d ch lo hi clo chi :
  (ch < 8)%nat ->
  writes d [(clear_port ch, 0); (addr_port ch, lo); (addr_port ch, hi);
            (count_port ch, clo); (count_port ch, chi)] =
  on_chip d ch (program (local_of ch) lo hi clo chi).
Proof.
  intros. unfold writes. cbn [fold_left fst snd].
  rewrite write_clear_port, !write_addr_port, !write_count_port, !on_chip_compose by done. done.
Qed.

Lemma read_addr_effect p ci :
  exists p', read_addr p ci = (p', select_byte (hi_lo p) (cur_addr (channel p ci))) /\
    hi_lo p' = negb (hi_lo p) /\ channel p' ci = channel p ci.
Proof. by eexists. Qed.

Lemma read_count_effect p ci :
  exists p', read_count p ci = (p', select_byte (hi_lo p) (cur_count (channel p ci))) /\
    hi_lo p' = negb (hi_lo p) /\ channel p' ci = channel p ci.
Proof. by eexists. Qed.

(** Programming through the byte pointer: resetting the flip-flop and writing
    an address and a count, low byte first, loads base and current registers of
    exactly that channel, clears its terminal count, leaves every other channel
    alone, and the four bytes are what the address and count ports then read. *)
Theorem program_roundtrip d ch lo hi clo chi :
  (ch < 8)%nat -> wf d -> u8 lo -> u8 hi -> u8 clo -> u8 chi ->
  let d' := writes d [(clear_port ch, 0); (addr_port ch, lo); (addr_port ch, hi);
                      (count_port ch, clo); (count_port ch, chi)] in
  base_addr (channel_of d' ch) = le_value [lo; hi] /\
  cur_addr (channel_of d' ch) = le_value [lo; hi] /\
  base_count (channel_of d' ch) = le_value [clo; chi] /\
  cur_count (channel_of d' ch) = le_value [clo; chi] /\
  at_terminal_count d' ch = false /\
  (forall ch', (ch' < 8)%nat -> ch' <> ch -> channel_of d' ch' = channel_of d ch') /\
  read_ports d' [addr_port ch; addr_port ch; count_port ch; count_port ch] =
    [Some lo; Some hi; Some clo; Some chi].
Proof.
  intros Hch Hwf Hlo Hhi Hclo Hchi. cbn zeta. rewrite writes_program by done.
  assert (Hl : (local_of ch < length (channels (chip_of d ch)))%nat).
  { pose proof (local_of_lt ch Hch). destruct Hwf as [[Hm _] [Hs _]].
    unfold chip_of. destruct (ch <? 4)%nat; lia. }
  destruct (program_channel (chip_of d ch) (local_of ch) lo hi clo chi Hl Hlo Hhi Hclo Hchi)
    as (Ec & Eh & _).
  assert (Et : at_terminal_count (on_chip d ch (program (local_of ch) lo hi clo chi)) ch =
    reached_tc (channel (program (local_of ch) lo hi clo chi (chip_of d ch)) (local_of ch))).
  { unfold at_terminal_count, on_chip, chip_of, local_of. by destruct (ch <? 4)%nat. }
  rewrite Et. unfold channel_of. rewrite chip_of_on, Ec. split_and!; [done..| |].
  - intros ch' Hch' Hne.
    apply (channel_of_on d ch ch'); [done..|]. intros p cj Hcj. unfold program.
    by rewrite !write_count_rest, !write_addr_rest by done.
  - cbn [read_ports]. rewrite !read_addr_port, !read_count_port, !on_chip_compose by done.
    rewrite !chip_of_on.
    set (p := program (local_of ch) lo hi clo chi (chip_of d ch)) in *. unfold compose. fold p.
    destruct (read_addr_effect p (local_of ch)) as (p1 & -> & F1 & C1). cbn [fst snd].
    destruct (read_addr_effect p1 (local_of ch)) as (p2 & -> & F2 & C2). cbn [fst snd].
    destruct (read_count_effect p2 (local_of ch)) as (p3 & -> & F3 & C3). cbn [fst snd].
    destruct (read_count_effect p3 (local_of ch)) as (p4 & -> & _). cbn [fst snd].
    rewrite F3, F2, F1, C3, C2, C1, Eh, Ec. cbn [negb cur_addr cur_count update].
    destruct (select_bytes lo hi Hlo Hhi) as [-> ->].
    destruct (select_bytes clo chi Hclo Hchi) as [-> ->]. done.
Qed.

Lemma dma_default_wf : wf default.
Proof. split; split; [reflexivity| |reflexivity|]; eval_channels. Qed.

Lemma program_roundtrip_witness :
  let d' := writes default [(clear_port 5, 0); (addr_port 5, 52); (addr_port 5, 18);
                            (count_port 5, 255); (count_port 5, 7)] in
  cur_addr (channel_of d' 5) = 4660 /\
  read_ports d' [addr_port 5; addr_port 5; count_port 5; count_port 5] =
    [Some 52; Some 18; Some 255; Some 7].
Proof.
  destruct (program_roundtrip default 5 52 18 255 7) as (_ & Ha & _ & _ & _ & _ & Hr);
    [lia|apply dma_default_wf|zlia..|].
  split; [exact Ha|exact Hr].
Defined.

(* ------------------------------------------------------------------ *)
(** ** The page registers *)

Definition page_ports : list Z :=
  [129; 130; 131; 132; 133; 134; 135; 136; 137; 138; 139; 140; 141; 142; 143].

(** The fifteen page ports 81h-8Fh are independent read/write latches: each
    reads back what was last written to it, whatever is written to the others. *)
Theorem page_ports_latch d port port' v :
  wf d -> length (page_scratch d) = 16%nat -> In port page_ports -> In port' page_ports ->
  snd (read_port (fst (write_port d port v)) port') =
    if port' =? port then Some v else snd (read_port d port').
Proof.
  intros [[Hm _] [Hs _]] Hp. destruct d as [[cm hm comm stm rm pm] [csl hs coms sts rs ps] scr rf].
  cbn [master slave channels page_scratch] in *.
  do 5 (destruct cm as [|? cm]; try done). do 5 (destruct csl as [|? csl]; try done).
  do 17 (destruct scr as [|? scr]; try done).
  intros H H'. cbn in H, H'.
  repeat (destruct H as [<-|H]; [repeat (destruct H' as [<-|H']; [reflexivity|]); done|]). done.
Qed.

Lemma page_ports_latch_witness :
  snd (read_port (fst (write_port default 135 18)) 135) = Some 18 /\
  snd (read_port (fst (write_port default 135 18)) 136) = snd (read_port default 136).
Proof.
  split; [apply (page_ports_latch default 135 135 18)|apply (page_ports_latch default 135 136 18)];
    try apply dma_default_wf; try reflexivity; cbn; tauto.
Defined.

(* ------------------------------------------------------------------ *)
(** ** The interpolated count *)

Lemma byte_cycle_ticks : BYTE_CYCLE_TICKS = 3287.
Proof. reflexivity. Qed.

(** Inside an open window the interpolation in closed form. *)
Lemma count_after_open c w t :
  transfer_window c = Some w -> u16 (start_count w) ->
  start_tick w <= t < deadline_tick w -> deadline_tick w < 2 ^ 64 -> 0 <= start_tick w ->
  count_after c t = start_count w -
    Z.min (Z.min ((t - start_tick w) * (start_count w + 1) / (deadline_tick w - start_tick w))
      ((t - start_tick w) / BYTE_CYCLE_TICKS)) (start_count w).
Proof.
  intros Hw Hc Ht Hd Hs. unfold count_after. rewrite Hw.
  destruct (Z.leb_spec t (start_tick w)).
  { replace (t - start_tick w) with 0 by lia. rewrite Z.mul_0_l, !Z.div_0_l; rewrite ?byte_cycle_ticks; zlia. }
  destruct (Z.leb_spec (deadline_tick w) t); [lia|].
  rewrite (Z.max_l (deadline_tick w - _)) by lia. rewrite (Z.max_l BYTE_CYCLE_TICKS) by (vm_compute; done).
  set (e := t - start_tick w). set (sp := deadline_tick w - start_tick w).
  assert (0 <= e < sp) by (unfold e, sp; lia).
  assert (0 <= e * (start_count w + 1) / sp <= start_count w).
  { split; [apply Z.div_pos; zlia|]. apply Z.lt_succ_r, Z.div_lt_upper_bound; [lia|].
    unfold Z.succ. apply Z.mul_lt_mono_pos_r; zlia. }
  assert (0 <= e / BYTE_CYCLE_TICKS) by (apply Z.div_pos; rewrite ?byte_cycle_ticks; lia).
  rewrite (wrap_id 64) by zlia. rewrite Z.add_simpl_r, (saturate_id 64) by zlia.
  rewrite (wrap_id 16) by zlia. rewrite saturate_id by zlia. done.
Qed.

(** The interpolated current count: while a transfer window is open it starts
    at the programmed count, never increases, never runs below zero, is never ahead
    of one byte per bus cycle, and never ahead of the device's own rate; outside the
    window the live register is read. *)
Theorem count_after_conservative c w t1 t2 :
  transfer_window c = Some w -> u16 (start_count w) -> 0 <= start_tick w ->
  start_tick w < deadline_tick w < 2 ^ 64 -> start_tick w <= t1 <= t2 ->
  count_after c (start_tick w) = start_count w /\
  (t2 < deadline_tick w ->
    0 <= count_after c t2 <= count_after c t1 /\
    (start_count w - count_after c t2) * BYTE_CYCLE_TICKS <= t2 - start_tick w /\
    (start_count w - count_after c t2) * (deadline_tick w - start_tick w)
      <= (t2 - start_tick w) * (start_count w + 1)) /\
  (deadline_tick w <= t2 -> count_after c t2 = cur_count c).
Proof.
  intros Hw Hc Hs Hd Ht. split_and!.
  - rewrite (count_after_open c w) by (lia || done).
    rewrite Z.sub_diag, Z.mul_0_l, !Z.div_0_l; rewrite ?byte_cycle_ticks; zlia.
  - intros Hlt. rewrite !(count_after_open c w) by (lia || done).
    set (sp := deadline_tick w - start_tick w) in *.
    assert (Hsp : 0 < sp) by (unfold sp; lia).
    assert (Hn : 0 < start_count w + 1) by zlia.
    assert ((t1 - start_tick w) * (start_count w + 1) / sp
      <= (t2 - start_tick w) * (start_count w + 1) / sp) by (apply Z.div_le_mono; [lia|apply Z.mul_le_mono_nonneg_r; lia]).
    assert ((t1 - start_tick w) / BYTE_CYCLE_TICKS <= (t2 - start_tick w) / BYTE_CYCLE_TICKS)
      by (apply Z.div_le_mono; rewrite ?byte_cycle_ticks; lia).
    assert (0 <= (t2 - start_tick w) * (start_count w + 1) / sp) by (apply Z.div_pos; [apply Z.mul_nonneg_nonneg|]; lia).
    assert (0 <= (t2 - start_tick w) / BYTE_CYCLE_TICKS)
      by (apply Z.div_pos; rewrite ?byte_cycle_ticks; lia).
    pose proof (Z.mul_div_le ((t2 - start_tick w) * (start_count w + 1)) sp).
    pose proof (Z.mul_div_le (t2 - start_tick w) BYTE_CYCLE_TICKS).
    rewrite byte_cycle_ticks in *. split_and!; [zlia|lia|lia|].
    transitivity (sp * ((t2 - start_tick w) * (start_count w + 1) / sp)); [|lia].
    rewrite (Z.mul_comm sp). apply Z.mul_le_mono_nonneg_r; lia.
  - intros Hle. unfold count_after. rewrite Hw.
    destruct (Z.leb_spec t2 (start_tick w)); [lia|]. by rewrite (proj2 (Z.leb_le _ _) Hle).
Qed.

Lemma count_after_conservative_witness :
  let c := Channel.arm_transfer_window (Channel.default <| cur_count := 9 |>) 100 100000 in
  count_after c 50050 = 4 /\ 0 <= count_after c 50050 <= count_after c 100.
Proof.
  split; [vm_compute; reflexivity|].
  apply (count_after_conservative
    (Channel.arm_transfer_window (Channel.default <| cur_count := 9 |>) 100 100000)
    (mkWindow 100 100000 9) 100 50050); cbn; (reflexivity || zlia).
Defined.

(* ------------------------------------------------------------------ *)
(** ** Memory to memory *)

Lemma byte_address_sum c : u16 (cur_addr c) -> byte_address c = cur_addr c + 65536 * page c.
Proof. intros. unfold byte_address. rewrite Z.lor_comm, lor_shiftl by (lia || done). zlia. Qed.

Lemma step_transfer_tc c : reached_tc (step_transfer c) = (cur_count c =? 0).
Proof. unfold step_transfer. cbn. destruct (cur_count c =? 0), (auto_init c); done. Qed.

Lemma step_transfer_next c :
  cur_count c <> 0 ->
  cur_addr (step_transfer c) = moved c 1 /\ cur_count (step_transfer c) = wrap 16 (cur_count c - 1) /\
  page (step_transfer c) = page c /\ addr_decrement (step_transfer c) = addr_decrement c.
Proof.
  intros Hne. apply Z.eqb_neq in Hne. unfold step_transfer, moved. cbn. rewrite Hne. done.
Qed.

(** One turn of the copy loop, as what it does to an opaque chip. *)
Lemma copy_turn p (hold : bool) :
  (1 < length (channels p))%nat ->
  exists p', with_channel (with_channel p 1 step_transfer) 0 (if hold then hold_step else step_transfer)
    = p' /\ length (channels p') = length (channels p) /\
    channel p' 0 = (if hold then hold_step else step_transfer) (channel p 0) /\
    channel p' 1 = step_transfer (channel p 1).
Proof.
  intros Hl. eexists. split; [done|]. rewrite !length_with. split; [done|].
  rewrite channel_with_eq by (rewrite length_with; lia). rewrite !(channel_with_ne _ _ _ _) by done.
  rewrite channel_with_eq by done. done.
Qed.

Lemma copy_loop_total fuel hold p m copied :
  (1 < length (channels p))%nat -> u16 (cur_count (channel p 1)) ->
  cur_count (channel p 1) < Z.of_nat fuel -> exists r, copy_loop fuel hold p m copied = Some r.
Proof.
  revert p m copied. induction fuel as [|fuel IH]; intros p m copied Hl Hc Hf; [zlia|].
  cbn [copy_loop]. destruct (read_u8 m _); [|by eexists]. destruct (write_u8 m _ _); [|by eexists].
  destruct (copy_turn p hold Hl) as (p' & -> & Hl' & _ & E1). rewrite E1, step_transfer_tc.
  destruct (Z.eqb_spec (cur_count (channel p 1)) 0) as [|Hne]; [by eexists|].
  destruct (step_transfer_next _ Hne) as (_ & E & _).
  apply IH; [by rewrite Hl'|..]; rewrite E1, E, wrap_id by zlia; zlia.
Qed.

(** A memory-to-memory transfer always completes: whatever the channels hold,
    and even when the addresses run off the memory, the loop of the code ends
    within the 2^16 turns of channel 1's count. *)
Theorem mem_to_mem_terminates d m : wf d -> exists r, mem_to_mem d m = Some r.
Proof.
  intros [Hwf _]. pose proof (chip_channel_wf _ 1 Hwf ltac:(lia)) as Hwf1.
  destruct Hwf as [Hl _]. unfold mem_to_mem, Chip.mem_to_mem.
  assert (exists r, (if controller_disabled (master d) || negb (mem_to_mem_enabled (master d))
    then Some (master d, m, None)
    else if mask (channel (master d) 0) then Some (index (master d) 0, m, None)
    else copy_loop COPY_FUEL (channel0_hold (master d))
      (with_channel (with_channel (master d) 0 (fun c => c <| active := true |>)) 1
         (fun c => c <| active := true |>)) m 0) = Some r) as [[[p' m'] r] E].
  { case_step; [by eexists|]. case_step; [by eexists|]. apply copy_loop_total.
    - rewrite !length_with, Hl. lia.
    - rewrite channel_with_eq, channel_with_ne by (rewrite ?length_with, ?Hl; lia). cbn.
      apply Hwf1.
    - rewrite channel_with_eq, channel_with_ne by (rewrite ?length_with, ?Hl; lia). cbn.
      destruct Hwf1 as (_ & _ & _ & ? & _). unfold COPY_FUEL. rewrite Z2Nat.id by lia. zlia. }
  cbv zeta. rewrite E. by eexists.
Qed.

(** The [k]th source address, and the state after [k] of the copies that [p0], [m0]
    started. *)
Definition source_at (hold : bool) (c : DmaChannel) (k : Z) : Z :=
  byte_address c + (if hold then 0 else k).

Record copied_so_far (hold : bool) (p0 : DmaChip) (m0 : Memory) (p : DmaChip) (m : Memory) (k : Z)
    : Prop := {
  copied_len : (1 < length (channels p))%nat;
  copied_ch0 : page (channel p 0) = page (channel p0 0) /\
    addr_decrement (channel p 0) = false /\
    cur_addr (channel p 0) = cur_addr (channel p0 0) + (if hold then 0 else k) /\
    (hold = false -> cur_count (channel p 0) = cur_count (channel p0 0) - k);
  copied_ch1 : page (channel p 1) = page (channel p0 1) /\
    addr_decrement (channel p 1) = false /\
    cur_addr (channel p 1) = cur_addr (channel p0 1) + k /\
    cur_count (channel p 1) = cur_count (channel p0 1) - k;
  copied_mem : memory_len m = memory_len m0 /\ forall b, 0 <= b ->
    read_u8 m b =
    if (byte_address (channel p0 1) <=? b) && (b <? byte_address (channel p0 1) + k)
    then read_u8 m0 (source_at hold (channel p0 0) (b - byte_address (channel p0 1)))
    else read_u8 m0 b
}.

(** The blocks of a transfer that neither wraps in its page nor leaves the memory,
    with a source no copy overwrites. *)
Record copyable (hold : bool) (p0 : DmaChip) (m0 : Memory) : Prop := {
  copyable_wf : chip_wf p0;
  copyable_up : addr_decrement (channel p0 0) = false /\ addr_decrement (channel p0 1) = false;
  copyable_src : hold = false ->
    cur_addr (channel p0 0) + cur_count (channel p0 1) < 2 ^ 16 /\
    cur_count (channel p0 1) <= cur_count (channel p0 0);
  copyable_dst : cur_addr (channel p0 1) + cur_count (channel p0 1) < 2 ^ 16;
  copyable_mem : forall k, 0 <= k <= cur_count (channel p0 1) ->
    in_memory m0 (source_at hold (channel p0 0) k) /\
    in_memory m0 (byte_address (channel p0 1) + k);
  copyable_apart : forall k j, 0 <= k <= cur_count (channel p0 1) ->
    0 <= j <= cur_count (channel p0 1) ->
    source_at hold (channel p0 0) k <> byte_address (channel p0 1) + j
}.

Lemma read_u8_move m a b : a = b -> read_u8 m a = read_u8 m b.
Proof. by intros ->. Qed.

(** The memory after one more copy. *)
Lemma copied_memory hold p0 m0 p m k byte m' :
  copyable hold p0 m0 -> copied_so_far hold p0 m0 p m k -> 0 <= k <= cur_count (channel p0 1) ->
  read_u8 m0 (source_at hold (channel p0 0) k) = Ok byte ->
  write_u8 m (byte_address (channel p0 1) + k) byte = Ok m' ->
  memory_len m' = memory_len m0 /\ forall b, 0 <= b ->
    read_u8 m' b =
    if (byte_address (channel p0 1) <=? b) && (b <? byte_address (channel p0 1) + (k + 1))
    then read_u8 m0 (source_at hold (channel p0 0) (b - byte_address (channel p0 1)))
    else read_u8 m0 b.
Proof.
  intros Hc Hs Hk Hr Hw. destruct (copied_mem _ _ _ _ _ _ Hs) as [Hlen Hmem].
  set (dst := byte_address (channel p0 1)) in *.
  assert (Hd : 0 <= dst) by (apply byte_address_nonneg, chip_channel_wf; [apply Hc|lia]).
  split; [by rewrite (write_u8_len _ _ _ _ Hw)|]. intros b Hb.
  rewrite (read_write _ _ _ _ _ (ltac:(lia) : 0 <= dst + k) Hb Hw), (Hmem b Hb).
  destruct (Z.eqb_spec b (dst + k)) as [->|Hne].
  - rewrite (proj2 (Z.leb_le dst (dst + k))), (proj2 (Z.ltb_lt (dst + k) (dst + (k + 1)))) by lia.
    cbn [andb]. rewrite <-Hr. apply read_u8_move. f_equal. lia.
  - destruct (Z.leb_spec dst b); cbn [andb]; [|done].
    destruct (Z.ltb_spec b (dst + k)), (Z.ltb_spec b (dst + (k + 1))); done || lia.
Qed.

Lemma hold_step_keeps c :
  page (hold_step c) = page c /\ addr_decrement (hold_step c) = addr_decrement c /\
  cur_addr (hold_step c) = cur_addr c.
Proof. done. Qed.

(** The channels after one more copy that is not the last. *)
Lemma copied_turn hold p0 m0 p m k byte m' p' :
  copyable hold p0 m0 -> copied_so_far hold p0 m0 p m k -> 0 <= k < cur_count (channel p0 1) ->
  read_u8 m0 (source_at hold (channel p0 0) k) = Ok byte ->
  write_u8 m (byte_address (channel p0 1) + k) byte = Ok m' ->
  length (channels p') = length (channels p) ->
  channel p' 0 = (if hold then hold_step else step_transfer) (channel p 0) ->
  channel p' 1 = step_transfer (channel p 1) ->
  copied_so_far hold p0 m0 p' m' (k + 1).
Proof.
  intros Hc Hs Hk Hr Hw Hl E0 E1.
  assert (Hk' : 0 <= k <= cur_count (channel p0 1)) by lia.
  pose proof (copied_memory _ _ _ _ _ _ _ _ Hc Hs Hk' Hr Hw) as Hmem.
  destruct Hs as [Hlen (P0 & D0 & A0 & C0) (P1 & D1 & A1 & C1) _].
  pose proof (chip_channel_wf p0 0 (copyable_wf _ _ _ Hc) ltac:(lia)) as (_ & Ha0 & _ & Hn0 & _).
  pose proof (chip_channel_wf p0 1 (copyable_wf _ _ _ Hc) ltac:(lia)) as (_ & Ha1 & _ & Hn1 & _).
  pose proof (copyable_dst _ _ _ Hc) as Hdst.
  destruct (step_transfer_next (channel p 1)) as (SA & SC & SP & SD); [lia|].
  split; [by rewrite Hl| | |exact Hmem].
  - rewrite E0. destruct hold.
    + destruct (hold_step_keeps (channel p 0)) as (-> & -> & ->). done.
    + destruct (copyable_src _ _ _ Hc eq_refl) as [Hsrc Hcnt]. specialize (C0 eq_refl).
      destruct (step_transfer_next (channel p 0)) as (SA0 & SC0 & SP0 & SD0); [lia|].
      rewrite SA0, SC0, SP0, SD0. unfold moved. rewrite D0, A0, C0.
      rewrite (wrap_id 16 (cur_addr (channel p0 0) + k + 1)) by zlia.
      rewrite (wrap_id 16) by zlia. split_and!; [done|done|lia|lia].
  - rewrite E1, SA, SC, SP, SD. unfold moved. rewrite D1, A1, C1.
    rewrite (wrap_id 16 (cur_addr (channel p0 1) + k + 1)) by zlia.
    rewrite (wrap_id 16) by zlia. split_and!; [done|done|lia|lia].
Qed.

(** Both accesses of turn [k] fall in the memory, at the addresses of the block. *)
Lemma copied_access hold p0 m0 p m k :
  copyable hold p0 m0 -> copied_so_far hold p0 m0 p m k -> 0 <= k <= cur_count (channel p0 1) ->
  exists byte m', read_u8 m (byte_address (channel p 0)) = Ok byte /\
    write_u8 m (byte_address (channel p 1)) byte = Ok m' /\
    read_u8 m0 (source_at hold (channel p0 0) k) = Ok byte /\
    write_u8 m (byte_address (channel p0 1) + k) byte = Ok m'.
Proof.
  intros Hc Hs Hk.
  pose proof (chip_channel_wf p0 0 (copyable_wf _ _ _ Hc) ltac:(lia)) as Hwf0.
  pose proof (chip_channel_wf p0 1 (copyable_wf _ _ _ Hc) ltac:(lia)) as Hwf1.
  destruct (copied_ch0 _ _ _ _ _ _ Hs) as (P0 & _ & A0 & _).
  destruct (copied_ch1 _ _ _ _ _ _ Hs) as (P1 & _ & A1 & _).
  destruct (copied_mem _ _ _ _ _ _ Hs) as [Hlen Hmem].
  destruct (copyable_mem _ _ _ Hc k Hk) as [Hin0 Hin1].
  pose proof (copyable_dst _ _ _ Hc) as Hdst.
  assert (byte_address (channel p 0) = source_at hold (channel p0 0) k) as ->.
  { unfold source_at. destruct Hwf0 as (_ & ? & _).
    rewrite !byte_address_sum, P0, A0; [lia|done|rewrite A0].
    destruct hold; [zlia|]. destruct (copyable_src _ _ _ Hc eq_refl). zlia. }
  assert (byte_address (channel p 1) = byte_address (channel p0 1) + k) as ->.
  { destruct Hwf1 as (_ & ? & _ & ? & _). rewrite !byte_address_sum, P1, A1; [lia|done|rewrite A1; zlia]. }
  destruct (read_u8_in _ _ Hin0) as [byte Hr].
  assert (Hr' : read_u8 m (source_at hold (channel p0 0) k) = Ok byte).
  { rewrite Hmem by apply Hin0.
    destruct (Z.leb_spec (byte_address (channel p0 1)) (source_at hold (channel p0 0) k)); cbn [andb];
      [|done].
    destruct (Z.ltb_spec (source_at hold (channel p0 0) k) (byte_address (channel p0 1) + k)); [|done].
    destruct (copyable_apart _ _ _ Hc k (source_at hold (channel p0 0) k - byte_address (channel p0 1)));
      lia. }
  exists byte. eexists. rewrite Hr'. split_and!; [done| |done|]; apply write_u8_in;
    unfold in_memory in *; by rewrite Hlen.
Qed.

Lemma copy_loop_copies hold p0 m0 fuel :
  forall p m k, copyable hold p0 m0 -> copied_so_far hold p0 m0 p m k ->
  0 <= k <= cur_count (channel p0 1) -> cur_count (channel p0 1) - k < Z.of_nat fuel ->
  exists p' m', copy_loop fuel hold p m k = Some (p', m', Some (cur_count (channel p0 1) + 1)) /\
    memory_len m' = memory_len m0 /\ Z.testbit (status p') 1 = true /\
    Z.land (request_reg p') 3 = 0 /\
    forall b, 0 <= b -> read_u8 m' b =
      if (byte_address (channel p0 1) <=? b) &&
         (b <? byte_address (channel p0 1) + (cur_count (channel p0 1) + 1))
      then read_u8 m0 (source_at hold (channel p0 0) (b - byte_address (channel p0 1)))
      else read_u8 m0 b.
Proof.
  induction fuel as [|fuel IH]; intros p m k Hc Hs Hk Hf; [lia|]. cbn [copy_loop].
  destruct (copied_access _ _ _ _ _ _ Hc Hs Hk) as (byte & m1 & -> & -> & Hr & Hw).
  destruct (copy_turn p hold (copied_len _ _ _ _ _ _ Hs)) as (p1 & -> & Hl1 & E0 & E1).
  rewrite E1, step_transfer_tc. destruct (copied_ch1 _ _ _ _ _ _ Hs) as (_ & _ & _ & C1). rewrite C1.
  destruct (Z.eqb_spec (cur_count (channel p0 1) - k) 0) as [Hz|Hz].
  - assert (k = cur_count (channel p0 1)) as -> by lia.
    destruct (copied_memory _ _ _ _ _ _ _ _ Hc Hs Hk Hr Hw) as [Hlen Hmem].
    eexists _, m1. split; [done|]. split; [done|]. split; [|split; [|exact Hmem]].
    + change (Z.testbit (Z.lor (status p1) 2) 1 = true). rewrite Z.lor_spec. apply orb_true_r.
    + change (Z.land (Z.ldiff (request_reg p1) 3) 3 = 0). apply Z.bits_inj'. intros n Hn.
      rewrite Z.land_spec, Z.ldiff_spec, Z.bits_0. by destruct (Z.testbit (request_reg p1) n), (Z.testbit 3 n).
  - apply IH; [done| |lia|lia].
    eapply copied_turn; [exact Hc|exact Hs|lia|exact Hr|exact Hw|exact Hl1|exact E0|exact E1].
Qed.

(** What a memory-to-memory transfer moves: on an enabled master with both
    channels incrementing and a block that stays inside its page and the memory,
    the transfer moves count+1 bytes, the destination then holds the source block
    (or the single source byte throughout, when the source address is held), every
    other byte of memory is unchanged, channel 1's terminal count is in the status
    register, and the software request no longer launches a copy. *)
Theorem mem_to_mem_copies d m :
  let p := master d in
  let hold := channel0_hold p in
  let n := cur_count (channel p 1) + 1 in
  let dst := byte_address (channel p 1) in
  controller_disabled p = false -> mem_to_mem_enabled p = true -> mask (channel p 0) = false ->
  copyable hold p m ->
  exists d' m', mem_to_mem d m = Some (d', m', Some n) /\ memory_len m' = memory_len m /\
    Z.testbit (status (master d')) 1 = true /\ mem_to_mem_request_armed d' = false /\
    forall b, 0 <= b -> read_u8 m' b =
      if (dst <=? b) && (b <? dst + n)
      then read_u8 m (byte_address (channel p 0) + (if hold then 0 else b - dst))
      else read_u8 m b.
Proof.
  cbv zeta. intros Hd He Hm Hc. destruct (copyable_wf _ _ _ Hc) as [Hl _].
  unfold mem_to_mem, Chip.mem_to_mem. rewrite Hd, He, Hm. cbn [orb negb].
  set (p := master d) in *. set (p1 := with_channel (with_channel p 0 _) 1 _).
  assert (E0 : channel p1 0 = (channel p 0) <| active := true |>).
  { unfold p1. rewrite channel_with_ne by done. rewrite channel_with_eq by lia. done. }
  assert (E1 : channel p1 1 = (channel p 1) <| active := true |>).
  { unfold p1. rewrite channel_with_eq by (rewrite length_with; lia).
    by rewrite channel_with_ne by done. }
  assert (Hs : copied_so_far (channel0_hold p) p m p1 m 0).
  { split.
    - unfold p1. rewrite !length_with. lia.
    - rewrite E0. cbn. destruct (copyable_up _ _ _ Hc). split_and!; [done|done|destruct (channel0_hold p); lia|lia].
    - rewrite E1. cbn. destruct (copyable_up _ _ _ Hc). split_and!; [done|done|lia|lia].
    - split; [done|]. intros b Hb. destruct (Z.leb_spec (byte_address (channel p 1)) b); cbn [andb]; [|done].
      by rewrite (proj2 (Z.ltb_ge b (byte_address (channel p 1) + 0))) by lia. }
  pose proof (chip_channel_wf p 1 (copyable_wf _ _ _ Hc) ltac:(lia)) as (_ & _ & _ & Hn & _).
  destruct (copy_loop_copies (channel0_hold p) p m COPY_FUEL p1 m 0 Hc Hs) as (p' & m' & -> & Hlen & Hst & Hrq & Hmem).
  { zlia. }
  { unfold COPY_FUEL. zlia. }
  cbn [option_bind mbind]. eexists _, m'. split; [done|]. split; [done|]. split; [done|].
  split; [|exact Hmem]. unfold mem_to_mem_request_armed, Chip.mem_to_mem_request_armed. cbn [master update].
  assert (has (request_reg p') 1 = false) as ->.
  { unfold has. apply negb_false_iff, Z.eqb_eq. change 1 with (Z.land 3 1).
    by rewrite Z.land_assoc, Hrq. }
  by rewrite andb_false_r.
Qed.

(** Two bytes from address 4 to address 0. *)
Definition copying : DmaController :=
  writes default [(12, 0); (0, 4); (0, 0); (1, 1); (1, 0); (2, 0); (2, 0); (3, 1); (3, 0);
                  (8, 1); (10, 0); (9, 4)].

Lemma copying_copyable : copyable (channel0_hold (master copying)) (master copying) small_memory.
Proof.
  assert (E0 : byte_address (channel (master copying) 0) = 4) by (vm_compute; reflexivity).
  assert (E1 : byte_address (channel (master copying) 1) = 0) by (vm_compute; reflexivity).
  assert (EA : cur_addr (channel (master copying) 0) = 4) by (vm_compute; reflexivity).
  assert (EB : cur_addr (channel (master copying) 1) = 0) by (vm_compute; reflexivity).
  assert (EC : cur_count (channel (master copying) 0) = 1) by (vm_compute; reflexivity).
  assert (ED : cur_count (channel (master copying) 1) = 1) by (vm_compute; reflexivity).
  assert (Hh : channel0_hold (master copying) = false) by (vm_compute; reflexivity).
  assert (memory_len small_memory = 10) as Hlen by reflexivity.
  rewrite Hh. split; unfold source_at, in_memory; rewrite ?E0, ?E1, ?EA, ?EB, ?EC, ?ED, ?Hlen; try zlia.
  - split; [vm_compute; reflexivity|eval_channels].
  - split; vm_compute; reflexivity.
Qed.

Lemma mem_to_mem_copies_witness :
  exists d' m', mem_to_mem copying small_memory = Some (d', m', Some 2) /\
    mem_to_mem_request_armed copying = true /\ mem_to_mem_request_armed d' = false.
Proof.
  destruct (mem_to_mem_copies copying small_memory) as (d' & m' & E & _ & _ & Ha & _);
    [vm_compute; reflexivity..|apply copying_copyable|].
  exists d', m'. split; [exact E|split; [vm_compute; reflexivity|exact Ha]].
Defined.

Lemma mem_to_mem_terminates_witness :
  wf copying /\ exists r, mem_to_mem copying (mkMemory [1]) = Some r.
Proof.
  assert (H : wf copying) by (split; split; first [vm_compute; reflexivity|eval_channels]).
  split; [exact H|apply (mem_to_mem_terminates copying (mkMemory [1]) H)].
Defined.

(* ------------------------------------------------------------------ *)
(** ** The payload *)

Definition channel_bytes (c : DmaChannel) : list Z :=
  le_bytes 2 (base_addr c) ++ le_bytes 2 (cur_addr c) ++ le_bytes 2 (base_count c) ++
  le_bytes 2 (cur_count c) ++ [page c] ++ [b2z (addr_decrement c)] ++ [b2z (auto_init c)] ++
  [transfer_kind c] ++ [transfer_mode c] ++ [b2z (mask c)] ++ [b2z (reached_tc c)] ++
  [b2z (dreq c)] ++ [b2z (active c)].

Definition chip_bytes (p : DmaChip) (is_master : bool) : list Z :=
  [b2z (hi_lo p)] ++ [effective_command p is_master] ++ [Z.land (status p) 15] ++
  [Z.land (request_reg p) 15] ++ concat (channel_bytes <$> channels p).

#[export] Instance dma_payload {Alloc : Allocator} : CanonicalPayload DmaController.
Proof.
  refine {|
    payload_wf d := wf d;
    payload d := chip_bytes (master d) true ++ chip_bytes (slave d) false ++
      concat ((fun port => [page_scratch d !!! Z.to_nat (Z.land port 15)])
                <$> [132; 133; 134; 136; 140; 141; 142]) ++ [refresh_page d];
    payload_len := 152;
    write_payload := write_dma_payload
  |}.
  - intros d.
    assert (Hch : forall c, emits (write_canonical_dma_channel c) (channel_bytes c))
      by (intros; repeat (apply emits_seq; [apply emits_append|]); apply emits_append).
    assert (Hp : forall p b, emits (write_canonical_dma_chip p b) (chip_bytes p b)).
    { intros. repeat (apply emits_seq; [apply emits_append|]). by apply emits_each. }
    apply emits_seq; [apply Hp|apply emits_seq; [apply Hp|]].
    apply emits_seq; [apply emits_each; intros; apply emits_append|apply emits_append].
  - intros d [[Hm _] [Hs _]].
    destruct d as [[cm ? ? ? ? ?] [cs ? ? ? ? ?] scr ?]; cbn [master slave channels] in *.
    do 5 (destruct cm as [|? cm]; try done). do 5 (destruct cs as [|? cs]; try done).
Defined.


(* ------------------------------------------------------------------ *)
(** ** No index out of range, no grant to a masked channel *)

(** A channel that holds a grant is not masked. *)
Definition grant_ok (c : DmaChannel) : Prop := active c = true -> mask c = false.

(** A chip that has not panicked, its four channels in place with registers of
    their widths, and a grant held by no masked channel except those in [ex]. *)
Definition chip_ok_but (ex : nat -> Prop) (p : DmaChip) : Prop :=
  length (channels p) = 4%nat /\ panicked p = false /\
  forall i c, channels p !! i = Some c -> channel_wf c /\ (~ ex i -> grant_ok c).

Definition none_but (_ : nat) : Prop := False.
Definition chip_ok (p : DmaChip) : Prop := chip_ok_but none_but p.

Definition ctl_ok (d : DmaController) : Prop :=
  chip_ok (master d) /\ chip_ok (slave d) /\ length (page_scratch d) = 16%nat.

Lemma chip_ok_wf ex p : chip_ok_but ex p -> chip_wf p.
Proof.
  intros (Hl & _ & Hc). split; [done|]. apply Forall_lookup. intros i c E. by apply (Hc i).
Qed.

Lemma chip_ok_channel ex p ci :
  chip_ok_but ex p -> (ci < 4)%nat ->
  channel_wf (channel p ci) /\ (~ ex ci -> grant_ok (channel p ci)).
Proof.
  intros (Hl & _ & Hc) Hci. apply (Hc ci). unfold channel.
  apply list_lookup_lookup_total_lt. lia.
Qed.

Lemma index_panicked p ci :
  panicked p = false -> (ci < length (channels p))%nat -> panicked (index p ci) = false.
Proof. intros Hp Hl. unfold index. cbn [panicked update]. rewrite Hp. by apply Nat.ltb_lt in Hl as ->. Qed.

Definition keeps_wf (f : DmaChannel -> DmaChannel) : Prop := forall c, channel_wf c -> channel_wf (f c).
Definition keeps_grant (f : DmaChannel -> DmaChannel) : Prop := forall c, grant_ok c -> grant_ok (f c).

(** An indexed update: its index is in range, its function keeps the widths, and
    settles or keeps the grant of the channel. *)
Lemma with_channel_but ex ex' p ci f :
  (ci < 4)%nat -> chip_ok_but ex p -> keeps_wf f ->
  (forall i, i <> ci -> ~ ex' i -> ~ ex i) ->
  (~ ex' ci -> (~ ex ci -> grant_ok (channel p ci)) -> grant_ok (f (channel p ci))) ->
  chip_ok_but ex' (with_channel p ci f).
Proof.
  intros Hci (Hl & Hp & Hc) Hw Hex Hf. split_and!; [by rewrite length_with| |].
  - apply (index_panicked p ci); [done|lia].
  - intros i c. cbn. destruct (decide (ci = i)) as [->|Hne].
    + rewrite list_lookup_alter_eq. destruct (channels p !! i) eqn:E; [|done].
      intros [= <-]. destruct (Hc _ _ E) as [H1 H2]. split; [by apply Hw|]. intros Hx.
      revert Hf. unfold channel. rewrite (list_lookup_total_correct _ _ _ E). auto.
    + rewrite list_lookup_alter_ne by done. intros E. destruct (Hc _ _ E) as [H1 H2].
      split; [done|]. intros. apply H2, Hex; auto.
Qed.

Lemma with_channel_ok p ci f :
  (ci < 4)%nat -> keeps_wf f -> keeps_grant f -> chip_ok p -> chip_ok (with_channel p ci f).
Proof. intros Hci Hw Hg Hp. eapply with_channel_but; try done. intros. apply Hg. auto. Qed.

Lemma index_ok ex p ci : (ci < 4)%nat -> chip_ok_but ex p -> chip_ok_but ex (index p ci).
Proof.
  intros Hci (Hl & Hp & Hc). split_and!; [done| |done]. apply index_panicked; [done|lia].
Qed.

(** Updates of the shared registers. *)
Lemma registers_ok p q :
  chip_ok p -> channels q = channels p -> panicked q = panicked p -> chip_ok q.
Proof. unfold chip_ok, chip_ok_but. intros Hp -> ->. exact Hp. Qed.

(** The fields an update leaves alone keep their widths. *)
Ltac keep :=
  let c := fresh "c" in
  let H := fresh "H" in
  intros c H; unfold channel_wf, grant_ok in *; destruct c; cbn in *;
  try (intros; discriminate); try tauto.

Lemma step_transfer_keeps : keeps_wf step_transfer.
Proof.
  intros c (? & ? & ? & ? & ?). unfold step_transfer, channel_wf. cbn.
  repeat case_step; cbn; split_and!; try done; apply wrap_in_width; lia.
Qed.

Lemma set_mask_keeps b : keeps_wf (set_mask b).
Proof. unfold set_mask. keep. cbn. by case_step. Qed.

Lemma set_mask_grant b : keeps_grant (set_mask b).
Proof. unfold set_mask, grant_ok. intros c _. cbn. destruct b; [done|]. by intros _. Qed.

Lemma set_mode_keeps v : keeps_wf (fun c => set_mode c v) /\ keeps_grant (fun c => set_mode c v).
Proof. split; keep. Qed.

(** What a transfer does to its channel: one step when it moves something, nothing
    otherwise. *)
Definition steps_or_stays {A} (op : Transfer A) : Prop :=
  forall c m, match snd (op c m) with
              | Some _ => fst (fst (op c m)) = step_transfer c
              | None => fst (fst (op c m)) = c
              end.

Lemma read_byte_steps : steps_or_stays Channel.read_byte.
Proof. intros c m. unfold Channel.read_byte. by repeat case_step. Qed.
Lemma read_word_steps : steps_or_stays Channel.read_word.
Proof. intros c m. unfold Channel.read_word. by repeat case_step. Qed.
Lemma write_byte_steps b : steps_or_stays (Channel.write_byte b).
Proof. intros c m. unfold Channel.write_byte. by repeat case_step. Qed.

Lemma step_transfer_mask c :
  reached_tc (step_transfer c) = false -> mask (step_transfer c) = mask c.
Proof. unfold step_transfer. cbn. repeat case_step; done. Qed.

(** The end of a cycle settles the grant of the channel. *)
Lemma finish_cycle_ok p ci b :
  (ci < 4)%nat -> chip_ok_but (eq ci) p ->
  (b = true -> reached_tc (channel p ci) = false -> grant_ok (channel p ci)) ->
  chip_ok (finish_cycle p ci b).
Proof.
  intros Hci Hp Hg.
  assert (Hoff : forall q, chip_ok_but (eq ci) q ->
    chip_ok (with_channel q ci (fun c => c <| active := false |>))).
  { intros q Hq. eapply with_channel_but; [done|exact Hq|keep|congruence|done]. }
  unfold finish_cycle. destruct b; cbn [negb]; [|by apply Hoff].
  destruct (reached_tc (channel p ci)) eqn:Et; [apply Hoff; exact Hp|].
  case_step; [by apply Hoff|]. apply index_ok; [done|].
  destruct Hp as (Hl & Hp & Hc). split_and!; [done..|]. intros i c Ei.
  destruct (Hc i c Ei) as [H1 H2]. split; [done|]. intros _.
  destruct (decide (ci = i)) as [->|]; [|by apply H2].
  specialize (Hg eq_refl eq_refl). unfold channel in Hg.
  by rewrite (list_lookup_total_correct _ _ _ Ei) in Hg.
Qed.

Lemma cycle_ok {A} p ci m (op : Transfer A) :
  (ci < 4)%nat -> steps_or_stays op -> chip_ok p -> chip_ok (fst (fst (cycle p ci m op))).
Proof.
  intros Hci Hop Hp. unfold cycle, begin_cycle.
  destruct (controller_disabled p || mask (channel p ci) || _ || _) eqn:Eg; cbn [negb];
    [by apply index_ok|].
  assert (Hm : mask (channel p ci) = false) by (bool_prop; tauto).
  set (p1 := with_channel p ci _).
  assert (Hp1 : chip_ok_but (eq ci) p1).
  { eapply with_channel_but; [done|exact Hp|keep|by intros ? ? ? []|by intros []]. }
  assert (Hm1 : mask (channel p1 ci) = false).
  { unfold p1. rewrite channel_with_eq; [done|]. destruct Hp. lia. }
  destruct (chip_ok_channel _ _ ci Hp1 Hci) as [Hw _]. clearbody p1.
  pose proof (Hop (channel p1 ci) m) as Hs.
  destruct (op (channel p1 ci) m) as [[c m'] r]. cbn [fst snd] in *.
  apply finish_cycle_ok; [done| |].
  - eapply with_channel_but; [done|exact Hp1| |done|by intros []]. intros _ _.
    destruct r; subst c; [by apply step_transfer_keeps|done].
  - rewrite channel_with_eq by (destruct Hp1; lia). destruct r; [|done]. subst c.
    intros _ Ht _. by rewrite step_transfer_mask.
Qed.

Lemma set_request_ok p ci b : (ci < 4)%nat -> chip_ok p -> chip_ok (set_hardware_request p ci b).
Proof. intros. apply with_channel_ok; [done| | |done]; keep; by repeat case_step. Qed.

Lemma device_cycle_ok {A} d ch m (op : Transfer A) :
  (ch < 8)%nat -> steps_or_stays op -> ctl_ok d -> ctl_ok (fst (fst (device_cycle d ch m op))).
Proof.
  intros Hch Hop (Hm & Hs & Hl). unfold device_cycle. destruct (Nat.ltb_spec ch 4).
  - pose proof (cycle_ok (set_hardware_request (master d) ch true) ch m op) as Hc.
    destruct (cycle _ _ _ _) as [[p m'] r]. cbn in *.
    split_and!; [apply set_request_ok; auto using set_request_ok|done..].
  - pose proof (cycle_ok (set_hardware_request (slave d) (ch - 4) true) (ch - 4) m op) as Hc.
    destruct (cycle _ _ _ _) as [[p m'] r]. cbn in *.
    split_and!; [done| |done]. apply set_request_ok; [lia|]. apply Hc; [lia|done|].
    apply set_request_ok; [lia|done].
Qed.

Lemma load_byte_width hi old v : u16 old -> u8 v -> u16 (load_byte hi old v).
Proof.
  intros Ho Hv. unfold load_byte. destruct hi; cbn [negb]; apply lor_width; try lia.
  - apply land_width; [lia|done|lia].
  - apply wrap_in_width. lia.
  - apply land_width; [lia|done|lia].
  - by apply (in_width_mono 8).
Qed.

Lemma write_addr_ok p ci v : (ci < 4)%nat -> u8 v -> chip_ok p -> chip_ok (write_addr p ci v).
Proof.
  intros Hci Hv Hp. destruct (chip_ok_channel _ p ci Hp Hci) as [(Hb & _) _].
  pose proof (load_byte_width (hi_lo p) _ _ Hb Hv).
  unfold write_addr. eapply registers_ok; [|done..].
  apply with_channel_ok; [done|keep|keep|exact Hp].
Qed.

Lemma write_count_ok p ci v : (ci < 4)%nat -> u8 v -> chip_ok p -> chip_ok (write_count p ci v).
Proof.
  intros Hci Hv Hp. destruct (chip_ok_channel _ p ci Hp Hci) as [(_ & _ & Hb & _) _].
  pose proof (load_byte_width (hi_lo p) _ _ Hb Hv).
  unfold write_count. eapply registers_ok; [|done..].
  apply with_channel_ok; [done|keep|keep|].
  eapply registers_ok; [|done..]. apply with_channel_ok; [done|keep|keep|exact Hp].
Qed.

(** The registers that address every channel at once. *)
Lemma channels_ok p q (g : nat -> DmaChannel -> DmaChannel) :
  chip_ok p -> channels q = imap g (channels p) -> panicked q = panicked p ->
  (forall i, keeps_wf (g i) /\ keeps_grant (g i)) -> chip_ok q.
Proof.
  intros (Hl & Hp & Hc) E Ep Hg. split_and!; [by rewrite E, length_imap|by rewrite Ep|].
  intros i c. rewrite E, list_lookup_imap. destruct (channels p !! i) eqn:Ei; [|done].
  intros [= <-]. destruct (Hc _ _ Ei) as [H1 H2]. destruct (Hg i) as [K1 K2].
  split; [by apply K1|]. intros Hx. apply K2, H2, Hx.
Qed.

Lemma imap_const {A} (f : A -> A) (l : list A) : imap (fun _ => f) l = f <$> l.
Proof. induction l as [|x l IH]; [done|]. cbn. f_equal. exact IH. Qed.

Lemma master_clear_ok p : chip_ok p -> chip_ok (master_clear p).
Proof.
  intros Hp. eapply (channels_ok p); [exact Hp|symmetry; apply imap_const|done|]. intros i. split; keep.
Qed.

Lemma local_channel local ci :
  addr_channel local = Some ci \/ count_channel local = Some ci -> 0 <= local -> (ci < 4)%nat.
Proof.
  unfold addr_channel, count_channel. intros [H|H] ?; revert H; case_step; try done;
    intros [= <-]; bool_prop; pose proof (Z.div_lt_upper_bound local 2 4); lia.
Qed.

Lemma value_channel v : (Z.to_nat (Z.land v 3) < 4)%nat.
Proof. change 3 with (Z.ones 2). rewrite Z.land_ones by lia. pose proof (Z.mod_pos_bound v (2 ^ 2)). lia. Qed.

Lemma write_local_ok p local v : 0 <= local -> u8 v -> chip_ok p -> chip_ok (write_local p local v).
Proof.
  intros Hl Hv Hp. unfold write_local.
  destruct (addr_channel local) eqn:Ea; [apply write_addr_ok; eauto using local_channel|].
  destruct (count_channel local) eqn:Ec; [apply write_count_ok; eauto using local_channel|].
  pose proof (value_channel v) as Hci. destruct (set_mode_keeps v) as [Hm1 Hm2].
  repeat case_match;
    first [exact Hp|by apply master_clear_ok
          |by apply with_channel_ok; [done|apply set_mask_keeps|apply set_mask_grant|]
          |by apply with_channel_ok
          |by eapply (registers_ok p)
          |by eapply (channels_ok p); [exact Hp|symmetry; apply imap_const|done|]; split; keep
          |by eapply (channels_ok p); [exact Hp|done..|];
             intros; split; [apply set_mask_keeps|apply set_mask_grant]].
Qed.

Lemma page_target_channel port side ci : page_target port = Some (side, ci) -> (ci < 4)%nat.
Proof. unfold page_target. repeat case_match; intros; simplify_eq; lia. Qed.

Lemma slave_local_nonneg port local : slave_local port = Some local -> 0 <= port -> 0 <= local.
Proof. unfold slave_local. intros E ?. repeat case_match; simplify_eq; try done; apply Z.div_pos; lia. Qed.

Lemma write_port_ok d port v : 0 <= port -> u8 v -> ctl_ok d -> ctl_ok (fst (write_port d port v)).
Proof.
  intros Hp Hv (Hm & Hs & Hl). unfold write_port, ctl_ok.
  case_step; [cbn; auto using write_local_ok|].
  destruct (slave_local port) as [local|] eqn:El;
    [cbn; eauto using write_local_ok, slave_local_nonneg|].
  destruct (page_target port) as [[[|] ci]|] eqn:Et.
  - apply page_target_channel in Et. cbn. split_and!; [|done..].
    apply with_channel_ok; [done|keep|keep|done].
  - apply page_target_channel in Et. cbn. split_and!; [done| |done].
    apply with_channel_ok; [done|keep|keep|done].
  - repeat case_step; cbn; auto. by rewrite length_insert.
Qed.

Lemma flip_ok p ci b : (ci < 4)%nat -> chip_ok p -> chip_ok ((index p ci) <| hi_lo := b |>).
Proof. intros Hci Hp. eapply registers_ok; [apply (index_ok _ p ci Hci Hp)|done..]. Qed.

Lemma read_local_ok p local : 0 <= local -> chip_ok p -> chip_ok (fst (read_local p local)).
Proof.
  intros Hl Hp. unfold read_local, read_addr, read_count.
  destruct (addr_channel local) eqn:Ea; [apply flip_ok; eauto using local_channel|].
  destruct (count_channel local) eqn:Ec; [apply flip_ok; eauto using local_channel|].
  repeat case_match; first [exact Hp|by eapply (registers_ok p)].
Qed.

Lemma read_port_ok d port : 0 <= port -> ctl_ok d -> ctl_ok (fst (read_port d port)).
Proof.
  intros Hp (Hm & Hs & Hl). unfold read_port. case_step.
  { pose proof (read_local_ok (master d) port Hp Hm). by destruct (read_local (master d) port). }
  destruct (slave_local port) as [local|] eqn:El.
  { pose proof (read_local_ok (slave d) local (slave_local_nonneg _ _ El Hp) Hs).
    by destruct (read_local (slave d) local). }
  destruct (page_target port) as [[[|] ci]|] eqn:Et; [..|repeat case_step; done];
    apply page_target_channel in Et; split_and!; first [done|by apply index_ok].
Qed.

Lemma read_count_timed_ok p ci now : (ci < 4)%nat -> chip_ok p -> chip_ok (fst (read_count_timed p ci now)).
Proof. apply flip_ok. Qed.

Lemma read_port_timed_ok d port now dma : 0 <= port -> ctl_ok d -> ctl_ok (fst (read_port_timed d port now dma)).
Proof.
  intros Hp Hd. pose proof (read_port_ok d port Hp Hd) as Hr. unfold read_port_timed.
  case_step; [exact Hr|]. destruct Hd as (Hm & Hs & Hl). case_step.
  - destruct (count_channel port) eqn:Ec; [|exact Hr].
    cbn. split_and!; [|done..]. apply (read_count_timed_ok _ _ now); eauto using local_channel.
  - destruct (slave_local port) as [local|] eqn:El; [|exact Hr].
    destruct (count_channel local) eqn:Ec; [|exact Hr].
    cbn. split_and!; [done| |done].
    apply (read_count_timed_ok _ _ now); eauto using local_channel, slave_local_nonneg.
Qed.

Lemma arm_transfer_window_ok d ch now deadline :
  (ch < 8)%nat -> ctl_ok d -> ctl_ok (arm_transfer_window d ch now deadline).
Proof.
  intros Hch (Hm & Hs & Hl). unfold arm_transfer_window.
  destruct (Nat.ltb_spec ch 4); cbn; split_and!; try done;
    (apply with_channel_ok; [lia|keep|keep|done]).
Qed.

Definition copying_channel (i : nat) : Prop := (i < 2)%nat.

Lemma release_ok p : chip_ok_but copying_channel p -> chip_ok (release p).
Proof.
  intros Hp. unfold release.
  eapply (with_channel_but (eq 1%nat)); [lia| |keep|congruence|by intros _ _ ?].
  eapply with_channel_but; [lia|exact Hp|keep| |by intros _ _ ?].
  intros i Hi H1 H2. unfold copying_channel in H2. lia.
Qed.

Lemma hold_step_keeps_wf : keeps_wf hold_step.
Proof.
  unfold hold_step. keep. destruct H as (? & ? & ? & ? & ?). split_and!; try done.
  apply wrap_in_width. lia.
Qed.

Lemma copying_step_ok p ci f :
  (ci < 2)%nat -> keeps_wf f -> chip_ok_but copying_channel p ->
  chip_ok_but copying_channel (with_channel p ci f).
Proof.
  intros Hci Hf Hp. eapply with_channel_but; [lia|exact Hp|done|done|]. intros []. done.
Qed.

Lemma copy_loop_ok fuel hold p m k p' m' r :
  chip_ok_but copying_channel p -> copy_loop fuel hold p m k = Some (p', m', r) -> chip_ok p'.
Proof.
  revert p m k. induction fuel as [|fuel IH]; intros p m k Hp; [done|]. cbn [copy_loop].
  destruct (read_u8 m _); [|intros [= <- _ _]; by apply release_ok].
  destruct (write_u8 m _ _); [|intros [= <- _ _]; by apply release_ok].
  set (q := with_channel (with_channel p 1 step_transfer) 0 _).
  assert (Hq : chip_ok_but copying_channel q).
  { apply copying_step_ok; [lia| |apply copying_step_ok; [lia|apply step_transfer_keeps|done]].
    destruct hold; [apply hold_step_keeps_wf|apply step_transfer_keeps]. }
  clearbody q. case_step; [|by apply IH]. intros E'.
  apply (f_equal (fmap (fun x => fst (fst x)))) in E'. cbn [fmap option_fmap option_map fst] in E'.
  injection E' as <-. apply release_ok. exact Hq.
Qed.

Lemma chip_mem_to_mem_ok p m p' m' r :
  chip_ok p -> Chip.mem_to_mem p m = Some (p', m', r) -> chip_ok p'.
Proof.
  intros Hp. unfold Chip.mem_to_mem.
  case_step; [by intros [= <- _ _]|].
  case_step; [intros [= <- _ _]; by apply index_ok; [lia|]|].
  apply copy_loop_ok.
  apply copying_step_ok; [lia|keep|]. apply copying_step_ok; [lia|keep|].
  destruct Hp as (? & ? & Hc). split_and!; [done..|]. intros i c Ei.
  destruct (Hc i c Ei) as [H1 H2]. split; [done|]. intros _. apply H2. intros [].
Qed.

Lemma mem_to_mem_ok d m d' m' r : ctl_ok d -> mem_to_mem d m = Some (d', m', r) -> ctl_ok d'.
Proof.
  intros (Hm & Hs & Hl) E. unfold mem_to_mem in E.
  destruct (Chip.mem_to_mem (master d) m) as [[[p m1] r1]|] eqn:E1; [|done].
  cbn in E. injection E as <- _ _. split_and!; [|done..].
  exact (chip_mem_to_mem_ok _ _ _ _ _ Hm E1).
Qed.

(** Everything the machine does to the controller. *)
Inductive dma_step : DmaController * Memory -> DmaController * Memory -> Prop :=
| StepWrite d m port v : 0 <= port -> u8 v -> dma_step (d, m) (fst (write_port d port v), m)
| StepRead d m port now dma : 0 <= port -> dma_step (d, m) (fst (read_port_timed d port now dma), m)
| StepArm d m ch now deadline : (ch < 8)%nat ->
    dma_step (d, m) (arm_transfer_window d ch now deadline, m)
| StepReadByte d m ch : (ch < 8)%nat ->
    dma_step (d, m) (fst (fst (read_byte d ch m)), snd (fst (read_byte d ch m)))
| StepReadWord d m ch : (ch < 8)%nat ->
    dma_step (d, m) (fst (fst (read_word d ch m)), snd (fst (read_word d ch m)))
| StepWriteByte d m ch b : (ch < 8)%nat ->
    dma_step (d, m) (fst (fst (write_byte d ch m b)), snd (fst (write_byte d ch m b)))
| StepCopy d m d' m' r : mem_to_mem d m = Some (d', m', r) -> dma_step (d, m) (d', m').

Lemma dma_step_ok x y : dma_step x y -> ctl_ok (fst x) -> ctl_ok (fst y).
Proof.
  intros [d m port v Hp Hv|d m port now dma Hp|d m ch now t Hch|d m ch Hch|d m ch Hch|d m ch b Hch
         |d m d' m' r E] H; cbn [fst] in *.
  - by apply write_port_ok.
  - by apply read_port_timed_ok.
  - by apply arm_transfer_window_ok.
  - by apply device_cycle_ok; [|apply read_byte_steps|].
  - unfold read_word. case_step; [done|]. by apply device_cycle_ok; [|apply read_word_steps|].
  - by apply device_cycle_ok; [|apply write_byte_steps|].
  - by eapply mem_to_mem_ok.
Qed.

Lemma default_ok : ctl_ok default.
Proof.
  assert (H : chip_ok Chip.default).
  { split_and!; [reflexivity..|]. intros i c E. split.
    - destruct dma_default_wf as [[_ Hf] _]. by eapply Forall_lookup_1.
    - cbn in E. do 4 (destruct i as [|i]; [by injection E as <-|]). done. }
  split_and!; [exact H|exact H|reflexivity].
Qed.

Lemma word_address_bounds c :
  channel_wf c -> 0 <= word_address c /\ word_address c + 1 < 2 ^ 24 /\ Z.even (word_address c) = true.
Proof.
  intros (_ & Ha & _ & _ & Hp).
  assert (He : Z.even (word_address c) = true).
  { rewrite <-Z.negb_odd, <-Z.bit0_odd. unfold word_address.
    by rewrite Z.lor_spec, !Z.shiftl_spec_low by lia. }
  assert (Hw : in_width 24 (word_address c)).
  { apply lor_width; [lia|..].
    - assert (u8 (Z.land (page c) 254)) by (apply land_width; [lia|done|lia]).
      rewrite Z.shiftl_mul_pow2 by lia. zlia.
    - rewrite Z.shiftl_mul_pow2 by lia. zlia. }
  split_and!; [zlia| |done]. apply Z.even_spec in He as [k He]. zlia.
Qed.

Lemma writes_reachable ws d m :
  Forall (fun w => 0 <= fst w /\ u8 (snd w)) ws -> rtc dma_step (d, m) (writes d ws, m).
Proof.
  intros H. revert d. induction H as [|w ws [Hp Hv] _ IH]; intros d; [apply rtc_refl|].
  eapply rtc_l; [by apply StepWrite|apply IH].
Qed.

(** C38.  The controller never panics and never holds a bad grant.  In every state
    reached from power-on by port accesses with byte values, reads of the
    interpolated count, armed windows, device transfers and memory-to-memory
    copies: no operation has indexed a chip's channel array out of range (the model
    records it), the index of every further operation is in range, and so is every
    scratch latch; a channel still holding a grant is not masked; the byte address
    lies below 16 MiB, and both bytes of a word transfer do, at an even address;
    and a memory-to-memory request runs to an end. *)
Theorem dma_never_panics m0 d m :
  rtc dma_step (default, m0) (d, m) ->
  panicked (master d) = false /\ panicked (slave d) = false /\
  (forall port, is_scratch_page port = true ->
     (Z.to_nat (Z.land port 15) < length (page_scratch d))%nat) /\
  (forall ch, (ch < 8)%nat ->
     (local_of ch < length (channels (chip_of d ch)))%nat /\
     (active (channel_of d ch) = true -> mask (channel_of d ch) = false) /\
     0 <= byte_address (channel_of d ch) < 2 ^ 24 /\
     0 <= word_address (channel_of d ch) /\ word_address (channel_of d ch) + 1 < 2 ^ 24 /\
     Z.even (word_address (channel_of d ch)) = true) /\
  exists r, mem_to_mem d m = Some r.
Proof.
  intros Hr.
  assert (Hok : ctl_ok d).
  { pose proof default_ok as H0. change d with (fst (d, m)).
    change default with (fst (default, m0)) in H0.
    induction Hr as [x|x y z Hxy _ IH]; [done|]. eapply IH, dma_step_ok; eauto. }
  destruct Hok as (Hm & Hs & Hl). split_and!; [apply Hm|apply Hs|..].
  - intros port Hp. rewrite Hl. change 15 with (Z.ones 4). rewrite Z.land_ones by lia.
    pose proof (Z.mod_pos_bound port (2 ^ 4)). lia.
  - intros ch Hch. pose proof (local_of_lt ch Hch) as Hlt.
    assert (Hp : chip_ok (chip_of d ch)) by (unfold chip_of; by destruct (ch <? 4)%nat).
    destruct (chip_ok_channel _ _ _ Hp Hlt) as [Hw Hg].
    pose proof (word_address_bounds _ Hw) as (? & ? & ?).
    split_and!; try done; [destruct Hp; lia|apply Hg; by intros []|..];
      destruct Hw as (_ & ? & _ & _ & ?);
      rewrite byte_address_sum by done; unfold channel_of; zlia.
  - apply mem_to_mem_terminates. split; by eapply chip_ok_wf.
Qed.

(** A channel programmed and unmasked, one byte read from it. *)
Lemma dma_never_panics_witness :
  let d := fst (fst (read_byte (programmed 74) 2 small_memory)) in
  panicked (master d) = false /\ cur_addr (channel_of d 2) = 5.
Proof.
  split; [|vm_compute; reflexivity].
  apply (dma_never_panics small_memory (fst (fst (read_byte (programmed 74) 2 small_memory)))
           small_memory).
  eapply rtc_r; [|exact (StepReadByte (programmed 74) small_memory 2 ltac:(lia))].
  apply (writes_reachable [(12, 0); (4, 4); (4, 0); (5, 3); (5, 0); (129, 0); (11, 74); (10, 2)]).
  repeat constructor; cbn; lia.
Defined.

End Pair.
