(* ===== verification/Rtc.v ===== *)
(** * The MC146818 real-time clock and CMOS RAM

    crates/izarravm-machine/src/rtc.rs.  [Calendar] is the broken-down time and its
    bulk advance ([tick_seconds]) against an abstract second count; [Device] is the
    chip ([Rtc]): its registers, alarm and interrupt flags, the port interface and
    the persisted CMOS image.  An operation of the source that can panic returns an
    option, with [None] for the panic. *)

From stdpp Require Import relations.
From S2P Require Import Prelude Clock Canonical Timeline.

Module Calendar.

Record Time := mkTime {
  year : Z;
  month : Z;
  day : Z;
  weekday : Z;
  hour : Z;
  minute : Z;
  second : Z
}.
#[export] Instance eta_Time : Eta Time := fun t =>
  mkTime (year t) (month t) (day t) (weekday t) (hour t) (minute t) (second t).

Definition bin_to_bcd (n : Z) : Z := Z.lor (wrap 8 (Z.shiftl (n / 10) 4)) (n mod 10).
Definition bcd_to_bin (n : Z) : Z := Z.shiftr n 4 * 10 + Z.land n 15.

Definition DAYS_IN_MONTH : list Z := [0; 31; 28; 31; 30; 31; 30; 31; 31; 30; 31; 30; 31].

Definition is_leap_year (y : Z) : bool :=
  (y mod 4 =? 0) && negb (y mod 100 =? 0) || (y mod 400 =? 0).

(** The month is 1 to 12 wherever the source calls it. *)
Definition days_in_month (y m : Z) : Z :=
  if (m =? 2) && is_leap_year y then 29 else DAYS_IN_MONTH !!! Z.to_nat m.

(** The calendar loop of [tick_seconds] over the carried days.  The guest can leave a
    day register beyond the end of its month; [dim - day] then underflows.  The
    release profile has no overflow checks and the subtraction wraps, which is what
    is modelled; a build with overflow checks panics there.  The theorems below cover
    such dates, as the release build treats them.  [None] when [fuel] runs out. *)
Fixpoint roll_days (fuel : nat) (t : Time) (remaining : Z) : option Time :=
  match fuel with
  | O => None
  | S fuel =>
      if remaining <=? 0 then Some t
      else
        let dim := days_in_month (year t) (month t) in
        let day_total := day t + remaining in
        if day_total <=? dim then roll_days fuel (t <| day := day_total |>) 0
        else
          let remaining := wrap 64 (remaining - wrap 64 (dim - day t + 1)) in
          let t := t <| day := 1 |> in
          let t :=
            if month t =? 12 then t <| month := 1 |> <| year := wrap 16 (year t + 1) |>
            else t <| month := month t + 1 |> in
          roll_days fuel t remaining
  end.

(** A month consumes at least 28 days; two turns finish, one may precede the
    first whole month. *)
Definition roll_fuel (days : Z) : nat := Z.to_nat (days / 28 + 4).

(** [tick_seconds] on the broken-down time. *)
Definition tick (t : Time) (n : Z) : option Time :=
  if n =? 0 then Some t
  else
    let second_total := wrap 64 (second t + n) in
    let t := t <| second := wrap 8 (second_total mod 60) |> in
    let minute_total := wrap 64 (minute t + second_total / 60) in
    let t := t <| minute := wrap 8 (minute_total mod 60) |> in
    let hour_total := wrap 64 (hour t + minute_total / 60) in
    let t := t <| hour := wrap 8 (hour_total mod 24) |> in
    let day_carry := hour_total / 24 in
    let t := if 0 <? day_carry then
               let steps := wrap 8 (day_carry mod 7) in
               t <| weekday := wrap 8 ((weekday t - 1 + steps) mod 7 + 1) |>
             else t in
    roll_days (roll_fuel day_carry) t day_carry.

(* ------------------------------------------------------------------ *)
(** ** Absolute time

    The specification: a date is a number of days and a time a number of seconds
    since the start of year 0 of the proleptic Gregorian calendar. *)

(** Leap years among the years 0 to [y - 1]. *)
Definition leaps (y : Z) : Z := (y + 3) / 4 - (y + 99) / 100 + (y + 399) / 400.

Definition days_before_month (y m : Z) : Z :=
  match m with
  | 1 => 0 | 2 => 31 | 3 => 59 | 4 => 90 | 5 => 120 | 6 => 151 | 7 => 181 | 8 => 212
  | 9 => 243 | 10 => 273 | 11 => 304 | 12 => 334 | _ => 0
  end + (if (2 <? m) && is_leap_year y then 1 else 0).

Definition abs_day (t : Time) : Z :=
  365 * year t + leaps (year t) + days_before_month (year t) (month t) + (day t - 1).

Definition time_of_day (t : Time) : Z := hour t * 3600 + minute t * 60 + second t.

Definition abs_second (t : Time) : Z := abs_day t * 86400 + time_of_day t.

(** A date of the calendar and a time of day. *)
Definition valid (t : Time) : Prop :=
  u16 (year t) /\ 1 <= month t <= 12 /\ 1 <= day t <= days_in_month (year t) (month t) /\
  1 <= weekday t <= 7 /\ 0 <= hour t <= 23 /\ 0 <= minute t <= 59 /\ 0 <= second t <= 59.

(** The first second after the last year the 16-bit year holds. *)
Definition END_OF_TIME : Z := abs_day (mkTime 65536 1 1 1 0 0 0) * 86400.

Lemma leap_step y : leaps (y + 1) = leaps y + (if is_leap_year y then 1 else 0).
Proof.
  unfold leaps, is_leap_year.
  destruct (Z.eqb_spec (y mod 4) 0), (Z.eqb_spec (y mod 100) 0), (Z.eqb_spec (y mod 400) 0);
    cbn [andb orb negb]; Z.div_mod_to_equations; lia.
Qed.

Ltac months m := 
  let H := fresh in
  assert (m = 1 \/ m = 2 \/ m = 3 \/ m = 4 \/ m = 5 \/ m = 6 \/ m = 7 \/ m = 8 \/ m = 9 \/
          m = 10 \/ m = 11 \/ m = 12) as H by lia;
  destruct H as [->|[->|[->|[->|[->|[->|[->|[->|[->|[->|[->| ->]]]]]]]]]]].

Lemma days_in_month_table y m : 1 <= m <= 12 ->
  days_in_month y m =
  match m with
  | 2 => if is_leap_year y then 29 else 28
  | 4 | 6 | 9 | 11 => 30
  | _ => 31
  end.
Proof. intros Hm. unfold days_in_month. months m; destruct (is_leap_year y); reflexivity. Qed.

Lemma days_in_month_bound y m : 1 <= m <= 12 -> 28 <= days_in_month y m <= 31.
Proof. intros Hm. rewrite days_in_month_table by done. months m; try lia. destruct (is_leap_year y); lia. Qed.

(** The days before the next month. *)
Lemma next_month y m : 1 <= m < 12 ->
  days_before_month y (m + 1) = days_before_month y m + days_in_month y m.
Proof.
  intros Hm. rewrite days_in_month_table by lia. unfold days_before_month.
  months m; try lia; cbn; destruct (is_leap_year y); reflexivity.
Qed.

Lemma next_year y :
  365 * (y + 1) + leaps (y + 1) + days_before_month (y + 1) 1 =
  365 * y + leaps y + days_before_month y 12 + days_in_month y 12.
Proof.
  rewrite leap_step, days_in_month_table by lia. unfold days_before_month. cbn.
  destruct (is_leap_year y); lia.
Qed.

(** The first day of the month after [t]'s. *)
Definition month_after (t : Time) : Time :=
  let t := t <| day := 1 |> in
  if month t =? 12 then t <| month := 1 |> <| year := wrap 16 (year t + 1) |>
  else t <| month := month t + 1 |>.

Lemma month_after_day t :
  u16 (year t) -> year t + 1 < 2 ^ 16 \/ month t < 12 -> 1 <= month t <= 12 ->
  abs_day (month_after t) = abs_day t + (days_in_month (year t) (month t) - day t + 1) /\
  u16 (year (month_after t)) /\ 1 <= month (month_after t) <= 12 /\ day (month_after t) = 1 /\
  weekday (month_after t) = weekday t /\ time_of_day (month_after t) = time_of_day t /\
  hour (month_after t) = hour t /\ minute (month_after t) = minute t /\
  second (month_after t) = second t.
Proof.
  intros Hy Hy' Hm. unfold month_after, abs_day. cbn. destruct (Z.eqb_spec (month t) 12) as [E|Hne]; cbn.
  - rewrite wrap_id by zlia. pose proof (next_year (year t)). rewrite E. split_and!; try done; zlia.
  - pose proof (next_month (year t) (month t)). split_and!; try done; zlia.
Qed.

(** A valid date lies within its year. *)
Lemma abs_day_in_year t :
  1 <= month t <= 12 -> 1 <= day t <= days_in_month (year t) (month t) ->
  365 * year t + leaps (year t) <= abs_day t < 365 * (year t + 1) + leaps (year t + 1).
Proof.
  intros Hm Hd. rewrite leap_step. rewrite days_in_month_table in Hd by done.
  unfold abs_day, days_before_month.
  generalize dependent (month t). intros m Hm Hd.
  months m; cbn in *; destruct (is_leap_year (year t)); cbn in *; lia.
Qed.

Lemma leaps_mono a b : a <= b -> leaps a <= leaps b.
Proof.
  intros H. replace b with (a + Z.of_nat (Z.to_nat (b - a))) by lia.
  induction (Z.to_nat (b - a)) as [|n IH]; [rewrite Z.add_0_r; lia|].
  rewrite Nat2Z.inj_succ. replace (a + Z.succ (Z.of_nat n)) with (a + Z.of_nat n + 1) by lia.
  rewrite leap_step. destruct (is_leap_year _); lia.
Qed.


(** The ranges the device keeps its fields in; the day may exceed a short month. *)
Definition in_range (t : Time) : Prop :=
  u16 (year t) /\ 1 <= month t <= 12 /\ 1 <= day t <= 31 /\
  1 <= weekday t <= 7 /\ 0 <= hour t <= 23 /\ 0 <= minute t <= 59 /\ 0 <= second t <= 59.

Lemma valid_in_range t : valid t -> in_range t.
Proof.
  unfold valid, in_range. intros (? & Hm & ? & ?). pose proof (days_in_month_bound (year t) _ Hm).
  split_and!; lia || tauto.
Qed.

(** The parts of the time that the calendar loop leaves alone. *)
Definition same_clock (t t' : Time) : Prop :=
  weekday t' = weekday t /\ hour t' = hour t /\ minute t' = minute t /\ second t' = second t.

Definition LAST_DAY : Z := 365 * 65536 + leaps 65536.

Lemma wrap_sub_wrap a b : 0 <= a - b < 2 ^ 64 -> wrap 64 (a - wrap 64 b) = a - b.
Proof. intros H. unfold wrap. rewrite Zminus_mod_idemp_r. by apply Z.mod_small. Qed.

(** The year does not wrap while the date stays before the end of time. *)
Lemma year_below t :
  u16 (year t) -> 1 <= month t <= 12 -> abs_day t - (day t - 1) + days_in_month (year t) (month t) < LAST_DAY ->
  year t + 1 < 2 ^ 16 \/ month t < 12.
Proof.
  intros Hy Hm Hb. destruct (decide (month t = 12)) as [E|]; [left|right; lia].
  destruct (Z.lt_ge_cases (year t + 1) (2 ^ 16)) as [|Hge]; [done|].
  assert (Ey : year t = 65535) by zlia. pose proof (next_year 65535) as Hn.
  unfold abs_day in Hb. rewrite E, Ey in Hb. unfold LAST_DAY in Hb.
  change (65535 + 1) with 65536 in Hn. change (days_before_month 65536 1) with 0 in Hn. lia.
Qed.

Lemma abs_day_nonneg t : 0 <= year t -> 1 <= month t <= 12 -> 1 <= day t -> 0 <= abs_day t.
Proof.
  intros Hy Hm Hd. pose proof (leaps_mono 0 (year t) Hy). change (leaps 0) with 0 in *.
  unfold abs_day, days_before_month. generalize dependent (month t). intros m Hm.
  months m; cbn; destruct (is_leap_year (year t)); lia.
Qed.

Lemma LAST_DAY_value : LAST_DAY = 23936532.
Proof. reflexivity. Qed.

Lemma roll_days_spec fuel : forall t n,
  u16 (year t) -> 1 <= month t <= 12 -> 1 <= day t <= 31 -> 0 <= n ->
  (n = 0 /\ (0 < fuel)%nat \/ n + day t - 1 < 28 * (Z.of_nat fuel - 1)) -> abs_day t + n < LAST_DAY ->
  exists t', roll_days fuel t n = Some t' /\ abs_day t' = abs_day t + n /\ same_clock t t' /\
    u16 (year t') /\ 1 <= month t' <= 12 /\ 1 <= day t' <= 31 /\
    (n = 0 -> t' = t) /\ (0 < n -> day t' <= days_in_month (year t') (month t')).
Proof.
  induction fuel as [|fuel IH]; intros t n Hy Hm Hd Hn Hf Hend; [lia|]. cbn [roll_days].
  destruct (Z.leb_spec n 0).
  { exists t. replace n with 0 by lia. rewrite Z.add_0_r. split_and!; try done; lia. }
  pose proof (days_in_month_bound (year t) (month t) Hm) as Hdim.
  assert (Hn63 : n < 2 ^ 62).
  { pose proof (abs_day_nonneg t ltac:(zlia) Hm ltac:(lia)). rewrite LAST_DAY_value in Hend. zlia. }
  destruct (Z.leb_spec (day t + n) (days_in_month (year t) (month t))).
  - destruct (IH (t <| day := day t + n |>) 0) as (t' & E & Ea & Hs & Hr);
      [cbn -[Z.pow]; first [done|zlia|left; lia|unfold abs_day in *; cbn; lia]..|].
    exists t'. rewrite E. destruct Hr as (? & ? & ? & E0 & _). rewrite (E0 eq_refl) in *.
    split_and!; try done; cbn; try lia. unfold abs_day; cbn. lia.
  - fold (month_after t). rewrite wrap_sub_wrap by zlia.
    set (n' := n - (days_in_month (year t) (month t) - day t + 1)).
    destruct (month_after_day t Hy) as (Ea & Hy' & Hm' & Hd' & Hw & _ & Hh & Hmi & Hse); [|done|].
    { apply year_below; [done|done|]. lia. }
    destruct (IH (month_after t) n') as (t' & E & Eab & Hs & Hr);
      [first [done|unfold n'; zlia|right; unfold n'; zlia]..|].
    { exists t'.
      rewrite E. destruct Hr as (? & ? & ? & E0 & Hle). split_and!; try done; try lia.
      - unfold same_clock in *. destruct Hs as (-> & -> & -> & ->). done.
      - intros _. destruct (Z.eq_dec n' 0) as [En|En]; [|apply Hle; lia].
        rewrite (E0 En), Hd'. pose proof (days_in_month_bound (year (month_after t)) _ Hm'). lia. }
Qed.

Definition next_weekday (w days : Z) : Z := (w - 1 + days) mod 7 + 1.

(** What the carries do to the time of day. *)
Lemma carries s mi h n :
  0 <= s -> 0 <= mi -> 0 <= h -> 0 <= n ->
  let mt := mi + (s + n) / 60 in
  let ht := h + mt / 60 in
  ht mod 24 * 3600 + mt mod 60 * 60 + (s + n) mod 60 = h * 3600 + mi * 60 + s + n - ht / 24 * 86400 /\
  0 <= ht / 24 <= (h * 3600 + mi * 60 + s + n) / 86400.
Proof. intros. cbv zeta. Z.div_mod_to_equations. lia. Qed.

Lemma tick_spec t n :
  in_range t -> 0 <= n -> abs_second t + n < LAST_DAY * 86400 ->
  exists t', tick t n = Some t' /\ abs_second t' = abs_second t + n /\ in_range t' /\
    (valid t -> valid t') /\ weekday t' = next_weekday (weekday t) (abs_day t' - abs_day t).
Proof.
  intros (Hy & Hm & Hd & Hw & Hh & Hmi & Hs) Hn Hend. unfold tick, next_weekday.
  destruct (Z.eqb_spec n 0) as [->|Hne].
  { exists t. rewrite Z.sub_diag, !Z.add_0_r. split_and!; try done. Z.div_mod_to_equations; lia. }
  pose proof (abs_day_nonneg t ltac:(zlia) Hm ltac:(lia)) as Hpos.
  destruct (carries (second t) (minute t) (hour t) n) as [Htod Hc]; try lia.
  assert (Hsmall : n < 2 ^ 60).
  { unfold abs_second, time_of_day in Hend. rewrite LAST_DAY_value in Hend. zlia. }
  cbn [second minute hour weekday update].
  rewrite (wrap_id 64 (second t + n)) by zlia.
  assert (0 <= (second t + n) / 60 < 2 ^ 61) by (Z.div_mod_to_equations; zlia).
  rewrite (wrap_id 64 (minute t + _)) by zlia.
  set (mt := minute t + (second t + n) / 60) in *.
  assert (0 <= mt / 60 < 2 ^ 62) by (unfold mt in *; Z.div_mod_to_equations; zlia).
  rewrite (wrap_id 64 (hour t + _)) by zlia.
  set (ht := hour t + mt / 60) in *. set (carry := ht / 24) in *.
  rewrite (wrap_id 8 (_ mod 60)), (wrap_id 8 (mt mod 60)), (wrap_id 8 (ht mod 24))
    by (unfold in_width; Z.div_mod_to_equations; zlia).
  set (t1 := if 0 <? carry then _ else _).
  assert (Ht1 : abs_day t1 = abs_day t /\ time_of_day t1 = time_of_day t + n - carry * 86400 /\
    year t1 = year t /\ month t1 = month t /\ day t1 = day t /\
    weekday t1 = (weekday t - 1 + carry) mod 7 + 1 /\ 0 <= hour t1 <= 23 /\
    0 <= minute t1 <= 59 /\ 0 <= second t1 <= 59).
  { unfold t1. destruct (Z.ltb_spec 0 carry); cbn; unfold time_of_day; cbn;
      rewrite ?(wrap_id 8 (carry mod 7)), ?(wrap_id 8) by (unfold in_width; Z.div_mod_to_equations; zlia);
      rewrite ?Zplus_mod_idemp_r;
      (split_and!; [done|lia|done|done|done| |Z.div_mod_to_equations; lia..]); [done|].
    replace carry with 0 by lia. Z.div_mod_to_equations; lia. }
  clearbody t1. destruct Ht1 as (Ea & Etod & Eyr & Emo & Edy & Ewd & Bh & Bm & Bs).
  destruct (roll_days_spec (roll_fuel carry) t1 carry) as
    (t' & E & Eab & (Sw & Sh & Smi & Ss) & By & Bmo & Bd & E0 & Hval);
    rewrite ?Eyr, ?Emo, ?Edy, ?Ea; try done; try lia.
  { right. unfold roll_fuel. rewrite Z2Nat.id by (Z.div_mod_to_equations; lia).
    Z.div_mod_to_equations; lia. }
  { unfold abs_second in Hend. unfold time_of_day in *. lia. }
  exists t'. split; [exact E|].
  assert (Etod' : time_of_day t' = time_of_day t1) by (unfold time_of_day; by rewrite Sh, Smi, Ss).
  unfold in_range, valid, abs_second. rewrite Etod', Etod, Eab, Ea, Sw, Sh, Smi, Ss, Ewd.
  assert (1 <= (weekday t - 1 + carry) mod 7 + 1 <= 7) by (Z.div_mod_to_equations; lia).
  split_and!; try done; try lia; [|f_equal; f_equal; lia].
  intros Hv. split_and!; try done; try lia.
  destruct (Z.eq_dec carry 0) as [Ez|]; [|apply Hval; lia].
  rewrite (E0 Ez), Eyr, Emo, Edy. apply Hv.
Qed.

(** Dates of the calendar are determined by their day number. *)
Lemma abs_day_inj t u :
  valid t -> valid u -> abs_day t = abs_day u ->
  year t = year u /\ month t = month u /\ day t = day u.
Proof.
  intros (Hy & Hm & Hd & _) (Hy' & Hm' & Hd' & _) E.
  pose proof (abs_day_in_year t Hm Hd). pose proof (abs_day_in_year u Hm' Hd').
  assert (Ey : year t = year u).
  { destruct (Z.lt_total (year t) (year u)) as [Hl|[Hl|Hl]]; [|done|]; exfalso.
    - pose proof (leaps_mono (year t + 1) (year u)). lia.
    - pose proof (leaps_mono (year u + 1) (year t)). lia. }
  split; [done|]. unfold abs_day in E. rewrite <-Ey in *. clear H H0.
  rewrite days_in_month_table in Hd, Hd' by done. unfold days_before_month in E.
  generalize dependent (month t). intros m Hm Hd Hm2. generalize dependent (month u).
  intros m' Hm'' Hd' E. months m; months m'; cbn in *; destruct (is_leap_year (year t)); lia.
Qed.

(** C34.  The bulk advance is exact: from any time whose fields are in range (even a
    day beyond the end of a short month, which the guest can program), advancing
    [n] seconds returns, adds exactly [n] to the absolute time of the Gregorian
    calendar, keeps a valid date valid, and moves the weekday by the days passed, as
    long as it ends before the end of year 65535, the last the 16-bit year holds.
    (For a day beyond its month this is the release build, whose subtraction wraps.) *)
Theorem tick_absolute t n :
  in_range t -> 0 <= n -> abs_second t + n < LAST_DAY * 86400 ->
  exists t', tick t n = Some t' /\ abs_second t' = abs_second t + n /\ in_range t' /\
    (valid t -> valid t') /\ weekday t' = next_weekday (weekday t) (abs_day t' - abs_day t).
Proof. apply tick_spec. Qed.

Lemma tick_absolute_witness :
  let t := mkTime 2027 12 31 6 23 59 58 in
  tick t 5270402 = Some (mkTime 2028 3 2 5 0 0 0) /\
  exists t', tick t 5270402 = Some t' /\ abs_second t' = abs_second t + 5270402 /\ in_range t' /\
    (valid t -> valid t') /\ weekday t' = next_weekday (weekday t) (abs_day t' - abs_day t).
Proof.
  split; [reflexivity|].
  apply (tick_absolute (mkTime 2027 12 31 6 23 59 58) 5270402).
  - unfold in_range; cbn; zlia.
  - lia.
  - reflexivity.
Defined.

Lemma next_weekday_add w a b :
  1 <= w <= 7 -> next_weekday (next_weekday w a) b = next_weekday w (a + b).
Proof. unfold next_weekday. intros. Z.div_mod_to_equations; lia. Qed.

Lemma time_of_day_bound t : in_range t -> 0 <= time_of_day t < 86400.
Proof. unfold in_range, time_of_day. lia. Qed.

(** Two valid times of the same second and weekday are the same record. *)
Lemma abs_second_inj t u :
  valid t -> valid u -> abs_second t = abs_second u -> weekday t = weekday u -> t = u.
Proof.
  intros Hv Hv' E Ew.
  pose proof (time_of_day_bound t (valid_in_range t Hv)) as Bt.
  pose proof (time_of_day_bound u (valid_in_range u Hv')) as Bu. unfold abs_second in E.
  assert (Ed : abs_day t = abs_day u) by lia. assert (Et : time_of_day t = time_of_day u) by lia.
  destruct (abs_day_inj t u Hv Hv' Ed) as (E1 & E2 & E3).
  destruct Hv as (_ & _ & _ & _ & ? & ? & ?), Hv' as (_ & _ & _ & _ & ? & ? & ?).
  unfold time_of_day in Et. destruct t, u; cbn in *. f_equal; lia.
Qed.

(** Advancing in any batches is advancing at once: two bulk advances leave the
    same broken-down time, weekday included, as one of their sum. *)
Theorem tick_batches t a b :
  valid t -> 0 <= a -> 0 <= b -> abs_second t + a + b < LAST_DAY * 86400 ->
  exists t1 t2, tick t a = Some t1 /\ tick t1 b = Some t2 /\ tick t (a + b) = Some t2.
Proof.
  intros Hv Ha Hb Hend. pose proof (valid_in_range t Hv) as Hr.
  destruct (tick_spec t a Hr Ha ltac:(lia)) as (t1 & E1 & A1 & R1 & V1 & W1).
  destruct (tick_spec t1 b R1 Hb ltac:(lia)) as (t2 & E2 & A2 & R2 & V2 & W2).
  destruct (tick_spec t (a + b) Hr ltac:(lia) ltac:(lia)) as (t3 & E3 & A3 & R3 & V3 & W3).
  exists t1, t2. split_and!; [done..|]. rewrite E3. f_equal.
  apply abs_second_inj; [by apply V3|by apply V2, V1|lia|].
  rewrite W3, W2, W1, next_weekday_add by apply Hr. f_equal.
  pose proof (time_of_day_bound _ R2). pose proof (time_of_day_bound _ R3).
  unfold abs_second in A1, A2, A3. lia.
Qed.

Lemma tick_batches_witness :
  exists t1 t2, tick (mkTime 2000 2 28 2 23 0 0) 3600 = Some t1 /\ tick t1 86400 = Some t2 /\
    tick (mkTime 2000 2 28 2 23 0 0) (3600 + 86400) = Some t2.
Proof.
  apply (tick_batches (mkTime 2000 2 28 2 23 0 0) 3600 86400).
  - unfold valid. vm_compute. intuition congruence.
  - lia.
  - lia.
  - reflexivity.
Defined.

End Calendar.

Module Device.
Import Calendar.

Definition REG_SECONDS : Z := 0.
Definition REG_MINUTES : Z := 2.
Definition REG_HOURS : Z := 4.
Definition REG_WEEKDAY : Z := 6.
Definition REG_DAY : Z := 7.
Definition REG_MONTH : Z := 8.
Definition REG_YEAR : Z := 9.
Definition REG_A : Z := 10.
Definition REG_B : Z := 11.
Definition REG_C : Z := 12.
Definition REG_D : Z := 13.
Definition REG_A_DEFAULT : Z := 38.
Definition REG_B_DEFAULT : Z := 6.
Definition REG_D_DEFAULT : Z := 128.
Definition REG_B_PIE : Z := 64.
Definition REG_B_AIE : Z := 32.
Definition REG_B_UIE : Z := 16.
Definition REG_C_IRQF : Z := 128.
Definition REG_C_PF : Z := 64.
Definition REG_C_AF : Z := 32.
Definition REG_C_UF : Z := 16.
Definition REG_SECONDS_ALARM : Z := 1.
Definition REG_MINUTES_ALARM : Z := 3.
Definition REG_HOURS_ALARM : Z := 5.
Definition NVRAM_CHECKSUM_LO : Z := 16.
Definition NVRAM_CHECKSUM_HI : Z := 45.
Definition NVRAM_CHECKSUM_HIGH : Z := 46.
Definition NVRAM_CHECKSUM_LOW : Z := 47.
Definition REG_DIAGNOSTIC : Z := 14.
Definition DIAG_BAD_CHECKSUM : Z := 64.
Definition DIAG_POWER_LOST : Z := 128.
Definition REG_CENTURY : Z := 50.
Definition REG_CENTURY_ALT : Z := 55.
Definition CENTURY_DEFAULT : Z := 32.

Record Rtc := mkRtc {
  ram : list Z;
  index : Z;
  nmi_disabled : bool;
  time : Time;
  seeded : bool;
  nvram_dirty : bool;
  periodic_phase : Phase.RatePhase
}.
#[export] Instance eta_Rtc : Eta Rtc := fun r =>
  mkRtc (ram r) (index r) (nmi_disabled r) (time r) (seeded r) (nvram_dirty r) (periodic_phase r).

(** [self.ram[i]] and its assignment, for an index of the 64-byte array. *)
Definition get (r : Rtc) (i : Z) : Z := ram r !!! Z.to_nat i.
Definition put (r : Rtc) (i v : Z) : Rtc := r <| ram := <[Z.to_nat i := v]> (ram r) |>.

Definition clamp (v lo hi : Z) : Z := Z.max lo (Z.min v hi).

Definition write_time_registers (r : Rtc) : Rtc :=
  let t := time r in
  let r := put r REG_SECONDS (second t) in
  let r := put r REG_MINUTES (minute t) in
  let r := put r REG_HOURS (hour t) in
  let r := put r REG_WEEKDAY (weekday t) in
  let r := put r REG_DAY (day t) in
  let r := put r REG_MONTH (month t) in
  let r := put r REG_YEAR (wrap 8 (year t mod 100)) in
  let century := bin_to_bcd (wrap 8 (year t / 100)) in
  let r := put r REG_CENTURY century in
  put r REG_CENTURY_ALT century.

Definition read_time_registers (r : Rtc) : Rtc :=
  let yy := get r REG_YEAR mod 100 in
  let century := bcd_to_bin (get r REG_CENTURY) in
  r <| time := mkTime (century * 100 + yy) (clamp (get r REG_MONTH) 1 12) (clamp (get r REG_DAY) 1 31)
         (clamp (get r REG_WEEKDAY) 1 7) (Z.min (get r REG_HOURS) 23)
         (Z.min (get r REG_MINUTES) 59) (Z.min (get r REG_SECONDS) 59) |>.

(** The bytes of the checksum window, indices 10h to 2Dh. *)
Definition checksum_for (bytes : list Z) : Z :=
  fold_left (fun sum byte => wrap 16 (sum + byte))
    (take (Z.to_nat (NVRAM_CHECKSUM_HI + 1 - NVRAM_CHECKSUM_LO))
       (drop (Z.to_nat NVRAM_CHECKSUM_LO) bytes)) 0.

Definition checksum (r : Rtc) : Z := checksum_for (ram r).

Definition refresh_checksum (r : Rtc) : Rtc :=
  let sum := checksum r in
  let r := put r NVRAM_CHECKSUM_HIGH (wrap 8 (Z.shiftr sum 8)) in
  put r NVRAM_CHECKSUM_LOW (wrap 8 (Z.land sum 255)).

Definition new : Rtc :=
  let r := mkRtc (replicate 64 0) 0 false (mkTime 2026 1 1 1 0 0 0) false false Phase.default in
  let r := put r REG_A REG_A_DEFAULT in
  let r := put r REG_B REG_B_DEFAULT in
  let r := put r REG_C 0 in
  let r := put r REG_D REG_D_DEFAULT in
  let r := put r REG_CENTURY CENTURY_DEFAULT in
  let r := put r REG_CENTURY_ALT CENTURY_DEFAULT in
  refresh_checksum (write_time_registers r).

Definition seed (r : Rtc) (yr mo dy wd h m s : Z) : Rtc :=
  let r := r <| time := mkTime yr (clamp mo 1 12) (clamp dy 1 31) (clamp wd 1 7)
                          (Z.min h 23) (Z.min m 59) (Z.min s 59) |> in
  write_time_registers (r <| seeded := true |>).

(** [None] when the calendar loop does not return. *)
Definition tick_seconds (r : Rtc) (n : Z) : option Rtc :=
  if n =? 0 then Some r
  else
    t ← tick (time r) n;
    Some (write_time_registers (r <| time := t |>)).

Definition alarm_matches_time (r : Rtc) (h m s : Z) : bool :=
  let matches (alarm now : Z) := (192 <=? alarm) || (alarm =? now) in
  matches (get r REG_SECONDS_ALARM) s && matches (get r REG_MINUTES_ALARM) m &&
  matches (get r REG_HOURS_ALARM) h.

(** The alarm at a second of the day. *)
Definition alarm_at (r : Rtc) (sec : Z) : bool :=
  alarm_matches_time r (wrap 8 (sec / 3600)) (wrap 8 (sec / 60 mod 60)) (wrap 8 (sec mod 60)).

(** [(delta..).find(f)] over [fuel] successive values. *)
Fixpoint find_delta (f : Z -> bool) (fuel : nat) (delta : Z) : option Z :=
  match fuel with
  | O => None
  | S fuel => if f delta then Some delta else find_delta f fuel (delta + 1)
  end.

Definition seconds_until_alarm (r : Rtc) : option Z :=
  let now := hour (time r) * 3600 + minute (time r) * 60 + second (time r) in
  find_delta (fun delta => alarm_at r ((now + delta) mod 86400)) (Z.to_nat 86400) 1.

Definition periodic_rate_hz (r : Rtc) : Z :=
  if negb (Z.land (get r REG_A) 112 =? 32) then 0
  else match Z.land (get r REG_A) 15 with
       | 0 => 0
       | 1 | 8 => 256
       | 2 | 9 => 128
       | rate => Z.shiftr 32768 (rate - 1)
       end.

Definition latch_interrupt_flags (r : Rtc) (flags : Z) : Rtc * bool :=
  if flags =? 0 then (r, false)
  else
    let was_pending := has (get r REG_C) REG_C_IRQF in
    let r := put r REG_C (Z.lor (get r REG_C) flags) in
    let enables := get r REG_B in
    let enabled := has flags REG_C_PF && has enables REG_B_PIE ||
                   has flags REG_C_AF && has enables REG_B_AIE ||
                   has flags REG_C_UF && has enables REG_B_UIE in
    let r := if enabled then put r REG_C (Z.lor (get r REG_C) REG_C_IRQF) else r in
    (r, enabled && negb was_pending).

Definition alarm_due (r : Rtc) (elapsed : Z) : bool :=
  (0 <? elapsed) &&
  match seconds_until_alarm r with Some seconds => seconds <=? elapsed | None => false end.

Definition advance_master_ticks (r : Rtc) (master_ticks elapsed : Z) : option (Rtc * bool) :=
  let due := alarm_due r elapsed in
  r ← tick_seconds r elapsed;
  let '(phase, events) := Phase.advance (periodic_phase r) master_ticks (periodic_rate_hz r) in
  let r := r <| periodic_phase := phase |> in
  let flags := 0 in
  let flags := if 0 <? events then Z.lor flags REG_C_PF else flags in
  let flags := if 0 <? elapsed then Z.lor flags REG_C_UF else flags in
  let flags := if due then Z.lor flags REG_C_AF else flags in
  Some (latch_interrupt_flags r flags).

(** The inner option is the source's; the outer one is for the loop of [ticks_until]. *)
Definition ticks_until_periodic_irq (r : Rtc) : option Z :=
  if has (get r REG_C) REG_C_IRQF || negb (has (get r REG_B) REG_B_PIE) then None
  else Phase.ticks_until (periodic_phase r) 1 (periodic_rate_hz r).

Definition set_periodic_interrupt_enabled (r : Rtc) (enabled : bool) : Rtc * Z :=
  let r := if enabled then put r REG_B (Z.lor (get r REG_B) REG_B_PIE)
           else put r REG_B (Z.ldiff (get r REG_B) REG_B_PIE) in
  (r, get r REG_B).

Definition alarm (r : Rtc) : Z * Z * Z * bool :=
  (get r REG_HOURS_ALARM, get r REG_MINUTES_ALARM, get r REG_SECONDS_ALARM,
   has (get r REG_B) REG_B_AIE).

Definition set_alarm (r : Rtc) (h m s : Z) : Rtc * bool :=
  if has (get r REG_B) REG_B_AIE then (r, false)
  else
    let r := put r REG_HOURS_ALARM h in
    let r := put r REG_MINUTES_ALARM m in
    let r := put r REG_SECONDS_ALARM s in
    (put r REG_B (Z.lor (Z.lor (Z.ldiff (get r REG_B) 128) REG_B_AIE) REG_B_DEFAULT), true).

Definition cancel_alarm (r : Rtc) : Rtc :=
  let r := put r REG_B (Z.ldiff (get r REG_B) (Z.lor REG_B_AIE 128)) in
  put r REG_B (Z.lor (get r REG_B) REG_B_DEFAULT).

Definition seconds_until_irq (r : Rtc) : option Z :=
  if has (get r REG_C) REG_C_IRQF then None
  else
    let enables := get r REG_B in
    let update := if has enables REG_B_UIE then Some 1 else None in
    let alarm := if has enables REG_B_AIE then seconds_until_alarm r else None in
    match update, alarm with
    | Some u, Some a => Some (Z.min u a)
    | Some u, None => Some u
    | None, a => a
    end.

Definition read_data (r : Rtc) : Rtc * Z :=
  let value := get r (Z.land (index r) 63) in
  (if Z.land (index r) 127 =? REG_C then put r REG_C 0 else r, value).

(** [None]: the register index is beyond the 64 bytes, and the array access panics. *)
Definition write_data (r : Rtc) (value : Z) : option Rtc :=
  let reg := Z.land (index r) 127 in
  r ← match reg with
      | 0 => Some (r <| time := (time r) <| second := Z.min value 59 |> |>)
      | 2 => Some (r <| time := (time r) <| minute := Z.min value 59 |> |>)
      | 4 => Some (r <| time := (time r) <| hour := Z.min value 23 |> |>)
      | 6 => Some (r <| time := (time r) <| weekday := clamp value 1 7 |> |>)
      | 7 => Some (r <| time := (time r) <| day := clamp value 1 31 |> |>)
      | 8 => Some (r <| time := (time r) <| month := clamp value 1 12 |> |>)
      | 9 =>
          let century := year (time r) / 100 * 100 in
          Some (r <| time := (time r) <| year := wrap 16 (century + value mod 100) |> |>)
      | 1 | 3 | 5 => Some (put r reg value)
      | 10 =>
          let value := Z.land value 127 in
          let r := if negb (get r REG_A =? value) then r <| periodic_phase := Phase.default |> else r in
          Some (put r REG_A value)
      | 11 => Some (put r REG_B (Z.lor value REG_B_DEFAULT))
      | 12 | 13 => Some r
      | _ =>
          if 64 <=? reg then None
          else
            let r := (put r reg value) <| nvram_dirty := true |> in
            Some (if reg =? REG_CENTURY
                  then read_time_registers (put r REG_CENTURY_ALT value) else r)
      end;
  Some (if reg <=? REG_YEAR then write_time_registers r else r).

Definition read_port (r : Rtc) (port : Z) : Rtc * option Z :=
  match port with
  | 112 => (r, Some (Z.lor (Z.land (index r) 127) (wrap 8 (Z.shiftl (b2z (nmi_disabled r)) 7))))
  | 113 => let '(r, v) := read_data r in (r, Some v)
  | _ => (r, None)
  end.

Definition write_port (r : Rtc) (port value : Z) : option (Rtc * bool) :=
  match port with
  | 112 => Some (r <| index := Z.land value 127 |> <| nmi_disabled := has value 128 |>, true)
  | 113 => r ← write_data r value; Some (r, true)
  | _ => Some (r, false)
  end.

Definition nvram_byte (r : Rtc) (i : Z) : Z :=
  match ram r !! Z.to_nat i with Some b => b | None => 0 end.
(** [get_mut] out of range writes nothing, as the list insertion does. *)
Definition set_nvram (r : Rtc) (i value : Z) : Rtc := put r i value.

Definition load_nvram (r : Rtc) (bytes : list Z) : Rtc * bool :=
  let byte i := bytes !!! Z.to_nat i in
  let stored := Z.lor (wrap 16 (Z.shiftl (byte NVRAM_CHECKSUM_HIGH) 8)) (byte NVRAM_CHECKSUM_LOW) in
  let valid := stored =? checksum_for bytes in
  let power_lost := Z.land (byte REG_D) 128 =? 0 in
  let r := r <| periodic_phase := Phase.default |> in
  if negb valid then
    let r := put r REG_DIAGNOSTIC (Z.lor DIAG_BAD_CHECKSUM (if power_lost then DIAG_POWER_LOST else 0)) in
    let r := put r REG_B (Z.lor (get r REG_B) 6) in
    let r := put r REG_D (Z.lor (get r REG_D) 128) in
    let r := refresh_checksum r in
    (r <| nvram_dirty := true |>, false)
  else
    let r := r <| ram := bytes |> in
    let r := if get r REG_CENTURY =? 0
             then put (put r REG_CENTURY CENTURY_DEFAULT) REG_CENTURY_ALT CENTURY_DEFAULT else r in
    let r := put r REG_B (Z.lor (get r REG_B) 6) in
    let r := put r REG_D (Z.lor (get r REG_D) 128) in
    let r := read_time_registers r in
    (put r REG_DIAGNOSTIC (if power_lost then DIAG_POWER_LOST else 0), true).

Definition set_memory_size (r : Rtc) (memory_mib : Z) : Rtc :=
  let extended_kb := wrap 16 (Z.min (saturate 32 (saturate 16 (memory_mib - 1) * 1024)) 65535) in
  let r := put r 21 (wrap 8 640) in
  let r := put r 22 (wrap 8 (Z.shiftr 640 8)) in
  let r := put r 23 (wrap 8 extended_kb) in
  let r := put r 24 (wrap 8 (Z.shiftr extended_kb 8)) in
  let r := put r 48 (wrap 8 extended_kb) in
  let r := put r 49 (wrap 8 (Z.shiftr extended_kb 8)) in
  refresh_checksum r.

Definition century (r : Rtc) : Z := bcd_to_bin (get r REG_CENTURY).

Definition set_century (r : Rtc) (c : Z) : Rtc :=
  let bcd := bin_to_bcd c in
  read_time_registers (put (put r REG_CENTURY bcd) REG_CENTURY_ALT bcd).

Definition take_nvram_dirty (r : Rtc) : Rtc * bool := (r <| nvram_dirty := false |>, nvram_dirty r).

Definition write_rtc_payload {Alloc : Allocator} (r : Rtc) : FW :=
  write_raw_bytes (ram r) >> write_u8 (index r) >> write_bool (nmi_disabled r) >>
  write_u16 (year (time r)) >> write_u8 (month (time r)) >> write_u8 (day (time r)) >>
  write_u8 (weekday (time r)) >> write_u8 (hour (time r)) >> write_u8 (minute (time r)) >>
  write_u8 (second (time r)) >> write_u64 (Phase.remainder (periodic_phase r)).

(* ------------------------------------------------------------------ *)
(** ** Registers *)

Record rtc_wf (r : Rtc) : Prop := {
  wf_ram : length (ram r) = 64%nat;
  wf_bytes : Forall u8 (ram r);
  wf_index : in_width 7 (index r);
  wf_time : in_range (time r)
}.

Lemma get_put r i v j :
  length (ram r) = 64%nat -> 0 <= i < 64 -> 0 <= j ->
  get (put r i v) j = if i =? j then v else get r j.
Proof.
  intros Hl Hi Hj. unfold get, put; cbn. destruct (Z.eqb_spec i j) as [->|Hne].
  - by rewrite list_lookup_total_insert_eq by lia.
  - by rewrite list_lookup_total_insert_ne by lia.
Qed.

Lemma length_put r i v : length (ram (put r i v)) = length (ram r).
Proof. cbn. apply length_insert. Qed.

Lemma put_time r i v : time (put r i v) = time r.
Proof. done. Qed.

Lemma put_bytes r i v : u8 v -> Forall u8 (ram r) -> Forall u8 (ram (put r i v)).
Proof. intros. by apply Forall_insert. Qed.

Lemma get_byte r i : rtc_wf r -> 0 <= i < 64 -> u8 (get r i).
Proof.
  intros [Hl Hb _ _] Hi. unfold get. apply Forall_lookup_total_1; [done|lia].
Qed.

(** Reads through a chain of register writes at constant indices. *)
Ltac regs := repeat (rewrite get_put by (rewrite ?length_put; (done || (cbn; lia)))); cbn [Z.eqb Pos.eqb].

Definition time_register (i : Z) : bool :=
  bool_decide (In i [0; 2; 4; 6; 7; 8; 9; 50; 55]).

Lemma write_time_registers_other r i :
  length (ram r) = 64%nat -> 0 <= i -> time_register i = false ->
  get (write_time_registers r) i = get r i.
Proof.
  intros Hl Hi Ht. apply bool_decide_eq_false_1 in Ht. cbn [In] in Ht.
  unfold write_time_registers.
  repeat rewrite get_put by (rewrite ?length_put; (done || (unfold REG_SECONDS, REG_MINUTES,
    REG_HOURS, REG_WEEKDAY, REG_DAY, REG_MONTH, REG_YEAR, REG_CENTURY, REG_CENTURY_ALT; lia))).
  unfold REG_SECONDS, REG_MINUTES, REG_HOURS, REG_WEEKDAY, REG_DAY, REG_MONTH, REG_YEAR,
    REG_CENTURY, REG_CENTURY_ALT.
  repeat (rewrite (proj2 (Z.eqb_neq _ i)) by lia). done.
Qed.

Lemma write_time_registers_length r : length (ram (write_time_registers r)) = length (ram r).
Proof. unfold write_time_registers. by rewrite !length_put. Qed.

Lemma write_time_registers_time r : time (write_time_registers r) = time r.
Proof. done. Qed.

Lemma bin_to_bcd_u8 n : 0 <= n -> u8 (bin_to_bcd n).
Proof.
  intros. unfold bin_to_bcd. apply lor_width; [lia|by apply wrap_in_width|].
  apply (in_width_mono 4); [lia|]. unfold in_width. Z.div_mod_to_equations. lia.
Qed.

Lemma write_time_registers_bytes r :
  in_range (time r) -> Forall u8 (ram r) -> Forall u8 (ram (write_time_registers r)).
Proof.
  intros (Hy & ? & ? & ? & ? & ? & ?) Hb. unfold write_time_registers.
  repeat apply put_bytes; try zlia; try done.
  - apply bin_to_bcd_u8. by apply wrap_in_width.
  - apply bin_to_bcd_u8. by apply wrap_in_width.
  - apply wrap_in_width. lia.
Qed.

Lemma write_time_registers_wf r : rtc_wf r -> rtc_wf (write_time_registers r).
Proof.
  intros [Hl Hb Hi Ht]. split; [by rewrite write_time_registers_length| |done|done].
  by apply write_time_registers_bytes.
Qed.

Lemma put_wf r i v : u8 v -> rtc_wf r -> rtc_wf (put r i v).
Proof. intros Hv [Hl Hb Hi Ht]. split; [by rewrite length_put|by apply put_bytes|done|done]. Qed.

Lemma clamp_range v lo hi : lo <= hi -> lo <= clamp v lo hi <= hi.
Proof. unfold clamp. lia. Qed.

Lemma bcd_to_bin_range n : u8 n -> 0 <= bcd_to_bin n <= 165.
Proof.
  intros Hn. unfold bcd_to_bin. rewrite Z.shiftr_div_pow2 by lia. change 15 with (Z.ones 4).
  rewrite Z.land_ones by lia. change (2 ^ 4) with 16. widths. Z.div_mod_to_equations. lia.
Qed.

Lemma read_time_registers_wf r : rtc_wf r -> rtc_wf (read_time_registers r).
Proof.
  intros H. pose proof (bcd_to_bin_range _ (get_byte r REG_CENTURY H ltac:(done))).
  pose proof (get_byte r REG_HOURS H ltac:(done)).
  pose proof (get_byte r REG_MINUTES H ltac:(done)).
  pose proof (get_byte r REG_SECONDS H ltac:(done)).
  destruct H as [Hl Hb Hi Ht]. split; [done|done|done|]. unfold in_range; cbn.
  pose proof (Z.mod_pos_bound (get r REG_YEAR) 100).
  split_and!; try apply clamp_range; zlia.
Qed.

Lemma checksum_wf bytes : u16 (checksum_for bytes).
Proof.
  unfold checksum_for. generalize (take (Z.to_nat (NVRAM_CHECKSUM_HI + 1 - NVRAM_CHECKSUM_LO))
    (drop (Z.to_nat NVRAM_CHECKSUM_LO) bytes)) as l.
  assert (forall l a, u16 a -> u16 (fold_left (fun sum byte => wrap 16 (sum + byte)) l a)) as H.
  { induction l as [|b l IH]; intros a Ha; [done|]. cbn. apply IH, wrap_in_width. lia. }
  intros. apply H. zlia.
Qed.

Lemma refresh_checksum_wf r : rtc_wf r -> rtc_wf (refresh_checksum r).
Proof. intros. unfold refresh_checksum. apply put_wf, put_wf; [apply wrap_in_width; lia..|done]. Qed.

Lemma rtc_new_wf : rtc_wf new.
Proof.
  unfold new. apply refresh_checksum_wf, write_time_registers_wf.
  repeat (apply put_wf; [vm_compute; intuition congruence|]).
  split; [done| |vm_compute; intuition congruence|unfold in_range; cbn; zlia].
  apply Forall_replicate. zlia.
Qed.

Lemma set_time_wf r t : in_range t -> rtc_wf r -> rtc_wf (r <| time := t |>).
Proof. intros Ht [Hl Hb Hi _]. by split. Qed.

Lemma byte_or v m : u8 v -> u8 m -> u8 (Z.lor v m).
Proof. intros. by apply lor_width. Qed.

Lemma index_7 r : rtc_wf r -> Z.land (index r) 127 = index r.
Proof.
  intros [_ _ Hi _]. change 127 with (Z.ones 7). rewrite Z.land_ones by lia. by apply Z.mod_small.
Qed.

(** A data write to a register of the chip. *)
Lemma write_data_some r v :
  rtc_wf r -> u8 v -> index r < 64 -> exists r', write_data r v = Some r' /\ rtc_wf r'.
Proof.
  intros H Hv Hi. unfold write_data. rewrite index_7 by done.
  assert (Hrange : in_range (time r)) by apply H.
  set (body := match index r with 0 => _ | _ => _ end).
  assert (Hb : exists r1, body = Some r1 /\ rtc_wf r1).
  { destruct Hrange as (Hy & Hmo & Hda & Hwd & Hho & Hmi & Hse).
    assert (Hput : rtc_wf (put r (index r) v)) by by apply put_wf.
    assert (Hdirty : rtc_wf ((put r (index r) v) <| nvram_dirty := true |>))
      by (destruct Hput; by split).
    unfold body. destruct (index r) eqn:Ei; [| |destruct H as [_ _ [? _] _]; lia].
    { eexists. split; [done|]. apply set_time_wf; [|done]. unfold in_range; cbn; zlia. }
    repeat case_match; subst; bool_prop; try lia; (eexists; split; [reflexivity|]);
      first
        [ exact H | exact Hput | exact Hdirty
        | apply read_time_registers_wf, put_wf; [done|exact Hdirty]
        | apply set_time_wf; [|exact H]; unfold in_range, clamp; cbn; split_and!;
            first [done|zlia|apply wrap_in_width; lia]
        | apply put_wf; [apply byte_or; done || zlia|exact H]
        | apply put_wf; [apply land_width; done || lia|];
            first [exact H|destruct H; by split]
        | done ]. }
  destruct Hb as (r1 & -> & Hr1). cbn [option_bind mbind].
  case_step; eexists; split; try done. by apply write_time_registers_wf.
Qed.

(** The port interface panics exactly on a data write whose latched index is
    beyond the 64 bytes: port 71h after an index of 40h to 7Fh.  Every other access
    of a well-formed device returns, and leaves it well formed. *)
Theorem write_port_panics r port v :
  rtc_wf r -> u8 v ->
  (write_port r port v = None <-> port = 113 /\ 64 <= index r) /\
  (forall r' b, write_port r port v = Some (r', b) -> rtc_wf r').
Proof.
  intros H Hv.
  assert (Hpanic : 64 <= index r -> write_data r v = None).
  { intros Hi. unfold write_data. rewrite index_7 by done. destruct H as [_ _ [? ?] _].
    set (body := match index r with 0 => _ | _ => _ end).
    assert (body = None) as ->; [|done]. unfold body. clear body.
    destruct (index r) as [|p|p]; [lia| |lia]. repeat case_match; subst; bool_prop; try lia; done. }
  assert (Hother : port <> 113 -> exists r' b, write_port r port v = Some (r', b) /\ rtc_wf r').
  { intros Hne. unfold write_port. repeat case_match; try congruence; eexists _, _; (split; [reflexivity|]);
      try exact H. destruct H as [Hl Hb Hi Ht]. split; try done.
    cbn. change 127 with (Z.ones 7). rewrite Z.land_ones by lia. by apply wrap_in_width. }
  assert (Hdata : port = 113 -> write_port r port v = r' ← write_data r v; Some (r', true))
    by by intros ->.
  destruct (decide (port = 113)) as [Ep|Ep].
  - rewrite (Hdata Ep). destruct (Z.lt_ge_cases (index r) 64) as [Hi|Hi].
    + destruct (write_data_some r v H Hv Hi) as (r1 & -> & Hr1). cbn.
      split; [split; [done|lia]|]. by intros ? ? [= <- _].
    + rewrite Hpanic by done. cbn. split; [done|]. by intros ? ?.
  - destruct (Hother Ep) as (r1 & b1 & -> & Hr1). split; [split; [done|tauto]|].
    by intros ? ? [= <- _].
Qed.

(** Two port writes take a guest from power-on to the panic. *)
Lemma write_port_panics_witness :
  exists r, write_port new 112 64 = Some (r, true) /\ rtc_wf r /\ write_port r 113 0 = None.
Proof.
  exists (fst (match write_port new 112 64 with Some x => x | None => (new, false) end)).
  assert (Hw : u8 64) by zlia. assert (H0 : u8 0) by zlia.
  assert (Hwf : rtc_wf (fst (match write_port new 112 64 with Some x => x | None => (new, false) end))).
  { destruct (write_port_panics new 112 64 rtc_new_wf Hw) as [_ Hkeep].
    apply (Hkeep _ true). reflexivity. }
  split; [reflexivity|]. split; [exact Hwf|].
  destruct (write_port_panics _ 113 0 Hwf H0) as [[_ Hp] _].
  apply Hp. vm_compute. intuition congruence.
Defined.

(* ------------------------------------------------------------------ *)
(** ** The alarm and the interrupt flags *)

Lemma tick_seconds_spec r n :
  rtc_wf r -> 0 <= n -> abs_second (time r) + n < LAST_DAY * 86400 ->
  exists r', tick_seconds r n = Some r' /\ rtc_wf r' /\
    abs_second (time r') = abs_second (time r) + n /\ periodic_phase r' = periodic_phase r /\
    forall i, 0 <= i -> time_register i = false -> get r' i = get r i.
Proof.
  intros H Hn Hend. unfold tick_seconds. destruct (Z.eqb_spec n 0) as [->|Hne].
  { exists r. rewrite Z.add_0_r. done. }
  destruct (tick_spec (time r) n (wf_time r H) Hn Hend) as (t & -> & Ea & Hr & _).
  cbn [option_bind mbind]. eexists. split; [done|].
  assert (Hwf : rtc_wf (r <| time := t |>)) by by apply set_time_wf.
  split; [by apply write_time_registers_wf|]. split; [done|]. split; [done|].
  intros i Hi Ht. rewrite write_time_registers_other by (try apply Hwf; done). done.
Qed.

Lemma find_delta_Some f fuel delta d :
  find_delta f fuel delta = Some d <->
  delta <= d < delta + Z.of_nat fuel /\ f d = true /\ forall k, delta <= k < d -> f k = false.
Proof.
  revert delta. induction fuel as [|fuel IH]; intros delta; cbn [find_delta].
  { split; [done|]. lia. }
  destruct (f delta) eqn:E.
  - split; [intros [= <-]; split_and!; [lia..|done|intros; lia]|].
    intros (Hd & _ & Hlt). destruct (Z.eq_dec delta d) as [->|]; [done|].
    rewrite Hlt in E; [done|lia].
  - rewrite IH. split; intros (Hd & Hf & Hlt).
    + split_and!; [lia..|done|]. intros k Hk. destruct (Z.eq_dec k delta) as [->|]; [done|].
      apply Hlt. lia.
    + assert (delta <> d) by congruence. split_and!; [lia..|done|]. intros k Hk. apply Hlt. lia.
Qed.

Lemma find_delta_None f fuel delta :
  find_delta f fuel delta = None <-> forall k, delta <= k < delta + Z.of_nat fuel -> f k = false.
Proof.
  revert delta. induction fuel as [|fuel IH]; intros delta; cbn [find_delta].
  { split; [intros _ k; lia|done]. }
  destruct (f delta) eqn:E.
  - split; [done|]. intros H. rewrite H in E; [done|lia].
  - rewrite IH. split; intros H k Hk.
    + destruct (Z.eq_dec k delta) as [->|]; [done|]. apply H. lia.
    + apply H. lia.
Qed.

Lemma find_day f d :
  find_delta f (Z.to_nat 86400) 1 = Some d <->
  1 <= d <= 86400 /\ f d = true /\ forall k, 1 <= k < d -> f k = false.
Proof. rewrite find_delta_Some, Z2Nat.id by lia. split; intros (? & ? & ?); (split; [lia|done]). Qed.

Lemma find_day_None f :
  find_delta f (Z.to_nat 86400) 1 = None <-> forall k, 1 <= k <= 86400 -> f k = false.
Proof. rewrite find_delta_None, Z2Nat.id by lia. split; intros H k Hk; apply H; lia. Qed.

Lemma alarm_due_spec r n :
  alarm_due r n = true <->
  exists k, 0 < k <= n /\ alarm_at r ((time_of_day (time r) + k) mod 86400) = true.
Proof.
  unfold alarm_due, seconds_until_alarm. fold (time_of_day (time r)).
  set (f := fun delta => alarm_at r ((time_of_day (time r) + delta) mod 86400)).
  destruct (Z.ltb_spec 0 n) as [Hn|Hn]; cbn [andb].
  2: { split; [done|]. intros (k & ? & _). lia. }
  destruct (find_delta f (Z.to_nat 86400) 1) as [d|] eqn:E.
  - apply find_day in E as (Hd & Hf & Hlt). rewrite Z.leb_le. split.
    + intros Hle. exists d. split; [lia|exact Hf].
    + intros (k & Hk & Hm). destruct (Z.le_gt_cases d k); [lia|].
      change (f k = true) in Hm. rewrite Hlt in Hm by lia. done.
  - split; [done|]. intros (k & Hk & Hm). change (f k = true) in Hm.
    pose proof (proj1 (find_day_None f) E ((k - 1) mod 86400 + 1)) as Hz.
    assert (f ((k - 1) mod 86400 + 1) = f k) as Ef.
    { unfold f. f_equal. Z.div_mod_to_equations. lia. }
    rewrite Ef, Hm in Hz. discriminate Hz. Z.div_mod_to_equations. lia.
Qed.

(** The time of day after [k] seconds. *)
Lemma tick_time_of_day t k t' :
  in_range t -> in_range t' -> abs_second t' = abs_second t + k ->
  time_of_day t' = (time_of_day t + k) mod 86400.
Proof.
  intros H H' E. pose proof (time_of_day_bound t H). pose proof (time_of_day_bound t' H').
  unfold abs_second in E. Z.div_mod_to_equations. lia.
Qed.

Lemma alarm_at_time r t :
  in_range t -> alarm_at r (time_of_day t) = alarm_matches_time r (hour t) (minute t) (second t).
Proof.
  intros (_ & _ & _ & _ & Hh & Hm & Hs). unfold alarm_at, time_of_day.
  replace ((hour t * 3600 + minute t * 60 + second t) / 3600) with (hour t)
    by (Z.div_mod_to_equations; lia).
  replace ((hour t * 3600 + minute t * 60 + second t) / 60 mod 60) with (minute t)
    by (Z.div_mod_to_equations; lia).
  replace ((hour t * 3600 + minute t * 60 + second t) mod 60) with (second t)
    by (Z.div_mod_to_equations; lia).
  by rewrite !wrap_id by zlia.
Qed.

(** The alarm is due within [n] seconds exactly when some time on the way matches
    the alarm registers. *)
Lemma alarm_due_match r n :
  rtc_wf r -> abs_second (time r) + n < LAST_DAY * 86400 ->
  alarm_due r n = true <->
  exists k t, 0 < k <= n /\ tick (time r) k = Some t /\
    alarm_matches_time r (hour t) (minute t) (second t) = true.
Proof.
  intros H Hend. rewrite alarm_due_spec. pose proof (wf_time r H) as Hr.
  assert (Hk : forall k, 0 < k <= n -> exists t, tick (time r) k = Some t /\
    alarm_at r ((time_of_day (time r) + k) mod 86400) =
    alarm_matches_time r (hour t) (minute t) (second t)).
  { intros k Hk. destruct (tick_spec (time r) k Hr ltac:(lia) ltac:(lia)) as (t & E & Ea & Ht & _).
    exists t. split; [done|]. rewrite <-(tick_time_of_day _ _ t Hr Ht Ea). by apply alarm_at_time. }
  split.
  - intros (k & Hkn & Ha). destruct (Hk k Hkn) as (t & E & Em). exists k, t.
    rewrite <-Em. done.
  - intros (k & t & Hkn & E & Ha). exists k. split; [done|].
    destruct (Hk k Hkn) as (t' & E' & ->). rewrite E in E'. injection E' as <-. done.
Qed.

(** A device set to 23:59:58 with the alarm at midnight. *)
Definition alarm_clock : Rtc := fst (set_alarm (seed new 2026 12 31 5 23 59 58) 0 0 0).

Lemma alarm_clock_wf : rtc_wf alarm_clock.
Proof.
  unfold alarm_clock, set_alarm.
  assert (H : rtc_wf (seed new 2026 12 31 5 23 59 58)).
  { unfold seed. apply write_time_registers_wf. destruct rtc_new_wf as [Hl Hb Hi _].
    split; [done|done|done|]. unfold in_range, clamp; cbn; zlia. }
  case_step; [exact H|]. cbn [fst].
  do 4 (apply put_wf; [vm_compute; intuition congruence|]). exact H.
Qed.

Lemma seconds_until_alarm_due r n :
  alarm_due r n = true <-> exists d, seconds_until_alarm r = Some d /\ d <= n.
Proof.
  unfold alarm_due. destruct (seconds_until_alarm r) as [d|] eqn:E.
  - assert (1 <= d) by (apply find_day in E as [? _]; lia).
    destruct (Z.ltb_spec 0 n); cbn [andb]; rewrite ?Z.leb_le; split.
    + by exists d.
    + intros (? & [= <-] & ?). done.
    + done.
    + intros (? & [= <-] & ?). lia.
  - rewrite andb_false_r. split; [done|]. by intros (? & ? & _).
Qed.

(** The interrupt a set of freshly latched flags raises. *)
Lemma latch_flags_irq r (pf af uf : bool) :
  let flags := Z.lor (Z.lor (if pf then 64 else 0) (if uf then 16 else 0)) (if af then 32 else 0) in
  snd (latch_interrupt_flags r flags) =
  (pf && has (get r REG_B) REG_B_PIE || af && has (get r REG_B) REG_B_AIE ||
   uf && has (get r REG_B) REG_B_UIE) && negb (has (get r REG_C) REG_C_IRQF).
Proof.
  unfold latch_interrupt_flags.
  assert (E : forall v, get (put r REG_C v) REG_B = get r REG_B).
  { intros v. unfold get, put; cbn [ram update]. by rewrite list_lookup_total_insert_ne by done. }
  rewrite E. destruct pf, af, uf; cbn; done.
Qed.

Lemma has_lor v w b : 0 <= b -> has (Z.lor v w) (bit b) = has v (bit b) || has w (bit b).
Proof. intros. rewrite !has_bit by done. apply Z.lor_spec. Qed.

(** The flags an advance assembles before it latches them. *)
Lemma advance_flags (pf uf af : bool) :
  (let flags := 0 in
   let flags := if pf then Z.lor flags REG_C_PF else flags in
   let flags := if uf then Z.lor flags REG_C_UF else flags in
   if af then Z.lor flags REG_C_AF else flags) =
  Z.lor (Z.lor (if pf then 64 else 0) (if uf then 16 else 0)) (if af then 32 else 0).
Proof. by destruct pf, uf, af. Qed.

Lemma latch_flags_af r (pf af uf : bool) :
  rtc_wf r ->
  let flags := Z.lor (Z.lor (if pf then 64 else 0) (if uf then 16 else 0)) (if af then 32 else 0) in
  has (get (fst (latch_interrupt_flags r flags)) REG_C) REG_C_AF = has (get r REG_C) REG_C_AF || af.
Proof.
  intros H flags. pose proof (wf_ram r H) as Hl. unfold latch_interrupt_flags.
  assert (Hf : has flags (bit 5) = af) by (unfold flags; by destruct pf, af, uf).
  change REG_C_AF with (bit 5).
  destruct (Z.eqb_spec flags 0) as [E|_].
  { rewrite E in Hf. rewrite <-Hf. by rewrite orb_false_r. }
  set (q := put r REG_C _).
  assert (Hq : has (get q REG_C) (bit 5) = has (get r REG_C) (bit 5) || af).
  { unfold q, get, put; cbn [ram update]. rewrite list_lookup_total_insert_eq by (rewrite Hl; vm_compute; lia).
    by rewrite has_lor, Hf by lia. }
  case_step; [|exact Hq]. cbn [fst].
  assert (Hlq : length (ram q) = length (ram r)) by (unfold q, put; cbn; apply length_insert).
  clearbody q. unfold get, put; cbn [ram update].
  rewrite list_lookup_total_insert_eq by (rewrite Hlq, Hl; vm_compute; lia).
  rewrite has_lor by lia. fold (get q REG_C). by rewrite Hq, orb_false_r.
Qed.



(** The wake estimate is exact: with no interrupt pending and the periodic
    source disabled, a bulk advance of [n] seconds raises the interrupt exactly
    when [seconds_until_irq] answered at most [n], so a halted machine neither
    oversleeps an update or alarm interrupt nor wakes for nothing. *)
Theorem wake_estimate_exact r ticks n :
  rtc_wf r -> has (get r REG_C) REG_C_IRQF = false -> has (get r REG_B) REG_B_PIE = false ->
  0 <= n -> abs_second (time r) + n < LAST_DAY * 86400 ->
  exists r' irq, advance_master_ticks r ticks n = Some (r', irq) /\
    (irq = true <-> exists d, seconds_until_irq r = Some d /\ d <= n).
Proof.
  intros H HC HB Hn Hend. unfold advance_master_ticks.
  destruct (tick_seconds_spec r n H Hn Hend) as (r1 & -> & Hwf1 & _ & Hph & Hregs).
  cbn [option_bind mbind]. destruct (Phase.advance _ _ _) as [phase events].
  set (r2 := r1 <| periodic_phase := phase |>).
  pose proof (latch_flags_irq r2 (0 <? events) (alarm_due r n) (0 <? n)) as Hirq.
  rewrite <-advance_flags in Hirq. cbv zeta in Hirq |- *.
  destruct (latch_interrupt_flags r2 _) as [r3 irq]. cbn [snd] in Hirq.
  exists r3, irq. split; [done|].
  change (get r2) with (get r1) in Hirq. rewrite !Hregs in Hirq by done.
  rewrite HB, HC, andb_false_r, andb_true_r in Hirq. cbn [orb] in Hirq. rewrite Hirq.
  unfold seconds_until_irq. rewrite HC.
  rewrite orb_true_iff, !andb_true_iff, Z.ltb_lt.
  pose proof (seconds_until_alarm_due r n) as Hdue.
  destruct (has (get r REG_B) REG_B_UIE), (has (get r REG_B) REG_B_AIE).
  - destruct (seconds_until_alarm r) as [d|] eqn:Ed.
    + split; [intros [[Ha _]|[Hp _]]|intros (d' & [= <-] & Hle)].
      * apply Hdue in Ha as (? & [= <-] & ?). exists (Z.min 1 d). split; [done|lia].
      * exists (Z.min 1 d). split; [done|lia].
      * assert (1 <= d) by (apply find_day in Ed as [? _]; lia). right. split; [lia|done].
    + split; [intros [[Ha _]|[Hp _]]|intros (d' & [= <-] & Hle)].
      * apply Hdue in Ha as (? & ? & _). done.
      * exists 1. split; [done|lia].
      * right. split; [lia|done].
  - split; [intros [[_ ?]|[Hp _]]; [done|]|intros (d' & [= <-] & Hle); right; split; [lia|done]].
    exists 1. split; [done|lia].
  - rewrite Hdue. split; [intros [[Ha _]|[_ ?]]; [exact Ha|done]|intros Ha; left; done].
  - split; [intros [[_ ?]|[_ ?]]; done|intros (? & ? & _); done].
Qed.

Lemma wake_estimate_exact_witness :
  seconds_until_irq alarm_clock = Some 2 /\
  exists r' irq, advance_master_ticks alarm_clock 5000 2 = Some (r', irq) /\
    (irq = true <-> exists d, seconds_until_irq alarm_clock = Some d /\ d <= 2).
Proof.
  split; [vm_compute; reflexivity|].
  apply (wake_estimate_exact alarm_clock 5000 2 alarm_clock_wf);
    [vm_compute; reflexivity|vm_compute; reflexivity|lia|vm_compute; reflexivity].
Defined.

(* ------------------------------------------------------------------ *)
(** ** The persisted image *)

Lemma bcd_roundtrip c : 0 <= c <= 99 -> bcd_to_bin (bin_to_bcd c) = c.
Proof.
  intros Hc. unfold bcd_to_bin, bin_to_bcd.
  assert (0 <= c / 10 <= 9 /\ 0 <= c mod 10 <= 9 /\ c = 10 * (c / 10) + c mod 10)
    as (Hq & Hr & E) by (Z.div_mod_to_equations; lia).
  rewrite (wrap_id 8) by (rewrite Z.shiftl_mul_pow2 by lia; zlia).
  rewrite Z.lor_comm, lor_shiftl by (lia || zlia).
  rewrite Z.shiftr_div_pow2 by lia. change 15 with (Z.ones 4). rewrite Z.land_ones by lia.
  change (2 ^ 4) with 16. Z.div_mod_to_equations. lia.
Qed.

(** The stored checksum matches the window. *)
Definition checksum_valid (bytes : list Z) : Prop :=
  Z.lor (wrap 16 (Z.shiftl (bytes !!! Z.to_nat NVRAM_CHECKSUM_HIGH) 8))
    (bytes !!! Z.to_nat NVRAM_CHECKSUM_LOW) = checksum_for bytes.

Lemma checksum_put_outside r i v :
  0 <= i -> i < NVRAM_CHECKSUM_LO \/ NVRAM_CHECKSUM_HI < i -> checksum (put r i v) = checksum r.
Proof.
  intros Hi Hout. unfold checksum, checksum_for, put; cbn [ram update]. f_equal.
  unfold NVRAM_CHECKSUM_HI, NVRAM_CHECKSUM_LO in *. destruct Hout as [Ho|Ho].
  - rewrite drop_insert_lt; [done|lia].
  - rewrite drop_insert_ge by lia. rewrite take_insert_ge; [done|lia].
Qed.

Lemma refresh_checksum_valid r : rtc_wf r -> checksum_valid (ram (refresh_checksum r)).
Proof.
  intros H. pose proof (wf_ram r H) as Hl. unfold checksum_valid.
  set (sum := checksum r). pose proof (checksum_wf (ram r)) as Hs. fold (checksum r) in Hs.
  fold sum in Hs.
  assert (E : checksum_for (ram (refresh_checksum r)) = sum).
  { change (checksum_for (ram (refresh_checksum r))) with (checksum (refresh_checksum r)).
    unfold refresh_checksum. rewrite !checksum_put_outside by (unfold NVRAM_CHECKSUM_HIGH,
      NVRAM_CHECKSUM_LOW, NVRAM_CHECKSUM_HI, NVRAM_CHECKSUM_LO; lia). done. }
  rewrite E.
  change (ram (refresh_checksum r) !!! Z.to_nat NVRAM_CHECKSUM_HIGH)
    with (get (refresh_checksum r) NVRAM_CHECKSUM_HIGH).
  change (ram (refresh_checksum r) !!! Z.to_nat NVRAM_CHECKSUM_LOW)
    with (get (refresh_checksum r) NVRAM_CHECKSUM_LOW).
  unfold refresh_checksum. fold sum.
  rewrite !get_put by (rewrite ?length_put; done). cbn [Z.eqb Pos.eqb NVRAM_CHECKSUM_HIGH NVRAM_CHECKSUM_LOW].
  change 255 with (Z.ones 8). rewrite Z.land_ones, Z.shiftr_div_pow2 by lia.
  rewrite (wrap_id 8 (sum / 2 ^ 8)), (wrap_id 8 (sum mod 2 ^ 8))
    by (unfold in_width; widths; Z.div_mod_to_equations; lia).
  rewrite Z.lor_comm. rewrite (wrap_id 16) by (rewrite Z.shiftl_mul_pow2 by lia; widths; Z.div_mod_to_equations; lia).
  rewrite lor_shiftl by (lia || (unfold in_width; widths; Z.div_mod_to_equations; lia)).
  widths. Z.div_mod_to_equations. lia.
Qed.

(** What a clock register holds for a broken-down time. *)
Definition clock_byte (t : Time) (i : Z) : Z :=
  if i =? REG_SECONDS then second t else if i =? REG_MINUTES then minute t
  else if i =? REG_HOURS then hour t else if i =? REG_WEEKDAY then weekday t
  else if i =? REG_DAY then day t else if i =? REG_MONTH then month t
  else if i =? REG_YEAR then wrap 8 (year t mod 100) else bin_to_bcd (wrap 8 (year t / 100)).

Lemma write_time_registers_clock r i :
  length (ram r) = 64%nat -> time_register i = true ->
  get (write_time_registers r) i = clock_byte (time r) i.
Proof.
  intros Hl Ht. apply bool_decide_eq_true_1 in Ht. cbn [In] in Ht.
  unfold write_time_registers, clock_byte, REG_SECONDS, REG_MINUTES, REG_HOURS, REG_WEEKDAY,
    REG_DAY, REG_MONTH, REG_YEAR, REG_CENTURY, REG_CENTURY_ALT.
  generalize (time r) as t. intros t.
  repeat destruct Ht as [<-|Ht]; [..|done]; regs; reflexivity.
Qed.

(** The clock bytes of the register file agree with the broken-down time. *)
Definition mirrored (r : Rtc) : Prop := ram (write_time_registers r) = ram r.

Lemma mirrored_get r i :
  length (ram r) = 64%nat -> mirrored r -> time_register i = true -> get r i = clock_byte (time r) i.
Proof.
  intros Hl H Ht. rewrite <- write_time_registers_clock by done. unfold get. by rewrite H.
Qed.

Lemma write_time_registers_mirrored r : length (ram r) = 64%nat -> mirrored (write_time_registers r).
Proof.
  intros Hl. unfold mirrored. pose proof (write_time_registers_clock r) as Hc.
  pose proof (write_time_registers_time r) as Ht. pose proof (write_time_registers_length r) as Hl'.
  revert Hc Ht Hl'. generalize (write_time_registers r) as q. intros q Hc Ht Hl'.
  apply list_eq. intros i.
  destruct (decide (i < 64)%nat) as [Hi|Hi].
  - assert (E : get (write_time_registers q) (Z.of_nat i) = get q (Z.of_nat i)).
    { destruct (time_register (Z.of_nat i)) eqn:Hr.
      - rewrite write_time_registers_clock, Hc, Ht by (done || congruence). done.
      - apply write_time_registers_other; (congruence || lia). }
    unfold get in E. rewrite Nat2Z.id in E.
    rewrite !list_lookup_lookup_total_lt by (rewrite ?write_time_registers_length; lia).
    by rewrite E.
  - rewrite !lookup_ge_None_2 by (rewrite ?write_time_registers_length; lia). done.
Qed.

Lemma read_mirrored r :
  rtc_wf r -> mirrored r -> year (time r) <= 9999 -> time (read_time_registers r) = time r.
Proof.
  intros H Hm Hy.
  pose proof (wf_time r H) as Ht. pose proof (wf_ram r H) as Hl. unfold read_time_registers.
  rewrite !mirrored_get by done. clear -Ht Hy.
  destruct (time r) as [y mo d w h mi s]. unfold in_range in Ht; cbn [year month day weekday hour minute second] in *.
  cbn [time update]. unfold clock_byte; cbn [Z.eqb Pos.eqb REG_SECONDS REG_MINUTES REG_HOURS REG_WEEKDAY
    REG_DAY REG_MONTH REG_YEAR REG_CENTURY]. cbn [year month day weekday hour minute second].
  destruct Ht as (? & ? & ? & ? & ? & ? & ?). unfold clamp.
  rewrite !wrap_id by (unfold in_width; widths; Z.div_mod_to_equations; lia).
  rewrite bcd_roundtrip by (widths; Z.div_mod_to_equations; lia).
  f_equal; try lia. rewrite Z.mod_mod by lia. Z.div_mod_to_equations; lia.
Qed.

Lemma checksum_sum l a :
  u16 a -> fold_left (fun sum byte => wrap 16 (sum + byte)) l a = wrap 16 (a + foldr Z.add 0 l).
Proof.
  revert a. induction l as [|b l IH]; intros a Ha; cbn [fold_left foldr].
  - by rewrite Z.add_0_r, wrap_id.
  - rewrite IH by (apply wrap_in_width; lia). unfold wrap. rewrite Zplus_mod_idemp_l. f_equal. lia.
Qed.

Lemma sum_insert (l : list Z) i v :
  (i < length l)%nat -> foldr Z.add 0 (<[i:=v]> l) = foldr Z.add 0 l + v - l !!! i.
Proof.
  revert i. induction l as [|b l IH]; intros i Hi; [cbn in Hi; lia|]. cbn [length] in Hi.
  destruct i as [|i]; cbn [insert list_insert foldr].
  - change ((b :: l) !!! 0%nat) with b. lia.
  - change (list_insert i v l) with (<[i:=v]> l). rewrite IH by lia.
    change ((b :: l) !!! S i) with (l !!! i). lia.
Qed.

Lemma read_time_cong q r :
  (forall i, time_register i = true -> get q i = get r i) ->
  time (read_time_registers q) = time (read_time_registers r).
Proof. intros H. unfold read_time_registers; cbn [time update]. by rewrite !H. Qed.

Lemma checksum_valid_put r i v :
  0 <= i < NVRAM_CHECKSUM_LO -> checksum_valid (ram r) -> checksum_valid (ram (put r i v)).
Proof.
  unfold checksum_valid. intros Hi Hv.
  change (checksum_for (ram (put r i v))) with (checksum (put r i v)).
  rewrite checksum_put_outside by lia. unfold checksum. rewrite <- Hv.
  unfold put, NVRAM_CHECKSUM_LO, NVRAM_CHECKSUM_HIGH, NVRAM_CHECKSUM_LOW in *; cbn [ram update].
  by rewrite !list_lookup_total_insert_ne by lia.
Qed.

Lemma bin_to_bcd_nonzero c : 1 <= c <= 99 -> bin_to_bcd c <> 0.
Proof. intros Hc E. pose proof (bcd_roundtrip c ltac:(lia)) as R. rewrite E in R. change (bcd_to_bin 0) with 0 in R. lia. Qed.

(** A saved image restores the machine's settings and clock. When the image of
    [r] agrees with its clock, its checksum is valid and its year lies between
    100 and 9999, loading it into any device succeeds, restores the exact time
    and every byte of the checksummed window and beyond, and leaves a valid checksum. *)
Theorem nvram_restores r0 r :
  rtc_wf r -> mirrored r -> checksum_valid (ram r) -> 100 <= year (time r) <= 9999 ->
  exists r', load_nvram r0 (ram r) = (r', true) /\ time r' = time r /\
    periodic_phase r' = Phase.default /\
    (forall i, 15 <= i < 64 -> get r' i = get r i) /\ checksum_valid (ram r') /\
    has (get r' REG_DIAGNOSTIC) DIAG_POWER_LOST = negb (has (get r REG_D) 128).
Proof.
  intros H Hm Hv Hy. pose proof (wf_ram r H) as Hl.
  unfold load_nvram. rewrite (proj2 (Z.eqb_eq _ _) Hv). cbn [negb].
  set (r1 := (r0 <| periodic_phase := _ |>) <| ram := _ |>).
  assert (Hg : forall i, get r1 i = get r i) by done.
  assert (Hc : (get r1 REG_CENTURY =? 0) = false).
  { apply Z.eqb_neq. rewrite Hg, mirrored_get by done. change (clock_byte (time r) REG_CENTURY)
      with (bin_to_bcd (wrap 8 (year (time r) / 100))).
    rewrite wrap_id by (unfold in_width; widths; Z.div_mod_to_equations; lia).
    apply bin_to_bcd_nonzero. Z.div_mod_to_equations; lia. }
  rewrite Hc. change (Z.land (ram r !!! Z.to_nat REG_D) 128) with (Z.land (get r REG_D) 128).
  set (d := if _ =? 0 then _ else 0). set (r3 := put (put r1 REG_B _) REG_D _).
  assert (Hv1 : checksum_valid (ram r1)) by done.
  assert (Hl1 : length (ram r1) = 64%nat) by done.
  assert (Hp1 : periodic_phase r1 = Phase.default) by done.
  clearbody r1.
  assert (Hg3 : forall i, 0 <= i < 64 -> i <> REG_B -> i <> REG_D -> get r3 i = get r i).
  { intros i Hi HB HD. unfold r3, REG_B, REG_D in *. rewrite <- Hg.
    repeat rewrite get_put by (rewrite ?length_put; (done || lia)).
    by repeat rewrite (proj2 (Z.eqb_neq _ i)) by lia. }
  assert (Hl3 : length (ram (read_time_registers r3)) = 64%nat).
  { change (length (ram r3) = 64%nat). unfold r3. by rewrite !length_put. }
  eexists. split; [reflexivity|]. split_and!.
  - rewrite put_time, <- (read_mirrored r H Hm) by lia. apply read_time_cong. intros i Hi.
    apply bool_decide_eq_true_1 in Hi. cbn [In] in Hi.
    apply Hg3; unfold REG_B, REG_D; lia.
  - done.
  - intros i Hi. rewrite get_put by (exact Hl3 || done || (unfold REG_DIAGNOSTIC; lia)).
    rewrite (proj2 (Z.eqb_neq _ i)) by (unfold REG_DIAGNOSTIC; lia).
    change (get r3 i = get r i). apply Hg3; unfold REG_B, REG_D; lia.
  - do 1 (apply checksum_valid_put; [done|]). change (checksum_valid (ram r3)).
    by do 2 (apply checksum_valid_put; [done|]).
  - rewrite get_put by (exact Hl3 || done). rewrite Z.eqb_refl. unfold d, has.
    by destruct (Z.land (get r REG_D) 128 =? 0).
Qed.

Lemma nvram_restores_witness :
  exists r', load_nvram new (ram alarm_clock) = (r', true) /\ time r' = time alarm_clock /\
    periodic_phase r' = Phase.default /\
    (forall i, 15 <= i < 64 -> get r' i = get alarm_clock i) /\ checksum_valid (ram r') /\
    has (get r' REG_DIAGNOSTIC) DIAG_POWER_LOST = negb (has (get alarm_clock REG_D) 128).
Proof.
  assert (Hm : mirrored alarm_clock) by (vm_compute; reflexivity).
  assert (Hv : checksum_valid (ram alarm_clock)) by (vm_compute; reflexivity).
  assert (Hy : 100 <= year (time alarm_clock) <= 9999) by (vm_compute; intuition congruence).
  exact (nvram_restores new alarm_clock alarm_clock_wf Hm Hv Hy).
Defined.

(** The registers a refused load leaves. *)
Definition rejected (r : Rtc) (diag : Z) : Rtc :=
  let r := r <| periodic_phase := Phase.default |> in
  let r := put r REG_DIAGNOSTIC diag in
  let r := put r REG_B (Z.lor (get r REG_B) 6) in
  let r := put r REG_D (Z.lor (get r REG_D) 128) in
  (refresh_checksum r) <| nvram_dirty := true |>.

Lemma rejected_registers r diag :
  rtc_wf r -> diag = 64 \/ diag = 192 ->
  checksum_valid (ram (rejected r diag)) /\
  has (get (rejected r diag) REG_DIAGNOSTIC) DIAG_BAD_CHECKSUM = true /\
  (forall j, 0 <= j < 64 -> j <> REG_B -> j <> REG_D -> j <> REG_DIAGNOSTIC ->
       j <> NVRAM_CHECKSUM_HIGH -> j <> NVRAM_CHECKSUM_LOW -> get (rejected r diag) j = get r j).
Proof.
  intros H Hd. unfold rejected.
  set (r1 := put _ REG_DIAGNOSTIC diag).
  assert (H1 : rtc_wf r1) by (apply put_wf; [zlia|by destruct H]).
  set (r2 := put _ REG_B _).
  assert (H2 : rtc_wf r2) by (apply put_wf; [apply byte_or; [by apply get_byte|zlia]|done]).
  set (r3 := put _ REG_D _).
  assert (H3 : rtc_wf r3) by (apply put_wf; [apply byte_or; [by apply get_byte|zlia]|done]).
  split; [exact (refresh_checksum_valid r3 H3)|].
  assert (Hl : length (ram r) = 64%nat) by apply H.
  split.
  - change (has (get (refresh_checksum r3) REG_DIAGNOSTIC) DIAG_BAD_CHECKSUM = true).
    unfold refresh_checksum, r3, r2, r1. 
    unfold REG_DIAGNOSTIC, REG_B, REG_D, NVRAM_CHECKSUM_HIGH, NVRAM_CHECKSUM_LOW.
    regs. by destruct Hd as [-> | ->].
  - intros j Hj HB HD Hdg Hh Hlo. change (get (refresh_checksum r3) j = get r j).
    unfold refresh_checksum, r3, r2, r1.
    unfold REG_DIAGNOSTIC, REG_B, REG_D, NVRAM_CHECKSUM_HIGH, NVRAM_CHECKSUM_LOW in *.
    repeat rewrite get_put by (rewrite ?length_put; (done || lia)).
    repeat rewrite (proj2 (Z.eqb_neq _ j)) by lia. done.
Qed.

(** A tampered image is not trusted. If one byte of the checksummed window of a
    valid image is changed, loading the result is refused: the clock and every byte
    outside the diagnostic, status and checksum registers keep their values,
    the diagnostic register records the bad checksum, and the stored
    checksum is repaired and marked for saving. *)
Theorem tampered_image_rejected r bytes i v :
  rtc_wf r -> length bytes = 64%nat -> Forall u8 bytes -> checksum_valid bytes ->
  NVRAM_CHECKSUM_LO <= i <= NVRAM_CHECKSUM_HI -> u8 v -> v <> bytes !!! Z.to_nat i ->
  exists r', load_nvram r (<[Z.to_nat i := v]> bytes) = (r', false) /\
    time r' = time r /\ nvram_dirty r' = true /\
    has (get r' REG_DIAGNOSTIC) DIAG_BAD_CHECKSUM = true /\ checksum_valid (ram r') /\
    (forall j, 0 <= j < 64 -> j <> REG_B -> j <> REG_D -> j <> REG_DIAGNOSTIC ->
       j <> NVRAM_CHECKSUM_HIGH -> j <> NVRAM_CHECKSUM_LOW -> get r' j = get r j).
Proof.
  intros H Hl Hb Hv Hi Hu Hne. 
  assert (Hbad : ~ checksum_valid (<[Z.to_nat i := v]> bytes)).
  { unfold checksum_valid in *. unfold NVRAM_CHECKSUM_LO, NVRAM_CHECKSUM_HI, NVRAM_CHECKSUM_HIGH,
      NVRAM_CHECKSUM_LOW in *. rewrite !list_lookup_total_insert_ne by lia. rewrite Hv.
    unfold checksum_for, NVRAM_CHECKSUM_LO, NVRAM_CHECKSUM_HI. 
    rewrite drop_insert_ge, take_insert_lt, !checksum_sum by (lia || zlia).
    rewrite sum_insert by (rewrite length_take, length_drop; lia).
    pose proof (Forall_lookup_total_1 _ _ (Z.to_nat i) Hb ltac:(lia)) as Ho.
    rewrite lookup_total_take_lt, lookup_total_drop by lia.
    replace (Z.to_nat 16 + (Z.to_nat i - Z.to_nat 16))%nat with (Z.to_nat i) by lia.
    generalize (foldr Z.add 0 (take (Z.to_nat (45 + 1 - 16)) (drop (Z.to_nat 16) bytes))).
    intros total E. unfold wrap in E. widths. Z.div_mod_to_equations. lia. }
  apply Z.eqb_neq in Hbad. unfold load_nvram. rewrite Hbad. cbn [negb].
  set (diag := Z.lor DIAG_BAD_CHECKSUM _).
  assert (Hd : diag = 64 \/ diag = 192) by (unfold diag; destruct (_ =? 0); vm_compute; tauto).
  destruct (rejected_registers r diag H Hd) as (Hval & Hdiag & Hrest).
  eexists. split; [reflexivity|]. split_and!; [done|done|exact Hdiag|exact Hval|exact Hrest].
Qed.
Lemma tampered_image_rejected_witness :
  checksum_valid (ram alarm_clock) /\
  exists r', load_nvram alarm_clock (<[18%nat := 7]> (ram alarm_clock)) = (r', false) /\
    time r' = time alarm_clock /\ nvram_dirty r' = true /\
    has (get r' REG_DIAGNOSTIC) DIAG_BAD_CHECKSUM = true /\ checksum_valid (ram r') /\
    (forall j, 0 <= j < 64 -> j <> REG_B -> j <> REG_D -> j <> REG_DIAGNOSTIC ->
       j <> NVRAM_CHECKSUM_HIGH -> j <> NVRAM_CHECKSUM_LOW -> get r' j = get alarm_clock j).
Proof.
  assert (Hv : checksum_valid (ram alarm_clock)) by (vm_compute; reflexivity).
  split; [exact Hv|]. pose proof alarm_clock_wf as H.
  assert (Hn : 7 <> ram alarm_clock !!! Z.to_nat 18) by (vm_compute; congruence).
  exact (tampered_image_rejected alarm_clock (ram alarm_clock) 18 7 H (wf_ram _ H) (wf_bytes _ H) Hv
    ltac:(vm_compute; intuition congruence) ltac:(vm_compute; intuition congruence) Hn).
Defined.

End Device.
