(* ===== verification/FatName.v ===== *)
(** * 8.3 names of the synthesized FAT volumes

    crates/izarravm-machine/src/fat_name.rs: host file names folded into padded
    eleven-byte directory-entry names, with a [~n] suffix on collision.  A host
    name is the list of its character codes; a name that has been cleaned is
    ASCII, so its characters are its bytes. *)

From S2P Require Import Prelude.

Module Name.

Definition SPACE : Z := 32.
Definition DOT : Z := 46.
Definition TILDE : Z := 126.
Definition UNDERSCORE : Z := 95.

Definition between (lo c hi : Z) : bool := (lo <=? c) && (c <=? hi).

Definition to_ascii_uppercase (c : Z) : Z := if between 97 c 122 then c - 32 else c.

Definition is_ascii_alphanumeric (c : Z) : bool :=
  between 48 c 57 || between 65 c 90 || between 97 c 122.

(** The punctuation ! # $ % & ' ( ) - @ ^ _ ` { } ~ *)
Definition PUNCTUATION : list Z :=
  [33; 35; 36; 37; 38; 39; 40; 41; 45; 64; 94; 95; 96; 123; 125; 126].

Definition is_legal_83 (c : Z) : bool :=
  is_ascii_alphanumeric c || bool_decide (c ∈ PUNCTUATION).

(** The closure of [clean]: a stripped character is [None]. *)
Definition clean_char (c : Z) : option Z :=
  let c := to_ascii_uppercase c in
  if is_legal_83 c then Some c
  else if (c =? SPACE) || (c =? DOT) then None
  else Some UNDERSCORE.

Definition clean (s : list Z) : list Z := omap clean_char s.

(** [raw.rfind('.')]: the index of the last dot. *)
Fixpoint rfind (c : Z) (s : list Z) : option nat :=
  match s with
  | [] => None
  | x :: t =>
      match rfind c t with
      | Some i => Some (S i)
      | None => if x =? c then Some 0%nat else None
      end
  end.

Definition split_stem_ext (raw : list Z) (is_dir : bool) : list Z * list Z :=
  let '(stem_raw, ext_raw) :=
    if is_dir then (raw, [])
    else match rfind DOT raw with
         | Some i => if (0 <? i)%nat then (take i raw, drop (i + 1) raw) else (raw, [])
         | None => (raw, [])
         end in
  (clean stem_raw, clean ext_raw).

(** Overwrites the front of a space-filled field. *)
Definition pad (n : nat) (s : list Z) : list Z := s ++ replicate (n - length s) SPACE.

Definition pack_83 (stem ext : list Z) : list Z :=
  let stem := take 8 stem in
  let ext := take 3 ext in
  pad 8 (match stem with [] => [UNDERSCORE] | _ => stem end) ++ pad 3 ext.

Definition make_83 (raw : list Z) (is_dir : bool) : list Z :=
  let '(stem, ext) := split_stem_ext raw is_dir in pack_83 stem ext.

(** Decimal digits of a [u32]; ten are enough. *)
Fixpoint decimal (fuel : nat) (n : Z) : list Z :=
  match fuel with
  | O => []
  | S fuel => if n <? 10 then [48 + n] else decimal fuel (n / 10) ++ [48 + n mod 10]
  end.

Definition tilde_suffix (n : Z) : list Z := TILDE :: decimal 10 n.

Definition make_83_with_tilde (raw : list Z) (is_dir : bool) (n : Z) : list Z :=
  let '(stem, ext) := split_stem_ext raw is_dir in
  let tail := tilde_suffix n in
  let keep := (8 - length tail)%nat in
  pack_83 (take keep stem ++ tail) ext.

(** [raw] is the file name of the host path ("" when it has none). *)
Definition unique_name (raw : list Z) (is_dir : bool) (used : list (list Z))
  : list Z * list (list Z) :=
  let base := make_83 raw is_dir in
  if negb (bool_decide (base ∈ used)) then (base, used ++ [base])
  else
    match List.find (fun n => negb (bool_decide (make_83_with_tilde raw is_dir n ∈ used)))
            (seqZ 1 999) with
    | Some n =>
        let candidate := make_83_with_tilde raw is_dir n in
        (candidate, used ++ [candidate])
    | None => (base, used ++ [base])
    end.

(* ------------------------------------------------------------------ *)
(** ** Fields *)

(** A character a folded name may hold: legal and not a lower-case letter. *)
Definition folded (c : Z) : Prop := is_legal_83 c = true /\ between 97 c 122 = false.

(** An 8.3 name field: a non-empty stem and an extension, each folded and
    padded on the right with spaces. *)
Definition valid_83 (name : list Z) : Prop :=
  exists stem ext, (1 <= length stem <= 8)%nat /\ (length ext <= 3)%nat /\
    Forall folded stem /\ Forall folded ext /\ name = pad 8 stem ++ pad 3 ext.

Lemma folded_not_space c : folded c -> c <> SPACE.
Proof. intros [H _] ->. done. Qed.

Lemma upper_not_lower c : between 97 (to_ascii_uppercase c) 122 = false.
Proof.
  unfold to_ascii_uppercase, between. apply andb_false_iff. rewrite !Z.leb_gt.
  destruct (Z.leb_spec 97 c), (Z.leb_spec c 122); cbn [andb]; lia.
Qed.

Lemma clean_char_folded c c' : clean_char c = Some c' -> folded c'.
Proof.
  unfold clean_char. pose proof (upper_not_lower c) as Hl.
  destruct (is_legal_83 (to_ascii_uppercase c)) eqn:E; [by intros [= <-]|].
  destruct (_ || _); [done|]. by intros [= <-].
Qed.

Lemma clean_folded s : Forall folded (clean s).
Proof.
  induction s as [|c s IH]; [constructor|]. unfold clean; cbn.
  destruct (clean_char c) eqn:E; [|exact IH]. constructor; [by eapply clean_char_folded|exact IH].
Qed.

Lemma split_folded raw is_dir :
  Forall folded (fst (split_stem_ext raw is_dir)) /\ Forall folded (snd (split_stem_ext raw is_dir)).
Proof. unfold split_stem_ext. destruct (if is_dir then _ else _). split; apply clean_folded. Qed.

Lemma digit_folded d : 0 <= d <= 9 -> folded (48 + d) /\ 48 + d <> TILDE.
Proof.
  intros Hd. unfold folded, is_legal_83, is_ascii_alphanumeric, between, TILDE.
  replace (48 <=? 48 + d) with true by (symmetry; apply Z.leb_le; lia).
  replace (48 + d <=? 57) with true by (symmetry; apply Z.leb_le; lia).
  replace (97 <=? 48 + d) with false by (symmetry; apply Z.leb_gt; lia).
  split; [done|lia].
Qed.

Lemma decimal_digits fuel : forall n, 0 <= n -> Forall (fun c => folded c /\ c <> TILDE) (decimal fuel n).
Proof.
  induction fuel as [|fuel IH]; intros n Hn; cbn [decimal]; [constructor|].
  destruct (Z.ltb_spec n 10); [repeat constructor; apply digit_folded; lia|].
  apply Forall_app; split; [apply IH; Z.div_mod_to_equations; lia|].
  repeat constructor; apply digit_folded; Z.div_mod_to_equations; lia.
Qed.

(** The digits determine the number. *)
Definition decimal_value (s : list Z) : Z := fold_left (fun a c => 10 * a + (c - 48)) s 0.

Lemma decimal_inverse fuel : forall n,
  0 <= n < 10 ^ Z.of_nat fuel -> decimal_value (decimal fuel n) = n.
Proof.
  unfold decimal_value. induction fuel as [|fuel IH]; intros n Hn; cbn [decimal]; [cbn in *; lia|].
  destruct (Z.ltb_spec n 10); [cbn; lia|].
  rewrite fold_left_app, IH; [cbn; Z.div_mod_to_equations; lia|].
  rewrite Nat2Z.inj_succ, Z.pow_succ_r in Hn by lia. Z.div_mod_to_equations. nia.
Qed.

Lemma decimal_length n : 1 <= n <= 999 -> (1 <= length (decimal 10 n) <= 3)%nat.
Proof.
  intros Hn. unfold decimal.
  destruct (n <? 10) eqn:E; [cbn; lia|]. bool_prop.
  destruct (n / 10 <? 10) eqn:E1; [cbn; lia|]. bool_prop.
  destruct (n / 10 / 10 <? 10) eqn:E2; [cbn; lia|]. bool_prop.
  Z.div_mod_to_equations. lia.
Qed.

(** A field without spaces is recovered from its padding. *)
Lemma pad_inj n s1 s2 :
  SPACE ∉ s1 -> SPACE ∉ s2 -> pad n s1 = pad n s2 -> s1 = s2.
Proof.
  unfold pad. generalize (n - length s1)%nat as k1, (n - length s2)%nat as k2.
  revert s2. induction s1 as [|c s1 IH]; intros [|d s2] k1 k2 H1 H2 E; [done| | |].
  - destruct k1; cbn in E; [done|]. injection E as <- _. set_solver.
  - destruct k2; cbn in E; [done|]. injection E as -> _. set_solver.
  - injection E as <- E. f_equal. eapply IH; [set_solver..|exact E].
Qed.

Lemma last_occurrence {A} (x : A) a1 a2 d1 d2 :
  a1 ++ x :: d1 = a2 ++ x :: d2 -> x ∉ d1 -> x ∉ d2 -> d1 = d2.
Proof.
  revert a2. induction a1 as [|y a1 IH]; intros [|z a2] E H1 H2; cbn in E.
  - by injection E.
  - injection E as <- ->. destruct H1. apply elem_of_app. right. by left.
  - injection E as -> <-. destruct H2. apply elem_of_app. right. by left.
  - injection E as _ E. by eapply IH.
Qed.

Lemma length_pad n s : (length s <= n)%nat -> length (pad n s) = n.
Proof. intros. unfold pad. rewrite length_app, length_replicate. lia. Qed.

Lemma pack_83_valid stem ext :
  Forall folded stem -> Forall folded ext -> valid_83 (pack_83 stem ext).
Proof.
  intros Hs He. exists (match take 8 stem with [] => [UNDERSCORE] | s => s end), (take 3 ext).
  split_and!; try (by apply Forall_take).
  - destruct (take 8 stem); cbn; lia.
  - pose proof (length_take stem 8). destruct (take 8 stem); cbn [length] in *; lia.
  - rewrite length_take. lia.
  - destruct (take 8 stem) as [|? ?] eqn:E; [by repeat constructor|]. rewrite <- E. by apply Forall_take.
  - unfold pack_83. by destruct (take 8 stem).
Qed.

Lemma make_83_valid raw is_dir : valid_83 (make_83 raw is_dir).
Proof.
  unfold make_83. pose proof (split_folded raw is_dir) as [Hs He].
  destruct (split_stem_ext raw is_dir). by apply pack_83_valid.
Qed.

Lemma suffix_folded n : 0 <= n -> Forall folded (tilde_suffix n).
Proof.
  intros Hn. constructor; [done|]. eapply Forall_impl; [by apply decimal_digits|]. by intros ? [? _].
Qed.

Lemma tilde_valid raw is_dir n : 0 <= n -> valid_83 (make_83_with_tilde raw is_dir n).
Proof.
  intros Hn. unfold make_83_with_tilde. pose proof (split_folded raw is_dir) as [Hs He].
  destruct (split_stem_ext raw is_dir) as [stem ext]. apply pack_83_valid; [|done].
  apply Forall_app. split; [by apply Forall_take|by apply suffix_folded].
Qed.

(** The suffixed names of one host name are pairwise distinct. *)
Lemma tilde_inj raw is_dir n m :
  1 <= n <= 999 -> 1 <= m <= 999 ->
  make_83_with_tilde raw is_dir n = make_83_with_tilde raw is_dir m -> n = m.
Proof.
  intros Hn Hm. unfold make_83_with_tilde. pose proof (split_folded raw is_dir) as [Hs _].
  destruct (split_stem_ext raw is_dir) as [stem ext]. cbn [fst] in Hs.
  assert (Hfield : forall k, 1 <= k <= 999 ->
    exists a, pack_83 (take (8 - length (tilde_suffix k)) stem ++ tilde_suffix k) ext =
              pad 8 (a ++ tilde_suffix k) ++ pad 3 (take 3 ext) /\
              (SPACE ∉ a ++ tilde_suffix k) /\ (length (a ++ tilde_suffix k) <= 8)%nat).
  { intros k Hk. exists (take (8 - length (tilde_suffix k)) stem).
    pose proof (decimal_length k Hk).
    assert (length (tilde_suffix k) = S (length (decimal 10 k))) by done.
    assert (length (take (8 - length (tilde_suffix k)) stem ++ tilde_suffix k) <= 8)%nat.
    { rewrite length_app, length_take. lia. }
    split_and!; [|intros Hin|done].
    - unfold pack_83. rewrite (take_ge _ 8) by done.
      destruct (take _ stem ++ tilde_suffix k) eqn:E; [|done].
      by apply app_eq_nil in E as [_ ?].
    - assert (Hf : Forall folded (take (8 - length (tilde_suffix k)) stem ++ tilde_suffix k))
        by (apply Forall_app; split; [by apply Forall_take|apply suffix_folded; lia]).
      rewrite Forall_forall in Hf. by apply (folded_not_space _ (Hf _ Hin)). }
  destruct (Hfield n Hn) as (a & -> & Ha & Hla), (Hfield m Hm) as (b & -> & Hb & Hlb). intros E.
  apply app_inj_1 in E as [E _]; [|by rewrite !length_pad].
  apply pad_inj in E; [|done..].
  assert (Hdig : forall k, 0 <= k -> TILDE ∉ decimal 10 k).
  { intros k Hk Hin. pose proof (decimal_digits 10 k Hk) as Hf. rewrite Forall_forall in Hf.
    by apply (Hf _ Hin). }
  apply last_occurrence in E; [|apply Hdig; lia..].
  rewrite <- (decimal_inverse 10 n), <- (decimal_inverse 10 m), E by (cbn; lia). done.
Qed.

(** Every name is a well-formed 8.3 field, and in a directory that has given
    out fewer than 999 names so far the name is one no sibling has: two host
    files can never be folded onto the same directory entry there. *)
Theorem unique_name_fresh raw is_dir used :
  let '(name, used') := unique_name raw is_dir used in
  valid_83 name /\ used' = used ++ [name] /\ ((length used < 999)%nat -> name ∉ used).
Proof.
  unfold unique_name.
  destruct (bool_decide (make_83 raw is_dir ∈ used)) eqn:Hb; cbn [negb];
    [|by rewrite bool_decide_eq_false in Hb; split_and!; [apply make_83_valid| |]].
  destruct (List.find _ _) as [n|] eqn:Hf.
  - apply find_some in Hf as [Hin Hfree]. apply negb_true_iff, bool_decide_eq_false in Hfree.
    apply list_elem_of_In, elem_of_seqZ in Hin.
    split_and!; [apply tilde_valid; lia|done|done].
  - split_and!; [apply make_83_valid|done|]. intros Hlen. exfalso.
    set (cands := make_83_with_tilde raw is_dir <$> seqZ 1 999).
    assert (Hnd : NoDup cands).
    { apply NoDup_fmap_2_strong; [|apply NoDup_seqZ].
      intros x y Hx%elem_of_seqZ Hy%elem_of_seqZ. apply tilde_inj; lia. }
    assert (Hsub : cands ⊆ used).
    { intros c (n & -> & Hin)%list_elem_of_fmap.
      pose proof (find_none _ _ Hf n) as Hn. apply list_elem_of_In in Hin. specialize (Hn Hin).
      by apply negb_false_iff, bool_decide_eq_true in Hn. }
    pose proof (submseteq_length _ _ (NoDup_submseteq _ _ Hnd Hsub)) as Hl.
    unfold cands in Hl. rewrite length_fmap, length_seqZ in Hl. lia.
Qed.

Lemma unique_name_fresh_witness :
  let used := [make_83 [114; 101; 97; 100; 109; 101; 46; 116; 120; 116] false] in
  let '(name, used') := unique_name [82; 69; 65; 68; 77; 69; 46; 84; 88; 84] false used in
  valid_83 name /\ used' = used ++ [name] /\ name ∉ used /\
  name = [82; 69; 65; 68; 77; 69; 126; 49; 84; 88; 84].
Proof.
  intros used. pose proof (unique_name_fresh [82; 69; 65; 68; 77; 69; 46; 84; 88; 84] false used) as H.
  assert (E : unique_name [82; 69; 65; 68; 77; 69; 46; 84; 88; 84] false used =
    ([82; 69; 65; 68; 77; 69; 126; 49; 84; 88; 84],
     used ++ [[82; 69; 65; 68; 77; 69; 126; 49; 84; 88; 84]])) by (vm_compute; reflexivity).
  rewrite E in H |- *. destruct H as (Hv & Hu & Hf). split_and!; [exact Hv|exact Hu| |reflexivity].
  apply Hf. cbn. lia.
Defined.

End Name.
