(* ===== verification/Fat32.v ===== *)
(** * FAT32 volume structures

    crates/izarravm-machine/src/fat32.rs: the geometry of a synthesized FAT32
    volume, its boot and FSInfo sectors, the file allocation table and the
    directory entries.  Sectors are lists of 512 bytes, the table is its list of
    32-bit entries. *)

From S2P Require Import Prelude.

Module Fat.

Definition BYTES_PER_SECTOR : Z := 512.
Definition RESERVED_SECTORS : Z := 32.
Definition NUM_FATS : Z := 2.
Definition ROOT_CLUSTER : Z := 2.
Definition FSINFO_SECTOR : Z := 1.
Definition BACKUP_BOOT_SECTOR : Z := 6.
Definition MIN_FAT32_CLUSTERS : Z := 65525.

Record Fat32Geometry := mkGeometry {
  bytes_per_sector : Z;
  geo_sectors_per_cluster : Z;
  reserved_sectors : Z;
  num_fats : Z;
  total_sectors : Z;
  fat_size_sectors : Z;
  root_cluster : Z;
  fsinfo_sector : Z;
  backup_boot_sector : Z;
  count_of_clusters : Z;
  first_data_sector : Z
}.

Definition sectors_per_cluster (total_sectors : Z) : option Z :=
  if total_sectors <=? 66600 then None
  else Some (if total_sectors <=? 532480 then 1
             else if total_sectors <=? 16777216 then 8
             else if total_sectors <=? 33554432 then 16
             else if total_sectors <=? 67108864 then 32
             else 64).

Definition fat32_geometry (volume_bytes : Z) : option Fat32Geometry :=
  total_sectors ← checked 32 (volume_bytes / BYTES_PER_SECTOR);
  spc ← sectors_per_cluster total_sectors;
  let tmp1 := wrap 32 (total_sectors - RESERVED_SECTORS) in
  let tmp2 := wrap 32 (256 * spc + NUM_FATS) / 2 in
  let fat_size_sectors := div_ceil tmp1 tmp2 in
  let used := wrap 32 (RESERVED_SECTORS + wrap 32 (NUM_FATS * fat_size_sectors)) in
  data_sectors ← checked 32 (total_sectors - used);
  let count_of_clusters := data_sectors / spc in
  if count_of_clusters <? MIN_FAT32_CLUSTERS then None
  else Some (mkGeometry BYTES_PER_SECTOR spc RESERVED_SECTORS NUM_FATS total_sectors
               fat_size_sectors ROOT_CLUSTER FSINFO_SECTOR BACKUP_BOOT_SECTOR
               count_of_clusters used).

(** [s[off..off + n].copy_from_slice(v)] on constant ranges, and [s[off] = v]. *)
Definition put_bytes (off : Z) (v : list Z) (s : list Z) : list Z := splice s off v.
Definition put_u8 (off v : Z) : list Z -> list Z := put_bytes off [v].
Definition put_u16 (off v : Z) : list Z -> list Z := put_bytes off (le_bytes 2 v).
Definition put_u32 (off v : Z) : list Z -> list Z := put_bytes off (le_bytes 4 v).

Definition blank (n : Z) : list Z := replicate (Z.to_nat n) 0.

(** "MSWIN4.1", "NO NAME    " and "FAT32   " *)
Definition FAT32_OEM_NAME : list Z := [77; 83; 87; 73; 78; 52; 46; 49].
Definition VOLUME_LABEL : list Z := [78; 79; 32; 78; 65; 77; 69; 32; 32; 32; 32].
Definition FILE_SYSTEM_TYPE : list Z := [70; 65; 84; 51; 50; 32; 32; 32].

Definition fat32_boot_sector (geo : Fat32Geometry) (volume_id : Z) : list Z :=
  let s := blank 512 in
  let s := put_u8 0 235 s in
  let s := put_u8 1 88 s in
  let s := put_u8 2 144 s in
  let s := put_bytes 3 FAT32_OEM_NAME s in
  let s := put_u16 11 (bytes_per_sector geo) s in
  let s := put_u8 13 (geo_sectors_per_cluster geo) s in
  let s := put_u16 14 (reserved_sectors geo) s in
  let s := put_u8 16 (num_fats geo) s in
  let s := put_u16 17 0 s in
  let s := put_u16 19 0 s in
  let s := put_u8 21 248 s in
  let s := put_u16 22 0 s in
  let s := put_u16 24 63 s in
  let s := put_u16 26 255 s in
  let s := put_u32 28 0 s in
  let s := put_u32 32 (total_sectors geo) s in
  let s := put_u32 36 (fat_size_sectors geo) s in
  let s := put_u16 40 0 s in
  let s := put_u16 42 0 s in
  let s := put_u32 44 (root_cluster geo) s in
  let s := put_u16 48 (fsinfo_sector geo) s in
  let s := put_u16 50 (backup_boot_sector geo) s in
  let s := put_u8 64 128 s in
  let s := put_u8 65 0 s in
  let s := put_u8 66 41 s in
  let s := put_u32 67 volume_id s in
  let s := put_bytes 71 VOLUME_LABEL s in
  let s := put_bytes 82 FILE_SYSTEM_TYPE s in
  let s := put_u8 510 85 s in
  put_u8 511 170 s.

Definition fat32_fsinfo_sector (free_count next_free : Z) : list Z :=
  let s := blank 512 in
  let s := put_u32 0 1096897106 s in
  let s := put_u32 484 1631679090 s in
  let s := put_u32 488 free_count s in
  let s := put_u32 492 next_free s in
  put_u32 508 2857697280 s.

Definition FAT32_EOC : Z := 268435455.
Definition FAT32_ENTRY_MASK : Z := 268435455.

Definition fat32_is_eoc (entry : Z) : bool := 268435448 <=? Z.land entry FAT32_ENTRY_MASK.

Record Fat32Table := mkTable { entries : list Z }.
#[export] Instance eta_Fat32Table : Eta Fat32Table := fun t => mkTable (entries t).

Definition new (geo : Fat32Geometry) : Fat32Table :=
  let entries := blank (count_of_clusters geo + 2) in
  let entries := <[0%nat := 268435448]> entries in
  let entries := <[1%nat := FAT32_EOC]> entries in
  mkTable entries.

(** [None]: the cluster is out of range and the index panics. *)
Definition set (t : Fat32Table) (cluster value : Z) : option Fat32Table :=
  e ← entries t !! Z.to_nat cluster;
  Some (t <| entries := <[Z.to_nat cluster :=
           Z.lor (Z.ldiff e FAT32_ENTRY_MASK) (Z.land value FAT32_ENTRY_MASK)]> (entries t) |>).

Definition get (t : Fat32Table) (cluster : Z) : option Z :=
  e ← entries t !! Z.to_nat cluster;
  Some (Z.land e FAT32_ENTRY_MASK).

(** The loop of [to_bytes] from entry [i] on. *)
Fixpoint put_entries (i : Z) (es : list Z) (bytes : list Z) : list Z :=
  match es with
  | [] => bytes
  | e :: es =>
      put_entries (i + 1) es
        (if i * 4 + 4 <=? zlen bytes then splice bytes (i * 4) (le_bytes 4 e) else bytes)
  end.

Definition to_bytes (t : Fat32Table) (geo : Fat32Geometry) : list Z :=
  put_entries 0 (entries t) (blank (fat_size_sectors geo * 512)).

Definition FAT_ATTR_DIRECTORY : Z := 16.

Definition fat32_dir_entry (name83 : list Z) (attr cluster write_time write_date size : Z) : list Z :=
  let e := blank 32 in
  let e := put_bytes 0 name83 e in
  let e := put_u8 11 attr e in
  let e := put_u16 20 (wrap 16 (Z.shiftr cluster 16)) e in
  let e := put_u16 22 write_time e in
  let e := put_u16 24 write_date e in
  let e := put_u16 26 (wrap 16 cluster) e in
  put_u32 28 size e.

Definition DOT_NAME : list Z := 46 :: replicate 10 32.
Definition DOTDOT_NAME : list Z := 46 :: 46 :: replicate 9 32.

Definition fat32_dot_entries (self_cluster parent_cluster : Z) : list Z :=
  let out := blank 64 in
  let out := put_bytes 0 (fat32_dir_entry DOT_NAME FAT_ATTR_DIRECTORY self_cluster 0 0 0) out in
  put_bytes 32 (fat32_dir_entry DOTDOT_NAME FAT_ATTR_DIRECTORY parent_cluster 0 0 0) out.

(* ------------------------------------------------------------------ *)
(** ** Geometry *)

(** What every accepted geometry satisfies. *)
Record geometry_ok (g : Fat32Geometry) : Prop := {
  ok_spc : geo_sectors_per_cluster g ∈ [1; 8; 16; 32; 64];
  ok_fixed : bytes_per_sector g = 512 /\ reserved_sectors g = 32 /\ num_fats g = 2 /\
             root_cluster g = 2 /\ fsinfo_sector g = 1 /\ backup_boot_sector g = 6;
  ok_total : u32 (total_sectors g);
  ok_fat : 0 < fat_size_sectors g;
  ok_clusters : 0 < count_of_clusters g <= 268435445;
  ok_data : first_data_sector g = reserved_sectors g + num_fats g * fat_size_sectors g;
  ok_count : count_of_clusters g =
    (total_sectors g - first_data_sector g) / geo_sectors_per_cluster g;
  ok_fits : first_data_sector g + count_of_clusters g * geo_sectors_per_cluster g <= total_sectors g;
  ok_capacity : (count_of_clusters g + 2) * 4 <= fat_size_sectors g * 512
}.

Lemma sectors_per_cluster_cases t spc : u32 t ->
  sectors_per_cluster t = Some spc ->
  66601 <= t <= 67108864 * spc /\ (spc = 1 \/ (spc = 8 \/ spc = 16 \/ spc = 32 \/ spc = 64) /\ 532481 <= t /\
    (spc = 8 \/ 16777217 <= t /\ (spc = 16 \/ 33554433 <= t /\ (spc = 32 \/ 67108865 <= t)))).
Proof.
  unfold sectors_per_cluster. intros Ht. widths.
  destruct (Z.leb_spec t 66600); [done|]. intros [= <-].
  repeat match goal with |- context [t <=? ?k] => destruct (Z.leb_spec t k) end; lia.
Qed.

Lemma div_ceil_bounds a b : 0 <= a -> 0 < b -> a <= b * div_ceil a b < a + b.
Proof.
  intros Ha Hb. unfold div_ceil. destruct (Z.eqb_spec (a mod b) 0); Z.div_mod_to_equations; nia.
Qed.

(** The FAT size the formula gives, and the room it leaves. *)
Lemma geometry_arith t spc fat :
  u32 t -> sectors_per_cluster t = Some spc ->
  t - 32 <= (128 * spc + 1) * fat < t - 32 + (128 * spc + 1) ->
  0 < fat /\ 32 + 2 * fat <= t /\ 65525 <= (t - (32 + 2 * fat)) / spc <= 268435445 /\
  ((t - (32 + 2 * fat)) / spc + 2) * 4 <= fat * 512.
Proof.
  intros Ht Hs Hf. pose proof (sectors_per_cluster_cases t spc Ht Hs) as (Hlo & Hc).
  widths.
  assert (spc = 1 \/ spc = 8 \/ spc = 16 \/ spc = 32 \/ spc = 64) as Hspc by lia.
  destruct Hspc as [-> | [-> | [-> | [-> | ->]]]];
    Z.div_mod_to_equations; lia.
Qed.

Lemma wrap_32 z : 0 <= z < 4294967296 -> wrap 32 z = z.
Proof. intros. by apply wrap_id. Qed.

(** The computation of [fat32_geometry], with its intermediate values exact. *)
Lemma fat32_geometry_eq v t spc :
  t = v / 512 -> u32 t -> sectors_per_cluster t = Some spc ->
  exists fat, let g := mkGeometry 512 spc 32 2 t fat 2 1 6 ((t - (32 + 2 * fat)) / spc) (32 + 2 * fat) in
    fat32_geometry v = Some g /\ geometry_ok g /\ 65525 <= count_of_clusters g.
Proof.
  intros -> Ht Hs. set (t := v / 512) in *.
  pose proof (sectors_per_cluster_cases t spc Ht Hs) as (Hlo & Hc).
  pose proof (div_ceil_bounds (t - 32) (128 * spc + 1) ltac:(lia) ltac:(lia)) as Hb.
  exists (div_ceil (t - 32) (128 * spc + 1)).
  pose proof (geometry_arith t spc (div_ceil (t - 32) (128 * spc + 1)) Ht Hs ltac:(lia))
    as (Hpos & Hfit & Hcount & Hcap).
  assert (Ht' : 0 <= t < 4294967296) by zlia.
  unfold fat32_geometry, BYTES_PER_SECTOR. fold t.
  rewrite (proj2 (checked_Some 32 t t)) by done. cbn [option_bind mbind]. rewrite Hs. cbn [option_bind mbind]. cbv zeta.
  unfold RESERVED_SECTORS, NUM_FATS.
  rewrite (wrap_32 (t - 32)), (wrap_32 (256 * spc + 2)) by lia.
  replace ((256 * spc + 2) / 2) with (128 * spc + 1) by (Z.div_mod_to_equations; lia).
  set (fat := div_ceil _ _) in *.
  rewrite (wrap_32 (2 * fat)), (wrap_32 (32 + 2 * fat)) by lia.
  rewrite (proj2 (checked_Some 32 _ (t - (32 + 2 * fat)))) by (split; [zlia|done]).
  cbn [option_bind mbind]. cbv zeta. unfold MIN_FAT32_CLUSTERS. rewrite (proj2 (Z.ltb_ge _ _)) by lia.
  split; [done|]. split; [|cbn; lia].
  assert (Hspc : spc = 1 \/ spc = 8 \/ spc = 16 \/ spc = 32 \/ spc = 64) by lia.
  split; cbn [geo_sectors_per_cluster bytes_per_sector reserved_sectors num_fats root_cluster
    fsinfo_sector backup_boot_sector total_sectors fat_size_sectors count_of_clusters
    first_data_sector]; try done; [|lia|].
  - destruct Hspc as [-> | [-> | [-> | [-> | ->]]]]; set_solver.
  - assert (0 < spc) by lia. pose proof (Z.mul_div_le (t - (32 + 2 * fat)) spc ltac:(lia)). lia.
Qed.

Lemma fat32_geometry_Some v g : fat32_geometry v = Some g ->
  66601 <= v / 512 < 2 ^ 32 /\ geometry_ok g /\ 65525 <= count_of_clusters g /\ total_sectors g = v / 512.
Proof.
  intros E. assert (exists t, checked 32 (v / 512) = Some t) as [t Ht].
  { unfold fat32_geometry, BYTES_PER_SECTOR in E. destruct (checked 32 (v / 512)); [by eexists|done]. }
  apply checked_Some in Ht as [Ht ->].
  assert (exists spc, sectors_per_cluster (v / 512) = Some spc) as [spc Hs].
  { unfold fat32_geometry, BYTES_PER_SECTOR in E.
    rewrite (proj2 (checked_Some 32 _ (v / 512))) in E by done. cbn [option_bind mbind] in E.
    destruct (sectors_per_cluster (v / 512)); [by eexists|done]. }
  destruct (fat32_geometry_eq v (v / 512) spc eq_refl Ht Hs) as (fat & E' & Hok & Hmin).
  rewrite E in E'. injection E' as ->.
  pose proof (sectors_per_cluster_cases _ _ Ht Hs). split_and!; [zlia|zlia|done|done|done].
Qed.

Lemma accepted_ok v g : fat32_geometry v = Some g -> geometry_ok g.
Proof. intros E. by apply fat32_geometry_Some in E as (_ & ? & _). Qed.

(** The geometry is sound and complete. A volume is accepted exactly when
    its sector count fits 32 bits and exceeds the FAT32 floor of 66,600; every
    accepted geometry stays inside the volume, has at least 65,525 clusters, all
    of them numbered below the reserved cluster values, and a FAT with
    room for an entry for each. *)
Theorem fat32_geometry_sound v :
  (is_Some (fat32_geometry v) <-> 66601 <= v / 512 < 2 ^ 32) /\
  (forall g, fat32_geometry v = Some g ->
     geometry_ok g /\ 65525 <= count_of_clusters g /\ total_sectors g = v / 512).
Proof.
  split; [split|].
  - intros [g E]. by apply fat32_geometry_Some in E as [? _].
  - intros H. assert (exists spc, sectors_per_cluster (v / 512) = Some spc) as [spc Hs].
    { unfold sectors_per_cluster. rewrite (proj2 (Z.leb_gt _ _)) by lia. by eexists. }
    destruct (fat32_geometry_eq v (v / 512) spc eq_refl ltac:(zlia) Hs) as (fat & E & _). by eexists.
  - intros g E. by apply fat32_geometry_Some in E as [_ ?].
Qed.

Lemma fat32_geometry_sound_witness :
  exists g, fat32_geometry 536870912 = Some g /\ geometry_ok g /\ count_of_clusters g = 130812.
Proof.
  assert (E : exists g, fat32_geometry 536870912 = Some g /\ count_of_clusters g = 130812)
    by (eexists; split; vm_compute; reflexivity).
  destruct E as (g & E & Hc). exists g.
  pose proof (proj2 (fat32_geometry_sound 536870912) g E) as (Hok & _).
  split_and!; [exact E|exact Hok|exact Hc].
Defined.

(* ------------------------------------------------------------------ *)
(** ** Sectors and entries *)

(** A little-endian field of a sector. *)
Definition field (s : list Z) (off n : nat) : Z := le_value (take n (drop off s)).

(** How a FAT driver mounts a volume: the signature, the parameter block,
    and the derived data start and cluster count. *)
Definition decode_bpb (s : list Z) : option Fat32Geometry :=
  if field s 510 2 =? 43605 then
    let spc := field s 13 1 in
    let reserved := field s 14 2 in
    let fats := field s 16 1 in
    let total := field s 32 4 in
    let fat_size := field s 36 4 in
    let first := reserved + fats * fat_size in
    Some (mkGeometry (field s 11 2) spc reserved fats total fat_size (field s 44 4)
            (field s 48 2) (field s 50 2) ((total - first) / spc) first)
  else None.

Lemma boot_sector_length geo id : length (fat32_boot_sector geo id) = 512%nat.
Proof. reflexivity. Qed.

Lemma boot_fields geo id :
  let s := fat32_boot_sector geo id in
  take 2 (drop 510 s) = [85; 170] /\ take 2 (drop 11 s) = le_bytes 2 (bytes_per_sector geo) /\
  take 1 (drop 13 s) = [geo_sectors_per_cluster geo] /\
  take 2 (drop 14 s) = le_bytes 2 (reserved_sectors geo) /\ take 1 (drop 16 s) = [num_fats geo] /\
  take 4 (drop 32 s) = le_bytes 4 (total_sectors geo) /\
  take 4 (drop 36 s) = le_bytes 4 (fat_size_sectors geo) /\
  take 4 (drop 44 s) = le_bytes 4 (root_cluster geo) /\
  take 2 (drop 48 s) = le_bytes 2 (fsinfo_sector geo) /\
  take 2 (drop 50 s) = le_bytes 2 (backup_boot_sector geo) /\
  take 4 (drop 67 s) = le_bytes 4 id.
Proof. intros s. split_and!; reflexivity. Qed.

Lemma geometry_fields g :
  geometry_ok g -> geo_sectors_per_cluster g = 1 \/ geo_sectors_per_cluster g = 8 \/
    geo_sectors_per_cluster g = 16 \/ geo_sectors_per_cluster g = 32 \/ geo_sectors_per_cluster g = 64.
Proof. intros H. pose proof (ok_spc g H) as Hs. set_solver. Qed.

(** A driver that mounts the boot sector derives the very geometry the volume was
    laid out with. *)
Lemma boot_sector_mounts g id :
  geometry_ok g -> decode_bpb (fat32_boot_sector g id) = Some g.
Proof.
  intros H. destruct (boot_fields g id) as (E1 & E2 & E3 & E4 & E5 & E6 & E7 & E8 & E9 & E10 & _).
  unfold decode_bpb, field. rewrite E1, E2, E3, E4, E5, E6, E7, E8, E9, E10.
  pose proof (geometry_fields g H). pose proof (ok_fixed g H) as (? & ? & ? & ? & ? & ?).
  pose proof (ok_total g H). pose proof (ok_fat g H). pose proof (ok_clusters g H).
  pose proof (ok_fits g H). pose proof (ok_data g H). pose proof (ok_count g H) as Hc. widths.
  assert (fat_size_sectors g < 4294967296).
  { assert (0 <= count_of_clusters g * geo_sectors_per_cluster g) by nia.
    replace (num_fats g) with 2 in * by done. lia. }
  rewrite !le_value_bytes by (change (256 ^ Z.of_nat 2) with 65536;
    change (256 ^ Z.of_nat 4) with 4294967296; lia).
  cbn [le_value Z.eqb Pos.eqb Z.add Z.mul Pos.add Pos.mul]. f_equal.
  rewrite !Z.add_0_r. replace (reserved_sectors g + num_fats g * fat_size_sectors g)
    with (first_data_sector g) by lia.
  rewrite <- Hc. by destruct g.
Qed.

(** Entries of the serialized table. *)
Definition entry_bytes (es : list Z) : list Z := concat (le_bytes 4 <$> es).

Lemma entry_bytes_length es : length (entry_bytes es) = (4 * length es)%nat.
Proof.
  induction es as [|e es IH]; [done|].
  change (entry_bytes (e :: es)) with (le_bytes 4 e ++ entry_bytes es).
  rewrite length_app, le_bytes_length, IH. cbn [length]. lia.
Qed.

Lemma entry_bytes_lookup es i e rest :
  es !! i = Some e -> take 4 (drop (4 * i) (entry_bytes es ++ rest)) = le_bytes 4 e.
Proof.
  revert i. induction es as [|x es IH]; intros i E; [by rewrite lookup_nil in E|].
  change (entry_bytes (x :: es)) with (le_bytes 4 x ++ entry_bytes es). rewrite <- app_assoc.
  destruct i as [|i].
  - injection E as ->. rewrite drop_0. rewrite take_app_le by (by rewrite le_bytes_length).
    apply take_ge. by rewrite le_bytes_length.
  - replace (4 * S i)%nat with (length (le_bytes 4 x) + 4 * i)%nat by (rewrite le_bytes_length; lia).
    rewrite drop_app_add'. by apply IH. done.
Qed.

Lemma put_entries_spec es : forall i pre post,
  0 <= i -> zlen pre = i * 4 -> zlen post >= 4 * zlen es ->
  put_entries i es (pre ++ post) = pre ++ entry_bytes es ++ drop (4 * length es) post.
Proof.
  induction es as [|e es IH]; intros i pre post Hi Hpre Hpost; cbn [put_entries]; [done|].
  rewrite zlen_cons in Hpost. pose proof (zlen_nonneg es).
  rewrite (proj2 (Z.leb_le _ _)) by (rewrite zlen_app; lia).
  rewrite <- (take_drop 4 post) at 1. rewrite <- Hpre.
  rewrite splice_exact by (rewrite length_take, le_bytes_length; unfold zlen in *; lia).
  rewrite app_assoc, IH; [|lia| |].
  - change (entry_bytes (e :: es)) with (le_bytes 4 e ++ entry_bytes es).
    rewrite drop_drop, <- !app_assoc. do 4 f_equal. cbn [length]. lia.
  - rewrite zlen_app, zlen_le_bytes. lia.
  - unfold zlen in *. rewrite length_drop. lia.
Qed.

(** Every entry of the table is in the serialized FAT, and the rest is zero. *)
Lemma to_bytes_spec t g :
  zlen (entries t) * 4 <= fat_size_sectors g * 512 ->
  to_bytes t g = entry_bytes (entries t) ++
                 blank (fat_size_sectors g * 512 - 4 * zlen (entries t)).
Proof.
  intros H. unfold to_bytes, blank. pose proof (zlen_nonneg (entries t)).
  rewrite <- (app_nil_l (replicate _ 0)) at 1. rewrite put_entries_spec; [|lia|done|].
  - cbn [app]. f_equal. rewrite drop_replicate. f_equal. unfold zlen in *. lia.
  - unfold zlen in *. rewrite length_replicate. lia.
Qed.

Lemma to_bytes_length t g :
  zlen (entries t) * 4 <= fat_size_sectors g * 512 ->
  zlen (to_bytes t g) = fat_size_sectors g * 512.
Proof.
  intros H. rewrite to_bytes_spec by done. pose proof (zlen_nonneg (entries t)).
  unfold blank, zlen in *. rewrite length_app, entry_bytes_length, length_replicate. lia.
Qed.

Lemma new_length g : 0 < count_of_clusters g -> zlen (entries (new g)) = count_of_clusters g + 2.
Proof. intros. unfold new, blank, zlen; cbn [entries]. rewrite !length_insert, length_replicate. lia. Qed.

(** Table entries stay in 28 bits: the table is created so and [set] keeps it. *)
Definition table_wf (t : Fat32Table) : Prop := Forall (in_width 28) (entries t).

Lemma mask_28 v : 0 <= v -> Z.land v FAT32_ENTRY_MASK = v mod 2 ^ 28.
Proof. intros. change FAT32_ENTRY_MASK with (Z.ones 28). by rewrite Z.land_ones by lia. Qed.

Lemma table_new_wf g : table_wf (new g).
Proof.
  unfold table_wf, new, blank; cbn [entries]. do 2 (apply Forall_insert; [|by split]).
  apply Forall_replicate. zlia.
Qed.

Lemma set_spec t c v :
  table_wf t -> 0 <= c < zlen (entries t) -> in_width 28 v ->
  set t c v = Some (mkTable (<[Z.to_nat c := v]> (entries t))) /\
  table_wf (mkTable (<[Z.to_nat c := v]> (entries t))).
Proof.
  intros Hw Hc Hv. unfold set. assert (Hlt : (Z.to_nat c < length (entries t))%nat) by (unfold zlen in *; lia).
  destruct (lookup_lt_is_Some_2 _ _ Hlt) as [e He]. rewrite He. cbn [option_bind mbind].
  assert (He28 : in_width 28 e) by (eapply (Forall_lookup_1 _ _ _ _ Hw He)).
  split; [|by apply Forall_insert].
  replace (Z.ldiff e FAT32_ENTRY_MASK) with 0.
  - rewrite Z.lor_0_l, mask_28 by zlia. rewrite Z.mod_small by done. done.
  - symmetry. change FAT32_ENTRY_MASK with (Z.ones 28). apply Z.ldiff_ones_r_low; [zlia|].
    destruct (decide (e = 0)) as [->|]; [done|]. apply Z.log2_lt_pow2; zlia.
Qed.

Lemma get_spec t c e :
  table_wf t -> 0 <= c -> entries t !! Z.to_nat c = Some e -> get t c = Some e.
Proof.
  intros Hw Hc He. unfold get. rewrite He. cbn [option_bind mbind].
  assert (He28 : in_width 28 e) by (eapply (Forall_lookup_1 _ _ _ _ Hw He)).
  rewrite mask_28 by zlia. by rewrite Z.mod_small.
Qed.

(** The fields of a directory entry as a driver reads them. *)
Definition entry_name (e : list Z) : list Z := take 11 e.
Definition entry_attr (e : list Z) : Z := field e 11 1.
Definition entry_cluster (e : list Z) : Z := field e 20 2 * 65536 + field e 26 2.
Definition entry_size (e : list Z) : Z := field e 28 4.

Lemma dir_entry_fields name attr cluster time date size :
  length name = 11%nat -> u32 cluster -> u32 size ->
  let e := fat32_dir_entry name attr cluster time date size in
  length e = 32%nat /\ entry_name e = name /\ entry_attr e = attr /\
  entry_cluster e = cluster /\ entry_size e = size.
Proof.
  intros Hn Hc Hs e.
  do 11 (destruct name as [|? name]; [done|]). destruct name; [|done].
  assert (E : length e = 32%nat /\ take 11 e = [z; z0; z1; z2; z3; z4; z5; z6; z7; z8; z9] /\
    take 1 (drop 11 e) = [attr] /\ take 2 (drop 20 e) = le_bytes 2 (wrap 16 (Z.shiftr cluster 16)) /\
    take 2 (drop 26 e) = le_bytes 2 (wrap 16 cluster) /\ take 4 (drop 28 e) = le_bytes 4 size)
    by (split_and!; reflexivity).
  destruct E as (E0 & E1 & E2 & E3 & E4 & E5).
  unfold entry_name, entry_attr, entry_cluster, entry_size, field. rewrite E1, E2, E3, E4, E5.
  rewrite !le_value_bytes by (done || (apply wrap_in_width; lia)).
  split_and!; try done; [cbn; lia|].
  rewrite Z.shiftr_div_pow2 by lia. unfold wrap. widths. Z.div_mod_to_equations. lia.
Qed.

End Fat.
