(* ===== verification/Fat32Volume.v ===== *)
(** * The synthesized FAT32 volume

    crates/izarravm-machine/src/fat32_volume.rs: a host folder laid out as a sparse
    FAT32 volume that answers one sector at a time.  The host file system is the
    input: a [Host] tree says what the directory listing (in sorted order), the
    metadata and the file reads returned.  A step that would panic is an
    explicit error, and [build_total] shows it is never taken. *)

From stdpp Require Import gmap.
From S2P Require Import Prelude FatName Fat32.
Import Fat.

Module Volume.

Definition SECTOR : Z := 512.
Definition DIR_ENTRY_SIZE : Z := 32.
Definition ATTR_ARCHIVE : Z := 32.

(** What the host answers for a path: no metadata, a directory with its listing
    (or a failed [read_dir]), a file with its bytes (or a failed read),
    anything else. *)
Inductive Host :=
| NoMetadata
| Directory (listing : option (list (list Z * Host)))
| File (contents : option (list Z))
| Special.

Inductive BuildError := ReadDir | InvalidSize | NoRootRoom | Panicked.

Record Fat32Volume := mkVolume {
  geo : Fat32Geometry;
  volume_id : Z;
  fat_bytes : list Z;
  vol_clusters : gmap Z (list Z);
  free_count : Z;
  vol_next_free : Z
}.

Definition fat_slice (v : Fat32Volume) (sector : Z) : list Z :=
  match slice (fat_bytes v) (sector * SECTOR) (sector * SECTOR + SECTOR) with
  | Some s => s
  | None => blank SECTOR
  end.

(** [&buf[off..off + SECTOR]] panics out of range: [None]. *)
Definition read_sector (v : Fat32Volume) (lba : Z) : option (list Z) :=
  let g := geo v in
  if (lba =? 0) || (lba =? backup_boot_sector g) then Some (fat32_boot_sector g (volume_id v))
  else
    let fsinfo_backup := wrap 32 (backup_boot_sector g + fsinfo_sector g) in
    if (lba =? fsinfo_sector g) || (lba =? fsinfo_backup)
    then Some (fat32_fsinfo_sector (free_count v) (vol_next_free v))
    else
      let reserved := reserved_sectors g in
      let fat_end := wrap 32 (reserved + wrap 32 (num_fats g * fat_size_sectors g)) in
      if (reserved <=? lba) && (lba <? fat_end)
      then Some (fat_slice v ((lba - reserved) mod fat_size_sectors g))
      else if first_data_sector g <=? lba then
        let data_lba := lba - first_data_sector g in
        let spc := geo_sectors_per_cluster g in
        let cluster := wrap 32 (2 + data_lba / spc) in
        let sector_in_cluster := data_lba mod spc in
        match vol_clusters v !! cluster with
        | Some buf => slice buf (sector_in_cluster * SECTOR) (sector_in_cluster * SECTOR + SECTOR)
        | None => Some (blank SECTOR)
        end
      else Some (blank SECTOR).

Record Builder := mkBuilder {
  b_geo : Fat32Geometry;
  fat : Fat32Table;
  next_free : Z;
  clusters : gmap Z (list Z);
  cluster_bytes : Z
}.
#[export] Instance eta_Builder : Eta Builder := fun b =>
  mkBuilder (b_geo b) (fat b) (next_free b) (clusters b) (cluster_bytes b).

Definition free_clusters (b : Builder) : Z :=
  saturate 32 (count_of_clusters (b_geo b) + 2 - next_free b).

Definition alloc_one (b : Builder) : option (Builder * Z) :=
  if free_clusters b =? 0 then None
  else Some (b <| next_free := wrap 32 (next_free b + 1) |>, next_free b).

(** [(0..n).map(|_| self.alloc_one().unwrap()).collect()] *)
Fixpoint alloc_all (n : nat) (b : Builder) : option (Builder * list Z) :=
  match n with
  | O => Some (b, [])
  | S n =>
      '(b, c) ← alloc_one b;
      '(b, cs) ← alloc_all n b;
      Some (b, c :: cs)
  end.

Definition fat_set (b : Builder) (cluster value : Z) : option Builder :=
  t ← set (fat b) cluster value;
  Some (b <| fat := t |>).

(** Links consecutive clusters, [for w in chain.windows(2)], then ends the
    chain; [None] when an index panics or the chain is empty. *)
Fixpoint link_chain (b : Builder) (chain : list Z) : option Builder :=
  match chain with
  | [] => None
  | [last] => fat_set b last FAT32_EOC
  | c :: ((d :: _) as rest) => b ← fat_set b c d; link_chain b rest
  end.

(** The outer option is a panic, the inner one the source's. *)
Definition alloc_chain (b : Builder) (n : Z) : option (Builder * option (list Z)) :=
  if (n =? 0) || (free_clusters b <? n) then Some (b, None)
  else
    '(b, chain) ← alloc_all (Z.to_nat n) b;
    b ← link_chain b chain;
    Some (b, Some chain).

(** The [i]-th cluster's share of [data], zero-padded to a cluster. *)
Definition chunk (size : Z) (i : Z) (data : list Z) : list Z :=
  let start := i * size in
  let end_ := Z.min (start + size) (zlen data) in
  splice (blank size) 0 (take (Z.to_nat (end_ - start)) (drop (Z.to_nat start) data)).

(** The loop over [chain.iter().enumerate()] from index [i] on. *)
Fixpoint fill (size i : Z) (chain : list Z) (data : list Z) (m : gmap Z (list Z)) : gmap Z (list Z) :=
  match chain with
  | [] => m
  | cl :: chain => fill size (i + 1) chain data (<[cl := chunk size i data]> m)
  end.

Definition store_file (b : Builder) (data : list Z) : option (Builder * option Z) :=
  match data with
  | [] => Some (b, Some 0)
  | _ =>
      let n := wrap 32 (div_ceil (zlen data) (cluster_bytes b)) in
      '(b, chain) ← alloc_chain b n;
      match chain with
      | None => Some (b, None)
      | Some chain =>
          let b := b <| clusters := fill (cluster_bytes b) 0 chain data (clusters b) |> in
          Some (b, head chain)
      end
  end.

(** The loop that extends a directory's chain until the volume is full. *)
Fixpoint extend_chain (n : nat) (b : Builder) (chain : list Z) : Builder * list Z :=
  match n with
  | O => (b, chain)
  | S n =>
      match alloc_one b with
      | Some (b, c) => extend_chain n b (chain ++ [c])
      | None => (b, chain)
      end
  end.

(** The loop that serializes directory entries, dropping those past capacity. *)
Fixpoint put_dir_entries (i : Z) (entries : list (list Z)) (flat : list Z) : list Z :=
  match entries with
  | [] => flat
  | e :: entries =>
      let off := i * DIR_ENTRY_SIZE in
      put_dir_entries (i + 1) entries
        (if off + DIR_ENTRY_SIZE <=? zlen flat then splice flat off e else flat)
  end.

(** The loop that stores the serialized directory, cluster by cluster. *)
Fixpoint fill_flat (size i : Z) (chain : list Z) (flat : list Z) (m : gmap Z (list Z)) : gmap Z (list Z) :=
  match chain with
  | [] => m
  | cl :: chain =>
      fill_flat size (i + 1) chain flat
        (<[cl := take (Z.to_nat size) (drop (Z.to_nat (i * size)) flat)]> m)
  end.

Definition store_dir (b : Builder) (first_cluster : Z) (entries : list (list Z)) : option Builder :=
  let per_cluster := cluster_bytes b / DIR_ENTRY_SIZE in
  let needed := Z.max (div_ceil (zlen entries) per_cluster) 1 in
  let '(b, chain) := extend_chain (Z.to_nat (needed - 1)) b [first_cluster] in
  b ← link_chain b chain;
  let capacity := zlen chain * cluster_bytes b in
  let flat := put_dir_entries 0 entries (blank capacity) in
  Some (b <| clusters := fill_flat (cluster_bytes b) 0 chain flat (clusters b) |>).

Definition or_panic {A} (o : option A) : result BuildError A :=
  match o with Some a => Ok a | None => Err Panicked end.

(** The loop of [build_dir] over the sorted children of the directory at
    [self_cluster]; [build_child] is the recursive call. *)
Section Walk.
Variable build_child : Host -> Builder -> Z -> Z -> bool -> result BuildError Builder.
Variable self_cluster : Z.
Variable is_root : bool.

Fixpoint walk (children : list (list Z * Host)) (b : Builder)
    (entries : list (list Z)) (used_names : list (list Z)) {struct children}
    : result BuildError (Builder * list (list Z)) :=
  match children with
  | [] => Ok (b, entries)
  | (raw, child) :: children =>
      match raw with
      | [] => walk children b entries used_names
      | _ =>
          match child with
          | NoMetadata | Special | File None => walk children b entries used_names
          | Directory _ =>
              match alloc_one b with
              | None => walk children b entries used_names
              | Some (b, child_cluster) =>
                  let parent_for_child := if is_root then 0 else self_cluster in
                  let? b := build_child child b child_cluster parent_for_child false in
                  let '(name, used_names) := Name.unique_name raw true used_names in
                  walk children b
                    (entries ++ [fat32_dir_entry name FAT_ATTR_DIRECTORY child_cluster 0 0 0])
                    used_names
              end
          | File (Some data) =>
              let? (b, head) := or_panic (store_file b data) in
              match head with
              | None => walk children b entries used_names
              | Some head =>
                  let '(name, used_names) := Name.unique_name raw false used_names in
                  walk children b
                    (entries ++ [fat32_dir_entry name ATTR_ARCHIVE head 0 0 (wrap 32 (zlen data))])
                    used_names
              end
          end
      end
  end.
End Walk.

(** [fs::read_dir] of anything but a readable directory fails. *)
Fixpoint build_dir (dir : Host) (b : Builder) (self_cluster parent_cluster : Z) (is_root : bool)
  {struct dir} : result BuildError Builder :=
  match dir with
  | Directory (Some children) =>
      let dots := fat32_dot_entries self_cluster parent_cluster in
      let entries := if is_root then [] else [take 32 dots; drop 32 dots] in
      let? (b, entries) := walk build_dir self_cluster is_root children b entries [] in
      or_panic (store_dir b self_cluster entries)
  | _ => Err ReadDir
  end.

Definition new_builder (g : Fat32Geometry) : Builder :=
  mkBuilder g (new g) 2 ∅ (geo_sectors_per_cluster g * SECTOR).

Definition build_fat32 (root : Host) (volume_bytes volume_id : Z) : result BuildError Fat32Volume :=
  let! g := fat32_geometry volume_bytes else InvalidSize in
  let! (b, root_cluster) := alloc_one (new_builder g) else NoRootRoom in
  let? b := build_dir root b root_cluster 0 true in
  Ok (mkVolume g volume_id (to_bytes (fat b) g) (clusters b) (free_clusters b) (next_free b)).


(* ------------------------------------------------------------------ *)
(** ** The builder *)

Record builder_wf (b : Builder) : Prop := {
  wf_geo : geometry_ok (b_geo b);
  wf_cluster : cluster_bytes b = geo_sectors_per_cluster (b_geo b) * 512;
  wf_table : table_wf (fat b);
  wf_entries : zlen (entries (fat b)) = count_of_clusters (b_geo b) + 2;
  wf_next : 2 <= next_free b <= count_of_clusters (b_geo b) + 2;
  wf_stored : forall c buf, clusters b !! c = Some buf -> 2 <= c < next_free b /\ zlen buf = cluster_bytes b
}.

Lemma cluster_bytes_cases b : builder_wf b ->
  cluster_bytes b = 512 \/ cluster_bytes b = 4096 \/ cluster_bytes b = 8192 \/
  cluster_bytes b = 16384 \/ cluster_bytes b = 32768.
Proof. intros H. rewrite (wf_cluster b H). pose proof (geometry_fields _ (wf_geo b H)). lia. Qed.

Lemma clusters_bound b : builder_wf b -> count_of_clusters (b_geo b) + 2 < 2 ^ 28.
Proof. intros H. pose proof (ok_clusters _ (wf_geo b H)). zlia. Qed.

Lemma free_clusters_eq b : builder_wf b ->
  free_clusters b = count_of_clusters (b_geo b) + 2 - next_free b.
Proof.
  intros H. pose proof (clusters_bound b H). pose proof (wf_next b H).
  unfold free_clusters, saturate. widths. lia.
Qed.

(** What one cluster holds: unallocated clusters read as zeros. *)
Definition stored (b : Builder) (c : Z) : list Z := default (blank (cluster_bytes b)) (clusters b !! c).

Definition entry_at (b : Builder) (c : Z) : option Z := entries (fat b) !! Z.to_nat c.

(** [b'] comes after [b]: only new clusters and cluster [s] changed. *)
Record extends (s : Z) (b b' : Builder) : Prop := {
  ext_geo : b_geo b' = b_geo b;
  ext_size : cluster_bytes b' = cluster_bytes b;
  ext_next : next_free b <= next_free b';
  ext_same : forall c, 2 <= c < next_free b -> c <> s ->
    entry_at b' c = entry_at b c /\ stored b' c = stored b c
}.

Lemma extends_refl s b : extends s b b.
Proof. by split. Qed.

Lemma extends_trans s b1 b2 b3 : extends s b1 b2 -> extends s b2 b3 -> extends s b1 b3.
Proof.
  intros [G1 S1 N1 H1] [G2 S2 N2 H2]. split; [congruence|congruence|lia|].
  intros c Hc Hs. destruct (H1 c Hc Hs) as [<- <-]. apply H2; [lia|done].
Qed.

(** A change of a cluster that is not allocated yet is invisible. *)
Lemma extends_fresh s c b b' : next_free b <= c -> extends c b b' -> extends s b b'.
Proof. intros Hc [G S N H]. split; try done. intros d Hd _. apply H; lia. Qed.

Lemma alloc_one_spec b : builder_wf b ->
  (free_clusters b = 0 /\ alloc_one b = None) \/
  (0 < free_clusters b /\ exists b', alloc_one b = Some (b', next_free b) /\
     b' = b <| next_free := next_free b + 1 |> /\ builder_wf b').
Proof.
  intros H. pose proof (free_clusters_eq b H) as Hf. pose proof (clusters_bound b H).
  pose proof (wf_next b H). unfold alloc_one.
  destruct (Z.eqb_spec (free_clusters b) 0); [by left|right].
  split; [lia|]. eexists. split; [done|]. rewrite wrap_id by (unfold in_width; widths; lia).
  split; [done|]. destruct H as [Hg Hc Ht He Hn Hs]. split; cbn; try done; [lia|].
  intros c buf E. apply Hs in E. lia.
Qed.

Lemma alloc_extends s b : extends s b (b <| next_free := next_free b + 1 |>).
Proof. split; cbn; try done. lia. Qed.

Lemma alloc_all_spec n : forall b, builder_wf b -> Z.of_nat n <= free_clusters b ->
  alloc_all n b = Some (b <| next_free := next_free b + Z.of_nat n |>, seqZ (next_free b) (Z.of_nat n)) /\
  builder_wf (b <| next_free := next_free b + Z.of_nat n |>).
Proof.
  induction n as [|n IH]; intros b H Hn; cbn [alloc_all].
  - rewrite Z.add_0_r. by destruct b.
  - destruct (alloc_one_spec b H) as [[? _]|(Hpos & b1 & -> & Hb1 & H1)]; [lia|].
    cbn [option_bind mbind].
    destruct (IH b1 H1) as [E Hwf].
    { rewrite free_clusters_eq in * by done. subst b1. cbn in *. lia. }
    rewrite E. cbn [option_bind mbind]. subst b1. cbn [next_free update] in *.
    replace (next_free b + 1 + Z.of_nat n) with (next_free b + Z.of_nat (S n)) in * by lia.
    split; [|done]. do 2 f_equal. rewrite (seqZ_cons (next_free b)) by lia. f_equal. f_equal; lia.
Qed.

(** The clusters of a chain, linked in order and ended. *)
Fixpoint links (entry : Z -> option Z) (chain : list Z) : Prop :=
  match chain with
  | [] => False
  | [last] => entry last = Some FAT32_EOC
  | c :: ((d :: _) as rest) => entry c = Some d /\ links entry rest
  end.

Lemma links_ext (f g : Z -> option Z) chain :
  (forall c, c ∈ chain -> g c = f c) -> links f chain -> links g chain.
Proof.
  induction chain as [|c [|d rest] IH]; intros H; [done| |].
  - cbn. intros <-. apply H. set_solver.
  - intros [E Hl]. split; [rewrite H by set_solver; done|]. apply IH; [|done]. set_solver.
Qed.

Lemma fat_set_spec b c v : builder_wf b -> 2 <= c < count_of_clusters (b_geo b) + 2 -> in_width 28 v ->
  exists b', fat_set b c v = Some b' /\ builder_wf b' /\ b' = b <| fat := fat b' |> /\
    entry_at b' c = Some v /\ (forall d, 2 <= d -> d <> c -> entry_at b' d = entry_at b d).
Proof.
  intros H Hc Hv. unfold fat_set.
  destruct (set_spec (fat b) c v (wf_table b H) ltac:(rewrite wf_entries by done; lia) Hv) as [E Hw].
  rewrite E. cbn [option_bind mbind]. eexists. split; [done|].
  pose proof (wf_entries b H) as He.
  split_and!; try done.
  - destruct H as [Hg Hcl Ht _ Hn Hs]. split; cbn; try done. unfold zlen in *.
    by rewrite length_insert.
  - unfold entry_at; cbn. apply list_lookup_insert_eq. unfold zlen in He. lia.
  - intros d Hd Hne. unfold entry_at; cbn. apply list_lookup_insert_ne. lia.
Qed.

Lemma link_chain_spec chain : forall b, builder_wf b -> chain <> [] -> NoDup chain ->
  Forall (fun c => 2 <= c < count_of_clusters (b_geo b) + 2) chain ->
  exists b', link_chain b chain = Some b' /\ builder_wf b' /\ b' = b <| fat := fat b' |> /\
    links (entry_at b') chain /\ (forall d, 2 <= d -> d ∉ chain -> entry_at b' d = entry_at b d).
Proof.
  induction chain as [|c [|d rest] IH]; intros b H Hne Hnd Hr; [done| |].
  - cbn [link_chain]. destruct (fat_set_spec b c FAT32_EOC H ltac:(by inversion Hr) ltac:(by split))
      as (b' & -> & Hw & Eb & Ec & Ho). exists b'. split_and!; try done. intros d Hd Hn. apply Ho; set_solver.
  - apply Forall_cons in Hr as [Hc Hr]. apply NoDup_cons in Hnd as [Hnin Hnd].
    pose proof (clusters_bound b H) as Hb.
    destruct (fat_set_spec b c d H Hc) as (b1 & E1 & Hw1 & Eb1 & Ec1 & Ho1).
    { apply Forall_cons in Hr as [Hd _]. zlia. }
    cbn [link_chain]. rewrite E1. cbn [option_bind mbind].
    assert (Eg : b_geo b1 = b_geo b) by (by rewrite Eb1).
    destruct (IH b1 Hw1 ltac:(done) Hnd ltac:(by rewrite Eg)) as (b2 & E2 & Hw2 & Eb2 & Hl & Ho2).
    exists b2. split_and!; try done.
    + rewrite Eb2, Eb1. done.
    + cbn [links]. split; [|done]. rewrite Ho2 by (done || lia). done.
    + intros x Hx Hn. rewrite Ho2, Ho1 by (set_solver || done). done.
Qed.

(* ------------------------------------------------------------------ *)
(** ** Cluster contents *)

Lemma blank_app a b : 0 <= a -> 0 <= b -> blank a ++ blank b = blank (a + b).
Proof. intros. unfold blank. rewrite <- replicate_add. f_equal. lia. Qed.

Lemma blank_length a : 0 <= a -> zlen (blank a) = a.
Proof. intros. unfold blank, zlen. rewrite length_replicate. lia. Qed.

Lemma chunk_eq size i data :
  0 <= size -> 0 <= i ->
  chunk size i data =
  take (Z.to_nat size) (drop (Z.to_nat (i * size)) data) ++
  blank (size - zlen (take (Z.to_nat size) (drop (Z.to_nat (i * size)) data))).
Proof.
  intros Hs Hi. unfold chunk, splice. cbn [Z.to_nat take]. rewrite app_nil_l, Nat.add_0_l.
  assert (Hp : 0 <= i * size) by nia.
  assert (E : take (Z.to_nat (Z.min (i * size + size) (zlen data) - i * size)) (drop (Z.to_nat (i * size)) data) =
              take (Z.to_nat size) (drop (Z.to_nat (i * size)) data)).
  { destruct (decide (i * size + size <= zlen data)); [do 2 f_equal; lia|].
    rewrite !take_ge; [done|unfold zlen in *; rewrite length_drop; lia..]. }
  rewrite E. f_equal. unfold blank, zlen. rewrite drop_replicate. f_equal. lia.
Qed.

Lemma chunk_length size i data : 0 <= size -> 0 <= i -> zlen (chunk size i data) = size.
Proof.
  intros. rewrite chunk_eq by done. rewrite zlen_app, blank_length; [lia|].
  unfold zlen. rewrite length_take. lia.
Qed.

(** The chunks of [data] put back together. *)
Lemma concat_chunks size data n : forall i, 0 < size -> 0 <= i ->
  zlen data <= (i + Z.of_nat n) * size ->
  concat ((fun k => chunk size k data) <$> seqZ i (Z.of_nat n)) =
  drop (Z.to_nat (i * size)) data ++
  blank (Z.of_nat n * size - zlen (drop (Z.to_nat (i * size)) data)).
Proof.
  induction n as [|n IH]; intros i Hs Hi Hlen.
  - rewrite drop_ge by (unfold zlen in *; lia). done.
  - rewrite (seqZ_cons i) by lia. rewrite fmap_cons. cbn [concat].
    replace (Z.pred (Z.of_nat (S n))) with (Z.of_nat n) by lia.
    replace (Z.succ i) with (i + 1) by lia. rewrite IH by (unfold zlen in *; lia || nia).
    rewrite chunk_eq by lia. assert (0 <= i * size) by nia.
    replace (Z.to_nat ((i + 1) * size)) with (Z.to_nat (i * size) + Z.to_nat size)%nat by lia.
    rewrite <- drop_drop. set (l := drop (Z.to_nat (i * size)) data).
    destruct (decide (size <= zlen l)) as [Hle|Hgt].
    + replace (zlen (take (Z.to_nat size) l)) with size by (unfold zlen in *; rewrite length_take; lia).
      rewrite Z.sub_diag. cbn [blank Z.to_nat replicate]. rewrite app_nil_r, app_assoc, take_drop.
      f_equal. f_equal. unfold zlen in *. rewrite length_drop. lia.
    + rewrite take_ge, drop_ge by (unfold zlen in *; lia). cbn [app].
      rewrite <- app_assoc. f_equal. change (zlen (@nil Z)) with 0. rewrite blank_app; [f_equal; lia|lia|nia].
Qed.

Lemma fill_spec size chain data : forall i m, NoDup chain ->
  (forall c, c ∉ chain -> fill size i chain data m !! c = m !! c) /\
  (forall k c, chain !! k = Some c -> fill size i chain data m !! c = Some (chunk size (i + Z.of_nat k) data)).
Proof.
  induction chain as [|d chain IH]; intros i m Hnd; cbn [fill]; [by split|].
  apply NoDup_cons in Hnd as [Hnin Hnd]. destruct (IH (i + 1) (<[d:=chunk size i data]> m) Hnd) as [Ho Hk].
  split.
  - intros c Hc. rewrite Ho by set_solver. apply lookup_insert_ne. set_solver.
  - intros [|k] c E.
    + injection E as ->. rewrite Ho by done. rewrite lookup_insert_eq. do 2 f_equal. lia.
    + rewrite (Hk k c E). do 2 f_equal. lia.
Qed.

(** A chain whose members hold the successive values of [f] holds their list. *)
Lemma fmap_positions {A} (g : Z -> A) (f : Z -> A) chain : forall i,
  (forall k c, chain !! k = Some c -> g c = f (i + Z.of_nat k)) ->
  g <$> chain = f <$> seqZ i (zlen chain).
Proof.
  induction chain as [|c chain IH]; intros i H; [done|].
  rewrite zlen_cons. rewrite (seqZ_cons i) by (pose proof (zlen_nonneg chain); lia). rewrite !fmap_cons.
  f_equal.
  - rewrite (H 0%nat c eq_refl). f_equal. lia.
  - replace (Z.pred (1 + zlen chain)) with (zlen chain) by lia. apply IH. intros k d E.
    rewrite (H (S k) d E). f_equal. lia.
Qed.

(** The range of clusters an allocation hands out. *)
Lemma fresh_range lo n limit :
  2 <= lo -> lo + n <= limit -> Forall (fun c => 2 <= c < limit) (seqZ lo n).
Proof. intros. apply Forall_forall. intros c Hc%elem_of_seqZ. lia. Qed.

(** The number of clusters [store_file] asks for: a 32-bit count. *)
Definition stored_clusters (size : Z) (data : list Z) : Z := wrap 32 (div_ceil (zlen data) size).

(** What [n] clusters of [size] bytes hold of a file: its bytes as far as the
    clusters go, then zeros. *)
Definition padded (size n : Z) (data : list Z) : list Z :=
  take (Z.to_nat (n * size)) data ++ blank (n * size - zlen data).

(** A stored file, as a chain of [cs] clusters of the builder. *)
Definition file_at (b : Builder) (cs : list Z) (data : list Z) : Prop :=
  links (entry_at b) cs /\ concat (stored b <$> cs) = padded (cluster_bytes b) (zlen cs) data.

(** The first [n] chunks do not look past their own bytes. *)
Lemma chunk_take size n k data :
  0 < size -> 0 <= k < n -> chunk size k (take (Z.to_nat (n * size)) data) = chunk size k data.
Proof.
  intros Hs Hk. rewrite !chunk_eq by lia.
  assert (take (Z.to_nat size) (drop (Z.to_nat (k * size)) (take (Z.to_nat (n * size)) data)) =
          take (Z.to_nat size) (drop (Z.to_nat (k * size)) data)) as ->; [|done].
  rewrite skipn_firstn_comm, firstn_firstn. f_equal. nia.
Qed.

Lemma concat_padded size n data : 0 < size -> 0 <= n ->
  concat ((fun k => chunk size k data) <$> seqZ 0 n) = padded size n data.
Proof.
  intros Hs Hn. set (d := take (Z.to_nat (n * size)) data).
  assert (Hd : zlen d = Z.min (n * size) (zlen data)) by (unfold d, zlen; rewrite length_take; nia).
  rewrite (list_fmap_ext _ (fun k => chunk size k d)).
  - rewrite <- (Z2Nat.id n) at 1 by done. rewrite concat_chunks by (rewrite ?Z2Nat.id; lia).
    rewrite Z2Nat.id, Z.mul_0_l by done. cbn [Z.to_nat drop]. unfold padded. fold d. f_equal.
    change (drop (Z.to_nat 0) d) with d. rewrite Hd. unfold blank. f_equal. nia.
  - intros i k Hk%list_elem_of_lookup_2. apply elem_of_seqZ in Hk. symmetry. apply chunk_take; lia.
Qed.

Lemma div_ceil_pos a b : 0 < a -> 0 < b -> 0 < div_ceil a b.
Proof. intros. pose proof (div_ceil_bounds a b ltac:(lia) ltac:(lia)). nia. Qed.

Lemma alloc_chain_spec b n : builder_wf b -> 0 <= n ->
  (alloc_chain b n = Some (b, None) /\ (n = 0 \/ free_clusters b < n)) \/
  (0 < n <= free_clusters b /\ exists b', alloc_chain b n = Some (b', Some (seqZ (next_free b) n)) /\
     builder_wf b' /\ b' = (b <| next_free := next_free b + n |>) <| fat := fat b' |> /\
     links (entry_at b') (seqZ (next_free b) n) /\
     (forall d, 2 <= d -> ~ next_free b <= d < next_free b + n -> entry_at b' d = entry_at b d)).
Proof.
  intros H Hn. unfold alloc_chain.
  destruct (Z.eqb_spec n 0); [left; split; [done|by left]|].
  destruct (Z.ltb_spec (free_clusters b) n); [left; split; [done|by right]|]. right. cbn [orb].
  destruct (alloc_all_spec (Z.to_nat n) b H ltac:(lia)) as [E Hw]. rewrite Z2Nat.id in E, Hw by lia.
  rewrite E. cbn [option_bind mbind]. pose proof (free_clusters_eq b H) as Hf.
  pose proof (wf_next b H) as Hnx. split; [lia|].
  destruct (link_chain_spec (seqZ (next_free b) n) _ Hw) as (b' & -> & Hw' & Eb' & Hl & Ho).
  - intros E'. apply (f_equal length) in E'. rewrite length_seqZ in E'. cbn in E'. lia.
  - apply NoDup_seqZ.
  - apply fresh_range; cbn; lia.
  - cbn [option_bind mbind]. exists b'. split_and!; try done. intros d Hd Hnot.
    rewrite Ho; [done|done|]. intros ?%elem_of_seqZ. lia.
Qed.

(** Storing into freshly linked clusters: what the invariant and the older
    clusters see of it. *)
Lemma stored_new b b' b'' n m s :
  builder_wf b -> 0 <= n <= free_clusters b -> builder_wf b' ->
  b' = (b <| next_free := next_free b + n |>) <| fat := fat b' |> ->
  (forall d, 2 <= d -> ~ next_free b <= d < next_free b + n -> d <> s -> entry_at b' d = entry_at b d) ->
  b'' = b' <| clusters := m |> ->
  (forall c buf, m !! c = Some buf -> 2 <= c < next_free b' /\ zlen buf = cluster_bytes b') ->
  (forall c, 2 <= c < next_free b -> c <> s -> m !! c = clusters b !! c) ->
  builder_wf b'' /\ extends s b b''.
Proof.
  intros H Hn Hw Eb Ho -> Hm Hold. split.
  - destruct Hw as [Hg Hc Ht He Hnx _]. by split.
  - assert (Hb : b_geo b' = b_geo b /\ cluster_bytes b' = cluster_bytes b /\
      next_free b' = next_free b + n) by (by rewrite Eb).
    destruct Hb as (Hg & Hs & Hx). split; cbn; [done|done|lia|].
    intros c Hc Hne. split.
    + change (entry_at b' c = entry_at b c). apply Ho; [lia|lia|done].
    + unfold stored; cbn. rewrite Hs, Hold by done. done.
Qed.

Lemma store_file_spec b data s : builder_wf b ->
  exists b' r, store_file b data = Some (b', r) /\ builder_wf b' /\ extends s b b' /\
  match r with
  | None => b' = b /\ data <> [] /\
      (free_clusters b < stored_clusters (cluster_bytes b) data \/
       stored_clusters (cluster_bytes b) data = 0)
  | Some h =>
      data = [] /\ h = 0 \/
      exists cs, head cs = Some h /\ Forall (fun c => next_free b <= c < next_free b') cs /\
        zlen cs = stored_clusters (cluster_bytes b) data /\ file_at b' cs data
  end.
Proof.
  intros H. pose proof (cluster_bytes_cases b H) as Hcb. unfold store_file.
  destruct data as [|x data']; [exists b, (Some 0); split_and!; auto using extends_refl|].
  set (data := x :: data'). assert (Hne : data <> []) by done.
  clearbody data. clear x data'. fold (stored_clusters (cluster_bytes b) data).
  set (n := stored_clusters (cluster_bytes b) data).
  assert (Hn : 0 <= n) by (apply Z.mod_pos_bound; lia).
  destruct (alloc_chain_spec b n H Hn) as [[E Hwhy]|(Hroom & b' & E & Hw & Eb & Hl & Ho)];
    rewrite E; cbn [option_bind mbind].
  { exists b, None. split_and!; auto using extends_refl. tauto. }
  set (chain := seqZ (next_free b) n) in *. pose proof (wf_next b H) as Hnx.
  pose proof (fill_spec (cluster_bytes b') chain data 0 (clusters b') (NoDup_seqZ _ _)) as [Hfo Hfi].
  assert (Hb : cluster_bytes b' = cluster_bytes b /\ next_free b' = next_free b + n /\
    clusters b' = clusters b) by (by rewrite Eb). destruct Hb as (Hs & Hx & Hc).
  eexists _, (head chain). split; [done|].
  assert (Hstored : forall k c, chain !! k = Some c ->
    fill (cluster_bytes b') 0 chain data (clusters b') !! c = Some (chunk (cluster_bytes b') (Z.of_nat k) data)).
  { intros k c Ek. by rewrite (Hfi k c Ek). }
  set (m := fill _ 0 chain data _) in *.
  assert (Hin : forall k c, chain !! k = Some c -> next_free b <= c < next_free b').
  { intros k c Ek%list_elem_of_lookup_2. apply elem_of_seqZ in Ek. lia. }
  assert (Hm : forall c buf, m !! c = Some buf -> 2 <= c < next_free b' /\ zlen buf = cluster_bytes b').
  { intros c buf Ec. destruct (decide (c ∈ chain)) as [Hc'|Hc'].
    - apply list_elem_of_lookup in Hc' as [k Ek]. rewrite (Hstored k c Ek) in Ec. injection Ec as <-.
      pose proof (Hin k c Ek). split; [lia|]. apply chunk_length; lia.
    - rewrite Hfo in Ec by done. by apply (wf_stored b' Hw). }
  destruct (stored_new b b' (b' <| clusters := m |>) n m s) as [Hwf Hext]; try done; [lia|by intros; apply Ho| |].
  { intros c Hlt Hcs. rewrite Hfo, Hc; [done|]. intros ?%elem_of_seqZ. lia. }
  split; [done|]. split; [done|].
  assert (Hlen : zlen chain = n) by (unfold zlen, chain; rewrite length_seqZ; lia).
  assert (Hh : exists h, head chain = Some h).
  { destruct chain as [|h ?]; [change (zlen (@nil Z)) with 0 in Hlen; lia|by exists h]. }
  destruct Hh as [h Hh]. rewrite Hh. right. exists chain. split_and!; [done| |done|].
  - apply Forall_lookup. intros k c Ek. exact (Hin k c Ek).
  - split; [exact Hl|].
    rewrite (fmap_positions _ (fun k => chunk (cluster_bytes b') k data) chain 0).
    + rewrite Hlen. apply (concat_padded (cluster_bytes b')); lia.
    + intros k c Ek. unfold stored; cbn [clusters update]. by rewrite (Hstored k c Ek).
Qed.

(** Extending a directory's chain stops only when the volume is full. *)
Lemma extend_chain_spec n : forall b chain, builder_wf b ->
  exists k, 0 <= k <= Z.of_nat n /\
    extend_chain n b chain = (b <| next_free := next_free b + k |>, chain ++ seqZ (next_free b) k) /\
    builder_wf (b <| next_free := next_free b + k |>) /\ k <= free_clusters b /\
    (k = Z.of_nat n \/ free_clusters b = k).
Proof.
  induction n as [|n IH]; intros b chain H; cbn [extend_chain].
  - exists 0. rewrite Z.add_0_r, app_nil_r. pose proof (free_clusters_eq b H). pose proof (wf_next b H).
    destruct b; split_and!; (done || lia || by left).
  - destruct (alloc_one_spec b H) as [[Hz ->]|(Hpos & b1 & -> & Hb1 & H1)].
    + exists 0. rewrite Z.add_0_r, app_nil_r. destruct b; split_and!; (done || lia || by right).
    + destruct (IH b1 (chain ++ [next_free b]) H1) as (k & Hk & -> & Hw & Hle & Hfull).
      rewrite (free_clusters_eq b1 H1) in *. rewrite (free_clusters_eq b H) in *.
      subst b1. cbn [next_free update b_geo] in *. exists (k + 1).
      replace (next_free b + 1 + k) with (next_free b + (k + 1)) in * by lia.
      split_and!; try done; try lia. f_equal. rewrite <- app_assoc. f_equal.
      rewrite (seqZ_cons (next_free b) (k + 1)) by lia. cbn [app]. do 2 f_equal; lia.
Qed.

Lemma put_dir_entries_full es : forall i flat, zlen flat < i * 32 + 32 -> put_dir_entries i es flat = flat.
Proof.
  induction es as [|e es IH]; intros i flat H; cbn [put_dir_entries]; [done|].
  unfold DIR_ENTRY_SIZE. rewrite (proj2 (Z.leb_gt _ _)) by lia. apply IH. lia.
Qed.

Lemma put_dir_entries_spec es : forall i pre post,
  Forall (fun e => length e = 32%nat) es -> 0 <= i -> zlen pre = i * 32 -> (32 | zlen post) ->
  put_dir_entries i es (pre ++ post) =
  pre ++ take (length post) (concat es) ++ drop (length (concat es)) post.
Proof.
  induction es as [|e es IH]; intros i pre post Hes Hi Hpre [q Hq]; cbn [put_dir_entries concat].
  { rewrite take_nil. done. }
  apply Forall_cons in Hes as [He Hes]. pose proof (zlen_nonneg post).
  rewrite zlen_app. unfold DIR_ENTRY_SIZE.
  destruct (Z.leb_spec (i * 32 + 32) (zlen pre + zlen post)) as [Hle|Hgt].
  - rewrite <- (take_drop 32 post) at 1. rewrite <- Hpre.
    rewrite splice_exact by (rewrite length_take, He; unfold zlen in *; lia).
    rewrite app_assoc, IH; [|done|lia| |].
    + rewrite <- !app_assoc. f_equal. rewrite drop_drop, length_drop, length_app, He.
      rewrite (take_app_ge e) by (rewrite He; unfold zlen in *; lia). rewrite He. by rewrite <- app_assoc.
    + rewrite zlen_app. unfold zlen in *. rewrite He. lia.
    + exists (q - 1). unfold zlen in *. rewrite length_drop. lia.
  - assert (post = []) as ->.
    { apply nil_length_inv. unfold zlen in *. lia. }
    rewrite put_dir_entries_full by (rewrite app_nil_r; lia). cbn [length take]. by rewrite drop_nil.
Qed.

Definition piece (size i : Z) (flat : list Z) : list Z :=
  take (Z.to_nat size) (drop (Z.to_nat (i * size)) flat).

Lemma fill_flat_spec size chain flat : forall i m, NoDup chain ->
  (forall c, c ∉ chain -> fill_flat size i chain flat m !! c = m !! c) /\
  (forall k c, chain !! k = Some c ->
     fill_flat size i chain flat m !! c = Some (piece size (i + Z.of_nat k) flat)).
Proof.
  induction chain as [|d chain IH]; intros i m Hnd; cbn [fill_flat]; [by split|].
  fold (piece size i flat).
  apply NoDup_cons in Hnd as [Hnin Hnd]. destruct (IH (i + 1) (<[d:=piece size i flat]> m) Hnd) as [Ho Hk].
  split.
  - intros c Hc. rewrite Ho by set_solver. apply lookup_insert_ne. set_solver.
  - intros [|k] c E.
    + injection E as ->. rewrite Ho by done. rewrite lookup_insert_eq. do 2 f_equal. lia.
    + rewrite (Hk k c E). do 2 f_equal. lia.
Qed.

Lemma concat_pieces size flat n : forall i, 0 < size -> 0 <= i ->
  zlen flat = (i + Z.of_nat n) * size ->
  concat ((fun k => piece size k flat) <$> seqZ i (Z.of_nat n)) = drop (Z.to_nat (i * size)) flat.
Proof.
  induction n as [|n IH]; intros i Hs Hi Hlen.
  - symmetry. apply drop_ge. unfold zlen in *. lia.
  - rewrite (seqZ_cons i) by lia. rewrite fmap_cons. cbn [concat].
    replace (Z.pred (Z.of_nat (S n))) with (Z.of_nat n) by lia.
    replace (Z.succ i) with (i + 1) by lia. rewrite IH by (lia || nia). unfold piece.
    assert (0 <= i * size) by nia.
    replace (Z.to_nat ((i + 1) * size)) with (Z.to_nat (i * size) + Z.to_nat size)%nat by lia.
    rewrite <- drop_drop. apply take_drop.
Qed.

Lemma piece_length size i flat n :
  0 < size -> 0 <= i < n -> zlen flat = n * size -> zlen (piece size i flat) = size.
Proof.
  intros Hs Hi Hlen. unfold piece, zlen in *. rewrite length_take, length_drop.
  assert (0 <= i * size) by nia. assert ((i + 1) * size <= n * size) by nia. lia.
Qed.

Lemma concat_entries_length (es : list (list Z)) : Forall (fun e => length e = 32%nat) es -> zlen (concat es) = 32 * zlen es.
Proof.
  induction 1 as [|e es He _ IH]; [done|]. cbn [concat]. rewrite zlen_app, zlen_cons, IH.
  unfold zlen at 1. rewrite He. lia.
Qed.

(** The bytes of a directory in a chain of capacity [cap]. *)
Definition dir_bytes (cap : Z) (es : list (list Z)) : list Z :=
  take (Z.to_nat cap) (concat es) ++ blank (cap - zlen (concat es)).

Lemma dir_flat cap es : Forall (fun e => length e = 32%nat) es -> 0 <= cap -> (32 | cap) ->
  put_dir_entries 0 es (blank cap) = dir_bytes cap es.
Proof.
  intros Hes Hc Hd. rewrite <- (app_nil_l (blank cap)) at 1.
  rewrite put_dir_entries_spec; [|done|lia|done|by rewrite blank_length].
  unfold dir_bytes, blank, zlen. rewrite length_replicate, drop_replicate. cbn [app]. do 2 f_equal. lia.
Qed.

Lemma dir_bytes_length cap es : 0 <= cap -> zlen (dir_bytes cap es) = cap.
Proof.
  intros. unfold dir_bytes, blank, zlen. rewrite length_app, length_take, length_replicate. lia.
Qed.

Definition directory_at (b : Builder) (cs : list Z) (es : list (list Z)) : Prop :=
  links (entry_at b) cs /\ concat (stored b <$> cs) = dir_bytes (zlen cs * cluster_bytes b) es /\
  (zlen (concat es) <= zlen cs * cluster_bytes b \/ free_clusters b = 0).

Lemma needed_capacity b (es : list (list Z)) : builder_wf b -> Forall (fun e => length e = 32%nat) es ->
  zlen (concat es) <= Z.max (div_ceil (zlen es) (cluster_bytes b / DIR_ENTRY_SIZE)) 1 * cluster_bytes b.
Proof.
  intros H Hes. rewrite concat_entries_length by done. unfold DIR_ENTRY_SIZE.
  pose proof (cluster_bytes_cases b H) as Hcb. pose proof (zlen_nonneg es).
  pose proof (div_ceil_bounds (zlen es) (cluster_bytes b / 32) ltac:(lia)
    ltac:(Z.div_mod_to_equations; lia)) as [Hb _].
  assert (E : cluster_bytes b = 32 * (cluster_bytes b / 32)) by (Z.div_mod_to_equations; lia).
  assert (0 < cluster_bytes b / 32) by (Z.div_mod_to_equations; lia). nia.
Qed.

Lemma store_dir_spec b first (es : list (list Z)) : builder_wf b -> 2 <= first < next_free b ->
  Forall (fun e => length e = 32%nat) es ->
  exists b' rest, store_dir b first es = Some b' /\ builder_wf b' /\ extends first b b' /\
    Forall (fun c => next_free b <= c < next_free b') rest /\ directory_at b' (first :: rest) es.
Proof.
  intros H Hfirst Hes. pose proof (cluster_bytes_cases b H) as Hcb.
  pose proof (needed_capacity b es H Hes) as Hneed. unfold store_dir.
  set (needed := Z.max _ 1) in *.
  destruct (extend_chain_spec (Z.to_nat (needed - 1)) b [first] H) as (k & Hk & -> & Hw1 & Hle & Hfull).
  cbn [app]. set (rest := seqZ (next_free b) k).
  pose proof (free_clusters_eq b H) as Hf. pose proof (wf_next b H) as Hnx.
  assert (Hr : forall c, c ∈ rest -> next_free b <= c < next_free b + k) by (by intros c ?%elem_of_seqZ; lia).
  assert (Hnd : NoDup (first :: rest)).
  { apply NoDup_cons. split; [intros ?%Hr; lia|apply NoDup_seqZ]. }
  destruct (link_chain_spec (first :: rest) _ Hw1 ltac:(done) Hnd) as (b2 & -> & Hw2 & Eb2 & Hl & Ho).
  { apply Forall_cons. split; [cbn; lia|]. apply fresh_range; cbn; lia. }
  cbn [option_bind mbind].
  assert (Hb2 : cluster_bytes b2 = cluster_bytes b /\ next_free b2 = next_free b + k /\
    clusters b2 = clusters b /\ b_geo b2 = b_geo b) by (by rewrite Eb2). destruct Hb2 as (Hs & Hx & Hc & Hg).
  assert (Hlen : zlen (first :: rest) = k + 1).
  { rewrite zlen_cons. unfold zlen, rest. rewrite length_seqZ. lia. }
  set (cap := zlen (first :: rest) * cluster_bytes b2).
  assert (Hcap : cap = (k + 1) * cluster_bytes b) by (unfold cap; by rewrite Hlen, Hs).
  rewrite dir_flat; [|done|nia|].
  2:{ rewrite Hcap. apply Z.divide_mul_r.
      destruct Hcb as [-> | [-> | [-> | [-> | ->]]]]; [by exists 16|by exists 128|by exists 256|by exists 512|by exists 1024]. }
  pose proof (fill_flat_spec (cluster_bytes b2) (first :: rest) (dir_bytes cap es) 0 (clusters b2) Hnd) as [Hfo Hfi].
  set (m := fill_flat _ 0 _ _ _) in *. eexists _, rest. split; [reflexivity|].
  assert (Hdl : zlen (dir_bytes cap es) = (k + 1) * cluster_bytes b2) by (rewrite dir_bytes_length by nia; lia).
  destruct (stored_new b b2 (b2 <| clusters := m |>) k m first) as [Hwf Hext]; try done; [lia| | | |].
  { intros d Hd Hnot Hne. rewrite Ho; [done|done|]. intros [->|?%Hr]%elem_of_cons; [done|lia]. }
  { intros c buf Ec. destruct (decide (c ∈ first :: rest)) as [Hin|Hnin].
    - pose proof Hin as Hin'. apply list_elem_of_lookup in Hin as [j Ej].
      rewrite (Hfi j c Ej) in Ec. injection Ec as <-. pose proof (lookup_lt_Some _ _ _ Ej) as Hj.
      split; [apply elem_of_cons in Hin' as [->|?%Hr]; lia|].
      apply (piece_length _ _ _ (k + 1)); [lia|unfold zlen in Hlen; lia|done].
    - rewrite Hfo in Ec by done. by apply (wf_stored b2 Hw2). }
  { intros c Hlt Hne. rewrite Hfo, Hc; [done|]. intros [->|?%Hr]%elem_of_cons; [done|lia]. }
  split; [done|]. split; [done|]. split; [apply Forall_forall; intros c ?%Hr; cbn; lia|].
  split; [exact Hl|]. split.
  - rewrite (fmap_positions _ (fun k => piece (cluster_bytes b2) k (dir_bytes cap es)) (first :: rest) 0).
    + transitivity (dir_bytes cap es); [|done].
      rewrite Hlen. rewrite <- (Z2Nat.id (k + 1)) by lia. rewrite concat_pieces by lia. done.
    + intros j c Ej. unfold stored; cbn [clusters update]. by rewrite (Hfi j c Ej).
  - change (cluster_bytes (b2 <| clusters := m |>)) with (cluster_bytes b2). fold cap. rewrite Hcap.
    destruct Hfull as [-> | Hz]; [left|right].
    + replace (Z.of_nat (Z.to_nat (needed - 1)) + 1) with needed by lia. exact Hneed.
    + rewrite free_clusters_eq by done. cbn. rewrite Hg, Hx. lia.
Qed.

(* ------------------------------------------------------------------ *)
(** ** A directory tree on a medium

    What a FAT driver sees of a volume: the table entry and the bytes of a
    cluster, the cluster size, the free clusters left and the first cluster
    number never handed out. *)

Record Medium := mkMedium {
  m_entry : Z -> option Z;
  m_data : Z -> list Z;
  m_size : Z;
  m_room : Z;
  m_limit : Z
}.

Definition medium (b : Builder) : Medium :=
  mkMedium (entry_at b) (stored b) (cluster_bytes b) (free_clusters b) (next_free b).

(** A file whose directory entry names cluster [h]: its chain of
    [stored_clusters] clusters, all above [lo], holds its bytes, zero-padded.
    [file_on_exact] below says when these are all of its bytes. *)
Definition file_on (m : Medium) (lo : Z) (data : list Z) (h : Z) : Prop :=
  data = [] /\ h = 0 \/
  exists cs, head cs = Some h /\ Forall (fun c => lo < c < m_limit m) cs /\
    zlen cs = stored_clusters (m_size m) data /\ links (m_entry m) cs /\
    concat (m_data m <$> cs) = padded (m_size m) (zlen cs) data.

(** A file whose cluster count fits in 32 bits, at the smallest cluster size a
    file below 2 TiB, is stored whole, in exactly the clusters it needs; below
    4 GiB its directory entry also records its length. *)
Lemma file_on_exact m lo data h :
  0 < m_size m -> data <> [] -> div_ceil (zlen data) (m_size m) < 2 ^ 32 -> file_on m lo data h ->
  exists cs, head cs = Some h /\ zlen cs = div_ceil (zlen data) (m_size m) /\
    links (m_entry m) cs /\
    concat (m_data m <$> cs) = data ++ blank (zlen cs * m_size m - zlen data) /\
    (u32 (zlen data) -> wrap 32 (zlen data) = zlen data).
Proof.
  intros Hs Hne Hfit [[-> _]|(cs & Hh & _ & Hn & Hl & Hc)]; [done|].
  assert (Hp : 0 < zlen data).
  { destruct data as [|x d]; [done|]. rewrite zlen_cons. pose proof (zlen_nonneg d). lia. }
  pose proof (div_ceil_pos _ _ Hp Hs). pose proof (div_ceil_bounds (zlen data) (m_size m)).
  assert (En : stored_clusters (m_size m) data = div_ceil (zlen data) (m_size m))
    by (apply wrap_id; widths; lia).
  rewrite En in Hn. exists cs. split_and!; [done|done|done| |apply wrap_id].
  rewrite Hc. unfold padded. rewrite take_ge; [done|]. rewrite Hn. unfold zlen in *. lia.
Qed.

(** Children that never get an entry: nameless paths and what cannot be read. *)
Definition hidden (raw : list Z) (child : Host) : Prop :=
  raw = [] \/ child = NoMetadata \/ child = Special \/ child = File None.

(** Children left out because the volume has no room for them; a file of [2^32]
    clusters, more than any volume has, asks for none and is left out too. *)
Definition no_room (m : Medium) (child : Host) : Prop :=
  match child with
  | Directory _ => m_room m = 0
  | File (Some data) => data <> [] /\
      (m_room m < stored_clusters (m_size m) data \/ stored_clusters (m_size m) data = 0)
  | _ => False
  end.

Definition dot_records (self parent : Z) (is_root : bool) : list (list Z) :=
  if is_root then [] else
    [fat32_dir_entry DOT_NAME FAT_ATTR_DIRECTORY self 0 0 0;
     fat32_dir_entry DOTDOT_NAME FAT_ATTR_DIRECTORY parent 0 0 0].

(** The host directory [children] laid out at cluster [c]: its chain holds its dot
    entries and then one entry per child, in order, named by [unique_name]
    and leading to the child's own contents. *)
Inductive dir_on (m : Medium) : Z -> Z -> bool -> list (list Z * Host) -> Prop :=
| dir_on_chain c parent is_root children rest recs :
    2 <= c < m_limit m -> Forall (fun d => c < d < m_limit m) rest ->
    links (m_entry m) (c :: rest) ->
    concat (m_data m <$> c :: rest) =
      dir_bytes (zlen (c :: rest) * m_size m) (dot_records c parent is_root ++ recs) ->
    zlen (concat (dot_records c parent is_root ++ recs)) <= zlen (c :: rest) * m_size m \/ m_room m = 0 ->
    listing_on m c is_root children [] recs ->
    dir_on m c parent is_root children
with listing_on (m : Medium) : Z -> bool -> list (list Z * Host) -> list (list Z) -> list (list Z) -> Prop :=
| on_nil c is_root used : listing_on m c is_root [] used []
| on_hidden c is_root raw child children used recs :
    hidden raw child -> listing_on m c is_root children used recs ->
    listing_on m c is_root ((raw, child) :: children) used recs
| on_dropped c is_root raw child children used recs :
    no_room m child -> listing_on m c is_root children used recs ->
    listing_on m c is_root ((raw, child) :: children) used recs
| on_file c is_root raw data children used recs name used' h :
    raw <> [] -> Name.unique_name raw false used = (name, used') ->
    file_on m c data h ->
    listing_on m c is_root children used' recs ->
    listing_on m c is_root ((raw, File (Some data)) :: children) used
      (fat32_dir_entry name ATTR_ARCHIVE h 0 0 (wrap 32 (zlen data)) :: recs)
| on_dir c (is_root : bool) raw kids children used recs name used' d :
    raw <> [] -> Name.unique_name raw true used = (name, used') ->
    c < d -> dir_on m d (if is_root then 0 else c) false kids ->
    listing_on m c is_root children used' recs ->
    listing_on m c is_root ((raw, Directory (Some kids)) :: children) used
      (fat32_dir_entry name FAT_ATTR_DIRECTORY d 0 0 0 :: recs).

Scheme dir_on_mut := Induction for dir_on Sort Prop
with listing_on_mut := Induction for listing_on Sort Prop.
Combined Scheme tree_on_ind from dir_on_mut, listing_on_mut.

(** [m'] is a later state of [m] in which only new clusters and [s] changed. *)
Record agrees (s : Z) (m m' : Medium) : Prop := {
  ag_size : m_size m' = m_size m;
  ag_room : m_room m' <= m_room m;
  ag_room_nonneg : 0 <= m_room m';
  ag_limit : m_limit m <= m_limit m';
  ag_same : forall c, 2 <= c < m_limit m -> c <> s ->
    m_entry m' c = m_entry m c /\ m_data m' c = m_data m c
}.

Lemma agrees_chain s m m' lo cs :
  agrees s m m' -> s <= lo -> 1 <= lo -> Forall (fun c => lo < c < m_limit m) cs ->
  Forall (fun c => lo < c < m_limit m') cs /\ m_data m' <$> cs = m_data m <$> cs /\
  (links (m_entry m) cs -> links (m_entry m') cs).
Proof.
  intros [_ _ _ Hl Hsame] Hs Hlo Hcs. rewrite Forall_forall in Hcs.
  assert (Heq : forall c, c ∈ cs -> m_entry m' c = m_entry m c /\ m_data m' c = m_data m c).
  { intros c Hc%Hcs. apply Hsame; lia. }
  split_and!.
  - apply Forall_forall. intros c Hc%Hcs. lia.
  - apply list_fmap_ext. intros i c Hc%list_elem_of_lookup_2. by apply Heq.
  - apply links_ext. intros c Hc. by apply Heq.
Qed.

Lemma file_on_agrees s m m' lo data h :
  agrees s m m' -> s <= lo -> 1 <= lo -> file_on m lo data h -> file_on m' lo data h.
Proof.
  intros Ha Hs Hlo [He|(cs & Hh & Hcs & Hlen & Hl & Hc)]; [by left|right].
  destruct (agrees_chain s m m' lo cs Ha Hs Hlo Hcs) as (Hcs' & Hd & Hl').
  exists cs. rewrite Hd, (ag_size _ _ _ Ha). split_and!; auto.
Qed.

Lemma no_room_agrees s m m' child : agrees s m m' -> no_room m child -> no_room m' child.
Proof.
  intros [Hs Hr Hn _ _]. unfold no_room. rewrite Hs. destruct child as [| |[]|]; try done; [lia|].
  intros [H1 H2]. split; [done|]. lia.
Qed.

(** A tree survives everything that happens after it was laid out. *)
Lemma tree_agrees m m' s : agrees s m m' ->
  (forall c parent is_root children, dir_on m c parent is_root children ->
     s < c -> dir_on m' c parent is_root children) /\
  (forall c is_root children used recs, listing_on m c is_root children used recs ->
     s <= c -> 2 <= c -> listing_on m' c is_root children used recs).
Proof.
  intros Ha. apply tree_on_ind.
  - intros c parent is_root children rest recs Hc Hrest Hl Hd Hcap _ IH Hs.
    assert (Hall : Forall (fun d => c - 1 < d < m_limit m) (c :: rest)).
    { apply Forall_cons. split; [lia|]. eapply Forall_impl; [exact Hrest|]. cbn. lia. }
    destruct (agrees_chain s m m' (c - 1) (c :: rest) Ha ltac:(lia) ltac:(lia) Hall) as (Hall' & Hd' & Hl').
    destruct Ha as [Hsz Hr Hn Hlim _].
    econstructor; [lia| |by apply Hl'|by rewrite Hd', Hsz, Hd|rewrite Hsz; lia|apply IH; lia].
    eapply Forall_impl; [exact Hrest|]. cbn. lia.
  - intros. constructor.
  - intros. apply on_hidden; auto.
  - intros. apply on_dropped; auto. by eapply no_room_agrees.
  - intros. eapply on_file; eauto. eapply file_on_agrees; eauto; lia.
  - intros. eapply on_dir; eauto. match goal with H : s < d -> _ |- _ => apply H end. lia.
Qed.

Lemma extends_agrees s b b' : builder_wf b -> builder_wf b' -> extends s b b' ->
  agrees s (medium b) (medium b').
Proof.
  intros H H' [Hg Hs Hn Hsame]. pose proof (wf_next b' H').
  split; cbn; try done; rewrite ?free_clusters_eq by done; rewrite ?Hg; try lia.
  rewrite Hg in *. lia.
Qed.

(* ------------------------------------------------------------------ *)
(** ** The directory walk *)

Lemma Host_nested_ind (P : Host -> Prop) :
  P NoMetadata -> P Special -> (forall o, P (File o)) -> P (Directory None) ->
  (forall children, Forall (fun p => P p.2) children -> P (Directory (Some children))) ->
  forall h, P h.
Proof.
  intros Hn Hs Hf Hd Hl. fix IH 1. intros [| [children|] |o|]; [exact Hn| |exact Hd|exact (Hf o)|exact Hs].
  apply Hl. revert children. fix IHl 1. intros [|[raw child] children]; constructor.
  - exact (IH child).
  - exact (IHl children).
Qed.

(** Every directory of the tree could be listed. *)
Fixpoint readable (h : Host) : bool :=
  match h with
  | Directory None => false
  | Directory (Some children) => forallb (fun p => readable p.2) children
  | _ => true
  end.

Lemma dir_entry_length name attr c size :
  length name = 11%nat -> length (fat32_dir_entry name attr c 0 0 size) = 32%nat.
Proof.
  intros Hn. do 11 (destruct name as [|? name]; [done|]). by destruct name.
Qed.

Lemma valid_83_length name : Name.valid_83 name -> length name = 11%nat.
Proof.
  intros (stem & ext & Hs & He & _ & _ & ->).
  rewrite length_app, !Name.length_pad by lia. done.
Qed.

Lemma unique_name_length raw is_dir used name used' :
  Name.unique_name raw is_dir used = (name, used') -> length name = 11%nat.
Proof.
  unfold Name.unique_name. intros E. apply valid_83_length.
  destruct (negb _); [injection E as <- _; apply Name.make_83_valid|].
  destruct (List.find _ _) as [n|] eqn:Hf; injection E as <- _; [|apply Name.make_83_valid].
  apply find_some in Hf as [Hin _]. apply list_elem_of_In, elem_of_seqZ in Hin.
  apply Name.tilde_valid. lia.
Qed.

Lemma dot_entries_records self parent (is_root : bool) :
  (if is_root then [] else [take 32 (fat32_dot_entries self parent); drop 32 (fat32_dot_entries self parent)]) =
  dot_records self parent is_root.
Proof. by destruct is_root. Qed.

Lemma dot_records_length self parent is_root :
  Forall (fun e => length e = 32%nat) (dot_records self parent is_root).
Proof. destruct is_root; [constructor|]. by repeat constructor. Qed.

(** What the recursive call promises for one directory. *)
Definition builds (dir : Host) : Prop :=
  forall b self parent is_root, builder_wf b -> 2 <= self < next_free b ->
  match build_dir dir b self parent is_root with
  | Ok b' => builder_wf b' /\ extends self b b' /\
      exists children, dir = Directory (Some children) /\ dir_on (medium b') self parent is_root children
  | Err e => e = ReadDir /\ (readable dir = true -> forall children, dir <> Directory (Some children))
  end.

Lemma listing_later b b' self is_root children used recs :
  builder_wf b -> builder_wf b' -> extends self b b' -> 2 <= self ->
  listing_on (medium b) self is_root children used recs ->
  listing_on (medium b') self is_root children used recs.
Proof.
  intros H H' He Hs Hl. eapply (tree_agrees (medium b) (medium b') self); [by apply extends_agrees|exact Hl|lia|done].
Qed.

Lemma walk_spec self is_root children : Forall (fun p => builds p.2) children ->
  forall b entries used, builder_wf b -> 2 <= self < next_free b ->
  match walk build_dir self is_root children b entries used with
  | Ok (b', entries') => builder_wf b' /\ extends self b b' /\
      exists recs, entries' = entries ++ recs /\ Forall (fun e => length e = 32%nat) recs /\
        listing_on (medium b') self is_root children used recs
  | Err e => e = ReadDir /\ forallb (fun p => readable p.2) children = false
  end.
Proof.
  induction 1 as [|[raw child] children Hchild _ IH]; intros b entries used H Hself; cbn [walk].
  { split; [done|]. split; [apply extends_refl|]. exists []. rewrite app_nil_r. repeat constructor. }
  cbn [snd] in Hchild.
  (* the child leaves no entry *)
  assert (Hskip : hidden raw child \/ no_room (medium b) child ->
    match walk build_dir self is_root children b entries used with
    | Ok (b', entries') => builder_wf b' /\ extends self b b' /\
        exists recs, entries' = entries ++ recs /\ Forall (fun e => length e = 32%nat) recs /\
          listing_on (medium b') self is_root ((raw, child) :: children) used recs
    | Err e => e = ReadDir /\ forallb (fun p => readable p.2) ((raw, child) :: children) = false
    end).
  { intros Hwhy. specialize (IH b entries used H Hself).
    destruct (walk _ _ _ _ _ _ _) as [[b' entries']|e].
    - destruct IH as (Hw & He & recs & -> & Hr & Hl). split; [done|]. split; [done|].
      exists recs. split_and!; try done. destruct Hwhy as [Hh|Hn]; [by apply on_hidden|].
      apply on_dropped; [|done]. eapply no_room_agrees; [|exact Hn]. by apply (extends_agrees self).
    - destruct IH as [-> Hf]. cbn [forallb]. by rewrite Hf, andb_false_r. }
  (* the child was stored under [name] *)
  assert (Hstore : forall b1 name used' e, builder_wf b1 -> extends self b b1 -> length e = 32%nat ->
    (forall b2 recs, builder_wf b2 -> extends self b1 b2 ->
       listing_on (medium b2) self is_root children used' recs ->
       listing_on (medium b2) self is_root ((raw, child) :: children) used (e :: recs)) ->
    Name.unique_name raw false used = (name, used') \/ Name.unique_name raw true used = (name, used') ->
    match walk build_dir self is_root children b1 (entries ++ [e]) used' with
    | Ok (b', entries') => builder_wf b' /\ extends self b b' /\
        exists recs, entries' = entries ++ recs /\ Forall (fun e => length e = 32%nat) recs /\
          listing_on (medium b') self is_root ((raw, child) :: children) used recs
    | Err e => e = ReadDir /\ forallb (fun p => readable p.2) ((raw, child) :: children) = false
    end).
  { intros b1 name used' e H1 He1 Hlen Hcons _.
    specialize (IH b1 (entries ++ [e]) used' H1 ltac:(pose proof (ext_next _ _ _ He1); lia)).
    destruct (walk _ _ _ _ _ _ _) as [[b' entries']|err].
    - destruct IH as (Hw & He & recs & -> & Hr & Hl). split; [done|].
      split; [by eapply extends_trans|]. exists (e :: recs). rewrite <- app_assoc.
      split_and!; [done|by constructor|by apply (Hcons b')].
    - destruct IH as [-> Hf]. cbn [forallb]. by rewrite Hf, andb_false_r. }
  destruct raw as [|x raw']; [apply Hskip; left; by left|].
  set (raw := x :: raw') in *. assert (Hraw : raw <> []) by done. clearbody raw. clear x raw'.
  destruct child as [|listing|[data|]|]; try (apply Hskip; left; unfold hidden; tauto).
  - (* a directory *)
    destruct (alloc_one_spec b H) as [[Hz ->]|(Hpos & b1 & -> & Eb1 & H1)]; [apply Hskip; by right|].
    assert (Hn1 : next_free b1 = next_free b + 1) by (by rewrite Eb1).
    specialize (Hchild b1 (next_free b) (if is_root then 0 else self) false H1
      ltac:(pose proof (wf_next b H); lia)).
    destruct (build_dir _ b1 _ _ _) as [b2|e].
    + destruct Hchild as (H2 & He2 & kids & [= ->] & Hdir).
      destruct (Name.unique_name raw true used) as [name used'] eqn:Hname.
      assert (He : extends self b b2).
      { apply (extends_fresh _ (next_free b)); [lia|]. eapply extends_trans; [|exact He2].
        rewrite Eb1. apply alloc_extends. }
      apply (Hstore b2 name used'); [done|done|by eapply dir_entry_length, unique_name_length| |by right].
      intros b3 recs H3 He3 Hl. eapply on_dir; try done; [lia|].
      eapply (tree_agrees (medium b2) (medium b3) self); [by apply extends_agrees|exact Hdir|lia].
    + destruct Hchild as [-> Hr]. split; [done|]. cbn [forallb snd].
      destruct (readable (Directory listing)) eqn:E; [|done]. exfalso.
      destruct listing as [kids|]; [by apply (Hr eq_refl kids)|done].
  - (* a file *)
    destruct (store_file_spec b data self H) as (b1 & r & -> & H1 & He1 & Hr). cbn [or_panic].
    destruct r as [h|]; [|destruct Hr as [-> Hr]; apply Hskip; right; exact Hr].
    destruct (Name.unique_name raw false used) as [name used'] eqn:Hname.
    apply (Hstore b1 name used'); [done|done|by eapply dir_entry_length, unique_name_length| |by left].
    intros b2 recs H2 He2 Hl. eapply on_file; try done.
    eapply (file_on_agrees self (medium b1) (medium b2)); [by apply extends_agrees|lia|lia|].
    destruct Hr as [[-> ->]|(cs & Hh & Hcs & Hlen & Hl' & Hc)]; [by left|right].
    exists cs. rewrite <- (ext_size _ _ _ He1) in Hlen. split_and!; try done.
    eapply Forall_impl; [exact Hcs|]. cbn. lia.
Qed.

Lemma build_dir_spec dir : builds dir.
Proof.
  induction dir as [| |o| |children Hc] using Host_nested_ind;
    intros b self parent is_root H Hself; cbn [build_dir]; try (split; [done|by intros]).
  rewrite dot_entries_records.
  pose proof (walk_spec self is_root children Hc b (dot_records self parent is_root) [] H Hself) as Hw.
  destruct (walk _ _ _ _ _ _ _) as [[b1 es]|e].
  - destruct Hw as (H1 & He1 & recs & -> & Hr & Hl). pose proof (ext_next _ _ _ He1).
    destruct (store_dir_spec b1 self (dot_records self parent is_root ++ recs) H1 ltac:(lia))
      as (b2 & rest & -> & H2 & He2 & Hrest & Hlinks & Hdata & Hcap).
    { apply Forall_app. split; [apply dot_records_length|done]. }
    cbn [or_panic]. pose proof (ext_next _ _ _ He2).
    split; [done|]. split; [by eapply extends_trans|]. exists children. split; [done|].
    econstructor; cbn; [lia| |exact Hlinks|exact Hdata|exact Hcap|].
    2: by apply (listing_later b1 b2); try lia.
    eapply Forall_impl; [exact Hrest|]. cbn. lia.
  - destruct Hw as [-> Hf]. split; [done|]. cbn [readable]. by rewrite Hf.
Qed.

Lemma new_builder_wf g : geometry_ok g -> builder_wf (new_builder g).
Proof.
  intros H. pose proof (ok_clusters g H). split; cbn; try done; [apply table_new_wf|apply new_length; lia|lia].
Qed.

(** The builder at the end of [build_fat32]. *)
Lemma build_fat32_spec root bytes id g : fat32_geometry bytes = Some g -> geometry_ok g ->
  match build_fat32 root bytes id with
  | Ok v => exists b, builder_wf b /\ b_geo b = g /\
      v = mkVolume g id (to_bytes (fat b) g) (clusters b) (free_clusters b) (next_free b) /\
      exists children, root = Directory (Some children) /\ dir_on (medium b) 2 0 true children
  | Err e => e = ReadDir /\ (readable root = true -> forall children, root <> Directory (Some children))
  end.
Proof.
  intros Hg Hok. unfold build_fat32. rewrite Hg. pose proof (new_builder_wf g Hok) as H0.
  pose proof (free_clusters_eq _ H0) as Hf. cbn in Hf. pose proof (ok_clusters g Hok).
  destruct (alloc_one_spec _ H0) as [[Hz _]|(_ & b1 & -> & Eb1 & H1)]; [lia|].
  change (next_free (new_builder g)) with 2 in *.
  assert (Hn1 : next_free b1 = 3) by (by rewrite Eb1).
  pose proof (build_dir_spec root b1 2 0 true H1 ltac:(lia)) as Hb.
  destruct (build_dir root b1 2 0 true) as [b2|e]; [|exact Hb].
  destruct Hb as (H2 & He2 & children & -> & Hd). exists b2. split_and!; try done; [|by exists children].
  rewrite (ext_geo _ _ _ He2), Eb1. done.
Qed.

(** C40.  Building a volume never panics and fails only for the documented
    reasons: a size that is not a FAT32 size, or a host directory that could not be
    listed. A readable tree is always built, however large: what does not fit
    is left out. *)
Theorem build_total root bytes id :
  match build_fat32 root bytes id with
  | Ok _ => is_Some (fat32_geometry bytes) /\ exists children, root = Directory (Some children)
  | Err InvalidSize => fat32_geometry bytes = None
  | Err ReadDir => is_Some (fat32_geometry bytes) /\
      (readable root = true -> forall children, root <> Directory (Some children))
  | Err _ => False
  end.
Proof.
  destruct (fat32_geometry bytes) as [g|] eqn:Hg; [|unfold build_fat32; by rewrite Hg].
  assert (Hok : geometry_ok g) by exact (accepted_ok _ _ Hg).
  pose proof (build_fat32_spec root bytes id g Hg Hok) as H.
  destruct (build_fat32 root bytes id) as [v|e].
  - destruct H as (b & _ & _ & _ & children & -> & _). split; [by eexists|by exists children].
  - destruct H as [-> H]. split; [by eexists|done].
Qed.

(* ------------------------------------------------------------------ *)
(** ** Mounting the volume *)

(** A FAT driver over a sector-read function and the geometry it decoded: FAT
    entry [c] in a copy of the table, a cluster's bytes, and the free-space
    hints of the FSInfo sector. *)
Section Driver.
Variable read : Z -> option (list Z).
Variable g : Fat32Geometry.

Definition fat_entry (copy c : Z) : option Z :=
  sector ← read (reserved_sectors g + copy * fat_size_sectors g + c * 4 / bytes_per_sector g);
  Some (Z.land (field sector (Z.to_nat (c * 4 mod bytes_per_sector g)) 4) FAT32_ENTRY_MASK).

Definition read_cluster (c : Z) : list Z :=
  concat ((fun i => default [] (read (first_data_sector g + (c - 2) * geo_sectors_per_cluster g + i)))
    <$> seqZ 0 (geo_sectors_per_cluster g)).

Definition fsinfo_field (off : nat) : Z := field (default [] (read (fsinfo_sector g))) off 4.

Definition mounted (copy : Z) : Medium :=
  mkMedium (fat_entry copy) read_cluster (geo_sectors_per_cluster g * bytes_per_sector g)
    (fsinfo_field 488) (fsinfo_field 492).
End Driver.

Section Mount.
Context (b : Builder) (id : Z) (H : builder_wf b).
Let g := b_geo b.
Let v := mkVolume g id (to_bytes (fat b) g) (clusters b) (free_clusters b) (next_free b).

Lemma sector_zero : read_sector v 0 = Some (fat32_boot_sector g id).
Proof. done. Qed.

Lemma geo_consts : bytes_per_sector g = 512 /\ reserved_sectors g = 32 /\ num_fats g = 2 /\
  root_cluster g = 2 /\ fsinfo_sector g = 1 /\ backup_boot_sector g = 6.
Proof. exact (ok_fixed g (wf_geo b H)). Qed.

Lemma geo_sizes : 0 < fat_size_sectors g /\ first_data_sector g = 32 + 2 * fat_size_sectors g /\
  first_data_sector g + count_of_clusters g * geo_sectors_per_cluster g < 2 ^ 32 /\
  (count_of_clusters g + 2) * 4 <= fat_size_sectors g * 512 /\ 1 <= geo_sectors_per_cluster g /\
  0 < count_of_clusters g.
Proof.
  pose proof (wf_geo b H) as Hg. fold g in Hg. pose proof (geometry_fields g Hg).
  pose proof (ok_fat g Hg). pose proof (ok_data g Hg) as Hd. pose proof (ok_fits g Hg).
  pose proof (ok_capacity g Hg). pose proof (ok_total g Hg). pose proof (ok_clusters g Hg).
  destruct geo_consts as (_ & Hr & Hn & _). rewrite Hr, Hn in Hd. widths. lia.
Qed.

Lemma mounted_fsinfo : read_sector v 1 = Some (fat32_fsinfo_sector (free_clusters b) (next_free b)).
Proof.
  destruct geo_consts as (_ & _ & _ & _ & Hf & Hb).
  unfold read_sector; cbn [geo v]. rewrite Hf, Hb. done.
Qed.

Lemma read_fat_region lba : 32 <= lba < first_data_sector g ->
  read_sector v lba = Some (fat_slice v ((lba - 32) mod fat_size_sectors g)).
Proof.
  intros Hl. destruct geo_consts as (_ & Hr & Hn & _ & Hf & Hb).
  destruct geo_sizes as (Hfat & Hd & Hfit & _ & Hs & Hc). assert (0 <= count_of_clusters g * geo_sectors_per_cluster g) by nia.
  unfold read_sector; cbn [geo v]. rewrite Hf, Hb, Hr, Hn.
  rewrite (wrap_32 (6 + 1)), (wrap_32 (2 * _)), (wrap_32 (32 + _)) by (widths; lia).
  rewrite !(proj2 (Z.eqb_neq lba _)) by lia. cbn [orb].
  rewrite (proj2 (Z.leb_le 32 lba)) by lia. by rewrite (proj2 (Z.ltb_lt lba _)) by lia.
Qed.

Lemma read_data_region c i : 2 <= c < count_of_clusters g + 2 -> 0 <= i < geo_sectors_per_cluster g ->
  read_sector v (first_data_sector g + (c - 2) * geo_sectors_per_cluster g + i) =
  match clusters b !! c with
  | Some buf => slice buf (i * 512) (i * 512 + 512)
  | None => Some (blank 512)
  end.
Proof.
  intros Hc Hi. destruct geo_consts as (_ & Hr & Hn & _ & Hf & Hb).
  destruct geo_sizes as (Hfat & Hd & Hfit & _ & Hs & Hcc).
  assert (Hp : 0 <= (c - 2) * geo_sectors_per_cluster g) by nia.
  assert (0 <= count_of_clusters g * geo_sectors_per_cluster g) by nia.
  unfold read_sector; cbn [geo v]. rewrite Hf, Hb, Hr, Hn.
  rewrite (wrap_32 (6 + 1)), (wrap_32 (2 * _)), (wrap_32 (32 + _)) by (widths; lia).
  set (lba := first_data_sector g + _ + i). assert (first_data_sector g <= lba) by (unfold lba; lia).
  rewrite !(proj2 (Z.eqb_neq lba _)) by lia. cbn [orb].
  rewrite (proj2 (Z.ltb_ge lba _)) by lia. rewrite andb_false_r.
  rewrite (proj2 (Z.leb_le _ lba)) by lia.
  replace (lba - first_data_sector g) with (i + (c - 2) * geo_sectors_per_cluster g) by (unfold lba; lia).
  rewrite Z.div_add, Z.mod_add, Z.div_small, Z.mod_small by lia.
  rewrite wrap_32 by (pose proof (clusters_bound b H) as Hcb; fold g in Hcb; widths; lia).
  replace (2 + (0 + (c - 2))) with c by lia. done.
Qed.

Lemma slice_in_range (l : list Z) a c : 0 <= a -> a <= c <= zlen l ->
  slice l a c = Some (take (Z.to_nat (c - a)) (drop (Z.to_nat a) l)).
Proof.
  intros Ha Hc. unfold slice. rewrite !(proj2 (Z.leb_le _ _)) by lia. done.
Qed.

Lemma mounted_entry copy c : 0 <= copy < 2 -> 2 <= c < count_of_clusters g + 2 ->
  fat_entry (read_sector v) g copy c = entry_at b c.
Proof.
  intros Hcopy Hc. destruct geo_consts as (Hbs & Hr & _). destruct geo_sizes as (Hfat & Hd & Hfit & Hcap & _).
  unfold fat_entry. rewrite Hbs, Hr.
  assert (Hk : 0 <= c * 4 / 512 < fat_size_sectors g) by (Z.div_mod_to_equations; lia).
  rewrite read_fat_region by nia. cbn [option_bind mbind].
  replace (32 + copy * fat_size_sectors g + c * 4 / 512 - 32) with (c * 4 / 512 + copy * fat_size_sectors g) by lia.
  rewrite Z.mod_add, Z.mod_small by lia.
  set (k := c * 4 / 512) in *. set (o := c * 4 mod 512).
  assert (Ho : 0 <= o <= 508 /\ 4 * c = k * 512 + o) by (unfold o, k; Z.div_mod_to_equations; lia).
  pose proof (wf_entries b H) as He. fold g in He.
  assert (Hlen : zlen (entries (fat b)) * 4 <= fat_size_sectors g * 512) by lia.
  pose proof (to_bytes_length (fat b) g Hlen) as Hbl.
  assert (Hlt : (Z.to_nat c < length (entries (fat b)))%nat) by (unfold zlen in *; lia).
  destruct (lookup_lt_is_Some_2 _ _ Hlt) as [e Ee].
  unfold fat_slice, SECTOR; cbn [fat_bytes v]. rewrite slice_in_range by lia. unfold field.
  replace (Z.to_nat (k * 512 + 512 - k * 512)) with 512%nat by lia.
  rewrite skipn_firstn_comm, firstn_firstn, drop_drop. 
  replace (4 `min` (512 - Z.to_nat o))%nat with 4%nat by lia.
  replace (Z.to_nat (k * 512) + Z.to_nat o)%nat with (4 * Z.to_nat c)%nat by lia.
  rewrite to_bytes_spec by done. rewrite (entry_bytes_lookup _ _ _ _ Ee).
  assert (He28 : in_width 28 e) by (eapply (Forall_lookup_1 _ _ _ _ (wf_table b H) Ee)).
  rewrite le_value_bytes by (change (256 ^ Z.of_nat 4) with 4294967296; zlia).
  unfold entry_at. rewrite Ee. rewrite mask_28 by zlia. by rewrite Z.mod_small.
Qed.

Lemma mounted_cluster c : 2 <= c < count_of_clusters g + 2 ->
  read_cluster (read_sector v) g c = stored b c.
Proof.
  intros Hc. destruct geo_sizes as (_ & _ & _ & _ & Hs & _). unfold read_cluster, stored.
  pose proof (wf_cluster b H) as Hcb. fold g in Hcb.
  rewrite (list_fmap_ext _ (fun i => match clusters b !! c with
    | Some buf => piece 512 i buf | None => piece 512 i (blank (cluster_bytes b)) end)).
  - destruct (clusters b !! c) as [buf|] eqn:E; cbn [default];
      rewrite <- (Z2Nat.id (geo_sectors_per_cluster g)) by lia.
    + apply (wf_stored b H) in E as [_ E]. rewrite concat_pieces by lia. done.
    + rewrite concat_pieces by (rewrite ?blank_length; lia). done.
  - intros k i Ei%list_elem_of_lookup_2. apply elem_of_seqZ in Ei.
    rewrite read_data_region by lia. destruct (clusters b !! c) as [buf|] eqn:E.
    + apply (wf_stored b H) in E as [_ E]. rewrite slice_in_range by nia. cbn [default]. unfold piece, Datatypes.id.
      f_equal. lia.
    + cbn [default]. unfold piece, blank, Datatypes.id. rewrite drop_replicate, take_replicate. f_equal. nia.
Qed.

Lemma mounted_hints :
  fsinfo_field (read_sector v) g 488 = free_clusters b /\
  fsinfo_field (read_sector v) g 492 = next_free b.
Proof.
  destruct geo_consts as (_ & _ & _ & _ & Hf & _). unfold fsinfo_field. rewrite Hf, mounted_fsinfo.
  cbn [default]. pose proof (free_clusters_eq b H) as Hfc. pose proof (wf_next b H).
  pose proof (clusters_bound b H).
  assert (E : take 4 (drop 488 (fat32_fsinfo_sector (free_clusters b) (next_free b))) = le_bytes 4 (free_clusters b) /\
    take 4 (drop 492 (fat32_fsinfo_sector (free_clusters b) (next_free b))) = le_bytes 4 (next_free b))
    by (split; reflexivity).
  unfold field, Datatypes.id. destruct E as [-> ->].
  split; apply le_value_bytes; change (256 ^ Z.of_nat 4) with 4294967296; widths; lia.
Qed.

(** Nothing of the builder's tree is lost on the mounted volume. *)
Lemma mounted_agrees copy : 0 <= copy < 2 -> agrees 0 (medium b) (mounted (read_sector v) g copy).
Proof.
  intros Hcopy. destruct mounted_hints as [Hr Hl]. destruct geo_consts as (Hbs & _).
  pose proof (free_clusters_eq b H) as Hfc. pose proof (wf_next b H) as Hn. fold g in Hn, Hfc.
  split; cbn [mounted medium m_size m_room m_limit m_entry m_data].
  - rewrite Hbs. symmetry. exact (wf_cluster b H).
  - lia.
  - lia.
  - lia.
  - intros c Hc _. split; [apply mounted_entry; lia|apply mounted_cluster; lia].
Qed.
End Mount.

(** C10.  The synthesized volume is the host folder. A driver that only reads
    sectors decodes from sector 0 a valid geometry, and through either copy of the FAT
    finds the whole tree: from the root cluster down, every directory's chain
    holds one entry per readable child, in order, under the folded name, and every
    entry leads to the child: a subdirectory with its dot entries, or a chain that
    holds the file's bytes, zero-padded.  The bytes are all of the file's whenever
    its cluster count fits in the 32 bits [store_file] keeps of it (below 2 TiB);
    a longer file is cut to the clusters its count wraps to.  The size field is the
    length modulo 2^32, so it is the length below 4 GiB only.  Children are missing
    only when the volume has no room for them, or when the wrapped count is zero;
    a directory's entries are cut only when no cluster is left to extend it. *)
Theorem volume_represents_tree root bytes id v :
  build_fat32 root bytes id = Ok v ->
  exists g children, root = Directory (Some children) /\
    (sector ← read_sector v 0; decode_bpb sector) = Some g /\ total_sectors g = bytes / 512 /\
    forall copy, 0 <= copy < 2 ->
      dir_on (mounted (read_sector v) g copy) (root_cluster g) 0 true children.
Proof.
  intros E. destruct (fat32_geometry bytes) as [g|] eqn:Hg; [|by unfold build_fat32 in E; rewrite Hg in E].
  destruct (fat32_geometry_Some bytes g Hg) as (_ & Hok & _ & Ht).
  pose proof (build_fat32_spec root bytes id g Hg Hok) as Hb. rewrite E in Hb.
  destruct Hb as (b & H & <- & -> & children & -> & Hd).
  exists (b_geo b), children. split; [done|]. split; [|split; [done|]].
  - rewrite sector_zero. cbn [option_bind mbind]. by apply boot_sector_mounts.
  - intros copy Hcopy. destruct (geo_consts b H) as (_ & _ & _ & -> & _).
    eapply (tree_agrees (medium b) _ 0); [by apply mounted_agrees|exact Hd|lia].
Qed.

(** "docs" holding "a.txt" with three bytes, next to an empty file. *)
Definition example_tree : Host :=
  Directory (Some [([100; 111; 99; 115], Directory (Some [([97; 46; 116; 120; 116], File (Some [1; 2; 3]))]));
                   ([101; 109; 112; 116; 121], File (Some []))]).

Lemma example_builds : exists v, build_fat32 example_tree 41943040 7 = Ok v.
Proof.
  pose proof (build_fat32_spec example_tree 41943040 7) as H.
  destruct (fat32_geometry 41943040) as [g|] eqn:Hg; [|by vm_compute in Hg].
  specialize (H g eq_refl (accepted_ok _ _ Hg)).
  destruct (build_fat32 example_tree 41943040 7) as [v|e]; [by exists v|].
  destruct H as [_ H]. exfalso. by eapply (H eq_refl).
Qed.

Lemma volume_represents_tree_witness :
  exists v g children, build_fat32 example_tree 41943040 7 = Ok v /\
    example_tree = Directory (Some children) /\
    (sector ← read_sector v 0; decode_bpb sector) = Some g /\ total_sectors g = 81920 /\
    forall copy, 0 <= copy < 2 ->
      dir_on (mounted (read_sector v) g copy) (root_cluster g) 0 true children.
Proof.
  destruct example_builds as [v E].
  destruct (volume_represents_tree example_tree 41943040 7 v E) as (g & children & H).
  exists v, g, children. split; [exact E|exact H].
Defined.

End Volume.
