(* ===== verification/CpuFlags.v ===== *)
(** * Lazy arithmetic flags

    crates/izarravm-cpu/src/flags.rs and the flag accessors of core.rs: ADD, SUB
    and logical operations leave a descriptor ([PendingFlags]) behind instead of
    computing EFLAGS; a reader computes the flag it needs from the descriptor and
    a writer settles or overrides it.  [arch] is the architectural EFLAGS value, and
    each accessor is specified on it. *)

From Stdlib Require Import Btauto.
From S2P Require Import Prelude Memory.

Module Flags.

Definition FLAG_CF : Z := 1.
Definition FLAG_PF : Z := 4.
Definition FLAG_AF : Z := 16.
Definition FLAG_ZF : Z := 64.
Definition FLAG_SF : Z := 128.
Definition FLAG_OF : Z := 2048.
Definition FLAG_AC : Z := 262144.
Definition CR0_AM : Z := 262144.

(** The constant [ARITH] of [flag] and [set_flag]. *)
Definition ARITH : Z := 2261.

Inductive LazyFlagOp := LazyAdd | LazySub | LazyLogic.

Record PendingFlags := mkPending { tag : Z; pa : Z; pb : Z; presult : Z }.

Record LazyFlags := mkLazy {
  la : Z; lb : Z; lresult : Z; lwidth : BusWidth; lop : LazyFlagOp; lcf_override : option bool
}.

(** [PendingFlags::default()] *)
Definition no_pending : PendingFlags := mkPending 0 0 0 0.

Definition is_none (p : PendingFlags) : bool := Z.land (tag p) (bit 31) =? 0.

Definition op (p : PendingFlags) : LazyFlagOp :=
  match Z.land (tag p) 255 with 0 => LazyAdd | 1 => LazySub | _ => LazyLogic end.

Definition width (p : PendingFlags) : BusWidth :=
  match Z.land (Z.shiftr (tag p) 8) 255 with 0 => Byte | 1 => Word | _ => Dword end.

Definition cf_override (p : PendingFlags) : option bool :=
  if has (tag p) (bit 16) then Some (has (tag p) (bit 17)) else None.

Definition with_cf_override (p : PendingFlags) (cf : bool) : PendingFlags :=
  let tag' := Z.lor (tag p) (bit 16) in
  let tag' := if cf then Z.lor tag' (bit 17) else Z.ldiff tag' (bit 17) in
  mkPending tag' (pa p) (pb p) (presult p).

Definition from_legacy (l : LazyFlags) : PendingFlags :=
  let op := match lop l with LazyAdd => 0 | LazySub => 1 | LazyLogic => 2 end in
  let w := match lwidth l with Byte => 0 | Word => 1 | Dword => 2 end in
  let tag := Z.lor op (Z.shiftl w 8) in
  let tag := match lcf_override l with
             | Some cf =>
                 let tag := Z.lor tag (bit 16) in
                 if cf then Z.lor tag (bit 17) else tag
             | None => tag
             end in
  mkPending (Z.lor tag (bit 31)) (la l) (lb l) (lresult l).

Definition width_mask (w : BusWidth) : Z :=
  match w with Byte => 255 | Word => 65535 | Dword => 4294967295 end.
Definition width_sign (w : BusWidth) : Z :=
  match w with Byte => 128 | Word => 32768 | Dword => 2147483648 end.

(** [value.count_ones()] of a byte. *)
Definition count_ones (value : Z) : Z :=
  foldr (fun i n => b2z (Z.testbit value i) + n) 0 (seqZ 0 8).
Definition parity (value : Z) : bool := count_ones value mod 2 =? 0.

(** The processor state the arithmetic core touches. *)
Record Cpu := mkCpu {
  gpr : list Z;
  eflags : Z;
  pending_flags : PendingFlags;
  cr0 : Z;
  alignment_armed : bool;
  flag_materializations : Z
}.
#[export] Instance eta_Cpu : Eta Cpu := fun c =>
  mkCpu (gpr c) (eflags c) (pending_flags c) (cr0 c) (alignment_armed c) (flag_materializations c).

(** [if b { e |= m; }] *)
Definition or_if (b : bool) (m e : Z) : Z := if b then Z.lor e m else e.

Definition materialized_eflags (c : Cpu) : Z :=
  let p := pending_flags c in
  if is_none p then eflags c
  else
    let mask := width_mask (width p) in
    let sign := width_sign (width p) in
    let '(cf, ovf, af, clear) :=
      match op p with
      | LazySub =>
          (pa p <? pb p,
           has (Z.land (Z.lxor (pa p) (pb p)) (Z.lxor (pa p) (presult p))) sign,
           has (Z.lxor (Z.lxor (pa p) (pb p)) (presult p)) 16, ARITH)
      | LazyAdd =>
          (mask <? pa p + pb p,
           has (Z.land (Z.lxor (pa p) (presult p)) (Z.lxor (pb p) (presult p))) sign,
           has (Z.lxor (Z.lxor (pa p) (pb p)) (presult p)) 16, ARITH)
      | LazyLogic => (false, false, has (eflags c) FLAG_AF, Z.ldiff ARITH FLAG_AF)
      end in
    let cf := match cf_override p with Some b => b | None => cf end in
    let e := Z.ldiff (eflags c) clear in
    let e := or_if cf FLAG_CF e in
    let e := or_if ovf FLAG_OF e in
    let e := or_if af FLAG_AF e in
    let e := or_if (Z.land (presult p) mask =? 0) FLAG_ZF e in
    let e := or_if (has (presult p) sign) FLAG_SF e in
    let e := or_if (parity (wrap 8 (presult p))) FLAG_PF e in
    Z.lor e 2.

Definition materialize_flags (c : Cpu) : Cpu :=
  if is_none (pending_flags c) then c
  else c <| eflags := materialized_eflags c |> <| pending_flags := no_pending |>
         <| flag_materializations := wrap 64 (flag_materializations c + 1) |>.

(** [settled] and [eflags()]. *)
Definition settled (c : Cpu) : Cpu := materialize_flags c.

Definition arith_flag (c : Cpu) (flag : Z) : bool :=
  let p := pending_flags c in
  if is_none p then has (eflags c) flag
  else
    let mask := width_mask (width p) in
    let sign := width_sign (width p) in
    match flag with
    | 64 => Z.land (presult p) mask =? 0
    | 128 => has (presult p) sign
    | 4 => parity (wrap 8 (presult p))
    | 16 =>
        match op p with
        | LazyLogic => has (eflags c) FLAG_AF
        | _ => has (Z.lxor (Z.lxor (pa p) (pb p)) (presult p)) 16
        end
    | 1 =>
        match cf_override p with
        | Some cf => cf
        | None =>
            match op p with
            | LazyLogic => false
            | LazySub => pa p <? pb p
            | LazyAdd => mask <? pa p + pb p
            end
        end
    | 2048 =>
        match op p with
        | LazyLogic => false
        | LazySub => has (Z.land (Z.lxor (pa p) (pb p)) (Z.lxor (pa p) (presult p))) sign
        | LazyAdd => has (Z.land (Z.lxor (pa p) (presult p)) (Z.lxor (pb p) (presult p))) sign
        end
    | _ => has (eflags c) flag
    end.

Definition flag (c : Cpu) (flag : Z) : bool :=
  if negb (is_none (pending_flags c)) && has flag ARITH && (Z.ldiff flag ARITH =? 0)
  then arith_flag c flag
  else has (eflags c) flag.

Definition recompute_alignment_armed (c : Cpu) : Cpu :=
  c <| alignment_armed := has (cr0 c) CR0_AM && has (eflags c) FLAG_AC |>.

(** [e |= flag] or [e &= !flag]. *)
Definition put_flag (e flag : Z) (enabled : bool) : Z :=
  if enabled then Z.lor e flag else Z.ldiff e flag.

Definition set_flag_live (c : Cpu) (flag : Z) (enabled : bool) : Cpu :=
  let c := c <| eflags := put_flag (eflags c) flag enabled |> in
  let c := c <| eflags := Z.lor (eflags c) 2 |> in
  if has flag FLAG_AC then recompute_alignment_armed c else c.

Definition set_flag (c : Cpu) (flag : Z) (enabled : bool) : Cpu :=
  if negb (is_none (pending_flags c)) then
    if flag =? FLAG_CF then
      c <| pending_flags := with_cf_override (pending_flags c) enabled |>
        <| eflags := Z.lor (eflags c) 2 |>
    else
      set_flag_live (if negb (Z.land flag ARITH =? 0) then materialize_flags c else c) flag enabled
  else set_flag_live c flag enabled.

Definition set_szp_live (c : Cpu) (result : Z) (w : BusWidth) : Cpu :=
  let c := set_flag_live c FLAG_ZF (Z.land result (width_mask w) =? 0) in
  let c := set_flag_live c FLAG_SF (has result (width_sign w)) in
  set_flag_live c FLAG_PF (parity (wrap 8 result)).

Definition set_szp (c : Cpu) (result : Z) (w : BusWidth) : Cpu :=
  let c := if negb (is_none (pending_flags c)) then materialize_flags c else c in
  set_szp_live c result w.

Definition set_shift_result_flags (c : Cpu) (cf ovf : option bool) (result : Z) (w : BusWidth) : Cpu :=
  if is_none (pending_flags c) then
    let c := match cf with Some cf => set_flag_live c FLAG_CF cf | None => c end in
    let c := match ovf with Some ovf => set_flag_live c FLAG_OF ovf | None => c end in
    set_szp_live c result w
  else
    let cf := match cf with Some cf => cf | None => flag c FLAG_CF end in
    let ovf := match ovf with Some ovf => ovf | None => flag c FLAG_OF end in
    let af := flag c FLAG_AF in
    let c := c <| pending_flags := no_pending |> in
    let c := set_flag_live c FLAG_CF cf in
    let c := set_flag_live c FLAG_OF ovf in
    let c := set_flag_live c FLAG_AF af in
    set_szp_live c result w.

Definition condition (c : Cpu) (cond : Z) : bool :=
  let CF := flag c FLAG_CF in let ZF := flag c FLAG_ZF in
  let SF := flag c FLAG_SF in let OF := flag c FLAG_OF in
  match cond with
  | 0 => OF
  | 1 => negb OF
  | 2 => CF
  | 3 => negb CF
  | 4 => ZF
  | 5 => negb ZF
  | 6 => CF || ZF
  | 7 => negb CF && negb ZF
  | 8 => SF
  | 9 => negb SF
  | 10 => flag c FLAG_PF
  | 11 => negb (flag c FLAG_PF)
  | 12 => xorb SF OF
  | 13 => eqb SF OF
  | 14 => ZF || xorb SF OF
  | _ => negb ZF && eqb SF OF
  end.

(* ------------------------------------------------------------------ *)
(** ** Bits of EFLAGS *)

Lemma testbit_put_flag e m b n : 0 <= n ->
  Z.testbit (put_flag e m b) n = if Z.testbit m n then b else Z.testbit e n.
Proof.
  intros Hn. unfold put_flag. destruct b; [rewrite Z.lor_spec|rewrite Z.ldiff_spec by done];
    destruct (Z.testbit m n), (Z.testbit e n); done.
Qed.

Lemma testbit_or_if b m e n : Z.testbit (or_if b m e) n = (b && Z.testbit m n) || Z.testbit e n.
Proof. unfold or_if. destruct b; rewrite ?Z.lor_spec; cbn [andb]; [apply orb_comm|done]. Qed.

(** Splits on the seven bit positions an arithmetic operation may write; at any
    other position every mask of theirs is clear. *)
Lemma mask_elsewhere m n : Z.land m 2263 = m -> 0 <= n -> n ∉ [0; 1; 2; 4; 6; 7; 11] -> Z.testbit m n = false.
Proof.
  intros <- Hn Hnot. rewrite Z.land_spec. apply andb_false_iff. right.
  destruct (decide (n < 12)) as [Hlt|].
  - assert (Hall : Forall (fun k => k ∈ [0; 1; 2; 4; 6; 7; 11] \/ Z.testbit 2263 k = false) (seqZ 0 12)).
    { repeat constructor; (by right) || (left; set_solver). }
    rewrite Forall_forall in Hall. destruct (Hall n) as [|E]; [by apply elem_of_seqZ|done|exact E].
  - apply Z.bits_above_log2; [lia|]. change (Z.log2 2263) with 11. lia.
Qed.

Ltac elsewhere Hn Hout :=
  repeat match goal with
  | |- context [Z.testbit (Zpos ?m) ?n] =>
      rewrite (mask_elsewhere (Zpos m) n) by (reflexivity || exact Hn || exact Hout)
  end.

(** Proves an equation between EFLAGS images whose flag values are variables, bit by bit. *)
Ltac flag_ext :=
  let n := fresh "n" in let Hn := fresh "Hn" in
  apply Z.bits_inj'; intros n Hn;
  repeat rewrite Z.lor_spec; repeat rewrite testbit_or_if; repeat rewrite testbit_put_flag by exact Hn;
  rewrite ?Z.ldiff_spec;
  destruct (decide (n ∈ [0; 1; 2; 4; 6; 7; 11])) as [Hin|Hout];
  [ repeat (apply elem_of_cons in Hin as [->|Hin]; [simpl; try btauto|]); try (by inversion Hin)
  | elsewhere Hn Hout; simpl; try btauto ].

(** The six arithmetic flags. *)
Record Arith := mkArith { a_cf : bool; a_pf : bool; a_af : bool; a_zf : bool; a_sf : bool; a_of : bool }.
#[export] Instance eta_Arith : Eta Arith := fun x =>
  mkArith (a_cf x) (a_pf x) (a_af x) (a_zf x) (a_sf x) (a_of x).

Definition with_arith (e : Z) (x : Arith) : Z :=
  Z.lor (put_flag (put_flag (put_flag (put_flag (put_flag (put_flag e
    FLAG_CF (a_cf x)) FLAG_PF (a_pf x)) FLAG_AF (a_af x)) FLAG_ZF (a_zf x))
    FLAG_SF (a_sf x)) FLAG_OF (a_of x)) 2.

(** What a descriptor stands for; [af] is the flag a logical operation keeps. *)
Definition pending_arith (p : PendingFlags) (af : bool) : Arith :=
  let mask := width_mask (width p) in
  let sign := width_sign (width p) in
  let cf := match op p with LazySub => pa p <? pb p | LazyAdd => mask <? pa p + pb p | LazyLogic => false end in
  {| a_cf := match cf_override p with Some b => b | None => cf end;
     a_pf := parity (wrap 8 (presult p));
     a_af := match op p with LazyLogic => af
             | _ => has (Z.lxor (Z.lxor (pa p) (pb p)) (presult p)) 16 end;
     a_zf := Z.land (presult p) mask =? 0;
     a_sf := has (presult p) sign;
     a_of := match op p with
             | LazySub => has (Z.land (Z.lxor (pa p) (pb p)) (Z.lxor (pa p) (presult p))) sign
             | LazyAdd => has (Z.land (Z.lxor (pa p) (presult p)) (Z.lxor (pb p) (presult p))) sign
             | LazyLogic => false end |}.

(** The architectural EFLAGS value. *)
Definition arch (c : Cpu) : Z := materialized_eflags c.

(** Bit 1 of EFLAGS reads as one. *)
Definition flags_wf (c : Cpu) : Prop := Z.testbit (eflags c) 1 = true.

Lemma has_16 e : has e 16 = Z.testbit e 4.
Proof. exact (has_bit e 4 ltac:(lia)). Qed.

Lemma set_all_arith e cf pf af zf sf ovf :
  Z.lor (or_if pf 4 (or_if sf 128 (or_if zf 64 (or_if af 16 (or_if ovf 2048 (or_if cf 1 (Z.ldiff e 2261))))))) 2 =
  with_arith e (mkArith cf pf af zf sf ovf).
Proof.
  unfold with_arith, FLAG_CF, FLAG_PF, FLAG_AF, FLAG_ZF, FLAG_SF, FLAG_OF. cbn [a_cf a_pf a_af a_zf a_sf a_of].
  flag_ext.
Qed.

Lemma set_logic_arith e cf pf zf sf ovf :
  Z.lor (or_if pf 4 (or_if sf 128 (or_if zf 64 (or_if (has e 16) 16 (or_if ovf 2048 (or_if cf 1 (Z.ldiff e 2245))))))) 2 =
  with_arith e (mkArith cf pf (has e 16) zf sf ovf).
Proof.
  rewrite has_16.
  unfold with_arith, FLAG_CF, FLAG_PF, FLAG_AF, FLAG_ZF, FLAG_SF, FLAG_OF. cbn [a_cf a_pf a_af a_zf a_sf a_of].
  flag_ext.
Qed.

Lemma arch_pending c : is_none (pending_flags c) = false ->
  arch c = with_arith (eflags c) (pending_arith (pending_flags c) (has (eflags c) FLAG_AF)).
Proof.
  intros Hp. unfold arch, materialized_eflags, pending_arith. rewrite Hp.
  destruct (op (pending_flags c)); cbn iota beta zeta;
    [apply set_all_arith..|apply set_logic_arith].
Qed.

Lemma arch_none c : is_none (pending_flags c) = true -> arch c = eflags c.
Proof. intros Hp. unfold arch, materialized_eflags. by rewrite Hp. Qed.

Lemma with_arith_bit e x n : 0 <= n -> Z.testbit (with_arith e x) n =
  if n =? 0 then a_cf x else if n =? 1 then true else if n =? 2 then a_pf x
  else if n =? 4 then a_af x else if n =? 6 then a_zf x else if n =? 7 then a_sf x
  else if n =? 11 then a_of x else Z.testbit e n.
Proof.
  intros Hn. unfold with_arith, FLAG_CF, FLAG_PF, FLAG_AF, FLAG_ZF, FLAG_SF, FLAG_OF.
  rewrite Z.lor_spec. rewrite !testbit_put_flag by done.
  destruct (decide (n ∈ [0; 1; 2; 4; 6; 7; 11])) as [Hin|Hout].
  - repeat (apply elem_of_cons in Hin as [->|Hin]; [simpl; btauto|]). by inversion Hin.
  - elsewhere Hn Hout. rewrite orb_false_r.
    rewrite !not_elem_of_cons in Hout. destruct Hout as (? & ? & ? & ? & ? & ? & ? & _).
    by rewrite !(proj2 (Z.eqb_neq n _)) by done.
Qed.

(** Two images agree on everything but the arithmetic flags and bit 1. *)
Lemma with_arith_same e e' x :
  (forall n, 0 <= n -> n ∉ [0; 1; 2; 4; 6; 7; 11] -> Z.testbit e n = Z.testbit e' n) ->
  with_arith e x = with_arith e' x.
Proof.
  intros Hs. apply Z.bits_inj'. intros n Hn. rewrite !with_arith_bit by done.
  destruct (decide (n ∈ [0; 1; 2; 4; 6; 7; 11])) as [Hin|Hout]; [|by rewrite Hs].
  repeat (apply elem_of_cons in Hin as [->|Hin]; [done|]). by inversion Hin.
Qed.

Lemma with_arith_elsewhere e x n : 0 <= n -> n ∉ [0; 1; 2; 4; 6; 7; 11] ->
  Z.testbit (with_arith e x) n = Z.testbit e n.
Proof.
  intros Hn Hout. rewrite with_arith_bit by done.
  rewrite !not_elem_of_cons in Hout. destruct Hout as (? & ? & ? & ? & ? & ? & ? & _).
  by rewrite !(proj2 (Z.eqb_neq n _)) by done.
Qed.

Lemma arch_elsewhere c n : 0 <= n -> n ∉ [0; 1; 2; 4; 6; 7; 11] -> Z.testbit (arch c) n = Z.testbit (eflags c) n.
Proof.
  intros. destruct (is_none (pending_flags c)) eqn:Hp; [by rewrite arch_none|].
  rewrite arch_pending by done. by apply with_arith_elsewhere.
Qed.

(** An operation that writes all six flags may start from the stale image. *)
Lemma with_arith_arch c x : with_arith (eflags c) x = with_arith (arch c) x.
Proof. apply with_arith_same. intros. by rewrite arch_elsewhere. Qed.

Lemma arch_bit_1 c : flags_wf c -> Z.testbit (arch c) 1 = true.
Proof.
  intros Hw. destruct (is_none (pending_flags c)) eqn:Hp; [by rewrite arch_none|].
  rewrite arch_pending, with_arith_bit by done. done.
Qed.

(* ------------------------------------------------------------------ *)
(** ** Reading a flag *)

Definition arith_bit (k : Z) : bool := bool_decide (k ∈ [0; 2; 4; 6; 7; 11]).

Lemma single_bit_tests k : 0 <= k -> k < 32 ->
  has (bit k) ARITH && (Z.ldiff (bit k) ARITH =? 0) = arith_bit k.
Proof.
  intros H0 H1. assert (List.forallb (fun k => eqb (has (bit k) ARITH && (Z.ldiff (bit k) ARITH =? 0)) (arith_bit k)) (seqZ 0 32) = true) as Hf by (vm_compute; reflexivity).
  rewrite List.forallb_forall in Hf. apply eqb_prop, (Hf k). apply list_elem_of_In, elem_of_seqZ. lia.
Qed.

Lemma arith_flag_spec c k : is_none (pending_flags c) = false -> arith_bit k = true ->
  arith_flag c (bit k) = Z.testbit (arch c) k.
Proof.
  intros Hp Hk. apply bool_decide_eq_true in Hk. rewrite arch_pending by done.
  unfold arith_flag. rewrite Hp.
  repeat (apply elem_of_cons in Hk as [->|Hk]); [..|by inversion Hk];
    rewrite with_arith_bit by done; unfold bit; simpl Z.shiftl;
    cbn [Z.eqb Pos.eqb pending_arith a_cf a_pf a_af a_zf a_sf a_of];
    destruct (op (pending_flags c)), (cf_override (pending_flags c)); reflexivity.
Qed.

(** Every reader of a flag sees the architectural value. *)
Lemma flag_spec c k : 0 <= k < 32 -> k <> 1 -> flag c (bit k) = Z.testbit (arch c) k.
Proof.
  intros Hk H1. unfold flag.
  destruct (is_none (pending_flags c)) eqn:Hp; simpl negb; simpl andb.
  - rewrite arch_none by done. apply has_bit; lia.
  - rewrite single_bit_tests by lia. destruct (arith_bit k) eqn:Ha.
    + by apply arith_flag_spec.
    + rewrite arch_elsewhere; [apply has_bit; lia|lia|].
      apply bool_decide_eq_false in Ha. intros Hin. rewrite !elem_of_cons in Hin. apply Ha. rewrite !elem_of_cons.
      destruct Hin as [?|[?|?]]; [by left|done|by right].
Qed.

Lemma flag_CF c : flag c FLAG_CF = Z.testbit (arch c) 0. Proof. exact (flag_spec c 0 ltac:(lia) ltac:(lia)). Qed.
Lemma flag_PF c : flag c FLAG_PF = Z.testbit (arch c) 2. Proof. exact (flag_spec c 2 ltac:(lia) ltac:(lia)). Qed.
Lemma flag_AF c : flag c FLAG_AF = Z.testbit (arch c) 4. Proof. exact (flag_spec c 4 ltac:(lia) ltac:(lia)). Qed.
Lemma flag_ZF c : flag c FLAG_ZF = Z.testbit (arch c) 6. Proof. exact (flag_spec c 6 ltac:(lia) ltac:(lia)). Qed.
Lemma flag_SF c : flag c FLAG_SF = Z.testbit (arch c) 7. Proof. exact (flag_spec c 7 ltac:(lia) ltac:(lia)). Qed.
Lemma flag_OF c : flag c FLAG_OF = Z.testbit (arch c) 11. Proof. exact (flag_spec c 11 ltac:(lia) ltac:(lia)). Qed.

(* ------------------------------------------------------------------ *)
(** ** Writing flags *)

Lemma set_flag_live_fields c m b :
  eflags (set_flag_live c m b) = Z.lor (put_flag (eflags c) m b) 2 /\
  pending_flags (set_flag_live c m b) = pending_flags c /\
  gpr (set_flag_live c m b) = gpr c /\ cr0 (set_flag_live c m b) = cr0 c.
Proof. unfold set_flag_live. by destruct (has m FLAG_AC). Qed.

Lemma arch_none_live c m b : is_none (pending_flags c) = true ->
  arch (set_flag_live c m b) = Z.lor (put_flag (arch c) m b) 2.
Proof.
  intros Hp. destruct (set_flag_live_fields c m b) as (He & Hq & _ & _).
  rewrite !arch_none by congruence. done.
Qed.

Lemma materialize_none c : is_none (pending_flags (materialize_flags c)) = true.
Proof. unfold materialize_flags. by destruct (is_none (pending_flags c)) eqn:Hp. Qed.

(** Settling the descriptor is invisible. *)
Lemma arch_materialize c : arch (materialize_flags c) = arch c.
Proof.
  rewrite (arch_none _ (materialize_none c)). unfold materialize_flags.
  destruct (is_none (pending_flags c)) eqn:Hp; [by rewrite arch_none|done].
Qed.

Lemma materialize_fields c :
  gpr (materialize_flags c) = gpr c /\ cr0 (materialize_flags c) = cr0 c /\
  alignment_armed (materialize_flags c) = alignment_armed c.
Proof. unfold materialize_flags. by destruct (is_none (pending_flags c)). Qed.

Lemma override_tag_bit p b k : 0 <= k -> k <> 16 -> k <> 17 ->
  Z.testbit (tag (with_cf_override p b)) k = Z.testbit (tag p) k.
Proof.
  intros. unfold with_cf_override. cbn [tag].
  destruct b; rewrite ?Z.ldiff_spec, !Z.lor_spec, !testbit_bit by lia;
    rewrite ?(proj2 (Z.eqb_neq 16 k)), ?(proj2 (Z.eqb_neq 17 k)) by lia; btauto.
Qed.

Lemma override_tag_byte p b s : s = 0 \/ s = 8 ->
  Z.land (Z.shiftr (tag (with_cf_override p b)) s) 255 = Z.land (Z.shiftr (tag p) s) 255.
Proof.
  intros Hs. apply Z.bits_inj'. intros n Hn. rewrite !Z.land_spec, !Z.shiftr_spec by done.
  destruct (decide (n < 8)).
  - by rewrite override_tag_bit by lia.
  - rewrite (testbit_high 8 255 n) by zlia. by rewrite !andb_false_r.
Qed.

Lemma is_none_has p : is_none p = negb (has (tag p) (bit 31)).
Proof. unfold is_none, has. by rewrite negb_involutive. Qed.

Lemma with_cf_override_spec p b :
  is_none (with_cf_override p b) = is_none p /\ op (with_cf_override p b) = op p /\
  width (with_cf_override p b) = width p /\ cf_override (with_cf_override p b) = Some b.
Proof.
  split_and!.
  - rewrite !is_none_has, !has_bit by lia. by rewrite override_tag_bit by lia.
  - unfold op. pose proof (override_tag_byte p b 0 ltac:(lia)) as E. rewrite !Z.shiftr_0_r in E. by rewrite E.
  - unfold width. by rewrite override_tag_byte by lia.
  - unfold cf_override, with_cf_override. cbn [tag].
    rewrite !has_bit by lia.
    destruct b; rewrite ?Z.ldiff_spec, !Z.lor_spec, !testbit_bit by lia; simpl;
      repeat (rewrite orb_true_r || rewrite andb_true_r || rewrite andb_false_r || cbn [orb andb]); done.
Qed.

Lemma pending_arith_override p b af :
  pending_arith (with_cf_override p b) af =
  let x := pending_arith p af in mkArith b (a_pf x) (a_af x) (a_zf x) (a_sf x) (a_of x).
Proof.
  destruct (with_cf_override_spec p b) as (_ & Ho & Hw & Hc).
  unfold pending_arith. rewrite Ho, Hw, Hc. done.
Qed.

(** Every writer of a flag writes the architectural value. *)
Lemma arch_set_flag c m b : 0 <= m -> arch (set_flag c m b) = Z.lor (put_flag (arch c) m b) 2.
Proof.
  intros Hm. unfold set_flag. destruct (is_none (pending_flags c)) eqn:Hp; simpl negb; cbn iota.
  { by apply arch_none_live. }
  destruct (m =? FLAG_CF) eqn:Ec; bool_prop.
  { subst m. rewrite !arch_pending by (simpl; by rewrite ?(proj1 (with_cf_override_spec _ _))). simpl.
    rewrite pending_arith_override. simpl.
    apply Z.bits_inj'. intros n Hn.
    rewrite Z.lor_spec, testbit_put_flag, !with_arith_bit by done.
    destruct (decide (n ∈ [0; 1; 2; 4; 6; 7; 11])) as [Hin|Hout].
    - repeat (apply elem_of_cons in Hin as [->|Hin];
        [simpl; rewrite ?orb_false_r; try reflexivity; unfold has, FLAG_AF; by rewrite Z.land_lor_distr_l, Z.lor_0_r|]).
      by inversion Hin.
    - assert (Z.testbit FLAG_CF n = false /\ Z.testbit 2 n = false) as [-> ->].
      { unfold FLAG_CF. split; elsewhere Hn Hout; done. }
      rewrite !not_elem_of_cons in Hout. destruct Hout as (? & ? & ? & ? & ? & ? & ? & _).
      rewrite !(proj2 (Z.eqb_neq n _)) by done. rewrite Z.lor_spec. by rewrite ?(mask_elsewhere 2 n), ?orb_false_r by (done || reflexivity || set_solver). }
  destruct (Z.land m ARITH =? 0) eqn:Ea; simpl negb; cbn iota; bool_prop.
  2: { rewrite arch_none_live by apply materialize_none. by rewrite arch_materialize. }
  destruct (set_flag_live_fields c m b) as (He & Hq & _ & _).
  rewrite !arch_pending by congruence. rewrite Hq, He.
  assert (Hz : forall n, 0 <= n -> Z.testbit ARITH n = true -> Z.testbit m n = false).
  { intros n Hn Ht. apply (f_equal (fun z => Z.testbit z n)) in Ea.
    by rewrite Z.land_spec, Ht, Z.bits_0, andb_true_r in Ea. }
  assert (has (Z.lor (put_flag (eflags c) m b) 2) FLAG_AF = has (eflags c) FLAG_AF) as ->.
  { unfold FLAG_AF. rewrite !has_16, Z.lor_spec, testbit_put_flag, (Hz 4) by done. by rewrite orb_false_r. }
  apply Z.bits_inj'. intros n Hn. rewrite Z.lor_spec, testbit_put_flag, !with_arith_bit by done.
  destruct (decide (n ∈ [0; 1; 2; 4; 6; 7; 11])) as [Hin|Hout].
  - repeat (apply elem_of_cons in Hin as [->|Hin];
      [first [by rewrite orb_true_r|rewrite Hz by done; simpl; by rewrite orb_false_r]|]).
    by inversion Hin.
  - rewrite !not_elem_of_cons in Hout. destruct Hout as (? & ? & ? & ? & ? & ? & ? & _).
    rewrite !(proj2 (Z.eqb_neq n _)) by done. by rewrite Z.lor_spec, testbit_put_flag.
Qed.

(** The arithmetic flags an image holds. *)
Definition arith_of (e : Z) : Arith :=
  mkArith (Z.testbit e 0) (Z.testbit e 2) (Z.testbit e 4) (Z.testbit e 6) (Z.testbit e 7) (Z.testbit e 11).

Lemma arith_of_with e x : arith_of (with_arith e x) = x.
Proof. unfold arith_of. rewrite !with_arith_bit by done. by destruct x. Qed.

Lemma with_arith_with e x y : with_arith (with_arith e x) y = with_arith e y.
Proof. apply with_arith_same. intros. by apply with_arith_elsewhere. Qed.

Ltac put_one :=
  match goal with |- _ = with_arith ?e _ =>
    unfold with_arith, arith_of, FLAG_CF, FLAG_PF, FLAG_AF, FLAG_ZF, FLAG_SF, FLAG_OF; simpl update;
    cbn [a_cf a_pf a_af a_zf a_sf a_of];
    apply Z.bits_inj'; intros n Hn;
    repeat rewrite Z.lor_spec; repeat rewrite testbit_put_flag by exact Hn;
    destruct (decide (n ∈ [0; 1; 2; 4; 6; 7; 11])) as [Hin|Hout];
    [ repeat (apply elem_of_cons in Hin as [->|Hin]; [simpl; btauto|]); try (by inversion Hin)
    | elsewhere Hn Hout; simpl; btauto ]
  end.

Lemma put_CF e b : Z.lor (put_flag e FLAG_CF b) 2 = with_arith e ((arith_of e) <| a_cf := b |>). Proof. put_one. Qed.
Lemma put_PF e b : Z.lor (put_flag e FLAG_PF b) 2 = with_arith e ((arith_of e) <| a_pf := b |>). Proof. put_one. Qed.
Lemma put_AF e b : Z.lor (put_flag e FLAG_AF b) 2 = with_arith e ((arith_of e) <| a_af := b |>). Proof. put_one. Qed.
Lemma put_ZF e b : Z.lor (put_flag e FLAG_ZF b) 2 = with_arith e ((arith_of e) <| a_zf := b |>). Proof. put_one. Qed.
Lemma put_SF e b : Z.lor (put_flag e FLAG_SF b) 2 = with_arith e ((arith_of e) <| a_sf := b |>). Proof. put_one. Qed.
Lemma put_OF e b : Z.lor (put_flag e FLAG_OF b) 2 = with_arith e ((arith_of e) <| a_of := b |>). Proof. put_one. Qed.
Lemma put_CF_OF e b : Z.lor (put_flag e (Z.lor FLAG_CF FLAG_OF) b) 2 =
  with_arith e ((arith_of e) <| a_cf := b |> <| a_of := b |>).
Proof. change (Z.lor FLAG_CF FLAG_OF) with 2049. put_one. Qed.

Create Rewrite HintDb cpu_flags.
#[export] Hint Rewrite put_CF put_PF put_AF put_ZF put_SF put_OF put_CF_OF arith_of_with with_arith_with : cpu_flags.

(* ------------------------------------------------------------------ *)
(** ** Architectural equality

    Two processors that differ only in how far their flags have been computed. *)

Record ceq (c d : Cpu) : Prop := mk_ceq {
  ceq_gpr : gpr c = gpr d;
  ceq_arch : arch c = arch d;
  ceq_cr0 : cr0 c = cr0 d;
  ceq_armed : alignment_armed c = alignment_armed d
}.

#[export] Instance ceq_equiv : Equivalence ceq.
Proof.
  split.
  - by intros c; split.
  - by intros c d []; split.
  - intros c d e [] []; split; congruence.
Qed.

Lemma settled_ceq c : ceq (settled c) c.
Proof.
  destruct (materialize_fields c) as (? & ? & ?). split; try done. apply arch_materialize.
Qed.

#[export] Instance settled_proper : Proper (ceq ==> ceq) settled.
Proof. intros c d E. by rewrite !settled_ceq. Qed.

Lemma flag_ceq c d k : 0 <= k < 32 -> k <> 1 -> ceq c d -> flag c (bit k) = flag d (bit k).
Proof. intros Hk H1 []. rewrite !flag_spec by done. congruence. Qed.

Lemma set_flag_fields c m b :
  gpr (set_flag c m b) = gpr c /\ cr0 (set_flag c m b) = cr0 c.
Proof.
  unfold set_flag. destruct (materialize_fields c) as (Hg & Hr & _).
  repeat case_match; try done; (destruct (set_flag_live_fields (materialize_flags c) m b) as (? & ? & ? & ?)
    || destruct (set_flag_live_fields c m b) as (? & ? & ? & ?)); split; try congruence.
  all: destruct (set_flag_live_fields c m b) as (? & ? & ? & ?); congruence.
Qed.

Lemma has_AC_arch c : has (eflags c) FLAG_AC = has (arch c) FLAG_AC.
Proof.
  change FLAG_AC with (bit 18). rewrite !has_bit by lia. symmetry. apply arch_elsewhere; [lia|].
  rewrite !not_elem_of_cons. repeat split; try lia. apply not_elem_of_nil.
Qed.

(** CR0.AM and EFLAGS.AC arm alignment checking together. *)
Lemma armed_set_flag c m b : 
  alignment_armed (set_flag c m b) =
  if has m FLAG_AC then has (cr0 c) CR0_AM && has (arch (set_flag c m b)) FLAG_AC else alignment_armed c.
Proof.
  destruct (set_flag_fields c m b) as (_ & Hr). rewrite <-has_AC_arch, <-Hr. clear Hr.
  destruct (materialize_fields c) as (_ & Hr & Ha).
  unfold set_flag. destruct (is_none (pending_flags c)); simpl negb; cbn iota.
  { unfold set_flag_live. by destruct (has m FLAG_AC). }
  destruct (m =? FLAG_CF) eqn:E; bool_prop; [by subst m|].
  unfold set_flag_live. destruct (has m FLAG_AC); [done|]. cbn. by case_match.
Qed.

Lemma set_flag_ceq c d m b : 0 <= m -> ceq c d -> ceq (set_flag c m b) (set_flag d m b).
Proof.
  intros Hm []. destruct (set_flag_fields c m b), (set_flag_fields d m b).
  assert (arch (set_flag c m b) = arch (set_flag d m b)) as Ha
    by (rewrite !arch_set_flag by done; congruence).
  split; try congruence. rewrite !armed_set_flag. by case_match; congruence.
Qed.

(** [c'] is [c] with the arithmetic flags [x]. *)
Record writes (c c' : Cpu) (x : Arith) : Prop := mk_writes {
  w_gpr : gpr c' = gpr c;
  w_arch : arch c' = with_arith (arch c) x;
  w_cr0 : cr0 c' = cr0 c;
  w_armed : alignment_armed c' = alignment_armed c
}.

Lemma writes_ceq c c' d d' x : writes c c' x -> writes d d' x -> ceq c d -> ceq c' d'.
Proof. intros [] [] []. split; congruence. Qed.

Lemma writes_trans c c' c'' x y : writes c c' x -> writes c' c'' y -> writes c c'' y.
Proof. intros [] []. split; try congruence. rewrite w_arch1, w_arch0. apply with_arith_with. Qed.

Lemma writes_from c c' d x : writes c d x -> ceq c c' -> writes c' d x.
Proof. intros [] []. split; congruence. Qed.

(** Replacing the descriptor, the rest of EFLAGS untouched. *)
Lemma writes_pending c p e x :
  is_none p = false ->
  with_arith e (pending_arith p (has e FLAG_AF)) = with_arith (eflags c) x ->
  writes c (c <| eflags := e |> <| pending_flags := p |>) x.
Proof.
  intros Hp Hx. split; try done. rewrite arch_pending by done. simpl. rewrite Hx. apply with_arith_arch.
Qed.

Definition arith_mask (m : Z) : Prop := In m [FLAG_CF; FLAG_PF; FLAG_AF; FLAG_ZF; FLAG_SF; FLAG_OF; Z.lor FLAG_CF FLAG_OF].

(** Setting arithmetic flags leaves the rest of the processor. *)
Lemma writes_set_flag c m b x : arith_mask m ->
  Z.lor (put_flag (arch c) m b) 2 = with_arith (arch c) x -> writes c (set_flag c m b) x.
Proof.
  intros Hm Hx. destruct (set_flag_fields c m b).
  assert (0 <= m /\ has m FLAG_AC = false) as [? Hac].
  { cbn in Hm. repeat destruct Hm as [<-|Hm]; [done..|]. done. }
  split; try done.
  - by rewrite arch_set_flag.
  - by rewrite armed_set_flag, Hac.
Qed.

Lemma set_CF c b : writes c (set_flag c FLAG_CF b) ((arith_of (arch c)) <| a_cf := b |>).
Proof. apply writes_set_flag; [cbn; tauto|apply put_CF]. Qed.
Lemma set_AF c b : writes c (set_flag c FLAG_AF b) ((arith_of (arch c)) <| a_af := b |>).
Proof. apply writes_set_flag; [cbn; tauto|apply put_AF]. Qed.
Lemma set_OF c b : writes c (set_flag c FLAG_OF b) ((arith_of (arch c)) <| a_of := b |>).
Proof. apply writes_set_flag; [cbn; tauto|apply put_OF]. Qed.
Lemma set_CF_OF c b :
  writes c (set_flag c (Z.lor FLAG_CF FLAG_OF) b) ((arith_of (arch c)) <| a_cf := b |> <| a_of := b |>).
Proof. apply writes_set_flag; [cbn; tauto|apply put_CF_OF]. Qed.

Lemma arith_of_written c c' x : writes c c' x -> arith_of (arch c') = x.
Proof. intros H. by rewrite (w_arch _ _ _ H), arith_of_with. Qed.

Definition szp_of (result : Z) (w : BusWidth) (x : Arith) : Arith :=
  x <| a_zf := Z.land result (width_mask w) =? 0 |> <| a_sf := has result (width_sign w) |>
    <| a_pf := parity (wrap 8 result) |>.

Lemma set_flag_none c m b : is_none (pending_flags c) = true -> set_flag c m b = set_flag_live c m b.
Proof. unfold set_flag. by intros ->. Qed.

Lemma set_flag_live_none c m b : is_none (pending_flags c) = true ->
  is_none (pending_flags (set_flag_live c m b)) = true.
Proof. intros. destruct (set_flag_live_fields c m b) as (_ & -> & _). done. Qed.

(** One flag written on a settled image. *)
Lemma live_put c m b x : is_none (pending_flags c) = true -> arith_mask m ->
  Z.lor (put_flag (arch c) m b) 2 = with_arith (arch c) x ->
  writes c (set_flag_live c m b) x /\ is_none (pending_flags (set_flag_live c m b)) = true.
Proof.
  intros Hp Hm Hx. rewrite <-set_flag_none by done. split; [by apply writes_set_flag|].
  rewrite set_flag_none by done. by apply set_flag_live_none.
Qed.

(** Names the next settled image. *)
Ltac put lem c Hp c' H Hp' :=
  match goal with |- context [set_flag_live c ?m ?b] =>
    destruct (live_put c m b _ Hp ltac:(cbn; tauto) (lem _ _)) as [H Hp'];
    set (c' := set_flag_live c m b) in *
  end.

Lemma writes_szp_live c result w : is_none (pending_flags c) = true ->
  writes c (set_szp_live c result w) (szp_of result w (arith_of (arch c))).
Proof.
  intros Hp. unfold set_szp_live. cbv zeta.
  put put_ZF c Hp c1 H1 Hp1. put put_SF c1 Hp1 c2 H2 Hp2. put put_PF c2 Hp2 c3 H3 Hp3.
  eapply writes_trans; [exact H1|]. eapply writes_trans; [exact H2|].
  revert H3. rewrite (w_arch _ _ _ H2), arith_of_with, (w_arch _ _ _ H1), arith_of_with. done.
Qed.

Lemma writes_szp c result w : writes c (set_szp c result w) (szp_of result w (arith_of (arch c))).
Proof.
  unfold set_szp. destruct (is_none (pending_flags c)) eqn:Hp; simpl negb; cbn iota.
  - by apply writes_szp_live.
  - rewrite <-(arch_materialize c). eapply writes_from; [|apply settled_ceq].
    apply writes_szp_live, materialize_none.
Qed.

Lemma writes_shift_result c cf ovf result w :
  writes c (set_shift_result_flags c cf ovf result w)
    (szp_of result w ((arith_of (arch c)) <| a_cf := default (Z.testbit (arch c) 0) cf |>
                                          <| a_of := default (Z.testbit (arch c) 11) ovf |>)).
Proof.
  unfold set_shift_result_flags. destruct (is_none (pending_flags c)) eqn:Hp.
  - destruct cf as [cf|], ovf as [ovf|]; cbv zeta.
    + put put_CF c Hp c1 H1 Hp1. put put_OF c1 Hp1 c2 H2 Hp2.
      eapply writes_trans; [exact H1|]. eapply writes_trans; [exact H2|].
      generalize (writes_szp_live c2 result w Hp2).
      rewrite (w_arch _ _ _ H2), arith_of_with, (w_arch _ _ _ H1), arith_of_with. done.
    + put put_CF c Hp c1 H1 Hp1. eapply writes_trans; [exact H1|].
      generalize (writes_szp_live c1 result w Hp1). by rewrite (w_arch _ _ _ H1), arith_of_with.
    + put put_OF c Hp c1 H1 Hp1. eapply writes_trans; [exact H1|].
      generalize (writes_szp_live c1 result w Hp1). by rewrite (w_arch _ _ _ H1), arith_of_with.
    + by apply writes_szp_live.
  - cbv zeta. rewrite flag_CF, flag_OF, flag_AF.
    replace (match cf with Some cf => cf | None => _ end) with (default (Z.testbit (arch c) 0) cf) by by destruct cf.
    replace (match ovf with Some ovf => ovf | None => _ end) with (default (Z.testbit (arch c) 11) ovf) by by destruct ovf.
    set (c0 := c <| pending_flags := no_pending |>).
    assert (Hp0 : is_none (pending_flags c0) = true) by done.
    put put_CF c0 Hp0 c1 H1 Hp1. put put_OF c1 Hp1 c2 H2 Hp2. put put_AF c2 Hp2 c3 H3 Hp3.
    pose proof (writes_szp_live c3 result w Hp3) as H4.
    assert (Ha : arch c0 = eflags c) by exact (arch_none c0 Hp0).
    pose proof (writes_trans _ _ _ _ _ H1 (writes_trans _ _ _ _ _ H2 (writes_trans _ _ _ _ _ H3 H4))) as H.
    rewrite (w_arch _ _ _ H3), arith_of_with, (w_arch _ _ _ H2), arith_of_with, (w_arch _ _ _ H1), arith_of_with in H.
    destruct H as [Hg Hx Hr Hm]. split; [exact Hg| |exact Hr|exact Hm].
    rewrite Hx, Ha, with_arith_arch. done.
Qed.

End Flags.
