(* ===== verification/CpuAlu.v ===== *)
(** * The integer core

    The arithmetic half of crates/izarravm-cpu/src/core.rs: register access, ALU
    operations, shifts and rotates, double shifts, multiplication and division.
    Each operation is specified on the architectural state ([writes], [arch]): its
    result and flags as arithmetic on unsigned and two's complement integers,
    whatever descriptor the previous operation left pending. *)

From Stdlib Require Import Btauto.
From S2P Require Import Prelude Memory CpuFlags.
Import CpuFlags.Flags.

Module Alu.

(* ------------------------------------------------------------------ *)
(** ** Operand sizes, registers, faults *)

Inductive OperandSize := OWord | ODword.

Definition size_bytes (s : OperandSize) : Z := match s with OWord => 2 | ODword => 4 end.
Definition bus_width (s : OperandSize) : BusWidth := match s with OWord => Word | ODword => Dword end.
Definition size_mask (s : OperandSize) : Z := match s with OWord => 65535 | ODword => 4294967295 end.

Inductive InternalFault :=
| Bus (e : BusError)
| Exception (vector : Z) (error_code : option Z).

Definition divide_error : InternalFault := Exception 0 None.

(** [self.registers.gpr[reg]], [reg] below eight. *)
Definition slot (c : Cpu) (reg : Z) : Z := gpr c !!! Z.to_nat reg.
Definition set_slot (c : Cpu) (reg value : Z) : Cpu := c <| gpr := <[Z.to_nat reg := value]> (gpr c) |>.

Definition read_gpr32 (c : Cpu) (index : Z) : Z := slot c (Z.land index 7).
Definition write_gpr32 (c : Cpu) (index value : Z) : Cpu := set_slot c (Z.land index 7) value.

Definition read_gpr16 (c : Cpu) (index : Z) : Z := wrap 16 (slot c (Z.land index 7)).
Definition write_gpr16 (c : Cpu) (index value : Z) : Cpu :=
  let reg := Z.land index 7 in set_slot c reg (Z.lor (Z.land (slot c reg) 4294901760) value).

Definition read_gpr8 (c : Cpu) (index : Z) : Z :=
  let reg := Z.land index 3 in
  if index <? 4 then wrap 8 (slot c reg) else wrap 8 (Z.shiftr (slot c reg) 8).
Definition write_gpr8 (c : Cpu) (index value : Z) : Cpu :=
  let reg := Z.land index 3 in
  if index <? 4 then set_slot c reg (Z.lor (Z.ldiff (slot c reg) 255) value)
  else set_slot c reg (Z.lor (Z.ldiff (slot c reg) 65280) (Z.shiftl value 8)).

Definition read_gpr_sized (c : Cpu) (index : Z) (s : OperandSize) : Z :=
  match s with OWord => read_gpr16 c index | ODword => read_gpr32 c index end.
Definition write_gpr_sized (c : Cpu) (index : Z) (s : OperandSize) (value : Z) : Cpu :=
  match s with OWord => write_gpr16 c index (wrap 16 value) | ODword => write_gpr32 c index value end.

Definition read_edx_eax (c : Cpu) : Z := Z.lor (Z.shiftl (read_gpr32 c 2) 32) (read_gpr32 c 0).
Definition set_edx_eax (c : Cpu) (value : Z) : Cpu :=
  write_gpr32 (write_gpr32 c 0 (wrap 32 value)) 2 (wrap 32 (Z.shiftr value 32)).

(* ------------------------------------------------------------------ *)
(** ** Addition, subtraction, logic *)

Definition set_pending (c : Cpu) (l : LazyFlags) : Cpu := c <| pending_flags := from_legacy l |>.

Definition alu_add_eager (c : Cpu) (a b carry : Z) (w : BusWidth) : Z * Cpu :=
  let mask := width_mask w in
  let sign := width_sign w in
  let a := Z.land a mask in
  let b := Z.land b mask in
  let full := a + b + carry in
  let result := Z.land (wrap 32 full) mask in
  let c := set_flag c FLAG_CF (mask <? full) in
  let c := set_flag c FLAG_OF (has (Z.land (Z.lxor a result) (Z.lxor b result)) sign) in
  let c := set_flag c FLAG_AF (has (Z.lxor (Z.lxor a b) result) 16) in
  (result, set_szp c result w).

Definition alu_add (c : Cpu) (a b carry : Z) (w : BusWidth) : Z * Cpu :=
  if negb (carry =? 0) then alu_add_eager c a b carry w
  else
    let mask := width_mask w in
    let a := Z.land a mask in
    let b := Z.land b mask in
    let result := Z.land (wrap 32 (a + b)) mask in
    (result, set_pending c (mkLazy a b result w LazyAdd None)).

Definition alu_sub_eager (c : Cpu) (a b borrow : Z) (w : BusWidth) : Z * Cpu :=
  let mask := width_mask w in
  let sign := width_sign w in
  let a := Z.land a mask in
  let b := Z.land b mask in
  let rhs := b + borrow in
  let result := Z.land (wrap 32 (wrap 64 (a - rhs))) mask in
  let c := set_flag c FLAG_CF (a <? rhs) in
  let c := set_flag c FLAG_OF (has (Z.land (Z.lxor a b) (Z.lxor a result)) sign) in
  let c := set_flag c FLAG_AF (has (Z.lxor (Z.lxor a b) result) 16) in
  (result, set_szp c result w).

Definition alu_sub (c : Cpu) (a b borrow : Z) (w : BusWidth) : Z * Cpu :=
  if negb (borrow =? 0) then alu_sub_eager c a b borrow w
  else
    let mask := width_mask w in
    let a := Z.land a mask in
    let b := Z.land b mask in
    let result := Z.land (wrap 32 (wrap 64 (a - b))) mask in
    (result, set_pending c (mkLazy a b result w LazySub None)).

Definition alu_logic (c : Cpu) (result : Z) (w : BusWidth) : Z * Cpu :=
  let result := Z.land result (width_mask w) in
  let is_logic := match op (pending_flags c) with LazyLogic => true | _ => false end in
  let c := if negb (is_none (pending_flags c)) && negb is_logic
           then c <| eflags := put_flag (eflags c) FLAG_AF (arith_flag c FLAG_AF) |> else c in
  let c := c <| eflags := Z.lor (eflags c) 2 |> in
  (result, set_pending c (mkLazy 0 0 result w LazyLogic None)).

(** [alu]: [None] is the [unreachable!] arm. *)
Definition alu (c : Cpu) (op a b : Z) (w : BusWidth) : option (Z * Cpu) :=
  match op with
  | 0 => Some (alu_add c a b 0 w)
  | 2 => let cf_in := b2z (flag c FLAG_CF) in Some (alu_add c a b cf_in w)
  | 3 => let cf_in := b2z (flag c FLAG_CF) in Some (alu_sub c a b cf_in w)
  | 5 | 7 => Some (alu_sub c a b 0 w)
  | 1 => let result := Z.land (Z.lor a b) (width_mask w) in Some (alu_logic c result w)
  | 4 => let result := Z.land (Z.land a b) (width_mask w) in Some (alu_logic c result w)
  | 6 => let result := Z.land (Z.lxor a b) (width_mask w) in Some (alu_logic c result w)
  | _ => None
  end.

Definition inc_dec (c : Cpu) (value : Z) (is_dec : bool) (w : BusWidth) : Z * Cpu :=
  let carry := flag c FLAG_CF in
  let mask := width_mask w in
  let value := Z.land value mask in
  let result := if is_dec then Z.land (wrap 32 (value - 1)) mask else Z.land (wrap 32 (value + 1)) mask in
  (result, set_pending c
    (mkLazy value 1 result w (if is_dec then LazySub else LazyAdd) (Some carry))).

(* ------------------------------------------------------------------ *)
(** ** Shifts *)

(** One iteration of the loop of [double_shift] on [(cf, d, s)]. *)
Definition double_step (left : bool) (mask msb bits : Z) (x : bool * Z * Z) : bool * Z * Z :=
  let '(_, d, s) := x in
  if left then
    let cf := has d msb in
    let d := Z.land (Z.lor (wrap 32 (Z.shiftl d 1)) (Z.shiftr (Z.land s msb) (bits - 1))) mask in
    let s := Z.land (wrap 32 (Z.shiftl s 1)) mask in
    (cf, d, s)
  else
    let cf := has d 1 in
    let d := Z.lor (Z.shiftr d 1) (wrap 32 (Z.shiftl (Z.land s 1) (bits - 1))) in
    let s := Z.shiftr s 1 in
    (cf, d, s).

Definition double_shift (c : Cpu) (left : bool) (dest src raw_count : Z) (size : OperandSize) : Z * Cpu :=
  let count := Z.land raw_count 31 in
  if count =? 0 then (dest, c)
  else
    let bits := size_bytes size * 8 in
    let mask := size_mask size in
    let msb := wrap 32 (Z.shiftl 1 (bits - 1)) in
    let d := Z.land dest mask in
    let s := Z.land src mask in
    if bits <? count then
      let n := count mod bits in
      let result :=
        if left then Z.land (Z.lor (wrap 32 (Z.shiftl s n)) (Z.shiftr s (bits - n))) mask
        else Z.land (Z.lor (Z.shiftr s n) (wrap 32 (Z.shiftl s (bits - n)))) mask in
      (result, set_shift_result_flags c None None result (bus_width size))
    else
      let '(cf, d, _) := Nat.iter (Z.to_nat count) (double_step left mask msb bits) (false, d, s) in
      let ovf := if count =? 1 then Some (has (Z.lxor dest d) msb) else None in
      (Z.land d mask, set_shift_result_flags c (Some cf) ovf d (bus_width size)).

(** One iteration of the loop of [shift_rotate] on [(v, cf)]; [None] is the
    [unreachable!] arm. *)
Definition shift_step (op mask msb bits : Z) (x : Z * bool) : option (Z * bool) :=
  let '(v, cf) := x in
  match op with
  | 0 => let b := has v msb in
         Some (Z.land (Z.lor (wrap 32 (Z.shiftl v 1)) (b2z b)) mask, b)
  | 1 => let b := has v 1 in
         Some (Z.lor (Z.shiftr v 1) (wrap 32 (Z.shiftl (b2z b) (bits - 1))), b)
  | 2 => let b := has v msb in
         Some (Z.land (Z.lor (wrap 32 (Z.shiftl v 1)) (b2z cf)) mask, b)
  | 3 => let b := has v 1 in
         Some (Z.lor (Z.shiftr v 1) (wrap 32 (Z.shiftl (b2z cf) (bits - 1))), b)
  | 4 | 6 => Some (Z.land (wrap 32 (Z.shiftl v 1)) mask, has v msb)
  | 5 => Some (Z.shiftr v 1, has v 1)
  | 7 => Some (Z.lor (Z.shiftr v 1) (Z.land v msb), has v 1)
  | _ => None
  end.

Definition shift_loop (op mask msb bits : Z) (count : nat) (x : Z * bool) : option (Z * bool) :=
  Nat.iter count (fun o => y ← o; shift_step op mask msb bits y) (Some x).

(** The two [match op] of the overflow flag for a count of one. *)
Definition shift_overflow (op value v msb : Z) (cf : bool) : option bool :=
  let top := has v msb in
  match op with
  | 4 | 6 => Some (xorb top cf)
  | 5 => Some (has value msb)
  | 7 => Some false
  | _ => None
  end.
Definition rotate_overflow (op v msb : Z) (cf : bool) : option bool :=
  let top := has v msb in
  match op with
  | 0 | 2 => Some (xorb top cf)
  | 1 | 3 => Some (xorb top (has v (Z.shiftr msb 1)))
  | _ => None
  end.

Definition shift_rotate (c : Cpu) (op value raw_count : Z) (w : BusWidth) : option (Z * Cpu) :=
  let count := Z.land raw_count 31 in
  if count =? 0 then Some (value, c)
  else
    let mask := width_mask w in
    let msb := width_sign w in
    let bits := width_bytes w * 8 in
    let v := Z.land value mask in
    let cf := ((op =? 2) || (op =? 3)) && flag c FLAG_CF in
    '(v, cf) ← shift_loop op mask msb bits (Z.to_nat count) (v, cf);
    if (4 <=? op) && (op <=? 7) then
      ovf ← (if count =? 1 then ovf ← shift_overflow op value v msb cf; Some (Some ovf) else Some None);
      Some (Z.land v mask, set_shift_result_flags c (Some cf) ovf v w)
    else
      let c := set_flag c FLAG_CF cf in
      if count =? 1 then
        ovf ← rotate_overflow op v msb cf;
        Some (Z.land v mask, set_flag c FLAG_OF ovf)
      else Some (Z.land v mask, c).

(* ------------------------------------------------------------------ *)
(** ** Multiplication and division *)

(** [as i8], [as i16], [as i32], [as i64]: two's complement reading. *)
Definition as_signed (w z : Z) : Z :=
  let z := wrap w z in if z <? 2 ^ (w - 1) then z else z - 2 ^ w.

Definition mul (c : Cpu) (operand : Z) (signed : bool) (w : BusWidth) : Cpu :=
  let '(c, significant) :=
    match w, signed with
    | Byte, false =>
        let product := wrap 16 (read_gpr8 c 0 * wrap 8 operand) in
        (write_gpr16 c 0 product, has product 65280)
    | Byte, true =>
        let product := as_signed 16 (as_signed 8 (read_gpr8 c 0) * as_signed 8 operand) in
        (write_gpr16 c 0 (wrap 16 product), negb (product =? as_signed 8 product))
    | Word, false =>
        let product := wrap 32 (read_gpr16 c 0 * wrap 16 operand) in
        (write_gpr16 (write_gpr16 c 0 (wrap 16 product)) 2 (wrap 16 (Z.shiftr product 16)),
         negb (Z.shiftr product 16 =? 0))
    | Word, true =>
        let product := as_signed 32 (as_signed 16 (read_gpr16 c 0) * as_signed 16 operand) in
        (write_gpr16 (write_gpr16 c 0 (wrap 16 product)) 2 (wrap 16 (Z.shiftr product 16)),
         negb (product =? as_signed 16 product))
    | Dword, false =>
        let product := wrap 64 (read_gpr32 c 0 * operand) in
        (write_gpr32 (write_gpr32 c 0 (wrap 32 product)) 2 (wrap 32 (Z.shiftr product 32)),
         negb (Z.shiftr product 32 =? 0))
    | Dword, true =>
        let product := as_signed 64 (as_signed 32 (read_gpr32 c 0) * as_signed 32 operand) in
        (write_gpr32 (write_gpr32 c 0 (wrap 32 product)) 2 (wrap 32 (Z.shiftr product 32)),
         negb (product =? as_signed 32 product))
    end in
  set_flag c (Z.lor FLAG_CF FLAG_OF) significant.

Definition imul_truncated (c : Cpu) (a b : Z) (size : OperandSize) : Z * Cpu :=
  let '(result, significant) :=
    match size with
    | OWord => let p := as_signed 32 (as_signed 16 a * as_signed 16 b) in
               (wrap 16 p, negb (p =? as_signed 16 p))
    | ODword => let p := as_signed 64 (as_signed 32 a * as_signed 32 b) in
                (wrap 32 p, negb (p =? as_signed 32 p))
    end in
  (result, set_flag c (Z.lor FLAG_CF FLAG_OF) significant).

(** [checked_div] and [checked_rem] of [iN]. *)
Definition checked_div (w a b : Z) : option Z :=
  if (b =? 0) || ((a =? - 2 ^ (w - 1)) && (b =? -1)) then None else Some (Z.quot a b).
Definition checked_rem (w a b : Z) : option Z :=
  if (b =? 0) || ((a =? - 2 ^ (w - 1)) && (b =? -1)) then None else Some (Z.rem a b).

Definition div (c : Cpu) (operand : Z) (signed : bool) (w : BusWidth) : Cpu * result InternalFault unit :=
  let err := (c, Err divide_error) in
  if Z.land operand (width_mask w) =? 0 then err
  else
    match w, signed with
    | Byte, false =>
        let dividend := read_gpr16 c 0 in
        let divisor := wrap 8 operand in
        let quotient := dividend / divisor in
        if 255 <? quotient then err
        else (write_gpr8 (write_gpr8 c 0 (wrap 8 quotient)) 4 (wrap 8 (dividend mod divisor)), Ok tt)
    | Byte, true =>
        let dividend := as_signed 16 (read_gpr16 c 0) in
        let divisor := as_signed 8 operand in
        match checked_div 32 dividend divisor, checked_rem 32 dividend divisor with
        | Some quotient, Some remainder =>
            if negb ((-128 <=? quotient) && (quotient <=? 127)) then err
            else (write_gpr8 (write_gpr8 c 0 (wrap 8 quotient)) 4 (wrap 8 remainder), Ok tt)
        | _, _ => err
        end
    | Word, false =>
        let dividend := Z.lor (Z.shiftl (read_gpr16 c 2) 16) (read_gpr16 c 0) in
        let divisor := wrap 16 operand in
        let quotient := dividend / divisor in
        if 65535 <? quotient then err
        else (write_gpr16 (write_gpr16 c 0 (wrap 16 quotient)) 2 (wrap 16 (dividend mod divisor)), Ok tt)
    | Word, true =>
        let dividend := as_signed 32 (Z.lor (Z.shiftl (read_gpr16 c 2) 16) (read_gpr16 c 0)) in
        let divisor := as_signed 16 operand in
        match checked_div 32 dividend divisor, checked_rem 32 dividend divisor with
        | Some quotient, Some remainder =>
            if negb ((-32768 <=? quotient) && (quotient <=? 32767)) then err
            else (write_gpr16 (write_gpr16 c 0 (wrap 16 quotient)) 2 (wrap 16 remainder), Ok tt)
        | _, _ => err
        end
    | Dword, false =>
        let dividend := Z.lor (Z.shiftl (read_gpr32 c 2) 32) (read_gpr32 c 0) in
        let divisor := operand in
        let quotient := dividend / divisor in
        if 4294967295 <? quotient then err
        else (write_gpr32 (write_gpr32 c 0 (wrap 32 quotient)) 2 (wrap 32 (dividend mod divisor)), Ok tt)
    | Dword, true =>
        let dividend := as_signed 64 (Z.lor (Z.shiftl (read_gpr32 c 2) 32) (read_gpr32 c 0)) in
        let divisor := as_signed 32 operand in
        match checked_div 64 dividend divisor, checked_rem 64 dividend divisor with
        | Some quotient, Some remainder =>
            if negb ((-2147483648 <=? quotient) && (quotient <=? 2147483647)) then err
            else (write_gpr32 (write_gpr32 c 0 (wrap 32 quotient)) 2 (wrap 32 remainder), Ok tt)
        | _, _ => err
        end
    end.

(* ------------------------------------------------------------------ *)
(** ** Reference arithmetic *)

Definition wbits (w : BusWidth) : Z := 8 * width_bytes w.
Definition uint (w : BusWidth) (z : Z) : Z := wrap (wbits w) z.
Definition sint (w : BusWidth) (z : Z) : Z := as_signed (wbits w) z.
(** The signed integers of a width. *)
Definition fits (w : BusWidth) (z : Z) : bool :=
  (- 2 ^ (wbits w - 1) <=? z) && (z <? 2 ^ (wbits w - 1)).

Definition result_flags (w : BusWidth) (r : Z) (cf af ovf : bool) : Arith :=
  mkArith cf (parity (r mod 256)) af (r =? 0) (sint w r <? 0) ovf.

Definition add_flags (w : BusWidth) (a b carry : Z) : Arith :=
  result_flags w (uint w (a + b + carry))
    (2 ^ wbits w <=? a + b + carry)
    (16 <=? a mod 16 + b mod 16 + carry)
    (negb (fits w (sint w a + sint w b + carry))).

Definition sub_flags (w : BusWidth) (a b borrow : Z) : Arith :=
  result_flags w (uint w (a - b - borrow))
    (a <? b + borrow)
    (a mod 16 <? b mod 16 + borrow)
    (negb (fits w (sint w a - sint w b - borrow))).

(* ------------------------------------------------------------------ *)
(** ** Bits of sums and differences *)

Lemma testbit_odd a k : 0 <= k -> Z.testbit a k = Z.odd (a / 2 ^ k).
Proof. intros. rewrite Z.testbit_odd, Z.shiftr_div_pow2 by done. done. Qed.

Lemma odd_b2z b : Z.odd (b2z b) = b.
Proof. by destruct b. Qed.

Lemma add_bit a b c k : 0 <= k -> 0 <= c <= 1 ->
  Z.testbit (a + b + c) k =
  xorb (xorb (Z.testbit a k) (Z.testbit b k)) (2 ^ k <=? a mod 2 ^ k + b mod 2 ^ k + c).
Proof.
  intros Hk Hc. rewrite !testbit_odd by done. pose proof (Z.pow_pos_nonneg 2 k ltac:(lia) Hk) as HM.
  set (M := 2 ^ k) in *.
  pose proof (Z.mod_pos_bound a M HM). pose proof (Z.mod_pos_bound b M HM).
  pose proof (Z.div_mod a M ltac:(lia)). pose proof (Z.div_mod b M ltac:(lia)).
  assert ((a + b + c) / M = a / M + b / M + b2z (M <=? a mod M + b mod M + c)) as ->.
  { symmetry. apply (Z.div_unique_pos _ _ _ (a mod M + b mod M + c - M * b2z (M <=? a mod M + b mod M + c))).
    - unfold b2z. destruct (M <=? _) eqn:E; bool_prop; lia.
    - lia. }
  by rewrite !Z.odd_add, odd_b2z.
Qed.

Lemma sub_bit a b c k : 0 <= k -> 0 <= c <= 1 ->
  Z.testbit (a - b - c) k =
  xorb (xorb (Z.testbit a k) (Z.testbit b k)) (a mod 2 ^ k <? b mod 2 ^ k + c).
Proof.
  intros Hk Hc. rewrite !testbit_odd by done. pose proof (Z.pow_pos_nonneg 2 k ltac:(lia) Hk) as HM.
  set (M := 2 ^ k) in *.
  pose proof (Z.mod_pos_bound a M HM). pose proof (Z.mod_pos_bound b M HM).
  pose proof (Z.div_mod a M ltac:(lia)). pose proof (Z.div_mod b M ltac:(lia)).
  assert ((a - b - c) / M = a / M - b / M - b2z (a mod M <? b mod M + c)) as ->.
  { symmetry. apply (Z.div_unique_pos _ _ _ (a mod M - b mod M - c + M * b2z (a mod M <? b mod M + c))).
    - unfold b2z. destruct (_ <? _) eqn:E; bool_prop; lia.
    - lia. }
  by rewrite !Z.odd_sub, odd_b2z.
Qed.

Lemma wbits_pos w : 8 <= wbits w <= 32.
Proof. destruct w; unfold wbits, width_bytes; lia. Qed.

Lemma width_mask_ones w : width_mask w = Z.ones (wbits w).
Proof. by destruct w. Qed.

Lemma width_sign_bit w : width_sign w = bit (wbits w - 1).
Proof. by destruct w. Qed.

Lemma land_mask w z : Z.land z (width_mask w) = uint w z.
Proof. rewrite width_mask_ones. apply Z.land_ones. pose proof (wbits_pos w). lia. Qed.

Lemma uint_range w z : 0 <= uint w z < 2 ^ wbits w.
Proof. apply wrap_in_width. pose proof (wbits_pos w). lia. Qed.

Lemma wrap_wrap w w' z : 0 <= w' <= w -> wrap w' (wrap w z) = wrap w' z.
Proof.
  intros. unfold wrap. replace w with (w' + (w - w')) by lia.
  rewrite Z.pow_add_r, Z.rem_mul_r by (try apply Z.pow_nonzero; try apply Z.pow_pos_nonneg; lia).
  rewrite Z.mul_comm, Z.mod_add by (apply Z.pow_nonzero; lia). apply Z.mod_mod, Z.pow_nonzero; lia.
Qed.

Lemma uint_wrap w n z : 32 <= n -> uint w (wrap n z) = uint w z.
Proof. intros. pose proof (wbits_pos w). apply wrap_wrap. lia. Qed.

Lemma uint_uint w z : uint w (uint w z) = uint w z.
Proof. pose proof (wbits_pos w). apply wrap_wrap. lia. Qed.

Lemma uint_id w z : 0 <= z < 2 ^ wbits w -> uint w z = z.
Proof. apply wrap_id. Qed.

(** The top bit of an [n+1]-bit integer. *)
Lemma top_bit z n : 0 <= n /\ 0 <= z < 2 ^ (n + 1) -> Z.testbit z n = (2 ^ n <=? z).
Proof.
  intros [Hn Hz]. rewrite testbit_odd by done. rewrite Z.pow_add_r, Z.pow_1_r in Hz by lia.
  destruct (2 ^ n <=? z) eqn:E; bool_prop.
  - by rewrite <-(Z.div_unique_pos z (2 ^ n) 1 (z - 2 ^ n)) by lia.
  - by rewrite Z.div_small by lia.
Qed.

Lemma has_sign w z : 0 <= z < 2 ^ wbits w -> has z (width_sign w) = (2 ^ (wbits w - 1) <=? z).
Proof.
  intros Hz. rewrite width_sign_bit, has_bit by (pose proof (wbits_pos w); lia).
  apply top_bit. pose proof (wbits_pos w). replace (wbits w - 1 + 1) with (wbits w) by lia. lia.
Qed.

Lemma sint_uint w z : 0 <= z < 2 ^ wbits w ->
  sint w z = if 2 ^ (wbits w - 1) <=? z then z - 2 ^ wbits w else z.
Proof.
  intros. unfold sint, as_signed. rewrite wrap_id by done. rewrite Z.ltb_antisym. by destruct (_ <=? z).
Qed.

Lemma sint_neg w z : 0 <= z < 2 ^ wbits w -> has z (width_sign w) = (sint w z <? 0).
Proof.
  intros. rewrite has_sign, sint_uint by done. pose proof (Z.pow_pos_nonneg 2 (wbits w - 1)).
  pose proof (wbits_pos w). case_step; symmetry; [apply Z.ltb_lt|apply Z.ltb_ge]; lia.
Qed.

Lemma testbit_sign w z : has z (width_sign w) = Z.testbit z (wbits w - 1).
Proof. rewrite width_sign_bit. apply has_bit. pose proof (wbits_pos w). lia. Qed.

Lemma uint_add w a b c : 0 <= a < 2 ^ wbits w -> 0 <= b < 2 ^ wbits w -> 0 <= c <= 1 ->
  uint w (a + b + c) = if 2 ^ wbits w <=? a + b + c then a + b + c - 2 ^ wbits w else a + b + c.
Proof.
  intros. destruct (2 ^ wbits w <=? a + b + c) eqn:E; bool_prop.
  - unfold uint, wrap. symmetry. apply (Z.mod_unique_pos _ _ 1); lia.
  - apply uint_id. lia.
Qed.

Lemma uint_sub w a b c : 0 <= a < 2 ^ wbits w -> 0 <= b < 2 ^ wbits w -> 0 <= c <= 1 ->
  uint w (a - b - c) = if a <? b + c then a - b - c + 2 ^ wbits w else a - b - c.
Proof.
  intros. destruct (a <? b + c) eqn:E; bool_prop.
  - unfold uint, wrap. symmetry. apply (Z.mod_unique_pos _ _ (-1)); lia.
  - apply uint_id. lia.
Qed.

Lemma half w : 2 ^ wbits w = 2 * 2 ^ (wbits w - 1).
Proof. by destruct w. Qed.

Ltac signs w :=
  rewrite !testbit_sign, ?Z.land_spec, ?Z.lxor_spec, <-!testbit_sign, !has_sign by (assumption || apply uint_range);
  rewrite !sint_uint by (assumption || apply uint_range).

Ltac order_cases :=
  repeat match goal with
  | |- context [?x <=? ?y] => destruct (Z.leb_spec x y)
  | |- context [?x <? ?y] => destruct (Z.ltb_spec x y)
  end; simpl; try done; lia.

(** The sign test of the source is signed overflow. *)
Lemma overflow_add w a b c : 0 <= a < 2 ^ wbits w -> 0 <= b < 2 ^ wbits w -> 0 <= c <= 1 ->
  has (Z.land (Z.lxor a (uint w (a + b + c))) (Z.lxor b (uint w (a + b + c)))) (width_sign w) =
  negb (fits w (sint w a + sint w b + c)).
Proof.
  intros Ha Hb Hc. signs w. rewrite uint_add by done. unfold fits. rewrite half in *.
  set (H := 2 ^ (wbits w - 1)) in *. destruct (Z.leb_spec (2 * H) (a + b + c)); order_cases.
Qed.

Lemma overflow_sub w a b c : 0 <= a < 2 ^ wbits w -> 0 <= b < 2 ^ wbits w -> 0 <= c <= 1 ->
  has (Z.land (Z.lxor a b) (Z.lxor a (uint w (a - b - c)))) (width_sign w) =
  negb (fits w (sint w a - sint w b - c)).
Proof.
  intros Ha Hb Hc. signs w. rewrite uint_sub by done. unfold fits. rewrite half in *.
  set (H := 2 ^ (wbits w - 1)) in *. destruct (Z.ltb_spec a (b + c)); order_cases.
Qed.

Lemma uint_bit w z k : 0 <= k < 8 -> Z.testbit (uint w z) k = Z.testbit z k.
Proof. intros. apply Z.mod_pow2_bits_low. pose proof (wbits_pos w). lia. Qed.

(** The nibble test of the source is the carry out of bit 3. *)
Lemma nibble_add w a b c : 0 <= c <= 1 ->
  has (Z.lxor (Z.lxor a b) (uint w (a + b + c))) 16 = (16 <=? a mod 16 + b mod 16 + c).
Proof.
  intros. rewrite has_16, !Z.lxor_spec, uint_bit, add_bit by lia.
  change (2 ^ 4) with 16. by destruct (Z.testbit a 4), (Z.testbit b 4), (16 <=? _).
Qed.

Lemma nibble_sub w a b c : 0 <= c <= 1 ->
  has (Z.lxor (Z.lxor a b) (uint w (a - b - c))) 16 = (a mod 16 <? b mod 16 + c).
Proof.
  intros. rewrite has_16, !Z.lxor_spec, uint_bit, sub_bit by lia.
  change (2 ^ 4) with 16. by destruct (Z.testbit a 4), (Z.testbit b 4), (_ <? _).
Qed.

Lemma mask_lt w z : (width_mask w <? z) = (2 ^ wbits w <=? z).
Proof. rewrite width_mask_ones, Z.ones_equiv. apply eq_true_iff_eq. rewrite Z.ltb_lt, Z.leb_le. lia. Qed.

Lemma from_legacy_fields l :
  is_none (from_legacy l) = false /\ op (from_legacy l) = lop l /\ width (from_legacy l) = lwidth l /\
  cf_override (from_legacy l) = lcf_override l.
Proof. destruct l as [? ? ? [] [] [[]|]]; vm_compute; done. Qed.

(** The flags a result determines. *)
Lemma szp_result w r x : 0 <= r < 2 ^ wbits w ->
  szp_of r w x = result_flags w r (a_cf x) (a_af x) (a_of x).
Proof.
  intros Hr. unfold szp_of, result_flags. cbn.
  rewrite land_mask, uint_id, sint_neg by done. done.
Qed.

Lemma pending_result l af : 0 <= lresult l < 2 ^ wbits (lwidth l) ->
  pending_arith (from_legacy l) af =
  result_flags (lwidth l) (lresult l)
    (match lcf_override l with Some b => b | None =>
       match lop l with LazySub => la l <? lb l | LazyAdd => 2 ^ wbits (lwidth l) <=? la l + lb l
                   | LazyLogic => false end end)
    (match lop l with LazyLogic => af | _ => has (Z.lxor (Z.lxor (la l) (lb l)) (lresult l)) 16 end)
    (match lop l with
     | LazySub => has (Z.land (Z.lxor (la l) (lb l)) (Z.lxor (la l) (lresult l))) (width_sign (lwidth l))
     | LazyAdd => has (Z.land (Z.lxor (la l) (lresult l)) (Z.lxor (lb l) (lresult l))) (width_sign (lwidth l))
     | LazyLogic => false end).
Proof.
  intros Hr. destruct (from_legacy_fields l) as (_ & Ho & Hw & Hc).
  unfold pending_arith, result_flags. rewrite Ho, Hw, Hc. unfold from_legacy. cbn [pa pb presult].
  rewrite mask_lt, land_mask, uint_id, sint_neg by done. done.
Qed.

Lemma writes_lazy c e l x :
  0 <= lresult l < 2 ^ wbits (lwidth l) ->
  with_arith e (pending_arith (from_legacy l) (has e FLAG_AF)) = with_arith (eflags c) x ->
  writes c (set_pending (c <| eflags := e |>) l) x.
Proof.
  intros Hr Hx. apply writes_pending; [apply from_legacy_fields|done].
Qed.

Lemma writes_lazy_here c l x :
  0 <= lresult l < 2 ^ wbits (lwidth l) ->
  pending_arith (from_legacy l) (has (eflags c) FLAG_AF) = x ->
  writes c (set_pending c l) x.
Proof.
  intros Hr Hx. replace (set_pending c l) with (set_pending (c <| eflags := eflags c |>) l) by by destruct c.
  apply writes_lazy; [done|]. by rewrite Hx.
Qed.

(* ------------------------------------------------------------------ *)
(** ** Every operation against the reference arithmetic *)

Lemma writes_eager c cf ovf af r w : 0 <= r < 2 ^ wbits w ->
  writes c (set_szp (set_flag (set_flag (set_flag c FLAG_CF cf) FLAG_OF ovf) FLAG_AF af) r w)
    (result_flags w r cf af ovf).
Proof.
  intros Hr.
  pose proof (set_CF c cf) as H1. set (c1 := set_flag c _ cf) in *.
  pose proof (set_OF c1 ovf) as H2. set (c2 := set_flag c1 _ ovf) in *.
  pose proof (set_AF c2 af) as H3. set (c3 := set_flag c2 _ af) in *.
  pose proof (writes_szp c3 r w) as H4.
  rewrite (arith_of_written _ _ _ H1) in H2. rewrite (arith_of_written _ _ _ H2) in H3.
  rewrite (arith_of_written _ _ _ H3), szp_result in H4 by done.
  exact (writes_trans _ _ _ _ _ H1 (writes_trans _ _ _ _ _ H2 (writes_trans _ _ _ _ _ H3 H4))).
Qed.

Lemma uint_add_uint w a b c : uint w (uint w a + uint w b + c) = uint w (a + b + c).
Proof.
  unfold uint, wrap. rewrite <-Z.add_assoc, Z.add_mod_idemp_l, Z.add_assoc, (Z.add_comm a), <-Z.add_assoc,
    Z.add_mod_idemp_l by (pose proof (wbits_pos w); apply Z.pow_nonzero; lia). f_equal. lia.
Qed.

Lemma uint_sub_uint w a b c : uint w (uint w a - uint w b - c) = uint w (a - b - c).
Proof.
  unfold uint, wrap. assert (2 ^ wbits w <> 0) by (pose proof (wbits_pos w); apply Z.pow_nonzero; lia).
  rewrite (Z.mod_eq a), (Z.mod_eq b) by done.
  replace (_ - _ - c) with (a - b - c + (b / 2 ^ wbits w - a / 2 ^ wbits w) * 2 ^ wbits w) by ring.
  by rewrite Z.mod_add.
Qed.

Lemma alu_add_spec c a b carry w : 0 <= carry <= 1 ->
  let '(r, c') := alu_add c a b carry w in
  r = uint w (a + b + carry) /\ writes c c' (add_flags w (uint w a) (uint w b) carry).
Proof.
  intros Hc. unfold alu_add, add_flags. pose proof (uint_range w a). pose proof (uint_range w b).
  destruct (carry =? 0) eqn:E0; simpl negb; cbn iota; bool_prop.
  - subst carry. cbv zeta. rewrite !land_mask, uint_wrap by lia.
    rewrite <-(Z.add_0_r (uint w a + uint w b)). split; [apply uint_add_uint|].
    apply writes_lazy_here; cbn [lresult lwidth]; [apply uint_range|].
    rewrite pending_result by (apply uint_range).
    cbn [lcf_override lop la lb lresult lwidth]. rewrite overflow_add, nibble_add by lia.
    by rewrite !Z.add_0_r.
  - unfold alu_add_eager. cbv zeta. rewrite !land_mask, uint_wrap, mask_lt by lia.
    split; [apply uint_add_uint|]. rewrite overflow_add, nibble_add by lia.
    apply writes_eager, uint_range.
Qed.

Lemma alu_sub_spec c a b borrow w : 0 <= borrow <= 1 ->
  let '(r, c') := alu_sub c a b borrow w in
  r = uint w (a - b - borrow) /\ writes c c' (sub_flags w (uint w a) (uint w b) borrow).
Proof.
  intros Hc. unfold alu_sub, sub_flags. pose proof (uint_range w a). pose proof (uint_range w b).
  destruct (borrow =? 0) eqn:E0; simpl negb; cbn iota; bool_prop.
  - subst borrow. cbv zeta. rewrite !land_mask, !uint_wrap by lia.
    rewrite <-(Z.sub_0_r (uint w a - uint w b)). split; [apply uint_sub_uint|].
    apply writes_lazy_here; cbn [lresult lwidth]; [apply uint_range|].
    rewrite pending_result by (apply uint_range).
    cbn [lcf_override lop la lb lresult lwidth]. rewrite overflow_sub, nibble_sub by lia.
    by rewrite !Z.sub_0_r, !Z.add_0_r.
  - unfold alu_sub_eager. cbv zeta. rewrite !land_mask, !uint_wrap by lia.
    rewrite Z.sub_add_distr. split; [apply uint_sub_uint|]. rewrite overflow_sub, nibble_sub by lia.
    apply writes_eager, uint_range.
Qed.

Lemma alu_logic_spec c result w :
  let '(r, c') := alu_logic c result w in
  r = uint w result /\ writes c c' (result_flags w r false (Z.testbit (arch c) 4) false).
Proof.
  unfold alu_logic. rewrite land_mask. cbv zeta. split; [done|].
  set (p := negb (is_none (pending_flags c)) && _).
  set (e := if p then put_flag (eflags c) FLAG_AF (arith_flag c FLAG_AF) else eflags c).
  replace (if p then c <| eflags := put_flag (eflags c) FLAG_AF (arith_flag c FLAG_AF) |> else c)
    with (c <| eflags := e |>) by (subst e; destruct p; by destruct c).
  change (c <| eflags := e |> <| eflags := Z.lor (eflags (c <| eflags := e |>)) 2 |>)
    with (c <| eflags := Z.lor e 2 |>).
  assert (Haf : Z.testbit e 4 = Z.testbit (arch c) 4).
  { subst e p. rewrite <-flag_AF. unfold flag.
    replace (has FLAG_AF ARITH && (Z.ldiff FLAG_AF ARITH =? 0)) with true by done. rewrite <-andb_assoc.
    destruct (is_none (pending_flags c)) eqn:Hp; simpl negb; simpl andb; cbn iota.
    { symmetry. apply (has_16 (eflags c)). }
    destruct (op (pending_flags c)) eqn:Ho; simpl negb; cbn iota;
      [by rewrite testbit_put_flag..|]. unfold arith_flag. rewrite Hp, Ho. symmetry. apply (has_16 (eflags c)). }
  apply writes_lazy; cbn [lresult lwidth]; [apply uint_range|].
  rewrite pending_result by apply uint_range. cbn [lcf_override lop la lb lresult lwidth].
  replace (has (Z.lor e 2) FLAG_AF) with (Z.testbit (arch c) 4).
  2: { unfold FLAG_AF. rewrite has_16, Z.lor_spec, Haf. by rewrite orb_false_r. }
  apply with_arith_same. intros n Hn Hout. rewrite Z.lor_spec. elsewhere Hn Hout. rewrite orb_false_r.
  subst e. destruct p; [|done]. rewrite testbit_put_flag by done. unfold FLAG_AF. by elsewhere Hn Hout.
Qed.

Lemma inc_dec_spec c value is_dec w :
  let '(r, c') := inc_dec c value is_dec w in
  let x := if is_dec then sub_flags w (uint w value) 1 0 else add_flags w (uint w value) 1 0 in
  r = uint w (if is_dec then value - 1 else value + 1) /\
  writes c c' (x <| a_cf := Z.testbit (arch c) 0 |>).
Proof.
  unfold inc_dec, add_flags, sub_flags. pose proof (uint_range w value).
  assert (uint w 1 = 1) as H1 by (by destruct w).
  assert (0 <= 1 < 2 ^ wbits w) by (by destruct w).
  rewrite flag_CF. destruct is_dec; cbv zeta; rewrite !land_mask, uint_wrap by lia.
  - replace (uint w (uint w value - 1)) with (uint w (uint w value - 1 - 0)) by (f_equal; lia).
    split. { rewrite <-H1 at 1. rewrite uint_sub_uint. f_equal. lia. }
    apply writes_lazy_here; cbn [lresult lwidth]; [apply uint_range|].
    rewrite pending_result by (apply uint_range). cbn [lcf_override lop la lb lresult lwidth].
    by rewrite overflow_sub, nibble_sub by lia.
  - replace (uint w (uint w value + 1)) with (uint w (uint w value + 1 + 0)) by (f_equal; lia).
    split. { rewrite <-H1 at 1. rewrite uint_add_uint. f_equal. lia. }
    apply writes_lazy_here; cbn [lresult lwidth]; [apply uint_range|].
    rewrite pending_result by (apply uint_range). cbn [lcf_override lop la lb lresult lwidth].
    by rewrite overflow_add, nibble_add by lia.
Qed.

(** The eight ALU operations as arithmetic: the result and the flags. *)
Definition alu_ref (op a b : Z) (w : BusWidth) (before : Arith) : option (Z * Arith) :=
  let ua := uint w a in let ub := uint w b in let cin := b2z (a_cf before) in
  let logic r := Some (uint w r, result_flags w (uint w r) false (a_af before) false) in
  match op with
  | 0 => Some (uint w (a + b), add_flags w ua ub 0)
  | 1 => logic (Z.lor a b)
  | 2 => Some (uint w (a + b + cin), add_flags w ua ub cin)
  | 3 => Some (uint w (a - b - cin), sub_flags w ua ub cin)
  | 4 => logic (Z.land a b)
  | 5 | 7 => Some (uint w (a - b), sub_flags w ua ub 0)
  | 6 => logic (Z.lxor a b)
  | _ => None
  end.

Lemma b2z_range b : 0 <= b2z b <= 1.
Proof. destruct b; cbn; lia. Qed.

Lemma alu_spec c o a b w :
  match alu_ref o a b w (arith_of (arch c)) with
  | Some (r, x) => exists c', alu c o a b w = Some (r, c') /\ writes c c' x
  | None => alu c o a b w = None
  end.
Proof.
  assert (Hadd : forall k, 0 <= k <= 1 -> exists c',
    Some (alu_add c a b k w) = Some (uint w (a + b + k), c') /\ writes c c' (add_flags w (uint w a) (uint w b) k)).
  { intros k Hk. pose proof (alu_add_spec c a b k w Hk) as H.
    destruct (alu_add c a b k w) as [r c']. destruct H as [-> H]. eauto. }
  assert (Hsub : forall k, 0 <= k <= 1 -> exists c',
    Some (alu_sub c a b k w) = Some (uint w (a - b - k), c') /\ writes c c' (sub_flags w (uint w a) (uint w b) k)).
  { intros k Hk. pose proof (alu_sub_spec c a b k w Hk) as H.
    destruct (alu_sub c a b k w) as [r c']. destruct H as [-> H]. eauto. }
  assert (Hlogic : forall r, exists c',
    Some (alu_logic c (Z.land r (width_mask w)) w) = Some (uint w r, c') /\
    writes c c' (result_flags w (uint w r) false (a_af (arith_of (arch c))) false)).
  { intros r. pose proof (alu_logic_spec c (Z.land r (width_mask w)) w) as H.
    destruct (alu_logic c _ w) as [r' c']. destruct H as [-> H].
    rewrite land_mask, uint_uint in H |- *. eauto. }
  pose proof (Hadd 0 ltac:(lia)) as Hadd0. pose proof (Hsub 0 ltac:(lia)) as Hsub0.
  rewrite Z.add_0_r in Hadd0. rewrite Z.sub_0_r in Hsub0.
  unfold alu_ref, alu. rewrite !flag_CF. change (Z.testbit (arch c) 0) with (a_cf (arith_of (arch c))).
  pose proof (b2z_range (a_cf (arith_of (arch c)))) as Hc.
  destruct o as [|[[[]|[]|]|[[]|[]|]|]|]; cbv zeta; auto.
Qed.

(** C29.  The ALU computes what its operation means: the result is the sum,
    difference or bitwise combination modulo the width, CF is unsigned carry or
    borrow, AF the carry between nibbles, OF signed overflow, ZF, SF and PF those of
    the result, logical operations clear CF and OF and keep AF, and nothing else
    of the processor changes - whatever flags are still pending from before. *)
Theorem alu_exact c o a b w :
  match alu_ref o a b w (arith_of (arch c)) with
  | Some (r, x) => exists c', alu c o a b w = Some (r, c') /\ writes c c' x
  | None => alu c o a b w = None
  end.
Proof. exact (alu_spec c o a b w). Qed.

(* ------------------------------------------------------------------ *)
(** ** Comparisons *)

Lemma uint_eq_sub w a b : 0 <= a < 2 ^ wbits w -> 0 <= b < 2 ^ wbits w ->
  (uint w (a - b) =? 0) = (a =? b).
Proof.
  intros. pose proof (uint_sub w a b 0) as E. rewrite !Z.sub_0_r, Z.add_0_r in E. rewrite E by lia.
  apply eq_true_iff_eq. rewrite !Z.eqb_eq. destruct (Z.ltb_spec a b); lia.
Qed.

Lemma sint_eq w a b : 0 <= a < 2 ^ wbits w -> 0 <= b < 2 ^ wbits w -> (sint w a =? sint w b) = (a =? b).
Proof.
  intros. rewrite !sint_uint by done. rewrite half in *. 
  apply eq_true_iff_eq. rewrite !Z.eqb_eq.
  destruct (Z.leb_spec (2 ^ (wbits w - 1)) a), (Z.leb_spec (2 ^ (wbits w - 1)) b); lia.
Qed.

(** The sign of the difference, corrected by overflow. *)
Lemma signed_less w a b : 0 <= a < 2 ^ wbits w -> 0 <= b < 2 ^ wbits w ->
  xorb (sint w (uint w (a - b)) <? 0) (negb (fits w (sint w a - sint w b))) = (sint w a <? sint w b).
Proof.
  intros. pose proof (uint_sub w a b 0) as E. rewrite !Z.sub_0_r, Z.add_0_r in E.
  rewrite !sint_uint by (done || apply uint_range). rewrite E by lia. unfold fits. rewrite half in *.
  set (H' := 2 ^ (wbits w - 1)) in *. destruct (Z.ltb_spec a b); order_cases.
Qed.

(** The condition codes on a set of flags. *)
Definition condition_of (x : Arith) (cond : Z) : bool :=
  match cond with
  | 0 => a_of x | 1 => negb (a_of x)
  | 2 => a_cf x | 3 => negb (a_cf x)
  | 4 => a_zf x | 5 => negb (a_zf x)
  | 6 => a_cf x || a_zf x | 7 => negb (a_cf x) && negb (a_zf x)
  | 8 => a_sf x | 9 => negb (a_sf x)
  | 10 => a_pf x | 11 => negb (a_pf x)
  | 12 => xorb (a_sf x) (a_of x) | 13 => eqb (a_sf x) (a_of x)
  | 14 => a_zf x || xorb (a_sf x) (a_of x)
  | _ => negb (a_zf x) && eqb (a_sf x) (a_of x)
  end.

Lemma condition_arch c cond : condition c cond = condition_of (arith_of (arch c)) cond.
Proof. unfold condition. by rewrite flag_CF, flag_ZF, flag_SF, flag_OF, flag_PF. Qed.

Lemma eqb_xorb a b : eqb a b = negb (xorb a b).
Proof. by destruct a, b. Qed.

(** The unsigned and signed relations, in the order of the condition codes. *)
Definition relation_ref (w : BusWidth) (a b cond : Z) : option bool :=
  let ua := uint w a in let ub := uint w b in let sa := sint w a in let sb := sint w b in
  match cond with
  | 0 => Some (negb (fits w (sa - sb))) | 1 => Some (fits w (sa - sb))
  | 2 => Some (ua <? ub) | 3 => Some (ub <=? ua)
  | 4 => Some (ua =? ub) | 5 => Some (negb (ua =? ub))
  | 6 => Some (ua <=? ub) | 7 => Some (ub <? ua)
  | 12 => Some (sa <? sb) | 13 => Some (sb <=? sa)
  | 14 => Some (sa <=? sb) | 15 => Some (sb <? sa)
  | _ => None
  end.

Lemma sint_of_uint w a : sint w (uint w a) = sint w a.
Proof. unfold sint, as_signed. pose proof (wbits_pos w). unfold uint. by rewrite wrap_wrap by lia. Qed.

(** A comparison followed by a conditional branch decides the relation the
    condition is named after: after CMP, the condition codes 0-7 and 12-15 are
    signed overflow, below, equal, below-or-equal, less, less-or-equal and their
    negations on the operands read as unsigned or as two's complement integers of
    the operand width. *)
Theorem compare_conditions c a b w cond v :
  relation_ref w a b cond = Some v ->
  exists r c', alu c 7 a b w = Some (r, c') /\ condition c' cond = v /\ gpr c' = gpr c.
Proof.
  intros Hv. pose proof (alu_sub_spec c a b 0 w ltac:(lia)) as H.
  unfold alu. destruct (alu_sub c a b 0 w) as [r c']. destruct H as [_ H]. exists r, c'.
  split; [done|]. split; [|apply H]. rewrite condition_arch, (arith_of_written _ _ _ H).
  pose proof (uint_range w a) as Ha. pose proof (uint_range w b) as Hb.
  unfold sub_flags, result_flags, condition_of, relation_ref in *. cbn [a_cf a_pf a_af a_zf a_sf a_of].
  rewrite !Z.sub_0_r, !Z.add_0_r, !eqb_xorb, signed_less, uint_eq_sub by done.
  pose proof (sint_eq w (uint w a) (uint w b) Ha Hb) as He. rewrite !sint_of_uint in *.
  set (ua := uint w a) in *. set (ub := uint w b) in *. set (sa := sint w a) in *. set (sb := sint w b) in *.
  clearbody ua ub sa sb. clear H Ha Hb.
  destruct cond as [|[[[[]|[]|]|[[]|[]|]|]|[[[]|[]|]|[[]|[]|]|]|]|]; try discriminate Hv;
    injection Hv as <-; rewrite ?negb_involutive; try done;
    destruct (Z.eqb_spec ua ub), (Z.eqb_spec sa sb); try discriminate He; order_cases.
Qed.

(** A processor with cleared registers, for examples. *)
Definition sample : Cpu := mkCpu (replicate 8 0) 2 no_pending 0 false 0.

Lemma compare_conditions_witness :
  relation_ref Byte 200 100 12 = Some true /\
  exists r c', alu sample 7 200 100 Byte = Some (r, c') /\ condition c' 12 = true /\ gpr c' = gpr sample.
Proof. split; [reflexivity|]. apply (compare_conditions sample 200 100 Byte 12 true). reflexivity. Defined.

(* ------------------------------------------------------------------ *)
(** ** Multi-word arithmetic *)

(** The same operation on successive words, least significant first. *)
Fixpoint word_chain (c : Cpu) (o : Z) (words : list (Z * Z)) (w : BusWidth) : option (list Z * Cpu) :=
  match words with
  | [] => Some ([], c)
  | (a, b) :: rest =>
      '(r, c) ← alu c o a b w;
      '(rs, c) ← word_chain c o rest w;
      Some (r :: rs, c)
  end.

Definition words_value (w : BusWidth) (ws : list Z) : Z :=
  foldr (fun x v => x + 2 ^ wbits w * v) 0 ws.

Definition carry (c : Cpu) : Z := b2z (flag c FLAG_CF).

Lemma carry_arch c : carry c = b2z (a_cf (arith_of (arch c))).
Proof. unfold carry. by rewrite flag_CF. Qed.

Lemma word_add c a b w : 0 <= a < 2 ^ wbits w -> 0 <= b < 2 ^ wbits w ->
  exists r c', alu c 2 a b w = Some (r, c') /\ 0 <= r < 2 ^ wbits w /\
    r + 2 ^ wbits w * carry c' = a + b + carry c.
Proof.
  intros Ha Hb. pose proof (alu_spec c 2 a b w) as H. cbn [alu_ref] in H. destruct H as (c' & H & Hw).
  rewrite <-carry_arch in *. pose proof (b2z_range (flag c FLAG_CF)) as Hc. fold (carry c) in Hc.
  eexists _, c'. split; [exact H|]. split; [apply uint_range|].
  rewrite (carry_arch c'), (arith_of_written _ _ _ Hw). cbn [add_flags result_flags a_cf].
  rewrite (uint_id w a Ha), (uint_id w b Hb). rewrite uint_add by done. unfold b2z at 1. destruct (2 ^ wbits w <=? _); lia.
Qed.

Lemma word_sub c a b w : 0 <= a < 2 ^ wbits w -> 0 <= b < 2 ^ wbits w ->
  exists r c', alu c 3 a b w = Some (r, c') /\ 0 <= r < 2 ^ wbits w /\
    r - 2 ^ wbits w * carry c' = a - b - carry c.
Proof.
  intros Ha Hb. pose proof (alu_spec c 3 a b w) as H. cbn [alu_ref] in H. destruct H as (c' & H & Hw).
  rewrite <-carry_arch in *. pose proof (b2z_range (flag c FLAG_CF)) as Hc. fold (carry c) in Hc.
  eexists _, c'. split; [exact H|]. split; [apply uint_range|].
  rewrite (carry_arch c'), (arith_of_written _ _ _ Hw). cbn [sub_flags result_flags a_cf].
  rewrite (uint_id w a Ha), (uint_id w b Hb). rewrite uint_sub by done. unfold b2z at 1. destruct (a <? _); lia.
Qed.

Definition words_ok (w : BusWidth) (x : Z * Z) : Prop := 0 <= x.1 < 2 ^ wbits w /\ 0 <= x.2 < 2 ^ wbits w.

(** ADC and SBB carry exactly: run over successive words of two numbers of any
    length, they leave the words of the sum (difference) and the last carry (borrow)
    in CF, so that words and CF together are the mathematical result. *)
Theorem multiword_exact c words w :
  Forall (words_ok w) words ->
  let a := words_value w (map fst words) in
  let b := words_value w (map snd words) in
  let top := 2 ^ (wbits w * zlen words) in
  (exists rs c', word_chain c 2 words w = Some (rs, c') /\ Forall (fun r => 0 <= r < 2 ^ wbits w) rs /\
     words_value w rs + top * carry c' = a + b + carry c) /\
  (exists rs c', word_chain c 3 words w = Some (rs, c') /\ Forall (fun r => 0 <= r < 2 ^ wbits w) rs /\
     words_value w rs - top * carry c' = a - b - carry c).
Proof.
  intros Hw. cbv zeta. split; revert c; induction Hw as [|[a b] words [Ha Hb] Hw IH]; intros c.
  1, 3: exists [], c; split_and!; [done|constructor|unfold zlen; cbn [length Z.of_nat words_value foldr map]; rewrite Z.mul_0_r; lia].
  - destruct (word_add c a b w Ha Hb) as (r & c1 & E & Hr & Er).
    destruct (IH c1) as (rs & c2 & E2 & Hrs & Ers). exists (r :: rs), c2.
    cbn [word_chain]. rewrite E. cbn. rewrite E2. split_and!; [done|by constructor|].
    rewrite zlen_cons, Z.mul_add_distr_l, Z.mul_1_r, Z.pow_add_r
      by (pose proof (wbits_pos w); pose proof (zlen_nonneg words); nia).
    fold (words_value w rs). fold (words_value w (map fst words)) (words_value w (map snd words)). nia.
  - destruct (word_sub c a b w Ha Hb) as (r & c1 & E & Hr & Er).
    destruct (IH c1) as (rs & c2 & E2 & Hrs & Ers). exists (r :: rs), c2.
    cbn [word_chain]. rewrite E. cbn. rewrite E2. split_and!; [done|by constructor|].
    rewrite zlen_cons, Z.mul_add_distr_l, Z.mul_1_r, Z.pow_add_r
      by (pose proof (wbits_pos w); pose proof (zlen_nonneg words); nia).
    fold (words_value w rs). fold (words_value w (map fst words)) (words_value w (map snd words)). nia.
Qed.

Lemma multiword_exact_witness :
  Forall (words_ok Word) [(65535, 1); (65535, 0)] /\
  exists rs c', word_chain sample 2 [(65535, 1); (65535, 0)] Word = Some (rs, c') /\
    words_value Word rs + 2 ^ 32 * carry c' = 2 ^ 32.
Proof.
  assert (H : Forall (words_ok Word) [(65535, 1); (65535, 0)])
    by (repeat constructor; vm_compute; intros; discriminate).
  split; [exact H|]. destruct (multiword_exact sample _ Word H) as [(rs & c' & E & _ & V) _].
  exists rs, c'. split; [exact E|exact V].
Defined.

End Alu.
