(* ===== verification/CpuShift.v ===== *)
(** * Shifts and rotates

    [shift_rotate] and [double_shift] of crates/izarravm-cpu/src/core.rs iterate
    single-bit steps, up to 31 of them.  The loops are characterised in closed form:
    multiplication and floor division by a power of two, rotation of the operand, and
    rotation of the operand with the carry flag as one more bit. *)

From Stdlib Require Import Btauto.
From S2P Require Import Prelude Memory CpuFlags CpuAlu.
Import CpuFlags.Flags CpuAlu.Alu.

Module Shift.

(* ------------------------------------------------------------------ *)
(** ** Bits of one step *)

Lemma mask_bit w i : 0 <= i -> Z.testbit (width_mask w) i = (i <? wbits w).
Proof.
  intros. rewrite width_mask_ones. pose proof (wbits_pos w).
  destruct (Z.ltb_spec i (wbits w)); [by apply Z.ones_spec_low; lia|by apply Z.ones_spec_high; lia].
Qed.

Lemma wrap_bit n z i : 0 <= n -> 0 <= i -> Z.testbit (wrap n z) i = (i <? n) && Z.testbit z i.
Proof.
  intros. unfold wrap. destruct (Z.ltb_spec i n).
  - by rewrite Z.mod_pow2_bits_low by lia.
  - by rewrite Z.mod_pow2_bits_high by lia.
Qed.

Lemma b2z_bit b i : 0 <= i -> Z.testbit (b2z b) i = (i =? 0) && b.
Proof.
  intros. destruct b; cbn [b2z]; [|by rewrite Z.bits_0, andb_false_r].
  rewrite andb_true_r. destruct (Z.eqb_spec i 0) as [->|]; [done|].
  change 1 with (2 ^ 0). by apply Z.pow2_bits_false.
Qed.

Lemma has_1 v : has v 1 = Z.testbit v 0.
Proof. exact (has_bit v 0 ltac:(lia)). Qed.

Lemma high_bit w v i : 0 <= v < 2 ^ wbits w -> wbits w <= i -> Z.testbit v i = false.
Proof. intros. pose proof (wbits_pos w). by apply (testbit_high (wbits w)); [lia|..]. Qed.

(** A left step with the bit [b] coming in at the bottom. *)
Lemma left_bit w v b i : 0 <= i ->
  Z.testbit (Z.land (Z.lor (wrap 32 (Z.shiftl v 1)) (b2z b)) (width_mask w)) i =
  (i <? wbits w) && (if i =? 0 then b else Z.testbit v (i - 1)).
Proof.
  intros. rewrite Z.land_spec, Z.lor_spec, mask_bit, b2z_bit, wrap_bit, Z.shiftl_spec by lia.
  pose proof (wbits_pos w). destruct (Z.eqb_spec i 0) as [->|].
  - rewrite (Z.testbit_neg_r v) by lia. rewrite andb_false_r. cbn [andb orb]. apply andb_comm.
  - cbn [andb]. rewrite orb_false_r. destruct (Z.ltb_spec i (wbits w)).
    + replace (i <? 32) with true by (symmetry; apply Z.ltb_lt; lia). by rewrite andb_true_r.
    + by rewrite andb_false_r.
Qed.

(** A right step with the bit [b] coming in at the top. *)
Lemma right_bit w v b i : 0 <= v < 2 ^ wbits w -> 0 <= i ->
  Z.testbit (Z.lor (Z.shiftr v 1) (wrap 32 (Z.shiftl (b2z b) (wbits w - 1)))) i =
  if i =? wbits w - 1 then b else Z.testbit v (i + 1).
Proof.
  intros Hv Hi. pose proof (wbits_pos w).
  rewrite Z.lor_spec, Z.shiftr_spec, wrap_bit, Z.shiftl_spec by lia.
  destruct (Z.ltb_spec i (wbits w - 1)).
  - rewrite (Z.testbit_neg_r (b2z b)) by lia. rewrite andb_false_r, orb_false_r.
    by rewrite (proj2 (Z.eqb_neq i _)) by lia.
  - rewrite (high_bit w v (i + 1)) by lia. rewrite b2z_bit by lia. cbn [orb].
    destruct (Z.eqb_spec i (wbits w - 1)) as [->|].
    + rewrite Z.sub_diag. replace (wbits w - 1 <? 32) with true by (symmetry; apply Z.ltb_lt; lia). done.
    + rewrite (proj2 (Z.eqb_neq (i - (wbits w - 1)) 0)) by lia. apply andb_false_r.
Qed.

Lemma range_of_bits w z : 0 <= z -> (forall i, wbits w <= i -> Z.testbit z i = false) -> 0 <= z < 2 ^ wbits w.
Proof. intros. apply in_width_bits; [pose proof (wbits_pos w); lia|done..]. Qed.

Lemma left_range w z : 0 <= Z.land z (width_mask w) < 2 ^ wbits w.
Proof. rewrite land_mask. apply uint_range. Qed.

Lemma right_range w v b : 0 <= v < 2 ^ wbits w ->
  0 <= Z.lor (Z.shiftr v 1) (wrap 32 (Z.shiftl (b2z b) (wbits w - 1))) < 2 ^ wbits w.
Proof.
  intros Hv. apply range_of_bits.
  - apply Z.lor_nonneg. split; [apply Z.shiftr_nonneg; lia|apply wrap_in_width; lia].
  - intros i Hi. pose proof (wbits_pos w). rewrite right_bit by lia.
    rewrite (proj2 (Z.eqb_neq i _)) by lia. apply (high_bit w); lia.
Qed.

(* ------------------------------------------------------------------ *)
(** ** The loop in closed form *)

(** The operand with the carry above its top bit. *)
Definition ring (w : BusWidth) (v : Z) (cf : bool) (i : Z) : bool :=
  if i =? wbits w then cf else Z.testbit v i.

(** What [k] steps of operation [op] make of [(v, cf)]. *)
Definition shifted (op : Z) (w : BusWidth) (v : Z) (cf : bool) (k v' : Z) (cf' : bool) : Prop :=
  let n := wbits w in
  match op with
  | 0 => (forall i, 0 <= i < n -> Z.testbit v' i = Z.testbit v ((i - k) mod n)) /\ cf' = Z.testbit v' 0
  | 1 => (forall i, 0 <= i < n -> Z.testbit v' i = Z.testbit v ((i + k) mod n)) /\ cf' = Z.testbit v' (n - 1)
  | 2 => forall i, 0 <= i <= n -> ring w v' cf' i = ring w v cf ((i - k) mod (n + 1))
  | 3 => forall i, 0 <= i <= n -> ring w v' cf' i = ring w v cf ((i + k) mod (n + 1))
  | 4 | 6 => v' = uint w (v * 2 ^ k) /\ cf' = Z.testbit v (n - k)
  | 5 => v' = v / 2 ^ k /\ cf' = Z.testbit v (k - 1)
  | 7 => v' = uint w (sint w v / 2 ^ k) /\ cf' = Z.testbit (sint w v) (k - 1)
  | _ => False
  end.

Section Loop.
Context (op : Z) (w : BusWidth).

Abbreviation step := (shift_step op (width_mask w) (width_sign w) (wbits w)).
Abbreviation loop := (shift_loop op (width_mask w) (width_sign w) (wbits w)).

(** A loop invariant of the steps taken. *)
Lemma loop_invariant (Inv : Z -> Z -> bool -> Prop) v cf :
  0 <= v < 2 ^ wbits w -> Inv 0 v cf ->
  (forall k v cf, 0 <= k -> 0 <= v < 2 ^ wbits w -> Inv k v cf ->
    exists v' cf', step (v, cf) = Some (v', cf') /\ 0 <= v' < 2 ^ wbits w /\ Inv (k + 1) v' cf') ->
  forall count, exists v' cf', loop count (v, cf) = Some (v', cf') /\
    0 <= v' < 2 ^ wbits w /\ Inv (Z.of_nat count) v' cf'.
Proof.
  intros Hv H0 Hstep count. induction count as [|count (v' & cf' & E & Hr & Hi)]; [by exists v, cf|].
  destruct (Hstep (Z.of_nat count) v' cf') as (v'' & cf'' & E' & Hr' & Hi'); [lia|done..|].
  exists v'', cf''. rewrite Nat2Z.inj_succ. split_and!; [|apply Hr'..|exact Hi'].
  unfold loop in *. rewrite Nat.iter_succ, E. exact E'.
Qed.
End Loop.

Lemma wrapped_index n a b q : n <> 0 -> a = b + q * n -> a mod n = b mod n.
Proof. intros Hn ->. by apply Z.mod_add. Qed.

Lemma sign_at w v : has v (width_sign w) = Z.testbit v (wbits w - 1).
Proof. apply testbit_sign. Qed.

Lemma loop_rol w v cf count : 0 <= v < 2 ^ wbits w -> (0 < count)%nat ->
  exists v' cf', shift_loop 0 (width_mask w) (width_sign w) (wbits w) count (v, cf) = Some (v', cf') /\
    0 <= v' < 2 ^ wbits w /\ shifted 0 w v cf (Z.of_nat count) v' cf'.
Proof.
  intros Hv Hc. pose proof (wbits_pos w).
  destruct (loop_invariant 0 w (fun k v' cf' =>
    (forall i, 0 <= i < wbits w -> Z.testbit v' i = Z.testbit v ((i - k) mod wbits w)) /\
    (0 < k -> cf' = Z.testbit v' 0)) v cf Hv) with (count := count) as (v' & cf' & E & Hr & Hi & Hf).
  - split; [|lia]. intros i Hi. by rewrite Z.sub_0_r, Z.mod_small by lia.
  - intros k v1 cf1 Hk Hv1 [Hi _]. eexists _, _. split; [reflexivity|]. split; [apply left_range|].
    rewrite sign_at. split.
    + intros i Hi'. rewrite left_bit by lia. rewrite (proj2 (Z.ltb_lt i _)) by lia.
      destruct (Z.eqb_spec i 0) as [->|]; cbn [andb]; rewrite Hi by lia; f_equal.
      * apply (wrapped_index _ _ _ 1); lia.
      * f_equal; lia.
    + intros _. rewrite left_bit by lia. by rewrite (proj2 (Z.ltb_lt 0 _)) by lia.
  - exists v', cf'. split; [done|]. split; [done|]. split; [done|]. apply Hf. lia.
Qed.

Lemma loop_ror w v cf count : 0 <= v < 2 ^ wbits w -> (0 < count)%nat ->
  exists v' cf', shift_loop 1 (width_mask w) (width_sign w) (wbits w) count (v, cf) = Some (v', cf') /\
    0 <= v' < 2 ^ wbits w /\ shifted 1 w v cf (Z.of_nat count) v' cf'.
Proof.
  intros Hv Hc. pose proof (wbits_pos w).
  destruct (loop_invariant 1 w (fun k v' cf' =>
    (forall i, 0 <= i < wbits w -> Z.testbit v' i = Z.testbit v ((i + k) mod wbits w)) /\
    (0 < k -> cf' = Z.testbit v' (wbits w - 1))) v cf Hv) with (count := count) as (v' & cf' & E & Hr & Hi & Hf).
  - split; [|lia]. intros i Hi. by rewrite Z.add_0_r, Z.mod_small by lia.
  - intros k v1 cf1 Hk Hv1 [Hi _]. eexists _, _. split; [reflexivity|]. split; [by apply right_range|].
    rewrite has_1. split.
    + intros i Hi'. rewrite right_bit by lia.
      destruct (Z.eqb_spec i (wbits w - 1)) as [->|]; rewrite Hi by lia; f_equal.
      * apply (wrapped_index _ _ _ (-1)); lia.
      * f_equal; lia.
    + intros _. rewrite right_bit by lia. by rewrite Z.eqb_refl.
  - exists v', cf'. split; [done|]. split; [done|]. split; [done|]. apply Hf. lia.
Qed.

Lemma loop_rcl w v cf count : 0 <= v < 2 ^ wbits w ->
  exists v' cf', shift_loop 2 (width_mask w) (width_sign w) (wbits w) count (v, cf) = Some (v', cf') /\
    0 <= v' < 2 ^ wbits w /\ shifted 2 w v cf (Z.of_nat count) v' cf'.
Proof.
  intros Hv. pose proof (wbits_pos w).
  apply (loop_invariant 2 w (fun k v' cf' => shifted 2 w v cf k v' cf')); [done|..]; unfold shifted.
  - intros i Hi. by rewrite Z.sub_0_r, Z.mod_small by lia.
  - intros k v1 cf1 Hk Hv1 Hi. eexists _, _. split; [reflexivity|]. split; [apply left_range|].
    rewrite sign_at. intros i Hi'.
    transitivity (ring w v1 cf1 (if i =? 0 then wbits w else i - 1)).
    + unfold ring at 1. destruct (Z.eqb_spec i (wbits w)) as [->|].
      * rewrite (proj2 (Z.eqb_neq (wbits w) 0)) by lia. unfold ring. by rewrite (proj2 (Z.eqb_neq _ _)) by lia.
      * rewrite left_bit by lia. rewrite (proj2 (Z.ltb_lt i _)) by lia. cbn [andb].
        unfold ring. destruct (i =? 0) eqn:E; [by rewrite Z.eqb_refl|].
        by rewrite (proj2 (Z.eqb_neq (i - 1) _)) by lia.
    + destruct (Z.eqb_spec i 0) as [->|]; rewrite Hi by lia; f_equal.
      * apply (wrapped_index _ _ _ 1); lia.
      * f_equal; lia.
Qed.

Lemma loop_rcr w v cf count : 0 <= v < 2 ^ wbits w ->
  exists v' cf', shift_loop 3 (width_mask w) (width_sign w) (wbits w) count (v, cf) = Some (v', cf') /\
    0 <= v' < 2 ^ wbits w /\ shifted 3 w v cf (Z.of_nat count) v' cf'.
Proof.
  intros Hv. pose proof (wbits_pos w).
  apply (loop_invariant 3 w (fun k v' cf' => shifted 3 w v cf k v' cf')); [done|..]; unfold shifted.
  - intros i Hi. by rewrite Z.add_0_r, Z.mod_small by lia.
  - intros k v1 cf1 Hk Hv1 Hi. eexists _, _. split; [reflexivity|]. split; [by apply right_range|].
    rewrite has_1. intros i Hi'.
    transitivity (ring w v1 cf1 (if i =? wbits w then 0 else i + 1)).
    + unfold ring at 1. destruct (Z.eqb_spec i (wbits w)) as [->|].
      * unfold ring. by rewrite (proj2 (Z.eqb_neq _ _)) by lia.
      * rewrite right_bit by lia. unfold ring.
        destruct (Z.eqb_spec i (wbits w - 1)), (Z.eqb_spec (i + 1) (wbits w)); done || lia.
    + destruct (Z.eqb_spec i (wbits w)) as [->|]; rewrite Hi by lia; f_equal.
      * apply (wrapped_index _ _ _ (-1)); lia.
      * f_equal; lia.
Qed.

Lemma shl_value w v : Z.land (wrap 32 (Z.shiftl v 1)) (width_mask w) = uint w (v * 2).
Proof. rewrite land_mask, uint_wrap by lia. rewrite Z.shiftl_mul_pow2 by lia. done. Qed.

Lemma uint_mul w a b : uint w (uint w a * b) = uint w (a * b).
Proof. unfold uint, wrap. apply Z.mul_mod_idemp_l. pose proof (wbits_pos w). apply Z.pow_nonzero; lia. Qed.

Lemma uint_testbit w z i : 0 <= i < wbits w -> Z.testbit (uint w z) i = Z.testbit z i.
Proof. intros. apply Z.mod_pow2_bits_low. lia. Qed.

Lemma loop_shl op w v cf count : op = 4 \/ op = 6 -> 0 <= v < 2 ^ wbits w -> (0 < count)%nat ->
  exists v' cf', shift_loop op (width_mask w) (width_sign w) (wbits w) count (v, cf) = Some (v', cf') /\
    0 <= v' < 2 ^ wbits w /\ shifted op w v cf (Z.of_nat count) v' cf'.
Proof.
  intros Ho Hv Hc. pose proof (wbits_pos w).
  destruct (loop_invariant op w (fun k v' cf' =>
    v' = uint w (v * 2 ^ k) /\ (0 < k -> cf' = Z.testbit v (wbits w - k))) v cf Hv)
    with (count := count) as (v' & cf' & E & Hr & Hi & Hf).
  - split; [|lia]. rewrite Z.mul_1_r. symmetry. by apply uint_id.
  - intros k v1 cf1 Hk Hv1 [-> _]. set (v1 := uint w (v * 2 ^ k)) in *.
    exists (uint w (v1 * 2)), (has v1 (width_sign w)).
    split; [destruct Ho as [-> | ->]; cbn [shift_step]; by rewrite shl_value|].
    split; [apply uint_range|]. split.
    + subst v1. rewrite uint_mul. f_equal. rewrite Z.pow_add_r by lia. ring.
    + intros _. rewrite sign_at. subst v1. rewrite uint_testbit, Z.mul_pow2_bits by lia. f_equal. lia.
  - exists v', cf'. split; [done|]. split; [done|].
    destruct Ho as [-> | ->]; (split; [done|]; apply Hf; lia).
Qed.

Lemma loop_shr w v cf count : 0 <= v < 2 ^ wbits w -> (0 < count)%nat ->
  exists v' cf', shift_loop 5 (width_mask w) (width_sign w) (wbits w) count (v, cf) = Some (v', cf') /\
    0 <= v' < 2 ^ wbits w /\ shifted 5 w v cf (Z.of_nat count) v' cf'.
Proof.
  intros Hv Hc. pose proof (wbits_pos w).
  destruct (loop_invariant 5 w (fun k v' cf' =>
    v' = v / 2 ^ k /\ (0 < k -> cf' = Z.testbit v (k - 1))) v cf Hv)
    with (count := count) as (v' & cf' & E & Hr & Hi & Hf).
  - split; [|lia]. by rewrite Z.div_1_r.
  - intros k v1 cf1 Hk Hv1 [-> _]. eexists _, _. split; [reflexivity|].
    pose proof (Z.pow_pos_nonneg 2 k). rewrite Z.shiftr_div_pow2 by lia. change (2 ^ 1) with 2.
    split; [|split].
    + split; [apply Z.div_pos; lia|apply Z.div_lt_upper_bound; lia].
    + rewrite Z.div_div, Z.pow_add_r by lia. done.
    + intros _. rewrite has_1. rewrite <-Z.shiftr_div_pow2, Z.shiftr_spec by lia. f_equal. lia.
  - exists v', cf'. split; [done|]. split; [done|]. split; [done|]. apply Hf. lia.
Qed.

(** Above its sign bit a signed integer repeats it. *)
Lemma sign_bits n s i j : 0 <= n -> - 2 ^ n <= s < 2 ^ n -> n <= i -> n <= j -> Z.testbit s i = Z.testbit s j.
Proof.
  intros Hn Hs Hi Hj.
  assert (Hone : forall i, n <= i -> Z.testbit s i = (s <? 0)).
  { clear i j Hi Hj. intros i Hi. rewrite testbit_odd by lia.
    pose proof (Z.pow_le_mono_r 2 n i ltac:(lia) Hi). destruct (Z.ltb_spec s 0).
    - by rewrite <-(Z.div_unique_pos s (2 ^ i) (-1) (s + 2 ^ i)) by lia.
    - by rewrite Z.div_small by lia. }
  by rewrite !Hone.
Qed.

Lemma sint_range w v : 0 <= v < 2 ^ wbits w -> - 2 ^ (wbits w - 1) <= sint w v < 2 ^ (wbits w - 1).
Proof. intros. rewrite sint_uint by done. rewrite half in *. case_step; bool_prop; lia. Qed.

Lemma sint_low_bit w v i : 0 <= v < 2 ^ wbits w -> 0 <= i < wbits w -> Z.testbit (sint w v) i = Z.testbit v i.
Proof.
  intros Hv Hi. rewrite sint_uint by done. case_step; [|done].
  rewrite <-(Z.mod_pow2_bits_low _ (wbits w) i) by lia. rewrite <-(Z.mod_pow2_bits_low v (wbits w) i) by lia.
  f_equal. replace (v - 2 ^ wbits w) with (v + (-1) * 2 ^ wbits w) by lia.
  apply Z.mod_add, Z.pow_nonzero; lia.
Qed.

Lemma loop_sar w v cf count : 0 <= v < 2 ^ wbits w -> (0 < count)%nat ->
  exists v' cf', shift_loop 7 (width_mask w) (width_sign w) (wbits w) count (v, cf) = Some (v', cf') /\
    0 <= v' < 2 ^ wbits w /\ shifted 7 w v cf (Z.of_nat count) v' cf'.
Proof.
  intros Hv Hc. pose proof (wbits_pos w). pose proof (sint_range w v Hv) as Hs.
  destruct (loop_invariant 7 w (fun k v' cf' =>
    (forall i, 0 <= i < wbits w -> Z.testbit v' i = Z.testbit (sint w v) (i + k)) /\
    (0 < k -> cf' = Z.testbit (sint w v) (k - 1))) v cf Hv)
    with (count := count) as (v' & cf' & E & Hr & Hi & Hf).
  - split; [|lia]. intros i Hi. by rewrite Z.add_0_r, sint_low_bit by lia.
  - intros k v1 cf1 Hk Hv1 [Hi _]. eexists _, _. split; [reflexivity|]. split; [|split].
    + apply range_of_bits.
      * apply Z.lor_nonneg. split; [apply Z.shiftr_nonneg; lia|apply Z.land_nonneg; lia].
      * intros i Hi'. rewrite Z.lor_spec, Z.land_spec, Z.shiftr_spec by lia.
        by rewrite !(high_bit w v1) by lia.
    + intros i Hi'. rewrite Z.lor_spec, Z.land_spec, Z.shiftr_spec by lia.
      rewrite width_sign_bit, testbit_bit by lia. destruct (Z.eqb_spec (wbits w - 1) i) as [<-|].
      * rewrite (high_bit w v1 (wbits w - 1 + 1)) by lia. cbn [orb]. rewrite andb_true_r, Hi by lia.
        apply (sign_bits (wbits w - 1)); lia.
      * rewrite andb_false_r, orb_false_r, Hi by lia. f_equal. lia.
    + intros _. rewrite has_1, Hi by lia. f_equal. lia.
  - exists v', cf'. split; [done|]. split; [done|]. split; [|apply Hf; lia].
    apply Z.bits_inj'. intros i Hi'. destruct (Z.lt_ge_cases i (wbits w)).
    + rewrite Hi, uint_testbit by lia. rewrite <-Z.shiftr_div_pow2, Z.shiftr_spec by lia. done.
    + rewrite (high_bit w v'), (high_bit w (uint w _)) by (done || apply uint_range). done.
Qed.

Lemma loop_spec op w v cf count : 0 <= op < 8 -> 0 <= v < 2 ^ wbits w -> (0 < count)%nat ->
  exists v' cf', shift_loop op (width_mask w) (width_sign w) (wbits w) count (v, cf) = Some (v', cf') /\
    0 <= v' < 2 ^ wbits w /\ shifted op w v cf (Z.of_nat count) v' cf'.
Proof.
  intros Ho Hv Hc.
  assert (op = 0 \/ op = 1 \/ op = 2 \/ op = 3 \/ (op = 4 \/ op = 6) \/ op = 5 \/ op = 7)
    as [->|[->|[->|[->|[Ho'|[->| ->]]]]]] by lia.
  - by apply loop_rol.
  - by apply loop_ror.
  - by apply loop_rcl.
  - by apply loop_rcr.
  - by apply loop_shl.
  - by apply loop_shr.
  - by apply loop_sar.
Qed.

(* ------------------------------------------------------------------ *)
(** ** The whole operation *)

(** The carry that only the operations reading it are given. *)
Lemma shifted_seed op w v cf cf' k v1 cf1 : op <> 2 -> op <> 3 ->
  shifted op w v cf k v1 cf1 -> shifted op w v cf' k v1 cf1.
Proof. intros H2 H3. unfold shifted. destruct op as [|[[[]|[]|]|[[]|[]|]|]|]; done. Qed.

(** A single step changes the sign exactly when the overflow flag says so. *)
Definition sign_changed (w : BusWidth) (v v' : Z) : bool :=
  xorb (Z.testbit v' (wbits w - 1)) (Z.testbit v (wbits w - 1)).

Lemma uint_sign w v : Z.testbit (uint w v) (wbits w - 1) = Z.testbit v (wbits w - 1).
Proof. pose proof (wbits_pos w). apply uint_testbit. lia. Qed.

Lemma mod_at n a b q : 0 <= b < n -> a = b + q * n -> a mod n = b.
Proof. intros Hb ->. rewrite Z.mod_add by lia. by apply Z.mod_small. Qed.

Lemma shift_overflow_sign op w value cf v' cf' : 4 <= op < 8 ->
  shifted op w (uint w value) cf 1 v' cf' ->
  shift_overflow op value v' (width_sign w) cf' = Some (sign_changed w (uint w value) v').
Proof.
  intros Ho Hs. pose proof (wbits_pos w). unfold shift_overflow, sign_changed. rewrite !sign_at, uint_sign.
  pose proof (uint_range w value) as Hv.
  assert (op = 4 \/ op = 5 \/ op = 6 \/ op = 7) as [->|[->|[->| ->]]] by lia; destruct Hs as [-> ->].
  - by rewrite !uint_sign.
  - rewrite <-(Z.shiftr_div_pow2 _ 1), Z.shiftr_spec by lia.
    rewrite (high_bit w (uint w value)) by (done || lia). by rewrite xorb_false_l.
  - by rewrite !uint_sign.
  - rewrite uint_sign, <-(Z.shiftr_div_pow2 _ 1), Z.shiftr_spec by lia.
    rewrite (sign_bits (wbits w - 1) (sint w (uint w value)) _ (wbits w - 1)) by (lia || by apply sint_range).
    rewrite sint_low_bit, uint_sign by (done || lia). by rewrite xorb_nilpotent.
Qed.

Lemma rotate_overflow_sign op w value cf v' cf' : 0 <= op < 4 ->
  shifted op w (uint w value) cf 1 v' cf' ->
  rotate_overflow op v' (width_sign w) cf' = Some (sign_changed w (uint w value) v').
Proof.
  intros Ho Hs. pose proof (wbits_pos w). unfold rotate_overflow, sign_changed. rewrite !sign_at.
  replace (has v' (Z.shiftr (width_sign w) 1)) with (Z.testbit v' (wbits w - 2))
    by (rewrite <-has_bit by lia; by destruct w).
  assert (op = 0 \/ op = 1 \/ op = 2 \/ op = 3) as [->|[->|[->| ->]]] by lia; unfold shifted in Hs.
  - destruct Hs as [Hi ->]. rewrite (Hi 0) by lia. rewrite (mod_at _ _ (wbits w - 1) (-1)) by lia. done.
  - destruct Hs as [Hi ->]. rewrite (Hi (wbits w - 2)) by lia. rewrite Z.mod_small by lia.
    by replace (wbits w - 2 + 1) with (wbits w - 1) by lia.
  - pose proof (Hs (wbits w) ltac:(lia)) as Hc. unfold ring in Hc. rewrite Z.eqb_refl in Hc.
    rewrite Z.mod_small in Hc by lia. rewrite (proj2 (Z.eqb_neq _ _)) in Hc by lia. by rewrite Hc.
  - pose proof (Hs (wbits w - 2) ltac:(lia)) as Hc. unfold ring in Hc.
    rewrite (Z.mod_small (wbits w - 2 + 1)) in Hc by lia. rewrite !(proj2 (Z.eqb_neq _ _)) in Hc by lia.
    rewrite Hc. by replace (wbits w - 2 + 1) with (wbits w - 1) by lia.
Qed.

(** The flags after [k] steps: shifts set all but AF, rotates only CF; OF is
    the change of sign for a single step and keeps its value otherwise. *)
Definition shift_flags (op : Z) (w : BusWidth) (v k v' : Z) (cf' : bool) (before : Arith) : Arith :=
  let ovf := if k =? 1 then sign_changed w v v' else a_of before in
  if 4 <=? op then result_flags w v' cf' (a_af before) ovf
  else before <| a_cf := cf' |> <| a_of := ovf |>.

Definition masked_count (raw_count : Z) : Z := Z.land raw_count 31.

Lemma masked_count_range raw : 0 <= masked_count raw < 32.
Proof. unfold masked_count. change 31 with (Z.ones 5). rewrite Z.land_ones by done. by apply Z.mod_pos_bound. Qed.

Lemma shift_rotate_spec c op value raw w : 0 <= op < 8 -> masked_count raw <> 0 ->
  exists v' cf' c', shift_rotate c op value raw w = Some (v', c') /\ 0 <= v' < 2 ^ wbits w /\
    shifted op w (uint w value) (Z.testbit (arch c) 0) (masked_count raw) v' cf' /\
    writes c c' (shift_flags op w (uint w value) (masked_count raw) v' cf' (arith_of (arch c))).
Proof.
  intros Ho Hk. pose proof (masked_count_range raw) as Hr. unfold shift_rotate. fold (masked_count raw).
  set (k := masked_count raw) in *. rewrite (proj2 (Z.eqb_neq k 0)) by done. cbv zeta.
  rewrite land_mask, flag_CF. change (width_bytes w * 8) with (width_bytes w * 8).
  replace (width_bytes w * 8) with (wbits w) by (unfold wbits; lia).
  set (seed := ((op =? 2) || (op =? 3)) && Z.testbit (arch c) 0).
  destruct (loop_spec op w (uint w value) seed (Z.to_nat k) Ho (uint_range w value) ltac:(lia))
    as (v' & cf' & E & Hv' & Hs). rewrite E. cbn [mbind option_bind]. rewrite Z2Nat.id in Hs by lia.
  assert (Hs' : shifted op w (uint w value) (Z.testbit (arch c) 0) k v' cf').
  { destruct (Z.eqb_spec op 2), (Z.eqb_spec op 3); try exact Hs. by apply (shifted_seed _ _ _ seed). }
  rewrite land_mask, (uint_id w v') by done. unfold shift_flags.
  rewrite (proj2 (Z.leb_le op 7)), andb_true_r by lia.
  destruct (Z.leb_spec 4 op).
  - destruct (Z.eqb_spec k 1) as [K1|].
    + rewrite (shift_overflow_sign op w value (Z.testbit (arch c) 0)) by (lia || congruence).
      cbn [mbind option_bind]. eexists v', cf', _. split; [reflexivity|]. split; [done|]. split; [done|].
      generalize (writes_shift_result c (Some cf') (Some (sign_changed w (uint w value) v')) v' w).
      rewrite szp_result by done. done.
    + cbn [mbind option_bind]. eexists v', cf', _. split; [reflexivity|]. split; [done|]. split; [done|].
      generalize (writes_shift_result c (Some cf') None v' w). rewrite szp_result by done. done.
  - pose proof (set_CF c cf') as H1. destruct (Z.eqb_spec k 1) as [K1|].
    + rewrite (rotate_overflow_sign op w value (Z.testbit (arch c) 0)) by (lia || congruence).
      cbn [mbind option_bind]. eexists v', cf', _. split; [reflexivity|]. split; [done|]. split; [done|].
      pose proof (set_OF (set_flag c FLAG_CF cf') (sign_changed w (uint w value) v')) as H2.
      rewrite (arith_of_written _ _ _ H1) in H2. exact (writes_trans _ _ _ _ _ H1 H2).
    + eexists v', cf', _. split; [reflexivity|]. split; [done|]. split; [done|]. exact H1.
Qed.

(* ------------------------------------------------------------------ *)
(** ** Double shifts *)

(** The destination's word of the pair after a shift by [k]. *)
Definition double_shifted (left : bool) (n d s k : Z) : Z :=
  if left then ((d * 2 ^ n + s) * 2 ^ k / 2 ^ n) mod 2 ^ n
  else ((s * 2 ^ n + d) / 2 ^ k) mod 2 ^ n.

Lemma pair_bit n hi lo i : 0 <= n -> 0 <= lo < 2 ^ n ->
  Z.testbit (hi * 2 ^ n + lo) i = if i <? n then Z.testbit lo i else Z.testbit hi (i - n).
Proof.
  intros Hn Hlo. rewrite Z.add_comm, (Z.mul_comm hi), <-lor_shiftl by done.
  rewrite Z.lor_spec. destruct (Z.ltb_spec i n).
  - destruct (Z.lt_ge_cases i 0); [by rewrite !Z.testbit_neg_r|].
    by rewrite (Z.shiftl_spec_low hi), orb_false_r.
  - rewrite (testbit_high n lo) by done. by rewrite Z.shiftl_spec by lia.
Qed.

Lemma double_shifted_bit left n d s k i : 0 <= n -> 0 <= k -> 0 <= d < 2 ^ n -> 0 <= s < 2 ^ n -> 0 <= i < n ->
  Z.testbit (double_shifted left n d s k) i =
  if left then (if i <? k then Z.testbit s (n + i - k) else Z.testbit d (i - k))
  else (if i + k <? n then Z.testbit d (i + k) else Z.testbit s (i + k - n)).
Proof.
  intros Hn Hk Hd Hs Hi. unfold double_shifted. destruct left; rewrite Z.mod_pow2_bits_low by lia.
  - rewrite <-Z.shiftr_div_pow2, Z.shiftr_spec, Z.mul_pow2_bits, pair_bit by lia.
    destruct (Z.ltb_spec (i + n - k) n), (Z.ltb_spec i k); try lia; f_equal; lia.
  - rewrite <-Z.shiftr_div_pow2, Z.shiftr_spec, pair_bit by lia. done.
Qed.

Lemma double_shifted_range left n d s k : 0 <= n -> 0 <= double_shifted left n d s k < 2 ^ n.
Proof. intros. unfold double_shifted. destruct left; apply Z.mod_pos_bound, Z.pow_pos_nonneg; lia. Qed.

(** The state of the loop after [k] steps on [d] and [s]. *)
Definition double_inv (left : bool) (w : BusWidth) (d s k : Z) (x : bool * Z * Z) : Prop :=
  let '(cf', d', s') := x in
  0 <= d' < 2 ^ wbits w /\ 0 <= s' < 2 ^ wbits w /\
  (0 < k <= wbits w -> cf' = if left then Z.testbit d (wbits w - k) else Z.testbit d (k - 1)) /\
  (forall i, 0 <= i < wbits w -> Z.testbit d' i = Z.testbit (double_shifted left (wbits w) d s k) i) /\
  (forall i, 0 <= i < wbits w -> Z.testbit s' i = if left then Z.testbit s (i - k) else Z.testbit s (i + k)).

Section Double.
Context (w : BusWidth) (d s : Z).
Hypothesis Hd : 0 <= d < 2 ^ wbits w.
Hypothesis Hs : 0 <= s < 2 ^ wbits w.

Abbreviation step left := (double_step left (width_mask w) (width_sign w) (wbits w)).

Lemma double_inv_start left : double_inv left w d s 0 (false, d, s).
Proof.
  pose proof (wbits_pos w). split; [done|]. split; [done|]. split; [lia|].
  split; intros i Hi; [rewrite double_shifted_bit by lia|]; rewrite ?Z.add_0_r, ?Z.sub_0_r; destruct left; try done.
  - by rewrite (proj2 (Z.ltb_ge i 0)) by lia.
  - by rewrite (proj2 (Z.ltb_lt i _)) by lia.
Qed.

(** The bit handed from one word to the other. *)
Lemma top_handed s1 : Z.shiftr (Z.land s1 (width_sign w)) (wbits w - 1) = b2z (Z.testbit s1 (wbits w - 1)).
Proof.
  pose proof (wbits_pos w). apply Z.bits_inj'. intros i Hi.
  rewrite b2z_bit, Z.shiftr_spec, Z.land_spec, width_sign_bit, testbit_bit by lia.
  destruct (Z.eqb_spec i 0) as [->|]; [by rewrite Z.add_0_l, Z.eqb_refl, andb_true_r|].
  by rewrite (proj2 (Z.eqb_neq _ (i + _))), andb_false_r by lia.
Qed.

Lemma bottom_handed s1 : Z.land s1 1 = b2z (Z.testbit s1 0).
Proof.
  apply Z.bits_inj'. intros i Hi. rewrite b2z_bit, Z.land_spec by lia. change 1 with (b2z true).
  rewrite b2z_bit by lia. destruct (Z.eqb_spec i 0) as [->|]; cbn [andb]; [by rewrite andb_true_r|by rewrite andb_false_r].
Qed.

Lemma double_step_left k x : 0 <= k -> double_inv true w d s k x -> double_inv true w d s (k + 1) (step true x).
Proof.
  pose proof (wbits_pos w). destruct x as [[cf1 d1] s1]. intros Hk (Hd1 & Hs1 & _ & Hdi & Hsi).
  unfold double_step, double_inv. rewrite top_handed.
  pose proof (left_bit w s1 false) as Hl. cbn [b2z] in Hl. rewrite <-(Z.lor_0_r (wrap 32 (Z.shiftl s1 1))).
  split; [apply left_range|]. split; [apply left_range|]. split; [|split].
  - intros Hk'. rewrite sign_at, Hdi, double_shifted_bit by lia.
    rewrite (proj2 (Z.ltb_ge _ _)) by lia. f_equal. lia.
  - intros i Hi. rewrite double_shifted_bit, left_bit, (proj2 (Z.ltb_lt i (wbits w))) by lia. cbn [andb].
    destruct (Z.eqb_spec i 0) as [->|].
    + rewrite Hsi by lia. rewrite (proj2 (Z.ltb_lt 0 _)) by lia. f_equal; lia.
    + rewrite Hdi, double_shifted_bit by lia.
      destruct (Z.ltb_spec (i - 1) k), (Z.ltb_spec i (k + 1)); try lia; f_equal; lia.
  - intros i Hi. rewrite Hl, (proj2 (Z.ltb_lt i (wbits w))) by lia. cbn [andb].
    destruct (Z.eqb_spec i 0) as [->|].
    + by rewrite Z.testbit_neg_r by lia.
    + rewrite Hsi by lia. f_equal; lia.
Qed.

Lemma double_step_right k x : 0 <= k -> double_inv false w d s k x -> double_inv false w d s (k + 1) (step false x).
Proof.
  pose proof (wbits_pos w). destruct x as [[cf1 d1] s1]. intros Hk (Hd1 & Hs1 & _ & Hdi & Hsi).
  unfold double_step, double_inv. rewrite bottom_handed.
  split; [by apply right_range|]. split; [|split; [|split]].
  - rewrite Z.shiftr_div_pow2 by lia. change (2 ^ 1) with 2.
    split; [apply Z.div_pos; lia|apply Z.div_lt_upper_bound; lia].
  - intros Hk'. rewrite has_1, Hdi, double_shifted_bit by lia.
    rewrite (proj2 (Z.ltb_lt _ _)) by lia. f_equal. lia.
  - intros i Hi. rewrite double_shifted_bit, right_bit by lia.
    destruct (Z.eqb_spec i (wbits w - 1)) as [->|].
    + rewrite Hsi by lia. rewrite (proj2 (Z.ltb_ge _ _)) by lia. f_equal. lia.
    + rewrite Hdi, double_shifted_bit by lia.
      destruct (Z.ltb_spec (i + 1 + k) (wbits w)), (Z.ltb_spec (i + (k + 1)) (wbits w)); try lia; f_equal; lia.
  - intros i Hi. rewrite Z.shiftr_spec by lia. destruct (Z.eq_dec i (wbits w - 1)) as [->|].
    + rewrite (high_bit w s1), (high_bit w s) by lia. done.
    + rewrite Hsi by lia. f_equal. lia.
Qed.

Lemma double_loop left count : double_inv left w d s (Z.of_nat count) (Nat.iter count (step left) (false, d, s)).
Proof.
  induction count as [|count IH]; [apply double_inv_start|]. rewrite Nat.iter_succ, Nat2Z.inj_succ.
  destruct left; [apply double_step_left|apply double_step_right]; (done || lia).
Qed.

(** A count past the width rotates the source. *)
Lemma wide_shift (left : bool) m : 0 < m < wbits w ->
  Z.land (if left then Z.lor (wrap 32 (Z.shiftl s m)) (Z.shiftr s (wbits w - m))
          else Z.lor (Z.shiftr s m) (wrap 32 (Z.shiftl s (wbits w - m)))) (width_mask w) =
  double_shifted left (wbits w) s s m.
Proof.
  intros Hm. pose proof (wbits_pos w). apply Z.bits_inj'. intros i Hi. rewrite Z.land_spec, mask_bit by lia.
  destruct (Z.ltb_spec i (wbits w)).
  2: { rewrite andb_false_r. symmetry. apply (high_bit w); [apply double_shifted_range; lia|done]. }
  rewrite andb_true_r, double_shifted_bit by lia.
  destruct left; rewrite Z.lor_spec, wrap_bit, Z.shiftl_spec, Z.shiftr_spec, (proj2 (Z.ltb_lt i 32)) by lia; cbn [andb].
  - destruct (Z.ltb_spec i m).
    + rewrite (Z.testbit_neg_r s (i - m)) by lia. cbn [orb]. f_equal. lia.
    + rewrite (high_bit w s (i + _)) by lia. apply orb_false_r.
  - destruct (Z.ltb_spec (i + m) (wbits w)).
    + rewrite (Z.testbit_neg_r s (i - _)) by lia. apply orb_false_r.
    + rewrite (high_bit w s (i + _)) by lia. cbn [orb]. f_equal. lia.
Qed.
End Double.

Lemma size_facts size : size_mask size = width_mask (bus_width size) /\
  size_bytes size * 8 = wbits (bus_width size) /\
  wrap 32 (Z.shiftl 1 (wbits (bus_width size) - 1)) = width_sign (bus_width size).
Proof. by destruct size. Qed.

(** The flags of SHLD and SHRD, and for 16-bit operands of counts past the width. *)
Definition double_result (left : bool) (w : BusWidth) (dest src k : Z) (before : Arith) : Z * Arith :=
  let n := wbits w in let d := uint w dest in let s := uint w src in
  if n <? k then
    let r := double_shifted left n s s (k - n) in (r, result_flags w r (a_cf before) (a_af before) (a_of before))
  else
    let r := double_shifted left n d s k in
    let cf := if left then Z.testbit d (n - k) else Z.testbit d (k - 1) in
    (r, result_flags w r cf (a_af before) (if k =? 1 then sign_changed w d r else a_of before)).

Lemma double_shift_spec c left dest src raw size : masked_count raw <> 0 ->
  exists c', let '(r, x) := double_result left (bus_width size) dest src (masked_count raw) (arith_of (arch c)) in
    double_shift c left dest src raw size = (r, c') /\ writes c c' x.
Proof.
  intros Hk. pose proof (masked_count_range raw) as Hr. unfold double_shift, double_result. fold (masked_count raw).
  set (k := masked_count raw) in *. rewrite (proj2 (Z.eqb_neq k 0)) by done. cbv zeta.
  destruct (size_facts size) as (-> & -> & ->). set (w := bus_width size) in *. rewrite !land_mask.
  pose proof (uint_range w dest) as Hd. pose proof (uint_range w src) as Hs. pose proof (wbits_pos w).
  destruct (Z.ltb_spec (wbits w) k) as [Hw|].
  - assert (Hm : k mod wbits w = k - wbits w).
    { apply (mod_at _ _ _ 1); [|lia]. subst w. destruct size; unfold wbits in *; cbn [bus_width width_bytes] in *; lia. }
    assert (0 < k mod wbits w < wbits w) by (pose proof (Z.mod_pos_bound k (wbits w)); lia).
    pose proof (wide_shift w (uint w src) Hs left (k mod wbits w) ltac:(done)) as E. rewrite Hm in *.
    assert (E' : (if left
       then Z.land (Z.lor (wrap 32 (Z.shiftl (uint w src) (k - wbits w))) (Z.shiftr (uint w src) (wbits w - (k - wbits w)))) (width_mask w)
       else Z.land (Z.lor (Z.shiftr (uint w src) (k - wbits w)) (wrap 32 (Z.shiftl (uint w src) (wbits w - (k - wbits w))))) (width_mask w)) =
      double_shifted left (wbits w) (uint w src) (uint w src) (k - wbits w)) by (rewrite <-E; by destruct left).
    clear E. rewrite !land_mask in E'. rewrite E'. eexists. split; [reflexivity|].
    generalize (writes_shift_result c None None (double_shifted left (wbits w) (uint w src) (uint w src) (k - wbits w)) w).
    rewrite szp_result by (apply double_shifted_range; lia). done.
  - pose proof (double_loop w (uint w dest) (uint w src) Hd Hs left (Z.to_nat k)) as Hl.
    destruct (Nat.iter _ _ _) as [[cf' d'] s']. rewrite Z2Nat.id in Hl by lia.
    destruct Hl as (Hd' & _ & Hc & Hi & _). specialize (Hc ltac:(lia)).
    assert (d' = double_shifted left (wbits w) (uint w dest) (uint w src) k) as ->.
    { apply Z.bits_inj'. intros i Hi'. destruct (Z.lt_ge_cases i (wbits w)); [by apply Hi|].
      by rewrite (high_bit w d'), (high_bit w (double_shifted _ _ _ _ _)) by (done || (apply double_shifted_range; lia)). }
    rewrite land_mask, (uint_id w (double_shifted _ _ _ _ _)) by done. eexists. split; [reflexivity|].
    rewrite <-Hc. set (r := double_shifted _ _ _ _ _) in *.
    rewrite testbit_sign, Z.lxor_spec.
    replace (xorb (Z.testbit dest (wbits w - 1)) (Z.testbit r (wbits w - 1))) with (sign_changed w (uint w dest) r)
      by (unfold sign_changed; rewrite uint_sign; apply xorb_comm).
    generalize (writes_shift_result c (Some cf') (if k =? 1 then Some (sign_changed w (uint w dest) r) else None) r w).
    rewrite szp_result by done. by destruct (k =? 1).
Qed.

Lemma shift_step_refuses op mask msb bits x : ~ 0 <= op < 8 -> shift_step op mask msb bits x = None.
Proof. intros Ho. destruct x, op as [|[[[]|[]|]|[[]|[]|]|]|]; done || lia. Qed.

Lemma shift_loop_refuses op mask msb bits count x : ~ 0 <= op < 8 ->
  shift_loop op mask msb bits (S count) x = None.
Proof.
  intros Ho. unfold shift_loop. rewrite Nat.iter_succ. destruct (Nat.iter count _ _); [|done].
  by apply shift_step_refuses.
Qed.

(** C31.  The single-bit loop of shifts and rotates is the closed form: with the count
    masked to five bits, SHL multiplies and SHR and SAR divide (floor, unsigned or
    signed) by a power of two, ROL and ROR rotate the operand and RCL and RCR the
    operand with CF above it; CF is the last bit shifted out, OF after a single step
    says that the sign changed, rotates touch CF and OF only, shifts also set SF, ZF
    and PF, and a count of zero changes nothing at all.  Codes past 7 never return. *)
Theorem shift_rotate_exact c op value raw w :
  let k := masked_count raw in
  (k = 0 -> shift_rotate c op value raw w = Some (value, c)) /\
  (k <> 0 -> 0 <= op < 8 ->
    exists v' cf' c', shift_rotate c op value raw w = Some (v', c') /\ 0 <= v' < 2 ^ wbits w /\
      shifted op w (uint w value) (flag c FLAG_CF) k v' cf' /\
      writes c c' (shift_flags op w (uint w value) k v' cf' (arith_of (arch c)))) /\
  (k <> 0 -> ~ 0 <= op < 8 -> shift_rotate c op value raw w = None).
Proof.
  cbv zeta. split; [|split].
  - intros Hk. unfold shift_rotate. fold (masked_count raw). by rewrite Hk.
  - intros Hk Ho. rewrite flag_CF. by apply shift_rotate_spec.
  - intros Hk Ho. pose proof (masked_count_range raw) as Hr. unfold shift_rotate. fold (masked_count raw).
    rewrite (proj2 (Z.eqb_neq _ 0)) by done. cbv zeta.
    destruct (Z.to_nat (masked_count raw)) as [|n] eqn:En; [lia|]. by rewrite shift_loop_refuses.
Qed.

Lemma shift_rotate_exact_witness :
  exists v' cf' c', shift_rotate sample 7 129 3 Byte = Some (v', c') /\ 0 <= v' < 2 ^ wbits Byte /\
    shifted 7 Byte (uint Byte 129) (flag sample FLAG_CF) 3 v' cf' /\
    writes sample c' (shift_flags 7 Byte (uint Byte 129) 3 v' cf' (arith_of (arch sample))).
Proof.
  destruct (shift_rotate_exact sample 7 129 3 Byte) as (_ & H & _). apply H; [vm_compute; discriminate|lia].
Defined.

(** SHLD and SHRD are shifts of the double-width number: the result is the
    destination's word of destination and source shifted together, CF the last
    destination bit shifted out, OF after a single step the change of sign; a masked
    count past a 16-bit operand rotates the source instead and keeps CF and OF, and a
    count of zero changes nothing. *)
Theorem double_shift_exact c left dest src raw size :
  let k := masked_count raw in
  (k = 0 -> double_shift c left dest src raw size = (dest, c)) /\
  (k <> 0 ->
    let '(r, x) := double_result left (bus_width size) dest src k (arith_of (arch c)) in
    exists c', double_shift c left dest src raw size = (r, c') /\ writes c c' x).
Proof.
  cbv zeta. split.
  - intros Hk. unfold double_shift. fold (masked_count raw). by rewrite Hk.
  - intros Hk. destruct (double_shift_spec c left dest src raw size Hk) as [c' H].
    destruct (double_result _ _ _ _ _ _) as [r x]. by exists c'.
Qed.

Lemma double_shift_exact_witness :
  exists c', double_shift sample true 4660 22136 8 OWord = (13398, c') /\
    writes sample c' (double_result true Word 4660 22136 8 (arith_of (arch sample))).2.
Proof.
  destruct (double_shift_exact sample true 4660 22136 8 OWord) as [_ H].
  assert (Hk : masked_count 8 <> 0) by (vm_compute; discriminate).
  destruct (H Hk) as (c' & E & W). exists c'. split; [exact E|exact W].
Defined.

End Shift.
