(* ===== verification/CpuMulDiv.v ===== *)
(** * Multiplication and division

    [mul], [imul_truncated] and [div] of crates/izarravm-cpu/src/core.rs on the
    implicit accumulator pair AH:AL, DX:AX or EDX:EAX. *)

From S2P Require Import Prelude Memory CpuFlags CpuAlu CpuShift.
Import CpuFlags.Flags CpuAlu.Alu CpuShift.Shift.

Module MulDiv.

(* ------------------------------------------------------------------ *)
(** ** Registers *)

(** Eight 32-bit registers. *)
Definition gpr_wf (c : Cpu) : Prop := length (gpr c) = 8%nat /\ Forall u32 (gpr c).

Lemma slot_u32 c r : gpr_wf c -> u32 (slot c r).
Proof.
  intros [_ Hf]. unfold slot. rewrite list_lookup_total_alt.
  destruct (gpr c !! Z.to_nat r) eqn:E; [by apply (Forall_lookup_1 _ _ _ _ Hf E)|done].
Qed.

Lemma slot_set c r v r' : gpr_wf c -> 0 <= r < 8 -> 0 <= r' < 8 ->
  slot (set_slot c r v) r' = if r =? r' then v else slot c r'.
Proof.
  intros [Hl _] Hr Hr'. unfold slot, set_slot. cbn.
  destruct (Z.eqb_spec r r') as [->|].
  - apply list_lookup_total_insert_eq. lia.
  - apply list_lookup_total_insert_ne. lia.
Qed.

Lemma set_slot_wf c r v : gpr_wf c -> u32 v -> gpr_wf (set_slot c r v).
Proof. intros [Hl Hf] Hv. split; cbn; [by rewrite length_insert|by apply Forall_insert]. Qed.

(** The 16-bit write: low half replaced, high half kept. *)
Lemma merge16 x v : u32 x -> u16 v ->
  let y := Z.lor (Z.land x 4294901760) v in u32 y /\ wrap 16 y = v /\ Z.shiftr y 16 = Z.shiftr x 16.
Proof.
  intros Hx Hv. cbv zeta. assert (Hb : forall i, 0 <= i ->
    Z.testbit (Z.lor (Z.land x 4294901760) v) i = if i <? 16 then Z.testbit v i else Z.testbit x i).
  { intros i Hi. rewrite Z.lor_spec, Z.land_spec. change 4294901760 with (Z.ldiff (Z.ones 32) (Z.ones 16)).
    rewrite Z.ldiff_spec. destruct (Z.ltb_spec i 16).
    - by rewrite !Z.ones_spec_low, andb_false_r by lia.
    - rewrite (testbit_high 16 v i) by (done || lia). rewrite (Z.ones_spec_high 16) by lia.
      destruct (Z.lt_ge_cases i 32).
      + by rewrite Z.ones_spec_low, andb_true_r, orb_false_r by lia.
      + by rewrite (testbit_high 32 x i) by (done || lia). }
  split_and!.
  - apply in_width_bits; [done|apply Z.lor_nonneg; split; [apply Z.land_nonneg; by right|apply Hv]|].
    intros i Hi. rewrite Hb by lia. rewrite (proj2 (Z.ltb_ge _ _)) by lia. by apply (testbit_high 32).
  - apply Z.bits_inj'. intros i Hi. rewrite wrap_bit, Hb by lia.
    destruct (Z.ltb_spec i 16); [done|]. symmetry. by apply (testbit_high 16).
  - apply Z.bits_inj'. intros i Hi. rewrite !Z.shiftr_spec, Hb by lia. by rewrite (proj2 (Z.ltb_ge _ _)) by lia.
Qed.

(** The 8-bit writes. *)
Lemma merge_low x v : u32 x -> u8 v ->
  let y := Z.lor (Z.ldiff x 255) v in u32 y /\ wrap 8 y = v /\ Z.shiftr y 8 = Z.shiftr x 8.
Proof.
  intros Hx Hv. cbv zeta. assert (Hb : forall i, 0 <= i ->
    Z.testbit (Z.lor (Z.ldiff x 255) v) i = if i <? 8 then Z.testbit v i else Z.testbit x i).
  { intros i Hi. rewrite Z.lor_spec, Z.ldiff_spec. change 255 with (Z.ones 8). destruct (Z.ltb_spec i 8).
    - by rewrite Z.ones_spec_low, andb_false_r by lia.
    - rewrite (testbit_high 8 v i) by (done || lia).
      by rewrite Z.ones_spec_high, andb_true_r, orb_false_r by lia. }
  split_and!.
  - apply in_width_bits; [done|apply Z.lor_nonneg; split; [apply Z.ldiff_nonneg; left; apply Hx|apply Hv]|].
    intros i Hi. rewrite Hb by lia. rewrite (proj2 (Z.ltb_ge _ _)) by lia. by apply (testbit_high 32).
  - apply Z.bits_inj'. intros i Hi. rewrite wrap_bit, Hb by lia.
    destruct (Z.ltb_spec i 8); [done|]. symmetry. by apply (testbit_high 8).
  - apply Z.bits_inj'. intros i Hi. rewrite !Z.shiftr_spec, Hb by lia. by rewrite (proj2 (Z.ltb_ge _ _)) by lia.
Qed.

Lemma merge_high x v : u32 x -> u8 v ->
  let y := Z.lor (Z.ldiff x 65280) (Z.shiftl v 8) in
  u32 y /\ wrap 8 y = wrap 8 x /\ wrap 8 (Z.shiftr y 8) = v /\ Z.shiftr y 16 = Z.shiftr x 16.
Proof.
  intros Hx Hv. cbv zeta. assert (Hb : forall i, 0 <= i ->
    Z.testbit (Z.lor (Z.ldiff x 65280) (Z.shiftl v 8)) i =
    if i <? 8 then Z.testbit x i else if i <? 16 then Z.testbit v (i - 8) else Z.testbit x i).
  { intros i Hi. rewrite Z.lor_spec, Z.ldiff_spec, Z.shiftl_spec by lia.
    change 65280 with (Z.ldiff (Z.ones 16) (Z.ones 8)). rewrite Z.ldiff_spec. destruct (Z.ltb_spec i 8).
    - rewrite !Z.ones_spec_low, (Z.testbit_neg_r v) by lia. by rewrite andb_true_r, orb_false_r.
    - rewrite (Z.ones_spec_high 8) by lia. destruct (Z.ltb_spec i 16).
      + by rewrite Z.ones_spec_low, andb_false_r by lia.
      + rewrite Z.ones_spec_high, (testbit_high 8 v (i - 8)) by (done || lia). by rewrite andb_true_r, orb_false_r. }
  assert (0 <= Z.lor (Z.ldiff x 65280) (Z.shiftl v 8)).
  { apply Z.lor_nonneg. split; [apply Z.ldiff_nonneg; left; apply Hx|apply Z.shiftl_nonneg, Hv]. }
  split_and!.
  - apply in_width_bits; [done..|].
    intros i Hi. rewrite Hb by lia. rewrite !(proj2 (Z.ltb_ge _ _)) by lia. by apply (testbit_high 32).
  - apply Z.bits_inj'. intros i Hi. rewrite !wrap_bit, Hb by lia. by destruct (Z.ltb_spec i 8).
  - apply Z.bits_inj'. intros i Hi. rewrite wrap_bit, Z.shiftr_spec, Hb by lia.
    destruct (Z.ltb_spec i 8).
    + rewrite (proj2 (Z.ltb_ge _ _)), (proj2 (Z.ltb_lt _ _)) by lia. cbn [andb]. f_equal. lia.
    + symmetry. by apply (testbit_high 8).
  - apply Z.bits_inj'. intros i Hi. rewrite !Z.shiftr_spec, Hb by lia. by rewrite !(proj2 (Z.ltb_ge _ _)) by lia.
Qed.

(* ------------------------------------------------------------------ *)
(** ** The accumulator pair *)

(** AL, AX or EAX, and AH, DX or EDX. *)
Definition lo (c : Cpu) (w : BusWidth) : Z :=
  match w with Byte => read_gpr8 c 0 | Word => read_gpr16 c 0 | Dword => read_gpr32 c 0 end.
Definition hi (c : Cpu) (w : BusWidth) : Z :=
  match w with Byte => read_gpr8 c 4 | Word => read_gpr16 c 2 | Dword => read_gpr32 c 2 end.
(** The double-width number the pair holds. *)
Definition acc (c : Cpu) (w : BusWidth) : Z := hi c w * 2 ^ wbits w + lo c w.

(** [c'] is [c] with the pair loaded, and nothing else changed. *)
Record loaded (c : Cpu) (w : BusWidth) (low high : Z) (c' : Cpu) : Prop := mk_loaded {
  ld_wf : gpr_wf c';
  ld_lo : lo c' w = low;
  ld_hi : hi c' w = high;
  ld_rest : c' = c <| gpr := gpr c' |>;
  ld_slots : forall r, 0 <= r < 8 -> r <> 0 -> w = Byte \/ r <> 2 -> slot c' r = slot c r;
  ld_upper : w <> Dword -> forall r, 0 <= r < 8 -> Z.shiftr (slot c' r) 16 = Z.shiftr (slot c r) 16
}.

Lemma al_write c v : write_gpr8 c 0 v = set_slot c 0 (Z.lor (Z.ldiff (slot c 0) 255) v). Proof. done. Qed.
Lemma ah_write c v : write_gpr8 c 4 v = set_slot c 0 (Z.lor (Z.ldiff (slot c 0) 65280) (Z.shiftl v 8)). Proof. done. Qed.
Lemma ax_write c v : write_gpr16 c 0 v = set_slot c 0 (Z.lor (Z.land (slot c 0) 4294901760) v). Proof. done. Qed.
Lemma dx_write c v : write_gpr16 c 2 v = set_slot c 2 (Z.lor (Z.land (slot c 2) 4294901760) v). Proof. done. Qed.
Lemma hi_byte c : hi c Byte = wrap 8 (Z.shiftr (slot c 0) 8). Proof. done. Qed.
Lemma lo_byte c : lo c Byte = wrap 8 (slot c 0). Proof. done. Qed.
Lemma hi_word c : hi c Word = wrap 16 (slot c 2). Proof. done. Qed.
Lemma lo_word c : lo c Word = wrap 16 (slot c 0). Proof. done. Qed.

Lemma shiftr_16 x y : Z.shiftr x 8 = Z.shiftr y 8 -> Z.shiftr x 16 = Z.shiftr y 16.
Proof. intros E. change 16 with (8 + 8). by rewrite <-!Z.shiftr_shiftr, E by lia. Qed.

Lemma load_byte c q r : gpr_wf c -> u8 q -> u8 r -> loaded c Byte q r (write_gpr8 (write_gpr8 c 0 q) 4 r).
Proof.
  intros Hw Hq Hr. rewrite ah_write, al_write.
  destruct (merge_low (slot c 0) q (slot_u32 c 0 Hw) Hq) as (H1 & H2 & H3).
  set (y := Z.lor (Z.ldiff (slot c 0) 255) q) in *. pose proof (set_slot_wf c 0 y Hw H1) as Hw1.
  rewrite slot_set by (done || lia). rewrite Z.eqb_refl.
  destruct (merge_high y r H1 Hr) as (G1 & G2 & G3 & G4).
  set (z := Z.lor (Z.ldiff y 65280) (Z.shiftl r 8)) in *.
  assert (Hs : forall r', 0 <= r' < 8 -> slot (set_slot (set_slot c 0 y) 0 z) r' = if r' =? 0 then z else slot c r').
  { intros r' Hr'. rewrite !slot_set by (done || lia). by destruct r'. }
  split.
  - by apply set_slot_wf.
  - rewrite lo_byte, Hs by lia. rewrite Z.eqb_refl. congruence.
  - by rewrite hi_byte, Hs by lia.
  - done.
  - intros r' Hr' Hne _. rewrite Hs by done. by rewrite (proj2 (Z.eqb_neq _ _)).
  - intros _ r' Hr'. rewrite Hs by done. destruct (Z.eqb_spec r' 0) as [->|]; [|done].
    rewrite G4. by apply shiftr_16.
Qed.

Lemma load_word c q r : gpr_wf c -> u16 q -> u16 r -> loaded c Word q r (write_gpr16 (write_gpr16 c 0 q) 2 r).
Proof.
  intros Hw Hq Hr. rewrite dx_write, ax_write.
  destruct (merge16 (slot c 0) q (slot_u32 c 0 Hw) Hq) as (H1 & H2 & H3).
  set (y := Z.lor (Z.land (slot c 0) 4294901760) q) in *. pose proof (set_slot_wf c 0 y Hw H1) as Hw1.
  rewrite slot_set by (done || lia). change (if 0 =? 2 then y else slot c 2) with (slot c 2).
  destruct (merge16 (slot c 2) r (slot_u32 c 2 Hw) Hr) as (G1 & G2 & G3).
  set (z := Z.lor (Z.land (slot c 2) 4294901760) r) in *.
  assert (Hs : forall r', 0 <= r' < 8 -> slot (set_slot (set_slot c 0 y) 2 z) r' =
    if r' =? 2 then z else if r' =? 0 then y else slot c r').
  { intros r' Hr'. rewrite !slot_set by (done || lia). by rewrite (Z.eqb_sym 2), (Z.eqb_sym 0). }
  split.
  - by apply set_slot_wf.
  - by rewrite lo_word, Hs by lia.
  - by rewrite hi_word, Hs by lia.
  - done.
  - intros r' Hr' Hne [?|?]; [done|]. rewrite Hs by done. by rewrite !(proj2 (Z.eqb_neq _ _)).
  - intros _ r' Hr'. rewrite Hs by done.
    destruct (Z.eqb_spec r' 2) as [->|]; [done|]. by destruct (Z.eqb_spec r' 0) as [->|].
Qed.

Lemma load_dword c q r : gpr_wf c -> u32 q -> u32 r -> loaded c Dword q r (write_gpr32 (write_gpr32 c 0 q) 2 r).
Proof.
  intros Hw Hq Hr. change (write_gpr32 (write_gpr32 c 0 q) 2 r) with (set_slot (set_slot c 0 q) 2 r). pose proof (set_slot_wf c 0 q Hw Hq) as Hw1.
  assert (Hs : forall r', 0 <= r' < 8 -> slot (set_slot (set_slot c 0 q) 2 r) r' =
    if r' =? 2 then r else if r' =? 0 then q else slot c r').
  { intros r' Hr'. rewrite !slot_set by (done || lia). by rewrite (Z.eqb_sym 2), (Z.eqb_sym 0). }
  split; [by apply set_slot_wf|by apply (Hs 0)|by apply (Hs 2)|done| |done].
  intros r' Hr' Hne [?|?]; [done|]. rewrite Hs by done. by rewrite !(proj2 (Z.eqb_neq _ _)).
Qed.

(** AX seen as AH:AL. *)
Lemma ax_pair c : gpr_wf c -> read_gpr16 c 0 = acc c Byte.
Proof.
  intros Hw. unfold acc. rewrite hi_byte, lo_byte. change (read_gpr16 c 0) with (wrap 16 (slot c 0)).
  change (2 ^ wbits Byte) with 256. rewrite Z.shiftr_div_pow2 by lia. unfold wrap.
  change (2 ^ 8) with 256. change (2 ^ 16) with (256 * 256). rewrite Z.rem_mul_r by lia. lia.
Qed.

Lemma load_ax c p : gpr_wf c -> u16 p -> loaded c Byte (p mod 256) (p / 256) (write_gpr16 c 0 p).
Proof.
  intros Hw Hp. rewrite ax_write.
  destruct (merge16 (slot c 0) p (slot_u32 c 0 Hw) Hp) as (H1 & H2 & H3).
  set (y := Z.lor (Z.land (slot c 0) 4294901760) p) in *. pose proof (set_slot_wf c 0 y Hw H1) as Hw1.
  assert (Hs : forall r', 0 <= r' < 8 -> slot (set_slot c 0 y) r' = if r' =? 0 then y else slot c r').
  { intros r' Hr'. rewrite slot_set by (done || lia). by rewrite Z.eqb_sym. }
  pose proof (ax_pair _ Hw1) as Hax. change (read_gpr16 (set_slot c 0 y) 0) with (wrap 16 (slot (set_slot c 0 y) 0)) in Hax. rewrite Hs in Hax by lia.
  cbn [Z.eqb] in Hax. rewrite H2 in Hax. unfold acc in Hax. change (2 ^ wbits Byte) with 256 in Hax.
  assert (0 <= lo (set_slot c 0 y) Byte < 256) by (apply (wrap_in_width 8); lia).
  split.
  - done.
  - apply (Z.mod_unique_pos _ _ (hi (set_slot c 0 y) Byte)); lia.
  - apply (Z.div_unique_pos _ _ _ (lo (set_slot c 0 y) Byte)); lia.
  - done.
  - intros r' Hr' Hne _. rewrite Hs by done. by rewrite (proj2 (Z.eqb_neq _ _)).
  - intros _ r' Hr'. rewrite Hs by done. by destruct (Z.eqb_spec r' 0) as [->|].
Qed.

(* ------------------------------------------------------------------ *)
(** ** Integers of a width, signed or not *)

Definition as_int (signed : bool) (n z : Z) : Z := if signed then as_signed n z else wrap n z.

(** The integers a width represents. *)
Definition int_range (signed : bool) (n z : Z) : Prop :=
  if signed then - 2 ^ (n - 1) <= z < 2 ^ (n - 1) else 0 <= z < 2 ^ n.

Lemma pow_half n : 1 <= n -> 2 ^ n = 2 * 2 ^ (n - 1).
Proof. intros. replace n with (1 + (n - 1)) at 1 by lia. by rewrite Z.pow_add_r by lia. Qed.

Lemma as_int_range signed n z : 1 <= n -> int_range signed n (as_int signed n z).
Proof.
  intros Hn. pose proof (wrap_in_width n z ltac:(lia)) as Hw. unfold as_int, int_range.
  destruct signed; [|exact Hw]. unfold as_signed. unfold in_width in Hw. rewrite (pow_half n) in * by lia.
  destruct (Z.ltb_spec (wrap n z) (2 ^ (n - 1))); lia.
Qed.

Lemma as_int_id signed n z : 1 <= n -> int_range signed n z -> as_int signed n z = z.
Proof.
  intros Hn Hz. unfold as_int, int_range in *. destruct signed; [|by apply wrap_id].
  unfold as_signed, wrap. pose proof (pow_half n Hn) as Hp.
  destruct (Z.lt_ge_cases z 0).
  - rewrite <-(Z.mod_unique_pos z (2 ^ n) (-1) (z + 2 ^ n)) by lia.
    rewrite (proj2 (Z.ltb_ge _ _)) by lia. lia.
  - rewrite Z.mod_small by lia. by rewrite (proj2 (Z.ltb_lt _ _)) by lia.
Qed.

Lemma as_int_wrap signed n m z : 0 <= n <= m -> as_int signed n (wrap m z) = as_int signed n z.
Proof. intros. unfold as_int, as_signed. rewrite !wrap_wrap by done. done. Qed.

Lemma wrap_as_int signed n z : 1 <= n -> wrap n (as_int signed n z) = wrap n z.
Proof.
  intros Hn. unfold as_int. destruct signed; [|apply wrap_wrap; lia]. unfold as_signed.
  destruct (_ <? _); [apply wrap_wrap; lia|]. unfold wrap.
  replace (z mod 2 ^ n - 2 ^ n) with (z mod 2 ^ n + (-1) * 2 ^ n) by lia.
  rewrite Z.mod_add by (apply Z.pow_nonzero; lia). apply Z.mod_mod, Z.pow_nonzero; lia.
Qed.

(** A product of two integers of a width has twice the width. *)
Lemma product_range signed n x y : 1 <= n -> int_range signed n x -> int_range signed n y ->
  int_range signed (2 * n) (x * y).
Proof.
  intros Hn. unfold int_range. replace (2 * n - 1) with ((n - 1) + n) by lia.
  replace (2 * n) with (n + n) by lia. rewrite !Z.pow_add_r by lia. rewrite (pow_half n) by done.
  pose proof (Z.pow_pos_nonneg 2 (n - 1) ltac:(lia) ltac:(lia)). set (H' := 2 ^ (n - 1)) in *.
  destruct signed; nia.
Qed.

Lemma split_wrap n z : 0 <= n -> wrap n (Z.shiftr z n) * 2 ^ n + wrap n z = wrap (2 * n) z.
Proof.
  intros Hn. rewrite Z.shiftr_div_pow2 by done. unfold wrap. replace (2 * n) with (n + n) by lia.
  rewrite Z.pow_add_r, Z.rem_mul_r by (try apply Z.pow_nonzero; try apply Z.pow_pos_nonneg; lia). lia.
Qed.

(* ------------------------------------------------------------------ *)
(** ** Multiplication *)

Lemma store_product c w p : gpr_wf c ->
  loaded c w (wrap (wbits w) p) (wrap (wbits w) (Z.shiftr p (wbits w)))
    (match w with
     | Byte => write_gpr16 c 0 (wrap 16 p)
     | Word => write_gpr16 (write_gpr16 c 0 (wrap 16 p)) 2 (wrap 16 (Z.shiftr p 16))
     | Dword => write_gpr32 (write_gpr32 c 0 (wrap 32 p)) 2 (wrap 32 (Z.shiftr p 32))
     end).
Proof.
  intros Hw. destruct w.
  - replace (wrap (wbits Byte) p) with (wrap 16 p mod 256).
    2: { exact (wrap_wrap 16 8 p ltac:(lia)). }
    replace (wrap (wbits Byte) (Z.shiftr p (wbits Byte))) with (wrap 16 p / 256).
    2: { pose proof (split_wrap 8 p ltac:(lia)) as E. change (2 * 8) with 16 in E. rewrite <-E.
         change (2 ^ 8) with 256. change (wbits Byte) with 8.
         pose proof (wrap_in_width 8 p ltac:(lia)) as Hb. unfold in_width in Hb. change (2 ^ 8) with 256 in Hb.
         rewrite Z.div_add_l, Z.div_small by lia. lia. }
    apply load_ax; [done|apply wrap_in_width; lia].
  - apply load_word; [done|apply wrap_in_width; lia..].
  - apply load_dword; [done|apply wrap_in_width; lia..].
Qed.

Lemma loaded_acc c w p c' : loaded c w (wrap (wbits w) p) (wrap (wbits w) (Z.shiftr p (wbits w))) c' ->
  acc c' w = wrap (2 * wbits w) p.
Proof. intros H. unfold acc. rewrite (ld_lo _ _ _ _ _ H), (ld_hi _ _ _ _ _ H). apply split_wrap. pose proof (wbits_pos w). lia. Qed.

Lemma arch_gpr c g : arch (c <| gpr := g |>) = arch c.
Proof. done. Qed.

Lemma acc_gpr c d w : gpr c = gpr d -> acc c w = acc d w /\ lo c w = lo d w /\ hi c w = hi d w.
Proof.
  intros E. assert (forall r, slot c r = slot d r) as Hs by (intros r; unfold slot; by rewrite E).
  unfold acc, lo, hi, read_gpr8, read_gpr16, read_gpr32. destruct w; rewrite !Hs; done.
Qed.

(** CF and OF after a multiplication: the product does not fit one width. *)
Definition significant (signed : bool) (w : BusWidth) (p : Z) : bool :=
  negb (p =? as_int signed (wbits w) p).

Lemma unsigned_significant n p : 0 <= n -> 0 <= p < 2 ^ (2 * n) ->
  negb (Z.shiftr p n =? 0) = negb (p =? wrap n p).
Proof.
  intros Hn Hp. rewrite Z.shiftr_div_pow2 by done. f_equal. apply eq_true_iff_eq. rewrite !Z.eqb_eq.
  pose proof (Z.pow_pos_nonneg 2 n ltac:(lia) Hn). unfold wrap.
  pose proof (Z.div_mod p (2 ^ n) ltac:(lia)). nia.
Qed.

Lemma high_byte_significant p : 0 <= p < 65536 -> has p 65280 = negb (p =? wrap 8 p).
Proof.
  intros Hp. rewrite <-(unsigned_significant 8) by (cbn; lia). unfold has. f_equal.
  assert (Z.land p 65280 = Z.shiftl (Z.shiftr p 8) 8) as ->.
  { apply Z.bits_inj'. intros i Hi. rewrite Z.land_spec, Z.shiftl_spec by done.
    change 65280 with (Z.ldiff (Z.ones 16) (Z.ones 8)). rewrite Z.ldiff_spec.
    destruct (Z.lt_ge_cases i 8).
    - rewrite (Z.ones_spec_low 8), (Z.testbit_neg_r (Z.shiftr p 8)) by lia. by rewrite !andb_false_r.
    - rewrite (Z.ones_spec_high 8), Z.shiftr_spec, andb_true_r by lia. replace (i - 8 + 8) with i by lia.
      destruct (Z.lt_ge_cases i 16).
      + by rewrite Z.ones_spec_low, andb_true_r by lia.
      + rewrite (testbit_high 16 p i) by zlia. done. }
  apply eq_true_iff_eq. rewrite !Z.eqb_eq. rewrite Z.shiftl_mul_pow2 by lia. change (2 ^ 8) with 256. lia.
Qed.

Lemma lo_range c w : gpr_wf c -> in_width (wbits w) (lo c w).
Proof.
  intros Hw. destruct w; [apply (wrap_in_width 8); lia|apply (wrap_in_width 16); lia|apply (slot_u32 c 0 Hw)].
Qed.

Lemma hi_range c w : gpr_wf c -> in_width (wbits w) (hi c w).
Proof.
  intros Hw. destruct w; [apply (wrap_in_width 8); lia|apply (wrap_in_width 16); lia|apply (slot_u32 c 2 Hw)].
Qed.

(** The product and what the source computes of it. *)
Lemma mul_form c operand signed w : gpr_wf c -> u32 operand ->
  let p := as_int signed (wbits w) (lo c w) * as_int signed (wbits w) operand in
  exists c1, loaded c w (wrap (wbits w) p) (wrap (wbits w) (Z.shiftr p (wbits w))) c1 /\
    mul c operand signed w = set_flag c1 (Z.lor FLAG_CF FLAG_OF) (significant signed w p).
Proof.
  intros Hw Ho. cbv zeta. set (p := _ * _).
  assert (Hr : int_range signed (2 * wbits w) p).
  { pose proof (wbits_pos w). apply product_range; [lia|apply as_int_range; lia..]. }
  eexists. split; [apply (store_product c w p Hw)|].
  assert (Hid : as_int signed (2 * wbits w) p = p) by (pose proof (wbits_pos w); apply as_int_id; [lia|done]).
  assert (Hlo : wrap (wbits w) (lo c w) = lo c w) by (by apply wrap_id, lo_range).
  assert (H32 : wrap 32 operand = operand) by by apply wrap_id.
  subst p. unfold mul, significant, as_int, int_range in *. destruct w, signed; cbv zeta.
  all: change (wbits Byte) with 8 in *; change (wbits Word) with 16 in *; change (wbits Dword) with 32 in *;
    change (2 * 8) with 16 in *; change (2 * 16) with 32 in *; change (2 * 32) with 64 in *; unfold lo in *.
  all: rewrite ?Hlo, ?H32 in *; rewrite Hid.
  - done.
  - rewrite high_byte_significant by exact Hr. done.
  - done.
  - rewrite (unsigned_significant 16) by (zlia || exact Hr). done.
  - done.
  - rewrite (unsigned_significant 32) by (zlia || exact Hr). done.
Qed.

Lemma mul_spec c operand signed w : gpr_wf c -> u32 operand ->
  let p := as_int signed (wbits w) (lo c w) * as_int signed (wbits w) operand in
  let c' := mul c operand signed w in
  exists c1, loaded c w (wrap (wbits w) p) (wrap (wbits w) (Z.shiftr p (wbits w))) c1 /\
    gpr c' = gpr c1 /\ as_int signed (2 * wbits w) (acc c' w) = p /\
    arch c' = with_arith (arch c)
      ((arith_of (arch c)) <| a_cf := significant signed w p |> <| a_of := significant signed w p |>).
Proof.
  intros Hw Ho. cbv zeta. destruct (mul_form c operand signed w Hw Ho) as (c1 & Hl & E).
  rewrite E. set (p := _ * _) in *. exists c1. split; [done|].
  pose proof (set_CF_OF c1 (significant signed w p)) as Hs.
  assert (arch c1 = arch c) as Ha by (rewrite (ld_rest _ _ _ _ _ Hl); apply arch_gpr). rewrite Ha in Hs.
  split; [apply Hs|]. split; [|rewrite (w_arch _ _ _ Hs), Ha; done].
  destruct (acc_gpr _ c1 w (w_gpr _ _ _ Hs)) as (-> & _). rewrite (loaded_acc _ _ _ _ Hl).
  pose proof (wbits_pos w). rewrite as_int_wrap by lia. apply as_int_id; [lia|].
  apply product_range; [lia|apply as_int_range; lia..].
Qed.

(** Multiplication is exact: AX, DX:AX or EDX:EAX holds the whole product of the
    accumulator and the operand, unsigned or in two's complement; CF and OF say
    whether it exceeds one width; the other flags and registers keep their values. *)
Theorem mul_exact c operand signed w :
  gpr_wf c -> u32 operand ->
  let p := as_int signed (wbits w) (lo c w) * as_int signed (wbits w) operand in
  let c' := mul c operand signed w in
  as_int signed (2 * wbits w) (acc c' w) = p /\
  arch c' = with_arith (arch c)
    ((arith_of (arch c)) <| a_cf := significant signed w p |> <| a_of := significant signed w p |>) /\
  gpr_wf c' /\
  (forall r, 0 <= r < 8 -> r <> 0 -> w = Byte \/ r <> 2 -> slot c' r = slot c r) /\
  (w <> Dword -> forall r, 0 <= r < 8 -> Z.shiftr (slot c' r) 16 = Z.shiftr (slot c r) 16).
Proof.
  intros Hw Ho. cbv zeta. destruct (mul_spec c operand signed w Hw Ho) as (c1 & Hl & Hg & Hp & Ha).
  assert (Hs : forall r, slot (mul c operand signed w) r = slot c1 r) by (intros r; unfold slot; by rewrite Hg).
  split; [done|]. split; [done|]. split; [|split].
  - pose proof (ld_wf _ _ _ _ _ Hl) as [??]. split; congruence.
  - intros r ???. rewrite Hs. by apply (ld_slots _ _ _ _ _ Hl).
  - intros ? r ?. rewrite Hs. by apply (ld_upper _ _ _ _ _ Hl).
Qed.

(* ------------------------------------------------------------------ *)
(** ** Division *)

Definition fits_in (signed : bool) (w : BusWidth) (q : Z) : bool :=
  if signed then (- 2 ^ (wbits w - 1) <=? q) && (q <? 2 ^ (wbits w - 1)) else (0 <=? q) && (q <? 2 ^ wbits w).

Lemma fits_in_range signed w q : fits_in signed w q = true <-> int_range signed (wbits w) q.
Proof. unfold fits_in, int_range. destruct signed; rewrite andb_true_iff, Z.leb_le, Z.ltb_lt; done. Qed.

Lemma as_int_zero signed n z : 1 <= n -> (as_int signed n z =? 0) = (wrap n z =? 0).
Proof.
  intros Hn. apply eq_true_iff_eq. rewrite !Z.eqb_eq. pose proof (wrap_in_width n z ltac:(lia)) as Hw.
  unfold in_width in Hw. unfold as_int, as_signed. destruct signed; [|done].
  pose proof (pow_half n Hn). pose proof (Z.pow_pos_nonneg 2 (n - 1)).
  destruct (Z.ltb_spec (wrap n z) (2 ^ (n - 1))); lia.
Qed.

(** The pair written by a division. *)
Definition put_pair (c : Cpu) (w : BusWidth) (q r : Z) : Cpu :=
  match w with
  | Byte => write_gpr8 (write_gpr8 c 0 q) 4 r
  | Word => write_gpr16 (write_gpr16 c 0 q) 2 r
  | Dword => write_gpr32 (write_gpr32 c 0 q) 2 r
  end.

Lemma put_pair_loaded c w q r : gpr_wf c -> in_width (wbits w) q -> in_width (wbits w) r ->
  loaded c w q r (put_pair c w q r).
Proof. intros. destruct w; [by apply load_byte|by apply load_word|by apply load_dword]. Qed.

Lemma join_pair n h l : 0 <= n -> in_width n l -> Z.lor (Z.shiftl h n) l = h * 2 ^ n + l.
Proof. intros Hn Hl. rewrite Z.lor_comm, lor_shiftl by done. lia. Qed.

Lemma acc_range c w : gpr_wf c -> in_width (2 * wbits w) (acc c w).
Proof.
  intros Hw. pose proof (lo_range c w Hw). pose proof (hi_range c w Hw). unfold in_width, acc in *.
  pose proof (wbits_pos w). replace (2 * wbits w) with (wbits w + wbits w) by lia. rewrite Z.pow_add_r by lia. nia.
Qed.

Lemma gpr16_range c i : in_width 16 (read_gpr16 c i).
Proof. apply wrap_in_width. lia. Qed.

Lemma unsigned_quotient w n d {X} (err : X) (ok : Z -> Z -> X) : 0 <= n -> 0 <= d -> d <> 0 ->
  (if negb (fits_in false w (Z.quot n d)) then err else ok (Z.quot n d) (Z.rem n d)) =
  if 2 ^ wbits w - 1 <? n / d then err else ok (n / d) (n mod d).
Proof.
  intros Hn Hd Hz. rewrite Z.quot_div_nonneg, Z.rem_mod_nonneg by lia. unfold fits_in.
  pose proof (Z.div_pos n d Hn ltac:(lia)).
  rewrite (proj2 (Z.leb_le 0 _)) by lia. cbn [andb]. rewrite <-Z.leb_antisym.
  destruct (Z.leb_spec (2 ^ wbits w) (n / d)), (Z.ltb_spec (2 ^ wbits w - 1) (n / d)); done || lia.
Qed.

(** Every check of the source but the range of the quotient is implied by it. *)
Lemma signed_quotient w W n d : int_range true (2 * wbits w) n -> d <> 0 -> (wbits w < W) ->
  forall {X} (err : X) (ok : Z -> Z -> X),
  match checked_div W n d, checked_rem W n d with
  | Some q, Some r =>
      if negb ((- 2 ^ (wbits w - 1) <=? q) && (q <=? 2 ^ (wbits w - 1) - 1)) then err else ok q r
  | _, _ => err
  end = if negb (fits_in true w (Z.quot n d)) then err else ok (Z.quot n d) (Z.rem n d).
Proof.
  intros Hn Hd HW X err ok. unfold checked_div, checked_rem. rewrite (proj2 (Z.eqb_neq d 0)) by done. cbn [orb].
  pose proof (wbits_pos w). pose proof (Z.pow_lt_mono_r 2 (wbits w - 1) (W - 1)).
  destruct ((n =? - 2 ^ (W - 1)) && (d =? -1)) eqn:E; bool_prop.
  - subst d n. replace (Z.quot (- 2 ^ (W - 1)) (-1)) with (2 ^ (W - 1)).
    2: { change (-1) with (- (1)). rewrite Z.quot_opp_opp, Z.quot_1_r by lia. done. }
    unfold fits_in. rewrite (proj2 (Z.ltb_ge (2 ^ (W - 1)) _)) by lia. by rewrite andb_false_r.
  - clear E. unfold fits_in.
    replace (Z.quot n d <=? 2 ^ (wbits w - 1) - 1) with (Z.quot n d <? 2 ^ (wbits w - 1)); [done|].
    apply eq_true_iff_eq. rewrite Z.leb_le, Z.ltb_lt. lia.
Qed.

Lemma div_form c operand signed w : gpr_wf c -> u32 operand ->
  let n := as_int signed (2 * wbits w) (acc c w) in
  let d := as_int signed (wbits w) operand in
  div c operand signed w =
  if (d =? 0) || negb (fits_in signed w (Z.quot n d)) then (c, Err divide_error)
  else (put_pair c w (wrap (wbits w) (Z.quot n d)) (wrap (wbits w) (Z.rem n d)), Ok tt).
Proof.
  intros Hw Ho. cbv zeta. unfold div. rewrite land_mask. pose proof (wbits_pos w).
  rewrite as_int_zero by lia. change (wrap (wbits w) operand) with (uint w operand).
  destruct (uint w operand =? 0) eqn:E0; [done|]. cbn [orb]. bool_prop.
  pose proof (as_int_range signed (2 * wbits w) (acc c w) ltac:(lia)) as Hn.
  pose proof (as_int_range signed (wbits w) operand ltac:(lia)) as Hd.
  pose proof (as_int_zero signed (wbits w) operand ltac:(lia)) as Hz.
  change (wrap (wbits w) operand) with (uint w operand) in Hz. rewrite (proj2 (Z.eqb_neq _ _) E0) in Hz.
  apply Z.eqb_neq in Hz. pose proof (acc_range c w Hw) as Hacc. clear E0.
  destruct signed.
  - unfold as_int in *. destruct w; cbv zeta.
    + rewrite (ax_pair c Hw).
      apply (signed_quotient Byte 32 (as_signed 16 (acc c Byte)) (as_signed 8 operand) Hn Hz ltac:(reflexivity || done)
        (c, Err divide_error) (fun q r => (write_gpr8 (write_gpr8 c 0 (wrap 8 q)) 4 (wrap 8 r), Ok tt))).
    + rewrite join_pair by (lia || apply gpr16_range).
      apply (signed_quotient Word 32 (as_signed 32 (acc c Word)) (as_signed 16 operand) Hn Hz ltac:(reflexivity || done)
        (c, Err divide_error) (fun q r => (write_gpr16 (write_gpr16 c 0 (wrap 16 q)) 2 (wrap 16 r), Ok tt))).
    + rewrite join_pair by (lia || apply (slot_u32 c 0 Hw)).
      apply (signed_quotient Dword 64 (as_signed 64 (acc c Dword)) (as_signed 32 operand) Hn Hz ltac:(reflexivity || done)
        (c, Err divide_error) (fun q r => (write_gpr32 (write_gpr32 c 0 (wrap 32 q)) 2 (wrap 32 r), Ok tt))).
  - unfold as_int, int_range in *. rewrite (wrap_id _ _ Hacc) in Hn |- *. destruct w; cbv zeta.
    + rewrite (ax_pair c Hw). symmetry.
      apply (unsigned_quotient Byte (acc c Byte) (wrap 8 operand) (c, Err divide_error)
        (fun q r => (write_gpr8 (write_gpr8 c 0 (wrap 8 q)) 4 (wrap 8 r), Ok tt))); [apply Hacc|apply Hd|done].
    + rewrite join_pair by (lia || apply gpr16_range). symmetry.
      apply (unsigned_quotient Word (acc c Word) (wrap 16 operand) (c, Err divide_error)
        (fun q r => (write_gpr16 (write_gpr16 c 0 (wrap 16 q)) 2 (wrap 16 r), Ok tt))); [apply Hacc|apply Hd|done].
    + rewrite join_pair by (lia || apply (slot_u32 c 0 Hw)).
      change (wbits Dword) with 32 in *. rewrite (wrap_id 32 operand Ho) in Hd, Hz |- *. symmetry.
      apply (unsigned_quotient Dword (acc c Dword) operand (c, Err divide_error)
        (fun q r => (write_gpr32 (write_gpr32 c 0 (wrap 32 q)) 2 (wrap 32 r), Ok tt))); [apply Hacc|apply Hd|done].
Qed.

Lemma as_int_of_wrap signed n z : 1 <= n -> int_range signed n z -> as_int signed n (wrap n z) = z.
Proof. intros. rewrite as_int_wrap by lia. by apply as_int_id. Qed.

(** A remainder fits where its divisor does. *)
Lemma rem_range signed n a d : 1 <= n -> d <> 0 -> int_range signed n d ->
  (signed = false -> 0 <= a) -> int_range signed n (Z.rem a d).
Proof.
  intros Hn Hd Hr Ha. unfold int_range in *. pose proof (Z.rem_bound_abs a d Hd).
  destruct signed; [lia|]. specialize (Ha eq_refl). pose proof (Z.rem_bound_pos a d Ha ltac:(lia)). lia.
Qed.

Lemma div_spec c operand signed w : gpr_wf c -> u32 operand ->
  let n := as_int signed (2 * wbits w) (acc c w) in
  let d := as_int signed (wbits w) operand in
  if (d =? 0) || negb (fits_in signed w (Z.quot n d)) then div c operand signed w = (c, Err divide_error)
  else exists c', div c operand signed w = (c', Ok tt) /\
    loaded c w (wrap (wbits w) (Z.quot n d)) (wrap (wbits w) (Z.rem n d)) c' /\
    as_int signed (wbits w) (lo c' w) = Z.quot n d /\ as_int signed (wbits w) (hi c' w) = Z.rem n d.
Proof.
  intros Hw Ho. cbv zeta. rewrite div_form by done. pose proof (wbits_pos w).
  set (n := as_int signed (2 * wbits w) (acc c w)). set (d := as_int signed (wbits w) operand).
  destruct ((d =? 0) || _) eqn:E; [done|]. bool_prop. eexists. split; [reflexivity|].
  assert (Hl : loaded c w (wrap (wbits w) (Z.quot n d)) (wrap (wbits w) (Z.rem n d))
    (put_pair c w (wrap (wbits w) (Z.quot n d)) (wrap (wbits w) (Z.rem n d))))
    by (apply put_pair_loaded; [done|apply wrap_in_width; lia..]).
  split; [exact Hl|]. rewrite (ld_lo _ _ _ _ _ Hl), (ld_hi _ _ _ _ _ Hl).
  rewrite !as_int_of_wrap; try lia; try done.
  - apply rem_range; [lia|done|apply as_int_range; lia|].
    intros ->. apply wrap_in_width. lia.
  - by apply fits_in_range.
Qed.

(** C30.  Division is exact and traps exactly when it must: with [n] the
    double-width dividend and [d] the operand (unsigned or two's complement), the
    registers receive [n] divided by [d] truncated towards zero and its remainder
    when [d] is not zero and the quotient fits the width, and otherwise #DE is
    raised with the whole processor unchanged.  Flags never change. *)
Theorem div_exact c operand signed w :
  gpr_wf c -> u32 operand ->
  let n := as_int signed (2 * wbits w) (acc c w) in
  let d := as_int signed (wbits w) operand in
  (d <> 0 /\ int_range signed (wbits w) (Z.quot n d) ->
   exists c', div c operand signed w = (c', Ok tt) /\ gpr_wf c' /\ c' = c <| gpr := gpr c' |> /\
     as_int signed (wbits w) (lo c' w) * d + as_int signed (wbits w) (hi c' w) = n /\
     Z.abs (as_int signed (wbits w) (hi c' w)) < Z.abs d /\
     0 <= n * as_int signed (wbits w) (hi c' w) /\
     (forall r, 0 <= r < 8 -> r <> 0 -> w = Byte \/ r <> 2 -> slot c' r = slot c r)) /\
  (~ (d <> 0 /\ int_range signed (wbits w) (Z.quot n d)) ->
   div c operand signed w = (c, Err (Exception 0 None))).
Proof.
  intros Hw Ho. cbv zeta. pose proof (div_spec c operand signed w Hw Ho) as Hs. cbv zeta in Hs.
  set (n := as_int signed (2 * wbits w) (acc c w)) in *. set (d := as_int signed (wbits w) operand) in *.
  rewrite <-fits_in_range.
  destruct (d =? 0) eqn:Ed; cbn [orb] in Hs; bool_prop.
  { split; [tauto|done]. }
  destruct (fits_in signed w (Z.quot n d)); cbn [negb] in Hs; [|split; [intros []|]; done].
  split; [intros _|intros Hn; destruct Hn; done].
  destruct Hs as (c' & E & Hl & Hq & Hr). exists c'. rewrite Hq, Hr.
  split; [done|]. split; [apply Hl|]. split; [apply Hl|].
  split; [pose proof (Z.quot_rem' n d); lia|]. split; [by apply Z.rem_bound_abs|].
  split; [pose proof (Z.rem_sign_mul n d Ed); lia|]. apply (ld_slots _ _ _ _ _ Hl).
Qed.

Definition ax_sample : Cpu := sample <| gpr := [300; 0; 7; 0; 0; 0; 0; 0] |>.

Lemma ax_sample_wf : gpr_wf ax_sample.
Proof. split; [reflexivity|]. repeat (constructor; [unfold in_width; lia|]). constructor. Qed.

Lemma mul_exact_witness :
  gpr_wf ax_sample /\ u32 200 /\ as_int true (2 * wbits Byte) (acc (mul ax_sample 200 true Byte) Byte) = -2464.
Proof.
  assert (H : u32 200) by (unfold in_width; lia). split; [exact ax_sample_wf|]. split; [exact H|].
  destruct (mul_exact ax_sample 200 true Byte ax_sample_wf H) as [E _]. exact E.
Defined.

Lemma div_exact_witness :
  gpr_wf ax_sample /\ u32 7 /\ (exists c', div ax_sample 7 false Byte = (c', Ok tt)) /\
  div ax_sample 1 false Byte = (ax_sample, Err (Exception 0 None)).
Proof.
  assert (H7 : u32 7) by (unfold in_width; lia). assert (H1 : u32 1) by (unfold in_width; lia).
  split; [exact ax_sample_wf|]. split; [exact H7|]. split.
  - destruct (div_exact ax_sample 7 false Byte ax_sample_wf H7) as [E _].
    destruct E as (c' & E & _); [|by exists c']. vm_compute. repeat split; discriminate.
  - destruct (div_exact ax_sample 1 false Byte ax_sample_wf H1) as [_ E]. apply E.
    intros [_ [_ Hq]]. vm_compute in Hq. discriminate.
Defined.

(** Division undoes multiplication: dividing the product by the same non-zero
    operand succeeds, restores the accumulator and leaves a zero remainder, for
    unsigned and signed operands of every width. *)
Theorem mul_div_roundtrip c operand signed w :
  gpr_wf c -> u32 operand -> as_int signed (wbits w) operand <> 0 ->
  exists c', div (mul c operand signed w) operand signed w = (c', Ok tt) /\
    lo c' w = lo c w /\ hi c' w = 0.
Proof.
  intros Hw Ho Hd. destruct (mul_spec c operand signed w Hw Ho) as (c1 & Hl & Hg & Hp & _). pose proof (wbits_pos w).
  set (c2 := mul c operand signed w) in *.
  assert (Hw2 : gpr_wf c2) by (pose proof (ld_wf _ _ _ _ _ Hl) as [??]; split; congruence).
  pose proof (div_spec c2 operand signed w Hw2 Ho) as Hs. cbv zeta in Hs. rewrite Hp in Hs.
  set (d := as_int signed (wbits w) operand) in *. set (x := as_int signed (wbits w) (lo c w)) in *.
  rewrite (proj2 (Z.eqb_neq d 0)), Z.quot_mul, Z.rem_mul in Hs by done.
  assert (Hx : int_range signed (wbits w) x) by (apply as_int_range; lia).
  rewrite (proj2 (fits_in_range signed w x) Hx) in Hs. cbn [orb negb] in Hs.
  destruct Hs as (c' & E & Hl' & _). exists c'. split; [done|].
  rewrite (ld_lo _ _ _ _ _ Hl'), (ld_hi _ _ _ _ _ Hl'). split; [|done].
  subst x. rewrite wrap_as_int by lia. apply wrap_id, lo_range, Hw.
Qed.

Lemma mul_div_roundtrip_witness :
  gpr_wf ax_sample /\ u32 200 /\ as_int true (wbits Byte) 200 <> 0 /\
  exists c', div (mul ax_sample 200 true Byte) 200 true Byte = (c', Ok tt) /\ lo c' Byte = 44 /\ hi c' Byte = 0.
Proof.
  assert (H : u32 200) by (unfold in_width; lia). assert (Hn : as_int true (wbits Byte) 200 <> 0) by (vm_compute; discriminate).
  split; [exact ax_sample_wf|]. split; [exact H|]. split; [exact Hn|].
  exact (mul_div_roundtrip ax_sample 200 true Byte ax_sample_wf H Hn).
Defined.

End MulDiv.
