(* ===== verification/CpuLazy.v ===== *)
(** * The laziness of the flags is unobservable

    Every operation of the integer core respects architectural equality ([ceq]), so a
    program of core calls gives the same answers and the same architectural state
    however often its pending flags are settled in between. *)

From S2P Require Import Prelude Memory CpuFlags CpuAlu CpuShift CpuMulDiv.
Import CpuFlags.Flags CpuAlu.Alu CpuShift.Shift CpuMulDiv.MulDiv.

Module Lazy.

(* ------------------------------------------------------------------ *)
(** ** Operations respect architectural equality *)

(** A result and a successor that agree. *)
Definition same {A} (x y : A * Cpu) : Prop := x.1 = y.1 /\ ceq x.2 y.2.
Definition same_opt {A} (x y : option (A * Cpu)) : Prop :=
  match x, y with
  | Some x, Some y => same x y
  | None, None => True
  | _, _ => False
  end.

Section Respects.
Context (c d : Cpu) (E : ceq c d).

Lemma alu_ceq o a b w : same_opt (alu c o a b w) (alu d o a b w).
Proof.
  pose proof (alu_spec c o a b w) as Hc. pose proof (alu_spec d o a b w) as Hd.
  rewrite <-(ceq_arch _ _ E) in Hd. destruct (alu_ref _ _ _ _ _) as [[r x]|].
  - destruct Hc as (c' & -> & Hc), Hd as (d' & -> & Hd). split; [done|]. by apply (writes_ceq c c' d d' x).
  - by rewrite Hc, Hd.
Qed.

Lemma inc_dec_ceq value is_dec w : same (inc_dec c value is_dec w) (inc_dec d value is_dec w).
Proof.
  pose proof (inc_dec_spec c value is_dec w) as Hc. pose proof (inc_dec_spec d value is_dec w) as Hd.
  rewrite <-(ceq_arch _ _ E) in Hd.
  destruct (inc_dec c value is_dec w) as [r c'], (inc_dec d value is_dec w) as [r' d'].
  destruct Hc as [-> Hc], Hd as [-> Hd]. split; [done|]. by eapply writes_ceq.
Qed.

Lemma set_shift_result_flags_ceq cf ovf r w :
  ceq (set_shift_result_flags c cf ovf r w) (set_shift_result_flags d cf ovf r w).
Proof.
  pose proof (writes_shift_result c cf ovf r w) as Hc. pose proof (writes_shift_result d cf ovf r w) as Hd.
  rewrite <-(ceq_arch _ _ E) in Hd. by eapply writes_ceq.
Qed.

Lemma shift_rotate_ceq op value raw w : same_opt (shift_rotate c op value raw w) (shift_rotate d op value raw w).
Proof.
  unfold shift_rotate. rewrite !flag_CF, <-(ceq_arch _ _ E).
  destruct (_ =? 0); [done|]. cbv zeta.
  destruct (shift_loop _ _ _ _ _ _) as [[v cf]|]; cbn [mbind option_bind]; [|done].
  destruct (_ && _).
  - destruct (if _ =? 1 then _ else _) as [ovf|]; cbn [mbind option_bind]; [|done].
    split; [done|]. apply set_shift_result_flags_ceq.
  - pose proof (set_flag_ceq c d FLAG_CF cf ltac:(done) E) as E1. destruct (_ =? 1); [|by split].
    destruct (rotate_overflow _ _ _ _) as [ovf|]; cbn [mbind option_bind]; [|done].
    split; [done|]. by apply set_flag_ceq.
Qed.

Lemma double_shift_ceq left dest src raw size :
  same (double_shift c left dest src raw size) (double_shift d left dest src raw size).
Proof.
  unfold double_shift. destruct (_ =? 0); [by split|]. cbv zeta.
  destruct (_ <? _); [split; [done|apply set_shift_result_flags_ceq]|].
  destruct (Nat.iter _ _ _) as [[cf d'] s']. split; [done|apply set_shift_result_flags_ceq].
Qed.

Lemma slot_ceq r : slot c r = slot d r.
Proof. unfold slot. by rewrite (ceq_gpr _ _ E). Qed.

Lemma set_slot_ceq r v : ceq (set_slot c r v) (set_slot d r v).
Proof. destruct E as [Hg Ha Hr Hm]. split; [by cbn; rewrite Hg|exact Ha|exact Hr|exact Hm]. Qed.

Lemma read_ceq i : read_gpr8 c i = read_gpr8 d i /\ read_gpr16 c i = read_gpr16 d i /\ read_gpr32 c i = read_gpr32 d i.
Proof. unfold read_gpr8, read_gpr16, read_gpr32. by rewrite !slot_ceq. Qed.

Lemma write32_ceq i v : ceq (write_gpr32 c i v) (write_gpr32 d i v).
Proof. apply set_slot_ceq. Qed.
Lemma write16_ceq i v : ceq (write_gpr16 c i v) (write_gpr16 d i v).
Proof. unfold write_gpr16. rewrite slot_ceq. apply set_slot_ceq. Qed.
Lemma write8_ceq i v : ceq (write_gpr8 c i v) (write_gpr8 d i v).
Proof. unfold write_gpr8. rewrite !slot_ceq. destruct (_ <? _); apply set_slot_ceq. Qed.

Lemma imul_ceq a b size : same (imul_truncated c a b size) (imul_truncated d a b size).
Proof. unfold imul_truncated. destruct size; (split; [done|by apply set_flag_ceq]). Qed.

End Respects.

#[local] Hint Resolve write32_ceq write16_ceq write8_ceq set_flag_ceq : vm.

Lemma mul_ceq c d operand signed w : ceq c d -> ceq (mul c operand signed w) (mul d operand signed w).
Proof.
  intros E. destruct (read_ceq c d E 0) as (E8 & E16 & E32). unfold mul. rewrite E8, E16, E32.
  destruct w, signed; cbv zeta; (apply set_flag_ceq; [done|]); auto with vm.
Qed.

Lemma div_ceq c d operand signed w : ceq c d ->
  let x := div c operand signed w in let y := div d operand signed w in x.2 = y.2 /\ ceq x.1 y.1.
Proof.
  intros E. cbv zeta. destruct (read_ceq c d E 0) as (_ & E16 & E32), (read_ceq c d E 2) as (_ & E16' & E32').
  unfold div. rewrite E16, E32, E16', E32'. cbv zeta.
  destruct (_ =? 0); [done|]. destruct w, signed; repeat case_match; cbn [fst snd]; auto with vm.
Qed.

(* ------------------------------------------------------------------ *)
(** ** Programs of core calls *)

(** The calls an instruction makes on the integer core. *)
Inductive Call :=
| CAlu (op a b : Z) (w : BusWidth)
| CIncDec (value : Z) (is_dec : bool) (w : BusWidth)
| CShift (op value raw_count : Z) (w : BusWidth)
| CDouble (to_left : bool) (dest src raw_count : Z) (size : OperandSize)
| CMul (operand : Z) (signed : bool) (w : BusWidth)
| CImul (a b : Z) (size : OperandSize)
| CDiv (operand : Z) (signed : bool) (w : BusWidth)
| CSetFlag (m : Z) (enabled : bool)
| CFlag (k : Z)
| CCondition (cond : Z)
| CReadEflags
| CReadGpr (index : Z) (size : OperandSize)
| CWriteGpr (index : Z) (size : OperandSize) (value : Z).

(** What a call answers. *)
Inductive Answer :=
| AInt (z : Z)
| ABool (b : bool)
| AFault (r : result InternalFault unit)
| ADone.

Definition call_ok (x : Call) : Prop :=
  match x with
  | CSetFlag m _ => 0 <= m
  | CFlag k => 0 <= k < 32 /\ k <> 1
  | _ => True
  end.

Definition with_int (x : Z * Cpu) : Answer * Cpu := (AInt x.1, x.2).

Definition run_call (c : Cpu) (x : Call) : option (Answer * Cpu) :=
  match x with
  | CAlu o a b w => with_int <$> alu c o a b w
  | CIncDec value is_dec w => Some (with_int (inc_dec c value is_dec w))
  | CShift o value raw w => with_int <$> shift_rotate c o value raw w
  | CDouble to_left dest src raw size => Some (with_int (double_shift c to_left dest src raw size))
  | CMul operand signed w => Some (ADone, mul c operand signed w)
  | CImul a b size => Some (with_int (imul_truncated c a b size))
  | CDiv operand signed w => let '(c', r) := div c operand signed w in Some (AFault r, c')
  | CSetFlag m enabled => Some (ADone, set_flag c m enabled)
  | CFlag k => Some (ABool (flag c (bit k)), c)
  | CCondition cond => Some (ABool (condition c cond), c)
  | CReadEflags => Some (AInt (materialized_eflags c), c)
  | CReadGpr index size => Some (AInt (read_gpr_sized c index size), c)
  | CWriteGpr index size value => Some (ADone, write_gpr_sized c index size value)
  end.

Inductive Step := Settle | Do (x : Call).

Fixpoint run (c : Cpu) (steps : list Step) : option (list Answer * Cpu) :=
  match steps with
  | [] => Some ([], c)
  | Settle :: rest => run (settled c) rest
  | Do x :: rest =>
      '(a, c) ← run_call c x;
      '(ans, c) ← run c rest;
      Some (a :: ans, c)
  end.

Definition is_call (s : Step) : bool := match s with Do _ => true | Settle => false end.
Definition step_ok (s : Step) : Prop := match s with Do x => call_ok x | Settle => True end.

Lemma with_int_same x y : same x y -> same (with_int x) (with_int y).
Proof. destruct x, y. intros [H ?]. cbn in *. split; [by rewrite H|done]. Qed.

Lemma with_int_opt x y : same_opt x y -> same_opt (with_int <$> x) (with_int <$> y).
Proof. destruct x, y; cbn [same_opt fmap option_fmap option_map]; try done. apply with_int_same. Qed.

Lemma run_call_ceq c d x : ceq c d -> call_ok x -> same_opt (run_call c x) (run_call d x).
Proof.
  intros E Hok. destruct x; cbn [run_call].
  - by apply with_int_opt, alu_ceq.
  - by apply with_int_same, inc_dec_ceq.
  - by apply with_int_opt, shift_rotate_ceq.
  - by apply with_int_same, double_shift_ceq.
  - split; [done|]. by apply mul_ceq.
  - by apply with_int_same, imul_ceq.
  - pose proof (div_ceq c d operand signed w E) as [H1 H2].
    destruct (div c operand signed w), (div d operand signed w). cbn in *. split; [by rewrite H1|done].
  - split; [done|]. by apply set_flag_ceq.
  - split; [|done]. cbn in *. by rewrite (flag_ceq c d k) by tauto.
  - split; [|done]. cbn. by rewrite !condition_arch, (ceq_arch _ _ E).
  - split; [|done]. cbn. by rewrite (ceq_arch _ _ E : materialized_eflags c = _).
  - split; [|done]. cbn. destruct (read_ceq c d E index) as (_ & H1 & H2). destruct size; cbn; congruence.
  - split; [done|]. destruct size; cbn; [by apply write16_ceq|by apply write32_ceq].
Qed.

(** C2.  Deferring flags is unobservable: any program of core calls, run from
    architecturally equal processors with pending flags settled at any points on one side
    and never on the other, gives the same answers - results, conditions, flags,
    EFLAGS images, faults - or is refused alike, and ends in architecturally equal
    processors. *)
Theorem lazy_flags_transparent steps c d :
  ceq c d -> Forall step_ok steps -> same_opt (run c steps) (run d (List.filter is_call steps)).
Proof.
  intros E Hok. revert c d E. induction Hok as [|[|x] steps Hx _ IH]; intros c d E; cbn [run List.filter is_call].
  - by split.
  - apply IH. by rewrite settled_ceq.
  - pose proof (run_call_ceq c d x E Hx) as H.
    destruct (run_call c x) as [[a c1]|], (run_call d x) as [[a' d1]|]; cbn [mbind option_bind]; try done.
    destruct H as [Ha E1]. cbn in Ha, E1. subst a'. specialize (IH c1 d1 E1).
    destruct (run c1 steps) as [[ans c2]|], (run d1 _) as [[ans' d2]|]; cbn [mbind option_bind]; try done.
    destruct IH as [Ha E2]. cbn in Ha, E2. subst. by split.
Qed.

Lemma lazy_flags_transparent_witness :
  let steps := [Do (CAlu 0 255 1 Byte); Settle; Do (CAlu 2 0 0 Byte); Settle; Do (CCondition 4); Do CReadEflags] in
  ceq sample sample /\ Forall step_ok steps /\
  same_opt (run sample steps) (run sample (List.filter is_call steps)) /\
  (run sample steps : option (list Answer * Cpu)) ≠ None.
Proof.
  assert (E : ceq sample sample) by reflexivity.
  assert (Hok : Forall step_ok [Do (CAlu 0 255 1 Byte); Settle; Do (CAlu 2 0 0 Byte); Settle; Do (CCondition 4); Do CReadEflags])
    by repeat constructor.
  split; [exact E|]. split; [exact Hok|]. split.
  - exact (lazy_flags_transparent _ sample sample E Hok).
  - vm_compute. discriminate.
Defined.

End Lazy.
