(* ===== verification/Tlb.v ===== *)
(** * The translation cache and the context ring

    [Tlb] of crates/izarravm-cpu/src/paging.rs, a direct-mapped cache whose entries are
    live while they carry the current generation, and the part of [DecodeCache] of
    lib.rs that decides, on a CR3 write, whose entries those are: a ring of two page
    directories, and the watch on pages a walk has read as page tables. *)

From stdpp Require Import gmap.
From S2P Require Import Prelude.

Module Tlb.

(* ------------------------------------------------------------------ *)
(** ** The cache *)

Definition TLB_ENTRIES : Z := 1024.

Record TlbEntry := mkEntry {
  tag : Z; phys : Z; egen : Z; writable : bool; user : bool; dirty : bool
}.
#[export] Instance eta_TlbEntry : Eta TlbEntry := fun e =>
  mkEntry (tag e) (phys e) (egen e) (writable e) (user e) (dirty e).
#[export] Instance TlbEntry_inhabited : Inhabited TlbEntry := populate (mkEntry 0 0 0 false false false).

Definition EMPTY : TlbEntry := mkEntry 0 0 0 false false false.

Record Tlb := mkTlb {
  entries : list TlbEntry; generation : Z; generations : list Z; live : nat; next_generation : Z
}.
#[export] Instance eta_Tlb : Eta Tlb := fun t =>
  mkTlb (entries t) (generation t) (generations t) (live t) (next_generation t).

(** [Tlb::default] *)
Definition tlb_default : Tlb := mkTlb (replicate (Z.to_nat TLB_ENTRIES) EMPTY) 1 [1; 2] 0 3.

Definition slot (page : Z) : nat := Z.to_nat (Z.land page (TLB_ENTRIES - 1)).

Definition lookup (t : Tlb) (page : Z) : option TlbEntry :=
  let e := entries t !!! slot page in
  if (egen e =? generation t) && (tag e =? page) then Some e else None.

Definition insert (t : Tlb) (page phys : Z) (writable user dirty : bool) : option TlbEntry * Tlb :=
  let slot := slot page in
  let previous := entries t !!! slot in
  let t := t <| entries := <[slot := mkEntry page phys (generation t) writable user dirty]> (entries t) |> in
  (if negb (egen previous =? 0) then Some previous else None, t).

Definition invalidate (t : Tlb) (page : Z) : Tlb :=
  let slot := slot page in
  let entry := entries t !!! slot in
  if (egen entry =? generation t) && (tag entry =? page)
  then t <| entries := <[slot := EMPTY]> (entries t) |> else t.

Definition mint_generation (t : Tlb) : Z * Tlb :=
  let t := if next_generation t =? 0
           then t <| entries := replicate (Z.to_nat TLB_ENTRIES) EMPTY |> <| next_generation := 1 |>
           else t in
  (next_generation t, t <| next_generation := wrap 32 (next_generation t + 1) |>).

Definition select_generation (t : Tlb) (slot : nat) : Tlb :=
  t <| live := slot |> <| generation := generations t !!! slot |>.

Definition allocate_generation (t : Tlb) (slot : nat) : Tlb :=
  let '(g, t) := mint_generation t in
  t <| generations := <[slot := g]> (generations t) |> <| live := slot |> <| generation := g |>.

Definition flush_live_slot (t : Tlb) : Tlb :=
  let '(g, t) := mint_generation t in
  t <| generations := <[live t := g]> (generations t) |> <| generation := g |>.

Definition retire_all_slots (t : Tlb) : Tlb :=
  let '(g, t) := mint_generation t in
  let t := t <| generations := <[0%nat := g]> (generations t) |> in
  let '(g, t) := mint_generation t in
  let t := t <| generations := <[1%nat := g]> (generations t) |> in
  t <| live := 0%nat |> <| generation := generations t !!! 0%nat |>.

Definition retire_dormant_slot (t : Tlb) : Tlb :=
  let dormant := (1 - live t)%nat in
  let '(g, t) := mint_generation t in
  t <| generations := <[dormant := g]> (generations t) |>.

(* ------------------------------------------------------------------ *)
(** ** The ring of contexts and the write watch

    The decoded lines themselves are not modelled: of [DecodeCache], the ring, its
    generation allocator and the [translation_pages] bitmap (a set of page numbers). *)

Record DecodeCache := mkDecode {
  dgeneration : Z; dnext_generation : Z; contexts : list (option (Z * Z));
  ring_seeded : bool; translation_pages : gset Z
}.
#[export] Instance eta_DecodeCache : Eta DecodeCache := fun d =>
  mkDecode (dgeneration d) (dnext_generation d) (contexts d) (ring_seeded d) (translation_pages d).

(** [DecodeCache::new] *)
Definition decode_new : DecodeCache := mkDecode 1 1 [None; None] false ∅.

Definition decode_allocate_generation (d : DecodeCache) : Z * DecodeCache :=
  let d := if dnext_generation d =? 4294967295
           then d <| contexts := [None; None] |> <| dnext_generation := 1 |>
           else d <| dnext_generation := dnext_generation d + 1 |> in
  (dnext_generation d, d).

Definition retire_ring (d : DecodeCache) (clear_translation_marks : bool) : DecodeCache :=
  let d := d <| contexts := [None; None] |> in
  if clear_translation_marks then d <| translation_pages := ∅ |> else d.

Definition invalidate_and_clear_code_marks (d : DecodeCache) (clear : bool) : DecodeCache :=
  let '(g, d) := decode_allocate_generation d in
  retire_ring (d <| dgeneration := g |>) clear.

Inductive ContextSelect := Reselected (slot : nat) | Allocated (slot : nat) | Taken (slot : nat).

(** [iter().position(..)] *)
Definition position {A} (f : A -> bool) (l : list A) : option nat := fst <$> list_find (fun x => f x = true) l.

Definition holds (cr3 : Z) (c : option (Z * Z)) : bool :=
  match c with Some (d, _) => d =? cr3 | None => false end.
Definition vacant (c : option (Z * Z)) : bool := match c with None => true | Some _ => false end.

Definition select_context (d : DecodeCache) (old_cr3 new_cr3 : Z) : ContextSelect * DecodeCache :=
  let d := if ring_seeded d then d
           else d <| ring_seeded := true |> <| contexts := <[0%nat := Some (old_cr3, dgeneration d)]> (contexts d) |> in
  match position (holds new_cr3) (contexts d) with
  | Some slot =>
      let slot_gen := match contexts d !!! slot with Some (_, g) => g | None => 0 end in
      (Reselected slot, d <| dgeneration := slot_gen |>)
  | None =>
      match position vacant (contexts d) with
      | Some slot =>
          let '(slot_gen, d) := decode_allocate_generation d in
          (Allocated slot, d <| contexts := <[slot := Some (new_cr3, slot_gen)]> (contexts d) |>
                             <| dgeneration := slot_gen |>)
      | None =>
          let d := retire_ring d true in
          let '(slot_gen, d) := decode_allocate_generation d in
          let d := d <| dgeneration := slot_gen |> in
          (Taken 0, d <| contexts := <[0%nat := Some (new_cr3, slot_gen)]> (contexts d) |>)
      end
  end.

Definition translation_page_is_watched (d : DecodeCache) (page : Z) : bool :=
  bool_decide (page ∈ translation_pages d).

Definition range_hits_translation_page (d : DecodeCache) (physical width : Z) : bool :=
  let first_page := Z.shiftr physical 12 in
  let last_page := Z.shiftr (wrap 32 (physical + saturate 32 (width - 1))) 12 in
  existsb (translation_page_is_watched d) (seqZ first_page (last_page + 1 - first_page)).

Definition mark_translation_page (d : DecodeCache) (physical : Z) : DecodeCache :=
  d <| translation_pages := {[ Z.shiftr physical 12 ]} ∪ translation_pages d |>.

(* ------------------------------------------------------------------ *)
(** ** The invariant of the cache *)

(** The generation of a slot of the ring. *)
Definition gen_of (t : Tlb) (i : nat) : Z := generations t !!! i.

(** An entry that is, or on a reselect will be, live under slot [i]. *)
Definition held (t : Tlb) (i : nat) (e : TlbEntry) : Prop :=
  e ∈ entries t /\ egen e = gen_of t i.

Record tlb_wf (t : Tlb) : Prop := mk_tlb_wf {
  tw_entries : length (entries t) = Z.to_nat TLB_ENTRIES;
  tw_generations : length (generations t) = 2%nat;
  tw_live : (live t < 2)%nat;
  tw_current : generation t = gen_of t (live t);
  tw_distinct : gen_of t 0 <> gen_of t 1;
  tw_bound : forall i, (i < 2)%nat -> 0 < gen_of t i < next_generation t;
  tw_next : 0 < next_generation t < 2 ^ 32;
  tw_stamped : forall e, e ∈ entries t -> 0 <= egen e < next_generation t;
  tw_slots : forall k e, entries t !! k = Some e -> egen e <> 0 -> slot (tag e) = k
}.

Lemma slot_bound page : (slot page < Z.to_nat TLB_ENTRIES)%nat.
Proof.
  unfold slot, TLB_ENTRIES. change (1024 - 1) with (Z.ones 10). rewrite Z.land_ones by lia.
  pose proof (Z.mod_pos_bound page (2 ^ 10)). change (2 ^ 10) with 1024 in *. lia.
Qed.

Lemma tlb_default_wf : tlb_wf tlb_default.
Proof.
  assert (He : forall e, e ∈ entries tlb_default -> e = EMPTY).
  { intros e He. apply elem_of_replicate in He. tauto. }
  split; try done.
  - cbn. lia.
  - intros [|[|i]] Hi; cbn; lia.
  - intros e ->%He. cbn. lia.
  - intros k e ->%list_elem_of_lookup_2%He. done.
Qed.

Lemma generations_two t : length (generations t) = 2%nat -> generations t = [gen_of t 0; gen_of t 1].
Proof. unfold gen_of. destruct (generations t) as [|a [|b [|]]]; intros; done. Qed.

(** A fresh generation: nothing carries it. *)
Lemma mint_spec t : tlb_wf t ->
  mint_generation t = (next_generation t, t <| next_generation := wrap 32 (next_generation t + 1) |>).
Proof.
  intros Hw. unfold mint_generation. rewrite (proj2 (Z.eqb_neq _ 0)); [done|]. pose proof (tw_next t Hw). lia.
Qed.

(** Giving slot [i] the next generation. *)
Definition refresh (t : Tlb) (i : nat) : Tlb :=
  t <| generations := <[i := next_generation t]> (generations t) |> <| next_generation := next_generation t + 1 |>.

Lemma refresh_gen t i j : length (generations t) = 2%nat -> (i < 2)%nat -> (j < 2)%nat ->
  gen_of (refresh t i) j = if decide (i = j) then next_generation t else gen_of t j.
Proof.
  intros Hl Hi Hj. unfold gen_of, refresh. cbn [generations update eta_Tlb]. destruct (decide (i = j)) as [->|].
  - by rewrite list_lookup_total_insert_eq by lia.
  - by rewrite list_lookup_total_insert_ne by done.
Qed.

(** [refresh] with the current generation kept in step. *)
Definition synced (t : Tlb) (l : nat) : Tlb := t <| live := l |> <| generation := gen_of t l |>.

Lemma refresh_wf t i l : tlb_wf t -> (i < 2)%nat -> (l < 2)%nat -> next_generation t + 1 < 2 ^ 32 ->
  tlb_wf (synced (refresh t i) l).
Proof.
  intros Hw Hi Hl Hn. pose proof (tw_generations t Hw) as Hg. pose proof (tw_next t Hw) as Hx.
  assert (Hgen : forall j, (j < 2)%nat -> gen_of (synced (refresh t i) l) j = if decide (i = j) then next_generation t else gen_of t j)
    by (intros j Hj; by apply (refresh_gen t i j Hg Hi Hj)).
  pose proof (tw_bound t Hw) as Hb. pose proof (tw_distinct t Hw) as Hd.
  split.
  - apply Hw.
  - cbn. by rewrite length_insert.
  - exact Hl.
  - done.
  - rewrite !Hgen by lia. pose proof (Hb 0%nat ltac:(lia)). pose proof (Hb 1%nat ltac:(lia)).
    repeat case_decide; lia.
  - intros j Hj. rewrite Hgen by done. cbn [synced refresh next_generation update eta_Tlb].
    pose proof (Hb j Hj). case_decide; lia.
  - cbn [synced refresh next_generation update eta_Tlb]. lia.
  - intros e He. pose proof (tw_stamped t Hw e He). cbn [synced refresh next_generation update eta_Tlb]. lia.
  - apply (tw_slots t Hw).
Qed.

(** Nothing is held under a refreshed slot; the other keeps its entries. *)
Lemma refresh_held t i l j e : tlb_wf t -> (i < 2)%nat -> (j < 2)%nat ->
  held (synced (refresh t i) l) j e -> j <> i /\ held t j e.
Proof.
  intros Hw Hi Hj [He Hg]. change (gen_of (synced (refresh t i) l) j) with (gen_of (refresh t i) j) in Hg.
  rewrite refresh_gen in Hg by (done || apply Hw). pose proof (tw_stamped t Hw e He).
  case_decide; [lia|]. split; [done|]. by split.
Qed.

Lemma sync_id t : tlb_wf t -> synced t (live t) = t.
Proof. intros Hw. unfold synced. rewrite <-(tw_current t Hw). by destruct t. Qed.

(* ------------------------------------------------------------------ *)
(** ** Operations as refreshes *)

Lemma gen_of_insert t i g : (i < length (generations t))%nat -> <[i := g]> (generations t) !!! i = g.
Proof. intros. by apply list_lookup_total_insert_eq. Qed.

Lemma wrap_next t : tlb_wf t -> next_generation t + 1 < 2 ^ 32 -> wrap 32 (next_generation t + 1) = next_generation t + 1.
Proof. intros Hw Hn. apply wrap_id. pose proof (tw_next t Hw). zlia. Qed.

Lemma allocate_form t i : tlb_wf t -> (i < 2)%nat -> next_generation t + 1 < 2 ^ 32 ->
  allocate_generation t i = synced (refresh t i) i.
Proof.
  intros Hw Hi Hn. unfold allocate_generation. rewrite mint_spec, wrap_next by done.
  unfold synced, refresh, gen_of. cbn. rewrite gen_of_insert by (rewrite (tw_generations t Hw); done). done.
Qed.

Lemma flush_live_form t : tlb_wf t -> next_generation t + 1 < 2 ^ 32 ->
  flush_live_slot t = synced (refresh t (live t)) (live t).
Proof.
  intros Hw Hn. unfold flush_live_slot. rewrite mint_spec, wrap_next by done.
  unfold synced, refresh, gen_of. cbn. rewrite gen_of_insert by (rewrite (tw_generations t Hw); apply Hw). by destruct t.
Qed.

Lemma retire_dormant_form t : tlb_wf t -> next_generation t + 1 < 2 ^ 32 ->
  retire_dormant_slot t = synced (refresh t (1 - live t)) (live t).
Proof.
  intros Hw Hn. unfold retire_dormant_slot. rewrite mint_spec, wrap_next by done.
  unfold synced, refresh, gen_of. cbn. rewrite list_lookup_total_insert_ne by (pose proof (tw_live t Hw); lia).
  pose proof (tw_current t Hw) as Hc. unfold gen_of in Hc. rewrite <-Hc. by destruct t.
Qed.

Lemma retire_all_form t : tlb_wf t -> next_generation t + 2 < 2 ^ 32 ->
  retire_all_slots t = synced (refresh (synced (refresh t 0) 0) 1) 0.
Proof.
  intros Hw Hn. unfold retire_all_slots. rewrite mint_spec, wrap_next by (done || lia).
  unfold mint_generation. cbn [next_generation update eta_Tlb].
  rewrite (proj2 (Z.eqb_neq (next_generation t + 1) 0)) by (pose proof (tw_next t Hw); lia).
  cbn [next_generation update eta_Tlb]. rewrite (wrap_id 32 (next_generation t + 1 + 1)).
  2: { pose proof (tw_next t Hw). zlia. }
  unfold synced, refresh, gen_of. cbn. done.
Qed.

(** What an operation may keep: [t'] is well formed, at most [n] generations were
    minted, and under each slot allowed by [keep] it holds only what [t] held. *)
Record evolves (t t' : Tlb) (n : Z) (l : nat) (keep : nat -> Prop) : Prop := mk_evolves {
  ev_wf : tlb_wf t';
  ev_next : next_generation t <= next_generation t' <= next_generation t + n;
  ev_live : live t' = l;
  ev_held : forall i e, (i < 2)%nat -> held t' i e -> keep i /\ held t i e
}.

Section Operations.
Context (t : Tlb) (Hw : tlb_wf t).

Lemma refresh_evolves i l : (i < 2)%nat -> (l < 2)%nat -> next_generation t + 1 < 2 ^ 32 ->
  evolves t (synced (refresh t i) l) 1 l (fun j => j <> i).
Proof.
  intros Hi Hl Hn. split.
  - by apply refresh_wf.
  - cbn [synced refresh next_generation update eta_Tlb]. lia.
  - done.
  - intros j e Hj He. by apply (refresh_held t i l).
Qed.

Lemma select_evolves i : (i < 2)%nat -> evolves t (select_generation t i) 0 i (fun _ => True).
Proof.
  intros Hi. change (select_generation t i) with (synced t i). split.
  - destruct Hw. by split.
  - cbn. lia.
  - done.
  - done.
Qed.

Lemma allocate_evolves i : (i < 2)%nat -> next_generation t + 1 < 2 ^ 32 ->
  evolves t (allocate_generation t i) 1 i (fun j => j <> i).
Proof. intros. rewrite allocate_form by done. by apply refresh_evolves. Qed.

Lemma flush_live_evolves : next_generation t + 1 < 2 ^ 32 ->
  evolves t (flush_live_slot t) 1 (live t) (fun j => j <> live t).
Proof. intros. rewrite flush_live_form by done. apply refresh_evolves; (done || apply Hw). Qed.

Lemma retire_dormant_evolves : next_generation t + 1 < 2 ^ 32 ->
  evolves t (retire_dormant_slot t) 1 (live t) (fun j => j = live t).
Proof.
  intros. rewrite retire_dormant_form by done. pose proof (tw_live t Hw).
  destruct (refresh_evolves (1 - live t) (live t)) as [H1 H2 H3 H4]; [lia..|]. split; [done..|].
  intros i e Hi He. destruct (H4 i e Hi He). split; [lia|done].
Qed.

Lemma retire_all_evolves : next_generation t + 2 < 2 ^ 32 ->
  evolves t (retire_all_slots t) 2 0 (fun _ => False).
Proof.
  intros. rewrite retire_all_form by done.
  destruct (refresh_evolves 0 0) as [H1 H2 H3 H4]; [lia..|].
  set (t1 := synced (refresh t 0) 0) in *.
  assert (Hn1 : next_generation t1 = next_generation t + 1) by done. split.
  - apply refresh_wf; [done|lia..].
  - cbn [synced refresh next_generation update eta_Tlb]. lia.
  - done.
  - intros i e Hi He. destruct (refresh_held t1 1 0 i e H1 ltac:(lia) Hi He) as [Hne He1].
    destruct (H4 i e Hi He1). lia.
Qed.

Lemma entry_at page : entries t !! slot page = Some (entries t !!! slot page).
Proof. apply list_lookup_lookup_total_lt. rewrite (tw_entries t Hw). apply slot_bound. Qed.

Lemma lookup_held page e : lookup t page = Some e -> held t (live t) e /\ tag e = page.
Proof.
  unfold lookup. pose proof (entry_at page) as Ha. destruct (_ && _) eqn:E; [|done].
  bool_prop. intros [= <-]. split; [|done]. split; [by apply list_elem_of_lookup_2 in Ha|].
  by rewrite <-(tw_current t Hw).
Qed.

(** Writing entry [x] at its slot. *)
Lemma put_evolves k x : (forall k', k' = k -> egen x <> 0 -> slot (tag x) = k') ->
  0 <= egen x < next_generation t ->
  let t' := t <| entries := <[k := x]> (entries t) |> in
  tlb_wf t' /\ forall i e, (i < 2)%nat -> held t' i e -> held t i e \/ e = x /\ egen x = gen_of t i.
Proof.
  intros Hk Hx. cbv zeta.
  assert (Hin : forall e, e ∈ <[k := x]> (entries t) -> e ∈ entries t \/ e = x).
  { intros e He. apply list_elem_of_lookup_1 in He as [j Hj].
    apply list_lookup_insert_Some in Hj as [(-> & -> & _)|[_ Hj]]; [by right|].
    left. by apply list_elem_of_lookup_2 in Hj. }
  split.
  - destruct Hw. split; try done.
    + cbn. by rewrite length_insert.
    + intros e [He| ->]%Hin; [by apply tw_stamped0|done].
    + cbn. intros j e Hj. apply list_lookup_insert_Some in Hj as [(-> & -> & _)|[_ Hj]]; [by apply Hk|].
      by apply tw_slots0.
  - intros i e Hi [He Hg]. destruct (Hin e He) as [H1| ->]; [by left; split|by right].
Qed.

Lemma invalidate_evolves page : evolves t (invalidate t page) 0 (live t) (fun _ => True).
Proof.
  unfold invalidate. destruct (_ && _); [|by split; [|lia|..]].
  pose proof (tw_next t Hw). destruct (put_evolves (slot page) EMPTY) as [H1 H2]; [done|cbn; lia|].
  split; [done|cbn; lia|done|]. intros i e Hi He. split; [done|].
  destruct (H2 i e Hi He) as [?|[_ Hg]]; [done|]. cbn in Hg. pose proof (tw_bound t Hw i Hi). lia.
Qed.

(** Only the new entry is added, under the live slot. *)
Lemma insert_spec page ph w u d : let t' := (insert t page ph w u d).2 in
  tlb_wf t' /\ next_generation t' = next_generation t /\ live t' = live t /\
  forall i e, (i < 2)%nat -> held t' i e ->
    held t i e \/ i = live t /\ e = mkEntry page ph (generation t) w u d.
Proof.
  cbv zeta. unfold insert. cbn [snd].
  set (x := mkEntry page ph (generation t) w u d).
  pose proof (tw_live t Hw) as Hl. pose proof (tw_bound t Hw (live t) Hl) as Hb. pose proof (tw_current t Hw) as Hc.
  destruct (put_evolves (slot page) x) as [H1 H2]; [by intros k' ->|cbn; rewrite Hc; lia|].
  split; [done|]. split; [done|]. split; [done|]. intros i e Hi He.
  destruct (H2 i e Hi He) as [?|[-> Hg]]; [by left|right]. split; [|done].
  cbn in Hg. rewrite Hc in Hg. pose proof (tw_distinct t Hw) as Hd.
  destruct i as [|[|i]], (live t) as [|[|l]]; lia || done || congruence.
Qed.

(** A filled entry is found. *)
Lemma insert_lookup page ph w u d :
  lookup (insert t page ph w u d).2 page = Some (mkEntry page ph (generation t) w u d).
Proof.
  unfold insert, lookup. cbn [snd entries generation update eta_Tlb].
  rewrite list_lookup_total_insert_eq by (rewrite (tw_entries t Hw); apply slot_bound).
  cbn [egen tag]. by rewrite !Z.eqb_refl.
Qed.

End Operations.

(* ------------------------------------------------------------------ *)
(** ** The ring *)

(** The directory a slot of the ring is held for. *)
Definition ctx_dir (cs : list (option (Z * Z))) (i : nat) : option Z :=
  match cs !! i with Some (Some (x, _)) => Some x | _ => None end.

Record ring_wf (d : DecodeCache) : Prop := mk_ring_wf {
  rw_contexts : length (contexts d) = 2%nat;
  rw_unseeded : ring_seeded d = false -> contexts d = [None; None]
}.

Lemma decode_new_wf : ring_wf decode_new.
Proof. by split. Qed.

Lemma position_spec {A} (f : A -> bool) l k : position f l = Some k -> exists x, l !! k = Some x /\ f x = true.
Proof.
  unfold position. intros Hk. apply fmap_Some in Hk as ([i x] & Hf & ->).
  apply list_find_Some in Hf. exists x. tauto.
Qed.

Lemma decode_allocate_spec d : let '(g, d') := decode_allocate_generation d in
  (contexts d' = contexts d \/ contexts d' = [None; None]) /\ ring_seeded d' = ring_seeded d /\
  translation_pages d' = translation_pages d.
Proof. unfold decode_allocate_generation. destruct (_ =? _); cbn; auto. Qed.

Lemma invalidate_ring d clear :
  contexts (invalidate_and_clear_code_marks d clear) = [None; None] /\
  ring_seeded (invalidate_and_clear_code_marks d clear) = ring_seeded d /\
  translation_pages (invalidate_and_clear_code_marks d clear) = if clear then ∅ else translation_pages d.
Proof.
  unfold invalidate_and_clear_code_marks. pose proof (decode_allocate_spec d) as H.
  destruct (decode_allocate_generation d) as [g d']. destruct H as (_ & H1 & H2). by destruct clear.
Qed.

Lemma invalidate_ring_wf d clear : ring_wf (invalidate_and_clear_code_marks d clear).
Proof. destruct (invalidate_ring d clear) as (E & _). split; by rewrite E. Qed.

(** The ring as a CR3 write finds it: the first write seeds slot 0 with the directory
    in use. *)
Definition seeded_contexts (d : DecodeCache) (old : Z) : list (option (Z * Z)) :=
  if ring_seeded d then contexts d else [Some (old, dgeneration d); None].

Lemma select_context_spec d old new : ring_wf d ->
  let '(sel, d') := select_context d old new in
  ring_wf d' /\
  match sel with
  | Reselected i => (i < 2)%nat /\ ctx_dir (seeded_contexts d old) i = Some new /\
      contexts d' = seeded_contexts d old /\ translation_pages d' = translation_pages d
  | Allocated i => (i < 2)%nat /\ ctx_dir (contexts d') i = Some new /\
      (forall j x, j <> i -> ctx_dir (contexts d') j = Some x -> ctx_dir (seeded_contexts d old) j = Some x) /\
      translation_pages d' = translation_pages d
  | Taken i => i = 0%nat /\ ctx_dir (contexts d') 0 = Some new /\ ctx_dir (contexts d') 1 = None /\
      translation_pages d' = ∅
  end.
Proof.
  intros [Hl Hu]. unfold select_context.
  set (d1 := if ring_seeded d then d else _).
  assert (Hc : contexts d1 = seeded_contexts d old).
  { subst d1. unfold seeded_contexts. destruct (ring_seeded d); [done|]. cbn. by rewrite (Hu eq_refl). }
  assert (Hs : ring_seeded d1 = true) by (subst d1; destruct (ring_seeded d) eqn:E; done).
  assert (Ht : translation_pages d1 = translation_pages d) by (subst d1; by destruct (ring_seeded d)).
  assert (H2 : length (contexts d1) = 2%nat) by (rewrite Hc; unfold seeded_contexts; by destruct (ring_seeded d)).
  clearbody d1. rewrite <-Hc. clear Hl Hu Hc.
  destruct (position (holds new) (contexts d1)) as [i|] eqn:Ep.
  { apply position_spec in Ep as (x & Ex & Eh). pose proof (lookup_lt_Some _ _ _ Ex).
    split; [by split; [|cbn; intros; congruence]|]. split; [lia|]. split; [|done].
    unfold ctx_dir. rewrite Ex. destruct x as [[x g]|]; [|done]. cbn in Eh. bool_prop. congruence. }
  destruct (position vacant (contexts d1)) as [i|] eqn:Ev.
  - apply position_spec in Ev as (x & Ex & Eh). pose proof (lookup_lt_Some _ _ _ Ex) as Hi.
    pose proof (decode_allocate_spec d1) as Ha. destruct (decode_allocate_generation d1) as [g d2].
    destruct Ha as (Hc & Hs2 & Ht2).
    assert (length (contexts d2) = 2%nat) by (destruct Hc as [-> | ->]; done).
    split; [split; cbn; [by rewrite length_insert|congruence]|]. split; [lia|]. cbn [contexts update eta_DecodeCache].
    split; [unfold ctx_dir; by rewrite list_lookup_insert_eq by lia|]. split; [|cbn; congruence].
    intros j x' Hj. unfold ctx_dir. rewrite list_lookup_insert_ne by done.
    destruct Hc as [-> | ->]; [done|]. by destruct j as [|[|j]].
  - pose proof (decode_allocate_spec (retire_ring d1 true)) as Ha.
    destruct (decode_allocate_generation _) as [g d2]. destruct Ha as (Hc & Hs2 & Ht2). cbn in Hc, Hs2, Ht2.
    assert (contexts d2 = [None; None]) as Hc' by tauto.
    split; [split; cbn; rewrite Hc'; [done|intros; congruence]|]. cbn. rewrite Hc'. done.
Qed.

End Tlb.
