(* ===== verification/Paging.v ===== *)
(** * Address translation

    The paging unit of crates/izarravm-cpu/src: [translate_linear_checked] and the
    page-walk stores of memory.rs, and the flushes of core.rs that MOV CR0, MOV CR3,
    INVLPG, task switches and code-cache invalidations perform.

    Physical memory is the interface [PhysicalBus]: the dword reads and the writes a
    [CpuBus] performs for the processor, and what is relied on of them.  [Memory]
    discharges it.  Bus-cycle accounting and the performance counters are left out.
    Which stores overwrite decoded code is decided by decode lines that are not
    modelled; the predicate [code_wholesale] stands for the stores that
    [note_code_write_inner] answers with a wholesale invalidation, and everything is proved for
    every such predicate. *)

From stdpp Require Import gmap.
From S2P Require Import Prelude Memory CpuAlu Tlb.
Import Tlb.Tlb.

(** A dword at [a'] and a store of [width] bytes at [a] share no byte. *)
Definition apart (a width a' : Z) : Prop := a' + 4 <= a \/ a + width <= a'.

(** A store that stays within one 4 KiB page; longer ones are committed page by page. *)
Definition in_page (a width : Z) : Prop := a mod 4096 + width <= 4096.

Class PhysicalBus (B : Type) := {
  bus_read : B -> Z -> result BusError Z;
  bus_write : B -> Z -> BusWidth -> Z -> B * result BusError unit
}.

(** Of a bus in order ([bus_ok]): reads return what was last written, and a refused
    store within a page changes nothing. *)
Class BusLaws (B : Type) `{PhysicalBus B} := {
  bus_ok : B -> Prop;
  bus_write_ok : forall b a w v b' r, 0 <= a -> bus_ok b -> bus_write b a w v = (b', r) -> bus_ok b';
  bus_read_u32 : forall b a v, bus_ok b -> bus_read b a = Ok v -> u32 v;
  bus_read_written : forall b a v b', 0 <= a -> u32 v -> bus_ok b ->
    bus_write b a Dword v = (b', Ok tt) -> bus_read b' a = Ok v;
  bus_read_apart : forall b a w v b' a', 0 <= a -> 0 <= a' -> bus_ok b -> bus_write b a w v = (b', Ok tt) ->
    apart a (width_bytes w) a' -> bus_read b' a' = bus_read b a';
  bus_refused : forall b a w v b' e, 0 <= a -> in_page a (width_bytes w) -> bus_ok b -> bus_write b a w v = (b', Err e) ->
    forall a', 0 <= a' -> a' mod 4 = 0 -> bus_read b' a' = bus_read b a'
}.

Module Paging.

Definition CR0_PE : Z := 1.
Definition CR0_WP : Z := 65536.
Definition CR0_PG : Z := bit 31.

(* ------------------------------------------------------------------ *)
(** ** The pages an instruction has written *)

Definition NO_LAST_WRITTEN_PAGE : Z := 4294967295.
Definition TRACKED_WRITE_PAGES : nat := 8.

Record Tracker := mkTracker {
  last_written_page : Z; written_pages : list (option Z); written_count : Z; written_pages_overflow : bool
}.
#[export] Instance eta_Tracker : Eta Tracker := fun t =>
  mkTracker (last_written_page t) (written_pages t) (written_count t) (written_pages_overflow t).

Definition record_write_page (t : Tracker) (physical : Z) : Tracker :=
  let page := Z.shiftr physical 12 in
  if last_written_page t =? page then t
  else
    let t := t <| last_written_page := page |> in
    if existsb (fun s => match s with Some p => p =? page | None => false end) (written_pages t) then t
    else
      match position (fun s => match s with None => true | Some _ => false end) (written_pages t) with
      | Some slot => t <| written_pages := <[slot := Some page]> (written_pages t) |>
                       <| written_count := wrap 8 (written_count t + 1) |>
      | None => t <| written_pages_overflow := true |>
      end.

(* ------------------------------------------------------------------ *)
(** ** The processor *)

Inductive PagingAccessor := Current | Supervisor.
Inductive TranslationFlushReason := Cr3 | Cr0 | TaskSwitch.

Record Cpu := mkCpu {
  cr0 : Z; cr2 : Z; cr3 : Z; cpl : Z; tlb : Tlb; decode_cache : DecodeCache; tracker : Tracker
}.
#[export] Instance eta_Cpu : Eta Cpu := fun c =>
  mkCpu (cr0 c) (cr2 c) (cr3 c) (cpl c) (tlb c) (decode_cache c) (tracker c).

Definition is_paging_enabled (c : Cpu) : bool := has (cr0 c) CR0_PG.
Definition is_protected_mode (c : Cpu) : bool := has (cr0 c) CR0_PE.

Definition page_fault_code (present write user : bool) : Z :=
  Z.lor (Z.lor (b2z present) (Z.shiftl (b2z write) 1)) (Z.shiftl (b2z user) 2).

Definition page_fault (present write user : bool) : Alu.InternalFault :=
  Alu.Exception 14 (Some (page_fault_code present write user)).

Definition PAGE_MASK : Z := 4294963200.

Section Paging.
Context {B : Type} `{PhysicalBus B}.
Context (code_wholesale : Z -> Z -> bool).

(** The translation-page and wholesale arms of [note_code_write_inner]. *)
Definition note_code_write (c : Cpu) (physical width : Z) : Cpu :=
  let c := if range_hits_translation_page (decode_cache c) physical width
           then c <| decode_cache := invalidate_and_clear_code_marks (decode_cache c) false |>
                  <| tlb := retire_all_slots (tlb c) |>
           else c in
  if code_wholesale physical width
  then c <| decode_cache := invalidate_and_clear_code_marks (decode_cache c) false |>
         <| tlb := retire_all_slots (tlb c) |>
  else c.

Definition write_page_walk_entry (c : Cpu) (b : B) (physical value : Z) : (Cpu * B) * result Alu.InternalFault unit :=
  match bus_write b physical Dword value with
  | (b, Err e) => ((c, b), Err (Alu.Bus e))
  | (b, Ok _) =>
      let c := c <| tracker := record_write_page (tracker c) physical |> in
      ((note_code_write c physical 4, b), Ok tt)
  end.

Definition mark (c : Cpu) (physical : Z) : Cpu :=
  c <| decode_cache := mark_translation_page (decode_cache c) physical |>.

Definition record_if (c : Cpu) (write : bool) (physical : Z) : Cpu :=
  if write then c <| tracker := record_write_page (tracker c) physical |> else c.

(** [if entry & bits != bits { entry |= bits; write_page_walk_entry }] *)
Definition update_entry (c : Cpu) (b : B) (address entry bits : Z) : (Cpu * B) * result Alu.InternalFault Z :=
  if negb (Z.land entry bits =? bits) then
    let entry := Z.lor entry bits in
    match write_page_walk_entry c b address entry with
    | (s, Ok _) => (s, Ok entry)
    | (s, Err e) => (s, Err e)
    end
  else ((c, b), Ok entry).

(** The two-level walk, from the miss to the filled entry. *)
Definition page_walk (c : Cpu) (b : B) (linear : Z) (write user : bool) : (Cpu * B) * result Alu.InternalFault Z :=
  let wp := has (cr0 c) CR0_WP in
  let page := Z.shiftr linear 12 in
  let directory := Z.land (cr3 c) PAGE_MASK in
  let directory_address := directory + Z.land (Z.shiftr linear 22) 1023 * 4 in
  match bus_read b directory_address with
  | Err e => ((c, b), Err (Alu.Bus e))
  | Ok pde =>
      if Z.land pde 1 =? 0 then ((c <| cr2 := linear |>, b), Err (page_fault false write user))
      else
        match update_entry c b directory_address pde 32 with
        | (s, Err e) => (s, Err e)
        | ((c, b), Ok pde) =>
            let c := mark c directory in
            let table_address := Z.land pde PAGE_MASK + Z.land (Z.shiftr linear 12) 1023 * 4 in
            match bus_read b table_address with
            | Err e => ((c, b), Err (Alu.Bus e))
            | Ok pte =>
                if Z.land pte 1 =? 0 then ((c <| cr2 := linear |>, b), Err (page_fault false write user))
                else
                  let writable := has (Z.land pde pte) 2 in
                  let user_accessible := has (Z.land pde pte) 4 in
                  let protection_fault :=
                    if user then negb user_accessible || (write && negb writable)
                    else write && wp && negb writable in
                  if protection_fault then ((c <| cr2 := linear |>, b), Err (page_fault true write user))
                  else
                    match update_entry c b table_address pte (Z.lor 32 (if write then 64 else 0)) with
                    | (s, Err e) => (s, Err e)
                    | ((c, b), Ok pte) =>
                        let c := if Z.land pde 128 =? 0 then mark c (Z.land pde PAGE_MASK) else c in
                        let physical_page := Z.land pte PAGE_MASK in
                        let entry_dirty := has pte 64 in
                        let '(_, t) := insert (tlb c) page physical_page writable user_accessible entry_dirty in
                        let c := c <| tlb := t |> in
                        let physical := Z.lor physical_page (Z.land linear 4095) in
                        ((record_if c write physical, b), Ok physical)
                    end
            end
        end
  end.

Definition translate_linear_checked (c : Cpu) (b : B) (linear : Z) (write : bool) (accessor : PagingAccessor)
  : (Cpu * B) * result Alu.InternalFault Z :=
  if negb (is_paging_enabled c) then ((record_if c write linear, b), Ok linear)
  else
    let user := match accessor with Current => cpl c =? 3 | Supervisor => false end in
    let wp := has (cr0 c) CR0_WP in
    match lookup (tlb c) (Z.shiftr linear 12) with
    | Some e =>
        let permitted := if user then Tlb.user e && (negb write || writable e)
                         else negb write || negb wp || writable e in
        if permitted && (negb write || dirty e) then
          let physical := Z.lor (phys e) (Z.land linear 4095) in
          ((record_if c write physical, b), Ok physical)
        else page_walk c b linear write user
    | None => page_walk c b linear write user
    end.

(* ------------------------------------------------------------------ *)
(** ** Flushes *)

(** [invalidate_decode_frontend], as far as it is modelled. *)
Definition invalidate_decode_frontend (c : Cpu) (clear_translation_marks : bool) : Cpu :=
  c <| decode_cache := invalidate_and_clear_code_marks (decode_cache c) clear_translation_marks |>.

Definition invalidate_translation_code_caches (c : Cpu) (clear_translation_marks : bool) : Cpu :=
  invalidate_decode_frontend c clear_translation_marks.

(** A20, direct-map, aperture and device-DMA changes. *)
Definition invalidate_code_caches (c : Cpu) : Cpu :=
  let c := invalidate_decode_frontend c false in c <| tlb := retire_all_slots (tlb c) |>.

Definition flush_tlb_and_code_caches (c : Cpu) (reason : TranslationFlushReason) : Cpu :=
  let c := invalidate_translation_code_caches c true in c <| tlb := retire_all_slots (tlb c) |>.

Definition flush_tlb_and_code_caches_for_cr3_write (c : Cpu) (new_cr3 : Z) : Cpu :=
  let old_cr3_masked := Z.land (cr3 c) PAGE_MASK in
  let c := c <| cr3 := new_cr3 |> in
  let new_cr3_masked := Z.land new_cr3 PAGE_MASK in
  let '(sel, d) := select_context (decode_cache c) old_cr3_masked new_cr3_masked in
  let c := c <| decode_cache := d |> in
  match sel with
  | Reselected slot => c <| tlb := select_generation (tlb c) slot |>
  | Allocated slot => c <| tlb := allocate_generation (tlb c) slot |>
  | Taken slot => c <| tlb := allocate_generation (retire_all_slots (tlb c)) slot |>
  end.

Definition flush_tlb_keep_code_caches (c : Cpu) (new_cr0 : Z) : Cpu :=
  if has new_cr0 CR0_PG then c <| tlb := flush_live_slot (tlb c) |> else c.

Definition cr0_write_moves_code_translation (old new : Z) : bool :=
  let delta := Z.lxor old new in
  has delta CR0_PG || (has new CR0_PG && has delta CR0_WP).

Definition flush_tlb_for_cr0_write (c : Cpu) (old_cr0 new_cr0 : Z) : Cpu :=
  if cr0_write_moves_code_translation old_cr0 new_cr0 then flush_tlb_and_code_caches c Cr0
  else flush_tlb_keep_code_caches c new_cr0.

Definition apply_invlpg (c : Cpu) (linear : Z) : Cpu :=
  let c := c <| tlb := invalidate (tlb c) (Z.shiftr linear 12) |> in
  let c := c <| tlb := retire_dormant_slot (tlb c) |> in
  invalidate_translation_code_caches c false.

(** MOV CR0 past the privilege check. *)
Definition mov_cr0 (c : Cpu) (value : Z) : Cpu * result Alu.InternalFault unit :=
  if has value CR0_PG && negb (has value CR0_PE) then (c, Err (Alu.Exception 13 (Some 0)))
  else
    let old_cr0 := cr0 c in
    let c := c <| cr0 := value |> in
    (flush_tlb_for_cr0_write c old_cr0 value, Ok tt).

(** The start of [load_task_state], with the CR3 image read from the TSS. *)
Definition load_task_cr3 (c : Cpu) (value : Z) : Cpu :=
  if has (cr0 c) CR0_PG then flush_tlb_and_code_caches (c <| cr3 := value |>) TaskSwitch else c.

(* ------------------------------------------------------------------ *)
(** ** Histories *)

(** Besides the processor's own accesses and control instructions: a device or HLE
    service that has written memory tells the processor so, with the range it wrote
    ([DeviceWrite]) or without ([DeviceReset]). *)
Inductive Event :=
| Access (linear : Z) (write : bool) (accessor : PagingAccessor)
| Store (physical : Z) (w : BusWidth) (value : Z)
| DeviceWrite (physical : Z) (bytes : list Z)
| DeviceReset (spans : list (Z * list Z))
| MovCr0 (value : Z)
| MovCr3 (value : Z)
| Invlpg (linear : Z)
| SwitchTask (value : Z)
| FlushCode
| SetCpl (level : Z).

Abbreviation Answer := (result Alu.InternalFault Z).

(** A committed store: the bytes, then the invalidation door. *)
Definition store (c : Cpu) (b : B) (physical : Z) (w : BusWidth) (value : Z) : (Cpu * B) * Answer :=
  match bus_write b physical w value with
  | (b, Err e) => ((c, b), Err (Alu.Bus e))
  | (b, Ok _) => ((note_code_write c physical (width_bytes w), b), Ok 0)
  end.

(** The bytes a device writes. *)
Fixpoint device_store (b : B) (physical : Z) (bytes : list Z) : B :=
  match bytes with
  | [] => b
  | v :: bytes => device_store (bus_write b physical Byte v).1 (physical + 1) bytes
  end.

Definition device_stores (b : B) (spans : list (Z * list Z)) : B :=
  fold_left (fun b s => device_store b s.1 s.2) spans b.

Definition note_device_memory_write_range (c : Cpu) (physical width : Z) : Cpu :=
  if width =? 0 then c else note_code_write c physical width.

Definition note_device_memory_write (c : Cpu) : Cpu := invalidate_code_caches c.

Definition step (c : Cpu) (b : B) (e : Event) : (Cpu * B) * Answer :=
  match e with
  | DeviceWrite physical bytes =>
      ((note_device_memory_write_range c physical (zlen bytes), device_store b physical bytes), Ok 0)
  | DeviceReset spans => ((note_device_memory_write c, device_stores b spans), Ok 0)
  | Access linear write accessor => translate_linear_checked c b linear write accessor
  | Store physical w value => store c b physical w value
  | MovCr0 value =>
      match mov_cr0 c value with (c, Ok _) => ((c, b), Ok 0) | (c, Err f) => ((c, b), Err f) end
  | MovCr3 value => ((flush_tlb_and_code_caches_for_cr3_write c value, b), Ok 0)
  | Invlpg linear => ((apply_invlpg c linear, b), Ok 0)
  | SwitchTask value => ((load_task_cr3 c value, b), Ok 0)
  | FlushCode => ((invalidate_code_caches c, b), Ok 0)
  | SetCpl level => ((c <| cpl := level |>, b), Ok 0)
  end.

Fixpoint run (c : Cpu) (b : B) (es : list Event) : (Cpu * B) * list Answer :=
  match es with
  | [] => ((c, b), [])
  | e :: es =>
      let '((c, b), a) := step c b e in
      let '(s, answers) := run c b es in
      (s, a :: answers)
  end.

(* ------------------------------------------------------------------ *)
(** ** The processor without translation caches

    The specification: every access walks the tables in memory, control registers are
    registers, and nothing is ever flushed. *)

Record Ref := mkRef { f_cr0 : Z; f_cr2 : Z; f_cr3 : Z; f_cpl : Z; f_tracker : Tracker }.
#[export] Instance eta_Ref : Eta Ref := fun r => mkRef (f_cr0 r) (f_cr2 r) (f_cr3 r) (f_cpl r) (f_tracker r).

Definition view (c : Cpu) : Ref := mkRef (cr0 c) (cr2 c) (cr3 c) (cpl c) (tracker c).

Definition ref_record (r : Ref) (physical : Z) : Ref := r <| f_tracker := record_write_page (f_tracker r) physical |>.

Definition ref_update (r : Ref) (b : B) (address entry bits : Z) : (Ref * B) * result Alu.InternalFault Z :=
  if Z.land entry bits =? bits then ((r, b), Ok entry)
  else match bus_write b address Dword (Z.lor entry bits) with
       | (b, Err e) => ((r, b), Err (Alu.Bus e))
       | (b, Ok _) => ((ref_record r address, b), Ok (Z.lor entry bits))
       end.

Definition pde_address (directory linear : Z) : Z := directory + Z.land (Z.shiftr linear 22) 1023 * 4.
Definition pte_address (pde linear : Z) : Z := Z.land pde PAGE_MASK + Z.land (Z.shiftr linear 12) 1023 * 4.

Definition ref_fault (r : Ref) (b : B) (linear : Z) (present write user : bool) : (Ref * B) * Answer :=
  ((r <| f_cr2 := linear |>, b), Err (page_fault present write user)).

(** Whether the page bits forbid the access. *)
Definition forbidden (wp user write w u : bool) : bool :=
  if user then negb u || (write && negb w) else write && wp && negb w.

Definition ref_walk (r : Ref) (b : B) (linear : Z) (write user : bool) : (Ref * B) * Answer :=
  match bus_read b (pde_address (Z.land (f_cr3 r) PAGE_MASK) linear) with
  | Err e => ((r, b), Err (Alu.Bus e))
  | Ok pde =>
      if Z.land pde 1 =? 0 then ref_fault r b linear false write user
      else
        match ref_update r b (pde_address (Z.land (f_cr3 r) PAGE_MASK) linear) pde 32 with
        | (s, Err e) => (s, Err e)
        | ((r, b), Ok pde) =>
            match bus_read b (pte_address pde linear) with
            | Err e => ((r, b), Err (Alu.Bus e))
            | Ok pte =>
                if Z.land pte 1 =? 0 then ref_fault r b linear false write user
                else if forbidden (has (f_cr0 r) CR0_WP) user write (has (Z.land pde pte) 2) (has (Z.land pde pte) 4)
                then ref_fault r b linear true write user
                else
                  match ref_update r b (pte_address pde linear) pte (Z.lor 32 (if write then 64 else 0)) with
                  | (s, Err e) => (s, Err e)
                  | ((r, b), Ok pte) =>
                      let physical := Z.lor (Z.land pte PAGE_MASK) (Z.land linear 4095) in
                      ((if write then ref_record r physical else r, b), Ok physical)
                  end
            end
        end
  end.

Definition ref_user (r : Ref) (accessor : PagingAccessor) : bool :=
  match accessor with Current => f_cpl r =? 3 | Supervisor => false end.

Definition ref_step (r : Ref) (b : B) (e : Event) : (Ref * B) * Answer :=
  match e with
  | Access linear write accessor =>
      if has (f_cr0 r) CR0_PG then ref_walk r b linear write (ref_user r accessor)
      else ((if write then ref_record r linear else r, b), Ok linear)
  | Store physical w value =>
      match bus_write b physical w value with
      | (b, Err e) => ((r, b), Err (Alu.Bus e))
      | (b, Ok _) => ((r, b), Ok 0)
      end
  | DeviceWrite physical bytes => ((r, device_store b physical bytes), Ok 0)
  | DeviceReset spans => ((r, device_stores b spans), Ok 0)
  | MovCr0 value =>
      if has value CR0_PG && negb (has value CR0_PE) then ((r, b), Err (Alu.Exception 13 (Some 0)))
      else ((r <| f_cr0 := value |>, b), Ok 0)
  | MovCr3 value => ((r <| f_cr3 := value |>, b), Ok 0)
  | SwitchTask value => ((if has (f_cr0 r) CR0_PG then r <| f_cr3 := value |> else r, b), Ok 0)
  | SetCpl level => ((r <| f_cpl := level |>, b), Ok 0)
  | Invlpg _ | FlushCode => ((r, b), Ok 0)
  end.

Fixpoint ref_run (r : Ref) (b : B) (es : list Event) : (Ref * B) * list Answer :=
  match es with
  | [] => ((r, b), [])
  | e :: es =>
      let '((r, b), a) := ref_step r b e in
      let '(s, answers) := ref_run r b es in
      (s, a :: answers)
  end.

(** Stores stay within a page, device writes within the 32-bit space, and linear
    addresses have 32 bits. *)
Definition event_ok (e : Event) : Prop :=
  match e with
  | Access linear _ _ | Invlpg linear => u32 linear
  | Store physical w _ => u32 physical /\ in_page physical (width_bytes w)
  | DeviceWrite physical bytes => 0 <= physical /\ physical + zlen bytes <= 2 ^ 32
  | DeviceReset spans => Forall (fun s => 0 <= s.1) spans
  | MovCr3 v | SwitchTask v => u32 v
  | _ => True
  end.

(** The directory entry an access uses has its PS bit clear; these processors have no
    large pages. *)
Definition no_large_page (r : Ref) (b : B) (e : Event) : Prop :=
  match e with
  | Access linear _ _ => has (f_cr0 r) CR0_PG = true ->
      forall pde, bus_read b (pde_address (Z.land (f_cr3 r) PAGE_MASK) linear) = Ok pde -> Z.land pde 128 = 0
  | _ => True
  end.

Fixpoint history_ok (r : Ref) (b : B) (es : list Event) : Prop :=
  match es with
  | [] => True
  | e :: es => event_ok e /\ no_large_page r b e /\
      let '((r, b), _) := ref_step r b e in history_ok r b es
  end.

End Paging.
End Paging.
