(* ===== verification/PagingSound.v ===== *)
(** * Cached translations are coherent with reported writes

    A cached translation is only ever used for the page directory it was walked under,
    and, as long as every write to memory passes the processor or is reported to it, only
    while the tables still say what it says: [paging_transparent] compares the paging unit
    with the processor that has no translation cache at all. *)

From stdpp Require Import gmap.
From S2P Require Import Prelude Memory CpuAlu Tlb Paging.
Import Tlb.Tlb Paging.Paging.

Module Sound.

(* ------------------------------------------------------------------ *)
(** ** Pages and addresses *)

Lemma page_mask_land z : 0 <= z -> u32 z -> Z.land z PAGE_MASK = z - z mod 4096.
Proof.
  intros Hz Hu. unfold PAGE_MASK. change 4294963200 with (Z.ldiff (Z.ones 32) (Z.ones 12)).
  assert (Z.land z (Z.ldiff (Z.ones 32) (Z.ones 12)) = Z.shiftl (Z.shiftr z 12) 12) as ->.
  { apply Z.bits_inj'. intros i Hi. rewrite Z.land_spec, Z.ldiff_spec, Z.shiftl_spec by done.
    destruct (Z.lt_ge_cases i 12).
    - rewrite (Z.ones_spec_low 12), (Z.testbit_neg_r (Z.shiftr z 12)) by lia. by rewrite !andb_false_r.
    - rewrite (Z.ones_spec_high 12), Z.shiftr_spec, andb_true_r by lia. replace (i - 12 + 12) with i by lia.
      destruct (Z.lt_ge_cases i 32).
      + by rewrite Z.ones_spec_low, andb_true_r by lia.
      + by rewrite (testbit_high 32 z i) by done. }
  rewrite Z.shiftl_mul_pow2, Z.shiftr_div_pow2 by lia. change (2 ^ 12) with 4096. pose proof (Z.div_mod z 4096). lia.
Qed.

(** A page-aligned 32-bit address. *)
Definition page_base (d : Z) : Prop := u32 d /\ d mod 4096 = 0.

Lemma page_base_mask z : u32 z -> page_base (Z.land z PAGE_MASK).
Proof.
  intros Hz. rewrite page_mask_land by (done || apply Hz). unfold page_base. pose proof (Z.mod_pos_bound z 4096).
  pose proof (Z.div_mod z 4096). split; [zlia|].
  replace (z - z mod 4096) with (z / 4096 * 4096) by lia. apply Z.mod_mul. lia.
Qed.

(** The addresses a walk reads, by page number. *)
Definition pde_at (dir page : Z) : Z := dir + Z.land (Z.shiftr page 10) 1023 * 4.
Definition pte_at (pde page : Z) : Z := Z.land pde PAGE_MASK + Z.land page 1023 * 4.

Lemma pde_address_at dir linear : pde_address dir linear = pde_at dir (Z.shiftr linear 12).
Proof. unfold pde_address, pde_at. by rewrite Z.shiftr_shiftr. Qed.

Lemma index_range z : 0 <= Z.land z 1023 < 1024.
Proof. change 1023 with (Z.ones 10). rewrite Z.land_ones by lia. by apply Z.mod_pos_bound. Qed.

(** An entry of a table page: aligned, and within the page. *)
Lemma table_entry base i : page_base base -> 0 <= i < 1024 ->
  u32 (base + i * 4) /\ (base + i * 4) mod 4 = 0 /\ Z.shiftr (base + i * 4) 12 = Z.shiftr base 12.
Proof.
  intros [Hu Hm] Hi. pose proof (Z.div_mod base 4096 ltac:(lia)) as Hd. rewrite Hm in Hd.
  split_and!.
  - assert (base / 4096 < 1048576) by (apply Z.div_lt_upper_bound; zlia). zlia.
  - replace (base + i * 4) with ((base / 4096 * 1024 + i) * 4) by lia. apply Z.mod_mul. lia.
  - rewrite !Z.shiftr_div_pow2 by lia. change (2 ^ 12) with 4096.
    symmetry. apply (Z.div_unique_pos _ _ _ (i * 4)); lia.
Qed.

Lemma pde_at_entry dir page : page_base dir ->
  u32 (pde_at dir page) /\ pde_at dir page mod 4 = 0 /\ Z.shiftr (pde_at dir page) 12 = Z.shiftr dir 12.
Proof. intros. apply table_entry; [done|apply index_range]. Qed.

Lemma pte_at_entry pde page : u32 pde ->
  u32 (pte_at pde page) /\ pte_at pde page mod 4 = 0 /\
  Z.shiftr (pte_at pde page) 12 = Z.shiftr (Z.land pde PAGE_MASK) 12.
Proof. intros. apply table_entry; [by apply page_base_mask|apply index_range]. Qed.

Lemma width_bytes_cases w : width_bytes w = 1 \/ width_bytes w = 2 \/ width_bytes w = 4.
Proof. destruct w; auto. Qed.

(** An aligned store stays in its page. *)
Lemma aligned_page p w : 0 <= p -> p mod width_bytes w = 0 ->
  p mod 4096 + width_bytes w <= 4096.
Proof.
  intros Hp Ha. pose proof (Z.mod_pos_bound p 4096). 
  assert (p mod 4096 mod width_bytes w = 0) as Hm.
  { destruct (width_bytes_cases w) as [E|[E|E]]; rewrite E in *.
    - apply Z.mod_1_r.
    - rewrite <-(Z.mod_mod_divide p 4096 2) in Ha; [done|]. by exists 2048.
    - rewrite <-(Z.mod_mod_divide p 4096 4) in Ha; [done|]. by exists 1024. }
  set (q := p mod 4096) in *. destruct (width_bytes_cases w) as [E|[E|E]]; rewrite E in *.
  - lia.
  - pose proof (Z.div_mod q 2). lia.
  - pose proof (Z.div_mod q 4). lia.
Qed.

(** A range that hits no watched page shares no byte with a dword of one. *)
Lemma range_misses d p n a : u32 p -> 0 < n -> p + n <= 2 ^ 32 ->
  range_hits_translation_page d p n = false -> 0 <= a -> a mod 4 = 0 ->
  Z.shiftr a 12 ∈ translation_pages d -> apart p n a.
Proof.
  intros Hp Hn Hend Hmiss Ha Haa Hin. unfold range_hits_translation_page in Hmiss.
  rewrite saturate_id, wrap_id in Hmiss by zlia.
  pose proof (aligned_page a Dword Ha Haa) as Hpage. cbn [width_bytes] in Hpage.
  destruct (decide (apart p n a)) as [|Hnot]; [done|exfalso].
  assert (Hex : existsb (translation_page_is_watched d)
    (seqZ (Z.shiftr p 12) (Z.shiftr (p + (n - 1)) 12 + 1 - Z.shiftr p 12)) = true).
  { apply existsb_exists. exists (Z.shiftr a 12). split; [|by apply bool_decide_eq_true].
    apply list_elem_of_In, elem_of_seqZ. rewrite !Z.shiftr_div_pow2 by lia. change (2 ^ 12) with 4096.
    pose proof (Z.mod_pos_bound a 4096). pose proof (Z.div_mod a 4096).
    unfold apart in Hnot. apply Decidable.not_or in Hnot as [H1 H2].
    assert (p / 4096 <= a / 4096) by
      (apply Z.lt_succ_r, Z.div_lt_upper_bound; lia).
    assert (a / 4096 <= (p + (n - 1)) / 4096) by (apply Z.div_le_mono; lia). lia. }
  congruence.
Qed.

Lemma other_dword p a : p mod 4 = 0 -> a mod 4 = 0 -> p <> a -> apart p 4 a.
Proof. intros. pose proof (Z.div_mod p 4). pose proof (Z.div_mod a 4). unfold apart. lia. Qed.

(* ------------------------------------------------------------------ *)
(** ** The invariant *)

Section Simulation.
Context {B : Type} `{PB : PhysicalBus B} `{BL : !BusLaws B}.
Context (code_wholesale : Z -> Z -> bool).

Abbreviation note := (note_code_write code_wholesale).

(** An entry says what the tables of its directory say, and both table pages are watched. *)
Definition backed (b : B) (marks : gset Z) (dir : Z) (e : TlbEntry) : Prop :=
  exists pde pte,
    bus_read b (pde_at dir (tag e)) = Ok pde /\ bus_read b (pte_at pde (tag e)) = Ok pte /\
    Z.land pde 1 <> 0 /\ Z.land pte 1 <> 0 /\ Z.land pde 32 = 32 /\ Z.land pte 32 = 32 /\
    phys e = Z.land pte PAGE_MASK /\ writable e = has (Z.land pde pte) 2 /\
    Tlb.user e = has (Z.land pde pte) 4 /\ dirty e = has pte 64 /\
    Z.shiftr dir 12 ∈ marks /\ Z.shiftr (Z.land pde PAGE_MASK) 12 ∈ marks.

(** The directory whose translations a slot of the ring holds. *)
Definition owner (c : Cpu) (i : nat) : option Z :=
  if decide (i = live (tlb c)) then Some (Z.land (cr3 c) PAGE_MASK) else ctx_dir (contexts (decode_cache c)) i.

Abbreviation marks c := (translation_pages (decode_cache c)).

Record Inv (c : Cpu) (b : B) : Prop := mk_inv {
  iv_bus : bus_ok b;
  iv_tlb : tlb_wf (tlb c);
  iv_ring : ring_wf (decode_cache c);
  iv_cr3 : u32 (cr3 c);
  iv_seed : ring_seeded (decode_cache c) = false -> live (tlb c) = 0%nat;
  iv_live : forall d, ctx_dir (contexts (decode_cache c)) (live (tlb c)) = Some d -> d = Z.land (cr3 c) PAGE_MASK;
  iv_dirs : forall i d, ctx_dir (contexts (decode_cache c)) i = Some d -> page_base d;
  iv_backed : forall i e d, (i < 2)%nat -> held (tlb c) i e -> owner c i = Some d -> backed b (marks c) d e
}.

Lemma owner_base c b i d : Inv c b -> owner c i = Some d -> page_base d.
Proof.
  intros Hi. unfold owner. case_decide; [intros [= <-]; apply page_base_mask, (iv_cr3 _ _ Hi)|apply (iv_dirs _ _ Hi)].
Qed.

(** Watched table pages read the same. *)
Definition tables_kept (m : gset Z) (b b' : B) : Prop :=
  forall a, 0 <= a -> a mod 4 = 0 -> Z.shiftr a 12 ∈ m -> bus_read b' a = bus_read b a.

Lemma backed_kept b b' m m' d e : bus_ok b -> page_base d -> tables_kept m b b' -> m ⊆ m' ->
  backed b m d e -> backed b' m' d e.
Proof.
  intros Hok Hd Hk Hm (pde & pte & E1 & E2 & R). exists pde, pte.
  destruct (pde_at_entry d (tag e) Hd) as ([H0 _] & H1 & H2).
  destruct (pte_at_entry pde (tag e) (bus_read_u32 _ _ _ Hok E1)) as ([G0 _] & G1 & G2).
  destruct R as (? & ? & ? & ? & ? & ? & ? & ? & M1 & M2).
  split_and!; try done.
  - rewrite Hk; [done..|]. by rewrite H2.
  - rewrite Hk; [done..|]. by rewrite G2.
  - by apply Hm.
  - by apply Hm.
Qed.

Lemma inv_bus c b b' : Inv c b -> bus_ok b' -> tables_kept (marks c) b b' -> Inv c b'.
Proof.
  intros Hi Hok Hk. destruct Hi. split; try done. intros i e d Hl He Ho.
  apply (backed_kept b b' (marks c)); [done| |done..|by apply (iv_backed0 i)].
  by apply (owner_base c b i); [split|].
Qed.

Lemma inv_mark c b p : Inv c b -> Inv (mark c p) b.
Proof.
  intros Hi. pose proof Hi as [Hk Ht [Hr1 Hr2] Hc Hs Hl Hd Hb]. split; try done. intros i e d Hi2 He Ho.
  apply (backed_kept b b (marks c)); [done|by apply (owner_base c b i)|done| |by apply (Hb i)].
  cbn. set_solver.
Qed.

(** Changing the other registers. *)
Lemma inv_regs c c' b : Inv c b -> tlb c' = tlb c -> decode_cache c' = decode_cache c -> cr3 c' = cr3 c -> Inv c' b.
Proof.
  intros [] E1 E2 E3. split; rewrite ?E1, ?E2, ?E3; try done.
  intros i e d Hi He Ho. apply (iv_backed0 i); [done..|]. unfold owner in *. by rewrite E1, E2, E3 in Ho.
Qed.

(** A wholesale retire is safe whatever has happened to memory and to CR3. *)
Definition wiped (c : Cpu) (clear : bool) : Cpu :=
  c <| decode_cache := invalidate_and_clear_code_marks (decode_cache c) clear |> <| tlb := retire_all_slots (tlb c) |>.

Lemma inv_wiped c b clear : bus_ok b -> tlb_wf (tlb c) -> u32 (cr3 c) -> next_generation (tlb c) + 2 < 2 ^ 32 ->
  Inv (wiped c clear) b /\
  next_generation (tlb c) <= next_generation (tlb (wiped c clear)) <= next_generation (tlb c) + 2.
Proof.
  intros Hk Ht Hc Hn. destruct (retire_all_evolves (tlb c) Ht Hn) as [H1 H2 H3 H4].
  split; [|done]. destruct (invalidate_ring (decode_cache c) clear) as (E1 & E2 & E3).
  assert (Hnone : forall i, ctx_dir (contexts (decode_cache (wiped c clear))) i = None).
  { intros i. cbn [wiped decode_cache update eta_Cpu]. rewrite E1. by destruct i as [|[|]]. }
  split.
  - done.
  - exact H1.
  - apply invalidate_ring_wf.
  - done.
  - intros _. exact H3.
  - intros d E. by rewrite Hnone in E.
  - intros i d E. by rewrite Hnone in E.
  - intros i e d Hi He _. by destruct (H4 i e Hi He).
Qed.

(* ------------------------------------------------------------------ *)
(** ** Stores *)

(** What the invalidation door leaves alone. *)
Record quiet (c c' : Cpu) (n : Z) : Prop := mk_quiet {
  q_view : view c' = view c;
  q_next : next_generation (tlb c) <= next_generation (tlb c') <= next_generation (tlb c) + n;
  q_marks : marks c ⊆ marks c'
}.

Lemma quiet_refl c : quiet c c 0.
Proof. split; [done|lia|done]. Qed.

Lemma quiet_trans c1 c2 c3 m n : quiet c1 c2 m -> quiet c2 c3 n -> quiet c1 c3 (m + n).
Proof. intros [] []. split; [congruence|lia|set_solver]. Qed.

Lemma wiped_quiet c : tlb_wf (tlb c) -> next_generation (tlb c) + 2 < 2 ^ 32 -> quiet c (wiped c false) 2.
Proof.
  intros Ht Hn. destruct (retire_all_evolves (tlb c) Ht Hn) as [_ H2 _ _].
  destruct (invalidate_ring (decode_cache c) false) as (_ & _ & E). split; [done|done|].
  cbn [wiped decode_cache update eta_Cpu]. by rewrite E.
Qed.

(** The invalidation door, after memory has changed in the range it is told of. *)
Lemma note_sound c b b' p n : Inv c b -> u32 p -> 0 < n -> p + n <= 2 ^ 32 -> bus_ok b' ->
  (forall a, 0 <= a -> a mod 4 = 0 -> apart p n a -> bus_read b' a = bus_read b a) ->
  next_generation (tlb c) + 4 < 2 ^ 32 ->
  Inv (note c p n) b' /\ quiet c (note c p n) 4.
Proof.
  intros Hi Hp Hn0 Hend Hok' Hsame Hn. pose proof (iv_bus _ _ Hi) as Hok. unfold note_code_write.
  fold (wiped c false).
  set (c1 := if range_hits_translation_page _ _ _ then wiped c false else c).
  assert (H1 : Inv c1 b' /\ quiet c c1 2).
  { subst c1. destruct (range_hits_translation_page _ _ _) eqn:Hm.
    - split; [by apply inv_wiped; [done|apply Hi|apply Hi|lia]|apply wiped_quiet; [apply Hi|lia]].
    - split; [|split; [done|lia|done]]. apply (inv_bus c b); [done..|]. intros a Ha0 Ha4 Hin.
      apply Hsame; [done..|]. by eapply range_misses. }
  clearbody c1. destruct H1 as [Hi1 Hq1]. cbv zeta. fold (wiped c1 false). destruct (code_wholesale _ _).
  - pose proof (q_next _ _ _ Hq1). split; [apply inv_wiped; [done|apply Hi1|apply Hi1|lia]|].
    apply (quiet_trans c c1 _ 2 2 Hq1), wiped_quiet; [apply Hi1|lia].
  - split; [done|]. destruct Hq1. split; [done|lia|done].
Qed.

Lemma in_page_end p w : u32 p -> in_page p (width_bytes w) -> p + width_bytes w <= 2 ^ 32.
Proof.
  intros Hp Hin. unfold in_page in Hin. pose proof (Z.div_mod p 4096 ltac:(lia)).
  assert (p / 4096 < 1048576) by (apply Z.div_lt_upper_bound; zlia). lia.
Qed.

(** A committed store of the processor. *)
Lemma store_sound c b b' p w v : Inv c b -> u32 p -> in_page p (width_bytes w) ->
  bus_write b p w v = (b', Ok tt) -> next_generation (tlb c) + 4 < 2 ^ 32 ->
  Inv (note c p (width_bytes w)) b' /\ quiet c (note c p (width_bytes w)) 4.
Proof.
  intros Hi Hp Ha Hw Hn. pose proof (iv_bus _ _ Hi) as Hok.
  apply (note_sound c b); try done.
  - destruct (width_bytes_cases w); lia.
  - by apply in_page_end.
  - apply (bus_write_ok b p w v b' (Ok tt)); [apply Hp|done..].
  - intros a Ha0 Ha4 Hap. destruct Hp. by apply (bus_read_apart b p w v).
Qed.

(** The bytes of a device change nothing else. *)
Lemma device_store_reads bytes : forall b p, 0 <= p -> bus_ok b ->
  bus_ok (device_store b p bytes) /\
  forall a, 0 <= a -> a mod 4 = 0 -> apart p (zlen bytes) a ->
    bus_read (device_store b p bytes) a = bus_read b a.
Proof.
  induction bytes as [|v bytes IH]; intros b p Hp Hok; [done|]. cbn [device_store].
  destruct (bus_write b p Byte v) as [b1 r] eqn:E. cbn [fst].
  assert (Hok1 : bus_ok b1) by by apply (bus_write_ok b p Byte v b1 r).
  destruct (IH b1 (p + 1) ltac:(lia) Hok1) as [H1 H2]. split; [done|].
  intros a Ha Ha4 Hap. rewrite zlen_cons in Hap. pose proof (zlen_nonneg bytes).
  rewrite H2; [|done|done|unfold apart in *; lia]. destruct r as [[]|e].
  - apply (bus_read_apart b p Byte v); try done. unfold apart in *. cbn [width_bytes]. lia.
  - apply (bus_refused b p Byte v b1 e); try done. unfold in_page. cbn [width_bytes].
    pose proof (Z.mod_pos_bound p 4096). lia.
Qed.

Lemma device_stores_ok spans : forall b, Forall (fun s => 0 <= s.1) spans -> bus_ok b ->
  bus_ok (device_stores b spans).
Proof.
  induction spans as [|s spans IH]; intros b Hs Hok; [done|]. apply Forall_cons in Hs as [Hs Hss].
  cbn [device_stores fold_left]. apply IH; [done|]. by apply device_store_reads.
Qed.

Lemma range_sound c b p bytes : Inv c b -> 0 <= p -> p + zlen bytes <= 2 ^ 32 ->
  next_generation (tlb c) + 4 < 2 ^ 32 ->
  let c' := note_device_memory_write_range code_wholesale c p (zlen bytes) in
  Inv c' (device_store b p bytes) /\ quiet c c' 4.
Proof.
  intros Hi Hp Hend Hn. cbv zeta. unfold note_device_memory_write_range.
  destruct (device_store_reads bytes b p Hp (iv_bus _ _ Hi)) as [H1 H2].
  destruct (Z.eqb_spec (zlen bytes) 0) as [E|Hne].
  - destruct bytes as [|v bytes]; [|rewrite zlen_cons in E; pose proof (zlen_nonneg bytes); lia].
    split; [done|]. split; [done|lia|done].
  - pose proof (zlen_nonneg bytes). apply (note_sound c b); try done; [zlia|lia].
Qed.

(** A refused store. *)
Lemma refused_sound c b b' p w v e : Inv c b -> u32 p -> in_page p (width_bytes w) ->
  bus_write b p w v = (b', Err e) -> Inv c b'.
Proof.
  intros Hi [Hp _] Ha Hw. pose proof (iv_bus _ _ Hi) as Hok.
  apply (inv_bus c b); [done|by apply (bus_write_ok b p w v b' (Err e))|].
  intros a Ha0 Ha4 _. exact (bus_refused b p w v b' e Hp Ha Hok Hw a Ha0 Ha4).
Qed.

(** The processor and its specification after the same call. *)
Definition agree {A} (x : (Cpu * B) * A) (y : (Ref * B) * A) : Prop :=
  y = ((view x.1.1, x.1.2), x.2).

Lemma lor_covered x bits : Z.land x bits = bits -> Z.lor x bits = x.
Proof.
  intros E. apply Z.bits_inj'. intros i Hi. rewrite Z.lor_spec.
  apply (f_equal (fun z => Z.testbit z i)) in E. rewrite Z.land_spec in E.
  by destruct (Z.testbit x i), (Z.testbit bits i).
Qed.

(** A page-walk update: what it leaves, and what it says of the entry. *)
Record updated (c : Cpu) (b : B) (a entry bits : Z) (c' : Cpu) (b' : B) (r : result Alu.InternalFault Z) : Prop := mk_updated {
  up_inv : Inv c' b';
  up_cr0 : cr0 c' = cr0 c; up_cr2 : cr2 c' = cr2 c; up_cr3 : cr3 c' = cr3 c; up_cpl : cpl c' = cpl c;
  up_next : next_generation (tlb c') <= next_generation (tlb c) + 4;
  up_marks : marks c ⊆ marks c';
  up_entry : forall entry', r = Ok entry' -> entry' = Z.lor entry bits /\ bus_read b' a = Ok entry' /\
    forall a', 0 <= a' -> a' mod 4 = 0 -> a' <> a -> bus_read b' a' = bus_read b a'
}.

Lemma update_sound c b a entry bits : Inv c b -> u32 a -> a mod 4 = 0 -> bus_read b a = Ok entry -> u32 bits ->
  next_generation (tlb c) + 4 < 2 ^ 32 ->
  let '((c', b'), r) := update_entry code_wholesale c b a entry bits in
  ref_update (view c) b a entry bits = ((view c', b'), r) /\ updated c b a entry bits c' b' r.
Proof.
  intros Hi Hu Ha Hr Hbits Hn. unfold update_entry, ref_update.
  destruct (Z.land entry bits =? bits) eqn:E; cbn [negb].
  { bool_prop. split; [done|]. split; try done; [lia|]. intros e' [= <-].
    by rewrite lor_covered. }
  assert (Hv : u32 (Z.lor entry bits)) by (apply lor_width; [lia|apply (bus_read_u32 b a); [apply Hi|done]|done]).
  pose proof (aligned_page a Dword ltac:(apply Hu) Ha) as Hin. change (in_page a (width_bytes Dword)) in Hin.
  unfold write_page_walk_entry. destruct (bus_write b a Dword (Z.lor entry bits)) as [b' [[]|e]] eqn:Ew.
  - set (c1 := c <| tracker := record_write_page (tracker c) a |>).
    assert (Hi1 : Inv c1 b) by by apply (inv_regs c).
    destruct (store_sound c1 b b' a Dword _ Hi1 Hu Hin Ew Hn) as [Hi2 [Qv Qn Qm]]. change (width_bytes Dword) with 4 in *.
    split; [by rewrite Qv|]. injection Qv as ?????. split; try done; [change (tlb c1) with (tlb c) in Qn; lia|].
    intros e' [= <-]. split; [done|]. split; [by apply (bus_read_written b a); [apply Hu|done|apply Hi|]|].
    intros a' Ha0 Ha4 Hne. apply (bus_read_apart b a Dword (Z.lor entry bits)); try done; [apply Hu|apply Hi|].
    by apply other_dword.
  - split; [done|]. split; try done; [|lia]. by apply (refused_sound c b b' a Dword (Z.lor entry bits) e).
Qed.

(* ------------------------------------------------------------------ *)
(** ** The walk *)

(** Filling the cache with a translation that holds. *)
Lemma inv_fill c b page ph w u d : Inv c b ->
  backed b (marks c) (Z.land (cr3 c) PAGE_MASK) (mkEntry page ph (generation (tlb c)) w u d) ->
  Inv (c <| tlb := (insert (tlb c) page ph w u d).2 |>) b.
Proof.
  intros Hi Hback. destruct (insert_spec (tlb c) (iv_tlb _ _ Hi) page ph w u d) as (Hw & Hn & Hl & Hh).
  set (t' := (insert (tlb c) page ph w u d).2) in *. clearbody t'.
  pose proof Hi as [Hk Ht Hr Hc Hs Hv Hd Hb]. split; try done.
  - intros Hseed. cbn. rewrite Hl. by apply Hs.
  - intros x Hx. apply Hv. cbn in Hx. by rewrite Hl in Hx.
  - intros i e x Hi2 He Ho. unfold owner in Ho. cbn in Ho. rewrite Hl in Ho. fold (owner c i) in Ho.
    destruct (Hh i e Hi2 He) as [He'|[-> ->]]; [by apply (Hb i)|].
    unfold owner in Ho. rewrite decide_True in Ho by done. injection Ho as <-. exact Hback.
Qed.

Lemma view_record c write p : view (record_if c write p) = if write then ref_record (view c) p else view c.
Proof. by destruct write. Qed.

Lemma record_inv c b write p : Inv c b -> Inv (record_if c write p) b.
Proof. intros. destruct write; [by apply (inv_regs c)|done]. Qed.

(** The bits a walk looks at survive setting accessed and dirty bits. *)
Lemma lor_keeps e bits m : Z.land bits m = 0 -> Z.land (Z.lor e bits) m = Z.land e m.
Proof. intros E. by rewrite Z.land_lor_distr_l, E, Z.lor_0_r. Qed.

Lemma land_keeps x e bits m : Z.land bits m = 0 -> has (Z.land x (Z.lor e bits)) m = has (Z.land x e) m.
Proof. intros E. unfold has. by rewrite <-!Z.land_assoc, lor_keeps. Qed.

Lemma lor_has x bits m : Z.land bits m = m -> Z.land (Z.lor x bits) m = m.
Proof.
  intros E. apply Z.bits_inj'. intros i Hi. rewrite Z.land_spec, Z.lor_spec.
  apply (f_equal (fun z => Z.testbit z i)) in E. rewrite Z.land_spec in E.
  by destruct (Z.testbit x i), (Z.testbit bits i), (Z.testbit m i).
Qed.

Lemma mark_view c p : view (mark c p) = view c.
Proof. done. Qed.

(** What a completed walk leaves in memory backs the entry it fills; a directory
    that maps itself is the case where both updates hit one dword. *)
Lemma walk_backs b1 b3 (m : gset Z) dir page pde pte bits g :
  Z.land bits 1 = 0 -> Z.land bits 2 = 0 -> Z.land bits 4 = 0 -> Z.land bits PAGE_MASK = 0 -> Z.land bits 32 = 32 ->
  page_base dir -> bus_read b1 (pde_at dir page) = Ok pde -> bus_read b1 (pte_at pde page) = Ok pte ->
  Z.land pde 1 <> 0 -> Z.land pte 1 <> 0 -> Z.land pde 32 = 32 ->
  bus_read b3 (pte_at pde page) = Ok (Z.lor pte bits) ->
  (forall a', 0 <= a' -> a' mod 4 = 0 -> a' <> pte_at pde page -> bus_read b3 a' = bus_read b1 a') ->
  Z.shiftr dir 12 ∈ m -> Z.shiftr (Z.land pde PAGE_MASK) 12 ∈ m ->
  backed b3 m dir (mkEntry page (Z.land (Z.lor pte bits) PAGE_MASK) g
    (has (Z.land pde pte) 2) (has (Z.land pde pte) 4) (has (Z.lor pte bits) 64)).
Proof.
  intros B1 B2 B4 BM B32 Hd Rd Rt P1 P2 A1 Wt Wo M1 M2.
  destruct (pde_at_entry dir page Hd) as ([G0 _] & G1 & _).
  destruct (decide (pde_at dir page = pte_at pde page)) as [E|Hne].
  - assert (pte = pde) as -> by (rewrite E in Rd; congruence).
    assert (Ep : pte_at (Z.lor pde bits) page = pte_at pde page) by (unfold pte_at; by rewrite lor_keeps).
    exists (Z.lor pde bits), (Z.lor pde bits). cbn [tag phys writable Tlb.user dirty].
    rewrite E, Ep, !(lor_keeps pde bits 1), !(lor_keeps pde bits PAGE_MASK), !lor_has by done.
    split_and!; try done.
    + rewrite land_keeps by done. by rewrite (Z.land_comm (Z.lor pde bits) pde), land_keeps.
    + rewrite land_keeps by done. by rewrite (Z.land_comm (Z.lor pde bits) pde), land_keeps.
  - exists pde, (Z.lor pte bits). cbn [tag phys writable Tlb.user dirty].
    rewrite Wo, !(lor_keeps pte bits 1), !lor_has by done. split_and!; try done.
    + by rewrite land_keeps.
    + by rewrite land_keeps.
Qed.

Lemma walk_sound c b linear write user : Inv c b -> u32 linear ->
  (forall pde, bus_read b (pde_address (Z.land (cr3 c) PAGE_MASK) linear) = Ok pde -> Z.land pde 128 = 0) ->
  next_generation (tlb c) + 8 < 2 ^ 32 ->
  let '((c', b'), r) := page_walk code_wholesale c b linear write user in
  ref_walk (view c) b linear write user = ((view c', b'), r) /\ Inv c' b' /\
  next_generation (tlb c') <= next_generation (tlb c) + 8.
Proof.
  intros Hi Hl Hps Hn. unfold page_walk, ref_walk. cbv zeta.
  change (f_cr3 (view c)) with (cr3 c). change (f_cr0 (view c)) with (cr0 c).
  set (dir := Z.land (cr3 c) PAGE_MASK) in *. assert (Hd : page_base dir) by apply page_base_mask, (iv_cr3 _ _ Hi).
  fold (pde_address dir linear). rewrite pde_address_at in *.
  destruct (pde_at_entry dir (Z.shiftr linear 12) Hd) as (G0 & G1 & _).
  destruct (bus_read b (pde_at dir (Z.shiftr linear 12))) as [pde|e] eqn:Rd; [|by split_and!; [|done|lia]].
  specialize (Hps pde eq_refl). destruct (Z.land pde 1 =? 0) eqn:P1.
  { split; [done|]. split; [by apply (inv_regs c)|]. cbn. lia. }
  pose proof (update_sound c b _ pde 32 Hi G0 G1 Rd ltac:(zlia) ltac:(lia)) as Hu.
  destruct (update_entry code_wholesale c b _ pde 32) as [[c1 b1] [pde1|e]]; destruct Hu as [-> U1].
  2: { split; [done|]. split; [apply U1|]. pose proof (up_next _ _ _ _ _ _ _ _ U1). lia. }
  destruct (up_entry _ _ _ _ _ _ _ _ U1 _ eq_refl) as (-> & Rd1 & _). set (pde1 := Z.lor pde 32) in *.
  pose proof U1 as [I1 E0 E2 E3 El N1 _ _].
  fold (pte_address pde1 linear). change (pte_address pde1 linear) with (pte_at pde1 (Z.shiftr linear 12)).
  destruct (pte_at_entry pde1 (Z.shiftr linear 12) (bus_read_u32 _ _ _ (iv_bus _ _ I1) Rd1)) as (K0 & K1 & _).
  destruct (bus_read b1 (pte_at pde1 (Z.shiftr linear 12))) as [pte|e] eqn:Rt.
  2: { split; [done|]. split; [by apply inv_mark|]. cbn. lia. }
  destruct (Z.land pte 1 =? 0) eqn:P2.
  { split; [done|]. split; [apply (inv_regs (mark c1 dir)); try done; by apply inv_mark|]. cbn. lia. }
  change (f_cr0 (view c1)) with (cr0 c1). change (cr0 (mark c1 dir)) with (cr0 c1). rewrite E0.
  fold (forbidden (has (cr0 c) CR0_WP) user write (has (Z.land pde1 pte) 2) (has (Z.land pde1 pte) 4)).
  destruct (forbidden _ _ _ _ _).
  { split; [done|]. split; [apply (inv_regs (mark c1 dir)); try done; by apply inv_mark|]. cbn. lia. }
  set (bits := Z.lor 32 (if write then 64 else 0)).
  assert (Hbits : u32 bits) by (subst bits; destruct write; split; vm_compute; congruence).
  pose proof (update_sound (mark c1 dir) b1 _ pte bits (inv_mark c1 b1 dir I1) K0 K1 Rt Hbits ltac:(cbn; lia)) as Hu.
  change (view (mark c1 dir)) with (view c1) in Hu.
  destruct (update_entry code_wholesale (mark c1 dir) b1 _ pte bits) as [[c3 b3] [pte1|e]]; destruct Hu as [-> U3].
  2: { split; [done|]. split; [apply U3|]. pose proof (up_next _ _ _ _ _ _ _ _ U3) as N3. cbn in N3. lia. }
  destruct (up_entry _ _ _ _ _ _ _ _ U3 _ eq_refl) as (-> & Wt & Wo). set (pte1 := Z.lor pte bits) in *.
  pose proof U3 as [I3 _ _ E3' _ N3 M3 _]. cbn in E3', N3.
  assert (Hps1 : Z.land pde1 128 =? 0 = true) by (apply Z.eqb_eq; subst pde1; by rewrite lor_keeps).
  rewrite Hps1. set (c4 := mark c3 (Z.land pde1 PAGE_MASK)).
  assert (I4 : Inv c4 b3) by by apply inv_mark.
  rewrite (surjective_pairing (insert (tlb c4) _ _ _ _ _)). cbv iota beta.
  bool_prop. split; [by rewrite view_record|].
  split; [|destruct write; cbn; lia].
  apply record_inv, inv_fill; [done|]. replace (Z.land (cr3 c4) PAGE_MASK) with dir by (cbn; rewrite E3', E3; done).
  apply (walk_backs b1 b3); try done; try (subst bits; by destruct write).
  - subst pde1. by rewrite lor_keeps.
  - subst pde1. by rewrite lor_has.
  - subst c4. cbn. cbn in M3. set_solver.
  - subst c4. cbn. set_solver.
Qed.

(* ------------------------------------------------------------------ *)
(** ** Hits *)

Lemma has_land_bit x k : 0 <= k -> has x (bit k) = true -> Z.land x (bit k) = bit k.
Proof.
  intros Hk. rewrite has_bit by done. intros E. apply Z.bits_inj'. intros i Hi.
  rewrite Z.land_spec, testbit_bit by done. destruct (Z.eqb_spec k i) as [->|]; [by rewrite E|apply andb_false_r].
Qed.

(** A hit that serves the access is what the walk would have answered. *)
Lemma hit_sound c b linear (write user : bool) e : Inv c b -> lookup (tlb c) (Z.shiftr linear 12) = Some e ->
  (if user then Tlb.user e && (negb write || writable e)
   else negb write || negb (has (cr0 c) CR0_WP) || writable e) && (negb write || dirty e) = true ->
  let p := Z.lor (phys e) (Z.land linear 4095) in
  ref_walk (view c) b linear write user = ((view (record_if c write p), b), Ok p).
Proof.
  intros Hi Hh Hp. cbv zeta. destruct (lookup_held (tlb c) (iv_tlb _ _ Hi) _ _ Hh) as [He Ht].
  destruct (iv_backed _ _ Hi (live (tlb c)) e (Z.land (cr3 c) PAGE_MASK)) as (pde & pte & R); [apply (iv_tlb _ _ Hi)|done| |].
  { unfold owner. by rewrite decide_True. }
  rewrite Ht in R. destruct R as (Rd & Rt & P1 & P2 & A1 & A2 & Ep & Ew & Eu & Ed & _).
  unfold ref_walk. change (f_cr3 (view c)) with (cr3 c). change (f_cr0 (view c)) with (cr0 c).
  rewrite pde_address_at, Rd, (proj2 (Z.eqb_neq _ 0) P1). unfold ref_update at 1. rewrite A1, Z.eqb_refl.
  change (pte_address pde linear) with (pte_at pde (Z.shiftr linear 12)).
  rewrite Rt, (proj2 (Z.eqb_neq _ 0) P2). change (f_cr0 (view c)) with (cr0 c). rewrite <-Ew, <-Eu.
  replace (forbidden (has (cr0 c) CR0_WP) user write (writable e) (Tlb.user e)) with false.
  2: { unfold forbidden. by destruct user, write, (has (cr0 c) CR0_WP), (writable e), (Tlb.user e). }
  assert (Hbits : Z.land pte (Z.lor 32 (if write then 64 else 0)) = Z.lor 32 (if write then 64 else 0)).
  { destruct write; [|done]. rewrite Z.land_lor_distr_r, A2. f_equal.
    apply (has_land_bit pte 6); [done|]. change (bit 6) with 64. rewrite <-Ed.
    by destruct (dirty e), user, (Tlb.user e), (writable e), (has (cr0 c) CR0_WP). }
  unfold ref_update. rewrite Hbits, Z.eqb_refl, <-Ep. by rewrite view_record.
Qed.

(* ------------------------------------------------------------------ *)
(** ** Control registers and flushes *)

(** What every slot of the ring holds, before a CR3 write. *)
Lemma seeded_backed c b i e x : Inv c b -> (i < 2)%nat -> held (tlb c) i e ->
  ctx_dir (seeded_contexts (decode_cache c) (Z.land (cr3 c) PAGE_MASK)) i = Some x -> backed b (marks c) x e.
Proof.
  intros Hi Hi2 He. unfold seeded_contexts. destruct (ring_seeded (decode_cache c)) eqn:E; intros Hx.
  - apply (iv_backed _ _ Hi i); [done..|]. unfold owner. case_decide as Hl; [|done].
    subst i. by rewrite (iv_live _ _ Hi x Hx).
  - destruct i as [|[|]]; cbn in Hx; try done. injection Hx as <-.
    apply (iv_backed _ _ Hi 0%nat); [lia|done|]. unfold owner. by rewrite (iv_seed _ _ Hi E).
Qed.

Lemma seeded_base c b i x : Inv c b ->
  ctx_dir (seeded_contexts (decode_cache c) (Z.land (cr3 c) PAGE_MASK)) i = Some x -> page_base x.
Proof.
  intros Hi. unfold seeded_contexts. destruct (ring_seeded (decode_cache c)); [apply (iv_dirs _ _ Hi)|].
  destruct i as [|[|]]; cbn; try done. intros [= <-]. apply page_base_mask, (iv_cr3 _ _ Hi).
Qed.

Lemma seeded_of_ctx d i x : ring_wf d -> ctx_dir (contexts d) i = Some x -> ring_seeded d = true.
Proof.
  intros [_ Hu] Hx. destruct (ring_seeded d); [done|]. rewrite (Hu eq_refl) in Hx. by destruct i as [|[|]].
Qed.

(** A processor whose live slot is the one the ring holds for CR3. *)
Lemma inv_current c b i : bus_ok b -> tlb_wf (tlb c) -> ring_wf (decode_cache c) -> u32 (cr3 c) -> live (tlb c) = i ->
  ctx_dir (contexts (decode_cache c)) i = Some (Z.land (cr3 c) PAGE_MASK) ->
  (forall j d, ctx_dir (contexts (decode_cache c)) j = Some d -> page_base d) ->
  (forall j e d, (j < 2)%nat -> held (tlb c) j e -> ctx_dir (contexts (decode_cache c)) j = Some d ->
    backed b (marks c) d e) -> Inv c b.
Proof.
  intros Hk Ht Hr Hc Hl Hi Hd Hb. split; try done.
  - intros E. by rewrite (seeded_of_ctx _ _ _ Hr Hi) in E.
  - intros d Hx. rewrite Hl, Hi in Hx. congruence.
  - intros j e d Hj He Ho. apply (Hb j); [done..|]. unfold owner in Ho. case_decide as Hjl; [|done].
    injection Ho as <-. by rewrite Hjl, Hl.
Qed.

Lemma cr3_sound c b v : Inv c b -> u32 v -> next_generation (tlb c) + 8 < 2 ^ 32 ->
  let c' := flush_tlb_and_code_caches_for_cr3_write c v in
  Inv c' b /\ view c' = (view c) <| f_cr3 := v |> /\ next_generation (tlb c') <= next_generation (tlb c) + 8.
Proof.
  intros Hi Hv Hn. cbv zeta. pose proof (iv_bus _ _ Hi) as Hk. unfold flush_tlb_and_code_caches_for_cr3_write.
  change (decode_cache (c <| cr3 := v |>)) with (decode_cache c).
  pose proof (select_context_spec (decode_cache c) (Z.land (cr3 c) PAGE_MASK) (Z.land v PAGE_MASK) (iv_ring _ _ Hi)) as Hs.
  destruct (select_context _ _ _) as [sel d']. destruct Hs as [Hr Hs]. pose proof (page_base_mask v Hv) as Hbase.
  destruct sel as [i|i|i].
  - destruct Hs as (Hi2 & Hx & Hc & Hm). destruct (select_evolves (tlb c) (iv_tlb _ _ Hi) i Hi2) as [H1 H2 H3 H4].
    split; [|split; [done|cbn [tlb update eta_Cpu]; lia]].
    apply (inv_current _ _ i); try done; cbn [decode_cache update eta_Cpu]; rewrite ?Hc; [done|..].
    + intros j x Hj. by apply (seeded_base c b j).
    + intros j e x Hj He Hj'. rewrite Hm. destruct (H4 j e Hj He). by apply (seeded_backed c b j).
  - destruct Hs as (Hi2 & Hx & Hc & Hm).
    destruct (allocate_evolves (tlb c) (iv_tlb _ _ Hi) i Hi2 ltac:(lia)) as [H1 H2 H3 H4].
    split; [|split; [done|cbn [tlb update eta_Cpu]; lia]]. apply (inv_current _ _ i); try done; cbn [decode_cache update eta_Cpu].
    + intros j x Hj. destruct (decide (j = i)) as [->|Hne]; [congruence|]. apply (seeded_base c b j); [done|by apply Hc].
    + intros j e x Hj He Hj'. rewrite Hm. destruct (H4 j e Hj He) as [Hne ?]. cbn beta in Hne.
      apply (seeded_backed c b j); [done..|by apply Hc].
  - destruct Hs as (-> & Hx & Hnone & Hm).
    destruct (retire_all_evolves (tlb c) (iv_tlb _ _ Hi) ltac:(lia)) as [G1 G2 G3 G4].
    destruct (allocate_evolves (retire_all_slots (tlb c)) G1 0 ltac:(lia) ltac:(lia)) as [H1 H2 H3 H4].
    split; [|split; [done|cbn [tlb update eta_Cpu]; lia]]. apply (inv_current _ _ 0); try done; cbn [decode_cache update eta_Cpu].
    + intros j x Hj. destruct j as [|[|j]]; [congruence|congruence|].
      unfold ctx_dir in Hj. rewrite lookup_ge_None_2 in Hj; [done|]. rewrite (rw_contexts _ Hr). lia.
    + intros j e x Hj He _. destruct (H4 j e Hj He) as [_ He']. by destruct (G4 j e Hj He').
Qed.

Lemma invlpg_sound c b linear : Inv c b -> next_generation (tlb c) + 8 < 2 ^ 32 ->
  let c' := apply_invlpg c linear in
  Inv c' b /\ view c' = view c /\ next_generation (tlb c') <= next_generation (tlb c) + 8.
Proof.
  intros Hi Hn. cbv zeta. pose proof (iv_bus _ _ Hi) as Hk. unfold apply_invlpg, invalidate_translation_code_caches, invalidate_decode_frontend.
  cbn [tlb update eta_Cpu decode_cache].
  destruct (invalidate_evolves (tlb c) (iv_tlb _ _ Hi) (Z.shiftr linear 12)) as [G1 G2 G3 G4].
  set (t1 := invalidate _ _) in *. destruct (retire_dormant_evolves t1 G1 ltac:(lia)) as [H1 H2 H3 H4].
  destruct (invalidate_ring (decode_cache c) false) as (E1 & E2 & E3).
  set (d' := invalidate_and_clear_code_marks _ _) in *. set (t2 := retire_dormant_slot t1) in *.
  assert (Hnone : forall i, ctx_dir (contexts d') i = None) by (intros i; rewrite E1; by destruct i as [|[|]]).
  split; [|split; [done|cbn [tlb update eta_Cpu]; lia]]. split; cbn [tlb decode_cache cr3 update eta_Cpu]; try done.
  - apply Hi.
  - intros E. rewrite H3, G3. apply (iv_seed _ _ Hi). congruence.
  - intros d E. by rewrite Hnone in E.
  - intros i d E. by rewrite Hnone in E.
  - intros i e d Hi2 He Ho. destruct (H4 i e Hi2 He) as [Hl He1]. cbn beta in Hl. destruct (G4 i e Hi2 He1) as [_ He0].
    rewrite E3. apply (iv_backed _ _ Hi i); [done..|]. unfold owner in *. cbn [tlb decode_cache cr3 update eta_Cpu] in Ho.
    rewrite decide_True in Ho by congruence. injection Ho as <-. rewrite decide_True by congruence. done.
Qed.

Lemma flush_live_sound c b : Inv c b -> next_generation (tlb c) + 8 < 2 ^ 32 ->
  Inv (c <| tlb := flush_live_slot (tlb c) |>) b /\
  next_generation (flush_live_slot (tlb c)) <= next_generation (tlb c) + 8.
Proof.
  intros Hi Hn. destruct (flush_live_evolves (tlb c) (iv_tlb _ _ Hi) ltac:(lia)) as [H1 H2 H3 H4].
  split; [|lia]. pose proof Hi as [Hk Ht Hr Hc Hs Hl Hd Hb]. set (t := flush_live_slot (tlb c)) in *. clearbody t.
  split; cbn [tlb decode_cache cr3 update eta_Cpu]; try done.
  - intros E. rewrite H3. by apply Hs.
  - intros d E. rewrite H3 in E. by apply Hl.
  - intros i e d Hi2 He Ho. destruct (H4 i e Hi2 He) as [_ He0]. apply (Hb i); [done..|].
    unfold owner in *. cbn [tlb decode_cache cr3 update eta_Cpu] in Ho. by rewrite H3 in Ho.
Qed.

Lemma cr0_sound c b v : Inv c b -> next_generation (tlb c) + 8 < 2 ^ 32 ->
  let c' := flush_tlb_for_cr0_write (c <| cr0 := v |>) (cr0 c) v in
  Inv c' b /\ view c' = (view c) <| f_cr0 := v |> /\ next_generation (tlb c') <= next_generation (tlb c) + 8.
Proof.
  intros Hi Hn. cbv zeta. assert (Hi0 : Inv (c <| cr0 := v |>) b) by by apply (inv_regs c).
  unfold flush_tlb_for_cr0_write. destruct (cr0_write_moves_code_translation _ _).
  - unfold flush_tlb_and_code_caches, invalidate_translation_code_caches, invalidate_decode_frontend. cbv zeta.
    destruct (inv_wiped (c <| cr0 := v |>) b true (iv_bus _ _ Hi) (iv_tlb _ _ Hi0) (iv_cr3 _ _ Hi0)) as [H1 H2]; [cbn; lia|].
    split; [exact H1|]. split; [done|]. unfold wiped in H2. cbn [tlb update eta_Cpu] in H2 |- *. lia.
  - unfold flush_tlb_keep_code_caches. destruct (has v CR0_PG).
    + destruct (flush_live_sound _ b Hi0) as [H1 H2]; [cbn; lia|]. split; [exact H1|]. split; [done|exact H2].
    + split; [done|]. split; [done|]. cbn. lia.
Qed.

(* ------------------------------------------------------------------ *)
(** ** Whole histories *)

Lemma access_sound c b linear write accessor : Inv c b -> u32 linear ->
  no_large_page (view c) b (Access linear write accessor) -> next_generation (tlb c) + 8 < 2 ^ 32 ->
  let '((c', b'), a) := translate_linear_checked code_wholesale c b linear write accessor in
  ref_step (view c) b (Access linear write accessor) = ((view c', b'), a) /\ Inv c' b' /\
  next_generation (tlb c') <= next_generation (tlb c) + 8.
Proof.
  intros Hi Hl Hps Hn. unfold translate_linear_checked, is_paging_enabled. cbn [ref_step no_large_page] in *.
  change (f_cr0 (view c)) with (cr0 c) in *. change (f_cr3 (view c)) with (cr3 c) in *.
  destruct (has (cr0 c) CR0_PG); cbn [negb].
  2: { split; [by rewrite view_record|]. split; [by apply record_inv|]. destruct write; cbn; lia. }
  specialize (Hps eq_refl). change (ref_user (view c) accessor) with (match accessor with Current => cpl c =? 3 | Supervisor => false end).
  set (user := match accessor with Current => _ | Supervisor => _ end).
  destruct (lookup (tlb c) (Z.shiftr linear 12)) as [e|] eqn:Hh; [|by apply walk_sound].
  destruct (_ && (negb write || dirty e)) eqn:Hp; [|by apply walk_sound].
  split; [by apply hit_sound|]. split; [by apply record_inv|]. destruct write; cbn; lia.
Qed.

Lemma step_sound c b e : Inv c b -> event_ok e -> no_large_page (view c) b e -> next_generation (tlb c) + 8 < 2 ^ 32 ->
  let '((c', b'), a) := step code_wholesale c b e in
  ref_step (view c) b e = ((view c', b'), a) /\ Inv c' b' /\
  next_generation (tlb c') <= next_generation (tlb c) + 8.
Proof.
  intros Hi Hok Hps Hn. destruct e as [linear write accessor|p w v|p bytes|spans|v|v|linear|v| |l]; cbn [step ref_step event_ok] in *.
  - by apply access_sound.
  - destruct Hok as [Hp Ha]. unfold store. destruct (bus_write b p w v) as [b' [[]|e]] eqn:Ew.
    + destruct (store_sound c b b' p w v Hi Hp Ha Ew ltac:(lia)) as [H1 [Q1 Q2 _]].
      split; [by rewrite Q1|]. split; [done|lia].
    + split; [done|]. split; [by apply (refused_sound c b b' p w v e)|lia].
  - destruct Hok as [Hp Hend].
    destruct (range_sound c b p bytes Hi Hp Hend ltac:(lia)) as [H1 [Q1 Q2 _]].
    split; [by rewrite Q1|]. split; [done|lia].
  - destruct (inv_wiped c (device_stores b spans) false) as [H1 H2];
      [apply device_stores_ok; [done|apply Hi]|apply Hi|apply Hi|lia|].
    split; [done|]. split; [exact H1|].
    change (tlb (note_device_memory_write c)) with (tlb (wiped c false)). lia.
  - unfold mov_cr0. destruct (_ && _); [by split_and!; [..|lia]|].
    destruct (cr0_sound c b v Hi Hn) as (H1 & H2 & H3). cbv zeta. split; [by rewrite H2|]. by split.
  - destruct (cr3_sound c b v Hi Hok Hn) as (H1 & H2 & H3). split; [by rewrite H2|]. by split.
  - destruct (invlpg_sound c b linear Hi Hn) as (H1 & H2 & H3). split; [by rewrite H2|]. by split.
  - unfold load_task_cr3. change (f_cr0 (view c)) with (cr0 c). destruct (has (cr0 c) CR0_PG); [|by split_and!; [..|lia]].
    set (c1 := c <| cr3 := v |>). assert (Ht : tlb_wf (tlb c1)) by apply (iv_tlb _ _ Hi).
    destruct (inv_wiped c1 b true (iv_bus _ _ Hi) Ht Hok) as [H1 H2]; [cbn; lia|].
    split; [done|]. split; [exact H1|]. unfold wiped in H2. cbn [tlb update eta_Cpu] in H2.
    change (tlb c1) with (tlb c) in H2.
    change (tlb (flush_tlb_and_code_caches c1 TaskSwitch)) with (retire_all_slots (tlb c)). lia.
  - destruct (inv_wiped c b false (iv_bus _ _ Hi) (iv_tlb _ _ Hi) (iv_cr3 _ _ Hi)) as [H1 H2]; [lia|].
    split; [done|]. split; [exact H1|]. change (tlb (invalidate_code_caches c)) with (tlb (wiped c false)). lia.
  - split; [done|]. split; [by apply (inv_regs c)|]. cbn. lia.
Qed.

Lemma run_sound es : forall c b, Inv c b -> history_ok (view c) b es ->
  next_generation (tlb c) + 8 * zlen es < 2 ^ 32 ->
  let '((c', b'), answers) := run code_wholesale c b es in
  ref_run (view c) b es = ((view c', b'), answers).
Proof.
  induction es as [|e es IH]; intros c b Hi Hok Hn; [done|]. cbn [run ref_run history_ok] in *.
  rewrite zlen_cons in Hn. pose proof (zlen_nonneg es). destruct Hok as (He & Hps & Hok).
  pose proof (step_sound c b e Hi He Hps ltac:(lia)) as Hs.
  destruct (step code_wholesale c b e) as [[c1 b1] a]. destruct Hs as (E & H1 & H2). rewrite E in Hok |- *.
  specialize (IH c1 b1 H1 Hok ltac:(lia)). destruct (run code_wholesale c1 b1 es) as [[c2 b2] answers].
  by rewrite IH.
Qed.

(** The processor at power-on: nothing cached, nothing seeded. *)
Definition power_on (c0 c3 level : Z) (t : Tracker) : Cpu := mkCpu c0 0 c3 level tlb_default decode_new t.

Lemma power_on_inv c0 c3 level t b : bus_ok b -> u32 c3 -> Inv (power_on c0 c3 level t) b.
Proof.
  intros Hk Hc. split; try done.
  - apply tlb_default_wf.
  - intros i d E. by destruct i as [|[|]].
  - intros i e d Hi [He Hg] _. apply elem_of_replicate in He as [-> _].
    pose proof (tw_bound _ tlb_default_wf i Hi) as Hb. change (tlb (power_on c0 c3 level t)) with tlb_default in Hg.
    rewrite <-Hg in Hb. cbn in Hb. lia.
Qed.

(** C1.  Cached translations are coherent with every write the processor makes or is
    told of.  From power-on, through any history of accesses, stores of the processor
    (each within one 4 KiB page, as the code commits them; page tables included), device
    and HLE writes reported with or without their range, MOV CR0, MOV CR3, INVLPG, task
    switches, privilege changes and code-cache flushes, the paging unit gives every
    access the answer - the physical address, the page fault and its error code, or the
    bus error - of a processor that keeps no translations and walks the tables in memory
    each time, and leaves the same memory, control registers and write record, even for
    a guest that edits its tables without flushing.  That is more than the comment on
    [Tlb] promises (a non-snooping cache, on which a guest that skips a flush may be
    served a stale translation: a reported divergence); the cache alone does not snoop,
    and memory changed without telling the processor stays unseen until a flush
    ([PagingMemory.OnMemory.unreported_change_is_stale]).  The histories are those whose
    directory entries have PS clear and that are shorter than the 2^29 or so events in
    which generation numbers may run out. *)
Theorem paging_transparent c0 c3 level t b es :
  bus_ok b -> u32 c3 ->
  let c := power_on c0 c3 level t in
  history_ok (view c) b es -> 8 * zlen es < 2 ^ 32 - 3 ->
  let '((c', b'), answers) := run code_wholesale c b es in
  ref_run (view c) b es = ((view c', b'), answers).
Proof.
  intros Hk Hc c Hok Hn. apply run_sound; [by apply power_on_inv|done|]. cbn [tlb c power_on tlb_default next_generation]. lia.
Qed.

End Simulation.
End Sound.
