(* ===== verification/PagingMemory.v ===== *)
(** * The paging unit on plain memory

    [Memory] of izarravm-bus discharges [BusLaws], and concrete histories: one in which
    the guest edits a page table without flushing, and those that mark the limits of
    [paging_transparent]: a change of memory nobody reports, a directory entry with PS
    set, and generation numbers that run out. *)

From stdpp Require Import gmap.
From S2P Require Import Prelude Memory CpuAlu Tlb Paging PagingSound.
Import Tlb.Tlb Paging.Paging PagingSound.Sound.

Module OnMemory.

(** Whole pages of bytes. *)
Definition memory_ok (m : Memory) : Prop := Forall u8 (data m) /\ memory_len m mod 4096 = 0.

Definition memory_write (m : Memory) (a : Z) (w : BusWidth) (v : Z) : Memory * result BusError unit :=
  match w with
  | Byte => write_bytes m a [wrap 8 v]
  | Word => write_u16 m a v
  | Dword => write_u32 m a v
  end.

#[export] Instance memory_bus : PhysicalBus Memory := {| bus_read := read_u32; bus_write := memory_write |}.

Definition image (w : BusWidth) (v : Z) : list Z :=
  match w with Byte => [wrap 8 v] | Word => le_bytes 2 v | Dword => le_bytes 4 v end.

Lemma memory_write_image m a w v : memory_write m a w v = write_bytes m a (image w v).
Proof. by destruct w. Qed.

Lemma image_length w v : Z.of_nat (length (image w v)) = width_bytes w.
Proof. by destruct w. Qed.

Lemma image_u8 w v : Forall u8 (image w v).
Proof.
  destruct w; [constructor; [apply wrap_in_width; lia|constructor]|apply le_bytes_u8..].
Qed.

Lemma write_bytes_ok bs : forall m a m' r, Forall u8 bs -> memory_ok m -> write_bytes m a bs = (m', r) -> memory_ok m'.
Proof.
  induction bs as [|v bs IH]; intros m a m' r Hb Hm; cbn [write_bytes].
  - by intros [= <- <-].
  - destruct (write_u8 m a v) as [m1|e] eqn:E; [|by intros [= <- <-]].
    apply (IH m1 (a + 1) m' r); [by inversion Hb|]. pose proof (write_u8_len _ _ _ _ E) as Hl.
    unfold write_u8 in E. destruct (data m !! Z.to_nat a); [|done]. injection E as <-.
    destruct Hm as [Hf Hm]. split; [cbn; apply Forall_insert; [done|by inversion Hb]|by rewrite Hl].
Qed.

Lemma read_u8_u8 m a v : Forall u8 (data m) -> read_u8 m a = Ok v -> u8 v.
Proof.
  intros Hf. unfold read_u8. destruct (data m !! Z.to_nat a) eqn:E; [|done]. intros [= <-].
  by apply (Forall_lookup_1 _ _ _ _ Hf E).
Qed.

Lemma read_u32_bytes m a v : read_u32 m a = Ok v -> exists b0 b1 b2 b3, read_u8 m a = Ok b0 /\ read_u8 m (a + 1) = Ok b1 /\
  read_u8 m (a + 2) = Ok b2 /\ read_u8 m (a + 3) = Ok b3 /\ v = le_value [b0; b1; b2; b3].
Proof.
  unfold read_u32. destruct (read_u8 m a) as [b0|], (read_u8 m (a + 1)) as [b1|], (read_u8 m (a + 2)) as [b2|],
    (read_u8 m (a + 3)) as [b3|]; try done. intros [= <-]. by exists b0, b1, b2, b3.
Qed.

(** Dword reads depend on four bytes. *)
Lemma read_u32_ext m m' a : (forall i, 0 <= i < 4 -> read_u8 m' (a + i) = read_u8 m (a + i)) -> read_u32 m' a = read_u32 m a.
Proof.
  intros He. unfold read_u32. pose proof (He 0 ltac:(lia)) as H0. rewrite Z.add_0_r in H0.
  by rewrite H0, (He 1), (He 2), (He 3) by lia.
Qed.

Lemma write_in_range m a w v : 0 <= a -> a + width_bytes w <= memory_len m ->
  exists m', memory_write m a w v = (m', Ok tt) /\ memory_len m' = memory_len m /\
    forall b, 0 <= b -> read_u8 m' b =
      match image w v !! Z.to_nat (b - a) with
      | Some x => if a <=? b then Ok x else read_u8 m b
      | None => read_u8 m b
      end.
Proof. intros. rewrite memory_write_image. apply write_bytes_in; [done|by rewrite image_length]. Qed.

Lemma write_ok_in_range bs : forall m a m', 0 <= a -> bs <> [] -> write_bytes m a bs = (m', Ok tt) ->
  a + Z.of_nat (length bs) <= memory_len m.
Proof.
  induction bs as [|v bs IH]; intros m a m' Ha Hne; [done|]. cbn [write_bytes length].
  destruct (write_u8 m a v) as [m1|e] eqn:E; [|done]. intros Hw.
  pose proof (write_u8_ok _ _ _ _ Ha E) as Hin. pose proof (write_u8_len _ _ _ _ E) as Hl. unfold in_memory in Hin.
  destruct bs as [|v' bs]; [cbn; lia|]. pose proof (IH m1 (a + 1) m' ltac:(lia) ltac:(done) Hw). cbn [length] in *. lia.
Qed.

Lemma image_nonempty w v : image w v <> [].
Proof. by destruct w. Qed.

#[export] Instance memory_laws : BusLaws Memory.
Proof.
  refine {| bus_ok := memory_ok |}; cbn [bus_read bus_write memory_bus].
  - intros m a w v m' r _ Hm. rewrite memory_write_image. apply write_bytes_ok; [apply image_u8|done].
  - intros m a v [Hf _] (b0 & b1 & b2 & b3 & H0 & H1 & H2 & H3 & ->)%read_u32_bytes.
    apply (le_value_bound [b0; b1; b2; b3]). repeat (constructor; [by eapply read_u8_u8|]). constructor.
  - intros m a v m' Ha Hv _ Hw. pose proof Hw as Hr. rewrite memory_write_image in Hr.
    apply write_ok_in_range in Hr; [|done|apply image_nonempty]. rewrite image_length in Hr.
    destruct (write_in_range m a Dword v Ha Hr) as (m1 & E & _ & Hread). rewrite Hw in E. injection E as <-.
    unfold read_u32. rewrite !Hread by lia. rewrite !(proj2 (Z.leb_le _ _)) by lia.
    replace (a - a) with 0 by lia. replace (a + 1 - a) with 1 by lia. replace (a + 2 - a) with 2 by lia. replace (a + 3 - a) with 3 by lia.
    cbn -[le_value]. f_equal. by apply (le_value_bytes 4 v).
  - intros m a w v m' a' Ha Ha' _ Hw Hap. pose proof Hw as Hr. rewrite memory_write_image in Hr.
    apply write_ok_in_range in Hr; [|done|apply image_nonempty]. rewrite image_length in Hr.
    destruct (write_in_range m a w v Ha Hr) as (m1 & E & _ & Hread). rewrite Hw in E. injection E as <-.
    apply read_u32_ext. intros i Hi. rewrite Hread by lia. unfold apart in Hap.
    destruct (image w v !! Z.to_nat (a' + i - a)) eqn:El; [|done].
    apply lookup_lt_Some in El. pose proof (image_length w v). destruct (Z.leb_spec a (a' + i)); [lia|done].
  - intros m a w v m' e Ha Hal [_ Hlen] Hw a' _ _. rewrite memory_write_image in Hw.
    assert (memory_len m <= a) as Hout.
    { destruct (Z.le_gt_cases (a + width_bytes w) (memory_len m)) as [Hin|Hin].
      - destruct (write_in_range m a w v Ha Hin) as (m1 & E & _). rewrite memory_write_image, Hw in E. done.
      - unfold in_page in Hal. pose proof (Z.div_mod a 4096). pose proof (Z.div_mod (memory_len m) 4096).
        pose proof (Z.mod_pos_bound a 4096). pose proof (width_bytes_cases w). lia. }
    destruct (image w v) as [|x bs] eqn:Ei; [by destruct (image_nonempty w v)|]. cbn [write_bytes] in Hw.
    unfold write_u8 in Hw. rewrite lookup_ge_None_2 in Hw by (unfold memory_len in Hout; lia). by injection Hw as <- _.
Defined.

(* ------------------------------------------------------------------ *)
(** ** Concrete histories *)

Definition event_okb (e : Event) : bool :=
  let u32b z := (0 <=? z) && (z <? 2 ^ 32) in
  match e with
  | Access linear _ _ | Invlpg linear => u32b linear
  | Store physical w _ => u32b physical && (physical mod 4096 + width_bytes w <=? 4096)
  | DeviceWrite physical bytes => (0 <=? physical) && (physical + zlen bytes <=? 2 ^ 32)
  | DeviceReset spans => forallb (fun s => 0 <=? s.1) spans
  | MovCr3 v | SwitchTask v => u32b v
  | _ => true
  end.

Definition no_large_pageb (r : Ref) (b : Memory) (e : Event) : bool :=
  match e with
  | Access linear _ _ =>
      match bus_read b (pde_address (Z.land (f_cr3 r) PAGE_MASK) linear) with
      | Ok pde => Z.land pde 128 =? 0
      | Err _ => true
      end
  | _ => true
  end.

Fixpoint history_okb (r : Ref) (b : Memory) (es : list Event) : bool :=
  match es with
  | [] => true
  | e :: es => event_okb e && no_large_pageb r b e &&
      (let '((r, b), _) := ref_step r b e in history_okb r b es)
  end.

Lemma history_okb_sound es : forall r b, history_okb r b es = true -> history_ok r b es.
Proof.
  assert (Hu : forall z, (0 <=? z) && (z <? 2 ^ 32) = true -> u32 z) by (intros z Hz; bool_prop; by split).
  induction es as [|e es IH]; intros r b; cbn [history_okb history_ok]; [done|]. intros Hok.
  apply andb_true_iff in Hok as [Hok Hes]. apply andb_true_iff in Hok as [He Hp]. split; [|split].
  - destruct e; cbn in He |- *; auto.
    + bool_prop. split; [by split|done].
    + bool_prop. done.
    + apply Forall_forall. intros x Hx. apply forallb_forall with (x := x) in He; [by bool_prop|].
      by apply list_elem_of_In.
  - destruct e; cbn in Hp |- *; auto. intros _ pde E. rewrite E in Hp. by bool_prop.
  - destruct (ref_step r b e) as [[r' b'] a]. by apply IH.
Qed.

Definition poke (m : Memory) (a v : Z) : Memory := (memory_write m a Dword v).1.

(** 16 KiB: a directory at 0x1000 whose only table, at 0x2000, maps page 0 to 0x3000. *)
Definition demo_memory : Memory := poke (poke (mkMemory (replicate (Z.to_nat 16384) 0)) 4096 8199) 8192 12295.
Definition no_writes : Tracker := mkTracker NO_LAST_WRITTEN_PAGE (replicate 8 None) 0 false.
Definition never (_ _ : Z) : bool := false.
Definition demo_cr0 : Z := 2147483649.

(** The guest remaps page 0 without a flush, a device remaps it again, then the guest
    makes it read-only and reloads CR3. *)
Definition demo : list Event :=
  [Access 16 false Current; Access 20 true Current; Store 8192 Dword 4103; Access 16 false Current;
   DeviceWrite 8190 [0; 0; 7; 48]; Access 16 false Current;
   Store 8192 Dword 4101; MovCr3 4096; Access 16 true Current; Invlpg 16; Access 4096 false Supervisor].

Lemma demo_memory_ok : memory_ok demo_memory.
Proof.
  assert (Hp : forall m a v, memory_ok m -> memory_ok (poke m a v)).
  { intros m a v Hm. unfold poke. destruct (memory_write m a Dword v) as [m' r] eqn:E.
    rewrite memory_write_image in E. by apply (write_bytes_ok _ _ _ _ _ (image_u8 Dword v) Hm E). }
  apply Hp, Hp. split; [by apply Forall_replicate|by vm_compute].
Qed.

Lemma paging_transparent_witness :
  memory_ok demo_memory /\ history_ok (view (power_on demo_cr0 4096 3 no_writes)) demo_memory demo /\
  (let '((c', b'), answers) := run never (power_on demo_cr0 4096 3 no_writes) demo_memory demo in
   ref_run (view (power_on demo_cr0 4096 3 no_writes)) demo_memory demo = ((view c', b'), answers)) /\
  (run never (power_on demo_cr0 4096 3 no_writes) demo_memory demo).2 =
    [Ok 12304; Ok 12308; Ok 0; Ok 4112; Ok 0; Ok 12304; Ok 0; Ok 0;
     Err (Alu.Exception 14 (Some 7)); Ok 0; Err (Alu.Exception 14 (Some 0))].
Proof.
  assert (H : history_ok (view (power_on demo_cr0 4096 3 no_writes)) demo_memory demo)
    by (apply history_okb_sound; vm_compute; reflexivity).
  assert (Hb : bus_ok demo_memory) by exact demo_memory_ok.
  split; [exact demo_memory_ok|]. split; [exact H|]. split; [|vm_compute; reflexivity].
  apply (paging_transparent never demo_cr0 4096 3 no_writes demo_memory demo Hb);
    [split; vm_compute; congruence|exact H|vm_compute; reflexivity].
Defined.

(* ------------------------------------------------------------------ *)
(** ** The limits of transparency *)

(** A change of memory nobody reports to the processor is not seen until a flush: the
    table maps page 0 elsewhere, the translation cached before still answers, and INVLPG
    drops it.  (So the cache itself does not snoop; what [paging_transparent] shows is
    that every write of the processor, and every reported one, reaches it.) *)
Lemma unreported_change_is_stale :
  let '((c, _), a1) := run never (power_on demo_cr0 4096 3 no_writes) demo_memory [Access 16 false Current] in
  let changed := poke demo_memory 8192 4103 in
  let '((c', _), a2) := run never c changed [Access 16 false Current; Invlpg 16; Access 16 false Current] in
  a1 = [Ok 12304] /\ a2 = [Ok 12304; Ok 0; Ok 4112].
Proof. vm_compute. split; reflexivity. Qed.

(** The same directory entry with PS set: its table is not watched. *)
Definition large_memory : Memory := poke (poke (mkMemory (replicate (Z.to_nat 16384) 0)) 4096 8327) 8192 12295.

(** With PS set in the directory entry, which the walk ignores, an edited table stays unnoticed
    and a reload of CR3 with the directory in use keeps the old translation: the processor
    answers 0x3010 where its own walk of the tables would answer 0x1010. *)
Theorem ps_entry_survives_cr3_reload :
  let es := [Access 16 false Current; Store 8192 Dword 4103; MovCr3 4096; Access 16 false Current] in
  (run never (power_on demo_cr0 4096 3 no_writes) large_memory es).2 = [Ok 12304; Ok 0; Ok 0; Ok 12304] /\
  (ref_run (view (power_on demo_cr0 4096 3 no_writes)) large_memory es).2 = [Ok 12304; Ok 0; Ok 0; Ok 4112].
Proof. split; vm_compute; reflexivity. Qed.

(** [n] flushes of the live slot, short of the wrap. *)
Lemma flushes_form n : forall t, (live t < length (generations t))%nat -> 0 < next_generation t ->
  next_generation t + Z.of_nat n < 2 ^ 32 ->
  Nat.iter (S n) flush_live_slot t =
  t <| generations := <[live t := next_generation t + Z.of_nat n]> (generations t) |>
    <| generation := next_generation t + Z.of_nat n |>
    <| next_generation := wrap 32 (next_generation t + Z.of_nat n + 1) |>.
Proof.
  assert (Hone : forall t, 0 < next_generation t -> flush_live_slot t =
    t <| generations := <[live t := next_generation t]> (generations t) |>
      <| generation := next_generation t |> <| next_generation := wrap 32 (next_generation t + 1) |>).
  { intros t Ht. unfold flush_live_slot, mint_generation. by rewrite (proj2 (Z.eqb_neq _ 0)) by lia. }
  induction n as [|n IH]; intros t Hl Ht Hn.
  - cbn [Nat.iter Z.of_nat]. rewrite Z.add_0_r. by apply Hone.
  - rewrite Nat.iter_succ, IH by (done || lia).
    assert (Hw : wrap 32 (next_generation t + Z.of_nat n + 1) = next_generation t + Z.of_nat (S n))
      by (rewrite wrap_id by zlia; lia).
    rewrite Hone by (cbn [next_generation update eta_Tlb]; lia).
    cbn [next_generation generations live update eta_Tlb generation entries]. rewrite Hw.
    f_equal. by rewrite list_insert_insert_eq.
Qed.

(** [2^32 - 1] flushes from there run over the wrap of the counter. *)
Lemma flushes_wrap es N : Z.of_nat N = 2 ^ 32 - 1 ->
  Nat.iter N flush_live_slot (mkTlb es 1 [1; 3] 0 4) =
  mkTlb (replicate (Z.to_nat TLB_ENTRIES) EMPTY) 3 [3; 3] 0 4.
Proof.
  intros HN. assert (exists n, N = (3 + S n)%nat) as [n ->] by (exists (N - 4)%nat; lia).
  assert (Hn : Z.of_nat n = 2 ^ 32 - 5) by lia.
  rewrite Nat.iter_add, (flushes_form n) by (cbn [live generations next_generation length]; lia).
  cbn [next_generation generations live update eta_Tlb generation entries]. rewrite Hn. reflexivity.
Qed.

(** Generation numbers are reused while a slot still holds one: after two directories
    have been loaded and CR0 has then been written 2^32 - 1 times under the first, both slots
    of the ring carry the same generation, and what is cached under one directory is
    found under the other. *)
Theorem generation_wrap_joins_slots page ph w u d :
  let t1 := select_generation (allocate_generation tlb_default 1) 0 in
  let t2 := Nat.iter (Z.to_nat (2 ^ 32 - 1)) flush_live_slot t1 in
  gen_of t2 0 = gen_of t2 1 /\
  lookup (select_generation (insert t2 page ph w u d).2 1) page = Some (mkEntry page ph 3 w u d).
Proof.
  intros t1 t2.
  assert (H2 : t2 = mkTlb (replicate (Z.to_nat TLB_ENTRIES) EMPTY) 3 [3; 3] 0 4).
  { apply (flushes_wrap (entries t1)). rewrite Z2Nat.id by lia. reflexivity. }
  clearbody t2. rewrite H2. split; [reflexivity|].
  unfold lookup, insert, select_generation.
  cbn [entries generation generations live update eta_Tlb snd fst].
  change (([3; 3] : list Z) !!! 1%nat) with 3.
  rewrite list_lookup_total_insert_eq by (rewrite length_replicate; apply slot_bound).
  cbn [egen tag]. by rewrite !Z.eqb_refl.
Qed.

End OnMemory.
