(* ===== verification/Exec.v ===== *)
(** * Stateful, fallible code

    The functions of izarravm-cpu that take [&mut self] and a bus and return [ExecResult]:
    a state and a result, where an early return keeps every change made before it.
    [obeys R Q m] says that [m] moves the state along [R] when it ends well and along [Q]
    when it fails; [fails Q m] speaks of the failures alone. *)

From S2P Require Import Prelude.

Section Exec.
Context {S E : Type}.

Definition Exec (A : Type) : Type := S -> S * result E A.

#[export] Instance exec_ret : MRet Exec := fun A a s => (s, Ok a).
#[export] Instance exec_bind : MBind Exec := fun A B f m s =>
  match m s with (s, Ok a) => f a s | (s, Err e) => (s, Err e) end.

Definition throw {A} (e : E) : Exec A := fun s => (s, Err e).
Definition gets {A} (f : S -> A) : Exec A := fun s => (s, Ok (f s)).
Definition modify (f : S -> S) : Exec unit := fun s => (f s, Ok tt).

(** [if !b { return Err(e) }] *)
Definition demand (b : bool) (e : E) : Exec unit := if b then mret tt else throw e.

(** [for x in xs { f(x)? }] *)
Fixpoint each {A} (f : A -> Exec unit) (xs : list A) : Exec unit :=
  match xs with [] => mret tt | x :: xs => f x;; each f xs end.

(** [m.map_err(f)] *)
Definition map_err {A} (f : E -> E) (m : Exec A) : Exec A := fun s =>
  match m s with (s, Err e) => (s, Err (f e)) | r => r end.

(* ------------------------------------------------------------------ *)
(** ** What a run can do to the state *)

Definition obeys (R : S -> S -> Prop) (Q : S -> S -> E -> Prop) {A} (m : Exec A) : Prop := forall s,
  match m s with (s', Ok _) => R s s' | (s', Err e) => Q s s' e end.

Definition fails (Q : S -> S -> E -> Prop) {A} (m : Exec A) : Prop := forall s,
  match m s with (s', Ok _) => True | (s', Err e) => Q s s' e end.

(** A failure after a run that ended well is a failure of the whole. *)
Class Absorbs (R : S -> S -> Prop) (Q : S -> S -> E -> Prop) := {
  absorbs_order :: PreOrder R;
  absorbs : forall s s1 s2 e, R s s1 -> Q s1 s2 e -> Q s s2 e
}.

Section Obeys.
Context (R : S -> S -> Prop) (Q : S -> S -> E -> Prop) `{!Absorbs R Q}.

Lemma obeys_ret {A} (a : A) : obeys R Q (mret a).
Proof. intros s. cbn. reflexivity. Qed.

Lemma obeys_gets {A} (f : S -> A) : obeys R Q (gets f).
Proof. intros s. cbn. reflexivity. Qed.

Lemma obeys_throw {A} e : (forall s, Q s s e) -> obeys R Q (throw (A := A) e).
Proof. intros H s. apply H. Qed.

Lemma obeys_modify f : (forall s, R s (f s)) -> obeys R Q (modify f).
Proof. intros H s. apply H. Qed.

Lemma obeys_demand b e : (forall s, Q s s e) -> obeys R Q (demand b e).
Proof. intros H. unfold demand. destruct b; [apply obeys_ret|by apply obeys_throw]. Qed.

Lemma obeys_bind {A B} (m : Exec A) (f : A -> Exec B) : obeys R Q m -> (forall a, obeys R Q (f a)) -> obeys R Q (m ≫= f).
Proof.
  intros Hm Hf s. unfold mbind, exec_bind. pose proof (Hm s) as H. destruct (m s) as [s1 [a|e]]; [|done].
  pose proof (Hf a s1) as H1. destruct (f a s1) as [s2 [b|e]]; [by transitivity s1|by apply (absorbs s s1)].
Qed.

Lemma fails_bind {A B} (m : Exec A) (f : A -> Exec B) : obeys R Q m -> (forall a, fails Q (f a)) -> fails Q (m ≫= f).
Proof.
  intros Hm Hf s. unfold mbind, exec_bind. pose proof (Hm s) as H. destruct (m s) as [s1 [a|e]]; [|done].
  pose proof (Hf a s1) as H1. destruct (f a s1) as [s2 [b|e]]; [done|by apply (absorbs s s1)].
Qed.

Lemma obeys_each {A} (f : A -> Exec unit) xs : (forall x, obeys R Q (f x)) -> obeys R Q (each f xs).
Proof. intros Hf. induction xs as [|x xs IH]; cbn [each]; [apply obeys_ret|]. by apply obeys_bind. Qed.

Lemma obeys_if {A} (b : bool) (m n : Exec A) : obeys R Q m -> obeys R Q n -> obeys R Q (if b then m else n).
Proof. by destruct b. Qed.

Lemma fails_if {A} (b : bool) (m n : Exec A) : fails Q m -> fails Q n -> fails Q (if b then m else n).
Proof. by destruct b. Qed.

Lemma obeys_fails {A} (m : Exec A) : obeys R Q m -> fails Q m.
Proof. intros H s. pose proof (H s). by destruct (m s) as [? []]. Qed.

End Obeys.

Lemma obeys_weaken (R R' : S -> S -> Prop) (Q Q' : S -> S -> E -> Prop) {A} (m : Exec A) :
  (forall s s', R s s' -> R' s s') -> (forall s s' e, Q s s' e -> Q' s s' e) -> obeys R Q m -> obeys R' Q' m.
Proof. intros HR HQ H s. pose proof (H s). destruct (m s) as [? []]; auto. Qed.

(** [m] may move anything when it ends well: what follows fails wherever it starts. *)
Lemma fails_last Q {A B} (m : Exec A) (f : A -> Exec B) :
  fails Q m -> (forall a, fails (fun _ s' e => forall s, Q s s' e) (f a)) -> fails Q (m ≫= f).
Proof.
  intros Hm Hf s. unfold mbind, exec_bind. pose proof (Hm s) as H. destruct (m s) as [s1 [a|e]]; [|done].
  pose proof (Hf a s1) as H1. by destruct (f a s1) as [s2 [b|e]].
Qed.

Lemma obeys_map_err (R : S -> S -> Prop) (Q : S -> S -> E -> Prop) {A} f (m : Exec A) :
  (forall s s' e, Q s s' e -> Q s s' (f e)) -> obeys R Q m -> obeys R Q (map_err f m).
Proof. intros Hf H s. pose proof (H s). unfold map_err. destruct (m s) as [? []]; auto. Qed.

Lemma fails_map_err (Q : S -> S -> E -> Prop) {A} f (m : Exec A) : (forall s s' e, Q s s' (f e)) -> fails Q (map_err f m).
Proof. intros Hf s. unfold map_err. by destruct (m s) as [? []]. Qed.

(** A run that ended well, step by step. *)
Lemma bind_Ok_inv {A B} (m : Exec A) (f : A -> Exec B) s s' b : (m ≫= f) s = (s', Ok b) ->
  exists s1 a, m s = (s1, Ok a) /\ f a s1 = (s', Ok b).
Proof. unfold mbind, exec_bind. destruct (m s) as [s1 [a|e]]; [|done]. intros H. by exists s1, a. Qed.

Lemma bind_Ok {A B} (m : Exec A) (f : A -> Exec B) s s' a : m s = (s', Ok a) -> (m ≫= f) s = f a s'.
Proof. unfold mbind, exec_bind. by intros ->. Qed.

Lemma obeys_Ok (R : S -> S -> Prop) (Q : S -> S -> E -> Prop) {A} (m : Exec A) s s' a :
  obeys R Q m -> m s = (s', Ok a) -> R s s'.
Proof. intros H Hr. pose proof (H s) as H1. by rewrite Hr in H1. Qed.

Lemma obeys_Err (R : S -> S -> Prop) (Q : S -> S -> E -> Prop) {A} (m : Exec A) s s' e :
  obeys R Q m -> m s = (s', Err e) -> Q s s' e.
Proof. intros H Hr. pose proof (H s) as H1. by rewrite Hr in H1. Qed.

End Exec.

Arguments Exec S E A : clear implicits.

(** The facts [obeys] and [fails] are assembled from, by the shape of the code. *)
Create HintDb obeys discriminated.
#[export] Hint Resolve obeys_ret obeys_gets : obeys.
#[export] Hint Extern 1 (Absorbs _ _) => typeclasses eauto : obeys.
