(* ===== verification/Segment.v ===== *)
(** * Segments, privilege levels and faults

    The processor state of crates/izarravm-cpu/src as far as control transfers and memory
    accesses use it: the register file of the integer core ([CpuFlags]), the segment
    registers and descriptor tables of lib.rs, the paging unit's registers ([Paging]).
    With it the pure functions on segments: descriptor decoding (control.rs), the limit,
    type and alignment checks of an access (memory.rs), and the fault classes of lib.rs.

    Not modelled: the prefetch window, resumable string state and timing fields that
    [set_eip] and the CS load also reset, and debug registers. *)

From stdpp Require Import gmap.
From S2P Require Import Prelude Clock Memory CpuFlags CpuAlu Tlb Paging.

Module Core.
#[export] Existing Instance Flags.eta_Cpu.

(* ------------------------------------------------------------------ *)
(** ** Segment registers and tables *)

Inductive SegmentIndex := Es | Cs | Ss | Ds | Fs | Gs.
#[export] Instance SegmentIndex_eq_dec : EqDecision SegmentIndex.
Proof. solve_decision. Defined.

Definition index (s : SegmentIndex) : nat := match s with Es => 0 | Cs => 1 | Ss => 2 | Ds => 3 | Fs => 4 | Gs => 5 end.

Record SegmentRegister := mkSegment { selector : Z; base : Z; limit : Z; access : Z; default_size_32 : bool }.
#[export] Instance eta_SegmentRegister : Eta SegmentRegister := fun r =>
  mkSegment (selector r) (base r) (limit r) (access r) (default_size_32 r).

(** [SegmentRegister::real], [SegmentRegister { selector, ..Default::default() }] *)
Definition real (sel : Z) : SegmentRegister := mkSegment sel (Z.shiftl sel 4) 65535 147 false.
Definition null_segment (sel : Z) : SegmentRegister := mkSegment sel 0 0 0 false.
#[export] Instance SegmentRegister_inhabited : Inhabited SegmentRegister := populate (null_segment 0).

Record DescriptorTable := mkTable { table_base : Z; table_limit : Z }.

(** The two failures a fallible function of the core returns: a stop, or an exception for
    the guest. Of [CpuError] the errors that these functions produce. *)
Inductive CpuError :=
| BusFault (e : BusError)
| TripleFault (original_vector nested_vector : Z)
| FaultAfterTaskSwitchCommit (nested_vector : Z).

Inductive Fault := Stop (e : CpuError) | Exc (vector : Z) (error_code : option Z).

Definition of_internal (f : Alu.InternalFault) : Fault :=
  match f with Alu.Bus e => Stop (BusFault e) | Alu.Exception v c => Exc v c end.

(* ------------------------------------------------------------------ *)
(** ** The processor *)

Record Cpu := mkCpu {
  regs : Flags.Cpu; eip : Z; segments : list SegmentRegister; cpl : Z;
  cr2 : Z; cr3 : Z; tlb : Tlb.Tlb; decode_cache : Tlb.DecodeCache; tracker : Paging.Tracker;
  gdtr : DescriptorTable; idtr : DescriptorTable; ldtr : SegmentRegister; tr : SegmentRegister;
  interrupt_shadow : bool; single_step_armed : bool; persona : Gsw.CpuPersona
}.
#[export] Instance eta_Cpu : Eta Cpu := fun c =>
  mkCpu (regs c) (eip c) (segments c) (cpl c) (cr2 c) (cr3 c) (tlb c) (decode_cache c) (tracker c)
    (gdtr c) (idtr c) (ldtr c) (tr c) (interrupt_shadow c) (single_step_armed c) (persona c).

Definition cr0 (c : Cpu) : Z := Flags.cr0 (regs c).
Definition eflags (c : Cpu) : Z := Flags.eflags (regs c).
Definition set_eflags (c : Cpu) (v : Z) : Cpu := c <| regs := (regs c) <| Flags.eflags := v |> |>.

Definition segment (c : Cpu) (s : SegmentIndex) : SegmentRegister := segments c !!! index s.
Definition set_segment (c : Cpu) (s : SegmentIndex) (r : SegmentRegister) : Cpu :=
  c <| segments := <[index s := r]> (segments c) |>.

Definition esp (c : Cpu) : Z := Alu.read_gpr32 (regs c) 4.
Definition set_esp (c : Cpu) (v : Z) : Cpu := c <| regs := Alu.write_gpr32 (regs c) 4 v |>.
Definition read_gpr16 (c : Cpu) (i : Z) : Z := Alu.read_gpr16 (regs c) i.
Definition write_gpr16 (c : Cpu) (i v : Z) : Cpu := c <| regs := Alu.write_gpr16 (regs c) i v |>.
Definition set_eip (c : Cpu) (v : Z) : Cpu := c <| eip := v |>.
Definition materialize_flags (c : Cpu) : Cpu := c <| regs := Flags.materialize_flags (regs c) |>.
Definition set_flag (c : Cpu) (f : Z) (b : bool) : Cpu := c <| regs := Flags.set_flag (regs c) f b |>.

(** The registers the paging unit works on. *)
Definition mmu (c : Cpu) : Paging.Cpu :=
  Paging.mkCpu (cr0 c) (cr2 c) (cr3 c) (cpl c) (tlb c) (decode_cache c) (tracker c).
Definition with_mmu (c : Cpu) (m : Paging.Cpu) : Cpu :=
  c <| cr2 := Paging.cr2 m |> <| cr3 := Paging.cr3 m |> <| tlb := Paging.tlb m |>
    <| decode_cache := Paging.decode_cache m |> <| tracker := Paging.tracker m |>.

Definition FLAG_TF : Z := 256.
Definition FLAG_IF : Z := 512.
Definition FLAG_IOPL : Z := 12288.
Definition FLAG_NT : Z := 16384.
Definition FLAG_VM : Z := 131072.
Definition FLAG_ID : Z := 2097152.

Definition is_protected_mode (c : Cpu) : bool := has (cr0 c) Paging.CR0_PE.
Definition is_paging_enabled (c : Cpu) : bool := has (cr0 c) Paging.CR0_PG.
Definition is_v86_mode (c : Cpu) : bool := is_protected_mode c && has (eflags c) FLAG_VM.
Definition stack_is_32bit (c : Cpu) : bool := default_size_32 (segment c Ss).
Definition iopl (c : Cpu) : Z := Z.land (Z.shiftr (eflags c) 12) 3.

(* ------------------------------------------------------------------ *)
(** ** Selectors and descriptors *)

Definition in_ldt (sel : Z) : bool := has sel 4.
(** [u32::from(selector & !0x7)] *)
Definition table_index (sel : Z) : Z := Z.ldiff sel 7.
Definition rpl (sel : Z) : Z := Z.land sel 3.

Definition selector_error_code (sel : Z) (ldt idt : bool) : Z :=
  Z.lor (Z.lor (Z.land sel 65528) (Z.shiftl (b2z ldt) 2)) (Z.shiftl (b2z idt) 1).

Definition segment_limit_fault (s : SegmentIndex) : Fault :=
  Exc (match s with Ss => 12 | _ => 13 end) (Some 0).

(** [Exception { vector: 13, error_code: Some(selector_error_code(..)) }] and its siblings. *)
Definition selector_fault (vector sel : Z) : Fault := Exc vector (Some (selector_error_code sel (in_ldt sel) false)).

Definition descriptor_to_segment (sel low high : Z) : SegmentRegister :=
  let acc := Z.land (Z.shiftr high 8) 255 in
  let b := Z.lor (Z.lor (Z.land (Z.shiftr low 16) 65535) (Z.shiftl (Z.land high 255) 16)) (Z.land high 4278190080) in
  let l := Z.lor (Z.land low 65535) (Z.land high 983040) in
  let l := if has high 8388608 then Z.lor (wrap 32 (Z.shiftl l 12)) 4095 else l in
  mkSegment sel b l acc (has high 4194304).

(** [(high >> 8) & 0xff] and the fields of an access byte. *)
Definition access_of (high : Z) : Z := Z.land (Z.shiftr high 8) 255.
Definition dpl_of (acc : Z) : Z := Z.land (Z.shiftr acc 5) 3.

(* ------------------------------------------------------------------ *)
(** ** The checks of an access *)

Definition check_segment_access_kind (c : Cpu) (s : SegmentIndex) (acc : Z) (write : bool) : result Fault unit :=
  if negb (is_protected_mode c) || is_v86_mode c then Ok tt
  else
    let is_code := has acc 8 in
    let ok := if is_code then negb write && has acc 2 else negb write || has acc 2 in
    if ok then Ok tt else Err (segment_limit_fault s).

Definition expand_down (c : Cpu) (d : SegmentRegister) : bool :=
  is_protected_mode c && negb (is_v86_mode c) && (Z.land (access d) 24 =? 16) && has (access d) 4.

Definition ceiling (d : SegmentRegister) : Z := if default_size_32 d then 4294967295 else 65535.

Definition segment_linear_byte (c : Cpu) (s : SegmentIndex) (offset : Z) (write : bool) : result Fault Z :=
  let d := segment c s in
  let? _ := check_segment_access_kind c s (access d) write in
  if (base d =? 0) && (limit d =? 4294967295) then Ok offset
  else
    let in_limit := if expand_down c d then (limit d <? offset) && (offset <=? ceiling d) else offset <=? limit d in
    if negb in_limit then Err (segment_limit_fault s) else Ok (wrap 32 (base d + offset)).

Definition segment_linear_range (c : Cpu) (s : SegmentIndex) (offset width : Z) (write : bool) : result Fault Z :=
  let d := segment c s in
  let? _ := check_segment_access_kind c s (access d) write in
  if (base d =? 0) && (limit d =? 4294967295) then Ok offset
  else
    let last := saturate 32 (offset + (width - 1)) in
    let in_limit := if expand_down c d then (limit d <? offset) && (last <=? ceiling d)
                    else (offset <=? limit d) && (last <=? limit d) in
    if negb in_limit then Err (segment_limit_fault s) else Ok (wrap 32 (base d + offset)).

Definition check_alignment (c : Cpu) (offset width : Z) : result Fault unit :=
  if (width <=? 1) || negb (Flags.alignment_armed (regs c)) then Ok tt
  else if (cpl c =? 3) && negb (offset mod width =? 0) then Err (Exc 17 None)
  else Ok tt.

(* ------------------------------------------------------------------ *)
(** ** Fault classes *)

Inductive FaultClass := Benign | Contributory | PageFault.
Inductive FaultEscalation := Serial | DoubleFault.

Definition DOUBLE_FAULT_VECTOR : Z := 8.
Definition GENERAL_PROTECTION_VECTOR : Z := 13.
Definition MAX_FAULT_ESCALATIONS : nat := 8.

Definition vector_pushes_error_code (vector : Z) : bool :=
  match vector with 8 | 10 | 11 | 12 | 13 | 14 | 17 => true | _ => false end.

Definition fault_class (vector : Z) (is_external : bool) : FaultClass :=
  if is_external then Benign
  else match vector with
       | 0 | 9 | 10 | 11 | 12 | 13 => Contributory
       | 14 => PageFault
       | 8 => Contributory
       | _ => Benign
       end.

Definition escalate_fault (first second : FaultClass) : FaultEscalation :=
  match first, second with
  | Benign, _ | _, Benign => Serial
  | Contributory, PageFault => Serial
  | Contributory, Contributory | PageFault, _ => DoubleFault
  end.

Definition fault_after_task_switch_commit (f : Fault) : Fault :=
  match f with
  | Stop e => Stop e
  | Exc vector _ => Stop (FaultAfterTaskSwitchCommit vector)
  end.

End Core.
