(* ===== verification/Access.v ===== *)
(** * Memory accesses and the stack

    The data accesses of crates/izarravm-cpu/src/memory.rs ([read_memory_sized] and what it
    calls, [push], [pop]) and the system accesses of control.rs ([read_system_linear],
    [write_system_linear]), over the paging unit and a bus.

    The fast map and the direct page caches serve the bytes the bus holds and are not
    modelled as state; [direct] stands for the stores they serve, which skip the code
    invalidation when the bytes do not change.  Performance counters, censuses and the
    reflected-call instruments are left out. *)

From stdpp Require Import gmap.
From S2P Require Import Prelude Clock Memory CpuFlags CpuAlu Tlb Paging Exec Segment.
Import Segment.Core.

(** What a [CpuBus] does besides the page walks ([PhysicalBus]): loads of any width, which
    may reach a device, and the acknowledge of a software interrupt. *)
Class DataBus (B : Type) := {
  bus_load : B -> Z -> BusWidth -> B * result BusError Z;
  bus_interrupt_acknowledge : B -> Z -> Z -> B * result BusError unit
}.

Module Access.

Section Access.
Context {B : Type} `{PhysicalBus B} `{DataBus B}.
Context (code_wholesale : Z -> Z -> bool) (direct : Z -> BusWidth -> bool).

Abbreviation M := (Exec (Cpu * B) Fault).

Definition lift {A} (r : result Fault A) : M A := fun s => (s, r).
Definition ask {A} (f : Cpu -> A) : M A := gets (fun s => f s.1).
Definition change (f : Cpu -> Cpu) : M unit := modify (fun s => (f s.1, s.2)).
Definition check (f : Cpu -> result Fault unit) : M unit := fun s => (s, f s.1).

Definition bus_result {A} (r : result BusError A) : result Fault A :=
  match r with Ok a => Ok a | Err e => Err (Stop (BusFault e)) end.

(** [bus.read_memory_direct(physical, width, kind)?.value] *)
Definition load (physical : Z) (w : BusWidth) : M Z := fun s =>
  let '(b, r) := bus_load s.2 physical w in ((s.1, b), bus_result r).

Definition store (physical : Z) (w : BusWidth) (value : Z) : M unit := fun s =>
  let '(b, r) := bus_write s.2 physical w value in ((s.1, b), bus_result r).

Definition interrupt_acknowledge (vector ax : Z) : M unit := fun s =>
  let '(b, r) := bus_interrupt_acknowledge s.2 vector ax in ((s.1, b), bus_result r).

Definition translate (linear : Z) (write : bool) (accessor : Paging.PagingAccessor) : M Z := fun s =>
  let '((m, b), r) := Paging.translate_linear_checked code_wholesale (mmu s.1) s.2 linear write accessor in
  ((with_mmu s.1 m, b), match r with Ok a => Ok a | Err e => Err (of_internal e) end).

Definition translate_linear (linear : Z) (write : bool) : M Z := translate linear write Paging.Current.
Definition translate_linear_system (linear : Z) (write : bool) : M Z := translate linear write Paging.Supervisor.

Definition note_code_write (physical width : Z) : M unit :=
  change (fun c => with_mmu c (Paging.note_code_write code_wholesale (mmu c) physical width)).

Definition record_write_page (physical : Z) : M unit :=
  change (fun c => c <| tracker := Paging.record_write_page (tracker c) physical |>).

(** Whether a store through a direct page changes the bytes under it. *)
Definition changes (physical : Z) (w : BusWidth) (value : Z) : M bool := gets (fun s =>
  match (bus_load s.2 physical w).2 with Ok old => negb (old =? value) | Err _ => true end).

(** The store and the code invalidation of a guest store: after it, and only if a byte
    changed, through a direct page; before it through the bus. *)
Definition guest_store (physical : Z) (w : BusWidth) (value : Z) : M unit :=
  if direct physical w then
    changed ← changes physical w value;
    store physical w value;;
    if (changed : bool) then note_code_write physical (width_bytes w) else mret tt
  else
    note_code_write physical (width_bytes w);;
    store physical w value.

(* ------------------------------------------------------------------ *)
(** ** Linear accesses *)

Definition read_linear_u8 (linear : Z) : M Z :=
  paging ← ask is_paging_enabled;
  physical ← (if negb paging then mret linear else translate_linear linear false);
  load physical Byte.

Definition write_linear_u8 (linear value : Z) : M unit :=
  paging ← ask is_paging_enabled;
  physical ← (if negb paging then record_write_page linear;; mret linear else translate_linear linear true);
  guest_store physical Byte value.

Definition read_linear_fragment_after_probe (linear : Z) (w : BusWidth) : M Z :=
  physical ← translate_linear linear false;
  load physical w.

Definition read_linear_fragment (linear : Z) (w : BusWidth) : M Z :=
  match w with Byte => read_linear_u8 linear | _ => read_linear_fragment_after_probe linear w end.

Definition write_linear_fragment_after_probe (linear : Z) (w : BusWidth) (value : Z) : M unit :=
  physical ← translate_linear linear true;
  guest_store physical w value.

Definition write_linear_fragment (linear : Z) (w : BusWidth) (value : Z) : M unit :=
  match w with
  | Byte => write_linear_u8 linear (wrap 8 value)
  | _ => write_linear_fragment_after_probe linear w value
  end.

Definition linear_range_crosses_page (linear width : Z) : bool := 4096 <? Z.land linear 4095 + width.

Definition page_local_fragment_width (linear remaining : Z) : BusWidth :=
  let page_remaining := 4096 - Z.land linear 4095 in
  if (4 <=? remaining) && (4 <=? page_remaining) && (Z.land linear 3 =? 0) then Dword
  else if (2 <=? remaining) && (2 <=? page_remaining) && (Z.land linear 1 =? 0) then Word
  else Byte.

Definition fragment_mask (w : BusWidth) (shifted : Z) : Z :=
  match w with Byte => Z.land shifted 255 | Word => Z.land shifted 65535 | Dword => shifted end.

(** The [while completed < width] loops; each round completes a byte or more, so that
    [width] rounds are enough. *)
Fixpoint read_fragments (rounds : nat) (linear width completed value : Z) : M Z :=
  match rounds with
  | O => mret value
  | S rounds =>
      if completed <? width then
        let at_ := wrap 32 (linear + completed) in
        let fragment := page_local_fragment_width at_ (width - completed) in
        v ← read_linear_fragment at_ fragment;
        read_fragments rounds linear width (completed + width_bytes fragment)
          (Z.lor value (wrap 32 (Z.shiftl v (completed * 8))))
      else mret value
  end.

Definition read_paged_cross_page (linear width : Z) : M Z := read_fragments (Z.to_nat width) linear width 0 0.

Fixpoint write_fragments (rounds : nat) (linear width completed value : Z) : M unit :=
  match rounds with
  | O => mret tt
  | S rounds =>
      if completed <? width then
        let at_ := wrap 32 (linear + completed) in
        let fragment := page_local_fragment_width at_ (width - completed) in
        let shifted := Z.shiftr value (completed * 8) in
        write_linear_fragment at_ fragment (fragment_mask fragment shifted);;
        write_fragments rounds linear width (completed + width_bytes fragment) value
      else mret tt
  end.

Definition write_paged_cross_page (linear width value : Z) : M unit := write_fragments (Z.to_nat width) linear width 0 value.

(* ------------------------------------------------------------------ *)
(** ** Segmented accesses *)

Definition read_memory_u8 (s : SegmentIndex) (offset : Z) : M Z :=
  c ← ask id;
  linear ← lift (segment_linear_byte c s offset false);
  read_linear_u8 linear.

Definition write_memory_u8 (s : SegmentIndex) (offset value : Z) : M unit :=
  c ← ask id;
  linear ← lift (segment_linear_byte c s offset true);
  write_linear_u8 linear value.

Definition read_memory_bus_width (s : SegmentIndex) (offset : Z) (w : BusWidth) : M Z :=
  match w with
  | Byte => read_memory_u8 s offset
  | _ =>
      c ← ask id;
      linear ← lift (segment_linear_range c s offset (width_bytes w) false);
      if is_paging_enabled c && linear_range_crosses_page linear (width_bytes w)
      then read_paged_cross_page linear (width_bytes w)
      else read_linear_fragment_after_probe linear w
  end.

Definition write_memory_bus_width (s : SegmentIndex) (offset : Z) (w : BusWidth) (value : Z) : M unit :=
  match w with
  | Byte => write_memory_u8 s offset (wrap 8 value)
  | _ =>
      c ← ask id;
      linear ← lift (segment_linear_range c s offset (width_bytes w) true);
      if is_paging_enabled c && linear_range_crosses_page linear (width_bytes w)
      then write_paged_cross_page linear (width_bytes w) value
      else write_linear_fragment_after_probe linear w value
  end.

Definition read_memory_sized (s : SegmentIndex) (offset : Z) (size : Alu.OperandSize) : M Z :=
  check (fun c => check_alignment c offset (Alu.size_bytes size));;
  read_memory_bus_width s offset (Alu.bus_width size).

Definition write_memory_sized (s : SegmentIndex) (offset : Z) (size : Alu.OperandSize) (value : Z) : M unit :=
  check (fun c => check_alignment c offset (Alu.size_bytes size));;
  write_memory_bus_width s offset (Alu.bus_width size) value.

(* ------------------------------------------------------------------ *)
(** ** The stack *)

Definition push (value : Z) (size : Alu.OperandSize) : M unit :=
  let width := Alu.size_bytes size in
  c ← ask id;
  if stack_is_32bit c then
    let sp := wrap 32 (esp c - width) in
    write_memory_sized Ss sp size value;;
    change (fun c => set_esp c sp)
  else
    let sp := wrap 16 (read_gpr16 c 4 - width) in
    write_memory_sized Ss sp size value;;
    change (fun c => write_gpr16 c 4 sp).

Definition pop (size : Alu.OperandSize) : M Z :=
  let width := Alu.size_bytes size in
  c ← ask id;
  if stack_is_32bit c then
    let sp := esp c in
    value ← read_memory_sized Ss sp size;
    change (fun c => set_esp c (wrap 32 (sp + width)));;
    mret value
  else
    let sp := read_gpr16 c 4 in
    value ← read_memory_sized Ss sp size;
    change (fun c => write_gpr16 c 4 (wrap 16 (sp + width)));;
    mret value.

(** [release_stack] of control.rs *)
Definition release_stack (count : Z) : M unit :=
  change (fun c =>
    if stack_is_32bit c then set_esp c (wrap 32 (esp c + count))
    else write_gpr16 c 4 (wrap 16 (read_gpr16 c 4 + count))).

(* ------------------------------------------------------------------ *)
(** ** System accesses *)

Definition read_system_linear (linear : Z) (w : BusWidth) : M Z :=
  physical ← translate_linear_system linear false;
  load physical w.

Definition read_system_linear_u32 (linear : Z) : M Z := read_system_linear linear Dword.

Definition write_system_linear (linear : Z) (w : BusWidth) (value : Z) : M unit :=
  physical ← translate_linear_system linear true;
  store physical w value;;
  record_write_page physical;;
  note_code_write physical (width_bytes w).

End Access.
End Access.
