(* ===== verification/SegLoad.v ===== *)
(** * Loading segment registers

    The segment loader of crates/izarravm-cpu/src/control.rs: the descriptor reads, the
    type, privilege and presence checks of a load, the real-mode and V86 loads, LLDT and
    LTR, and the checks behind VERR, VERW, LAR and LSL. *)

From stdpp Require Import gmap.
From S2P Require Import Prelude Clock Memory CpuFlags CpuAlu Tlb Paging Exec Segment Access.
Import Segment.Core Access.Access.

Module Load.

Section Load.
Context {B : Type} `{PhysicalBus B} `{DataBus B}.
Context (code_wholesale : Z -> Z -> bool) (direct : Z -> BusWidth -> bool).

Abbreviation M := (Exec (Cpu * B) Fault).
Abbreviation read_system_linear := (read_system_linear code_wholesale).
Abbreviation read_system_linear_u32 := (read_system_linear_u32 code_wholesale).
Abbreviation write_system_linear := (write_system_linear code_wholesale).

Definition install (s : SegmentIndex) (r : SegmentRegister) : M unit := change (fun c => set_segment c s r).

Definition load_segment_real (s : SegmentIndex) (sel : Z) : M unit := install s (real sel).

Definition load_segment_real_mode (s : SegmentIndex) (sel : Z) : M unit :=
  match s with
  | Cs => load_segment_real s sel
  | _ => change (fun c => set_segment c s ((real sel) <| limit := limit (segment c s) |>))
  end.

(** [matches!(segment, Cs | Ss)] *)
Definition is_cs_or_ss (s : SegmentIndex) : bool := match s with Cs | Ss => true | _ => false end.
Definition is_cs (s : SegmentIndex) : bool := match s with Cs => true | _ => false end.
Definition is_ss (s : SegmentIndex) : bool := match s with Ss => true | _ => false end.

Definition table_of (c : Cpu) (sel : Z) : Z * Z :=
  if in_ldt sel then (base (ldtr c), limit (ldtr c)) else (table_base (gdtr c), table_limit (gdtr c)).

(** The two dwords of the descriptor at [address]. *)
Definition read_descriptor_at (address : Z) : M (Z * Z) :=
  low ← read_system_linear_u32 address;
  high ← read_system_linear_u32 (wrap 32 (address + 4));
  mret (low, high).

(** The checks of [load_protected_segment] on a descriptor, in their order. *)
Definition type_legal (s : SegmentIndex) (acc : Z) : bool :=
  let is_segment := has acc 16 in
  let descriptor_type := Z.land acc 15 in
  let is_code := is_segment && has descriptor_type 8 in
  match s with
  | Cs => is_code
  | Ss => is_segment && negb is_code && has descriptor_type 2
  | _ => is_segment && (negb is_code || has descriptor_type 2)
  end.

Definition conforming_code (acc : Z) : bool := has acc 16 && has (Z.land acc 15) 8 && has (Z.land acc 15) 4.

Definition privilege_legal (c : Cpu) (s : SegmentIndex) (sel acc : Z) (check_privilege : bool) : bool :=
  if check_privilege && negb (is_cs s) && negb (conforming_code acc)
  then negb (dpl_of acc <? Z.max (cpl c) (rpl sel)) else true.

Definition load_protected_segment (s : SegmentIndex) (sel : Z) (check_privilege : bool) : M SegmentRegister :=
  if (Z.land sel 65532 =? 0) && negb (is_cs_or_ss s) then mret (null_segment sel)
  else
    c ← ask id;
    let '(t_base, t_limit) := table_of c sel in
    let index := table_index sel in
    demand (negb (((index =? 0) && negb (in_ldt sel)) || (t_limit <? index + 7))) (selector_fault 13 sel);;
    let descriptor_address := wrap 32 (t_base + index) in
    '(low, high) ← read_descriptor_at descriptor_address;
    let acc := access_of high in
    demand (type_legal s acc) (selector_fault 13 sel);;
    c ← ask id;
    demand (privilege_legal c s sel acc check_privilege) (selector_fault 13 sel);;
    demand (has acc 128) (selector_fault (if is_ss s then 12 else 11) sel);;
    (if negb (has acc 1) then write_system_linear (wrap 32 (descriptor_address + 5)) Byte (Z.lor acc 1) else mret tt);;
    mret (descriptor_to_segment sel low high).

Definition load_segment_checked (s : SegmentIndex) (sel : Z) (check_privilege : bool) : M unit :=
  c ← ask id;
  if is_v86_mode c then load_segment_real s sel
  else if is_protected_mode c then
    register ← load_protected_segment s sel check_privilege;
    install s register
  else load_segment_real_mode s sel.

Definition load_segment (s : SegmentIndex) (sel : Z) : M unit := load_segment_checked s sel true.
Definition load_segment_system (s : SegmentIndex) (sel : Z) : M unit := load_segment_checked s sel false.

Definition load_segment_arming_ss_shadow (s : SegmentIndex) (sel : Z) : M unit :=
  load_segment s sel;;
  if is_ss s then change (fun c => c <| interrupt_shadow := true |> <| single_step_armed := false |>) else mret tt.

Definition require_cpl0 : M unit := check (fun c => if negb (cpl c =? 0) then Err (Exc 13 (Some 0)) else Ok tt).

(* ------------------------------------------------------------------ *)
(** ** Descriptors that are not loaded *)

(** [None] for a selector that names no descriptor. *)
Definition try_read_descriptor (sel : Z) : M (option (Z * Z)) :=
  c ← ask id;
  let '(t_base, t_limit) := table_of c sel in
  let index := table_index sel in
  if negb (in_ldt sel) && (index =? 0) then mret None
  else if t_limit <? index + 7 then mret None
  else
    d ← read_descriptor_at (wrap 32 (t_base + index));
    mret (Some d).

Definition read_gdt_descriptor (sel : Z) : M (Z * Z) :=
  c ← ask id;
  let index := table_index sel in
  demand (negb ((index =? 0) || (table_limit (gdtr c) <? index + 7))) (Exc 13 (Some (selector_error_code sel false false)));;
  read_descriptor_at (wrap 32 (table_base (gdtr c) + index)).

(** For a far transfer: null and out-of-range selectors fault. *)
Definition read_transfer_descriptor (sel : Z) : M (Z * Z) :=
  c ← ask id;
  let '(t_base, t_limit) := table_of c sel in
  let index := table_index sel in
  demand (negb ((index =? 0) || (t_limit <? index + 7))) (selector_fault 13 sel);;
  read_descriptor_at (wrap 32 (t_base + index)).

Definition load_ldtr (sel : Z) : M unit :=
  demand (negb (in_ldt sel)) (Exc 13 (Some (selector_error_code sel true false)));;
  if table_index sel =? 0 then change (fun c => c <| ldtr := null_segment sel |>)
  else
    '(low, high) ← read_gdt_descriptor sel;
    let acc := access_of high in
    demand (has acc 128 && (Z.land acc 31 =? 2)) (Exc 13 (Some (selector_error_code sel false false)));;
    change (fun c => c <| ldtr := descriptor_to_segment sel low high |>).

Definition load_tr (sel : Z) : M unit :=
  demand (negb (in_ldt sel || (table_index sel =? 0))) (selector_fault 13 sel);;
  '(low, high) ← read_gdt_descriptor sel;
  let acc := access_of high in
  let descriptor_type := Z.land acc 31 in
  demand (has acc 128 && ((descriptor_type =? 1) || (descriptor_type =? 9))) (Exc 13 (Some (selector_error_code sel false false)));;
  let register := descriptor_to_segment sel low high in
  let register := register <| access := Z.lor (access register) 2 |> in
  c ← ask id;
  write_system_linear (wrap 32 (table_base (gdtr c) + table_index sel + 5)) Byte (Z.lor acc 2);;
  change (fun c => c <| tr := register |>).

Definition verify_segment (sel : Z) (write : bool) : M bool :=
  descriptor ← try_read_descriptor sel;
  match descriptor with
  | None => mret false
  | Some (_, high) =>
      c ← ask id;
      let acc := access_of high in
      let present := has acc 128 in
      let is_segment := has acc 16 in
      if negb present || negb is_segment then mret false
      else
        let descriptor_type := Z.land acc 15 in
        let is_code := has descriptor_type 8 in
        let privilege_ok := Z.max (cpl c) (rpl sel) <=? dpl_of acc in
        mret (if write then negb is_code && has descriptor_type 2 && privilege_ok
              else
                let readable := if is_code then has descriptor_type 2 else true in
                let conforming := is_code && has descriptor_type 4 in
                readable && (conforming || privilege_ok))
  end.

(** The gate LAR and LSL share. *)
Definition descriptor_accessible (c : Cpu) (sel high : Z) (wants_limit : bool) : bool :=
  let acc := access_of high in
  let is_segment := has acc 16 in
  let descriptor_type := Z.land acc 15 in
  let type_ok :=
    if wants_limit then match descriptor_type with 1 | 2 | 3 | 9 | 11 => true | _ => false end
    else match descriptor_type with 0 | 8 | 10 | 13 => false | _ => true end in
  if negb is_segment && negb type_ok then false
  else (is_segment && has descriptor_type 8 && has descriptor_type 4) || (Z.max (cpl c) (rpl sel) <=? dpl_of acc).

Definition store_descriptor_table (s : SegmentIndex) (offset : Z) (t : DescriptorTable) : M unit :=
  write_memory_sized code_wholesale direct s offset Alu.OWord (table_limit t);;
  write_memory_sized code_wholesale direct s (wrap 32 (offset + 2)) Alu.ODword (table_base t).

End Load.
End Load.
