(* ===== verification/Transfer.v ===== *)
(** * Control transfers

    crates/izarravm-cpu/src/control.rs: software and hardware interrupts, the delivery of
    exceptions through the IDT with its restore on failure and the double-fault ladder,
    flag loads, IRET, far CALL, JMP and RET, call gates, inner-stack switches and task
    switches.

    Not modelled: traces, performance counters, timing classes and the clocks a task
    switch is charged, and the reflected-call memo, whose answer path is off by default. *)

From stdpp Require Import gmap.
From S2P Require Import Prelude Clock Memory CpuFlags CpuAlu Tlb Paging Exec Segment Access SegLoad.
Import Segment.Core Access.Access SegLoad.Load.

Module Transfer.

Inductive TaskSwitchKind := Jump | Call | Return.
#[export] Instance TaskSwitchKind_eq_dec : EqDecision TaskSwitchKind.
Proof. solve_decision. Defined.

Inductive DeliverySource := Exception | SoftwareInterrupt | External.

Definition pushes_error_code (s : DeliverySource) : bool := match s with Exception => true | _ => false end.
Definition ext (s : DeliverySource) : Z := match s with External => 1 | _ => 0 end.
Definition is_software (s : DeliverySource) : bool := match s with SoftwareInterrupt => true | _ => false end.

Definition TASK_SEGMENTS : list SegmentIndex := [Es; Cs; Ss; Ds; Fs; Gs].

Section Transfer.
Context {B : Type} `{PhysicalBus B} `{DataBus B}.
Context (code_wholesale : Z -> Z -> bool) (direct : Z -> BusWidth -> bool).

Abbreviation M := (Exec (Cpu * B) Fault).
Abbreviation push := (push code_wholesale direct).
Abbreviation pop := (pop code_wholesale).
Abbreviation load_segment := (load_segment code_wholesale).
Abbreviation load_segment_system := (load_segment_system code_wholesale).
Abbreviation read_system_linear := (read_system_linear code_wholesale).
Abbreviation read_system_linear_u32 := (read_system_linear_u32 code_wholesale).
Abbreviation write_system_linear := (write_system_linear code_wholesale).
Abbreviation read_transfer_descriptor := (read_transfer_descriptor code_wholesale).

Definition jump_to (target : Z) : M unit := change (fun c => set_eip c target).
Definition set_cpl (level : Z) : M unit := change (fun c => c <| cpl := level |>).

(** The level a direct transfer to [sel] leaves in [cpl]. *)
Definition landing_level (c : Cpu) (sel : Z) : Z :=
  if negb (is_protected_mode c) then 0 else if is_v86_mode c then 3 else rpl sel.

Definition is_protected_task (c : Cpu) : bool := is_protected_mode c && negb (is_v86_mode c).

(* ------------------------------------------------------------------ *)
(** ** Flags *)

Definition merge_flags (c : Cpu) (value : Z) (size : Alu.OperandSize) (allow_vm_load : bool) : Z :=
  let old := eflags c in
  let merged := match size with
    | Alu.OWord => Z.lor (Z.lor (Z.land old 4294901760) (Z.land value 65535)) 2
    | Alu.ODword => Z.lor value 2
    end in
  let merged := if negb (cpl c =? 0) then Z.lor (Z.ldiff merged FLAG_IOPL) (Z.land old FLAG_IOPL) else merged in
  let effective_iopl := Z.land (Z.shiftr merged 12) 3 in
  let merged := if effective_iopl <? cpl c then Z.lor (Z.ldiff merged FLAG_IF) (Z.land old FLAG_IF) else merged in
  let merged := if negb allow_vm_load then Z.lor (Z.ldiff merged FLAG_VM) (Z.land old FLAG_VM) else merged in
  let fixed := match persona c with
    | Gsw.I386 => Z.lor Flags.FLAG_AC FLAG_ID
    | Gsw.I486 => FLAG_ID
    | Gsw.I586 => 0
    end in
  Z.lor (Z.ldiff merged fixed) (Z.land old fixed).

(** The EFLAGS image, nothing pending, and the alignment bit that follows from it. *)
Definition settle_flags (c : Cpu) (image : Z) : Cpu :=
  let c := set_eflags c image in
  let c := c <| regs := (regs c) <| Flags.pending_flags := Flags.no_pending |> |> in
  c <| regs := Flags.recompute_alignment_armed (regs c) |>.

Definition load_flags (value : Z) (size : Alu.OperandSize) (allow_vm_load : bool) : M unit :=
  change (fun c => settle_flags c (merge_flags c value size allow_vm_load)).

(* ------------------------------------------------------------------ *)
(** ** Real mode *)

Definition real_mode_interrupt (vector : Z) : M unit :=
  change materialize_flags;;
  c ← ask id;
  push (wrap 16 (eflags c)) Alu.OWord;;
  push (selector (segment c Cs)) Alu.OWord;;
  push (wrap 16 (eip c)) Alu.OWord;;
  change (fun c => set_flag c (Z.lor FLAG_IF FLAG_TF) false);;
  let vector_address := vector * 4 in
  ip ← load vector_address Word;
  cs ← load (vector_address + 2) Word;
  load_segment_real Cs (wrap 16 cs);;
  jump_to (wrap 16 ip).

(* ------------------------------------------------------------------ *)
(** ** Stack and task switches *)

(** The outgoing SS and ESP. *)
Definition switch_to_inner_stack (target_dpl : Z) : M (Z * Z) :=
  c ← ask id;
  let old_ss := selector (segment c Ss) in
  let old_esp := esp c in
  let tss_type := Z.land (access (tr c)) 31 in
  '(new_esp, new_ss) ← (
    if (tss_type =? 1) || (tss_type =? 3) then
      let sp_addr := wrap 32 (base (tr c) + 2 + 4 * target_dpl) in
      sp ← read_system_linear sp_addr Word;
      ss ← read_system_linear (wrap 32 (sp_addr + 2)) Word;
      mret (sp, wrap 16 ss)
    else
      let esp_addr := wrap 32 (base (tr c) + 4 + 8 * target_dpl) in
      sp ← read_system_linear_u32 esp_addr;
      ss ← read_system_linear (wrap 32 (esp_addr + 4)) Word;
      mret (sp, wrap 16 ss));
  load_segment_system Ss new_ss;;
  change (fun c => if stack_is_32bit c then set_esp c new_esp else write_gpr16 c 4 (wrap 16 new_esp));;
  mret (old_ss, old_esp).

Definition save_task_state : M unit :=
  change materialize_flags;;
  c ← ask id;
  let tss := base (tr c) in
  write_system_linear (wrap 32 (tss + 32)) Dword (eip c);;
  write_system_linear (wrap 32 (tss + 36)) Dword (eflags c);;
  each (fun i => write_system_linear (wrap 32 (tss + 40 + i * 4)) Dword (Alu.read_gpr32 (regs c) i)) (seqZ 0 8);;
  each (fun k => write_system_linear (wrap 32 (tss + 72 + k.1 * 4)) Word (selector (segment c k.2)))
    (zip (seqZ 0 6) TASK_SEGMENTS);;
  write_system_linear (wrap 32 (tss + 96)) Word (selector (ldtr c)).

Definition set_tss_busy (sel : Z) (busy : bool) : M unit :=
  if table_index sel =? 0 then mret tt
  else
    c ← ask id;
    let addr := wrap 32 (table_base (gdtr c) + table_index sel + 5) in
    acc ← read_system_linear addr Byte;
    let acc := wrap 8 acc in
    write_system_linear addr Byte (if busy then Z.lor acc 2 else Z.ldiff acc 2).

Definition load_task_register (tss i : Z) : M unit :=
  value ← read_system_linear_u32 (wrap 32 (tss + 40 + i * 4));
  change (fun c => c <| regs := Alu.write_gpr32 (regs c) i value |>).

Definition load_task_segment (tss k : Z) (s : SegmentIndex) : M unit :=
  sel ← read_system_linear (wrap 32 (tss + 72 + k * 4)) Word;
  let sel := wrap 16 sel in
  c ← ask id;
  (if (table_index sel =? 0) && negb (is_cs_or_ss s) && negb (is_v86_mode c) then install s (null_segment sel)
   else load_segment_system s sel);;
  if is_cs s then change (fun c => c <| cpl := if is_v86_mode c then 3 else rpl sel |>) else mret tt.

Definition load_task_state (tss : Z) : M unit :=
  c ← ask id;
  (if is_paging_enabled c then
     value ← read_system_linear_u32 (wrap 32 (tss + 28));
     change (fun c => with_mmu c (Paging.load_task_cr3 (mmu c) value))
   else mret tt);;
  ldt ← read_system_linear (wrap 32 (tss + 96)) Word;
  load_ldtr code_wholesale (wrap 16 ldt);;
  target ← read_system_linear_u32 (wrap 32 (tss + 32));
  flags ← read_system_linear_u32 (wrap 32 (tss + 36));
  each (load_task_register tss) (seqZ 0 8);;
  change (fun c => settle_flags c (Z.lor flags 2));;
  jump_to target;;
  each (fun k => load_task_segment tss k.1 k.2) (zip (seqZ 0 6) TASK_SEGMENTS).

Definition CR0_TS : Z := 8.

Definition commit_task_switch (kind : TaskSwitchKind) (new_tss : SegmentRegister) (old_selector new_selector : Z) : M unit :=
  load_task_state (base new_tss);;
  (match kind with
   | Call =>
       write_system_linear (base new_tss) Word old_selector;;
       change (fun c => set_eflags c (Z.lor (eflags c) FLAG_NT))
   | _ => mret tt
   end);;
  set_tss_busy new_selector true;;
  change (fun c => c <| tr := new_tss <| access := Z.lor (access new_tss) 2 |> |>
                     <| regs := (regs c) <| Flags.cr0 := Z.lor (cr0 c) CR0_TS |> |>
                     <| single_step_armed := false |>).

(** [Err(Exception { vector: 13, error_code })] of the descriptor read of a task return *)
Definition as_task_return (kind : TaskSwitchKind) (f : Fault) : Fault :=
  match kind, f with Return, Exc 13 code => Exc 10 code | _, _ => f end.

Definition task_switch (new_selector : Z) (kind : TaskSwitchKind) : M unit :=
  let fault_vector := match kind with Return => 10 | _ => 13 end in
  demand (negb (in_ldt new_selector)) (Exc fault_vector (Some (selector_error_code new_selector true false)));;
  '(low, high) ← map_err (as_task_return kind) (read_transfer_descriptor new_selector);
  let acc := access_of high in
  let wanted_type := match kind with Return => 11 | _ => 9 end in
  demand (has acc 128 && (Z.land acc 31 =? wanted_type)) (selector_fault fault_vector new_selector);;
  let new_tss := descriptor_to_segment new_selector low high in
  c ← ask id;
  let old_selector := selector (tr c) in
  (match kind with Return => change (fun c => set_eflags c (Z.ldiff (eflags c) FLAG_NT)) | _ => mret tt end);;
  save_task_state;;
  (match kind with Call => mret tt | _ => set_tss_busy old_selector false end);;
  map_err fault_after_task_switch_commit (commit_task_switch kind new_tss old_selector new_selector).

(* ------------------------------------------------------------------ *)
(** ** Interrupts and exceptions *)

(** The gate of [vector]: its selector, offset, type and level. *)
Record Gate := mkGate { gate_selector : Z; gate_offset : Z; gate_type : Z; gate_dpl : Z; gate_present : bool }.

Definition decode_gate (low high : Z) : Gate :=
  let type := Z.land (Z.shiftr high 8) 15 in
  mkGate (Z.land (Z.shiftr low 16) 65535)
    (if has type 8 then Z.lor (Z.land low 65535) (Z.land high 4294901760) else Z.land low 65535)
    type (Z.land (Z.shiftr high 13) 3) (has high (bit 15)).

Definition is_interrupt_gate (g : Gate) : bool := Z.land (gate_type g) 7 =? 6.
Definition gate_is_32 (g : Gate) : bool := has (gate_type g) 8.

(** The frame of a protected-mode delivery, from the stack switch to the error code. *)
Definition push_frame (vector : Z) (error_code : option Z) (source : DeliverySource) (frame : Alu.OperandSize)
  (saved_eflags saved_cs saved_eip target_dpl : Z) (source_v86 crosses_ring : bool) : M unit :=
  (if crosses_ring then
     c ← ask id;
     '(old_ss, old_esp) ← switch_to_inner_stack target_dpl;
     (if source_v86 then
        push (selector (segment c Gs)) frame;;
        push (selector (segment c Fs)) frame;;
        push (selector (segment c Ds)) frame;;
        push (selector (segment c Es)) frame
      else mret tt);;
     push old_ss frame;;
     push old_esp frame
   else mret tt);;
  push saved_eflags frame;;
  push saved_cs frame;;
  push saved_eip frame;;
  if pushes_error_code source && vector_pushes_error_code vector
  then push (from_option id 0 error_code) frame else mret tt.

Definition enter_handler (g : Gate) (source_v86 : bool) : M unit :=
  change (fun c => set_flag c (Z.lor (Z.lor FLAG_VM FLAG_NT) FLAG_TF) false);;
  (if is_interrupt_gate g then change (fun c => set_flag c FLAG_IF false) else mret tt);;
  (if source_v86 then
     load_segment_real Ds 0;; load_segment_real Es 0;; load_segment_real Fs 0;; load_segment_real Gs 0
   else mret tt);;
  load_segment Cs (gate_selector g);;
  jump_to (gate_offset g).

Definition deliver_exception_body (vector : Z) (error_code : option Z) (source : DeliverySource) : M unit :=
  c ← ask id;
  let gate_address := wrap 32 (table_base (idtr c) + vector * 8) in
  demand (negb (table_limit (idtr c) <? vector * 8 + 7))
    (Exc GENERAL_PROTECTION_VECTOR (Some (vector * 8 + 2 + ext source)));;
  gate_low ← read_system_linear_u32 gate_address;
  gate_high ← read_system_linear_u32 (wrap 32 (gate_address + 4));
  let g := decode_gate gate_low gate_high in
  let idt_error_code := Z.lor (selector_error_code (wrap 16 (Z.shiftl vector 3)) false true) (ext source) in
  c ← ask id;
  demand (negb (is_software source && (gate_dpl g <? cpl c))) (Exc 13 (Some idt_error_code));;
  demand (gate_present g) (Exc 11 (Some idt_error_code));;
  let frame := if gate_is_32 g || is_v86_mode c then Alu.ODword else Alu.OWord in
  if Z.land (Z.shiftr gate_high 8) 31 =? 5 then
    task_switch (gate_selector g) Call;;
    if pushes_error_code source && vector_pushes_error_code vector
    then map_err fault_after_task_switch_commit (push (from_option id 0 error_code) Alu.ODword) else mret tt
  else
    change materialize_flags;;
    c ← ask id;
    let saved_eflags := eflags c in
    let saved_cs := selector (segment c Cs) in
    let source_v86 := is_v86_mode c in
    let saved_eip := if source_v86 || negb (default_size_32 (segment c Cs)) then Z.land (eip c) 65535 else eip c in
    let level := cpl c in
    (if source_v86 then change (fun c => set_eflags c (Z.ldiff (eflags c) FLAG_VM)) else mret tt);;
    '(_, th) ← read_transfer_descriptor (gate_selector g);
    let target_dpl := dpl_of (access_of th) in
    let crosses_ring := source_v86 || (target_dpl <? level) in
    set_cpl (if crosses_ring then target_dpl else level);;
    push_frame vector error_code source frame saved_eflags saved_cs saved_eip target_dpl source_v86 crosses_ring;;
    enter_handler g source_v86.

Definition DELIVERY_SEGMENTS : list SegmentIndex := [Ss; Ds; Es; Fs; Gs].

(** The restore of [deliver_exception_inner]: what the body may have moved goes back to
    its value in [entry]. *)
Definition restore (entry c : Cpu) : Cpu :=
  let c := c <| cpl := cpl entry |> in
  let c := set_esp (set_eflags c (eflags entry)) (esp entry) in
  foldl (fun c s => set_segment c s (segment entry s)) c DELIVERY_SEGMENTS.

Definition deliver_exception_inner (vector : Z) (error_code : option Z) (source : DeliverySource) : M unit := fun s =>
  let entry := materialize_flags s.1 in
  match deliver_exception_body vector error_code source (entry, s.2) with
  | (s', Err (Stop (FaultAfterTaskSwitchCommit v))) => (s', Err (Stop (FaultAfterTaskSwitchCommit v)))
  | ((c, b), Err e) => ((restore entry c, b), Err e)
  | r => r
  end.

(** [software_interrupt] outside protected mode *)
Definition real_mode_software_interrupt (vector : Z) : M unit :=
  change (fun c => c <| single_step_armed := false |>);;
  c ← ask id;
  interrupt_acknowledge vector (read_gpr16 c 0);;
  real_mode_interrupt vector.

Definition deliver_interrupt (vector : Z) (error_code : option Z) (source : DeliverySource) : M unit :=
  c ← ask id;
  if negb (is_protected_mode c) then real_mode_software_interrupt vector
  else deliver_exception_inner vector error_code source.

Definition software_interrupt (vector : Z) : M unit :=
  c ← ask id;
  if is_protected_mode c then
    change (fun c => c <| single_step_armed := false |>);;
    interrupt_acknowledge vector (read_gpr16 c 0);;
    deliver_interrupt vector None SoftwareInterrupt
  else real_mode_software_interrupt vector.

Definition hardware_interrupt (vector : Z) : M unit :=
  c ← ask id;
  if is_protected_mode c then deliver_interrupt vector None External else real_mode_interrupt vector.

Definition deliver_exception (vector : Z) (error_code : option Z) (is_external : bool) : M unit :=
  deliver_interrupt vector error_code (if is_external then External else Exception).

(** The [loop] of [escalate_delivery]: [escalations] more are allowed. *)
Fixpoint escalation_ladder (escalations : nat) (original_vector : Z) (class : FaultClass) (calling_double_fault_handler : bool)
  (attempt : M unit) : M unit := fun s =>
  match attempt s with
  | (s, Ok _) => (s, Ok tt)
  | (s, Err (Stop e)) => (s, Err (Stop e))
  | (s, Err (Exc nested_vector nested_error_code)) =>
      if calling_double_fault_handler then (s, Err (Stop (TripleFault original_vector nested_vector)))
      else
        match escalations with
        | O => (s, Err (Stop (TripleFault original_vector nested_vector)))
        | S escalations =>
            match escalate_fault class (fault_class nested_vector false) with
            | Serial =>
                escalation_ladder escalations original_vector (fault_class nested_vector false) false
                  (deliver_exception nested_vector nested_error_code false) s
            | DoubleFault =>
                escalation_ladder escalations original_vector (fault_class DOUBLE_FAULT_VECTOR false) true
                  (deliver_exception DOUBLE_FAULT_VECTOR (Some 0) false) s
            end
        end
  end.

Definition escalate_delivery (attempt : M unit) (original_vector : Z) (original_is_external : bool) : M unit :=
  escalation_ladder MAX_FAULT_ESCALATIONS original_vector (fault_class original_vector original_is_external)
    ((original_vector =? DOUBLE_FAULT_VECTOR) && negb original_is_external) attempt.

Definition deliver_exception_escalating (vector : Z) (error_code : option Z) (is_external : bool) : M unit :=
  escalate_delivery (deliver_exception vector error_code is_external) vector is_external.

Definition hardware_interrupt_escalating (vector : Z) : M unit :=
  escalate_delivery (hardware_interrupt vector) vector true.

(* ------------------------------------------------------------------ *)
(** ** Returns *)

Definition invalidate_segment (c : Cpu) (s : SegmentIndex) : Cpu :=
  let r := segment c s in
  if Z.land (selector r) 65532 =? 0 then c
  else
    let conforming := Z.land (access r) 12 =? 12 in
    if negb conforming && (dpl_of (access r) <? cpl c) then set_segment c s (null_segment 0) else c.

Definition invalidate_data_segments_below_cpl (c : Cpu) : Cpu := foldl invalidate_segment c [Ds; Es; Fs; Gs].

(** The committing tail of a return to an outer level; [stack_pointer] is the image the
    16-bit or 32-bit outer stack takes. *)
Definition return_outer (cs ss target : Z) (flags : option Z) (size : Alu.OperandSize) (stack_pointer : Z) : M unit :=
  load_segment Cs cs;;
  load_segment_system Ss ss;;
  jump_to target;;
  change (fun c => if stack_is_32bit c then set_esp c (Z.land stack_pointer (Alu.size_mask size))
                   else write_gpr16 c 4 (wrap 16 stack_pointer));;
  (match flags with Some f => load_flags f size false | None => mret tt end);;
  set_cpl (rpl cs);;
  change invalidate_data_segments_below_cpl.

Definition rpl_fault (ss : Z) : Fault := selector_fault 13 ss.

Definition iret_word : M unit :=
  ip ← pop Alu.OWord;
  cs ← pop Alu.OWord;
  let cs := wrap 16 cs in
  flags ← pop Alu.OWord;
  c ← ask id;
  if is_protected_task c && (cpl c <? rpl cs) then
    sp ← pop Alu.OWord;
    ss ← pop Alu.OWord;
    let ss := wrap 16 ss in
    demand (rpl ss =? rpl cs) (rpl_fault ss);;
    return_outer cs ss (Z.land ip 65535) (Some flags) Alu.OWord sp
  else
    load_segment Cs cs;;
    jump_to (Z.land ip 65535);;
    load_flags flags Alu.OWord false;;
    change (fun c => c <| cpl := landing_level c cs |>).

(** The tail of a return into a V86 task. *)
Definition iret_to_v86 (target cs flags : Z) : M unit :=
  sp ← pop Alu.ODword;
  ss ← pop Alu.ODword;
  es ← pop Alu.ODword;
  ds ← pop Alu.ODword;
  fs ← pop Alu.ODword;
  gs ← pop Alu.ODword;
  load_flags flags Alu.ODword true;;
  load_segment_real Cs cs;;
  load_segment_real Ss (wrap 16 ss);;
  load_segment_real Ds (wrap 16 ds);;
  load_segment_real Es (wrap 16 es);;
  load_segment_real Fs (wrap 16 fs);;
  load_segment_real Gs (wrap 16 gs);;
  jump_to target;;
  change (fun c => set_esp c sp);;
  set_cpl 3.

Definition iret_dword : M unit :=
  c ← ask id;
  let esp_before := esp c in
  target ← pop Alu.ODword;
  cs ← pop Alu.ODword;
  let cs := wrap 16 cs in
  flags ← pop Alu.ODword;
  c ← ask id;
  if (cpl c =? 0) && has flags FLAG_VM then
    if 65535 <? target then
      change (fun c => set_esp c esp_before);;
      throw (Exc 13 (Some 0))
    else iret_to_v86 target cs flags
  else if is_protected_task c && (cpl c <? rpl cs) then
    sp ← pop Alu.ODword;
    ss ← pop Alu.ODword;
    return_outer cs (wrap 16 ss) target (Some flags) Alu.ODword sp
  else
    load_segment Cs cs;;
    jump_to target;;
    load_flags flags Alu.ODword false.

Definition iret_body (size : Alu.OperandSize) : M unit :=
  c ← ask id;
  if is_protected_task c && has (eflags c) FLAG_NT then
    back_link ← read_system_linear (base (tr c)) Word;
    task_switch (wrap 16 back_link) Return
  else match size with Alu.OWord => iret_word | Alu.ODword => iret_dword end.

(** [iret] and [return_far] put ESP back when their body fails. *)
Definition restoring_esp (m : M unit) : M unit := fun s =>
  match m s with
  | ((c, b), Err e) => ((set_esp c (esp s.1), b), Err e)
  | r => r
  end.

Definition iret (size : Alu.OperandSize) : M unit := restoring_esp (iret_body size).

Definition return_far_body (size : Alu.OperandSize) (release : Z) : M unit :=
  offset ← pop size;
  sel ← pop size;
  let sel := wrap 16 sel in
  c ← ask id;
  if is_protected_task c && (cpl c <? rpl sel) then
    release_stack release;;
    sp ← pop size;
    ss ← pop size;
    let ss := wrap 16 ss in
    demand (rpl ss =? rpl sel) (rpl_fault ss);;
    return_outer sel ss (Z.land offset (Alu.size_mask size)) None size sp
  else
    load_segment Cs sel;;
    jump_to (Z.land offset (Alu.size_mask size));;
    change (fun c => c <| cpl := landing_level c sel |>).

Definition return_far (size : Alu.OperandSize) (release : Z) : M unit := restoring_esp (return_far_body size release).

(* ------------------------------------------------------------------ *)
(** ** Calls and jumps *)

Record CallGate := mkCallGate { target_selector : Z; target_offset : Z; gate_size : Alu.OperandSize; param_count : Z }.

Definition decode_call_gate (low high : Z) : CallGate :=
  let is_32 := Z.land (Z.shiftr high 8) 15 =? 12 in
  mkCallGate (Z.land (Z.shiftr low 16) 65535)
    (if is_32 then Z.lor (Z.land low 65535) (Z.land high 4294901760) else Z.land low 65535)
    (if is_32 then Alu.ODword else Alu.OWord) (Z.land high 31).

(** The checks the two gate transfers share: the gate, then its target code segment. *)
Definition check_call_gate (gate_sel high : Z) : M unit :=
  let acc := access_of high in
  let type := Z.land acc 15 in
  demand ((type =? 12) || (type =? 4)) (selector_fault 13 gate_sel);;
  c ← ask id;
  demand (has acc 128 && negb (dpl_of acc <? Z.max (cpl c) (rpl gate_sel))) (selector_fault 13 gate_sel).

Definition check_gate_target (target_sel th : Z) : M unit :=
  let acc := access_of th in
  demand (has acc 128 && (Z.land acc 24 =? 24)) (selector_fault 13 target_sel).

(** The parameters on the outer stack, first to last. *)
Fixpoint read_params (outer : Cpu) (size : Alu.OperandSize) (k : Z) (count : nat) : M (list Z) :=
  match count with
  | O => mret []
  | S count =>
      let offset := k * Alu.size_bytes size in
      let addr := if stack_is_32bit outer then wrap 32 (esp outer + offset) else wrap 16 (esp outer + offset) in
      v ← read_memory_sized code_wholesale Ss addr size;
      vs ← read_params outer size (k + 1) count;
      mret (v :: vs)
  end.

Definition far_call_gate (gate_sel low high : Z) : M unit :=
  check_call_gate gate_sel high;;
  c ← ask id;
  let level := cpl c in
  let g := decode_call_gate low high in
  let size := gate_size g in
  '(tl, th) ← read_transfer_descriptor (target_selector g);
  check_gate_target (target_selector g) th;;
  let acc := access_of th in
  let target_dpl := dpl_of acc in
  let conforming := has acc 4 in
  let target := descriptor_to_segment (target_selector g) tl th in
  c ← ask id;
  let return_cs := selector (segment c Cs) in
  let return_eip := eip c in
  target ← (
    if negb conforming && (target_dpl <? level) then
      params ← read_params c size 0 (Z.to_nat (param_count g));
      '(old_ss, old_esp) ← switch_to_inner_stack target_dpl;
      set_cpl target_dpl;;
      push old_ss size;;
      push old_esp size;;
      each (fun v => push v size) (reverse params);;
      push return_cs size;;
      push return_eip size;;
      mret (target <| selector := Z.lor (Z.ldiff (target_selector g) 3) target_dpl |>)
    else
      push return_cs size;;
      push return_eip size;;
      mret (target <| selector := Z.lor (Z.ldiff (target_selector g) 3) level |>));
  install Cs target;;
  jump_to (Z.land (target_offset g) (Alu.size_mask size)).

Definition far_jump_gate (gate_sel low high : Z) : M unit :=
  check_call_gate gate_sel high;;
  c ← ask id;
  let level := cpl c in
  let g := decode_call_gate low high in
  '(tl, th) ← read_transfer_descriptor (target_selector g);
  check_gate_target (target_selector g) th;;
  let acc := access_of th in
  let target_dpl := dpl_of acc in
  let conforming := has acc 4 in
  demand (negb ((negb conforming && negb (target_dpl =? level)) || (conforming && (level <? target_dpl))))
    (selector_fault 13 (target_selector g));;
  install Cs ((descriptor_to_segment (target_selector g) tl th) <| selector := Z.lor (Z.ldiff (target_selector g) 3) level |>);;
  jump_to (Z.land (target_offset g) (Alu.size_mask (gate_size g))).

Definition far_system_transfer (sel low high : Z) (is_call : bool) : M unit :=
  let kind := if is_call then Call else Jump in
  match Z.land (Z.shiftr high 8) 15 with
  | 4 | 12 => if is_call then far_call_gate sel low high else far_jump_gate sel low high
  | 9 => task_switch sel kind
  | 5 => task_switch (Z.land (Z.shiftr low 16) 65535) kind
  | _ => throw (selector_fault 13 sel)
  end.

(** The direct transfer of CALL: the return address, then the code segment. *)
Definition far_call_direct (sel offset : Z) (size : Alu.OperandSize) : M unit :=
  c ← ask id;
  let esp_before := esp c in
  push (selector (segment c Cs)) size;;
  (fun s => match push (eip c) size s with
    | ((c, b), Err e) => ((if stack_is_32bit c then set_esp c esp_before else write_gpr16 c 4 (wrap 16 esp_before), b), Err e)
    | r => r
    end);;
  load_segment Cs sel;;
  jump_to (Z.land offset (Alu.size_mask size));;
  change (fun c => c <| cpl := landing_level c sel |>).

Definition far_call (sel offset : Z) (size : Alu.OperandSize) : M unit :=
  c ← ask id;
  if is_protected_task c then
    '(low, high) ← read_transfer_descriptor sel;
    if negb (has (Z.shiftr high 8) 16) then far_system_transfer sel low high true
    else
      demand (has (Z.shiftr high 8) 128) (selector_fault 11 sel);;
      far_call_direct sel offset size
  else far_call_direct sel offset size.

Definition far_jump_direct (sel offset : Z) (size : Alu.OperandSize) : M unit :=
  load_segment Cs sel;;
  jump_to (Z.land offset (Alu.size_mask size));;
  change (fun c => c <| cpl := landing_level c sel |>).

Definition far_jump (sel offset : Z) (size : Alu.OperandSize) : M unit :=
  c ← ask id;
  if is_protected_task c then
    '(low, high) ← read_transfer_descriptor sel;
    if negb (has (Z.shiftr high 8) 16) then far_system_transfer sel low high false
    else far_jump_direct sel offset size
  else far_jump_direct sel offset size.

Definition relative_jump (relative : Z) (size : Alu.OperandSize) : M unit :=
  change (fun c => set_eip c (Z.land (wrap 32 (eip c + relative)) (Alu.size_mask size))).

(* ------------------------------------------------------------------ *)
(** ** The exception arm of [finish_instruction] *)

Definition fault_instruction (start_eip start_cs vector : Z) (error_code : option Z) : M unit :=
  change (fun c => c <| single_step_armed := false |>);;
  c ← ask id;
  let cs_was_moved := negb (selector (segment c Cs) =? start_cs) in
  jump_to start_eip;;
  (if cs_was_moved then load_segment_real Cs start_cs else mret tt);;
  deliver_exception_escalating vector error_code false.

End Transfer.
End Transfer.
