(* ===== verification/FlatMachine.v ===== *)
(** * A small machine for concrete runs

    [Memory] as the bus of a processor with paging off and flat 4 GiB segments, and the
    descriptors its tables are made of. *)

From stdpp Require Import gmap.
From S2P Require Import Prelude Clock Memory CpuFlags CpuAlu Tlb Paging PagingSound PagingMemory Exec Segment Access.
Import Segment.Core Access.Access.

Module Flat.
#[export] Existing Instance OnMemory.memory_bus.

#[export] Instance data_memory : DataBus Memory := {
  bus_load m a w := (m, match w with Byte => read_u8 m a | Word => read_u16 m a | Dword => read_u32 m a end);
  bus_interrupt_acknowledge m _ _ := (m, Ok tt)
}.

(** No store overwrites decoded code, and none goes through a direct page. *)
Definition never_code (_ _ : Z) : bool := false.
Definition never_direct (_ : Z) (_ : BusWidth) : bool := false.

(** A descriptor with limit 4 GiB, base 0 and 32-bit size; a 32-bit interrupt gate. *)
Definition flat_descriptor (acc : Z) : list Z := le_bytes 4 65535 ++ le_bytes 4 (13565952 + acc * 256).
Definition interrupt_gate (sel offset dpl : Z) : list Z :=
  le_bytes 4 (sel * 65536 + offset) ++ le_bytes 4 ((142 + dpl * 32) * 256).

(** The GDT at 0x100: code and data of ring 0 (8, 16), of ring 3 (24, 32); 40 to 56 are free. *)
Definition gdt_bytes : list Z := le_bytes 4 0 ++ le_bytes 4 0 ++
  flat_descriptor 155 ++ flat_descriptor 147 ++ flat_descriptor 251 ++ flat_descriptor 243.

(** 2 KiB, with bytes placed at addresses. *)
Definition memory_with (parts : list (Z * list Z)) : Memory :=
  mkMemory (foldl (fun l p => splice l p.1 p.2) (splice (zeroed 2048) 256 gdt_bytes) parts).

Definition flat_segment (sel acc : Z) : SegmentRegister := mkSegment sel 0 4294967295 acc true.

(** A processor at [level], its IDT of [vectors] gates at 0x200, its TSS at 0x600. *)
Definition processor (c0 flags level sp ip vectors : Z) : Cpu :=
  let ring := if level =? 3 then 19 else 0 in
  let dpl := level * 32 in
  let code := flat_segment (8 + ring) (155 + dpl) in
  let data := flat_segment (16 + ring) (147 + dpl) in
  mkCpu (Flags.recompute_alignment_armed (Flags.mkCpu [17; 0; 0; 0; sp; 0; 0; 0] flags Flags.no_pending c0 false 0)) ip
    [data; code; data; data; data; data] level 0 0 Tlb.tlb_default Tlb.decode_new OnMemory.no_writes
    (mkTable 256 63) (mkTable 512 (vectors * 8 - 1)) (null_segment 0) (mkSegment 40 1536 103 139 false) false false Gsw.I586.

End Flat.
