(* ===== verification/AccessSound.v ===== *)
(** * What a memory access can do

    Every access of [Access] and every descriptor read of [SegLoad] leaves the registers
    the guest works with as they were, whether it succeeds or faults, except the stack
    pointer of a push or pop that succeeds; and the exceptions it can raise are #TS, #NP,
    #SS, #GP, #PF and, while alignment checking is armed, #AC. *)

From stdpp Require Import gmap.
From S2P Require Import Prelude Clock Memory CpuFlags CpuAlu Tlb Paging Exec Segment Access SegLoad.
Import Segment.Core Access.Access SegLoad.Load.

Module Frame.

(** Membership in a list that is spelled out. *)
Ltac listed := repeat (first [apply list_elem_of_here|apply list_elem_of_further]).

(** Every register but CR2; the translation cache and the record of written pages are
    not registers. *)
Definition visible (c : Cpu) :=
  (regs c, eip c, segments c, cpl c, cr3 c, (gdtr c, idtr c, ldtr c, tr c), (interrupt_shadow c, single_step_armed c, persona c)).

Lemma visible_eq c c' : visible c' = visible c -> regs c' = regs c /\ eip c' = eip c /\ segments c' = segments c /\ cpl c' = cpl c /\
  cr3 c' = cr3 c /\ gdtr c' = gdtr c /\ idtr c' = idtr c /\ ldtr c' = ldtr c /\ tr c' = tr c /\
  interrupt_shadow c' = interrupt_shadow c /\ single_step_armed c' = single_step_armed c /\ persona c' = persona c.
Proof. unfold visible. intros [=]. done. Qed.

Definition armed (c : Cpu) : bool := Flags.alignment_armed (regs c).

(** The vectors an access or a descriptor check raises. *)
Definition may_raise (is_armed : bool) (vector : Z) : Prop :=
  vector ∈ [10; 11; 12; 13; 14] \/ (vector = 17 /\ is_armed = true).

Definition raised (c : Cpu) (f : Fault) : Prop :=
  match f with Stop _ => True | Exc vector _ => may_raise (armed c) vector end.

Section Frame.
Context {B : Type} `{PhysicalBus B} `{DataBus B}.
Context (code_wholesale : Z -> Z -> bool) (direct : Z -> BusWidth -> bool).

Definition quiet (s s' : Cpu * B) : Prop := visible s'.1 = visible s.1.
Definition quiet_fault (s s' : Cpu * B) (f : Fault) : Prop := quiet s s' /\ raised s.1 f.

Abbreviation access_only := (obeys quiet quiet_fault).

#[export] Instance quiet_absorbs : Absorbs quiet quiet_fault.
Proof.
  unfold quiet, quiet_fault. split; [split; [by intros ?|intros ??? E1 E2; by rewrite E2]|].
  intros s s1 s2 e E1 [E2 Hr]. unfold quiet in *. split; [congruence|].
  destruct e; [done|]. cbn in Hr |- *. unfold armed in *. by destruct (visible_eq _ _ E1) as (<- & _).
Qed.

(** A fault thrown at a place that has moved nothing. *)
Lemma quiet_throws v code : v ∈ [10; 11; 12; 13; 14] -> forall s : Cpu * B, quiet_fault s s (Exc v code).
Proof. intros Hv s. split; [done|by left]. Qed.

Lemma limit_fault_raised c s : raised c (segment_limit_fault s).
Proof. left. destruct s; cbn; listed. Qed.

(* ------------------------------------------------------------------ *)
(** ** Translation *)

Lemma note_code_write_cr3 c p w : Paging.cr3 (Paging.note_code_write code_wholesale c p w) = Paging.cr3 c.
Proof. unfold Paging.note_code_write. cases; reflexivity. Qed.

Lemma record_if_cr3 c write p : Paging.cr3 (Paging.record_if c write p) = Paging.cr3 c.
Proof. by destruct write. Qed.

Lemma mark_cr3 c p : Paging.cr3 (Paging.mark c p) = Paging.cr3 c.
Proof. done. Qed.

(** What the paging unit answers a translation with. *)
Definition paging_answer (c : Paging.Cpu) (r : (Paging.Cpu * B) * result Alu.InternalFault Z) : Prop :=
  Paging.cr3 r.1.1 = Paging.cr3 c /\ match r.2 with Err (Alu.Exception v _) => v = 14 | _ => True end.

Lemma update_entry_answer c b address entry bits :
  paging_answer c (Paging.update_entry code_wholesale c b address entry bits).
Proof.
  unfold paging_answer, Paging.update_entry, Paging.write_page_walk_entry. destruct (negb _); [|done].
  destruct (bus_write b address Dword _) as [b' [[]|e]]; [|done]. cbn [fst snd]. by rewrite note_code_write_cr3.
Qed.

Lemma page_walk_answer c b linear write user : paging_answer c (Paging.page_walk code_wholesale c b linear write user).
Proof.
  unfold Paging.page_walk. destruct (bus_read b _) as [pde|e]; [|done]. destruct (_ =? 0); [done|].
  destruct (update_entry_answer c b (Z.land (Paging.cr3 c) Paging.PAGE_MASK + Z.land (Z.shiftr linear 22) 1023 * 4) pde 32) as [E1 Ev1].
  destruct (Paging.update_entry _ c b _ pde 32) as [[c1 b1] [pde'|e]]; cbn [fst snd] in *; [|done].
  destruct (bus_read b1 _) as [pte|e]; [|done]. destruct (_ =? 0); [done|]. destruct (if user then _ else _); [done|].
  match goal with |- context [Paging.update_entry _ ?c ?b ?a pte ?bits] => destruct (update_entry_answer c b a pte bits) as [E2 Ev2];
    destruct (Paging.update_entry _ c b a pte bits) as [[c2 b2] [pte'|e]] end; cbn [fst snd] in *;
    rewrite mark_cr3, E1 in E2; [|done].
  destruct (Z.land pde' 128 =? 0), (Tlb.insert _ _ _ _ _ _); (split; [|done]); cbn [fst]; by rewrite record_if_cr3.
Qed.

Lemma translate_answer c b linear write accessor :
  paging_answer c (Paging.translate_linear_checked code_wholesale c b linear write accessor).
Proof.
  unfold Paging.translate_linear_checked. destruct (negb _); [split; [apply record_if_cr3|done]|].
  destruct (Tlb.lookup _ _); [|apply page_walk_answer]. destruct (_ && _); [split; [apply record_if_cr3|done]|apply page_walk_answer].
Qed.

Lemma visible_with_mmu c m : Paging.cr3 m = cr3 c -> visible (with_mmu c m) = visible c.
Proof. intros E. unfold visible, with_mmu. cbn. by rewrite E. Qed.

Lemma translate_obeys linear write accessor : access_only (translate code_wholesale linear write accessor).
Proof.
  intros [c b]. unfold translate. cbn [fst snd].
  destruct (translate_answer (mmu c) b linear write accessor) as [E Ev].
  destruct (Paging.translate_linear_checked _ _ _ _ _ _) as [[m b'] [a|e]]; cbn [fst snd] in *.
  - by apply visible_with_mmu.
  - split; [by apply visible_with_mmu|]. destruct e as [e|v code]; [done|]. left. subst v.
    listed.
Qed.

(* ------------------------------------------------------------------ *)
(** ** Leaves *)

Lemma load_obeys physical w : access_only (load physical w).
Proof. intros [c b]. unfold load. destruct (bus_load _ _ _) as [b' [v|e]]; cbn; done. Qed.

Lemma store_obeys physical w v : access_only (store physical w v).
Proof. intros [c b]. unfold store. destruct (bus_write _ _ _ _) as [b' [[]|e]]; cbn; done. Qed.

Lemma acknowledge_obeys vector ax : access_only (interrupt_acknowledge vector ax).
Proof. intros [c b]. unfold interrupt_acknowledge. destruct (bus_interrupt_acknowledge _ _ _) as [b' [[]|e]]; cbn; done. Qed.

Lemma note_code_write_obeys physical w : access_only (note_code_write code_wholesale physical w).
Proof. apply obeys_modify. intros s. apply visible_with_mmu. by rewrite note_code_write_cr3. Qed.

Lemma record_write_page_obeys physical : access_only (record_write_page physical).
Proof. by apply obeys_modify. Qed.

Lemma changes_obeys physical w v : access_only (changes physical w v).
Proof. apply obeys_gets, _. Qed.

Lemma ask_obeys {A} (f : Cpu -> A) : access_only (ask f).
Proof. apply obeys_gets, _. Qed.

Lemma lift_obeys {A} (r : result Fault A) : (forall f, r = Err f -> exists s, f = segment_limit_fault s) -> access_only (lift r).
Proof.
  intros Hr s. unfold lift. destruct r as [a|f]; [done|]. destruct (Hr f eq_refl) as [s' ->]. split; [done|apply limit_fault_raised].
Qed.

Lemma kind_fault c s acc write f : check_segment_access_kind c s acc write = Err f -> exists s', f = segment_limit_fault s'.
Proof. unfold check_segment_access_kind. cases; naive_solver. Qed.

Lemma linear_byte_fault c s o write f : segment_linear_byte c s o write = Err f -> exists s', f = segment_limit_fault s'.
Proof.
  unfold segment_linear_byte. pose proof (kind_fault c s (access (segment c s)) write) as Hk.
  destruct (check_segment_access_kind _ _ _ _); [|naive_solver]. cases; naive_solver.
Qed.

Lemma linear_range_fault c s o w write f : segment_linear_range c s o w write = Err f -> exists s', f = segment_limit_fault s'.
Proof.
  unfold segment_linear_range. pose proof (kind_fault c s (access (segment c s)) write) as Hk.
  destruct (check_segment_access_kind _ _ _ _); [|naive_solver]. cbv zeta. cases; naive_solver.
Qed.

Lemma alignment_obeys o w : access_only (check (fun c => check_alignment c o w)).
Proof.
  intros s. unfold check, check_alignment. destruct (w <=? 1); [done|].
  destruct (Flags.alignment_armed (regs s.1)) eqn:Ea; [|done]. cbn [negb orb].
  destruct (_ && _); [|done]. split; [done|]. by right.
Qed.

End Frame.

(** Follows the shape of the code down to calls with a lemma in [obeys]. *)
Ltac obey_step :=
  first
  [ solve [auto with obeys]
  | apply obeys_bind; [typeclasses eauto| |intros ?]
  | apply obeys_demand; [typeclasses eauto|solve [auto with obeys]]
  | apply obeys_each; [typeclasses eauto|intros ?]
  | apply obeys_if
  | match goal with |- obeys _ _ (match ?x with _ => _ end) => destruct x end ].
Ltac obey := repeat (progress cbv zeta beta || obey_step).

#[export] Hint Resolve translate_obeys load_obeys store_obeys acknowledge_obeys note_code_write_obeys record_write_page_obeys
  changes_obeys ask_obeys alignment_obeys quiet_throws : obeys.
#[export] Hint Extern 1 (obeys _ _ (lift (segment_linear_byte _ _ _ _))) => apply lift_obeys, linear_byte_fault : obeys.
#[export] Hint Extern 1 (obeys _ _ (lift (segment_linear_range _ _ _ _ _))) => apply lift_obeys, linear_range_fault : obeys.
#[export] Hint Extern 1 (_ ∈ [10; 11; 12; 13; 14]) => listed : obeys.

Section Accesses.
Context {B : Type} `{PhysicalBus B} `{DataBus B}.
Context (code_wholesale : Z -> Z -> bool) (direct : Z -> BusWidth -> bool).

Abbreviation access_only := (obeys (quiet (B := B)) quiet_fault).

(* ------------------------------------------------------------------ *)
(** ** Linear and segmented accesses *)

Lemma guest_store_obeys physical w v : access_only (guest_store code_wholesale direct physical w v).
Proof. unfold guest_store. obey. Qed.
Hint Resolve guest_store_obeys : obeys.

Lemma translate_linear_obeys linear write : access_only (translate_linear code_wholesale linear write).
Proof. apply translate_obeys. Qed.
Lemma translate_system_obeys linear write : access_only (translate_linear_system code_wholesale linear write).
Proof. apply translate_obeys. Qed.
Hint Resolve translate_linear_obeys translate_system_obeys : obeys.

Lemma read_linear_u8_obeys linear : access_only (read_linear_u8 code_wholesale linear).
Proof. unfold read_linear_u8. obey. Qed.
Lemma write_linear_u8_obeys linear v : access_only (write_linear_u8 code_wholesale direct linear v).
Proof. unfold write_linear_u8. obey. Qed.
Hint Resolve read_linear_u8_obeys write_linear_u8_obeys : obeys.

Lemma read_fragment_obeys linear w : access_only (read_linear_fragment code_wholesale linear w).
Proof. unfold read_linear_fragment, read_linear_fragment_after_probe. obey. Qed.
Lemma write_fragment_obeys linear w v : access_only (write_linear_fragment code_wholesale direct linear w v).
Proof. unfold write_linear_fragment, write_linear_fragment_after_probe. obey. Qed.
Hint Resolve read_fragment_obeys write_fragment_obeys : obeys.

Lemma read_fragments_obeys linear width n : forall completed v, access_only (read_fragments code_wholesale n linear width completed v).
Proof. induction n as [|n IH]; intros; cbn [read_fragments]; obey; apply IH. Qed.
Lemma write_fragments_obeys linear width v n : forall completed, access_only (write_fragments code_wholesale direct n linear width completed v).
Proof. induction n as [|n IH]; intros; cbn [write_fragments]; obey; apply IH. Qed.
Hint Resolve read_fragments_obeys write_fragments_obeys : obeys.

Lemma read_memory_obeys s o size : access_only (read_memory_sized code_wholesale s o size).
Proof.
  unfold read_memory_sized, read_memory_bus_width, read_memory_u8, read_paged_cross_page, read_linear_fragment_after_probe. obey.
Qed.
Lemma write_memory_obeys s o size v : access_only (write_memory_sized code_wholesale direct s o size v).
Proof.
  unfold write_memory_sized, write_memory_bus_width, write_memory_u8, write_paged_cross_page, write_linear_fragment_after_probe. obey.
Qed.

(* ------------------------------------------------------------------ *)
(** ** System accesses and descriptors *)

Lemma read_system_obeys linear w : access_only (read_system_linear code_wholesale linear w).
Proof. unfold read_system_linear. obey. Qed.
Lemma write_system_obeys linear w v : access_only (write_system_linear code_wholesale linear w v).
Proof. unfold write_system_linear. obey. Qed.
Hint Resolve read_system_obeys write_system_obeys : obeys.
Lemma read_system_u32_obeys linear : access_only (read_system_linear_u32 code_wholesale linear).
Proof. apply read_system_obeys. Qed.
Hint Resolve read_system_u32_obeys : obeys.

Lemma selector_throws v sel : v ∈ [10; 11; 12; 13; 14] -> forall s : Cpu * B, quiet_fault s s (selector_fault v sel).
Proof. apply quiet_throws. Qed.
Hint Resolve selector_throws : obeys.

Lemma read_descriptor_obeys a : access_only (read_descriptor_at code_wholesale a).
Proof. unfold read_descriptor_at. obey. Qed.
Hint Resolve read_descriptor_obeys : obeys.

Lemma read_transfer_descriptor_obeys sel : access_only (read_transfer_descriptor code_wholesale sel).
Proof. unfold read_transfer_descriptor. obey. Qed.
Lemma read_gdt_descriptor_obeys sel : access_only (read_gdt_descriptor code_wholesale sel).
Proof. unfold read_gdt_descriptor. obey. Qed.
Lemma try_read_descriptor_obeys sel : access_only (try_read_descriptor code_wholesale sel).
Proof. unfold try_read_descriptor. obey. Qed.
Hint Resolve try_read_descriptor_obeys : obeys.
Lemma verify_segment_obeys sel write : access_only (verify_segment code_wholesale sel write).
Proof. unfold verify_segment. obey. Qed.

Lemma load_protected_obeys s sel priv : access_only (load_protected_segment code_wholesale s sel priv).
Proof. unfold load_protected_segment. destruct (is_ss s); obey. Qed.

End Accesses.

#[export] Hint Resolve translate_linear_obeys translate_system_obeys read_memory_obeys write_memory_obeys read_system_obeys write_system_obeys
  read_system_u32_obeys selector_throws read_descriptor_obeys read_transfer_descriptor_obeys read_gdt_descriptor_obeys
  load_protected_obeys : obeys.

End Frame.
