(* ===== verification/SegmentSound.v ===== *)
(** * What the segment checks allow

    A wide access is exactly the accesses of its bytes. *)

From stdpp Require Import gmap.
From S2P Require Import Prelude Clock Memory CpuFlags CpuAlu Tlb Paging Exec Segment Access FlatMachine.
Import Segment.Core FlatMachine.Flat.

Module Checks.

(** The fields of a segment register hold their widths. *)
Definition segment_wf (d : SegmentRegister) : Prop := u16 (selector d) /\ u32 (base d) /\ u32 (limit d) /\ u8 (access d).

(** The bytes of a wide access, up to the top of the address space, where the check stops. *)
Definition bytes_allowed (c : Cpu) (s : SegmentIndex) (offset width : Z) (write : bool) (linear : Z) : Prop :=
  forall i, 0 <= i < width -> offset + i < 2 ^ 32 ->
  segment_linear_byte c s (offset + i) write = Ok (wrap 32 (linear + i)).

Lemma saturate_last o w : u32 o -> 1 <= w -> saturate 32 (o + (w - 1)) = Z.min (o + (w - 1)) (2 ^ 32 - 1).
Proof. intros [] ?. unfold saturate. lia. Qed.

Lemma wrap_shift a i : wrap 32 (wrap 32 a + i) = wrap 32 (a + i).
Proof. unfold wrap. by rewrite Zplus_mod_idemp_l. Qed.

(** The range test as a statement about every offset in the range. *)
Lemma range_test c d o w : u32 o -> 1 <= w -> segment_wf d ->
  (let last := saturate 32 (o + (w - 1)) in
   if expand_down c d then (limit d <? o) && (last <=? ceiling d) else (o <=? limit d) && (last <=? limit d)) = true <->
  forall i, 0 <= i < w -> o + i < 2 ^ 32 ->
  (if expand_down c d then (limit d <? o + i) && (o + i <=? ceiling d) else o + i <=? limit d) = true.
Proof.
  intros Ho Hw (_ & _ & [] & _). cbv zeta. rewrite saturate_last by done. destruct Ho. set (last := Z.min _ _).
  assert (Hlast : exists i, 0 <= i < w /\ o + i < 2 ^ 32 /\ o + i = last) by (exists (last - o); lia).
  destruct Hlast as (k & Hk & Hk2 & Ek). destruct (expand_down c d); split.
  - intros E. bool_prop. intros i Hi Hi2. apply andb_true_iff. split; [apply Z.ltb_lt|apply Z.leb_le]; lia.
  - intros E. pose proof (E 0 ltac:(lia) ltac:(lia)) as E0. pose proof (E k ltac:(lia) Hk2) as E1. bool_prop.
    apply andb_true_iff. split; [apply Z.ltb_lt|apply Z.leb_le]; lia.
  - intros E. bool_prop. intros i Hi Hi2. apply Z.leb_le. lia.
  - intros E. pose proof (E 0 ltac:(lia) ltac:(lia)) as E0. pose proof (E k ltac:(lia) Hk2) as E1. bool_prop.
    apply andb_true_iff. split; apply Z.leb_le; lia.
Qed.

(** C22.  The segment check of a wide access is the check of each of its bytes. An access of
    [width] bytes at [offset] is granted, at the linear address of its first byte, exactly
    when the byte check grants every byte of it that lies below 4 GiB, at consecutive linear
    addresses; type, limit and expand-down segments included. What a range that runs past
    the top of the offset space touches there is not checked. Otherwise the access is
    refused with the limit fault of its segment. *)
Theorem range_is_bytes c s offset width write :
  segment_wf (segment c s) -> u32 offset -> 1 <= width ->
  (forall linear, segment_linear_range c s offset width write = Ok linear <->
     linear = wrap 32 (base (segment c s) + offset) /\ bytes_allowed c s offset width write linear) /\
  (forall f, segment_linear_range c s offset width write = Err f -> f = segment_limit_fault s).
Proof.
  intros Hd Ho Hw. pose proof (range_test c (segment c s) offset width Ho Hw Hd) as Ht.
  unfold bytes_allowed, segment_linear_range, segment_linear_byte. set (d := segment c s) in *. clearbody d.
  assert (Hk : forall f, check_segment_access_kind c s (access d) write = Err f -> f = segment_limit_fault s).
  { intros f. unfold check_segment_access_kind. cases; congruence. }
  destruct (check_segment_access_kind c s (access d) write) as [[]|e]; cbv beta iota.
  2:{ split; [|intros f [= <-]; by apply Hk]. intros l. split; [done|]. intros [_ Hb]. specialize (Hb 0). rewrite Z.add_0_r in Hb.
      destruct Ho. specialize (Hb ltac:(lia) ltac:(lia)). done. }
  destruct ((base d =? 0) && (limit d =? 4294967295)) eqn:Ef.
  { split; [|done]. bool_prop. intros l. split.
    - intros [= <-]. rewrite H, Z.add_0_l, wrap_id by done. split; [done|]. intros i Hi Hi2. f_equal. symmetry. apply wrap_id. destruct Ho. split; lia.
    - intros [-> _]. by rewrite H, Z.add_0_l, wrap_id. }
  cbv zeta in Ht |- *. set (t := if expand_down c d then _ else _) in Ht |- *. destruct t; cbn [negb].
  - split; [|done]. intros l. pose proof (proj1 Ht eq_refl) as Hall. split.
    + intros [= <-]. split; [done|]. intros i Hi Hi2. rewrite (Hall i Hi Hi2). cbn [negb]. by rewrite wrap_shift, Z.add_assoc.
    + by intros [-> _].
  - split; [|by intros f [= <-]]. intros l. split; [done|]. intros [-> Hb]. exfalso. assert (E : false = true); [|done].
    apply Ht. intros i Hi Hi2. specialize (Hb i Hi Hi2). by destruct (if expand_down c d then _ else _).
Qed.

(** An expand-down segment of 64 KiB: offsets 256 to 65535. *)
Definition expanding : Cpu := set_segment (processor 1 2 0 1792 1024 18) Ds (mkSegment 16 4096 255 151 false).

Lemma range_is_bytes_witness :
  segment_wf (segment expanding Ds) /\
  (segment_linear_range expanding Ds 256 4 true = Ok 4352 /\ bytes_allowed expanding Ds 256 4 true 4352) /\
  segment_linear_range expanding Ds 65534 4 true = Err (Exc 13 (Some 0)).
Proof.
  assert (Hw : segment_wf (segment expanding Ds)) by (vm_compute; intuition congruence).
  split; [exact Hw|]. split; [|vm_compute; reflexivity].
  assert (E : segment_linear_range expanding Ds 256 4 true = Ok 4352) by (vm_compute; reflexivity).
  split; [exact E|].
  exact (proj2 (proj1 (proj1 (range_is_bytes expanding Ds 256 4 true Hw ltac:(vm_compute; intuition congruence) ltac:(lia)) 4352) E)).
Defined.

End Checks.
