(* ===== verification/DeliverySound.v ===== *)
(** * What a failed delivery leaves behind

    [deliver_exception_inner] either delivers or, when it raises a nested exception, puts
    every register of the guest back as it was; and the ladder of [escalate_delivery] is
    the one the architecture describes, whose bound only alignment faults can reach. *)

From stdpp Require Import gmap.
From S2P Require Import Prelude Clock Memory CpuFlags CpuAlu Tlb Paging PagingSound PagingMemory Exec Segment Access SegLoad Transfer FlatMachine AccessSound.
Import Segment.Core Access.Access SegLoad.Load Transfer.Transfer FlatMachine.Flat AccessSound.Frame.

Module Delivery.

Definition settled (c : Cpu) : bool := Flags.is_none (Flags.pending_flags (regs c)).

(** What a delivery leaves alone until it succeeds: all but the flag image, the stack
    pointer, the level, and the segments other than CS. *)
Definition fixed (c : Cpu) :=
  ((<[4%nat := 0]> (Flags.gpr (regs c)), Flags.cr0 (regs c), Flags.pending_flags (regs c),
    Flags.alignment_armed (regs c), Flags.flag_materializations (regs c)),
   (eip c, segment c Cs, length (segments c)), (cr3 c, (gdtr c, idtr c, ldtr c, tr c)),
   (interrupt_shadow c, single_step_armed c, persona c)).

Section Delivery.
Context {B : Type} `{PhysicalBus B} `{DataBus B}.
Context (code_wholesale : Z -> Z -> bool) (direct : Z -> BusWidth -> bool).

Definition moves (s s' : Cpu * B) : Prop := settled s.1 = true -> settled s'.1 = true /\ fixed s'.1 = fixed s.1.

(** A nested exception leaves the fixed part alone; a stop of the machine may not. *)
Definition nested (s s' : Cpu * B) (f : Fault) : Prop :=
  match f with
  | Stop _ => True
  | Exc vector _ => settled s.1 = true -> settled s'.1 = true /\ fixed s'.1 = fixed s.1 /\ may_raise (armed s.1) vector
  end.

Abbreviation careful := (obeys moves nested).

Lemma fixed_armed c c' : fixed c' = fixed c -> armed c' = armed c.
Proof. unfold fixed. by intros [=]. Qed.

#[export] Instance moves_absorbs : Absorbs moves nested.
Proof.
  unfold moves, nested. split; [split; [by intros ? ?|]|].
  - intros s s1 s2 H1 H2 Hs. destruct (H1 Hs) as [Hs1 E1]. destruct (H2 Hs1) as [Hs2 E2]. split; [done|congruence].
  - intros s s1 s2 [|v code] H1; [done|]. intros H2 Hs. destruct (H1 Hs) as [Hs1 E1]. destruct (H2 Hs1) as (Hs2 & E2 & Hv).
    split; [done|]. split; [congruence|]. by rewrite <-(fixed_armed _ _ E1).
Qed.

Lemma visible_fixed c c' : visible c' = visible c -> fixed c' = fixed c /\ settled c' = settled c.
Proof.
  intros E. destruct (visible_eq _ _ E) as (E1 & E2 & E3 & E4 & E5 & E6 & E7 & E8 & E9 & E10 & E11 & E12).
  unfold fixed, settled, segment. by rewrite E1, E2, E3, E5, E6, E7, E8, E9, E10, E11, E12.
Qed.

Lemma access_careful {A} (m : Exec (Cpu * B) Fault A) : obeys quiet quiet_fault m -> careful m.
Proof.
  apply obeys_weaken.
  - intros s s' E. destruct (visible_fixed _ _ E) as [Ef Es]. intros Hs. split; congruence.
  - intros s s' [|v code] [E Hr]; [done|]. destruct (visible_fixed _ _ E) as [Ef Es]. intros Hs. split; [congruence|]. by split.
Qed.

(* ------------------------------------------------------------------ *)
(** ** Changes *)

Lemma change_careful f : (forall c, settled c = true -> settled (f c) = true /\ fixed (f c) = fixed c) -> careful (change f).
Proof. intros Hf. apply obeys_modify. intros s Hs. by apply Hf. Qed.

Lemma slot_4_fixed c v : fixed (c <| regs := Alu.set_slot (regs c) 4 v |>) = fixed c.
Proof. unfold fixed, Alu.set_slot. cbn. by rewrite list_insert_insert_eq. Qed.

Lemma set_esp_careful v : careful (change (fun c => set_esp c v)).
Proof. apply change_careful. intros c Hc. split; [done|apply slot_4_fixed]. Qed.

Lemma set_sp_careful v : careful (change (fun c => write_gpr16 c 4 v)).
Proof. apply change_careful. intros c Hc. split; [done|apply (slot_4_fixed c)]. Qed.

Lemma set_stack_careful v : careful (change (fun c => if stack_is_32bit c then set_esp c v else write_gpr16 c 4 (wrap 16 v))).
Proof. apply change_careful. intros c Hc. destruct (stack_is_32bit c); split; try done; apply (slot_4_fixed c). Qed.

Lemma set_eflags_careful f : careful (change (fun c => set_eflags c (f c))).
Proof. by apply change_careful. Qed.

Lemma set_cpl_careful l : careful (set_cpl l).
Proof. by apply change_careful. Qed.

Lemma materialize_settled c : settled c = true -> materialize_flags c = c.
Proof. unfold settled, materialize_flags, Flags.materialize_flags. intros ->. by destruct c. Qed.

Lemma materialize_careful : careful (change materialize_flags).
Proof. apply change_careful. intros c Hc. by rewrite materialize_settled. Qed.

Lemma set_flag_careful m b : has m Flags.FLAG_AC = false -> careful (change (fun c => set_flag c m b)).
Proof.
  intros Hm. apply change_careful. intros c Hc. unfold set_flag. rewrite Flags.set_flag_none by done.
  unfold Flags.set_flag_live. by rewrite Hm.
Qed.

Lemma set_segment_fixed c s r : s <> Cs -> fixed (set_segment c s r) = fixed c.
Proof.
  intros Hs. unfold fixed, set_segment, segment. cbn. rewrite list_lookup_total_insert_ne, length_insert by (by destruct s).
  done.
Qed.

Lemma install_careful s r : s <> Cs -> careful (install s r).
Proof. intros Hs. apply change_careful. intros c Hc. split; [done|by apply set_segment_fixed]. Qed.

End Delivery.

#[export] Hint Resolve set_esp_careful set_sp_careful set_stack_careful set_eflags_careful set_cpl_careful materialize_careful install_careful : obeys.
#[export] Hint Extern 1 (obeys moves nested (change (fun c => set_flag c _ _))) => apply set_flag_careful; reflexivity : obeys.
#[export] Hint Extern 3 (obeys moves nested _) => apply access_careful; solve [auto with obeys] : obeys.
#[export] Hint Extern 1 (nested _ _ (Exc _ _)) => intros ?; split; [done|split; [done|left]] : obeys.
#[export] Hint Extern 1 (nested _ _ (selector_fault _ _)) => intros ?; split; [done|split; [done|left]] : obeys.

Section Transfers.
Context {B : Type} `{PhysicalBus B} `{DataBus B}.
Context (code_wholesale : Z -> Z -> bool) (direct : Z -> BusWidth -> bool).

Abbreviation careful := (obeys (moves (B := B)) nested).

(* ------------------------------------------------------------------ *)
(** ** Stack and segments *)

Lemma push_careful v size : careful (push code_wholesale direct v size).
Proof. unfold push. obey. Qed.
Hint Resolve push_careful : obeys.

Lemma load_real_careful s sel : s <> Cs -> careful (load_segment_real s sel).
Proof. apply install_careful. Qed.
Hint Resolve load_real_careful : obeys.

Lemma load_checked_careful s sel priv : s <> Cs -> careful (load_segment_checked code_wholesale s sel priv).
Proof.
  intros Hs. unfold load_segment_checked. obey. unfold load_segment_real_mode. destruct s; try (by destruct Hs);
    apply change_careful; intros c Hc; (split; [done|by apply set_segment_fixed]).
Qed.

Lemma load_system_careful s sel : s <> Cs -> careful (load_segment_system code_wholesale s sel).
Proof. apply load_checked_careful. Qed.
Hint Resolve load_system_careful : obeys.

Lemma switch_stack_careful level : careful (switch_to_inner_stack code_wholesale level).
Proof.
  unfold switch_to_inner_stack. obey.
Qed.

Hint Resolve switch_stack_careful : obeys.

Lemma push_frame_careful v code source frame f cs ip level v86 crosses :
  careful (push_frame code_wholesale direct v code source frame f cs ip level v86 crosses).
Proof. unfold push_frame. obey. Qed.

(* ------------------------------------------------------------------ *)
(** ** Task switches *)

Lemma save_task_careful : careful (save_task_state code_wholesale).
Proof. unfold save_task_state. obey. Qed.

Lemma set_busy_careful sel busy : careful (set_tss_busy code_wholesale sel busy).
Proof. unfold set_tss_busy. obey. Qed.

Lemma as_task_return_raised kind (s s' : Cpu * B) f : nested s s' f -> nested s s' (as_task_return kind f).
Proof.
  intros Hn. assert (Ho : as_task_return kind f = f \/ exists code, as_task_return kind f = Exc 10 code /\ exists v, f = Exc v code).
  { unfold as_task_return. cases; eauto. }
  destruct Ho as [->|(code & -> & v & ->)]; [done|]. intros Hs. destruct (Hn Hs) as (Hs' & Ef & _).
  split; [done|]. split; [done|]. left. apply list_elem_of_here.
Qed.

(** A failure after the commit point is never an exception for the guest. *)
Lemma committed_fails {A} (m : Exec (Cpu * B) Fault A) : fails nested (map_err fault_after_task_switch_commit m).
Proof. apply fails_map_err. by intros ?? []. Qed.

Lemma committed_last {A} (m : Exec (Cpu * B) Fault A) :
  fails (fun _ s' e => forall s, nested s s' e) (map_err fault_after_task_switch_commit m).
Proof. apply fails_map_err. by intros ?? []. Qed.

(** One step of a sequence whose failures are in question. *)
Ltac careful_step := apply (fails_bind moves nested); [obey|intros ?; cbv beta].

Lemma task_switch_fails sel kind : fails nested (task_switch code_wholesale sel kind).
Proof.
  unfold task_switch. cbv beta zeta.
  assert (Hv : match kind with Return => 10 | _ => 13 end ∈ [10; 11; 12; 13; 14]) by (destruct kind; auto with obeys).
  set (v := match kind with Return => 10 | _ => 13 end) in *. clearbody v.
  careful_step. apply (fails_bind moves nested).
  { apply obeys_map_err; [intros ???; apply as_task_return_raised|]. obey. }
  intros [low high]. cbv beta iota zeta. careful_step. careful_step.
  apply (fails_bind moves nested); [destruct kind; obey|intros ?; cbv beta].
  apply (fails_bind moves nested); [apply save_task_careful|intros ?; cbv beta].
  apply (fails_bind moves nested); [destruct kind; obey; apply set_busy_careful|intros ?; cbv beta]. apply committed_fails.
Qed.

(* ------------------------------------------------------------------ *)
(** ** The delivery *)

Lemma load_cs_fails sel : fails nested (load_segment code_wholesale Cs sel).
Proof.
  unfold load_segment, load_segment_checked. careful_step.
  destruct (is_v86_mode _); [by intros s|]. destruct (is_protected_mode _); [|by intros s].
  apply (fails_bind moves nested); [obey|]. intros r. by intros s.
Qed.

Lemma enter_handler_fails g v86 : fails nested (enter_handler code_wholesale g v86).
Proof.
  unfold enter_handler. careful_step.
  careful_step. apply (fails_bind moves nested); [obey; by apply load_real_careful|intros ?; cbv beta].
  apply fails_last; [apply load_cs_fails|]. by intros ? s.
Qed.

Lemma body_fails v code source : fails nested (deliver_exception_body code_wholesale direct v code source).
Proof.
  unfold deliver_exception_body. careful_step. cbv zeta.
  careful_step. careful_step.
  careful_step. careful_step.
  careful_step. careful_step.
  destruct (_ =? 5).
  - apply fails_last; [apply task_switch_fails|intros ?]. destruct (_ && _); [apply committed_last|by intros s].
  - careful_step. careful_step.
    careful_step. apply (fails_bind moves nested); [obey|intros [tl th]].
    careful_step. apply (fails_bind moves nested); [apply push_frame_careful|intros ?; cbv beta].
    apply enter_handler_fails.
Qed.

(* ------------------------------------------------------------------ *)
(** ** The restore *)

Lemma restore_gprs (g g' : list Z) : <[4%nat := 0]> g' = <[4%nat := 0]> g -> <[4%nat := g !!! 4%nat]> g' = g.
Proof.
  intros E. transitivity (<[4%nat := g !!! 4%nat]> (<[4%nat := 0]> g')); [by rewrite list_insert_insert_eq|].
  rewrite E, list_insert_insert_eq.
  destruct (g !! 4%nat) as [x|] eqn:Ex.
  - rewrite (list_lookup_total_correct _ _ _ Ex). by apply list_insert_id.
  - apply list_insert_ge. by apply lookup_ge_None.
Qed.

Lemma restore_visible entry c : length (segments entry) = 6%nat -> fixed c = fixed entry -> visible (restore entry c) = visible entry.
Proof.
  destruct entry as [[g e p c0 al fm] ip ss l ? ? ? ? ? ? ? ? ? ? ? ?], c as [[g' e' p' c0' al' fm'] ip' ss' l' ? ? ? ? ? ? ? ? ? ? ? ?].
  unfold fixed. cbn. intros Hl [=]. subst.
  do 7 (destruct ss as [|? ss]; try done). do 7 (destruct ss' as [|? ss']; try done).
  unfold visible, restore, esp, set_esp, Alu.read_gpr32, Alu.write_gpr32, Alu.slot, Alu.set_slot. cbn.
  cbn in *. subst. rewrite restore_gprs by done. done.
Qed.

Definition unmoved (entry : Cpu) (s' : Cpu * B) (f : Fault) : Prop :=
  match f with
  | Stop _ => True
  | Exc vector _ => visible s'.1 = visible (materialize_flags entry) /\ may_raise (armed entry) vector
  end.

Lemma materialized c : settled (materialize_flags c) = true /\ armed (materialize_flags c) = armed c /\
  segments (materialize_flags c) = segments c.
Proof.
  unfold settled, armed, materialize_flags. cbn. destruct (Flags.materialize_fields (regs c)) as (_ & _ & ->).
  by rewrite Flags.materialize_none.
Qed.

Lemma inner_spec v code source s s' f : length (segments s.1) = 6%nat ->
  deliver_exception_inner code_wholesale direct v code source s = (s', Err f) -> unmoved s.1 s' f.
Proof.
  destruct s as [c b]. cbn [fst]. intros Hl. unfold deliver_exception_inner. cbn [fst snd]. destruct (materialized c) as (Hs & Ha & Hg).
  pose proof (body_fails v code source (materialize_flags c, b)) as Hb.
  destruct (deliver_exception_body _ _ v code source _) as [[c1 b1] [u|[e|n ncode]]]; [done|destruct e; by intros [= <- <-]|].
  intros [= <- <-]. destruct (Hb Hs) as (_ & Ef & Hv). cbn [fst] in *. rewrite Ha in Hv.
  split; [apply restore_visible; [by rewrite Hg|done]|done].
Qed.

(* ------------------------------------------------------------------ *)
(** ** The ladder *)

(** Alignment checking stays armed or unarmed, and the segments six. *)
Definition stance (c : Cpu) := (armed c, length (segments c)).
Definition same_stance (s s' : Cpu * B) : Prop := stance s'.1 = stance s.1.
Definition stance_fault (s s' : Cpu * B) (f : Fault) : Prop :=
  match f with Stop _ => True | Exc vector _ => same_stance s s' /\ may_raise (armed s.1) vector end.

#[export] Instance stance_absorbs : Absorbs same_stance stance_fault.
Proof.
  unfold same_stance, stance_fault. split; [split; [by intros ?|intros ??? E1 E2; by rewrite E2]|].
  intros s s1 s2 [|v code] E1; [done|]. unfold same_stance, stance. intros [E2 Hv]. injection E1 as E3 E4. rewrite E3 in *. split; congruence.
Qed.

Lemma access_stance {A} (m : Exec (Cpu * B) Fault A) : obeys quiet quiet_fault m -> obeys same_stance stance_fault m.
Proof.
  assert (Hq : forall s s', quiet s s' -> same_stance s s').
  { intros s s' E. unfold same_stance, stance, armed. by destruct (visible_eq _ _ E) as (-> & _ & -> & _). }
  apply obeys_weaken; [done|]. intros s s' [|v code] [E Hr]; [done|]. split; [by apply Hq|done].
Qed.

Lemma change_stance f : (forall c, stance (f c) = stance c) -> obeys same_stance stance_fault (change (B := B) f).
Proof. intros Hf. apply obeys_modify. intros s. apply Hf. Qed.

Lemma push_stance v size : obeys same_stance stance_fault (push code_wholesale direct v size).
Proof.
  unfold push. cbv zeta. apply obeys_bind; [apply _|by apply access_stance, ask_obeys|intros c].
  destruct (stack_is_32bit c); (apply obeys_bind; [apply _|by apply access_stance, write_memory_obeys|intros _]);
    by apply change_stance.
Qed.

Lemma real_fails v : fails stance_fault (real_mode_interrupt code_wholesale direct v).
Proof.
  unfold real_mode_interrupt. apply (obeys_fails same_stance).
  repeat (first [apply push_stance | apply access_stance; solve [auto with obeys] | apply change_stance; intros c
    | apply obeys_bind; [apply _| |intros ?; cbv beta]]).
  - unfold stance, armed. destruct (materialized c) as (_ & E & ->). unfold armed in E. by rewrite E.
  - unfold stance, armed, set_flag. cbn. by rewrite Flags.armed_set_flag.
  - unfold stance, armed, set_segment. cbn. by rewrite length_insert.
Qed.

Lemma real_software_fails v : fails stance_fault (real_mode_software_interrupt code_wholesale direct v).
Proof.
  unfold real_mode_software_interrupt.
  apply (fails_bind same_stance stance_fault); [by apply change_stance|intros ?; cbv beta].
  apply (fails_bind same_stance stance_fault); [apply access_stance; auto with obeys|intros c].
  apply (fails_bind same_stance stance_fault); [apply access_stance; auto with obeys|intros ?; cbv beta]. apply real_fails.
Qed.

(** The six segment registers. *)
Definition six (c : Cpu) : Prop := length (segments c) = 6%nat.

(** An attempt whose exceptions are those of a delivery. *)
Definition attempts (m : Exec (Cpu * B) Fault unit) : Prop := forall s s' f, six s.1 -> m s = (s', Err f) -> stance_fault s s' f.

Lemma inner_attempts v code source : attempts (deliver_exception_inner code_wholesale direct v code source).
Proof.
  intros s s' [e|n ncode] Hl E; [done|]. destruct (inner_spec _ _ _ _ _ _ Hl E) as [Ev Hn]. split; [|done].
  unfold same_stance, stance, armed. destruct (visible_eq _ _ Ev) as (-> & _ & -> & _).
  destruct (materialized s.1) as (_ & Ea & ->). unfold armed in Ea. by rewrite Ea.
Qed.

Lemma fails_attempts m : fails stance_fault m -> attempts m.
Proof. intros Hm s s' f _ E. pose proof (Hm s) as Hs. by rewrite E in Hs. Qed.

Lemma ask_attempts {A} (f : Cpu -> A) (k : A -> Exec (Cpu * B) Fault unit) : (forall a, attempts (k a)) -> attempts (ask f ≫= k).
Proof. intros Hk s s' e Hl. apply (Hk (f s.1) s s' e Hl). Qed.

Lemma interrupt_attempts v code source : attempts (deliver_interrupt code_wholesale direct v code source).
Proof.
  apply ask_attempts. intros c. destruct (negb _); [apply fails_attempts, real_software_fails|apply inner_attempts].
Qed.

Lemma deliver_attempts v code is_external : attempts (deliver_exception code_wholesale direct v code is_external).
Proof. apply interrupt_attempts. Qed.

Lemma hardware_attempts v : attempts (hardware_interrupt code_wholesale direct v).
Proof. apply ask_attempts. intros c. destruct (is_protected_mode c); [apply interrupt_attempts|apply fails_attempts, real_fails]. Qed.

(** The architecture's ladder, without a bound: a fault of the delivery is delivered in
    turn, or becomes a double fault, by the classes of the two; a fault of the double
    fault's delivery shuts the processor down. *)
Inductive ladder (original : Z) : FaultClass -> bool -> Exec (Cpu * B) Fault unit -> Cpu * B -> (Cpu * B) * result Fault unit -> Prop :=
| delivered class dbl m s s' : m s = (s', Ok tt) -> ladder original class dbl m s (s', Ok tt)
| stopped class dbl m s s' e : m s = (s', Err (Stop e)) -> ladder original class dbl m s (s', Err (Stop e))
| shut_down class m s s' v code : m s = (s', Err (Exc v code)) ->
    ladder original class true m s (s', Err (Stop (TripleFault original v)))
| serial class m s s' v code r : m s = (s', Err (Exc v code)) -> escalate_fault class (fault_class v false) = Serial ->
    ladder original (fault_class v false) false (deliver_exception code_wholesale direct v code false) s' r ->
    ladder original class false m s r
| double class m s s' v code r : m s = (s', Err (Exc v code)) -> escalate_fault class (fault_class v false) = DoubleFault ->
    ladder original Contributory true (deliver_exception code_wholesale direct DOUBLE_FAULT_VECTOR (Some 0) false) s' r ->
    ladder original class false m s r.

(** How many more deliveries a chain can have. *)
Definition rank (class : FaultClass) (dbl : bool) : nat :=
  if dbl then 0 else match class with PageFault => 1 | Contributory => 2 | Benign => 3 end.

Lemma raised_class v : may_raise false v -> fault_class v false = Contributory \/ fault_class v false = PageFault.
Proof.
  intros [Hv|[_ ?]]; [|done]. rewrite !elem_of_cons in Hv.
  destruct Hv as [->|[->|[->|[->|[->|Hv]]]]]; [by left..|by right|by apply not_elem_of_nil in Hv].
Qed.

Lemma ladder_sound original n : forall class dbl m s, (rank class dbl <= n)%nat -> six s.1 -> armed s.1 = false -> attempts m ->
  ladder original class dbl m s (escalation_ladder code_wholesale direct n original class dbl m s).
Proof.
  induction n as [|n IH]; intros class dbl m s Hr Hl Ha Hm.
  all: cbn [escalation_ladder]; pose proof (fun s' f => Hm s s' f Hl) as Hf; destruct (m s) as [s' [[]|[e|v code]]] eqn:E;
    [by apply delivered|by apply stopped|]; destruct dbl; [by apply (shut_down original class m s s' v code)|].
  - by destruct class; cbn in Hr; lia.
  - destruct (Hf _ _ eq_refl) as [Hs Hv]. injection Hs as Ea El. rewrite Ha in Ea, Hv. unfold six in *. rewrite Hl in El.
    destruct (escalate_fault class (fault_class v false)) eqn:Ee.
    + apply (serial original class m s s' v code); [done|done|]. apply IH; [|done|done|apply deliver_attempts].
      destruct (raised_class v Hv) as [Ev|Ev]; rewrite Ev in *; destruct class; cbn in *; try done; lia.
    + apply (double original class m s s' v code); [done|done|]. apply IH; [cbn; lia|done|done|apply deliver_attempts].
Qed.

Lemma ladder_no_exception original class dbl m s r : ladder original class dbl m s r -> forall v code, r.2 <> Err (Exc v code).
Proof. by induction 1. Qed.

Lemma ladder_functional original class dbl m s r r' : ladder original class dbl m s r -> ladder original class dbl m s r' -> r = r'.
Proof.
  intros Hl. revert r'. induction Hl as [????? E|?????? E|?????? E|??????? E Ec _ IH|??????? E Ec _ IH]; intros r' Hr;
    inversion Hr; subst; simplify_eq; try congruence; apply IH; congruence.
Qed.

(** C4.  A delivery that faults is undone. When delivering an exception or an interrupt
    through the IDT raises a further exception, every register of the guest is back at
    its value before the delivery (pending flags settled): stack pointer, flags, level,
    all six segments, instruction pointer, control and table registers, through stack
    switches, V86 entries and task gates alike; only CR2 and memory may differ. The
    exception raised is #TS, #NP, #SS, #GP, #PF or, with alignment checking armed, #AC. *)
Theorem delivery_atomic v code source s s' n ncode :
  six s.1 -> deliver_exception_inner code_wholesale direct v code source s = (s', Err (Exc n ncode)) ->
  visible s'.1 = visible (materialize_flags s.1) /\ may_raise (armed s.1) n.
Proof. intros Hl E. exact (inner_spec v code source s s' (Exc n ncode) Hl E). Qed.

(** C3.  Unless alignment checking is armed, the bounded loop of [escalate_delivery] is the
    architecture's ladder: an exception that faults is resolved by the fault classes to a
    delivered handler, a machine stop or the shutdown that only a failing double fault
    causes. The bound of eight escalations is never what ends it, any bound of three or
    more gives the same, and no exception escapes. *)
Theorem escalation_architectural v code is_external s bound :
  six s.1 -> armed s.1 = false -> (3 <= bound)%nat ->
  let run n := escalation_ladder code_wholesale direct n v (fault_class v is_external)
    ((v =? DOUBLE_FAULT_VECTOR) && negb is_external) (deliver_exception code_wholesale direct v code is_external) s in
  let r := deliver_exception_escalating code_wholesale direct v code is_external s in
  ladder v (fault_class v is_external) ((v =? DOUBLE_FAULT_VECTOR) && negb is_external)
    (deliver_exception code_wholesale direct v code is_external) s r /\
  run bound = r /\ forall n ncode, r.2 <> Err (Exc n ncode).
Proof.
  intros Hl Ha Hb run r.
  assert (Hs : forall n, (3 <= n)%nat -> ladder v (fault_class v is_external) ((v =? DOUBLE_FAULT_VECTOR) && negb is_external)
    (deliver_exception code_wholesale direct v code is_external) s (run n)).
  { intros n Hn. apply ladder_sound; [|done|done|apply deliver_attempts]. unfold rank. cases; lia. }
  assert (Hr : ladder v (fault_class v is_external) ((v =? DOUBLE_FAULT_VECTOR) && negb is_external)
    (deliver_exception code_wholesale direct v code is_external) s r) by (apply (Hs 8%nat); lia).
  split; [done|]. split; [exact (ladder_functional _ _ _ _ _ _ _ (Hs bound Hb) Hr)|exact (ladder_no_exception _ _ _ _ _ _ Hr)].
Qed.

End Transfers.

(* ------------------------------------------------------------------ *)
(** ** Concrete deliveries *)

(** Ring 3 with a gate for #GP into ring 0, whose stack in the TSS is null. *)
Definition broken_stack : Cpu * Memory := (processor 1 514 3 1800 1024 18, memory_with [(512 + 13 * 8, interrupt_gate 8 64 0)]).

Lemma delivery_atomic_witness :
  exists s', deliver_exception_inner never_code never_direct 13 (Some 0) Exception broken_stack = (s', Err (Exc 13 (Some 0))) /\
  visible s'.1 = visible (materialize_flags broken_stack.1) /\ may_raise (armed broken_stack.1) 13.
Proof.
  eexists. assert (E : deliver_exception_inner never_code never_direct 13 (Some 0) Exception broken_stack =
    (ltac:(let r := eval vm_compute in (deliver_exception_inner never_code never_direct 13 (Some 0) Exception broken_stack).1 in exact r),
     Err (Exc 13 (Some 0)))) by (vm_compute; reflexivity).
  split; [exact E|]. exact (delivery_atomic never_code never_direct 13 (Some 0) Exception broken_stack _ 13 (Some 0) eq_refl E).
Defined.

Lemma escalation_architectural_witness :
  let r := deliver_exception_escalating never_code never_direct 14 (Some 2) false broken_stack in
  r.2 = Err (Stop (TripleFault 14 11)) /\ ladder never_code never_direct 14 PageFault false
    (deliver_exception never_code never_direct 14 (Some 2) false) broken_stack r.
Proof.
  split; [vm_compute; reflexivity|].
  exact (proj1 (escalation_architectural never_code never_direct 14 (Some 2) false broken_stack 3 eq_refl eq_refl (le_n 3))).
Defined.

(** Ring 3, alignment checking armed, an odd stack pointer, and handlers in ring 3. *)
Definition odd_stack : Cpu * Memory := (processor 262145 262146 3 1797 1024 18,
  memory_with [(512 + 14 * 8, interrupt_gate 27 64 3); (512 + 17 * 8, interrupt_gate 27 64 3)]).

Lemma odd_stack_faults v code : v = 14 \/ v = 17 ->
  deliver_exception never_code never_direct v code false odd_stack = (odd_stack, Err (Exc 17 None)).
Proof. intros [-> | ->]; vm_compute; reflexivity. Qed.

#[local] Opaque odd_stack deliver_exception.

Lemma odd_stack_ladder n : forall class v code, v = 14 \/ v = 17 -> class = PageFault \/ class = Benign ->
  escalation_ladder never_code never_direct n 14 class false (deliver_exception never_code never_direct v code false) odd_stack =
  (odd_stack, Err (Stop (TripleFault 14 17))).
Proof.
  induction n as [|n IH]; intros class v code Hv Hc; cbn [escalation_ladder]; rewrite odd_stack_faults by done; [done|].
  destruct Hc as [-> | ->]; cbn [escalate_fault fault_class]; apply IH; auto.
Qed.

(** On one concrete machine, alignment checking armed, the ladder has no end of its own:
    in [odd_stack] a page fault in ring 3 whose handler runs in ring 3 on a misaligned
    stack raises #AC, a benign fault, and delivering that raises #AC again from the same
    state. No finite run of the architecture's ladder resolves it, and whatever its bound,
    the code's loop uses it up and reports a triple fault without a double fault having
    been delivered. The example behind a finding about the comment on the bound. *)
Lemma alignment_chain_unbounded :
  (forall bound code, escalation_ladder never_code never_direct bound 14 (fault_class 14 false) false
     (deliver_exception never_code never_direct 14 code false) odd_stack = (odd_stack, Err (Stop (TripleFault 14 17)))) /\
  (forall code r, ~ ladder never_code never_direct 14 (fault_class 14 false) false
     (deliver_exception never_code never_direct 14 code false) odd_stack r).
Proof.
  split; [intros bound code; apply odd_stack_ladder; auto|].
  intros code r Hl. cut (forall class dbl m s r, ladder never_code never_direct 14 class dbl m s r -> dbl = false -> s = odd_stack ->
    class = PageFault \/ class = Benign -> (exists v code, (v = 14 \/ v = 17) /\ m = deliver_exception never_code never_direct v code false) -> False).
  { intros Hno. apply (Hno _ _ _ _ _ Hl eq_refl eq_refl (or_introl eq_refl)). exists 14, code. split; [by left|reflexivity]. }
  clear. intros class dbl m s r Hl. induction Hl as [????? E|?????? E|?????? E|??????? E Ec _ IH|??????? E Ec _ _]; intros Hd -> Hc (v' & code' & Hv & ->);
    try done; rewrite odd_stack_faults in E by done; simplify_eq.
  - apply IH; [reflexivity|reflexivity|by right|]. eexists 17, _. split; [by right|reflexivity].
  - by destruct Hc as [-> | ->].
Qed.

End Delivery.
