(* ===== verification/ReturnSound.v ===== *)
(** * What a change of level allows

    Flag loads change exactly the bits the current level may change; a return to an outer
    ring takes the inner ring's data segments away; the checks behind VERR and VERW are
    those of a load; and two far returns that cross inward without a check. *)

From stdpp Require Import gmap.
From S2P Require Import Prelude Clock Memory CpuFlags CpuAlu Tlb Paging PagingSound PagingMemory Exec Segment Access SegLoad Transfer FlatMachine AccessSound.
Import Segment.Core Access.Access SegLoad.Load Transfer.Transfer FlatMachine.Flat AccessSound.Frame.

Module Levels.

(* ------------------------------------------------------------------ *)
(** ** Flag loads *)

(** Bit [n] of EFLAGS may be loaded. *)
Definition writable (c : Cpu) (size : Alu.OperandSize) (allow_vm_load : bool) (n : Z) : bool :=
  (match size with Alu.OWord => n <? 16 | Alu.ODword => true end) &&
  (if (n =? 12) || (n =? 13) then cpl c =? 0 else true) &&
  (if n =? 9 then cpl c <=? iopl c else true) &&
  (if n =? 17 then allow_vm_load else true) &&
  (if n =? 18 then match persona c with Gsw.I386 => false | _ => true end else true) &&
  (if n =? 21 then match persona c with Gsw.I586 => true | _ => false end else true).

(** [(merged & !mask) | (old & mask)] *)
Lemma keep_bits_bit merged old mask n : 0 <= n ->
  Z.testbit (Z.lor (Z.ldiff merged mask) (Z.land old mask)) n = if Z.testbit mask n then Z.testbit old n else Z.testbit merged n.
Proof.
  intros Hn. rewrite Z.lor_spec, Z.ldiff_spec, Z.land_spec. by destruct (Z.testbit mask n), (Z.testbit merged n), (Z.testbit old n).
Qed.

Lemma keep_bits_if (b : bool) merged old mask n : 0 <= n ->
  Z.testbit (if b then Z.lor (Z.ldiff merged mask) (Z.land old mask) else merged) n =
  if b && Z.testbit mask n then Z.testbit old n else Z.testbit merged n.
Proof. intros Hn. destruct b; [by apply keep_bits_bit|done]. Qed.

Lemma single_bit k n : 0 <= k -> 0 <= n -> Z.testbit (2 ^ k) n = (n =? k).
Proof. intros Hk Hn. rewrite Z.pow2_bits_eqb by done. apply Z.eqb_sym. Qed.

Lemma iopl_mask n : 0 <= n -> Z.testbit FLAG_IOPL n = (n =? 12) || (n =? 13).
Proof. intros Hn. change FLAG_IOPL with (Z.lor (2 ^ 12) (2 ^ 13)). by rewrite Z.lor_spec, !single_bit by lia. Qed.

Lemma iopl_bits e e' : (forall n, 12 <= n <= 13 -> Z.testbit e n = Z.testbit e' n) ->
  Z.land (Z.shiftr e 12) 3 = Z.land (Z.shiftr e' 12) 3.
Proof.
  intros He. apply Z.bits_inj'. intros n Hn. rewrite !Z.land_spec, !Z.shiftr_spec by done.
  assert (n <= 1 \/ 2 <= n) as [Hs|Hs] by lia; [rewrite He by lia; done|].
  change 3 with (Z.ones 2). rewrite Z.ones_spec_high by lia. by rewrite !andb_false_r.
Qed.

Lemma iopl_range e : 0 <= Z.land (Z.shiftr e 12) 3.
Proof. apply Z.land_nonneg. by right. Qed.

Lemma start_bit old value size n : u32 old -> 0 <= n ->
  Z.testbit (match size with
    | Alu.OWord => Z.lor (Z.lor (Z.land old 4294901760) (Z.land value 65535)) 2
    | Alu.ODword => Z.lor value 2
    end) n = (n =? 1) || (if match size with Alu.OWord => n <? 16 | Alu.ODword => true end then Z.testbit value n else Z.testbit old n).
Proof.
  intros Ho Hn. destruct size; rewrite Z.lor_spec; change 2 with (2 ^ 1) at 1; rewrite single_bit by lia; [|apply orb_comm].
  rewrite orb_comm, Z.lor_spec, !Z.land_spec. f_equal.
  change 65535 with (Z.ones 16). change 4294901760 with (Z.ldiff (Z.ones 32) (Z.ones 16)). rewrite Z.ldiff_spec.
  destruct (Z.ltb_spec n 16).
  - rewrite (Z.ones_spec_low 16) by lia. by rewrite andb_true_r, andb_false_r, andb_false_r.
  - rewrite (Z.ones_spec_high 16) by lia. rewrite andb_false_r, orb_false_r, andb_true_r.
    destruct (Z.lt_ge_cases n 32); [rewrite Z.ones_spec_low by lia; apply andb_true_r|].
    rewrite (Z.bits_above_log2 old n); [done|destruct Ho; lia|].
    destruct Ho as [Ho1 Ho2]. destruct (Z.eq_dec old 0) as [->|]; [cbn; lia|]. apply Z.log2_lt_pow2; [lia|].
    eapply Z.lt_le_trans; [exact Ho2|]. apply Z.pow_le_mono_r; lia.
Qed.

(** The level that decides about IF is the one before the load. *)
Lemma effective_iopl c m : 0 <= cpl c ->
  let merged := if negb (cpl c =? 0) then Z.lor (Z.ldiff m FLAG_IOPL) (Z.land (eflags c) FLAG_IOPL) else m in
  (Z.land (Z.shiftr merged 12) 3 <? cpl c) = negb (cpl c <=? iopl c).
Proof.
  intros Hc. cbv zeta. pose proof (iopl_range (eflags c)). unfold iopl. destruct (Z.eqb_spec (cpl c) 0) as [E|E]; cbn [negb].
  - pose proof (iopl_range m). rewrite E. lia.
  - rewrite (iopl_bits _ (eflags c)); [lia|]. intros n Hn. rewrite keep_bits_bit, iopl_mask by lia.
    assert (n = 12 \/ n = 13) as [-> | ->] by lia; done.
Qed.

Lemma merge_bit c value size allow n : 0 <= cpl c -> u32 (eflags c) -> 0 <= n ->
  Z.testbit (merge_flags c value size allow) n =
  (n =? 1) || (if writable c size allow n then Z.testbit value n else Z.testbit (eflags c) n).
Proof.
  intros Hc He Hn. unfold merge_flags. cbv zeta. rewrite effective_iopl by done. rewrite keep_bits_bit by done.
  rewrite !keep_bits_if by done. rewrite iopl_mask by done. rewrite start_bit by done.
  change FLAG_IF with (2 ^ 9). change FLAG_VM with (2 ^ 17). rewrite !single_bit by lia.
  assert (Hf : Z.testbit match persona c with Gsw.I386 => Z.lor Flags.FLAG_AC FLAG_ID | Gsw.I486 => FLAG_ID | Gsw.I586 => 0 end n =
    match persona c with Gsw.I386 => (n =? 18) || (n =? 21) | Gsw.I486 => n =? 21 | Gsw.I586 => false end).
  { change Flags.FLAG_AC with (2 ^ 18). change FLAG_ID with (2 ^ 21). destruct (persona c);
      rewrite ?Z.lor_spec, ?single_bit by lia; try done. apply Z.bits_0. }
  rewrite Hf. clear Hf. unfold writable.
  destruct (Z.eqb_spec n 1) as [->|H1]; [cbn; destruct (negb (cpl c =? 0)), (negb (cpl c <=? iopl c)), allow, (persona c), size; reflexivity|].
  destruct (Z.eqb_spec n 9) as [->|H9]; [cbn; destruct (negb (cpl c =? 0)), (cpl c <=? iopl c), allow, (persona c), size; reflexivity|].
  destruct (Z.eqb_spec n 12) as [->|H12]; [cbn; destruct (cpl c =? 0), (negb (cpl c <=? iopl c)), allow, (persona c), size; reflexivity|].
  destruct (Z.eqb_spec n 13) as [->|H13]; [cbn; destruct (cpl c =? 0), (negb (cpl c <=? iopl c)), allow, (persona c), size; reflexivity|].
  destruct (Z.eqb_spec n 17) as [->|H17]; [cbn; destruct (negb (cpl c =? 0)), (negb (cpl c <=? iopl c)), allow, (persona c), size; reflexivity|].
  destruct (Z.eqb_spec n 18) as [->|H18]; [cbn; destruct (negb (cpl c =? 0)), (negb (cpl c <=? iopl c)), allow, (persona c), size; reflexivity|].
  destruct (n =? 21), (n <? 16), (negb (cpl c =? 0)), (negb (cpl c <=? iopl c)), allow, (persona c), size; reflexivity.
Qed.

Lemma merge_vm c value : Z.testbit (merge_flags c value Alu.ODword true) 17 = Z.testbit value 17.
Proof.
  unfold merge_flags. cbv zeta. rewrite keep_bits_bit, !keep_bits_if by lia. rewrite !andb_false_r. change (negb true) with false.
  assert (E : Z.testbit (Z.lor value 2) 17 = Z.testbit value 17) by (rewrite Z.lor_spec; apply orb_false_r).
  rewrite E. by destruct (persona c).
Qed.

Section Levels.
Context {B : Type} `{PhysicalBus B} `{DataBus B}.
Context (code_wholesale : Z -> Z -> bool) (direct : Z -> BusWidth -> bool).

(** C7.  POPF, IRET and their kin change the EFLAGS bits their level owns, and no other.
    Whatever image is loaded, bit 1 reads one; IOPL changes at level 0 only, IF only at a
    level within IOPL, VM only where the caller allows it, AC and ID only on the
    processors that have them, the upper half only in a 32-bit load; every other bit is
    the image's. Alignment checking is armed exactly as the new image and CR0 say, no
    flag computation stays pending, and nothing else changes. *)
Theorem load_flags_exact c (b : B) value size allow : 0 <= cpl c -> u32 (eflags c) ->
  exists c', load_flags value size allow (c, b) = ((c', b), Ok tt) /\
  (forall n, 0 <= n -> Z.testbit (eflags c') n =
     (n =? 1) || (if writable c size allow n then Z.testbit value n else Z.testbit (eflags c) n)) /\
  armed c' = has (cr0 c) Flags.CR0_AM && has (eflags c') Flags.FLAG_AC /\
  c' = c <| regs := Flags.mkCpu (Flags.gpr (regs c)) (eflags c') Flags.no_pending (cr0 c) (armed c') (Flags.flag_materializations (regs c)) |>.
Proof.
  intros Hc He. eexists. split; [reflexivity|]. split; [intros n Hn; by apply merge_bit|]. by split.
Qed.

(* ------------------------------------------------------------------ *)
(** ** Returns to an outer ring *)

(** A register the code at level [level] may use: none, conforming code, or a segment of
    its level or an outer one. *)
Definition usable (level : Z) (r : SegmentRegister) : bool :=
  (Z.land (selector r) 65532 =? 0) || (Z.land (access r) 12 =? 12) || (level <=? dpl_of (access r)).

Definition sealed (c : Cpu) : Prop := forall s, s ∈ [Ds; Es; Fs; Gs] -> usable (cpl c) (segment c s) = true.

Lemma segment_set c s s' r : segment (set_segment c s r) s' =
  if decide (s = s') then (if decide (index s < length (segments c))%nat then r else segment c s') else segment c s'.
Proof.
  unfold segment, set_segment. cbn. destruct (decide (s = s')) as [<-|Hne].
  - destruct (decide _) as [Hl|Hl]; [by apply list_lookup_total_insert_eq|by rewrite list_insert_ge by lia].
  - apply list_lookup_total_insert_ne. by destruct s, s'.
Qed.

Lemma segment_out c s : (length (segments c) <= index s)%nat -> segment c s = null_segment 0.
Proof. intros Hl. unfold segment. by rewrite list_lookup_total_alt, lookup_ge_None_2. Qed.

Lemma invalidate_one c s : cpl (invalidate_segment c s) = cpl c /\
  usable (cpl c) (segment (invalidate_segment c s) s) = true /\
  forall s', s' <> s -> segment (invalidate_segment c s) s' = segment c s'.
Proof.
  unfold invalidate_segment. cbv zeta. destruct (Z.land (selector (segment c s)) 65532 =? 0) eqn:E1.
  { split; [done|]. split; [unfold usable; by rewrite E1|done]. }
  destruct (negb (Z.land (access (segment c s)) 12 =? 12) && (dpl_of (access (segment c s)) <? cpl c)) eqn:E2.
  - split; [done|]. split.
    + rewrite segment_set, decide_True by done. destruct (decide _) as [|Hl]; [done|]. by rewrite segment_out by lia.
    + intros s' Hs. rewrite segment_set, decide_False by congruence. done.
  - split; [done|]. split; [|done]. unfold usable. apply andb_false_iff in E2 as [E2|E2]; bool_prop.
    + by rewrite E2, orb_true_r.
    + apply orb_true_iff. right. by apply Z.leb_le.
Qed.

Lemma invalidate_all l : forall c, cpl (foldl invalidate_segment c l) = cpl c /\
  (forall s, s ∈ l -> usable (cpl c) (segment (foldl invalidate_segment c l) s) = true) /\
  (forall s, s ∉ l -> segment (foldl invalidate_segment c l) s = segment c s).
Proof.
  induction l as [|x l IH]; intros c; cbn [foldl]; [split; [done|]; split; [intros s Hs; by apply not_elem_of_nil in Hs|done]|].
  destruct (IH (invalidate_segment c x)) as (El & Hin & Hout). destruct (invalidate_one c x) as (E1 & Hx & Hne). rewrite E1 in *.
  split; [done|]. split.
  - intros s Hs. destruct (decide (s ∈ l)) as [Hl|Hl]; [by apply Hin|]. rewrite Hout by done.
    apply elem_of_cons in Hs as [->|]; [done|done].
  - intros s [Hs Hl]%not_elem_of_cons. rewrite Hout by done. by apply Hne.
Qed.

Lemma invalidate_sealed c : sealed (invalidate_data_segments_below_cpl c) /\ cpl (invalidate_data_segments_below_cpl c) = cpl c.
Proof.
  destruct (invalidate_all [Ds; Es; Fs; Gs] c) as (El & Hin & _). split; [|exact El]. intros s Hs.
  unfold invalidate_data_segments_below_cpl. rewrite El. by apply Hin.
Qed.

(** The level and the mode. *)
Definition mode (c : Cpu) := (cpl c, cr0 c, Z.testbit (eflags c) 17).
Definition same_mode (s s' : Cpu * B) : Prop := mode s'.1 = mode s.1.
Definition any_fault (_ _ : Cpu * B) (_ : Fault) : Prop := True.

#[export] Instance same_mode_absorbs : Absorbs same_mode any_fault.
Proof. split; [|done]. unfold same_mode. split; [by intros ?|intros ??? E1 E2; by rewrite E2]. Qed.

Abbreviation steady := (obeys same_mode any_fault).

Lemma access_steady {A} (m : Exec (Cpu * B) Fault A) : obeys quiet quiet_fault m -> steady m.
Proof.
  apply obeys_weaken; [|done]. intros s s' E. unfold same_mode, mode, cr0, eflags. by destruct (visible_eq _ _ E) as (-> & _ & _ & -> & _).
Qed.

Lemma change_steady f : (forall c, mode (f c) = mode c) -> steady (change (B := B) f).
Proof. intros Hf. apply obeys_modify. intros s. apply Hf. Qed.

Lemma mode_protected c c' : mode c' = mode c -> is_protected_task c' = is_protected_task c.
Proof.
  unfold mode. intros [[_ E2]%pair_eq E3]%pair_eq. unfold is_protected_task, is_v86_mode, is_protected_mode. rewrite E2.
  change FLAG_VM with (bit 17). by rewrite !has_bit, E3 by lia.
Qed.

Lemma pop_steady size : steady (pop code_wholesale size).
Proof.
  unfold pop. cbv zeta. apply obeys_bind; [apply _|by apply access_steady, ask_obeys|intros c].
  destruct (stack_is_32bit c); (apply obeys_bind; [apply _|by apply access_steady, read_memory_obeys|intros v]);
    (apply obeys_bind; [apply _|by apply change_steady|intros ?; apply obeys_ret, _]).
Qed.

Lemma load_steady s sel priv : steady (load_segment_checked code_wholesale s sel priv).
Proof.
  unfold load_segment_checked. apply obeys_bind; [apply _|by apply access_steady, ask_obeys|intros c].
  destruct (is_v86_mode c); [by apply change_steady|]. destruct (is_protected_mode c).
  - apply obeys_bind; [apply _|by apply access_steady, load_protected_obeys|intros r]. by apply change_steady.
  - unfold load_segment_real_mode. destruct s; by apply change_steady.
Qed.

Lemma load_flags_steady value size : steady (load_flags value size false).
Proof.
  apply change_steady. intros c. apply (f_equal2 pair); [done|].
  change (Z.testbit (merge_flags c value size false) 17 = Z.testbit (eflags c) 17). unfold merge_flags. cbv zeta. rewrite keep_bits_bit by lia.
  assert (Hv : forall m, Z.testbit (if negb false then Z.lor (Z.ldiff m FLAG_VM) (Z.land (eflags c) FLAG_VM) else m) 17 = Z.testbit (eflags c) 17).
  { intros m. cbn [negb]. by rewrite keep_bits_bit by lia. }
  rewrite Hv. by destruct (Z.testbit (match persona c with Gsw.I386 => _ | _ => _ end) 17).
Qed.

(** What a return does when it ends well: it seals, or does not go outwards, or enters V86. *)
Definition inward_or_sealed (c c' : Cpu) : Prop := sealed c' \/ cpl c' <= cpl c \/ is_v86_mode c' = true.

Lemma steady_bind {A C} (m : Exec (Cpu * B) Fault A) (f : A -> Exec (Cpu * B) Fault C) s s' r : steady m ->
  (m ≫= f) s = (s', Ok r) -> exists s1 a, mode s1.1 = mode s.1 /\ f a s1 = (s', Ok r).
Proof.
  intros Hm (s1 & a & E & Ef)%bind_Ok_inv. exists s1, a. split; [|done]. exact (obeys_Ok _ _ _ _ _ _ Hm E).
Qed.

Ltac steady_step E c :=
  apply steady_bind in E as (? & c & ? & E);
  [|first [apply pop_steady|apply load_steady|apply load_flags_steady|by apply change_steady|by apply access_steady, ask_obeys]].

(** The same-level arm of a return: the level becomes the landing level or stays. *)
Lemma landing_inward c0 c c1 cs : is_protected_task c0 = true -> mode c = mode c0 -> mode c1 = mode c ->
  is_protected_task c && (cpl c <? rpl cs) = false -> landing_level c1 cs <= cpl c0.
Proof.
  intros Hp Hm Hm1 Hl. rewrite <-(mode_protected _ _ Hm) in Hp. rewrite Hp in Hl. cbn [andb] in Hl. bool_prop.
  rewrite <-(mode_protected _ _ Hm1) in Hp. unfold landing_level. unfold is_protected_task in Hp. bool_prop.
  apply pair_eq in Hm as [[Hm _]%pair_eq _]. rewrite H1, H2. cbn [negb]. lia.
Qed.

Ltac look E c := let Ea := fresh in apply bind_Ok_inv in E as (? & c & Ea & E); injection Ea as <- <-.

Lemma return_far_inward size release s s' : is_protected_task s.1 = true ->
  return_far_body code_wholesale size release s = (s', Ok tt) -> inward_or_sealed s.1 s'.1.
Proof.
  unfold return_far_body. intros Hp E. steady_step E offset. steady_step E sel. cbv zeta in E. look E c.
  destruct (is_protected_task _ && (_ <? _)) eqn:Hl.
  - repeat (apply bind_Ok_inv in E as (? & ? & _ & E)). left. injection E as <-. apply invalidate_sealed.
  - right. left. steady_step E u. steady_step E u'. injection E as <-.
    eapply (landing_inward s.1); [exact Hp| |etransitivity; [|]|exact Hl]; try eassumption. congruence.
Qed.

Lemma iret_word_inward s s' : is_protected_task s.1 = true ->
  iret_word code_wholesale s = (s', Ok tt) -> inward_or_sealed s.1 s'.1.
Proof.
  unfold iret_word. intros Hp E. steady_step E ip. steady_step E cs. cbv zeta in E. steady_step E flags. look E c.
  destruct (is_protected_task _ && (_ <? _)) eqn:Hl.
  - repeat (apply bind_Ok_inv in E as (? & ? & _ & E)). left. injection E as <-. apply invalidate_sealed.
  - right. left. steady_step E u. steady_step E u'. steady_step E u''. injection E as <-.
    eapply (landing_inward s.1); [exact Hp| | |exact Hl]; congruence.
Qed.

Lemma iret_dword_inward s s' : is_protected_task s.1 = true ->
  iret_dword code_wholesale s = (s', Ok tt) -> inward_or_sealed s.1 s'.1.
Proof.
  unfold iret_dword. intros Hp E. look E c0. steady_step E target. steady_step E cs. cbv zeta in E. steady_step E flags. look E c.
  destruct (_ && has flags FLAG_VM) eqn:Hv.
  - bool_prop. destruct (65535 <? target). { by apply bind_Ok_inv in E as (? & ? & _ & E). }
    right. right. unfold iret_to_v86 in E. steady_step E sp. steady_step E ss. steady_step E es. steady_step E ds.
    steady_step E fs. steady_step E gs. injection E as <-.
    match goal with |- context [merge_flags ?c0 flags _ _] => set (c := c0) in * end.
    change (is_protected_mode c && has (merge_flags c flags Alu.ODword true) FLAG_VM = true).
    assert (Hm : mode c = mode s.1) by congruence. apply mode_protected in Hm. rewrite Hp in Hm. unfold is_protected_task in Hm.
    apply andb_prop in Hm as [-> _]. change FLAG_VM with (bit 17) in *. rewrite has_bit in * by lia. by rewrite merge_vm.
  - destruct (is_protected_task _ && (_ <? _)) eqn:Hl.
    + repeat (apply bind_Ok_inv in E as (? & ? & _ & E)). left. injection E as <-. apply invalidate_sealed.
    + right. left. steady_step E u. steady_step E u'.
      assert (Hm : mode s'.1 = mode s.1).
      { pose proof (obeys_Ok _ _ _ _ _ _ (load_flags_steady flags Alu.ODword) E) as Hs. unfold same_mode in Hs. congruence. }
      apply pair_eq in Hm as [[Hm _]%pair_eq _]. lia.
Qed.

Lemma restoring_Ok (m : Exec (Cpu * B) Fault unit) s s' : restoring_esp m s = (s', Ok tt) -> m s = (s', Ok tt).
Proof. unfold restoring_esp. destruct (m s) as [[c b] [[]|f]]; [done|]. by intros [=]. Qed.

(** C6.  An outward return takes the inner ring's data away. When an IRET or a far RET of
    protected-mode code ends well at a numerically higher level, DS, ES, FS and GS each hold
    a null selector, conforming code, or a segment whose level the new one may use. (IRET
    of a nested task, which is a task switch, and entries into V86, whose segments are
    reloaded, are not returns of this kind.) *)
Theorem outer_return_seals s s' size release : is_protected_task s.1 = true ->
  (has (eflags s.1) FLAG_NT = false /\ iret code_wholesale size s = (s', Ok tt) \/
   return_far code_wholesale size release s = (s', Ok tt)) ->
  cpl s.1 < cpl s'.1 -> is_v86_mode s'.1 = false -> sealed s'.1.
Proof.
  intros Hp Hr Hc Hv. assert (Hi : inward_or_sealed s.1 s'.1); [|destruct Hi as [|[|]]; [done|lia|congruence]].
  destruct Hr as [[Hn E]|E]; apply restoring_Ok in E; [|by apply (return_far_inward size release)].
  unfold iret_body in E. look E c. rewrite Hn, andb_false_r in E. destruct size; [by apply iret_word_inward|by apply iret_dword_inward].
Qed.

(* ------------------------------------------------------------------ *)
(** ** VERR and VERW *)

(** The register whose load VERR or VERW predicts. *)
Definition predicted (write : bool) : SegmentIndex := if write then Ss else Ds.

(** The checks of [load_protected_segment], in their order. *)
Definition load_checks (c : Cpu) (s : SegmentIndex) (sel acc : Z) : option Z :=
  if negb (type_legal s acc) then Some 13
  else if negb (privilege_legal c s sel acc true) then Some 13
  else if negb (has acc 128) then Some (if is_ss s then 12 else 11)
  else None.

(** What [verify_segment] decides from a descriptor. *)
Definition verdict (c : Cpu) (sel acc : Z) (write : bool) : bool :=
  let type := Z.land acc 15 in
  let is_code := has type 8 in
  let privilege_ok := Z.max (cpl c) (rpl sel) <=? dpl_of acc in
  has acc 128 && has acc 16 &&
  (if write then negb is_code && has type 2 && privilege_ok
   else (if is_code then has type 2 else true) && ((is_code && has type 4) || privilege_ok)).

Lemma verdict_checks c sel acc write :
  verdict c sel acc write = match load_checks c (predicted write) sel acc with None => true | Some _ => false end.
Proof.
  unfold verdict, load_checks, type_legal, privilege_legal, conforming_code, predicted. cbv zeta. rewrite Z.leb_antisym.
  destruct write; cbn [is_cs is_ss negb andb];
    destruct (has acc 128), (has acc 16), (has (Z.land acc 15) 8), (has (Z.land acc 15) 2), (has (Z.land acc 15) 4),
      (dpl_of acc <? Z.max (cpl c) (rpl sel)); reflexivity.
Qed.

Lemma load_checks_fault c s sel acc v : load_checks c s sel acc = Some v -> v ∈ [11; 12; 13].
Proof.
  unfold load_checks. cases; intros [=]; subst; listed.
Qed.

(** The last steps of a load that passed. *)
Definition finish_load (sel address low high : Z) : Exec (Cpu * B) Fault SegmentRegister :=
  (if negb (has (access_of high) 1)
   then write_system_linear code_wholesale (wrap 32 (address + 5)) Byte (Z.lor (access_of high) 1) else mret tt);;
  mret (descriptor_to_segment sel low high).

Lemma ask_bind {A C} (f : Cpu -> A) (k : A -> Exec (Cpu * B) Fault C) s : (ask f ≫= k) s = k (f s.1) s.
Proof. done. Qed.

Lemma demand_bind {C} b e (k : unit -> Exec (Cpu * B) Fault C) s : (demand b e ≫= k) s = if b then k tt s else (s, Err e).
Proof. by destruct b. Qed.

Lemma bind_Err {A C} (m : Exec (Cpu * B) Fault A) (k : A -> Exec (Cpu * B) Fault C) s s' e : m s = (s', Err e) -> (m ≫= k) s = (s', Err e).
Proof. unfold mbind, exec_bind. by intros ->. Qed.

Definition names_none (c : Cpu) (sel : Z) : bool :=
  (negb (in_ldt sel) && (table_index sel =? 0)) || ((table_of c sel).2 <? table_index sel + 7).
Definition descriptor_address (c : Cpu) (sel : Z) : Z := wrap 32 ((table_of c sel).1 + table_index sel).

Lemma load_spec seg sel s : (Z.land sel 65532 =? 0) && negb (is_cs_or_ss seg) = false ->
  load_protected_segment code_wholesale seg sel true s =
  if names_none s.1 sel then (s, Err (selector_fault 13 sel))
  else match read_descriptor_at code_wholesale (descriptor_address s.1 sel) s with
       | (s1, Err f) => (s1, Err f)
       | (s1, Ok (low, high)) =>
           match load_checks s1.1 seg sel (access_of high) with
           | Some v => (s1, Err (selector_fault v sel))
           | None => finish_load sel (descriptor_address s.1 sel) low high s1
           end
       end.
Proof.
  intros Hn. unfold load_protected_segment, names_none, descriptor_address. rewrite Hn, ask_bind. cbn [id].
  destruct (table_of s.1 sel) as [t_base t_limit]. cbv zeta. rewrite demand_bind, (andb_comm (_ =? 0)). cbn [fst snd].
  destruct (_ || _); [done|]. cbn [negb].
  destruct (read_descriptor_at _ _ s) as [s1 [[low high]|f]] eqn:E; [|by rewrite (bind_Err _ _ _ _ _ E)].
  rewrite (bind_Ok _ _ _ _ _ E). cbv zeta beta iota. rewrite demand_bind. unfold load_checks.
  destruct (type_legal _ _); [|done]. cbn [negb]. rewrite ask_bind, demand_bind. cbn [id].
  destruct (privilege_legal _ _ _ _ _); [|done]. cbn [negb]. rewrite demand_bind. by destruct (has (access_of high) 128).
Qed.

Lemma verify_spec sel write s : verify_segment code_wholesale sel write s =
  if names_none s.1 sel then (s, Ok false)
  else match read_descriptor_at code_wholesale (descriptor_address s.1 sel) s with
       | (s1, Err f) => (s1, Err f)
       | (s1, Ok (_, high)) => (s1, Ok (verdict s1.1 sel (access_of high) write))
       end.
Proof.
  assert (Ht : try_read_descriptor code_wholesale sel s =
    if names_none s.1 sel then (s, Ok None)
    else match read_descriptor_at code_wholesale (descriptor_address s.1 sel) s with
         | (s1, Err f) => (s1, Err f)
         | (s1, Ok d) => (s1, Ok (Some d))
         end).
  { unfold try_read_descriptor, names_none, descriptor_address. rewrite ask_bind. cbn [id].
    destruct (table_of s.1 sel) as [t_base t_limit]. cbn [fst snd]. cbv zeta.
    destruct (negb _ && _); [done|]. by destruct (_ <? _). }
  unfold verify_segment, mbind, exec_bind. rewrite Ht. clear Ht. destruct (names_none s.1 sel); [done|].
  destruct (read_descriptor_at _ _ s) as [s1 [[low high]|f]]; [|done]. unfold ask, gets. cbn [id]. cbv zeta. unfold verdict. cbv zeta.
  by destruct (has (access_of high) 128), (has (access_of high) 16).
Qed.

(** C21.  VERR and VERW predict a load. Reading the same descriptor, VERR answers yes exactly
    when a load of DS with that selector passes every check, and VERW exactly when a load
    of SS does, at every level and for every descriptor; what then remains of the load is
    the write of the accessed bit. When they answer no the load raises #NP, #SS or #GP with
    the selector, and when the descriptor cannot be read both fail alike. (A null selector
    answers no to VERR but is loaded into DS without a check.) *)
Theorem verify_predicts_load sel write s : write = true \/ Z.land sel 65532 <> 0 ->
  match verify_segment code_wholesale sel write s with
  | (s1, Ok true) => exists address low high,
      load_protected_segment code_wholesale (predicted write) sel true s = finish_load sel address low high s1
  | (s1, Ok false) => exists v, v ∈ [11; 12; 13] /\
      load_protected_segment code_wholesale (predicted write) sel true s = (s1, Err (selector_fault v sel))
  | (s1, Err f) => load_protected_segment code_wholesale (predicted write) sel true s = (s1, Err f)
  end.
Proof.
  intros Hw. rewrite verify_spec, load_spec.
  2:{ destruct write; [by rewrite andb_false_r|]. destruct Hw as [|Hw]; [done|]. by apply Z.eqb_neq in Hw as ->. }
  destruct (names_none s.1 sel).
  { exists 13. split; [listed|done]. }
  destruct (read_descriptor_at _ _ s) as [s1 [[low high]|f]]; [|done]. rewrite verdict_checks.
  pose proof (load_checks_fault s1.1 (predicted write) sel (access_of high)) as Hf.
  destruct (load_checks _ _ _ _) as [v|]; [by exists v; auto|]. by exists (descriptor_address s.1 sel), low, high.
Qed.

End Levels.

(* ------------------------------------------------------------------ *)
(** ** Concrete returns *)

(** Ring 3, its stack at 1792 holding the given words. *)
Definition user (words : list Z) (width : nat) : Cpu * Memory :=
  (processor 1 514 3 1792 1024 18, memory_with [(1792, concat (map (le_bytes width) words))]).

(** Ring 0, with a frame that leads to ring 3. *)
Definition kernel : Cpu * Memory :=
  (processor 1 2 0 1792 1024 18, memory_with [(1792, concat (map (le_bytes 4) [64; 27; 514; 1900; 35]))]).

Lemma load_flags_exact_witness :
  let c := (user [] 4).1 in
  (0 <= cpl c /\ u32 (eflags c)) /\
  exists c', load_flags 146647 Alu.ODword false (c, (user [] 4).2) = ((c', (user [] 4).2), Ok tt) /\
  eflags c' = 3799 /\
  (forall n, 0 <= n -> Z.testbit (eflags c') n =
     (n =? 1) || (if writable c Alu.ODword false n then Z.testbit 146647 n else Z.testbit (eflags c) n)).
Proof.
  cbv zeta. assert (Hw : 0 <= cpl (user [] 4).1 /\ u32 (eflags (user [] 4).1)) by (split; [vm_compute; discriminate|split; [vm_compute; discriminate|reflexivity]]).
  split; [exact Hw|].
  destruct (load_flags_exact (user [] 4).1 (user [] 4).2 146647 Alu.ODword false (proj1 Hw) (proj2 Hw)) as (c' & E & Hb & _).
  exists c'. split; [exact E|]. split; [|exact Hb].
  apply (f_equal (fun r => eflags r.1.1)) in E. etransitivity; [symmetry; exact E|]. vm_compute; reflexivity.
Defined.

Lemma outer_return_seals_witness :
  exists s', iret never_code Alu.ODword kernel = (s', Ok tt) /\ sealed s'.1 /\ cpl s'.1 = 3 /\ selector (segment s'.1 Ds) = 0.
Proof.
  eexists. assert (E : iret never_code Alu.ODword kernel =
    (ltac:(let r := eval vm_compute in (iret never_code Alu.ODword kernel).1 in exact r), Ok tt)) by (vm_compute; reflexivity).
  split; [exact E|]. split; [|split; reflexivity].
  apply (outer_return_seals never_code never_direct kernel _ Alu.ODword 0); [reflexivity|left; split; [reflexivity|exact E]|reflexivity|reflexivity].
Defined.

Lemma verify_predicts_load_witness :
  exists s1 address low high, verify_segment never_code 35 true (user [] 4) = (s1, Ok true) /\
  load_protected_segment never_code Ss 35 true (user [] 4) = finish_load never_code 35 address low high s1.
Proof.
  pose proof (verify_predicts_load never_code 35 true (user [] 4) (or_introl eq_refl)) as H.
  assert (E : verify_segment never_code 35 true (user [] 4) = (user [] 4, Ok true)) by (vm_compute; reflexivity).
  rewrite E in H. destruct H as (address & low & high & H). exists (user [] 4), address, low, high. split; [exact E|exact H].
Defined.

(** A far return inward is not refused. Ring-3 code that pushes the ring-0 code selector
    and executes a far RET, or a 16-bit IRET, continues at level 0: the arm for a return
    to the same level takes the level of the selector, and nothing compares it with the
    current one. *)
Theorem inward_return_unchecked :
  (let '((c, _), r) := return_far never_code Alu.ODword 0 (user [64; 8] 4) in
   r = Ok tt /\ cpl (user [64; 8] 4).1 = 3 /\ cpl c = 0 /\ eip c = 64) /\
  (let '((c, _), r) := iret never_code Alu.OWord (user [64; 8; 514] 2) in
   r = Ok tt /\ cpl (user [64; 8; 514] 2).1 = 3 /\ cpl c = 0 /\ eip c = 64).
Proof. vm_compute. done. Qed.

(** Ring 3, a call gate (48) into ring 0, and an inner stack (40) of 16 bytes whose pointer
    in the TSS lies outside it. *)
Definition gated : Cpu * Memory := (processor 1 514 3 1792 1024 18,
  memory_with [(296, le_bytes 4 15 ++ le_bytes 4 4231936); (304, le_bytes 4 (8 * 65536 + 64) ++ le_bytes 4 60416);
               (1536, le_bytes 4 0 ++ le_bytes 4 256 ++ le_bytes 4 40)]).

(** A far CALL through a gate that faults is not undone. When the first push on the
    inner stack raises #SS, the processor is left at level 0 with the inner SS and ESP,
    while CS and EIP are still the ring-3 caller's: the exception is then delivered as if
    ring 0 had been interrupted. Deliveries through the IDT restore these registers; far
    calls do not. *)
Theorem gate_fault_keeps_inner_level :
  let '((c, _), r) := far_call never_code never_direct 51 0 Alu.ODword gated in
  r = Err (Exc 12 (Some 0)) /\ cpl gated.1 = 3 /\ cpl c = 0 /\ selector (segment c Ss) = 40 /\ esp c = 256 /\
  selector (segment c Cs) = selector (segment gated.1 Cs) /\ eip c = eip gated.1.
Proof. vm_compute. done. Qed.

(** Ring 0 at EIP 0x11000, returning to ring 3 on a stack segment (40) that is not present,
    with a handler for #SS. *)
Definition far_kernel : Cpu * Memory := (processor 1 2 0 1792 69632 18,
  memory_with [(1792, concat (map (le_bytes 4) [64; 27; 514; 1900; 43])); (296, le_bytes 4 65535 ++ le_bytes 4 (13565952 + 115 * 256));
               (512 + 12 * 8, interrupt_gate 8 64 0)]).

(** The instruction, then the exception arm of its end. *)
Definition iret_faulting (size : Alu.OperandSize) (s : Cpu * Memory) : (Cpu * Memory) * result Fault unit :=
  match iret never_code size s with
  | (s1, Err (Exc vector code)) =>
      fault_instruction never_code never_direct (eip s.1) (selector (segment s.1 Cs)) vector code s1
  | r => r
  end.

(** A fault in the stack segment of an outward IRET loses the high half of EIP. CS has
    been loaded by then, so the rewind reinstalls the old selector as a real-mode segment;
    that is a 16-bit code segment, and the exception frame records the interrupted EIP
    truncated to 16 bits: a handler that brings the stack in and returns does not come
    back to the IRET. *)
Theorem outer_return_fault_truncates_eip :
  (iret never_code Alu.ODword far_kernel).2 = Err (Exc 12 (Some 40)) /\ eip far_kernel.1 = 69632 /\
  (let '((c, m), r) := iret_faulting Alu.ODword far_kernel in
   r = Ok tt /\ eip c = 64 /\ read_u32 m (esp c) = Ok 40 /\ read_u32 m (esp c + 4) = Ok 4096 /\ read_u32 m (esp c + 8) = Ok 8).
Proof. vm_compute. done. Qed.

End Levels.
