(* ===== verification/InterruptReturn.v ===== *)
(** * Interrupts and returns in real mode

    INT and IRET are inverse: after the three pushes of a real-mode interrupt, IRET from any
    state with the same stack returns to the interrupted instruction with its flags. *)

From stdpp Require Import gmap.
From S2P Require Import Prelude Clock Memory CpuFlags CpuAlu Tlb Paging PagingSound PagingMemory Exec Segment Access SegLoad Transfer FlatMachine AccessSound ReturnSound.
Import Segment.Core Access.Access SegLoad.Load Transfer.Transfer FlatMachine.Flat AccessSound.Frame ReturnSound.Levels.

Module RealMode.

(* ------------------------------------------------------------------ *)
(** ** Words in memory *)

Definition wrote (m : Memory) (a v : Z) (m' : Memory) : Prop :=
  memory_len m' = memory_len m /\ read_u16 m' a = Ok (wrap 16 v) /\
  forall b, 0 <= b -> b + 2 <= a \/ a + 2 <= b -> read_u16 m' b = read_u16 m b.

Lemma read_u16_ext m m' a : read_u8 m' a = read_u8 m a -> read_u8 m' (a + 1) = read_u8 m (a + 1) -> read_u16 m' a = read_u16 m a.
Proof. unfold read_u16. by intros -> ->. Qed.

Lemma write_word m a v : 0 <= a -> a + 2 <= memory_len m ->
  exists m', OnMemory.memory_write m a Word v = (m', Ok tt) /\ wrote m a v m'.
Proof.
  intros Ha Hl. destruct (OnMemory.write_in_range m a Word v Ha Hl) as (m' & E & El & Hr). exists m'. split; [done|].
  split; [done|]. split.
  - unfold read_u16. rewrite !Hr by lia. rewrite !(proj2 (Z.leb_le _ _)) by lia.
    replace (a - a) with 0 by lia. replace (a + 1 - a) with 1 by lia. cbn. f_equal. unfold wrap.
    change (2 ^ 16) with (256 * 256). rewrite Z.rem_mul_r by lia. lia.
  - intros b Hb Hap. apply read_u16_ext; rewrite Hr by lia.
    + destruct (OnMemory.image Word v !! Z.to_nat (b - a)) eqn:Ei; [|done]. apply lookup_lt_Some in Ei. change (length (OnMemory.image Word v)) with 2%nat in Ei.
      destruct (Z.leb_spec a b); [lia|done].
    + destruct (OnMemory.image Word v !! Z.to_nat (b + 1 - a)) eqn:Ei; [|done]. apply lookup_lt_Some in Ei. change (length (OnMemory.image Word v)) with 2%nat in Ei.
      destruct (Z.leb_spec a (b + 1)); [lia|done].
Qed.

(* ------------------------------------------------------------------ *)
(** ** The stack pointer *)

Lemma sp_read r v : length (Flags.gpr r) = 8%nat -> u16 v -> Alu.read_gpr16 (Alu.write_gpr16 r 4 v) 4 = v.
Proof.
  intros Hl Hv. unfold Alu.read_gpr16, Alu.write_gpr16, Alu.slot, Alu.set_slot. change (Z.to_nat (Z.land 4 7)) with 4%nat.
  cbn [Flags.gpr update]. rewrite list_lookup_total_insert_eq by lia. unfold wrap. rewrite <-Z.land_ones by lia.
  apply Z.bits_inj'. intros n Hn. rewrite Z.land_spec, Z.lor_spec, Z.land_spec.
  change 4294901760 with (Z.ldiff (Z.ones 32) (Z.ones 16)). rewrite Z.ldiff_spec.
  destruct (Z.lt_ge_cases n 16).
  - rewrite (Z.ones_spec_low 16) by lia. by rewrite !andb_false_r, andb_true_r.
  - rewrite (Z.ones_spec_high 16) by lia. rewrite andb_false_r. rewrite <-(wrap_id 16 v Hv). unfold wrap.
    by rewrite Z.mod_pow2_bits_high by lia.
Qed.

Lemma sp_write_write r v w : u16 v -> Alu.write_gpr16 (Alu.write_gpr16 r 4 v) 4 w = Alu.write_gpr16 r 4 w.
Proof.
  intros Hv. unfold Alu.write_gpr16, Alu.slot, Alu.set_slot. change (Z.to_nat (Z.land 4 7)) with 4%nat.
  destruct r as [g ? ? ? ? ?]. cbn [Flags.gpr update].
  f_equal. rewrite list_insert_insert_eq. destruct (decide (4 < length g)%nat) as [Hl|Hl]; [|by rewrite !list_insert_ge by lia].
  rewrite list_lookup_total_insert_eq by done. f_equal. f_equal. apply Z.bits_inj'. intros n Hn.
  rewrite !Z.land_spec, Z.lor_spec, Z.land_spec.
  change 4294901760 with (Z.ldiff (Z.ones 32) (Z.ones 16)). rewrite Z.ldiff_spec.
  destruct (Z.lt_ge_cases n 16).
  - rewrite (Z.ones_spec_low 16) by lia. by rewrite !andb_false_r.
  - rewrite <-(wrap_id 16 v Hv). unfold wrap. rewrite Z.mod_pow2_bits_high by lia. rewrite orb_false_r.
    by rewrite <-andb_assoc, andb_diag.
Qed.

(* ------------------------------------------------------------------ *)
(** ** Pushes and pops *)

(** Real mode with paging off and a 64 KiB stack in RAM. *)
Record real_stack (c : Cpu) (m : Memory) : Prop := mk_real_stack {
  rs_mode : is_protected_mode c = false;
  rs_paging : is_paging_enabled c = false;
  rs_level : cpl c = 0;
  rs_width : stack_is_32bit c = false;
  rs_gprs : length (Flags.gpr (regs c)) = 8%nat;
  rs_base : 0 <= base (segment c Ss);
  rs_limit : 65535 <= limit (segment c Ss);
  rs_ram : base (segment c Ss) + 65536 <= memory_len m;
  rs_size : memory_len m <= 2 ^ 32
}.

Lemma real_stack_visible c c' m m' : real_stack c m -> visible c' = visible c -> memory_len m' = memory_len m -> real_stack c' m'.
Proof.
  intros [] Ev El. destruct (visible_eq _ _ Ev) as (E1 & _ & E3 & E4 & _).
  split; unfold is_protected_mode, is_paging_enabled, cr0, stack_is_32bit, segment in *; rewrite ?E1, ?E3, ?E4, ?El; done.
Qed.

Lemma stack_range c m o write : real_stack c m -> 0 <= o < 65535 ->
  segment_linear_range c Ss o 2 write = Ok (base (segment c Ss) + o).
Proof.
  intros [] Ho. unfold segment_linear_range, check_segment_access_kind, expand_down. rewrite rs_mode0. cbn [negb orb andb].
  set (d := segment c Ss) in *. destruct ((base d =? 0) && _) eqn:E; [bool_prop; by rewrite H, Z.add_0_l|].
  assert (Hs : saturate 32 (o + (2 - 1)) = o + 1) by (unfold saturate; widths; lia). rewrite Hs.
  rewrite !(proj2 (Z.leb_le _ _)) by lia. cbn [andb negb]. f_equal. apply wrap_id. split; [lia|widths; lia].
Qed.

Section RealMode.
Context (code_wholesale : Z -> Z -> bool) (direct : Z -> BusWidth -> bool).

Lemma translate_flat linear write accessor c (m : Memory) : is_paging_enabled c = false ->
  exists c', translate code_wholesale linear write accessor (c, m) = ((c', m), Ok linear).
Proof.
  intros Hp. unfold translate, Paging.translate_linear_checked. cbn [fst snd].
  change (Paging.is_paging_enabled (mmu c)) with (is_paging_enabled c). rewrite Hp. cbn [negb]. by eexists.
Qed.

Lemma guest_store_ram physical v c m m' : OnMemory.memory_write m physical Word v = (m', Ok tt) ->
  exists c', guest_store code_wholesale direct physical Word v (c, m) = ((c', m'), Ok tt).
Proof.
  intros E. assert (Hs : forall c, store physical Word v (c, m) = ((c, m'), Ok tt)).
  { intros c0. unfold store. cbn [fst snd]. change (bus_write m physical Word v) with (OnMemory.memory_write m physical Word v). by rewrite E. }
  unfold guest_store. destruct (direct _ _).
  - rewrite (bind_Ok (changes physical Word v) _ (c, m) (c, m) _ eq_refl), (bind_Ok _ _ _ _ _ (Hs c)).
    destruct (match (bus_load (c, m).2 physical Word).2 with Ok _ => _ | Err _ => _ end); by eexists.
  - unfold note_code_write. rewrite (bind_Ok (change _) _ (c, m) (_, m) tt eq_refl). eexists. apply Hs.
Qed.

Lemma aligned c (m : Memory) o w : cpl c = 0 -> check (fun c => check_alignment c o w) (c, m) = ((c, m), Ok tt).
Proof. intros Hc. unfold check, check_alignment. cbn [fst]. rewrite Hc. by destruct (_ || _). Qed.

Lemma write_stack c m o v : real_stack c m -> 0 <= o < 65535 ->
  exists c' m', write_memory_sized code_wholesale direct Ss o Alu.OWord v (c, m) = ((c', m'), Ok tt) /\
    visible c' = visible c /\ wrote m (base (segment c Ss) + o) v m'.
Proof.
  intros Hs Ho. destruct (write_word m (base (segment c Ss) + o) v) as (m' & E & Hm'); [destruct Hs; lia|destruct Hs; lia|].
  assert (Hw : exists c', write_memory_sized code_wholesale direct Ss o Alu.OWord v (c, m) = ((c', m'), Ok tt)).
  { unfold write_memory_sized. rewrite (bind_Ok _ _ _ _ _ (aligned c m _ _ (rs_level _ _ Hs))).
    unfold write_memory_bus_width. cbn [Alu.bus_width]. rewrite ask_bind. cbn [id fst width_bytes]. rewrite (stack_range c m) by done.
    rewrite (bind_Ok (lift (Ok _)) _ (c, m) (c, m) _ eq_refl), (rs_paging _ _ Hs). cbn [andb].
    unfold write_linear_fragment_after_probe, translate_linear.
    destruct (translate_flat (base (segment c Ss) + o) true Paging.Current c m (rs_paging _ _ Hs)) as (c1 & E1).
    rewrite (bind_Ok _ _ _ _ _ E1). by apply guest_store_ram. }
  destruct Hw as (c' & Hw). exists c', m'. split; [done|]. split; [|done].
  exact (obeys_Ok _ _ _ _ _ _ (write_memory_obeys code_wholesale direct Ss o Alu.OWord v) Hw).
Qed.

Lemma read_stack c m o v : real_stack c m -> 0 <= o < 65535 -> read_u16 m (base (segment c Ss) + o) = Ok v ->
  exists c', read_memory_sized code_wholesale Ss o Alu.OWord (c, m) = ((c', m), Ok v) /\ visible c' = visible c.
Proof.
  intros Hs Ho Hv.
  assert (Hr : exists c', read_memory_sized code_wholesale Ss o Alu.OWord (c, m) = ((c', m), Ok v)).
  { unfold read_memory_sized. rewrite (bind_Ok _ _ _ _ _ (aligned c m _ _ (rs_level _ _ Hs))).
    unfold read_memory_bus_width. cbn [Alu.bus_width]. rewrite ask_bind. cbn [id fst width_bytes]. rewrite (stack_range c m) by done.
    rewrite (bind_Ok (lift (Ok _)) _ (c, m) (c, m) _ eq_refl), (rs_paging _ _ Hs). cbn [andb].
    unfold read_linear_fragment_after_probe, translate_linear.
    destruct (translate_flat (base (segment c Ss) + o) false Paging.Current c m (rs_paging _ _ Hs)) as (c1 & E1).
    rewrite (bind_Ok _ _ _ _ _ E1). exists c1. unfold load. cbn [fst snd bus_load data_memory]. by rewrite Hv. }
  destruct Hr as (c' & Hr). exists c'. split; [done|].
  exact (obeys_Ok _ _ _ _ _ _ (read_memory_obeys code_wholesale direct Ss o Alu.OWord) Hr).
Qed.

(** Moving SP keeps the rest of the stack's conditions. *)
Lemma moved_stack c c' m m' sp : real_stack c m -> visible c' = visible (write_gpr16 c 4 sp) -> memory_len m' = memory_len m -> real_stack c' m'.
Proof.
  intros Hs. apply real_stack_visible. destruct Hs. split; try done.
  unfold write_gpr16, Alu.write_gpr16, Alu.set_slot. cbn. by rewrite length_insert.
Qed.

Lemma visible_write_sp c c' v : visible c' = visible c -> visible (write_gpr16 c' 4 v) = visible (write_gpr16 c 4 v).
Proof.
  intros (E1 & E2 & E3 & E4 & E5 & E6 & E7 & E8 & E9 & E10 & E11 & E12)%visible_eq. unfold visible, write_gpr16. cbn.
  by rewrite E1, E2, E3, E4, E5, E6, E7, E8, E9, E10, E11, E12.
Qed.

Definition sp_of (c : Cpu) : Z := read_gpr16 c 4.

Lemma sp_range c : 0 <= sp_of c < 65536.
Proof. apply (wrap_in_width 16). lia. Qed.

Lemma push_word c m v : real_stack c m -> sp_of c <> 1 ->
  exists c' m', push code_wholesale direct v Alu.OWord (c, m) = ((c', m'), Ok tt) /\
    visible c' = visible (write_gpr16 c 4 (wrap 16 (sp_of c - 2))) /\ wrote m (base (segment c Ss) + wrap 16 (sp_of c - 2)) v m'.
Proof.
  intros Hs Hne. pose proof (sp_range c) as Hr.
  assert (Hsp : 0 <= wrap 16 (sp_of c - 2) < 65535) by (unfold wrap; widths; Z.to_euclidean_division_equations; lia).
  destruct (write_stack c m _ v Hs Hsp) as (c1 & m' & E & Ev & Hm). unfold push. cbv zeta. rewrite ask_bind. cbn [id fst].
  rewrite (rs_width _ _ Hs). change (Alu.size_bytes Alu.OWord) with 2. change (read_gpr16 c 4) with (sp_of c).
  rewrite (bind_Ok _ _ _ _ _ E). eexists _, m'. split; [reflexivity|]. split; [|done]. by apply visible_write_sp.
Qed.

Lemma pop_word c m v : real_stack c m -> sp_of c <> 65535 -> read_u16 m (base (segment c Ss) + sp_of c) = Ok v ->
  exists c', pop code_wholesale Alu.OWord (c, m) = ((c', m), Ok v) /\ visible c' = visible (write_gpr16 c 4 (wrap 16 (sp_of c + 2))).
Proof.
  intros Hs Hne Hv. pose proof (sp_range c) as Hr. destruct (read_stack c m (sp_of c) v Hs) as (c1 & E & Ev); [lia|done|].
  unfold pop. cbv zeta. rewrite ask_bind. cbn [id fst]. rewrite (rs_width _ _ Hs). change (Alu.size_bytes Alu.OWord) with 2.
  change (read_gpr16 c 4) with (sp_of c). rewrite (bind_Ok _ _ _ _ _ E). eexists. split; [reflexivity|]. by apply visible_write_sp.
Qed.

(* ------------------------------------------------------------------ *)
(** ** The interrupt frame *)

(** The three words of the frame of [c] are in [m] below its SP. *)
Definition frame_in (m : Memory) (ss sp flags cs ip : Z) : Prop :=
  read_u16 m (ss + wrap 16 (sp - 2)) = Ok (wrap 16 flags) /\ read_u16 m (ss + wrap 16 (sp - 4)) = Ok (wrap 16 cs) /\
  read_u16 m (ss + wrap 16 (sp - 6)) = Ok (wrap 16 ip).

Lemma sub_wrap sp k j : wrap 16 (wrap 16 (sp - k) - j) = wrap 16 (sp - (k + j)).
Proof. unfold wrap. rewrite Zminus_mod_idemp_l. f_equal. lia. Qed.

Lemma push_next c c' m m' v sp : real_stack c m -> visible c' = visible (write_gpr16 c 4 sp) -> memory_len m' = memory_len m ->
  0 <= sp < 65536 -> sp <> 1 -> exists c2 m2, push code_wholesale direct v Alu.OWord (c', m') = ((c2, m2), Ok tt) /\
    visible c2 = visible (write_gpr16 c 4 (wrap 16 (sp - 2))) /\ wrote m' (base (segment c Ss) + wrap 16 (sp - 2)) v m2.
Proof.
  intros Hs Hv Hl Hr Hne. pose proof (visible_eq _ _ Hv) as (E1 & _ & E3 & _).
  assert (Esp : sp_of c' = sp).
  { unfold sp_of, read_gpr16. rewrite E1. apply sp_read; [apply (rs_gprs _ _ Hs)|by widths]. }
  destruct (push_word c' m' v) as (c2 & m2 & E & Ev & Hm); [by eapply moved_stack|by rewrite Esp|].
  exists c2, m2. split; [done|]. rewrite Esp in *.
  assert (Es : segment c' Ss = segment c Ss) by (unfold segment; by rewrite E3). rewrite Es in Hm. split; [|done]. rewrite Ev.
  rewrite (visible_write_sp _ _ _ Hv). unfold write_gpr16, visible. cbn. by rewrite sp_write_write by (by widths).
Qed.

Lemma frame_pushed c m flags cs ip : real_stack c m -> sp_of c <> 1 -> sp_of c <> 3 -> sp_of c <> 5 ->
  exists c' m', (push code_wholesale direct flags Alu.OWord;; push code_wholesale direct cs Alu.OWord;;
    push code_wholesale direct ip Alu.OWord) (c, m) = ((c', m'), Ok tt) /\
  visible c' = visible (write_gpr16 c 4 (wrap 16 (sp_of c - 6))) /\ memory_len m' = memory_len m /\
  frame_in m' (base (segment c Ss)) (sp_of c) flags cs ip.
Proof.
  intros Hs H1 H3 H5. pose proof (sp_range c) as Hr. set (sp := sp_of c) in *.
  assert (Hw : forall k, 0 <= wrap 16 (sp - k) < 65536) by (intros k; apply (wrap_in_width 16); lia).
  destruct (push_word c m flags Hs H1) as (c1 & m1 & E1 & V1 & L1 & W1 & A1). fold sp in V1, W1, A1.
  destruct (push_next c c1 m m1 cs (wrap 16 (sp - 2)) Hs V1 L1 (Hw 2)) as (c2 & m2 & E2 & V2 & L2 & W2 & A2).
  { unfold wrap. widths. Z.to_euclidean_division_equations; lia. }
  rewrite sub_wrap in V2, W2, A2. change (2 + 2) with 4 in *.
  destruct (push_next c c2 m m2 ip (wrap 16 (sp - 4)) Hs V2 ltac:(congruence) (Hw 4)) as (c3 & m3 & E3 & V3 & L3 & W3 & A3).
  { unfold wrap. widths. Z.to_euclidean_division_equations; lia. }
  rewrite sub_wrap in V3, W3, A3. change (4 + 2) with 6 in *.
  exists c3, m3. split; [by rewrite (bind_Ok _ _ _ _ _ E1), (bind_Ok _ _ _ _ _ E2)|]. split; [done|]. split; [congruence|].
  pose proof (rs_base _ _ Hs). pose proof (Hw 2). pose proof (Hw 4). pose proof (Hw 6).
  assert (Hap : forall i j, (i = 2 /\ j = 4) \/ (i = 2 /\ j = 6) \/ (i = 4 /\ j = 6) ->
    wrap 16 (sp - i) + 2 <= wrap 16 (sp - j) \/ wrap 16 (sp - j) + 2 <= wrap 16 (sp - i)).
  { intros i j Hij. unfold wrap. widths. Z.to_euclidean_division_equations; lia. }
  pose proof (Hap 2 4 ltac:(lia)). pose proof (Hap 2 6 ltac:(lia)). pose proof (Hap 4 6 ltac:(lia)). split; [|split; [|done]].
  - rewrite A3, A2 by lia. done.
  - rewrite A3 by lia. done.
Qed.

Lemma pop_next c c' m v sp : real_stack c m -> visible c' = visible (write_gpr16 c 4 sp) -> 0 <= sp < 65535 ->
  read_u16 m (base (segment c Ss) + sp) = Ok v ->
  exists c2, pop code_wholesale Alu.OWord (c', m) = ((c2, m), Ok v) /\ visible c2 = visible (write_gpr16 c 4 (wrap 16 (sp + 2))).
Proof.
  intros Hs Hv Hr Hw. pose proof (visible_eq _ _ Hv) as (E1 & _ & E3 & _).
  assert (Esp : sp_of c' = sp).
  { unfold sp_of, read_gpr16. rewrite E1. apply sp_read; [apply (rs_gprs _ _ Hs)|widths; lia]. }
  assert (Es : segment c' Ss = segment c Ss) by (unfold segment; by rewrite E3).
  destruct (pop_word c' m v) as (c2 & E & Ev); [by eapply moved_stack|rewrite Esp; lia|by rewrite Esp, Es|].
  exists c2. split; [done|]. rewrite Ev, Esp, (visible_write_sp _ _ _ Hv). unfold write_gpr16, visible. cbn.
  by rewrite sp_write_write by (widths; lia).
Qed.

Lemma frame_popped c m sp flags cs ip : real_stack c m -> 0 <= sp < 65536 -> sp <> 1 -> sp <> 3 -> sp <> 5 ->
  sp_of c = wrap 16 (sp - 6) -> frame_in m (base (segment c Ss)) sp flags cs ip ->
  exists c1 c2 c3, pop code_wholesale Alu.OWord (c, m) = ((c1, m), Ok (wrap 16 ip)) /\
    pop code_wholesale Alu.OWord (c1, m) = ((c2, m), Ok (wrap 16 cs)) /\
    pop code_wholesale Alu.OWord (c2, m) = ((c3, m), Ok (wrap 16 flags)) /\ visible c3 = visible (write_gpr16 c 4 sp).
Proof.
  intros Hs Hr H1 H3 H5 Hsp (Wf & Wc & Wi).
  assert (Hw : forall k, k = 2 \/ k = 4 \/ k = 6 -> 0 <= wrap 16 (sp - k) < 65535).
  { intros k Hk. unfold wrap. widths. Z.to_euclidean_division_equations; lia. }
  assert (Ha : forall k, wrap 16 (wrap 16 (sp - k) + 2) = wrap 16 (sp - (k - 2))).
  { intros k. unfold wrap. rewrite Zplus_mod_idemp_l. f_equal. lia. }
  destruct (pop_word c m (wrap 16 ip) Hs) as (c1 & E1 & V1); [rewrite Hsp; specialize (Hw 6); lia|by rewrite Hsp|].
  rewrite Hsp, Ha in V1. change (6 - 2) with 4 in V1.
  destruct (pop_next c c1 m (wrap 16 cs) _ Hs V1 (Hw 4 ltac:(lia)) Wc) as (c2 & E2 & V2). rewrite Ha in V2. change (4 - 2) with 2 in V2.
  destruct (pop_next c c2 m (wrap 16 flags) _ Hs V2 (Hw 2 ltac:(lia)) Wf) as (c3 & E3 & V3). rewrite Ha in V3.
  exists c1, c2, c3. rewrite V3. replace (wrap 16 (sp - (2 - 2))) with sp; [done|].
  symmetry. replace (sp - (2 - 2)) with sp by lia. apply wrap_id. by widths.
Qed.

(* ------------------------------------------------------------------ *)
(** ** The return *)

(** What IRET restores of the interrupted processor [c]: where it was, its stack pointer and
    its low flags. *)
Definition resumed (c c2 c3 : Cpu) : Prop :=
  eip c3 = wrap 16 (eip c) /\ segment c3 Cs = real (wrap 16 (selector (segment c Cs))) /\ sp_of c3 = sp_of c /\
  (forall i, i <> 4%nat -> Flags.gpr (regs c3) !!! i = Flags.gpr (regs c2) !!! i) /\
  (forall s, s <> Cs -> segment c3 s = segment c2 s) /\
  (forall n, 0 <= n < 16 -> Z.testbit (eflags c3) n = (n =? 1) || Z.testbit (Flags.materialized_eflags (regs c)) n).

Lemma iret_resumes c c2 m2 : real_stack c2 m2 -> length (segments c2) = 6%nat -> u32 (eflags c2) ->
  sp_of c <> 1 -> sp_of c <> 3 -> sp_of c <> 5 -> sp_of c2 = wrap 16 (sp_of c - 6) ->
  frame_in m2 (base (segment c2 Ss)) (sp_of c) (Flags.materialized_eflags (regs c)) (selector (segment c Cs)) (eip c) ->
  exists c3, iret code_wholesale Alu.OWord (c2, m2) = ((c3, m2), Ok tt) /\ resumed c c2 c3.
Proof.
  intros Hs H6 He H1 H3 H5 Hsp Hf.
  destruct (frame_popped c2 m2 (sp_of c) _ _ _ Hs (sp_range c) H1 H3 H5 Hsp Hf) as (a1 & a2 & c4 & E1 & E2 & E3 & V).
  pose proof (visible_eq _ _ V) as (Er & _ & Eg & Ec & _).
  assert (Hp : is_protected_mode c4 = false).
  { pose proof (rs_mode _ _ Hs) as Hp. unfold is_protected_mode, cr0 in *. by rewrite Er. }
  set (cs := wrap 16 (selector (segment c Cs))) in *. set (ip := wrap 16 (eip c)) in *. set (flags := wrap 16 (Flags.materialized_eflags (regs c))) in *.
  set (c5 := set_eip (set_segment c4 Cs (real (wrap 16 cs))) (Z.land ip 65535)).
  set (c6 := settle_flags c5 (merge_flags c5 flags Alu.OWord false)).
  exists (c6 <| cpl := landing_level c6 (wrap 16 cs) |>). split.
  - unfold iret, restoring_esp, iret_body. rewrite ask_bind. cbn [id fst]. unfold is_protected_task at 1. rewrite (rs_mode _ _ Hs). cbn [andb].
    unfold iret_word. rewrite (bind_Ok _ _ _ _ _ E1), (bind_Ok _ _ _ _ _ E2). cbv zeta. rewrite (bind_Ok _ _ _ _ _ E3), ask_bind.
    cbn [id fst]. unfold is_protected_task. rewrite Hp. cbn [andb]. unfold load_segment, load_segment_checked.
    unfold mbind at 1, exec_bind at 1. rewrite ask_bind. cbn [id fst]. unfold is_v86_mode at 1. rewrite Hp. reflexivity.
  - assert (Ecs : wrap 16 cs = cs) by (apply wrap_id, wrap_in_width; lia).
    assert (Eip : Z.land ip 65535 = ip).
    { change 65535 with (Z.ones 16). rewrite Z.land_ones by lia. apply wrap_id, wrap_in_width; lia. }
    assert (Eseg : forall s, segment (c6 <| cpl := landing_level c6 (wrap 16 cs) |>) s = segment (set_segment c4 Cs (real cs)) s) by (intros s; rewrite <-Ecs; done).
    assert (Egpr : Flags.gpr (regs (c6 <| cpl := landing_level c6 (wrap 16 cs) |>)) = Flags.gpr (regs (write_gpr16 c2 4 (sp_of c)))) by exact (f_equal Flags.gpr Er).
    split; [exact Eip|]. split.
    { rewrite Eseg, segment_set, decide_True by done. rewrite decide_True; [done|]. rewrite Eg. cbn. rewrite H6. cbn. lia. }
    split.
    { unfold sp_of at 1, read_gpr16, Alu.read_gpr16, Alu.slot. rewrite Egpr. apply (sp_read (regs c2) (sp_of c) (rs_gprs _ _ Hs)).
      pose proof (sp_range c). by widths. }
    split.
    { intros i Hi. rewrite Egpr. apply list_lookup_total_insert_ne. intros E. by destruct Hi. }
    split.
    { intros s Hne. rewrite Eseg, segment_set, decide_False by congruence. unfold segment. by rewrite Eg. }
    intros n Hn. change (eflags _) with (merge_flags c5 flags Alu.OWord false).
    assert (Ec5 : cpl c5 = 0) by (change (cpl c4 = 0); rewrite Ec; exact (rs_level _ _ Hs)).
    rewrite merge_bit; [|lia|change (u32 (Flags.eflags (regs c4))); by rewrite Er|lia].
    assert (Hwr : writable c5 Alu.OWord false n = true).
    { unfold writable. rewrite Ec5. pose proof (iopl_range (eflags c5)). unfold iopl. rewrite (proj2 (Z.leb_le 0 _)) by done.
      rewrite (proj2 (Z.ltb_lt n 16)), (proj2 (Z.eqb_neq n 17)), (proj2 (Z.eqb_neq n 18)), (proj2 (Z.eqb_neq n 21)) by lia.
      by destruct (_ || _), (n =? 9). }
    rewrite Hwr. f_equal. unfold flags, wrap. apply Z.mod_pow2_bits_low. lia.
Qed.

Lemma materialize_visible c : eip (materialize_flags c) = eip c /\ segments (materialize_flags c) = segments c /\
  eflags (materialize_flags c) = Flags.materialized_eflags (regs c) /\ sp_of (materialize_flags c) = sp_of c.
Proof.
  unfold materialize_flags, eflags, sp_of, read_gpr16. cbn. unfold Flags.materialize_flags.
  destruct (Flags.is_none _) eqn:E; [|done]. repeat split. unfold Flags.materialized_eflags. by rewrite E.
Qed.

Lemma materialize_stack c m : real_stack c m -> real_stack (materialize_flags c) m.
Proof.
  intros []. destruct (Flags.materialize_fields (regs c)) as (Eg & Er & _).
  split; try done; unfold is_protected_mode, is_paging_enabled, cr0, materialize_flags in *; cbn; by rewrite ?Er, ?Eg.
Qed.

(** The interrupt itself, and the frame it leaves. *)
Lemma interrupt_enters c m vector : real_stack c m -> length (segments c) = 6%nat ->
  sp_of c <> 1 -> sp_of c <> 3 -> sp_of c <> 5 -> 0 <= vector < 256 -> 1024 <= memory_len m ->
  exists c1 m1 ip cs, real_mode_interrupt code_wholesale direct vector (c, m) = ((c1, m1), Ok tt) /\
    read_u16 m1 (vector * 4) = Ok ip /\ read_u16 m1 (vector * 4 + 2) = Ok cs /\
    eip c1 = wrap 16 ip /\ segment c1 Cs = real (wrap 16 cs) /\ sp_of c1 = wrap 16 (sp_of c - 6) /\
    Z.testbit (eflags c1) 9 = false /\ Z.testbit (eflags c1) 8 = false /\
    frame_in m1 (base (segment c1 Ss)) (sp_of c) (Flags.materialized_eflags (regs c)) (selector (segment c Cs)) (eip c).
Proof.
  intros Hs H6 H1 H3 H5 Hv Hl. destruct (materialize_visible c) as (Ei & Eg & Ee & Es).
  pose proof (materialize_stack _ _ Hs) as Hs0. set (c0 := materialize_flags c) in *.
  destruct (frame_pushed c0 m (wrap 16 (eflags c0)) (selector (segment c0 Cs)) (wrap 16 (eip c0)) Hs0) as (c4 & m1 & E & V & L & F);
    [by rewrite Es..|].
  apply bind_Ok_inv in E as ([a1 b1] & [] & E1 & E). apply bind_Ok_inv in E as ([a2 b2] & [] & E2 & E3).
  pose proof (visible_eq _ _ V) as (Er & _ & Eg4 & _).
  assert (Hr : forall a, 0 <= a -> a + 2 <= memory_len m1 -> exists v, read_u16 m1 a = Ok v).
  { intros a Ha Hb. unfold read_u16. destruct (read_u8_in m1 a) as [x ->]; [unfold in_memory; lia|].
    destruct (read_u8_in m1 (a + 1)) as [y ->]; [unfold in_memory; lia|]. by eexists. }
  destruct (Hr (vector * 4)) as [ip Hip]; [lia|lia|]. destruct (Hr (vector * 4 + 2)) as [cs Hcs]; [lia|lia|].
  set (c5 := set_flag c4 (Z.lor FLAG_IF FLAG_TF) false).
  set (c1 := set_eip (set_segment c5 Cs (real (wrap 16 cs))) (wrap 16 ip)).
  assert (Eint : real_mode_interrupt code_wholesale direct vector (c, m) = ((c1, m1), Ok tt)).
  { unfold real_mode_interrupt. rewrite (bind_Ok (change materialize_flags) _ (c, m) (c0, m) tt eq_refl), ask_bind. cbn [id fst].
    rewrite (bind_Ok _ _ _ _ _ E1), (bind_Ok _ _ _ _ _ E2), (bind_Ok _ _ _ _ _ E3).
    rewrite (bind_Ok (change (fun c => set_flag c (Z.lor FLAG_IF FLAG_TF) false)) _ (c4, m1) (c5, m1) tt eq_refl).
    assert (Hld : forall a v, read_u16 m1 a = Ok v -> load a Word (c5, m1) = ((c5, m1), Ok v)).
    { intros a v Hav. unfold load. cbn [fst snd bus_load data_memory]. by rewrite Hav. }
    rewrite (bind_Ok _ _ _ _ _ (Hld _ _ Hip)), (bind_Ok _ _ _ _ _ (Hld _ _ Hcs)). reflexivity. }
  assert (Egp : Flags.gpr (regs c1) = Flags.gpr (regs (write_gpr16 c0 4 (wrap 16 (sp_of c0 - 6))))).
  { rewrite <-Er. exact (proj1 (Flags.set_flag_fields (regs c4) _ _)). }
  assert (Esp : sp_of c1 = wrap 16 (sp_of c - 6)).
  { unfold sp_of at 1, read_gpr16, Alu.read_gpr16, Alu.slot. rewrite Egp, Es.
    apply (sp_read (regs c0)); [exact (rs_gprs _ _ Hs0)|apply wrap_in_width; lia]. }
  assert (Ess : segment c1 Ss = segment c Ss).
  { change (segment c1 Ss) with (segment (set_segment c5 Cs (real (wrap 16 cs))) Ss). rewrite segment_set, decide_False by done.
    unfold segment. change (segments c5) with (segments c4). by rewrite Eg4, <-Eg. }
  exists c1, m1, ip, cs. split; [exact Eint|]. split; [done|]. split; [done|]. split; [done|]. split.
  { change (segment c1 Cs) with (segment (set_segment c5 Cs (real (wrap 16 cs))) Cs). rewrite segment_set, decide_True by done.
    rewrite decide_True; [done|]. change (segments c5) with (segments c4). rewrite Eg4.
    change (1 < length (segments c0))%nat. rewrite Eg, H6. lia. }
  split; [exact Esp|].
  assert (Hnone : Flags.is_none (Flags.pending_flags (regs c4)) = true).
  { rewrite Er. exact (Flags.materialize_none (regs c)). }
  assert (Efl : eflags c1 = Z.lor (Flags.put_flag (Flags.eflags (regs c4)) (Z.lor FLAG_IF FLAG_TF) false) 2).
  { change (eflags c1) with (Flags.eflags (Flags.set_flag (regs c4) (Z.lor FLAG_IF FLAG_TF) false)).
    rewrite Flags.set_flag_none by done. exact (proj1 (Flags.set_flag_live_fields _ _ _)). }
  split; [rewrite Efl, Z.lor_spec, Flags.testbit_put_flag by lia; reflexivity|].
  split; [rewrite Efl, Z.lor_spec, Flags.testbit_put_flag by lia; reflexivity|].
  destruct F as (F1 & F2 & F3). rewrite Es in *.
  assert (Es0 : segment c0 Ss = segment c1 Ss) by (rewrite Ess; unfold segment; by rewrite Eg). rewrite Es0 in *.
  assert (Ecs : segment c0 Cs = segment c Cs) by (unfold segment; by rewrite Eg).
  rewrite Ei, Ee, Ecs in *. rewrite !(wrap_id 16 (wrap 16 _)) in * by (apply wrap_in_width; lia). done.
Qed.

(** C5.  IRET undoes a real-mode interrupt. With a 64 KiB stack in RAM and SP not 1, 3 or 5
    (where a push would wrap in the middle of a word), the interrupt pushes its frame,
    enters the handler its vector names with IF and TF clear, and from any later state
    with the same stack segment and stack pointer whose frame is intact, IRET comes back:
    to the same CS:IP and SP, with the same low sixteen flags, every other register as
    the handler left it. *)
Theorem interrupt_returns c m vector : real_stack c m -> length (segments c) = 6%nat ->
  sp_of c <> 1 -> sp_of c <> 3 -> sp_of c <> 5 -> 0 <= vector < 256 -> 1024 <= memory_len m ->
  exists c1 m1 ip cs, real_mode_interrupt code_wholesale direct vector (c, m) = ((c1, m1), Ok tt) /\
    read_u16 m1 (vector * 4) = Ok ip /\ read_u16 m1 (vector * 4 + 2) = Ok cs /\
    eip c1 = wrap 16 ip /\ segment c1 Cs = real (wrap 16 cs) /\ sp_of c1 = wrap 16 (sp_of c - 6) /\
    Z.testbit (eflags c1) 9 = false /\ Z.testbit (eflags c1) 8 = false /\
    forall c2 m2, real_stack c2 m2 -> length (segments c2) = 6%nat -> u32 (eflags c2) ->
      segment c2 Ss = segment c1 Ss -> sp_of c2 = sp_of c1 ->
      (forall k, k ∈ [2; 4; 6] -> read_u16 m2 (base (segment c1 Ss) + wrap 16 (sp_of c - k)) = read_u16 m1 (base (segment c1 Ss) + wrap 16 (sp_of c - k))) ->
      exists c3, iret code_wholesale Alu.OWord (c2, m2) = ((c3, m2), Ok tt) /\ resumed c c2 c3.
Proof.
  intros Hs H6 H1 H3 H5 Hv Hl.
  destruct (interrupt_enters c m vector Hs H6 H1 H3 H5 Hv Hl) as (c1 & m1 & ip & cs & E & Hip & Hcs & Ei & Ec & Esp & E9 & E8 & F1 & F2 & F3).
  exists c1, m1, ip, cs. repeat (split; [done|]). intros c2 m2 Hs2 H62 He2 Ess2 Esp2 Hf. rewrite Esp in Esp2.
  apply iret_resumes; try done. rewrite Ess2.
  split; [|split]; rewrite Hf; try done; listed.
Qed.

End RealMode.

(** A handler that only returns, on a machine whose interrupt table is at address 0. *)
Definition real_machine : Cpu := (processor 0 514 0 0 256 1) <| segments := [real 0; real 0; mkSegment 0 1024 65535 147 false; real 0; real 0; real 0] |>.

Definition low_memory : Memory := mkMemory (zeroed 131072).

Lemma low_memory_len : memory_len low_memory = 131072.
Proof. unfold memory_len, low_memory, zeroed. cbn [data]. rewrite length_replicate. lia. Qed.

Lemma interrupt_returns_witness :
  (real_stack real_machine low_memory /\ sp_of real_machine = 0) /\
  exists c1 m1, real_mode_interrupt never_code never_direct 33 (real_machine, low_memory) = ((c1, m1), Ok tt) /\
  sp_of c1 = 65530 /\ Z.testbit (eflags real_machine) 9 = true /\ Z.testbit (eflags c1) 9 = false.
Proof.
  assert (Hs : real_stack real_machine low_memory).
  { split; rewrite ?low_memory_len; try reflexivity; cbn; lia. }
  assert (Hsp : sp_of real_machine = 0) by (vm_compute; reflexivity).
  split; [split; [exact Hs|exact Hsp]|].
  destruct (interrupt_returns never_code never_direct real_machine low_memory 33 Hs eq_refl) as (c1 & m1 & ip & cs & E & _ & _ & _ & _ & Es & Ei & _);
    try (rewrite Hsp; lia); try lia; [rewrite low_memory_len; lia|].
  exists c1, m1. split; [exact E|]. split; [rewrite Es, Hsp; vm_compute; reflexivity|]. split; [vm_compute; reflexivity|exact Ei].
Defined.

End RealMode.
