(* ===== verification/Pit.v ===== *)
(** * The 8254 interval timer: one counter and the chip

    izarravm-machine/src/pit.rs.  [Counter] in Module [Counter]: the clock-by-clock
    behaviour ([step], [set_gate], the count and control writes) and the closed forms
    the machine uses instead of stepping: [advance], [out_transitions_in] and the peeks
    [out_after], [count_after] and [clocks_until_out_rise].  Module [Chip] holds the
    three counters behind ports 40h-43h. *)

From S2P Require Import Prelude.

Module Counter.

(* ------------------------------------------------------------------ *)
(** ** State *)

Inductive RwMode := Lsb | Msb | LsbThenMsb.
Inductive CounterState := Inactive | LoadDelay | Counting | WaitGate.
#[export] Instance CounterState_eq_dec : EqDecision CounterState.
Proof. solve_decision. Defined.
#[export] Instance RwMode_eq_dec : EqDecision RwMode.
Proof. solve_decision. Defined.

Record Counter := mkCounter {
  mode : Z; rw : RwMode; bcd : bool; count : Z; reload : Z; out : bool; gate : bool;
  state : CounterState; null_count : bool; latch : option Z; status_latch : option Z;
  write_msb_next : bool; read_msb_next : bool
}.
#[export] Instance eta_Counter : Eta Counter := fun c =>
  mkCounter (mode c) (rw c) (bcd c) (count c) (reload c) (out c) (gate c) (state c) (null_count c)
    (latch c) (status_latch c) (write_msb_next c) (read_msb_next c).

(** [Counter::default] *)
Definition default : Counter :=
  mkCounter 0 Lsb false 0 0 false true Inactive false None None false false.
#[export] Instance Counter_inhabited : Inhabited Counter := populate default.

Definition mask16 (value : Z) : Z := Z.land value 65535.
Definition wrap32 (value by_ : Z) : Z := Z.land (wrap 64 (value - by_)) 4294967295.

(** [matches!(self.mode, 2 | 3)] *)
Definition periodic (m : Z) : bool := (m =? 2) || (m =? 3).

Definition effective_reload (c : Counter) : Z := if reload c =? 0 then 65536 else reload c.

(* ------------------------------------------------------------------ *)
(** ** The counting element *)

(** The inner loop of [bcd_dec]: a borrow through the digits, lowest first. *)
Fixpoint borrow (digits : list Z) : list Z :=
  match digits with
  | [] => []
  | d :: ds => if 0 <? d then d - 1 :: ds else 9 :: borrow ds
  end.

Definition digits_of (result : Z) : list Z :=
  [Z.land result 15; Z.land (Z.shiftr result 4) 15; Z.land (Z.shiftr result 8) 15; Z.land (Z.shiftr result 12) 15].

Definition of_digits (ds : list Z) : Z :=
  match ds with
  | [d0; d1; d2; d3] => Z.lor (Z.lor (Z.lor d0 (Z.shiftl d1 4)) (Z.shiftl d2 8)) (Z.shiftl d3 12)
  | _ => 0
  end.

(** One round of the outer loop of [bcd_dec]. *)
Definition bcd_dec_one (result : Z) : Z :=
  if result =? 0 then 39321 else of_digits (borrow (digits_of result)).

Definition bcd_dec (value : Z) (by_ : nat) : Z := Nat.iter by_ bcd_dec_one (Z.land value 65535).

Definition dec (c : Counter) (value : Z) (by_ : nat) : Z :=
  if bcd c then bcd_dec value by_ else wrap 32 (value - Z.of_nat by_).

(* ------------------------------------------------------------------ *)
(** ** One clock *)

Definition step_counting (c : Counter) : Counter * bool :=
  if negb (gate c) then ((if periodic (mode c) then c <| out := true |> else c), false)
  else
    match mode c with
    | 0 | 1 =>
        let c := c <| count := dec c (count c) 1 |> in
        if (count c =? 0) && negb (out c) then
          let c := c <| out := true |> in
          ((if negb (mode c =? 0) then c <| state := Inactive |> else c), true)
        else (c, false)
    | 2 =>
        if count c <=? 1 then
          let rose := negb (out c) in
          (c <| count := effective_reload c |> <| out := true |>, rose)
        else
          let c := c <| count := dec c (count c) 1 |> in
          ((if count c =? 1 then c <| out := false |> else c), false)
    | 3 =>
        let by_ := if Z.land (count c) 1 =? 1 then (if out c then 1%nat else 3%nat) else 2%nat in
        if count c <=? Z.of_nat by_ then
          let c := c <| count := effective_reload c |> <| out := negb (out c) |> in
          (c, out c)
        else (c <| count := dec c (count c) by_ |>, false)
    | 4 | 5 =>
        if out c then
          let c := c <| count := dec c (count c) 1 |> in
          ((if count c =? 0 then c <| out := false |> else c), false)
        else (c <| out := true |> <| state := Inactive |>, true)
    | _ => (c, false)
    end.

(** Advances one input clock; answers whether OUT rose. *)
Definition step (c : Counter) : Counter * bool :=
  match state c with
  | Inactive | WaitGate => (c, false)
  | LoadDelay =>
      (c <| count := effective_reload c |> <| null_count := false |> <| state := Counting |>, false)
  | Counting => step_counting c
  end.

(* ------------------------------------------------------------------ *)
(** ** Peeks at a later clock *)

Definition mode3_half (value : Z) (out : bool) : Z :=
  if (value mod 2 =? 0) || negb out then Z.max (value / 2) 1 else div_ceil value 2.

Definition mode3_value_in_half (value : Z) (out : bool) (k : Z) : Z :=
  if k =? 0 then value
  else if Z.land value 1 =? 1 then
    if out then value + 1 - 2 * k else value - 1 - 2 * k
  else value - 2 * k.

Definition rise_from (c : Counter) (v : Z) : option Z :=
  let reload := effective_reload c in
  match mode c with
  | 0 | 1 => if out c || (v =? 0) then None else Some v
  | 2 =>
      if negb (out c) then Some 1
      else if 2 <=? v then Some v
      else if 2 <=? reload then Some (1 + reload)
      else None
  | 3 => if out c then Some (mode3_half v true + mode3_half reload false) else Some (mode3_half v false)
  | 4 | 5 => if negb (out c) then Some 1 else if v =? 0 then None else Some (v + 1)
  | _ => None
  end.

Definition clocks_until_out_rise (c : Counter) : option Z :=
  if bcd c then None
  else
    match state c with
    | Inactive | WaitGate => None
    | LoadDelay => if negb (gate c) then None else (fun steps => steps + 1) <$> rise_from c (effective_reload c)
    | Counting => if negb (gate c) then None else rise_from c (count c)
    end.

Definition gate_low_out (c : Counter) (forced : bool) : bool :=
  if forced && periodic (mode c) then true else out c.

Definition counting_out_after (mode value reload : Z) (out : bool) (clocks : Z) : bool :=
  if clocks =? 0 then out
  else
    match mode with
    | 0 | 1 => if out || (value =? 0) then out else value <=? clocks
    | 2 =>
        let first_reload_at := if 2 <=? value then value else 1 in
        if clocks <? first_reload_at then
          if clocks + 1 =? first_reload_at then false else out
        else if reload <=? 1 then true
        else
          let phase := (clocks - first_reload_at) mod reload in
          negb (phase + 1 =? reload)
    | 3 =>
        let to_toggle := mode3_half value out in
        if clocks <? to_toggle then out
        else
          let rem := clocks - to_toggle in
          let level := negb out in
          if reload <=? 1 then (if rem mod 2 =? 0 then level else negb level)
          else
            let phase := rem mod reload in
            let half := mode3_half reload level in
            if phase <? half then level else negb level
    | 4 | 5 =>
        if negb out then true
        else if value =? 0 then out
        else negb (clocks =? value)
    | _ => out
    end.

Definition out_after (c : Counter) (clocks : Z) : option bool :=
  if bcd c then None
  else
    match state c with
    | Inactive | WaitGate => Some (out c)
    | LoadDelay =>
        if negb (gate c) then Some (gate_low_out c (2 <=? clocks))
        else if clocks =? 0 then Some (out c)
        else
          let reload := effective_reload c in
          Some (counting_out_after (mode c) reload reload (out c) (clocks - 1))
    | Counting =>
        if negb (gate c) then Some (gate_low_out c (1 <=? clocks))
        else Some (counting_out_after (mode c) (count c) (effective_reload c) (out c) clocks)
    end.

Definition masked_count (c : Counter) : Z := mask16 (count c).

Definition counting_count_after (mode v r : Z) (out : bool) (clocks : Z) : Z :=
  if clocks =? 0 then mask16 v
  else
    match mode with
    | 0 => mask16 (wrap32 v clocks)
    | 1 =>
        let to_zero := if v =? 0 then Z.shiftl 1 32 else v in
        if negb out && (to_zero <=? clocks) then 0 else mask16 (wrap32 v clocks)
    | 2 =>
        let '(base, at_) := if 2 <=? v then (v, v) else (v, 1) in
        if clocks <? at_ then mask16 (base - clocks) else mask16 (r - (clocks - at_) mod r)
    | 3 =>
        let to_toggle := mode3_half v out in
        if clocks <? to_toggle then mask16 (mode3_value_in_half v out clocks)
        else if r <=? 1 then mask16 r
        else
          let rem := (clocks - to_toggle) mod r in
          let first_level := negb out in
          let first_half := mode3_half r first_level in
          if rem <? first_half then mask16 (mode3_value_in_half r first_level rem)
          else mask16 (mode3_value_in_half r out (rem - first_half))
    | 4 | 5 =>
        if negb out then mask16 v
        else
          let to_zero := if v =? 0 then Z.shiftl 1 32 else v in
          if to_zero <=? clocks then 0 else mask16 (wrap32 v clocks)
    | _ => mask16 v
    end.

Definition count_after (c : Counter) (clocks : Z) : option Z :=
  if bcd c then None
  else
    match state c with
    | Inactive | WaitGate => Some (masked_count c)
    | LoadDelay =>
        if clocks =? 0 then Some (masked_count c)
        else
          let reload := effective_reload c in
          if negb (gate c) then Some (mask16 reload)
          else Some (counting_count_after (mode c) reload reload (out c) (clocks - 1))
    | Counting =>
        if negb (gate c) then Some (masked_count c)
        else Some (counting_count_after (mode c) (count c) (effective_reload c) (out c) clocks)
    end.

Definition null_count_after (c : Counter) (clocks : Z) : bool :=
  if bool_decide (state c = LoadDelay) && (1 <=? clocks) then false else null_count c.

(* ------------------------------------------------------------------ *)
(** ** Programming *)

Definition latch_count (c : Counter) (clocks : Z) : Counter :=
  match latch c with
  | None => c <| latch := Some (from_option id (masked_count c) (count_after c clocks)) |>
  | Some _ => c
  end.

Definition rw_bits (r : RwMode) : Z := match r with Lsb => 1 | Msb => 2 | LsbThenMsb => 3 end.

Definition latch_status (c : Counter) (clocks : Z) : Counter :=
  match status_latch c with
  | None =>
      let out := from_option id (out c) (out_after c clocks) in
      let null_count := null_count_after c clocks in
      c <| status_latch := Some
        (Z.lor (Z.lor (Z.lor (Z.lor (Z.shiftl (b2z out) 7) (Z.shiftl (b2z null_count) 6))
          (Z.shiftl (rw_bits (rw c)) 4)) (Z.shiftl (mode c) 1)) (b2z (bcd c))) |>
  | Some _ => c
  end.

Definition write_control (c : Counter) (value clocks : Z) : Counter :=
  let rw_field := Z.land (Z.shiftr value 4) 3 in
  if rw_field =? 0 then latch_count c clocks
  else
    let c := c <| rw := match rw_field with 1 => Lsb | 2 => Msb | _ => LsbThenMsb end |> in
    let m := Z.land (Z.shiftr value 1) 7 in
    let c := c <| mode := match m with 6 => 2 | 7 => 3 | _ => m end |> in
    let c := c <| bcd := has value 1 |> in
    let c := c <| out := negb (mode c =? 0) |> in
    c <| state := Inactive |> <| null_count := true |> <| write_msb_next := false |>
      <| read_msb_next := false |> <| latch := None |> <| status_latch := None |>.

Definition arm (c : Counter) : Counter :=
  let c := c <| null_count := true |> in
  match mode c with
  | 1 | 5 => if negb (bool_decide (state c = Counting)) then c <| state := WaitGate |> else c
  | 2 | 3 => if negb (bool_decide (state c = Counting)) then c <| state := LoadDelay |> else c
  | _ => c <| state := LoadDelay |>
  end.

Definition write_count (c : Counter) (value : Z) : Counter :=
  let low := Z.lor (Z.land (reload c) 65280) value in
  let high := Z.lor (Z.land (reload c) 255) (wrap 16 (Z.shiftl value 8)) in
  match rw c with
  | Lsb => arm (c <| reload := low |>)
  | Msb => arm (c <| reload := high |>)
  | LsbThenMsb =>
      if negb (write_msb_next c) then
        let c := c <| reload := low |> <| write_msb_next := true |> in
        if mode c =? 0 then c <| out := false |> <| state := Inactive |> else c
      else arm (c <| reload := high |> <| write_msb_next := false |>)
  end.

Definition read (c : Counter) (clocks : Z) : Z * Counter :=
  match status_latch c with
  | Some status => (status, c <| status_latch := None |>)
  | None =>
      let live := from_option id (masked_count c) (count_after c clocks) in
      let value := from_option id live (latch c) in
      match rw c with
      | Lsb => (Z.land value 255, c <| latch := None |>)
      | Msb => (Z.shiftr value 8, c <| latch := None |>)
      | LsbThenMsb =>
          if negb (read_msb_next c) then (Z.land value 255, c <| read_msb_next := true |>)
          else (Z.shiftr value 8, c <| read_msb_next := false |> <| latch := None |>)
      end
  end.

Definition set_gate (c : Counter) (level : bool) : Counter :=
  let rising := negb (gate c) && level in
  let falling := gate c && negb level in
  let c := c <| gate := level |> in
  if rising then
    match mode c with
    | 1 => c <| count := effective_reload c |> <| out := false |> <| state := Counting |>
    | 5 => c <| count := effective_reload c |> <| out := true |> <| state := Counting |>
    | 2 | 3 => c <| state := LoadDelay |>
    | _ => c
    end
  else if falling && periodic (mode c) then c <| out := true |>
  else c.

(* ------------------------------------------------------------------ *)
(** ** The analytic advance *)

Inductive BulkDecline := Bcd | IllegalReload | SpanTooWide.

Definition bulk_decline (c : Counter) : option BulkDecline :=
  if bcd c then Some Bcd
  else
    let live := match state c with LoadDelay | Counting => true | _ => false end in
    if live && periodic (mode c) && (effective_reload c <=? 1) then Some IllegalReload else None.

Definition set_count (c : Counter) (value : Z) : Counter := c <| count := Z.land value 4294967295 |>.

Definition advance_counting (c : Counter) (clocks : Z) : Counter * Z :=
  if clocks =? 0 then (c, 0)
  else if negb (gate c) then ((if periodic (mode c) then c <| out := true |> else c), 0)
  else
    let v := count c in
    let r := effective_reload c in
    match mode c with
    | 0 | 1 =>
        let rose := negb (out c) && negb (v =? 0) && (v <=? clocks) in
        if rose then
          let c := c <| out := true |> in
          if negb (mode c =? 0) then (c <| state := Inactive |> <| count := 0 |>, 1)
          else (set_count c (wrap32 v clocks), b2z rose)
        else (set_count c (wrap32 v clocks), b2z rose)
    | 2 =>
        let '(first_reload, rose_first) := if 2 <=? v then (v, true) else (1, negb (out c)) in
        if clocks <? first_reload then
          let count := v - clocks in
          let c := set_count c count in
          ((if count =? 1 then c <| out := false |> else c), 0)
        else
          let past := clocks - first_reload in
          let phase := past mod r in
          ((set_count c (r - phase)) <| out := negb (phase =? r - 1) |>, b2z rose_first + past / r)
    | 3 =>
        let to_toggle := mode3_half v (out c) in
        if clocks <? to_toggle then (set_count c (mode3_value_in_half v (out c) clocks), 0)
        else
          let level0 := negb (out c) in
          let half0 := mode3_half r level0 in
          let rem := clocks - to_toggle in
          let phase := rem mod r in
          let '(level, count) :=
            if phase <? half0 then (level0, mode3_value_in_half r level0 phase)
            else (negb level0, mode3_value_in_half r (negb level0) (phase - half0)) in
          let c := set_count (c <| out := level |>) count in
          (c, if level0 then 1 + rem / r else if half0 <=? rem then (rem - half0) / r + 1 else 0)
    | 4 | 5 =>
        if negb (out c) then (c <| out := true |> <| state := Inactive |>, 1)
        else if v =? 0 then (set_count c (wrap32 v clocks), 0)
        else if clocks <=? v then
          let c := set_count c (v - clocks) in
          ((if clocks =? v then c <| out := false |> else c), 0)
        else (c <| count := 0 |> <| state := Inactive |>, 1)
    | _ => (c, 0)
    end.

(** [clocks] input clocks at once; answers the number of rises of OUT. *)
Definition advance (c : Counter) (clocks : Z) : Counter * Z :=
  if clocks =? 0 then (c, 0)
  else
    match state c with
    | Inactive | WaitGate => (c, 0)
    | LoadDelay =>
        let c := c <| count := effective_reload c |> <| null_count := false |> <| state := Counting |> in
        advance_counting c (clocks - 1)
    | Counting => advance_counting c clocks
    end.

(** A change of OUT and the clock, counted from one, at which it happens. *)
Record OutTransition := mkTransition { tick : Z; level : bool }.

(** The [loop] of mode 2, on fuel: the next falling and rising clocks. *)
Fixpoint rate_edges (fuel : nat) (r clocks offset : Z) (level : bool) (low high : Z) : option (list OutTransition) :=
  match fuel with
  | O => None
  | S fuel =>
      let fall := (1 <=? low) && (low <=? clocks) && level in
      let fallen := if fall then [mkTransition (offset + low) false] else [] in
      if (1 <=? low) && (clocks <? low) then Some []
      else
        let level := level && negb fall in
        if clocks <? high then Some fallen
        else
          let risen := if negb level then [mkTransition (offset + high) true] else [] in
          app (fallen ++ risen) <$> rate_edges fuel r clocks offset true (high + r - 1) (high + r)
  end.

(** The [while] of mode 3, on fuel. *)
Fixpoint square_edges (fuel : nat) (r clocks offset : Z) (level : bool) (tick : Z) : option (list OutTransition) :=
  match fuel with
  | O => None
  | S fuel =>
      if tick <=? clocks then
        let level := negb level in
        cons (mkTransition (offset + tick) level) <$>
          square_edges fuel r clocks offset level (tick + mode3_half r level)
      else Some []
  end.

Definition edge_fuel (clocks : Z) : nat := S (Z.to_nat clocks).

Definition counting_transitions (c : Counter) (v clocks offset : Z) : option (list OutTransition) :=
  if clocks =? 0 then Some []
  else if negb (gate c) then
    Some (if periodic (mode c) && negb (out c) then [mkTransition (offset + 1) true] else [])
  else
    let r := effective_reload c in
    match mode c with
    | 0 | 1 => Some (if negb (out c) && negb (v =? 0) && (v <=? clocks) then [mkTransition (offset + v) true] else [])
    | 2 =>
        let '(low, high) := if 2 <=? v then (v - 1, v) else (0, 1) in
        rate_edges (edge_fuel clocks) r clocks offset (out c) low high
    | 3 => square_edges (edge_fuel clocks) r clocks offset (out c) (mode3_half v (out c))
    | 4 | 5 =>
        Some (if negb (out c) then [mkTransition (offset + 1) true]
              else if negb (v =? 0) then
                (if v <=? clocks then [mkTransition (offset + v) false] else []) ++
                (if v <? clocks then [mkTransition (offset + v + 1) true] else [])
              else [])
    | _ => Some []
    end.

Definition out_transitions_in (c : Counter) (clocks : Z) : option (list OutTransition) :=
  if clocks =? 0 then Some []
  else
    match state c with
    | Inactive | WaitGate => Some []
    | LoadDelay => counting_transitions c (effective_reload c) (clocks - 1) 1
    | Counting => counting_transitions c (count c) clocks 0
    end.

End Counter.

(* ------------------------------------------------------------------ *)
(** ** The chip *)

Module Chip.
Import Counter.

Abbreviation Pit := (list Counter).

Definition REFRESH_DIVISOR : Z := 18.

Definition write_control_word (p : Pit) (value clocks : Z) : Pit :=
  let sc := Z.land (Z.shiftr value 6) 3 in
  if sc =? 3 then
    let want_count := Z.land value 32 =? 0 in
    let want_status := Z.land value 16 =? 0 in
    if negb want_count && negb want_status then p
    else imap (fun i c =>
      if has value (Z.shiftl 1 (Z.of_nat i + 1)) then
        let c := if want_count then latch_count c clocks else c in
        if want_status then latch_status c clocks else c
      else c) p
  else alter (fun c => write_control c value clocks) (Z.to_nat sc) p.

(** [Pit::default] *)
Definition power_on : Pit :=
  let p := [default; default; default] in
  let p := write_control_word p 116 0 in
  let p := alter (fun c => write_count c (wrap 8 (Z.land REFRESH_DIVISOR 255))) 1%nat p in
  alter (fun c => write_count c (wrap 8 (Z.shiftr REFRESH_DIVISOR 8))) 1%nat p.

Definition write_port_at (p : Pit) (port value clocks : Z) : bool * Pit :=
  if (64 <=? port) && (port <=? 66) then (true, alter (fun c => write_count c value) (Z.to_nat (port - 64)) p)
  else if port =? 67 then (true, write_control_word p value clocks)
  else (false, p).

Definition read_port_at (p : Pit) (port clocks : Z) : option Z * Pit :=
  if (64 <=? port) && (port <=? 66) then
    let i := Z.to_nat (port - 64) in
    let '(value, c) := read (p !!! i) clocks in
    (Some value, <[i := c]> p)
  else (None, p).

Definition counter_is_bcd (p : Pit) (port : Z) : bool :=
  if (64 <=? port) && (port <=? 66) then bcd (p !!! Z.to_nat (port - 64)) else false.

Definition chip_bulk_decline (p : Pit) (clocks : Z) : option BulkDecline :=
  if Z.shiftl 1 32 <=? clocks then Some SpanTooWide
  else foldr (fun c rest => match bulk_decline c with Some d => Some d | None => rest end) None p.

(** The statistics the source keeps beside an advance are not modelled; the observer's
    calls are the list of transitions, [None] when the enumeration runs out of fuel. *)
Definition bulk_advance (p : Pit) (clocks : Z) (watch_channel : option nat) : Pit * Z * option (list OutTransition) :=
  let seen := match watch_channel ≫= (fun i => p !! i) with
              | Some c => out_transitions_in c clocks
              | None => Some []
              end in
  let edges := match p with c :: _ => (advance c clocks).2 | [] => 0 end in
  (map (fun c => (advance c clocks).1) p, Z.min edges 4294967295, seen).

Definition channel_out (p : Pit) (channel : nat) : bool := from_option out false (p !! channel).

(** The [for tick in 1..=clocks] loop, [n] clocks before its end. *)
Fixpoint tick_loop (p : Pit) (n : nat) (tick : Z) (edges : Z) (watch : option nat) (watched : option bool)
  (seen : list OutTransition) : Pit * Z * list OutTransition :=
  match n with
  | O => (p, edges, seen)
  | S n =>
      let stepped := map step p in
      let edges := match stepped with (_, true) :: _ => wrap 32 (edges + 1) | _ => edges end in
      let p := map fst stepped in
      match watch with
      | Some channel =>
          let level := channel_out p channel in
          if negb (bool_decide (watched = Some level))
          then tick_loop p n (tick + 1) edges watch (Some level) (seen ++ [mkTransition tick level])
          else tick_loop p n (tick + 1) edges watch watched seen
      | None => tick_loop p n (tick + 1) edges watch watched seen
      end
  end.

Definition tick_with_observer (p : Pit) (clocks : Z) (watch_channel : option nat) (bulk : bool)
  : Pit * Z * option (list OutTransition) :=
  if clocks =? 0 then (p, 0, Some [])
  else
    match bulk, chip_bulk_decline p clocks with
    | true, None => bulk_advance p clocks watch_channel
    | _, _ =>
        let '(q, edges, seen) :=
          tick_loop p (Z.to_nat clocks) 1 0 watch_channel (channel_out p <$> watch_channel) [] in
        (q, edges, Some seen)
    end.

Definition tick_recording_out_transitions (p : Pit) (clocks : Z) (channel : nat) (bulk : bool)
  : Pit * Z * option (list OutTransition) := tick_with_observer p clocks (Some channel) bulk.

(** The first of [clock ..] at which the probe's OUT rises, [n] clocks at most. *)
Fixpoint find_rise (probe : Counter) (n : nat) (clock : Z) : option Z :=
  match n with
  | O => None
  | S n => let '(probe, rose) := step probe in if rose then Some clock else find_rise probe n (clock + 1)
  end.

Definition clocks_until_channel0_irq (p : Pit) : option Z := find_rise (p !!! 0%nat) (Z.to_nat 65537) 1.

Definition chip_clocks_until_out_rise (p : Pit) (channel : nat) : option Z := p !! channel ≫= clocks_until_out_rise.

Definition chip_set_gate (p : Pit) (channel : nat) (level : bool) : Pit := alter (fun c => set_gate c level) channel p.

Definition chip_out_after (p : Pit) (channel : nat) (clocks : Z) : option bool :=
  p !! channel ≫= (fun c => out_after c clocks).

End Chip.
