(* ===== verification/PitAdvance.v ===== *)
(** * The analytic advance of the 8254 is the clock-by-clock one

    [advance] and [out_transitions_in] against iterated [step], counter by counter, and the
    two arms of [tick_with_observer] against each other. *)

From S2P Require Import Prelude Pit.
Import Pit.Counter Pit.Chip.

Module Advance.

(* ------------------------------------------------------------------ *)
(** ** The reference *)

(** [n] clocks one by one, with the number of rises of OUT. *)
Fixpoint clocked (n : nat) (c : Counter) : Counter * Z :=
  match n with
  | O => (c, 0)
  | S n => let '(c, rose) := step c in let '(c, k) := clocked n c in (c, b2z rose + k)
  end.

(** The changes of OUT among [n] clocks, the first of which is [tick]. *)
Fixpoint traced (n : nat) (c : Counter) (tick : Z) : list OutTransition :=
  match n with
  | O => []
  | S n =>
      let c' := (step c).1 in
      (if eqb (out c') (out c) then [] else [mkTransition tick (out c')]) ++ traced n c' (tick + 1)
  end.

Record counter_wf (c : Counter) : Prop := mk_counter_wf {
  cw_mode : 0 <= mode c <= 5;
  cw_count : 0 <= count c < 2 ^ 32;
  cw_reload : u16 (reload c)
}.

(* ------------------------------------------------------------------ *)
(** ** Arithmetic of the counting element *)

Lemma land_mask32 x : Z.land x 4294967295 = x mod 2 ^ 32.
Proof. apply (Z.land_ones x 32). lia. Qed.

Lemma land_mask16 x : Z.land x 65535 = x mod 2 ^ 16.
Proof. apply (Z.land_ones x 16). lia. Qed.

Lemma wrap32_eq v n : wrap32 v n = (v - n) mod 2 ^ 32.
Proof.
  unfold wrap32, wrap. rewrite land_mask32. apply Z.mod_mod_divide.
  exists (2 ^ 32). reflexivity.
Qed.

Lemma set_count_id c x : 0 <= x < 2 ^ 32 -> set_count c x = c <| count := x |>.
Proof. intros Hx. unfold set_count. by rewrite land_mask32, Z.mod_small. Qed.

Lemma land_odd v : Z.land v 1 = v mod 2.
Proof. apply (Z.land_ones v 1). lia. Qed.

Lemma effective_bound c : counter_wf c -> 1 <= effective_reload c <= 65536.
Proof. intros []. unfold effective_reload. destruct (Z.eqb_spec (reload c) 0); widths; lia. Qed.

Lemma half_eq v o : mode3_half v o = if Z.even v || negb o then Z.max (v / 2) 1 else v / 2 + 1.
Proof.
  unfold mode3_half, div_ceil. rewrite Zmod_even. destruct (Z.even v), o; done.
Qed.

Lemma value_eq v o k : mode3_value_in_half v o k =
  if k =? 0 then v else v - 2 * k + (if Z.even v then 0 else if o then 1 else -1).
Proof.
  unfold mode3_value_in_half. rewrite land_odd, Zmod_even. destruct (Z.even v), o, (k =? 0); cbn; lia.
Qed.

(** The first clock of mode 3 takes off the odd unit. *)
Definition trim (v : Z) (o : bool) : Z := if Z.even v then 2 else if o then 1 else 3.

Lemma even_trim v o : Z.even (v - trim v o) = true.
Proof. unfold trim. rewrite Z.even_sub. destruct (Z.even v) eqn:E, o; done. Qed.

Lemma half_small v o : 0 <= v <= trim v o -> mode3_half v o = 1.
Proof.
  intros Hv. rewrite half_eq. unfold trim in Hv. pose proof (Zmod_even v) as Hm.
  destruct (Z.even v), o; cbn [orb negb]; Z.to_euclidean_division_equations; lia.
Qed.

Lemma half_large v o : trim v o < v -> mode3_half v o = 1 + mode3_half (v - trim v o) o.
Proof.
  intros Hv. rewrite !half_eq, even_trim. unfold trim in *. pose proof (Zmod_even v) as Hm.
  destruct (Z.even v), o; cbn [orb negb]; Z.to_euclidean_division_equations; lia.
Qed.

Lemma value_step v o k : 0 < k -> mode3_value_in_half v o k = mode3_value_in_half (v - trim v o) o (k - 1).
Proof.
  intros Hk. rewrite !value_eq, even_trim. unfold trim. rewrite (proj2 (Z.eqb_neq k 0)) by lia.
  destruct (Z.eqb_spec (k - 1) 0), (Z.even v), o; lia.
Qed.

Lemma half_bounds v o : 0 <= v -> 1 <= mode3_half v o <= Z.max 1 v.
Proof.
  intros Hv. rewrite half_eq. pose proof (Zmod_even v).
  destruct (Z.even v), o; cbn [orb negb]; Z.to_euclidean_division_equations; lia.
Qed.

(** The two halves make a period. *)
Lemma halves r o : 2 <= r -> mode3_half r o + mode3_half r (negb o) = r.
Proof.
  intros Hr. rewrite !half_eq. pose proof (Zmod_even r).
  destruct (Z.even r), o; cbn [orb negb]; Z.to_euclidean_division_equations; lia.
Qed.

Lemma value_bounds v o k : 0 <= v -> 0 <= k < mode3_half v o -> 0 <= mode3_value_in_half v o k <= v.
Proof.
  intros Hv Hk. rewrite value_eq. rewrite half_eq in Hk. pose proof (Zmod_even v).
  destruct (Z.eqb_spec k 0), (Z.even v), o; cbn [orb negb] in *; Z.to_euclidean_division_equations; lia.
Qed.

(* ------------------------------------------------------------------ *)
(** ** One clock of the advance *)

Definition then_advance (s : Counter * bool) (n : Z) : Counter * Z :=
  let '(c, rose) := s in let '(c, k) := advance c n in (c, b2z rose + k).

Lemma advance_live c n : state c = Counting -> advance c n = advance_counting c n.
Proof. intros Hs. unfold advance, advance_counting. rewrite Hs. by destruct (n =? 0). Qed.

Lemma advance_idle c n : state c = Inactive -> advance c n = (c, 0).
Proof. intros Hs. unfold advance. rewrite Hs. by destruct (n =? 0). Qed.

(** Evaluates projections and updates of explicit records. *)
Ltac field_simpl :=
  cbn [mode rw bcd count reload out gate state null_count latch status_latch write_msb_next read_msb_next
       update eta_Counter fst snd negb andb orb b2z then_advance] in *.

(** Decides one comparison of the goal by arithmetic. *)
Ltac decide_test :=
  match goal with
  | |- context [?a =? ?b] => destruct (Z.eqb_spec a b); try (exfalso; lia)
  | |- context [?a <=? ?b] => destruct (Z.leb_spec a b); try (exfalso; lia)
  | |- context [?a <? ?b] => destruct (Z.ltb_spec a b); try (exfalso; lia)
  end.

Section Step.
Context (r_w : RwMode) (v r : Z) (o : bool) (nc : bool) (la sl : option Z) (wm rm : bool).
Context (Hv : 0 <= v < 2 ^ 32) (Hr : u16 r).

Abbreviation live m o v := (mkCounter m r_w false v r o true Counting nc la sl wm rm).

Abbreviation R := (if r =? 0 then 65536 else r).

Lemma dec_id x (k : nat) c : bcd c = false -> Z.of_nat k <= x < 2 ^ 32 -> dec c x k = x - Z.of_nat k.
Proof. intros Hb Hx. unfold dec. rewrite Hb. apply wrap_id. split; lia. Qed.

Lemma reload_live m x y : effective_reload (live m x y) = R.
Proof. done. Qed.

Lemma reload_bound : 1 <= R <= 65536.
Proof. destruct Hr. destruct (Z.eqb_spec r 0); widths; lia. Qed.

Lemma rate_after n x o' : 2 <= R -> 0 < n -> 0 <= x < 2 ^ 32 ->
  advance_counting (live 2 o' x) n =
  let '(first, rose) := if 2 <=? x then (x, true) else (1, negb o') in
  if n <? first then (live 2 (if x - n =? 1 then false else o') (x - n), 0)
  else (live 2 (negb ((n - first) mod R =? R - 1)) (R - (n - first) mod R), b2z rose + (n - first) / R).
Proof.
  intros He Hn Hx. pose proof reload_bound. unfold advance_counting. field_simpl.
  rewrite (proj2 (Z.eqb_neq n 0)), reload_live by lia.
  destruct (Z.leb_spec 2 x).
  - destruct (Z.ltb_spec n x).
    + rewrite set_count_id by lia. field_simpl. by destruct (x - n =? 1).
    + pose proof (Z.mod_pos_bound (n - x) R). rewrite set_count_id by lia. done.
  - destruct (Z.ltb_spec n 1); [lia|]. pose proof (Z.mod_pos_bound (n - 1) R). rewrite set_count_id by lia. done.
Qed.

Lemma rate_clock o' x : 0 <= x < 2 ^ 32 ->
  step (live 2 o' x) =
  if x <=? 1 then (live 2 true R, negb o') else (live 2 (if x =? 2 then false else o') (x - 1), false).
Proof.
  intros Hx. unfold step, step_counting. field_simpl. rewrite reload_live. destruct (Z.leb_spec x 1); [done|].
  rewrite (dec_id x 1) by (done || lia). change (Z.of_nat 1) with 1.
  destruct (Z.eqb_spec (x - 1) 1), (Z.eqb_spec x 2); lia || done.
Qed.

Lemma rate_step n : 2 <= R -> 0 < n ->
  advance_counting (live 2 o v) n = then_advance (step_counting (live 2 o v)) (n - 1).
Proof.
  intros He Hn. pose proof reload_bound. rewrite rate_after by done. change (step_counting ?c) with (step c).
  rewrite rate_clock by done. destruct (Z.leb_spec v 1).
  - rewrite (proj2 (Z.leb_gt 2 v)), (proj2 (Z.ltb_ge n 1)) by lia. unfold then_advance. rewrite advance_live by done.
    destruct (decide (n = 1)) as [->|].
    { change (1 - 1) with 0. rewrite Z.mod_small, Z.div_small, Z.sub_0_r by lia. rewrite (proj2 (Z.eqb_neq 0 (R - 1))) by lia. done. }
    rewrite (rate_after (n - 1) R true) by lia. rewrite (proj2 (Z.leb_le 2 R)) by lia.
    destruct (Z.ltb_spec (n - 1) R).
    + rewrite Z.mod_small, Z.div_small by lia. f_equal. f_equal.
      destruct (Z.eqb_spec (R - (n - 1)) 1), (Z.eqb_spec (n - 1) (R - 1)); lia || done.
    + replace (n - 1) with (n - 1 - R + 1 * R) by lia. rewrite Z.mod_add, Z.div_add by lia.
      rewrite Z.mul_1_l, Z.add_simpl_r. f_equal. cbn [b2z]. lia.
  - rewrite (proj2 (Z.leb_le 2 v)) by lia. unfold then_advance. destruct (Z.eqb_spec v 2).
    + rewrite advance_live by done. destruct (Z.ltb_spec n v).
      { replace (n - 1) with 0 by lia. replace n with 1 by lia. rewrite (proj2 (Z.eqb_eq (v - 1) 1)) by lia. done. }
      rewrite (rate_after (n - 1) (v - 1) false) by lia. rewrite (proj2 (Z.leb_gt 2 (v - 1))), (proj2 (Z.ltb_ge (n - 1) 1)) by lia.
      replace (n - 1 - 1) with (n - v) by lia. done.
    + rewrite advance_live by done. destruct (decide (n = 1)) as [->|].
      { rewrite (proj2 (Z.ltb_lt 1 v)) by lia. rewrite (proj2 (Z.eqb_neq (v - 1) 1)) by lia. done. }
      rewrite (rate_after (n - 1) (v - 1) o) by lia. rewrite (proj2 (Z.leb_le 2 (v - 1))) by lia.
      replace (n - 1 - (v - 1)) with (n - v) by lia. replace (v - 1 - (n - 1)) with (v - n) by lia.
      destruct (Z.ltb_spec n v), (Z.ltb_spec (n - 1) (v - 1)); (lia || done).
Qed.

(** The phase of mode 3, [rem] clocks after a toggle onto [l]. *)
Definition square_phase (R : Z) (l : bool) (rem : Z) : bool * Z :=
  let phase := rem mod R in
  let half := mode3_half R l in
  if phase <? half then (l, mode3_value_in_half R l phase)
  else (negb l, mode3_value_in_half R (negb l) (phase - half)).

Definition square_rises (R : Z) (l : bool) (rem : Z) : Z :=
  if l then 1 + rem / R
  else let half := mode3_half R l in if half <=? rem then (rem - half) / R + 1 else 0.

Lemma square_after n x o' : 2 <= R -> 0 < n -> 0 <= x < 2 ^ 32 ->
  advance_counting (live 3 o' x) n =
  let half := mode3_half x o' in
  if n <? half then (live 3 o' (mode3_value_in_half x o' n), 0)
  else let '(l, k) := square_phase R (negb o') (n - half) in
       (live 3 l k, square_rises R (negb o') (n - half)).
Proof.
  intros He Hn Hx. pose proof reload_bound. unfold advance_counting. field_simpl.
  rewrite (proj2 (Z.eqb_neq n 0)), reload_live by lia. cbv zeta.
  pose proof (half_bounds x o' ltac:(lia)). destruct (Z.ltb_spec n (mode3_half x o')).
  - pose proof (value_bounds x o' n). rewrite set_count_id by lia. done.
  - unfold square_phase, square_rises. set (rem := n - mode3_half x o'). set (l := negb o').
    pose proof (Z.mod_pos_bound rem R ltac:(lia)). pose proof (halves R l He). pose proof (half_bounds R l ltac:(lia)).
    destruct (Z.ltb_spec (rem mod R) (mode3_half R l)).
    + pose proof (value_bounds R l (rem mod R) ltac:(lia) ltac:(lia)). rewrite set_count_id by lia. done.
    + pose proof (value_bounds R (negb l) (rem mod R - mode3_half R l) ltac:(lia) ltac:(lia)).
      rewrite set_count_id by lia. done.
Qed.

(** A half later the phase is the other one. *)
Lemma square_shift l rem : 2 <= R -> mode3_half R l <= rem ->
  square_phase R l rem = square_phase R (negb l) (rem - mode3_half R l) /\
  square_rises R l rem = b2z l + square_rises R (negb l) (rem - mode3_half R l).
Proof.
  intros He Hrem. pose proof (halves R l He) as Hs. pose proof (half_bounds R l ltac:(lia)). pose proof (half_bounds R (negb l) ltac:(lia)).
  set (h := mode3_half R l) in *. set (h' := mode3_half R (negb l)) in *. pose proof (Z.mod_pos_bound rem R ltac:(lia)).
  pose proof (Z.div_mod rem R ltac:(lia)) as Hd. split.
  - unfold square_phase. fold h h'. rewrite negb_involutive. destruct (Z.ltb_spec (rem mod R) h).
    + replace ((rem - h) mod R) with (rem mod R + h')
        by (rewrite <- (Z.mod_unique_pos (rem - h) R (rem / R - 1) (rem mod R + h')); lia).
      rewrite (proj2 (Z.ltb_ge _ h')) by lia. by rewrite Z.add_simpl_r.
    + replace ((rem - h) mod R) with (rem mod R - h)
        by (rewrite <- (Z.mod_unique_pos (rem - h) R (rem / R) (rem mod R - h)); lia).
      rewrite (proj2 (Z.ltb_lt _ h')) by lia. done.
  - unfold square_rises. fold h h'. destruct l; cbn [negb b2z].
    + destruct (Z.leb_spec h' (rem - h)).
      * replace (rem - h - h') with (rem + -1 * R) by lia. rewrite Z.div_add by lia. lia.
      * rewrite Z.div_small by lia. lia.
    + rewrite (proj2 (Z.leb_le h rem)) by lia. lia.
Qed.

Lemma square_clock o' x : 0 <= x < 2 ^ 32 ->
  step (live 3 o' x) =
  if x <=? trim x o' then (live 3 (negb o') R, negb o') else (live 3 o' (x - trim x o'), false).
Proof.
  intros Hx. unfold step, step_counting. field_simpl. rewrite reload_live, land_odd, Zmod_even. unfold trim.
  destruct (Z.even x), o'; cbn [Z.eqb Pos.eqb negb]; change (Z.of_nat 1) with 1; change (Z.of_nat 2) with 2; change (Z.of_nat 3) with 3;
    (case_step; [done|]); bool_prop; rewrite dec_id; done || lia.
Qed.

Lemma trim_bound x o' : 1 <= trim x o' <= 3.
Proof. unfold trim. destruct (Z.even x), o'; lia. Qed.

Lemma square_step n : 2 <= R -> 0 < n ->
  advance_counting (live 3 o v) n = then_advance (step_counting (live 3 o v)) (n - 1).
Proof.
  intros He Hn. pose proof reload_bound. rewrite square_after by done. change (step_counting ?c) with (step c).
  rewrite square_clock by done. cbv zeta. pose proof (trim_bound v o).
  pose proof (half_bounds R (negb o) ltac:(lia)). pose proof (halves R (negb o) He). pose proof (half_bounds R (negb (negb o)) ltac:(lia)).
  destruct (Z.leb_spec v (trim v o)).
  - rewrite half_small by lia. rewrite (proj2 (Z.ltb_ge n 1)) by lia. unfold then_advance. rewrite advance_live by done.
    destruct (decide (n = 1)) as [->|].
    { change (1 - 1) with 0. unfold square_phase, square_rises. cbv zeta.
      rewrite Z.mod_small, Z.div_small by lia. rewrite (proj2 (Z.ltb_lt 0 _)), (proj2 (Z.leb_gt _ 0)) by lia. by destruct o. }
    rewrite (square_after (n - 1) R (negb o)) by lia. cbv zeta. destruct (Z.ltb_spec (n - 1) (mode3_half R (negb o))).
    + unfold square_phase, square_rises. cbv zeta. rewrite Z.mod_small, Z.div_small by lia.
      rewrite (proj2 (Z.ltb_lt _ _)), (proj2 (Z.leb_gt _ (n - 1))) by lia. by destruct o.
    + destruct (square_shift (negb o) (n - 1) He ltac:(lia)) as [-> ->].
      by destruct (square_phase R (negb (negb o)) _).
  - rewrite (half_large v o) by lia. unfold then_advance.
    rewrite advance_live by done. assert (0 <= v - trim v o < 2 ^ 32) by lia.
    pose proof (half_bounds (v - trim v o) o ltac:(lia)).
    destruct (decide (n = 1)) as [->|].
    { rewrite (proj2 (Z.ltb_lt 1 _)) by lia. rewrite value_step by lia. done. }
    rewrite (square_after (n - 1) (v - trim v o) o) by lia. cbv zeta.
    replace (n - (1 + mode3_half (v - trim v o) o)) with (n - 1 - mode3_half (v - trim v o) o) by lia.
    destruct (Z.ltb_spec n (1 + mode3_half (v - trim v o) o)), (Z.ltb_spec (n - 1) (mode3_half (v - trim v o) o)); try lia.
    + by rewrite value_step by lia.
    + by destruct (square_phase R (negb o) _).
Qed.

Lemma dec_live m o' x : 0 <= x < 2 ^ 32 -> dec (live m o' x) x 1 = (x - 1) mod 2 ^ 32.
Proof. done. Qed.

Lemma wrap_pred x : 0 <= x < 2 ^ 32 -> (x - 1) mod 2 ^ 32 = if x =? 0 then 2 ^ 32 - 1 else x - 1.
Proof.
  intros Hx. destruct (Z.eqb_spec x 0) as [->|]; [done|]. apply Z.mod_small. lia.
Qed.

Lemma wrap_ahead x n : ((x - 1) mod 2 ^ 32 - n) mod 2 ^ 32 = (x - 1 - n) mod 2 ^ 32.
Proof. by rewrite Zminus_mod_idemp_l. Qed.

Lemma countdown_after m o' x n : m = 0 \/ m = 1 -> 0 <= n -> 0 <= x < 2 ^ 32 ->
  advance_counting (live m o' x) n =
  if negb o' && negb (x =? 0) && (x <=? n) then
    (if m =? 0 then live 0 true ((x - n) mod 2 ^ 32)
     else mkCounter m r_w false 0 r true true Inactive nc la sl wm rm, 1)
  else (live m o' ((x - n) mod 2 ^ 32), 0).
Proof.
  intros Hm Hn Hx. assert (Hset : forall m' o' y, set_count (live m' o' y) (wrap32 x n) = live m' o' ((x - n) mod 2 ^ 32)).
  { intros m' o'' y. pose proof (Z.mod_pos_bound (x - n) (2 ^ 32)). rewrite wrap32_eq, set_count_id by lia. done. }
  unfold advance_counting. destruct (Z.eqb_spec n 0) as [->|].
  - rewrite Z.sub_0_r, Z.mod_small by lia. destruct o', (Z.eqb_spec x 0); cbn [negb andb]; [done..|].
    by rewrite (proj2 (Z.leb_gt x 0)) by lia.
  - destruct Hm as [-> | ->]; field_simpl; rewrite !Hset; destruct o', (x =? 0), (x <=? n); done.
Qed.

Lemma countdown_clock m o' x : m = 0 \/ m = 1 -> 0 <= x < 2 ^ 32 ->
  step (live m o' x) =
  if (x =? 1) && negb o' then
    ((if m =? 0 then live 0 true 0 else mkCounter m r_w false 0 r true true Inactive nc la sl wm rm), true)
  else (live m o' ((x - 1) mod 2 ^ 32), false).
Proof.
  intros Hm Hx. unfold step, step_counting. field_simpl. rewrite dec_live, wrap_pred by done.
  destruct Hm as [-> | ->]; field_simpl;
    (destruct (Z.eqb_spec x 0); [by subst x|]);
    (destruct (Z.eqb_spec (x - 1) 0), (Z.eqb_spec x 1), o'; try lia; try done; replace x with 1 by lia; done).
Qed.

Lemma countdown_step m n : m = 0 \/ m = 1 -> 0 < n < 2 ^ 32 ->
  advance_counting (live m o v) n = then_advance (step_counting (live m o v)) (n - 1).
Proof.
  intros Hm Hn. rewrite countdown_after by lia.
  change (step_counting ?c) with (step c). rewrite countdown_clock by done. assert (Hwrap : forall k, ((v - 1) mod 2 ^ 32 - k) mod 2 ^ 32 = (v - 1 - k) mod 2 ^ 32)
    by (intros; by rewrite Zminus_mod_idemp_l).
  pose proof (Z.mod_pos_bound (v - 1) (2 ^ 32) ltac:(lia)).
  destruct ((v =? 1) && negb o) eqn:E; unfold then_advance.
  - apply andb_true_iff in E as [->%Z.eqb_eq ->]. rewrite (proj2 (Z.leb_le 1 n)) by lia. cbn [Z.eqb Pos.eqb negb andb].
    destruct Hm as [-> | ->]; cbn [Z.eqb].
    + rewrite advance_live, countdown_after by (done || lia). cbn [negb andb]. do 3 f_equal. lia.
    + by rewrite advance_idle.
  - rewrite advance_live, countdown_after by (done || lia). rewrite Hwrap, wrap_pred by done.
    replace (v - 1 - (n - 1)) with (v - n) by lia.
    destruct (Z.eqb_spec v 0) as [->|]; [|destruct (Z.eqb_spec v 1) as [->|]].
    + rewrite (proj2 (Z.leb_gt (2 ^ 32 - 1) (n - 1))) by lia. rewrite !andb_false_r. by destruct o.
    + destruct o; [done|discriminate].
    + rewrite (proj2 (Z.eqb_neq (v - 1) 0)) by lia.
      replace (v - 1 <=? n - 1) with (v <=? n) by (destruct (Z.leb_spec v n), (Z.leb_spec (v - 1) (n - 1)); lia).
      by destruct (negb o && negb false && (v <=? n)).
Qed.

Lemma strobe_after m o' x n : m = 4 \/ m = 5 -> 0 <= n -> 0 <= x < 2 ^ 32 ->
  advance_counting (live m o' x) n =
  if n =? 0 then (live m o' x, 0)
  else if negb o' then (mkCounter m r_w false x r true true Inactive nc la sl wm rm, 1)
  else if x =? 0 then (live m true ((x - n) mod 2 ^ 32), 0)
  else if n <=? x then (live m (negb (n =? x)) (x - n), 0)
  else (mkCounter m r_w false 0 r true true Inactive nc la sl wm rm, 1).
Proof.
  intros Hm Hn Hx. unfold advance_counting. destruct (Z.eqb_spec n 0); [done|].
  pose proof (Z.mod_pos_bound (x - n) (2 ^ 32)).
  destruct Hm as [-> | ->]; field_simpl; (destruct o'; [|done]); cbn [negb]; (destruct (x =? 0);
    [by rewrite wrap32_eq, set_count_id by lia|destruct (Z.leb_spec n x); [|done]]);
    rewrite set_count_id by lia; by destruct (n =? x).
Qed.

Lemma strobe_clock m o' x : m = 4 \/ m = 5 -> 0 <= x < 2 ^ 32 ->
  step (live m o' x) =
  if o' then (live m (negb (x =? 1)) ((x - 1) mod 2 ^ 32), false)
  else (mkCounter m r_w false x r true true Inactive nc la sl wm rm, true).
Proof.
  intros Hm Hx. unfold step, step_counting. field_simpl.
  destruct Hm as [-> | ->]; field_simpl; (destruct o'; [|done]); rewrite dec_live, wrap_pred by done;
    (destruct (Z.eqb_spec x 0); [by subst x|]); destruct (Z.eqb_spec (x - 1) 0), (Z.eqb_spec x 1); lia || done.
Qed.

Lemma strobe_step m n : m = 4 \/ m = 5 -> 0 < n < 2 ^ 32 ->
  advance_counting (live m o v) n = then_advance (step_counting (live m o v)) (n - 1).
Proof.
  intros Hm Hn. rewrite strobe_after by lia. rewrite (proj2 (Z.eqb_neq n 0)) by lia.
  change (step_counting ?c) with (step c). rewrite strobe_clock by done. pose proof (Z.mod_pos_bound (v - 1) (2 ^ 32) ltac:(lia)). unfold then_advance.
  destruct o; cbn [negb]; [|by rewrite advance_idle].
  rewrite advance_live, strobe_after by (done || lia).
  assert (Hwrap : forall k, ((v - 1) mod 2 ^ 32 - k) mod 2 ^ 32 = (v - 1 - k) mod 2 ^ 32)
    by (intros; by rewrite Zminus_mod_idemp_l).
  rewrite Hwrap. replace (v - 1 - (n - 1)) with (v - n) by lia. rewrite wrap_pred by done.
  destruct (Z.eqb_spec v 0) as [->|]; [|destruct (Z.eqb_spec v 1) as [->|]]; cbn [negb].
  - change (2 ^ 32 - 1 =? 0) with false. destruct (Z.eqb_spec (n - 1) 0).
    + by replace n with 1 by lia.
    + rewrite (proj2 (Z.leb_le (n - 1) (2 ^ 32 - 1))), (proj2 (Z.eqb_neq (n - 1) (2 ^ 32 - 1))) by lia.
      do 3 f_equal. rewrite <- (Z.mod_unique_pos (0 - n) (2 ^ 32) (-1) (2 ^ 32 - n)); lia.
  - destruct (Z.eqb_spec (n - 1) 0), (Z.leb_spec n 1); try lia; [|done]. by replace n with 1 by lia.
  - rewrite (proj2 (Z.eqb_neq (v - 1) 0)) by lia. replace (v - 1 - (n - 1)) with (v - n) by lia.
    destruct (Z.eqb_spec (n - 1) 0).
    + rewrite (proj2 (Z.leb_le n v)), (proj2 (Z.eqb_neq n v)) by lia. cbn [negb]. do 3 f_equal. lia.
    + replace (n - 1 <=? v - 1) with (n <=? v) by (destruct (Z.leb_spec n v), (Z.leb_spec (n - 1) (v - 1)); lia).
      replace (n - 1 =? v - 1) with (n =? v) by (destruct (Z.eqb_spec n v), (Z.eqb_spec (n - 1) (v - 1)); lia).
      by destruct (n <=? v).
Qed.

End Step.

(* ------------------------------------------------------------------ *)
(** ** The enumeration of transitions *)

Lemma traced_idle n : forall c t, state c = Inactive \/ state c = WaitGate -> traced n c t = [].
Proof.
  induction n as [|n IH]; intros c t Hs; cbn [traced]; [done|].
  assert (E : (step c).1 = c) by (unfold step; by destruct Hs as [-> | ->]). rewrite E.
  by rewrite eqb_reflx, IH.
Qed.

Lemma square_edges_shift fuel r n off : forall l t,
  square_edges fuel r (n + 1) off l (t + 1) = square_edges fuel r n (off + 1) l t.
Proof.
  induction fuel as [|fuel IH]; intros l t; cbn [square_edges]; [done|].
  replace (t + 1 <=? n + 1) with (t <=? n) by (destruct (Z.leb_spec t n), (Z.leb_spec (t + 1) (n + 1)); lia).
  replace (t + 1 + mode3_half r (negb l)) with (t + mode3_half r (negb l) + 1) by lia. rewrite IH.
  by replace (off + (t + 1)) with (off + 1 + t) by lia.
Qed.

Lemma rate_edges_shift fuel r n off : 1 <= r -> forall l low high, 1 <= low -> 1 <= high ->
  rate_edges fuel r (n + 1) off l (low + 1) (high + 1) = rate_edges fuel r n (off + 1) l low high.
Proof.
  intros Hr. induction fuel as [|fuel IH]; intros l low high Hl Hh; cbn [rate_edges]; [done|].
  rewrite !(proj2 (Z.leb_le 1 _)) by lia.
  replace (low + 1 <=? n + 1) with (low <=? n) by (destruct (Z.leb_spec low n), (Z.leb_spec (low + 1) (n + 1)); lia).
  replace (n + 1 <? low + 1) with (n <? low) by (destruct (Z.ltb_spec n low), (Z.ltb_spec (n + 1) (low + 1)); lia).
  replace (n + 1 <? high + 1) with (n <? high) by (destruct (Z.ltb_spec n high), (Z.ltb_spec (n + 1) (high + 1)); lia).
  replace (high + 1 + r - 1) with (high + r - 1 + 1) by lia. replace (high + 1 + r) with (high + r + 1) by lia.
  rewrite IH by lia. replace (off + (low + 1)) with (off + 1 + low) by lia.
  by replace (off + (high + 1)) with (off + 1 + high) by lia.
Qed.

(** The loop entered at the low clock itself. *)
Lemma rate_edges_low fuel r n off l high : 1 <= r -> 0 <= n -> 1 <= high ->
  rate_edges fuel r (n + 1) off l 1 (high + 1) =
  app (if l then [mkTransition (off + 1) false] else []) <$> rate_edges fuel r n (off + 1) false 0 high.
Proof.
  intros Hr Hn Hh. destruct fuel as [|fuel]; cbn [rate_edges]; [done|].
  rewrite (proj2 (Z.leb_le 1 (n + 1))), (proj2 (Z.ltb_ge (n + 1) 1)) by lia. cbn [andb negb app].
  change (1 <=? 1) with true. change (1 <=? 0) with false. cbn [andb negb app].
  replace (n + 1 <? high + 1) with (n <? high) by (destruct (Z.ltb_spec n high), (Z.ltb_spec (n + 1) (high + 1)); lia).
  destruct l; cbn [negb andb app]; (destruct (n <? high); [done|]);
    replace (high + 1 + r - 1) with (high + r - 1 + 1) by lia; replace (high + 1 + r) with (high + r + 1) by lia;
    rewrite rate_edges_shift by lia; replace (off + (high + 1)) with (off + 1 + high) by lia;
    by destruct (rate_edges fuel r n (off + 1) true (high + r - 1) (high + r)).
Qed.

Section Trace.
Context (r_w : RwMode) (r : Z) (nc : bool) (la sl : option Z) (wm rm : bool) (Hr : u16 r).

Abbreviation live m o v := (mkCounter m r_w false v r o true Counting nc la sl wm rm).
Abbreviation R := (if r =? 0 then 65536 else r).

Lemma square_traced n : 2 <= R -> forall fuel v o off, (n < fuel)%nat -> 0 <= v < 2 ^ 32 ->
  square_edges fuel R (Z.of_nat n) off o (mode3_half v o) = Some (traced n (live 3 o v) (off + 1)).
Proof.
  intros He. induction n as [|n IH]; intros fuel v o off Hf Hv.
  - destruct fuel; [lia|]. cbn [square_edges traced]. pose proof (half_bounds v o ltac:(lia)).
    by rewrite (proj2 (Z.leb_gt _ _)) by lia.
  - pose proof (reload_bound r Hr). pose proof (trim_bound v o). rewrite Nat2Z.inj_succ, <- Z.add_1_r. cbn [traced].
    rewrite square_clock by done. destruct (Z.leb_spec v (trim v o)); cbn [fst out].
    + rewrite half_small by lia. destruct fuel as [|fuel]; [lia|]. cbn [square_edges].
      rewrite (proj2 (Z.leb_le 1 (Z.of_nat n + 1))), (Z.add_comm 1 (mode3_half _ _)), square_edges_shift by lia.
      rewrite (IH fuel R (negb o)) by lia. by destruct o.
    + rewrite half_large, (Z.add_comm 1 (mode3_half _ _)), square_edges_shift by lia.
      rewrite IH by lia. by rewrite eqb_reflx.
Qed.

Lemma rate_traced n : 2 <= R -> forall fuel v o off, (n < fuel)%nat -> 0 <= v < 2 ^ 32 ->
  (let '(low, high) := if 2 <=? v then (v - 1, v) else (0, 1) in rate_edges fuel R (Z.of_nat n) off o low high) =
  Some (traced n (live 2 o v) (off + 1)).
Proof.
  intros He. induction n as [|n IH]; intros fuel v o off Hf Hv.
  - destruct fuel; [lia|]. cbn [traced]. destruct (Z.leb_spec 2 v); cbn [rate_edges].
    + rewrite (proj2 (Z.leb_le 1 (v - 1))), (proj2 (Z.ltb_lt _ (v - 1))) by lia. done.
    + done.
  - pose proof (reload_bound r Hr). rewrite Nat2Z.inj_succ, <- Z.add_1_r. cbn [traced].
    rewrite rate_clock by done. destruct (Z.leb_spec v 1); cbn [fst out].
    + rewrite (proj2 (Z.leb_gt 2 v)) by lia. destruct fuel as [|fuel]; [lia|]. cbn [rate_edges].
      change (1 <=? 0) with false. cbn [andb negb app]. rewrite (proj2 (Z.ltb_ge (Z.of_nat n + 1) 1)) by lia.
      replace (1 + R - 1) with (R - 1 + 1) by lia. rewrite (Z.add_comm 1 R), rate_edges_shift by lia.
      specialize (IH fuel R true (off + 1) ltac:(lia) ltac:(lia)). rewrite (proj2 (Z.leb_le 2 R)) in IH by lia.
      rewrite IH. by destruct o.
    + rewrite (proj2 (Z.leb_le 2 v)) by lia. destruct (Z.eqb_spec v 2) as [->|].
      * pose proof (rate_edges_low fuel R (Z.of_nat n) off o 1 ltac:(lia) ltac:(lia) ltac:(lia)) as Hlow.
        change (1 + 1) with 2 in Hlow. change (2 - 1) with 1. rewrite Hlow.
        pose proof (IH fuel 1 false (off + 1) ltac:(lia) ltac:(lia)) as E. change (2 <=? 1) with false in E.
        cbv iota beta in E. rewrite E. by destruct o.
      * specialize (IH fuel (v - 1) o (off + 1) ltac:(lia) ltac:(lia)). rewrite (proj2 (Z.leb_le 2 (v - 1))) in IH by lia.
        pose proof (rate_edges_shift fuel R (Z.of_nat n) off ltac:(lia) o (v - 1 - 1) (v - 1) ltac:(lia) ltac:(lia)) as Hsh.
        rewrite !Z.sub_add in Hsh. rewrite Hsh, IH, eqb_reflx. done.
Qed.

Lemma countdown_traced m n : m = 0 \/ m = 1 -> Z.of_nat n < 2 ^ 32 -> forall v o off, 0 <= v < 2 ^ 32 ->
  traced n (live m o v) (off + 1) =
  if negb o && negb (v =? 0) && (v <=? Z.of_nat n) then [mkTransition (off + v) true] else [].
Proof.
  intros Hm. induction n as [|n IH]; intros Hn v o off Hv; cbn [traced].
  - change (Z.of_nat 0) with 0. destruct (Z.eqb_spec v 0), o; cbn [negb andb]; [done..|]. by rewrite (proj2 (Z.leb_gt v 0)) by lia.
  - rewrite countdown_clock by done. destruct (Z.eqb_spec v 1) as [->|]; [destruct o|]; cbn [negb andb].
    + cbn [fst out]. rewrite (IH ltac:(lia)) by done. done.
    + rewrite (proj2 (Z.leb_le 1 _)) by lia. destruct Hm as [-> | ->]; cbn [fst Z.eqb out eqb].
      * by rewrite (IH ltac:(lia)) by done.
      * by rewrite traced_idle by auto.
    + cbn [fst out]. rewrite eqb_reflx, wrap_pred by done. cbn [app].
      destruct (Z.eqb_spec v 0) as [->|].
      * rewrite (IH ltac:(lia)) by done. rewrite (proj2 (Z.leb_gt (2 ^ 32 - 1) _)) by lia. by rewrite !andb_false_r.
      * rewrite (IH ltac:(lia)) by (done || lia). rewrite (proj2 (Z.eqb_neq (v - 1) 0)) by lia.
        replace (v - 1 <=? Z.of_nat n) with (v <=? Z.of_nat (S n))
          by (destruct (Z.leb_spec v (Z.of_nat (S n))), (Z.leb_spec (v - 1) (Z.of_nat n)); lia).
        by replace (off + 1 + (v - 1)) with (off + v) by lia.
Qed.

Lemma strobe_traced m n : m = 4 \/ m = 5 -> Z.of_nat n < 2 ^ 32 -> forall v o off, 0 <= v < 2 ^ 32 ->
  traced n (live m o v) (off + 1) =
  if Z.of_nat n =? 0 then [] else
  if negb o then [mkTransition (off + 1) true]
  else if negb (v =? 0) then
    (if v <=? Z.of_nat n then [mkTransition (off + v) false] else []) ++
    (if v <? Z.of_nat n then [mkTransition (off + v + 1) true] else [])
  else [].
Proof.
  intros Hm. induction n as [|n IH]; intros Hn v o off Hv; cbn [traced]; [done|].
  rewrite (proj2 (Z.eqb_neq (Z.of_nat (S n)) 0)), strobe_clock by (done || lia).
  destruct o; cbn [negb fst out eqb]; [|by rewrite traced_idle by auto].
  rewrite (IH ltac:(lia)) by (apply Z.mod_pos_bound; lia). rewrite wrap_pred by done.
  destruct (Z.eqb_spec v 0) as [->|]; [|destruct (Z.eqb_spec v 1) as [->|]]; cbn [negb eqb app].
  - change (2 ^ 32 - 1 =? 0) with false. cbn [negb].
    rewrite (proj2 (Z.leb_gt (2 ^ 32 - 1) _)), (proj2 (Z.ltb_ge (2 ^ 32 - 1) _)) by lia. by destruct (Z.of_nat n =? 0).
  - rewrite (proj2 (Z.leb_le 1 _)) by lia. cbn [app].
    destruct (Z.eqb_spec (Z.of_nat n) 0), (Z.ltb_spec 1 (Z.of_nat (S n))); lia || done.
  - rewrite (proj2 (Z.eqb_neq (v - 1) 0)) by lia. cbn [negb].
    replace (v - 1 <=? Z.of_nat n) with (v <=? Z.of_nat (S n))
      by (destruct (Z.leb_spec v (Z.of_nat (S n))), (Z.leb_spec (v - 1) (Z.of_nat n)); lia).
    replace (v - 1 <? Z.of_nat n) with (v <? Z.of_nat (S n))
      by (destruct (Z.ltb_spec v (Z.of_nat (S n))), (Z.ltb_spec (v - 1) (Z.of_nat n)); lia).
    replace (off + 1 + (v - 1)) with (off + v) by lia.
    destruct (Z.eqb_spec (Z.of_nat n) 0); [|done].
    rewrite (proj2 (Z.leb_gt v _)), (proj2 (Z.ltb_ge v _)) by lia. done.
Qed.

End Trace.

Lemma decline_reload c : bulk_decline c = None -> state c = Counting \/ state c = LoadDelay ->
  bcd c = false /\ (periodic (mode c) = true -> 2 <= effective_reload c).
Proof.
  unfold bulk_decline. destruct (bcd c); [done|]. intros Hd Hs. split; [done|]. intros Hp. rewrite Hp in Hd.
  destruct Hs as [Hs|Hs]; rewrite Hs in Hd; cbn [andb] in Hd; destruct (Z.leb_spec (effective_reload c) 1); (done || lia).
Qed.

Lemma advance_counting_step c n : counter_wf c -> state c = Counting -> bulk_decline c = None -> 0 < n < 2 ^ 32 ->
  advance_counting c n = then_advance (step_counting c) (n - 1).
Proof.
  intros [Hm Hc Hr] Hs Hd Hn. destruct (decline_reload c Hd (or_introl Hs)) as [Hb He].
  destruct c as [m w b v r o g st nc la sl wm rm]. cbn in Hm, Hc, Hr, Hs, Hb, He. subst st b. destruct g.
  - assert (m = 0 \/ m = 1 \/ m = 2 \/ m = 3 \/ m = 4 \/ m = 5) as [-> |[-> |[-> |[-> |H45]]]] by lia.
    + apply countdown_step; (done || lia).
    + apply countdown_step; (done || lia).
    + apply rate_step; [done|done|by apply He|lia].
    + apply square_step; [done|done|by apply He|lia].
    + by apply strobe_step.
  - unfold advance_counting, step_counting, then_advance, advance. field_simpl. rewrite (proj2 (Z.eqb_neq n 0)) by lia.
    destruct (periodic m) eqn:Ep; field_simpl; (destruct (Z.eqb_spec (n - 1) 0); [done|]);
      unfold advance_counting; field_simpl; rewrite (proj2 (Z.eqb_neq (n - 1) 0)), Ep by done; done.
Qed.

(** What a clock can change. *)
Lemma step_frame c : exists v o s nc,
  (step c).1 = c <| count := v |> <| out := o |> <| state := s |> <| null_count := nc |> /\
  (s = state c \/ s = Inactive \/ (state c = LoadDelay /\ s = Counting)).
Proof.
  assert (Hex : forall v o s nc c', c' = c <| count := v |> <| out := o |> <| state := s |> <| null_count := nc |> ->
    (s = state c \/ s = Inactive \/ (state c = LoadDelay /\ s = Counting)) ->
    exists v o s nc, c' = c <| count := v |> <| out := o |> <| state := s |> <| null_count := nc |> /\
      (s = state c \/ s = Inactive \/ (state c = LoadDelay /\ s = Counting))) by (intros; eauto 10).
  unfold step, step_counting. destruct c as [m w b v r o g st nc la sl wm rm]. field_simpl.
  cases; field_simpl; (eapply Hex; [reflexivity|]); auto.
Qed.

Lemma step_count_bound c : bcd c = false -> counter_wf c -> 0 <= count (step c).1 < 2 ^ 32.
Proof.
  intros Hb Hw. pose proof (effective_bound c Hw). destruct Hw as [_ Hc _].
  unfold step, step_counting, dec. rewrite ?Hb. destruct c as [m w b v r o g st nc la sl wm rm]. field_simpl. subst b.
  assert (Hd : forall k, 0 <= wrap 32 (v - k) < 2 ^ 32) by (intros; apply wrap_in_width; lia).
  cases; field_simpl; auto; try lia.
Qed.

Lemma step_wf c : bcd c = false -> counter_wf c -> counter_wf (step c).1.
Proof.
  intros Hb Hw. pose proof (step_count_bound c Hb Hw) as Hc. destruct (step_frame c) as (v & o & s & nc & E & _).
  rewrite E in *. destruct Hw. by split.
Qed.

Lemma step_decline c : bulk_decline c = None -> bulk_decline (step c).1 = None.
Proof.
  destruct (step_frame c) as (v & o & s & nc & -> & Hs). unfold bulk_decline, effective_reload. field_simpl.
  destruct (bcd c); [done|]. destruct Hs as [-> |[-> |[Hl ->]]]; [done|done|]. by rewrite Hl.
Qed.

Lemma advance_step c n : counter_wf c -> bulk_decline c = None -> 0 < n < 2 ^ 32 ->
  advance c n = then_advance (step c) (n - 1).
Proof.
  intros Hw Hd Hn. unfold advance at 1, step. rewrite (proj2 (Z.eqb_neq n 0)) by lia.
  destruct (state c) eqn:Es; unfold then_advance, advance.
  - rewrite Es. by destruct (n - 1 =? 0).
  - field_simpl. unfold advance_counting at 1. destruct (n - 1 =? 0) eqn:E; [done|].
    unfold advance_counting. rewrite E. cases; done.
  - apply advance_counting_step; done || lia.
  - rewrite Es. by destruct (n - 1 =? 0).
Qed.

Lemma advance_clocked n : forall c, counter_wf c -> bulk_decline c = None -> Z.of_nat n < 2 ^ 32 ->
  advance c (Z.of_nat n) = clocked n c.
Proof.
  induction n as [|n IH]; intros c Hw Hd Hn; cbn [clocked]; [done|].
  rewrite advance_step by (done || lia). pose proof (step_decline c Hd) as Hd'.
  assert (Hb : bcd c = false) by (unfold bulk_decline in Hd; by destruct (bcd c)).
  pose proof (step_wf c Hb Hw) as Hw'. unfold then_advance. destruct (step c) as [c' rose]. cbn [fst] in *.
  replace (Z.of_nat (S n) - 1) with (Z.of_nat n) by lia. by rewrite IH by (done || lia).
Qed.

Lemma paused_traced n : forall c t, state c = Counting -> gate c = false ->
  traced n c t = if bool_decide (n = 0%nat) then [] else if periodic (mode c) && negb (out c) then [mkTransition t true] else [].
Proof.
  assert (Hset : forall n c t, state c = Counting -> gate c = false -> (periodic (mode c) = true -> out c = true) -> traced n c t = []).
  { clear n. intros n. induction n as [|n IH]; intros c t Hs Hg Ho; cbn [traced]; [done|].
    assert (E : (step c).1 = c).
    { unfold step, step_counting. rewrite Hs, Hg. cbn [negb fst]. destruct (periodic (mode c)); [|done].
      destruct c. cbn in *. by rewrite Ho. }
    by rewrite E, eqb_reflx, IH. }
  destruct n as [|n]; intros c t Hs Hg; [done|]. rewrite bool_decide_eq_false_2 by done. cbn [traced].
  assert (E : (step c).1 = if periodic (mode c) then c <| out := true |> else c)
    by (unfold step, step_counting; by rewrite Hs, Hg).
  rewrite E. destruct (periodic (mode c)) eqn:Ep.
  - rewrite Hset by done. cbn [out update eta_Counter]. by destruct (out c).
  - rewrite Hset by (done || congruence). by rewrite eqb_reflx.
Qed.

Lemma counting_traced n c off : counter_wf c -> state c = Counting -> bulk_decline c = None -> Z.of_nat n < 2 ^ 32 ->
  counting_transitions c (count c) (Z.of_nat n) off = Some (traced n c (off + 1)).
Proof.
  intros [Hm Hc Hr] Hs Hd Hn. destruct (decline_reload c Hd (or_introl Hs)) as [Hb He].
  destruct c as [m w b v r o g st nc la sl wm rm]. cbn in Hm, Hc, Hr, Hs, Hb, He. subst st b.
  unfold counting_transitions, edge_fuel. field_simpl. rewrite Nat2Z.id.
  destruct g; cbn [negb].
  2:{ rewrite paused_traced by done. field_simpl. by destruct n, (periodic m), o. }
  destruct n as [|n]; [done|]. rewrite (proj2 (Z.eqb_neq _ 0)) by lia.
  assert (m = 0 \/ m = 1 \/ m = 2 \/ m = 3 \/ m = 4 \/ m = 5) as [-> |[-> |[-> |[-> |H45]]]] by lia.
  - by rewrite countdown_traced by (done || lia).
  - by rewrite countdown_traced by (done || lia).
  - change (effective_reload _) with (if r =? 0 then 65536 else r) in *.
    rewrite <- (rate_traced w r nc la sl wm rm Hr (S n) (He eq_refl) (S (S n))) by (done || lia). by destruct (2 <=? v).
  - change (effective_reload _) with (if r =? 0 then 65536 else r) in *.
    by rewrite <- (square_traced w r nc la sl wm rm Hr (S n) (He eq_refl) (S (S n))) by (done || lia).
  - rewrite (strobe_traced w r nc la sl wm rm m (S n) H45) by done. rewrite (proj2 (Z.eqb_neq (Z.of_nat (S n)) 0)) by lia.
    by destruct H45 as [-> | ->].
Qed.

Lemma out_transitions_traced n c : counter_wf c -> bulk_decline c = None -> Z.of_nat n < 2 ^ 32 ->
  out_transitions_in c (Z.of_nat n) = Some (traced n c 1).
Proof.
  intros Hw Hd Hn. unfold out_transitions_in. destruct n as [|n]; [done|]. rewrite (proj2 (Z.eqb_neq _ 0)) by lia.
  destruct (state c) eqn:Es.
  - by rewrite traced_idle by auto.
  - cbn [traced]. set (c' := (step c).1).
    assert (E : c' = c <| count := effective_reload c |> <| null_count := false |> <| state := Counting |>)
      by (unfold c', step; by rewrite Es).
    assert (Hb : bcd c = false) by (unfold bulk_decline in Hd; by destruct (bcd c)).
    pose proof (counting_traced n c' 1 (step_wf c Hb Hw) ltac:(by rewrite E) (step_decline c Hd) ltac:(lia)) as Ht.
    rewrite E in *. replace (Z.of_nat (S n) - 1) with (Z.of_nat n) by lia.
    cbn [out update eta_Counter] in *. rewrite eqb_reflx. exact Ht.
  - by apply counting_traced.
  - by rewrite traced_idle by auto.
Qed.

(* ------------------------------------------------------------------ *)
(** ** The chip *)

Lemma clocked_bound n : forall c, 0 <= (clocked n c).2 <= Z.of_nat n.
Proof.
  induction n as [|n IH]; intros c; cbn [clocked]; [done|]. destruct (step c) as [c' rose].
  specialize (IH c'). destruct (clocked n c') as [c'' k]. cbn [snd] in *. destruct rose; cbn [b2z]; lia.
Qed.

Definition head_rises (n : nat) (p : Pit) : Z := match p with c :: _ => (clocked n c).2 | [] => 0 end.

(** What the per-clock loop computes. *)
Lemma tick_loop_spec watch n : forall p tick edges seen, 0 <= edges -> edges + Z.of_nat n < 2 ^ 32 ->
  tick_loop p n tick edges watch (channel_out p <$> watch) seen =
  (map (fun c => (clocked n c).1) p, edges + head_rises n p,
   seen ++ match watch ≫= (fun i => p !! i) with Some c => traced n c tick | None => [] end).
Proof.
  induction n as [|n IH]; intros p tick edges seen He Hn; cbn [tick_loop].
  - f_equal; [f_equal; [by rewrite map_id|destruct p; cbn; lia]|].
    destruct (watch ≫= _); cbn [traced]; by rewrite app_nil_r.
  - assert (Hmap : map fst (map step p) = map (fun c => (step c).1) p) by by rewrite map_map.
    rewrite Hmap. set (p' := map (fun c => (step c).1) p) in *.
    set (edges' := match map step p with (_, true) :: _ => wrap 32 (edges + 1) | _ => edges end).
    assert (Hed : 0 <= edges' <= edges + 1 /\ edges' + head_rises n p' = edges + head_rises (S n) p).
    { unfold edges', p'. destruct p as [|c p]; cbn [map head_rises clocked]; [lia|]. destruct (step c) as [c' [|]]; cbn [fst].
      - rewrite wrap_id by (split; lia). destruct (clocked n c'). cbn [snd b2z]. lia.
      - destruct (clocked n c'). cbn [snd b2z]. lia. }
    destruct Hed as [Hed1 Hed2].
    assert (Hend : map (fun c => (clocked n c).1) p' = map (fun c => (clocked (S n) c).1) p).
    { unfold p'. rewrite map_map. apply map_ext. intros c. cbn [clocked]. destruct (step c) as [c' rose]. cbn [fst].
      by destruct (clocked n c'). }
    destruct watch as [i|]; cbn [fmap option_fmap option_map mbind option_bind] in *.
    + assert (Hout : channel_out p' i = from_option (fun c => out (step c).1) false (p !! i))
        by (unfold channel_out, p'; rewrite list_lookup_fmap; by destruct (p !! i)).
      assert (Hlook : p' !! i = (fun c => (step c).1) <$> p !! i) by (unfold p'; apply list_lookup_fmap).
      destruct (decide (Some (channel_out p i) = Some (channel_out p' i))) as [Eq|Ne].
      * rewrite bool_decide_eq_true_2 by done. cbn [negb]. rewrite Eq.
        rewrite (IH p') by lia. rewrite Hend, Hed2, Hlook. f_equal. f_equal.
        unfold channel_out in Eq. rewrite Hlook in Eq. destruct (p !! i) as [c|]; [|done]. cbn in Eq |- *.
        injection Eq as Eq. by rewrite <- Eq, eqb_reflx.
      * rewrite bool_decide_eq_false_2 by done. cbn [negb].
        rewrite (IH p') by lia. rewrite Hend, Hed2, Hlook, <- app_assoc. f_equal. f_equal.
        unfold channel_out in Ne |- *. rewrite Hlook in Ne |- *. destruct (p !! i) as [c|]; [|done]. cbn in Ne |- *.
        destruct (eqb (out (step c).1) (out c)) eqn:E; [|done]. apply eqb_prop in E. by rewrite E in Ne.
    + rewrite (IH p') by lia. rewrite Hend, Hed2. done.
Qed.

Lemma chip_decline p clocks : chip_bulk_decline p clocks = None ->
  clocks < 2 ^ 32 /\ Forall (fun c => bulk_decline c = None) p.
Proof.
  unfold chip_bulk_decline. change (Z.shiftl 1 32) with (2 ^ 32). destruct (Z.leb_spec (2 ^ 32) clocks); [done|].
  intros Hd. split; [done|]. induction p as [|c p IH]; [done|]. cbn in Hd.
  destruct (bulk_decline c) eqn:E; [done|]. constructor; auto.
Qed.

(** One advance, on either arm, by the reference functions. *)
Lemma observed_advance p clocks watch bulk : Forall counter_wf p -> 0 <= clocks < 2 ^ 32 ->
  let n := Z.to_nat clocks in
  tick_with_observer p clocks watch bulk =
  (map (fun c => (clocked n c).1) p, head_rises n p,
   Some (match watch ≫= (fun i => p !! i) with Some c => traced n c 1 | None => [] end)).
Proof.
  intros Hw Hc. unfold tick_with_observer. destruct (Z.eqb_spec clocks 0) as [->|Hne].
  { cbn [Z.to_nat]. f_equal; [f_equal; [by rewrite map_id|by destruct p]|]. by destruct (watch ≫= _). }
  set (n := Z.to_nat clocks). assert (En : clocks = Z.of_nat n) by lia. clearbody n. subst clocks. cbv zeta.
  assert (Hloop : (let '(q, edges, seen) := tick_loop p n 1 0 watch (channel_out p <$> watch) [] in (q, edges, Some seen)) =
    (map (fun c => (clocked n c).1) p, head_rises n p,
     Some (match watch ≫= (fun i => p !! i) with Some c => traced n c 1 | None => [] end)))
    by (by rewrite tick_loop_spec by lia).
  destruct bulk; [|exact Hloop]. destruct (chip_bulk_decline p (Z.of_nat n)) eqn:Ed; [exact Hloop|].
  clear Hloop. apply chip_decline in Ed as [Hn Hd]. unfold bulk_advance.
  assert (Hadv : forall c, c ∈ p -> advance c (Z.of_nat n) = clocked n c).
  { intros c Hin. apply advance_clocked; [|by eapply Forall_forall in Hd|done]. by eapply Forall_forall in Hw. }
  f_equal; [f_equal|].
  - apply map_ext_in. intros c Hin. rewrite Hadv; [done|]. by apply list_elem_of_In.
  - destruct p as [|c p]; [done|]. rewrite Hadv by left. cbn [head_rises]. pose proof (clocked_bound n c). lia.
  - destruct (watch ≫= _) as [c|] eqn:El; [|done].
    assert (c ∈ p) as Hin.
    { destruct watch; [|done]. cbn in El. by eapply list_elem_of_lookup_2. }
    apply out_transitions_traced; [by eapply Forall_forall in Hw|by eapply Forall_forall in Hd|done].
Qed.

(** C8.  The analytic advance is the chip. For any counters, reached or not, whose registers
    hold their widths, any number of clocks and any watched channel, one bulk advance ends in
    the state, answers the number of channel-0 rises and reports the OUT transitions, in order
    and to the clock, of the loop that steps every counter once per input clock; in
    particular the enumeration always ends. *)
Theorem bulk_advance_exact p clocks watch :
  Forall counter_wf p -> 0 <= clocks ->
  tick_with_observer p clocks watch true = tick_with_observer p clocks watch false.
Proof.
  intros Hw Hc. destruct (Z.ltb_spec clocks (2 ^ 32)).
  - by rewrite !(observed_advance p clocks watch) by done.
  - unfold tick_with_observer, chip_bulk_decline. change (Z.shiftl 1 32) with (2 ^ 32).
    by rewrite (proj2 (Z.leb_le (2 ^ 32) clocks)) by done.
Qed.

Lemma bulk_advance_exact_witness :
  let p := (write_port_at (write_port_at (write_port_at power_on 67 182 0).2 66 255 0).2 66 0 0).2 in
  Forall counter_wf p /\
  tick_with_observer p 1000 (Some 2%nat) true = tick_with_observer p 1000 (Some 2%nat) false /\
  (tick_with_observer p 400 (Some 2%nat) true).2 =
    Some [mkTransition 129 false; mkTransition 256 true; mkTransition 384 false].
Proof.
  set (p := (write_port_at (write_port_at (write_port_at power_on 67 182 0).2 66 255 0).2 66 0 0).2).
  assert (Hw : Forall counter_wf p) by (repeat constructor; vm_compute; congruence).
  split; [exact Hw|]. split; [apply (bulk_advance_exact p 1000 (Some 2%nat) Hw); lia|vm_compute; reflexivity].
Defined.

End Advance.
