(* ===== verification/PitPeek.v ===== *)
(** * Peeks at the 8254 in the middle of a batch

    The machine advances its devices at the end of a batch of instructions; an access in the
    middle is answered by [out_after], [count_after] and [null_count_after].  They are exact,
    so an access at an offset and the batch-end advance commute. *)

From S2P Require Import Prelude Pit PitAdvance.
Import Pit.Counter Pit.Chip PitAdvance.Advance.

Module Peek.

(* ------------------------------------------------------------------ *)
(** ** Exactness *)

Lemma clocked_app a : forall b c, clocked (a + b) c =
  let '(c', k) := clocked a c in let '(c'', k') := clocked b c' in (c'', k + k').
Proof.
  induction a as [|a IH]; intros b c; cbn [clocked Nat.add].
  - by destruct (clocked b c) as [c' k].
  - destruct (step c) as [c1 rose]. rewrite IH. destruct (clocked a c1) as [c2 k]. destruct (clocked b c2). f_equal. lia.
Qed.

Lemma clocked_step n c : (clocked (S n) c).1 = (clocked n (step c).1).1.
Proof. cbn [clocked]. destruct (step c) as [c' r]. cbn [fst]. by destruct (clocked n c'). Qed.

Lemma clocked_idle n c : state c = Inactive \/ state c = WaitGate -> clocked n c = (c, 0).
Proof.
  intros Hs. induction n as [|n IH]; cbn [clocked]; [done|].
  assert (E : step c = (c, false)) by (unfold step; by destruct Hs as [-> | ->]). by rewrite E, IH.
Qed.

Lemma clocked_paused n c : state c = Counting -> gate c = false ->
  (clocked n c).1 = if bool_decide (n = 0%nat) then c else if periodic (mode c) then c <| out := true |> else c.
Proof.
  assert (Hset : forall n c, state c = Counting -> gate c = false -> (periodic (mode c) = true -> out c = true) -> (clocked n c).1 = c).
  { clear n c. intros n c Hs Hg Ho. induction n as [|n IH]; [done|]. rewrite clocked_step.
    assert (E : (step c).1 = c).
    { unfold step, step_counting. rewrite Hs, Hg. cbn [negb fst]. destruct (periodic (mode c)); [|done].
      destruct c. cbn in *. by rewrite Ho. }
    by rewrite E. }
  intros Hs Hg. destruct n as [|n]; [done|]. rewrite clocked_step, bool_decide_eq_false_2 by done.
  assert (E : (step c).1 = if periodic (mode c) then c <| out := true |> else c)
    by (unfold step, step_counting; by rewrite Hs, Hg).
  rewrite E. destruct (periodic (mode c)) eqn:Ep; apply Hset; done || congruence.
Qed.

Section Live.
Context (r_w : RwMode) (r : Z) (nc : bool) (la sl : option Z) (wm rm : bool) (Hr : u16 r).

Abbreviation live m o v := (mkCounter m r_w false v r o true Counting nc la sl wm rm).
Abbreviation R := (if r =? 0 then 65536 else r).

(** With the illegal reload of one there is no period. *)
Lemma rate_one_clocked n : R = 1 -> forall o v, 0 <= v < 2 ^ 32 ->
  (clocked n (live 2 o v)).1 =
  let first := if 2 <=? v then v else 1 in
  if Z.of_nat n =? 0 then live 2 o v
  else if Z.of_nat n <? first then live 2 (if v - Z.of_nat n =? 1 then false else o) (v - Z.of_nat n)
  else live 2 true 1.
Proof.
  intros HR. induction n as [|n IH]; intros o v Hv; [done|]. rewrite clocked_step, rate_clock by done.
  rewrite (proj2 (Z.eqb_neq (Z.of_nat (S n)) 0)) by lia. cbv zeta. destruct (Z.leb_spec v 1); cbn [fst].
  - rewrite (proj2 (Z.leb_gt 2 v)), (proj2 (Z.ltb_ge (Z.of_nat (S n)) 1)) by lia. rewrite HR, IH by lia. cbv zeta.
    change (2 <=? 1) with false. cbv iota. destruct (Z.eqb_spec (Z.of_nat n) 0); [done|].
    by rewrite (proj2 (Z.ltb_ge (Z.of_nat n) 1)) by lia.
  - rewrite (proj2 (Z.leb_le 2 v)) by lia. rewrite IH by lia. cbv zeta.
    replace (v - 1 - Z.of_nat n) with (v - Z.of_nat (S n)) by lia.
    destruct (Z.eqb_spec v 2) as [->|].
    + change (2 <=? 2 - 1) with false. cbv iota. destruct (Z.eqb_spec (Z.of_nat n) 0).
      * by replace (Z.of_nat (S n)) with 1 by lia.
      * by rewrite (proj2 (Z.ltb_ge (Z.of_nat n) 1)), (proj2 (Z.ltb_ge (Z.of_nat (S n)) 2)) by lia.
    + rewrite (proj2 (Z.leb_le 2 (v - 1))) by lia. destruct (Z.eqb_spec (Z.of_nat n) 0).
      * rewrite (proj2 (Z.ltb_lt (Z.of_nat (S n)) v)) by lia. replace (Z.of_nat (S n)) with 1 by lia.
        by rewrite (proj2 (Z.eqb_neq (v - 1) 1)) by lia.
      * by replace (Z.of_nat n <? v - 1) with (Z.of_nat (S n) <? v)
          by (destruct (Z.ltb_spec (Z.of_nat (S n)) v), (Z.ltb_spec (Z.of_nat n) (v - 1)); lia).
Qed.

Lemma square_one_clocked n : R = 1 -> forall o v, 0 <= v < 2 ^ 32 ->
  (clocked n (live 3 o v)).1 =
  let half := mode3_half v o in
  if Z.of_nat n <? half then live 3 o (mode3_value_in_half v o (Z.of_nat n))
  else live 3 (if (Z.of_nat n - half) mod 2 =? 0 then negb o else o) 1.
Proof.
  intros HR. induction n as [|n IH]; intros o v Hv; cbv zeta; pose proof (half_bounds v o ltac:(lia)) as Hh.
  - change (Z.of_nat 0) with 0. rewrite (proj2 (Z.ltb_lt 0 _)) by lia. done.
  - rewrite clocked_step, square_clock by done. pose proof (trim_bound v o). destruct (Z.leb_spec v (trim v o)); cbn [fst].
    + rewrite half_small by lia. rewrite (proj2 (Z.ltb_ge (Z.of_nat (S n)) 1)) by lia. rewrite HR, IH by lia. cbv zeta.
      change (mode3_half 1 (negb o)) with (mode3_half 1 (negb o)).
      assert (H1 : mode3_half 1 (negb o) = 1) by by destruct o. rewrite H1.
      replace (Z.of_nat (S n) - 1) with (Z.of_nat n) by lia.
      destruct (Z.ltb_spec (Z.of_nat n) 1).
      * replace (Z.of_nat n) with 0 by lia. done.
      * rewrite negb_involutive. replace (Z.of_nat n) with (Z.of_nat n - 1 + 1) at 2 by lia. rewrite Z.add_mod by lia.
        pose proof (Z.mod_pos_bound (Z.of_nat n - 1) 2).
        destruct (Z.eqb_spec ((Z.of_nat n - 1) mod 2) 0) as [->|]; [done|].
        by replace ((Z.of_nat n - 1) mod 2) with 1 by lia.
    + rewrite half_large by lia. rewrite IH by lia. cbv zeta.
      replace (Z.of_nat (S n) - (1 + mode3_half (v - trim v o) o)) with (Z.of_nat n - mode3_half (v - trim v o) o) by lia.
      destruct (Z.ltb_spec (Z.of_nat n) (mode3_half (v - trim v o) o)), (Z.ltb_spec (Z.of_nat (S n)) (1 + mode3_half (v - trim v o) o)); try lia; [|done].
      rewrite (value_step v o (Z.of_nat (S n))) by lia. by replace (Z.of_nat (S n) - 1) with (Z.of_nat n) by lia.
Qed.

(** The peeks agree with a counter [c'] at clock [n]. *)
Definition shows (m v : Z) (o : bool) (n : Z) (c' : Counter) : Prop :=
  counting_out_after m v R o n = out c' /\ counting_count_after m v R o n = mask16 (count c').

Lemma rate_shows o v n : 0 < n -> 0 <= v < 2 ^ 32 -> 2 <= R ->
  shows 2 v o n (advance_counting (live 2 o v) n).1.
Proof.
  intros Hn Hv He. rewrite rate_after by done. unfold shows, counting_out_after, counting_count_after.
  rewrite !(proj2 (Z.eqb_neq n 0)), (proj2 (Z.leb_gt R 1)) by lia.
  destruct (Z.leb_spec 2 v); [destruct (Z.ltb_spec n v)|destruct (Z.ltb_spec n 1)]; cbn [fst out count]; try (exfalso; lia); split; try done.
  - destruct (Z.eqb_spec (n + 1) v), (Z.eqb_spec (v - n) 1); lia || done.
  - f_equal. destruct (Z.eqb_spec ((n - v) mod R + 1) R), (Z.eqb_spec ((n - v) mod R) (R - 1)); lia || done.
  - f_equal. destruct (Z.eqb_spec ((n - 1) mod R + 1) R), (Z.eqb_spec ((n - 1) mod R) (R - 1)); lia || done.
Qed.

Lemma rate_one_shows o v n : (0 < n)%nat -> 0 <= v < 2 ^ 32 -> R = 1 ->
  shows 2 v o (Z.of_nat n) (clocked n (live 2 o v)).1.
Proof.
  intros Hn Hv HR. rewrite rate_one_clocked by done. unfold shows, counting_out_after, counting_count_after. cbv zeta.
  rewrite !(proj2 (Z.eqb_neq (Z.of_nat n) 0)) by lia. rewrite HR. change (1 <=? 1) with true. cbv iota.
  destruct (Z.leb_spec 2 v); [destruct (Z.ltb_spec (Z.of_nat n) v)|destruct (Z.ltb_spec (Z.of_nat n) 1)]; cbn [out count]; try (exfalso; lia);
    rewrite ?Z.mod_1_r; split; try done.
  destruct (Z.eqb_spec (Z.of_nat n + 1) v), (Z.eqb_spec (v - Z.of_nat n) 1); lia || done.
Qed.

Lemma square_shows o v n : 0 < n -> 0 <= v < 2 ^ 32 -> 2 <= R ->
  shows 3 v o n (advance_counting (live 3 o v) n).1.
Proof.
  intros Hn Hv He. rewrite square_after by done. unfold shows, counting_out_after, counting_count_after. cbv zeta.
  rewrite !(proj2 (Z.eqb_neq n 0)), (proj2 (Z.leb_gt R 1)) by lia.
  destruct (n <? mode3_half v o); [done|]. unfold square_phase. cbv zeta.
  destruct ((n - mode3_half v o) mod R <? mode3_half R (negb o)); cbn [fst out count]; [done|]. by rewrite negb_involutive.
Qed.

Lemma square_one_shows o v n : (0 < n)%nat -> 0 <= v < 2 ^ 32 -> R = 1 ->
  shows 3 v o (Z.of_nat n) (clocked n (live 3 o v)).1.
Proof.
  intros Hn Hv HR. rewrite square_one_clocked by done. unfold shows, counting_out_after, counting_count_after. cbv zeta.
  rewrite !(proj2 (Z.eqb_neq (Z.of_nat n) 0)) by lia. rewrite HR. change (1 <=? 1) with true. cbv iota.
  destruct (Z.of_nat n <? mode3_half v o); [done|]. split; [|done].
  destruct ((Z.of_nat n - mode3_half v o) mod 2 =? 0); [done|]. by rewrite negb_involutive.
Qed.

Lemma countdown_shows m o v n : m = 0 \/ m = 1 -> 0 < n < 2 ^ 32 -> 0 <= v < 2 ^ 32 ->
  shows m v o n (advance_counting (live m o v) n).1.
Proof.
  intros Hm Hn Hv. rewrite countdown_after by (done || lia). unfold shows, counting_out_after, counting_count_after. cbv zeta.
  rewrite !(proj2 (Z.eqb_neq n 0)), !wrap32_eq by lia. change (Z.shiftl 1 32) with (2 ^ 32).
  destruct Hm as [-> | ->]; destruct o, (Z.eqb_spec v 0) as [->|]; cbn [negb andb orb fst out count Z.eqb Pos.eqb]; split; try done;
    rewrite ?(proj2 (Z.leb_gt (2 ^ 32) n)) by lia; try done; by destruct (v <=? n).
Qed.

Lemma strobe_shows m o v n : m = 4 \/ m = 5 -> 0 < n < 2 ^ 32 -> 0 <= v < 2 ^ 32 ->
  shows m v o n (advance_counting (live m o v) n).1.
Proof.
  intros Hm Hn Hv. rewrite strobe_after by (done || lia). unfold shows, counting_out_after, counting_count_after. cbv zeta.
  rewrite !(proj2 (Z.eqb_neq n 0)), !wrap32_eq by lia. change (Z.shiftl 1 32) with (2 ^ 32).
  destruct Hm as [-> | ->]; destruct o; cbn [negb fst out count]; try done; destruct (Z.eqb_spec v 0) as [->|]; cbn [fst out count];
    rewrite ?(proj2 (Z.leb_gt (2 ^ 32) n)) by lia; try done;
    destruct (Z.leb_spec n v), (Z.leb_spec v n); cbn [fst out count]; try lia; try done;
    rewrite ?Z.mod_small by lia; split; try done;
    try (replace (v - n) with 0 by lia; done); by destruct (Z.eqb_spec n v); [lia|].
Qed.

End Live.

Lemma counting_shows n c : counter_wf c -> state c = Counting -> bcd c = false -> gate c = true -> (0 < n)%nat -> Z.of_nat n < 2 ^ 32 ->
  shows (reload c) (mode c) (count c) (out c) (Z.of_nat n) (clocked n c).1.
Proof.
  intros Hw Hs Hb Hg Hn Hlt. assert (Hadv : bulk_decline c = None -> (clocked n c).1 = (advance_counting c (Z.of_nat n)).1).
  { intros Hd. by rewrite <- advance_clocked, advance_live by done. }
  destruct Hw as [Hm Hc Hr]. pose proof (reload_bound (reload c) Hr).
  destruct c as [m w b v r o g st nc la sl wm rm]. field_simpl. subst st b g.
  assert (m = 0 \/ m = 1 \/ m = 2 \/ m = 3 \/ m = 4 \/ m = 5) as [-> |[-> |[-> |[-> |H45]]]] by lia.
  - rewrite Hadv by done. apply countdown_shows; auto; lia.
  - rewrite Hadv by done. apply countdown_shows; auto; lia.
  - destruct (Z.leb_spec (if r =? 0 then 65536 else r) 1) as [Hle|Hgt].
    + apply rate_one_shows; done || lia.
    + rewrite Hadv by (unfold bulk_decline, effective_reload; field_simpl; by rewrite (proj2 (Z.leb_gt _ 1))).
      apply rate_shows; done || lia.
  - destruct (Z.leb_spec (if r =? 0 then 65536 else r) 1) as [Hle|Hgt].
    + apply square_one_shows; done || lia.
    + rewrite Hadv by (unfold bulk_decline, effective_reload; field_simpl; by rewrite (proj2 (Z.leb_gt _ 1))).
      apply square_shows; done || lia.
  - rewrite Hadv by (by destruct H45 as [-> | ->]). apply strobe_shows; auto; lia.
Qed.

Lemma step_load c : state c = LoadDelay ->
  step c = (c <| count := effective_reload c |> <| null_count := false |> <| state := Counting |>, false).
Proof. intros Hs. unfold step. by rewrite Hs. Qed.

Lemma clocked_null n : forall c, state c <> LoadDelay -> null_count (clocked n c).1 = null_count c.
Proof.
  induction n as [|n IH]; intros c Hs; [done|]. rewrite clocked_step.
  assert (H : null_count (step c).1 = null_count c /\ state (step c).1 <> LoadDelay).
  { unfold step, step_counting. destruct c as [m w b v r o g st nc la sl wm rm]. field_simpl.
    cases; field_simpl; auto; done. }
  destruct H as [H1 H2]. by rewrite IH.
Qed.

(** The three peeks are the counter [n] clocks on. *)
Lemma peeks_spec n c : counter_wf c -> bcd c = false -> Z.of_nat n < 2 ^ 32 ->
  let c' := (clocked n c).1 in
  out_after c (Z.of_nat n) = Some (out c') /\
  count_after c (Z.of_nat n) = Some (masked_count c') /\
  null_count_after c (Z.of_nat n) = null_count c'.
Proof.
  intros Hw Hb Hn. cbv zeta. unfold out_after, count_after, null_count_after, masked_count. rewrite Hb.
  destruct (state c) eqn:Es.
  - rewrite clocked_idle by auto. done.
  - destruct n as [|n]; [rewrite bool_decide_eq_true_2 by done; unfold gate_low_out; by destruct (gate c)|].
    rewrite clocked_step, step_load by done. pose proof (step_wf c Hb Hw) as Hw1. rewrite step_load in Hw1 by done. cbn [fst] in *.
    set (c1 := c <| count := _ |> <| null_count := false |> <| state := Counting |>) in *.
    rewrite bool_decide_eq_true_2, (proj2 (Z.leb_le 1 _)), (proj2 (Z.eqb_neq (Z.of_nat (S n)) 0)) by (done || lia).
    rewrite (clocked_null n c1) by done. replace (Z.of_nat (S n) - 1) with (Z.of_nat n) by lia.
    destruct (gate c) eqn:Eg; cbn [negb].
    + destruct n as [|n]; [done|]. destruct (counting_shows (S n) c1 Hw1) as [H1 H2]; [done|done|exact Eg|lia|lia|].
      change (if reload c1 =? 0 then 65536 else reload c1) with (effective_reload c) in *.
      change (count c1) with (effective_reload c) in *. change (mode c1) with (mode c) in *. change (out c1) with (out c) in *.
      by rewrite H1, H2.
    + rewrite clocked_paused by done. unfold gate_low_out. change (mode c1) with (mode c).
      destruct n as [|n]; [done|]. rewrite bool_decide_eq_false_2, (proj2 (Z.leb_le 2 _)) by (done || lia).
      by destruct (periodic (mode c)).
  - rewrite bool_decide_eq_false_2 by done. cbn [andb]. rewrite clocked_null by congruence.
    destruct (gate c) eqn:Eg; cbn [negb].
    + destruct n as [|n]; [done|]. destruct (counting_shows (S n) c Hw Es Hb Eg) as [H1 H2]; [lia|lia|].
      change (if reload c =? 0 then 65536 else reload c) with (effective_reload c) in *. by rewrite H1, H2.
    + rewrite clocked_paused by done. unfold gate_low_out. destruct n as [|n]; [done|].
      rewrite bool_decide_eq_false_2, (proj2 (Z.leb_le 1 _)) by (done || lia). by destruct (periodic (mode c)).
  - rewrite clocked_idle by auto. done.
Qed.

(* ------------------------------------------------------------------ *)
(** ** Accesses that only latch *)

(** The registers a read or a latch command writes, which no clock reads. *)
Abbreviation Latches := (option Z * option Z * bool)%type.
Definition relatch (x : Latches) (c : Counter) : Counter :=
  c <| latch := x.1.1 |> <| status_latch := x.1.2 |> <| read_msb_next := x.2 |>.
Definition latches_of (c : Counter) : Latches := (latch c, status_latch c, read_msb_next c).

Lemma relatch_id c : relatch (latches_of c) c = c.
Proof. by destruct c. Qed.

Lemma relatch_wf x c : counter_wf c -> counter_wf (relatch x c).
Proof. intros []. by split. Qed.

Lemma step_relatch x c : step (relatch x c) = (relatch x (step c).1, (step c).2).
Proof.
  unfold step, step_counting. destruct c as [m w b v r o g st nc la sl wm rm], x as [[l s] rm']. unfold relatch. field_simpl.
  destruct st; [done|done| |done]. destruct g; cbn [negb]; [|by destruct (periodic m)].
  change (effective_reload _) with (if r =? 0 then 65536 else r). change (dec _) with (fun y k => if b then bcd_dec y k else wrap 32 (y - Z.of_nat k)).
  cbv beta. cases; done.
Qed.

Lemma clocked_relatch x n : forall c, clocked n (relatch x c) = (relatch x (clocked n c).1, (clocked n c).2).
Proof.
  induction n as [|n IH]; intros c; cbn [clocked]; [done|]. rewrite step_relatch. destruct (step c) as [c' rose]. cbn [fst snd].
  rewrite IH. by destruct (clocked n c').
Qed.

Lemma traced_relatch x n : forall c t, traced n (relatch x c) t = traced n c t.
Proof. induction n as [|n IH]; intros c t; cbn [traced]; [done|]. rewrite step_relatch. cbn [fst]. by rewrite IH. Qed.

Lemma clocked_latches n : forall c, latches_of (clocked n c).1 = latches_of c /\ rw (clocked n c).1 = rw c /\
  mode (clocked n c).1 = mode c /\ bcd (clocked n c).1 = bcd c /\ reload (clocked n c).1 = reload c.
Proof.
  induction n as [|n IH]; intros c; [done|]. rewrite clocked_step. destruct (step_frame c) as (v & o & s & nc & -> & _).
  exact (IH (c <| count := v |> <| out := o |> <| state := s |> <| null_count := nc |>)).
Qed.

Lemma clocked_wf n : forall c, bcd c = false -> counter_wf c -> counter_wf (clocked n c).1.
Proof.
  induction n as [|n IH]; intros c Hb Hw; [done|]. rewrite clocked_step. apply IH; [|by apply step_wf].
  destruct (step_frame c) as (v & o & s & nc & -> & _). done.
Qed.

(** [f c k] now is [f] at the counter [k] clocks on, and neither touches what clocks touch. *)
Definition commutes (f : Counter -> Z -> Z * Counter) : Prop :=
  forall c k, counter_wf c -> bcd c = false -> Z.of_nat k < 2 ^ 32 ->
  exists x answer, f c (Z.of_nat k) = (answer, relatch x c) /\
    f (clocked k c).1 0 = (answer, relatch x (clocked k c).1).

Definition quiet (f : Counter -> Z -> Counter) (c : Counter) (k : Z) : Z * Counter := (0, f c k).

Lemma live_peek k c : counter_wf c -> bcd c = false -> Z.of_nat k < 2 ^ 32 ->
  let c' := (clocked k c).1 in
  from_option id (masked_count c) (count_after c (Z.of_nat k)) = from_option id (masked_count c') (count_after c' 0).
Proof.
  intros Hw Hb Hk. cbv zeta. destruct (peeks_spec k c Hw Hb Hk) as (_ & -> & _).
  destruct (peeks_spec 0 (clocked k c).1 (clocked_wf k c Hb Hw)) as (_ & E & _); [|done|].
  - by destruct (clocked_latches k c) as (_ & _ & _ & -> & _).
  - change (Z.of_nat 0) with 0 in E. by rewrite E.
Qed.

(** Writes of the latch registers, as [relatch]. *)
Lemma set_latch c l : c <| latch := l |> = relatch (l, status_latch c, read_msb_next c) c.
Proof. by destruct c. Qed.
Lemma set_status c s : c <| status_latch := s |> = relatch (latch c, s, read_msb_next c) c.
Proof. by destruct c. Qed.
Lemma set_msb c b : c <| read_msb_next := b |> = relatch (latch c, status_latch c, b) c.
Proof. by destruct c. Qed.
Lemma set_msb_latch c b l : c <| read_msb_next := b |> <| latch := l |> = relatch (l, status_latch c, b) c.
Proof. by destruct c. Qed.

Lemma read_commutes : commutes read.
Proof.
  intros c k Hw Hb Hk. pose proof (live_peek k c Hw Hb Hk) as Hl. cbv zeta in Hl.
  destruct (clocked_latches k c) as (Hx & Hrw & _). unfold latches_of in Hx. injection Hx as Hla Hsl Hrm.
  unfold read. rewrite Hsl, Hrw, Hla, Hrm, <- Hl, !set_status, !set_msb_latch, !set_latch, !set_msb, Hla, Hsl, Hrm.
  destruct (status_latch c); [eauto|]. destruct (rw c); [eauto..|]. destruct (negb (read_msb_next c)); eauto.
Qed.

Lemma latch_count_commutes : commutes (quiet latch_count).
Proof.
  intros c k Hw Hb Hk. pose proof (live_peek k c Hw Hb Hk) as Hl. cbv zeta in Hl.
  destruct (clocked_latches k c) as (Hx & _). pose proof Hx as Hx'. unfold latches_of in Hx'. injection Hx' as Hla Hsl Hrm.
  unfold quiet, latch_count. rewrite Hla, <- Hl, !set_latch, Hsl, Hrm. destruct (latch c); [|eauto].
  exists (latches_of c), 0. by rewrite <- Hx at 2; rewrite !relatch_id.
Qed.

Lemma latch_status_commutes : commutes (quiet latch_status).
Proof.
  intros c k Hw Hb Hk. destruct (peeks_spec k c Hw Hb Hk) as (Ho & _ & Hn).
  destruct (clocked_latches k c) as (Hx & Hrw & Hm & Hb' & _). pose proof Hx as Hx'. unfold latches_of in Hx'. injection Hx' as Hla Hsl Hrm.
  destruct (peeks_spec 0 (clocked k c).1 (clocked_wf k c Hb Hw)) as (Ho0 & _ & Hn0); [congruence|done|].
  change (Z.of_nat 0) with 0 in Ho0, Hn0. cbn [clocked fst] in Ho0, Hn0.
  unfold quiet, latch_status. rewrite Hsl, Ho, Hn, Ho0, Hn0, Hrw, Hm, Hb', !set_status, Hla, Hrm. cbn [from_option id].
  destruct (status_latch c); [|eauto].
  exists (latches_of c), 0. by rewrite <- Hx at 2; rewrite !relatch_id.
Qed.

(** One latch command after another. *)
Lemma commutes_seq f g : commutes (quiet f) -> commutes (quiet g) -> commutes (quiet (fun c k => g (f c k) k)).
Proof.
  intros Hf Hg c k Hw Hb Hk. destruct (Hf c k Hw Hb Hk) as (x & a & [= _ E1] & [= _ E2]).
  destruct (Hg (relatch x c) k (relatch_wf x c Hw) Hb Hk) as (y & a' & [= _ E3] & [= _ E4]).
  rewrite clocked_relatch in E4. cbn [fst] in E4. exists y, 0. unfold quiet. rewrite E1, E2, E3, E4. done.
Qed.

Lemma commutes_none : commutes (quiet (fun c _ => c)).
Proof.
  intros c k Hw Hb Hk. exists (latches_of c), 0. unfold quiet. destruct (clocked_latches k c) as (Hx & _).
  rewrite <- Hx at 2. by rewrite !relatch_id.
Qed.

(* ------------------------------------------------------------------ *)
(** ** The chip *)

Inductive Access := ReadPort (port : Z) | Latch (control : Z).

(** A control word that latches: a read-back or a counter-latch command. *)
Definition latches (value : Z) : bool :=
  (Z.land (Z.shiftr value 6) 3 =? 3) || (Z.land (Z.shiftr value 4) 3 =? 0).

Definition access_ok (a : Access) : Prop := match a with ReadPort _ => True | Latch value => latches value = true end.

Definition perform (a : Access) (p : Pit) (clocks : Z) : option Z * Pit :=
  match a with
  | ReadPort port => read_port_at p port clocks
  | Latch value => (None, (write_port_at p 67 value clocks).2)
  end.

(** Transitions counted from a clock [k] later. *)
Definition later (k : Z) (t : OutTransition) : OutTransition := mkTransition (k + tick t) (level t).

Lemma traced_later n : forall c t k, traced n c (k + t) = map (later k) (traced n c t).
Proof.
  induction n as [|n IH]; intros c t k; cbn [traced]; [done|]. rewrite map_app, <- IH.
  replace (k + t + 1) with (k + (t + 1)) by lia. by destruct (eqb _ _).
Qed.

Lemma traced_app a : forall b c t, traced (a + b) c t = traced a c t ++ traced b (clocked a c).1 (t + Z.of_nat a).
Proof.
  induction a as [|a IH]; intros b c t; cbn [traced Nat.add].
  - cbn [app clocked fst]. by rewrite Z.add_0_r.
  - rewrite IH, clocked_step, <- app_assoc. by replace (t + 1 + Z.of_nat a) with (t + Z.of_nat (S a)) by lia.
Qed.

Abbreviation after k p := (map (fun c => (clocked k c).1) p).

(** Latching, counter by counter. *)
Definition relatch_all (xs : list Latches) (p : Pit) : Pit := zip_with relatch xs p.

Lemma after_relatch xs k : forall p, after k (relatch_all xs p) = relatch_all xs (after k p).
Proof.
  unfold relatch_all. induction xs as [|x xs IH]; intros [|c p]; cbn [zip_with map]; try done.
  by rewrite clocked_relatch, IH.
Qed.

Lemma after_after a b p : after b (after a p) = after (a + b) p.
Proof.
  rewrite map_map. apply map_ext. intros c. rewrite clocked_app. destruct (clocked a c) as [c' k]. cbn [fst].
  by destruct (clocked b c').
Qed.

Lemma imap_commutes (f : nat -> Counter -> Z -> Counter) k : (forall i, commutes (quiet (f i))) -> Z.of_nat k < 2 ^ 32 ->
  forall p, Forall counter_wf p -> Forall (fun c => bcd c = false) p ->
  exists xs, length xs = length p /\ imap (fun i c => f i c (Z.of_nat k)) p = relatch_all xs p /\
    imap (fun i c => f i c 0) (after k p) = relatch_all xs (after k p).
Proof.
  intros Hf Hk p. revert f Hf. induction p as [|c p IH]; intros f Hf Hw Hb; [by exists []|].
  inversion Hw as [|? ? Hw1 Hw2]; inversion Hb as [|? ? Hb1 Hb2]; subst.
  destruct (IH (fun i => f (S i)) (fun i => Hf (S i)) Hw2 Hb2) as (xs & Hl & E1 & E2).
  destruct (Hf 0%nat c k Hw1 Hb1 Hk) as (x & a & [= _ E3] & [= _ E4]).
  exists (x :: xs). split; [cbn; by rewrite Hl|]. rewrite !imap_cons. cbn [map]. rewrite imap_cons. unfold compose.
  unfold relatch_all in *. cbn [zip_with]. rewrite E3, E4. split; f_equal; assumption.
Qed.

Lemma relatch_all_id p : relatch_all (map latches_of p) p = p.
Proof. unfold relatch_all. induction p as [|c p IH]; cbn; [done|]. by rewrite relatch_id, IH. Qed.

Lemma after_latches k p : map latches_of (after k p) = map latches_of p.
Proof. rewrite map_map. apply map_ext. intros c. by destruct (clocked_latches k c) as (-> & _). Qed.

(** A list whose element [i] alone changes. *)
Lemma alter_imap (f : Counter -> Counter) i (p : Pit) : alter f i p = imap (fun j c => if bool_decide (j = i) then f c else c) p.
Proof.
  apply list_eq. intros j. rewrite list_lookup_imap. destruct (decide (j = i)) as [->|Hne].
  - rewrite list_lookup_alter_eq. rewrite bool_decide_eq_true_2 by done. done.
  - rewrite list_lookup_alter_ne by done. rewrite bool_decide_eq_false_2 by done. by destruct (p !! j).
Qed.

Lemma insert_alter (c : Counter) i (p : Pit) : <[i := c]> p = alter (fun _ => c) i p.
Proof.
  apply list_eq. intros j. destruct (decide (j = i)) as [->|Hne].
  - rewrite list_lookup_alter_eq. destruct (p !! i) eqn:E.
    + by rewrite list_lookup_insert_eq by (by eapply lookup_lt_Some).
    + by rewrite list_insert_ge by (by apply lookup_ge_None).
  - by rewrite list_lookup_alter_ne, list_lookup_insert_ne by done.
Qed.

Lemma control_commutes v : latches v = true -> Z.land (Z.shiftr v 6) 3 <> 3 ->
  commutes (quiet (fun c k => write_control c v k)).
Proof.
  intros Hl Hsc. unfold latches in Hl. rewrite (proj2 (Z.eqb_neq _ _) Hsc) in Hl. cbn [orb] in Hl.
  unfold write_control. rewrite Hl. exact latch_count_commutes.
Qed.

Lemma insert_relatch q i d x : q !! i = Some d -> <[i := relatch x d]> q = relatch_all (<[i := x]> (map latches_of q)) q.
Proof.
  intros Ed. unfold relatch_all. rewrite <- (list_insert_id q i d Ed) at 3. rewrite <- insert_zip_with. f_equal.
  symmetry. apply relatch_all_id.
Qed.

(** What an access does now and [k] clocks later. *)
Lemma perform_commutes a p k : access_ok a -> Forall counter_wf p -> Forall (fun c => bcd c = false) p -> length p = 3%nat ->
  Z.of_nat k < 2 ^ 32 ->
  exists xs answer, length xs = length p /\
    perform a p (Z.of_nat k) = (answer, relatch_all xs p) /\
    perform a (after k p) 0 = (answer, relatch_all xs (after k p)).
Proof.
  intros Ha Hw Hb Hlen Hk.
  assert (Hsame : forall answer : option Z, exists xs (answer' : option Z), length xs = length p /\
    (answer, p) = (answer', relatch_all xs p) /\ (answer, after k p) = (answer', relatch_all xs (after k p))).
  { intros answer. exists (map latches_of p), answer. rewrite length_map, relatch_all_id. split; [done|]. split; [done|].
    by rewrite <- (after_latches k p), relatch_all_id. }
  destruct a as [port|v]; cbn [perform].
  - unfold read_port_at. destruct ((64 <=? port) && (port <=? 66)) eqn:E; [|apply Hsame]. bool_prop.
    set (i := Z.to_nat (port - 64)). assert (Hi : (i < 3)%nat) by lia. clearbody i.
    destruct (lookup_lt_is_Some_2 p i) as [c Ec]; [lia|].
    assert (Ec' : after k p !! i = Some (clocked k c).1) by (by rewrite list_lookup_fmap, Ec).
    rewrite (list_lookup_total_correct _ _ _ Ec), (list_lookup_total_correct _ _ _ Ec').
    destruct (read_commutes c k) as (x & answer & E1 & E2); [by eapply Forall_lookup_1 in Hw|by eapply Forall_lookup_1 in Hb|done|].
    rewrite E1, E2. exists (<[i := x]> (map latches_of p)), (Some answer).
    rewrite length_insert, length_map. split; [done|]. split; [by rewrite (insert_relatch _ _ _ _ Ec)|].
    by rewrite (insert_relatch _ _ _ _ Ec'), after_latches.
  - unfold write_port_at. cbn [Z.leb Z.eqb Z.compare Pos.compare Pos.compare_cont andb Pos.eqb snd].
    unfold write_control_word. destruct (Z.eqb_spec (Z.land (Z.shiftr v 6) 3) 3) as [Hsc|Hsc].
    + destruct (negb (Z.land v 32 =? 0) && negb (Z.land v 16 =? 0)); [apply Hsame|].
      destruct (imap_commutes (fun i c k => if has v (Z.shiftl 1 (Z.of_nat i + 1)) then
        let c := if Z.land v 32 =? 0 then latch_count c k else c in
        if Z.land v 16 =? 0 then latch_status c k else c else c) k) with (p := p) as (xs & Hl & E1 & E2); try done.
      { intros i. destruct (has v _); [|apply commutes_none]. destruct (Z.land v 32 =? 0), (Z.land v 16 =? 0).
        - apply (commutes_seq latch_count latch_status latch_count_commutes latch_status_commutes).
        - apply latch_count_commutes.
        - apply latch_status_commutes.
        - apply commutes_none. }
      exists xs, None. split; [done|]. split; f_equal; [exact E1|exact E2].
    + rewrite !alter_imap.
      destruct (imap_commutes (fun j c k => if bool_decide (j = Z.to_nat (Z.land (Z.shiftr v 6) 3)) then write_control c v k else c) k)
        with (p := p) as (xs & Hl & E1 & E2); try done.
      { intros i. case_bool_decide; [by apply control_commutes|apply commutes_none]. }
      exists xs, None. split; [done|]. split; f_equal; [exact E1|exact E2].
Qed.

Lemma head_rises_app a b p : head_rises (a + b) p = head_rises a p + head_rises b (after a p).
Proof.
  destruct p as [|c p]; [done|]. cbn [head_rises map]. rewrite clocked_app. destruct (clocked a c) as [c' x]. cbn [fst].
  by destruct (clocked b c').
Qed.

Lemma head_rises_relatch n xs p : length xs = length p -> head_rises n (relatch_all xs p) = head_rises n p.
Proof. destruct xs, p; try done. intros _. cbn [head_rises relatch_all zip_with]. by rewrite clocked_relatch. Qed.

Lemma relatch_all_wf xs p : Forall counter_wf p -> Forall counter_wf (relatch_all xs p).
Proof.
  intros Hw. revert xs. induction Hw as [|c p Hc Hp IH]; intros [|x xs]; cbn [relatch_all zip_with]; try constructor.
  - by apply relatch_wf.
  - apply IH.
Qed.

(** The transitions a watched channel shows. *)
Definition seen_on (watch : option nat) (n : nat) (p : Pit) : list OutTransition :=
  match watch ≫= (fun i => p !! i) with Some c => traced n c 1 | None => [] end.

Lemma seen_relatch watch n xs p : length xs = length p -> seen_on watch n (relatch_all xs p) = seen_on watch n p.
Proof.
  intros Hl. unfold seen_on. destruct watch as [i|]; [|done]. cbn. unfold relatch_all. rewrite lookup_zip_with.
  destruct (xs !! i) as [x|] eqn:Ex; cbn.
  - destruct (p !! i); [|done]. cbn. apply traced_relatch.
  - apply lookup_ge_None in Ex. by rewrite lookup_ge_None_2 by lia.
Qed.

Lemma seen_app watch a b p : seen_on watch (a + b) p =
  seen_on watch a p ++ map (later (Z.of_nat a)) (seen_on watch b (after a p)).
Proof.
  unfold seen_on. destruct watch as [i|]; [|done]. cbn. rewrite list_lookup_fmap. destruct (p !! i) as [c|]; [|done].
  cbn. by rewrite traced_app, Z.add_comm, traced_later.
Qed.

(** C9.  Batching is unobservable. While devices advance only at the end of a batch, a counter
    read or latch command [k] clocks into it is answered by the closed-form peeks; for
    counters in binary it returns the byte, and the batch ends with the state, the number of
    channel-0 interrupts and the OUT transitions, of a machine that had stepped the chip clock
    by clock up to the access and then on to the end. *)
Theorem in_batch_access a p k n watch bulk :
  Forall counter_wf p -> Forall (fun c => bcd c = false) p -> length p = 3%nat -> access_ok a ->
  0 <= k <= n -> n < 2 ^ 32 ->
  let '(answer, p1) := perform a p k in
  let '(q, edges, seen) := tick_with_observer p1 n watch bulk in
  let '(p2, edges1, seen1) := tick_with_observer p k watch false in
  let '(answer', p3) := perform a p2 0 in
  let '(q', edges2, seen2) := tick_with_observer p3 (n - k) watch false in
  answer = answer' /\ q = q' /\ edges = edges1 + edges2 /\
  exists before after, seen1 = Some before /\ seen2 = Some after /\ seen = Some (before ++ map (later k) after).
Proof.
  intros Hw Hb Hlen Ha Hk Hn.
  destruct (perform_commutes a p (Z.to_nat k) Ha Hw Hb Hlen ltac:(lia)) as (xs & answer & Hl & E1 & E2).
  rewrite Z2Nat.id in E1 by lia. rewrite E1.
  assert (Hw2 : Forall counter_wf (after (Z.to_nat k) p)).
  { apply Forall_map. rewrite Forall_forall in Hw, Hb |- *. intros c Hc. apply clocked_wf; auto. }
  rewrite (observed_advance (relatch_all xs p)), (observed_advance p) by (lia || done || by apply relatch_all_wf).
  rewrite E2, (observed_advance (relatch_all xs (after _ _))) by (lia || by apply relatch_all_wf).
  assert (En : Z.to_nat n = (Z.to_nat k + Z.to_nat (n - k))%nat) by lia.
  fold (seen_on watch (Z.to_nat n) (relatch_all xs p)) (seen_on watch (Z.to_nat k) p)
    (seen_on watch (Z.to_nat (n - k)) (relatch_all xs (after (Z.to_nat k) p))).
  rewrite !after_relatch, !head_rises_relatch, !seen_relatch, after_after, En, head_rises_app, seen_app
    by (rewrite ?length_map; done).
  rewrite Z2Nat.id by lia. repeat split. eauto 10.
Qed.

Lemma in_batch_access_witness :
  let p := (write_port_at (write_port_at (write_port_at power_on 67 52 0).2 64 100 0).2 64 0 0).2 in
  Forall counter_wf p /\ Forall (fun c => bcd c = false) p /\ access_ok (ReadPort 64) /\
  perform (ReadPort 64) p 31 =
    (Some 70, relatch_all [(None, None, true); (None, None, false); (None, None, false)] p) /\
  (let '(answer, p1) := perform (ReadPort 64) p 31 in
   let '(q, edges, seen) := tick_with_observer p1 250 (Some 0%nat) true in
   let '(p2, edges1, seen1) := tick_with_observer p 31 (Some 0%nat) false in
   let '(answer', p3) := perform (ReadPort 64) p2 0 in
   let '(q', edges2, seen2) := tick_with_observer p3 219 (Some 0%nat) false in
   answer = answer' /\ q = q' /\ edges = edges1 + edges2 /\
   exists before after, seen1 = Some before /\ seen2 = Some after /\ seen = Some (before ++ map (later 31) after)).
Proof.
  set (p := (write_port_at (write_port_at (write_port_at power_on 67 52 0).2 64 100 0).2 64 0 0).2).
  assert (Hw : Forall counter_wf p) by (repeat constructor; vm_compute; congruence).
  assert (Hb : Forall (fun c => bcd c = false) p) by (repeat constructor).
  split; [exact Hw|]. split; [exact Hb|]. split; [exact I|]. split; [vm_compute; reflexivity|].
  apply (in_batch_access (ReadPort 64) p 31 250 (Some 0%nat) true Hw Hb eq_refl I); lia.
Defined.

End Peek.
