(* ===== verification/PitRise.v ===== *)
(** * The next interrupt of the 8254

    The invariant of a counter the ports and the clock can reach, the exactness of
    [clocks_until_out_rise] under it, the rate a programmed channel runs at, and the one
    interrupt that [clocks_until_channel0_irq] does not find. *)

From S2P Require Import Prelude Pit PitAdvance PitPeek.
Import Pit.Counter Pit.Chip PitAdvance.Advance PitPeek.Peek.

Module Rise.

(* ------------------------------------------------------------------ *)
(** ** The invariant *)

Record counter_inv (c : Counter) : Prop := mk_counter_inv {
  ci_wf : counter_wf c;
  ci_down : mode c = 0 \/ mode c = 1 -> state c = Counting -> out c = false -> count c <> 0;
  ci_rate : mode c = 2 -> out c = false -> state c = Counting /\ count c = 1 /\ gate c = true;
  ci_strobe : mode c = 4 \/ mode c = 5 -> state c = Counting -> out c = true -> count c <> 0
}.

Lemma of_digits_eq d0 d1 d2 d3 : 0 <= d0 < 16 -> 0 <= d1 < 16 -> 0 <= d2 < 16 -> 0 <= d3 < 16 ->
  of_digits [d0; d1; d2; d3] = d0 + 16 * d1 + 256 * d2 + 4096 * d3.
Proof.
  intros H0 H1 H2 H3. unfold of_digits.
  rewrite (lor_shiftl 4 d0 d1), (lor_shiftl 8 _ d2), (lor_shiftl 12 _ d3) by (lia || (split; lia)). lia.
Qed.

Lemma nibble x : 0 <= Z.land x 15 < 16.
Proof. change 15 with (Z.ones 4). rewrite Z.land_ones by lia. apply Z.mod_pos_bound. lia. Qed.

Lemma bcd_one_bound x : 0 <= bcd_dec_one x <= 65535.
Proof.
  unfold bcd_dec_one. destruct (x =? 0); [lia|]. unfold digits_of.
  pose proof (nibble x). pose proof (nibble (Z.shiftr x 4)). pose proof (nibble (Z.shiftr x 8)). pose proof (nibble (Z.shiftr x 12)).
  set (d0 := Z.land x 15) in *. set (d1 := Z.land (Z.shiftr x 4) 15) in *. set (d2 := Z.land (Z.shiftr x 8) 15) in *. set (d3 := Z.land (Z.shiftr x 12) 15) in *.
  cbn [borrow].
  destruct (Z.ltb_spec 0 d0), (Z.ltb_spec 0 d1), (Z.ltb_spec 0 d2), (Z.ltb_spec 0 d3); rewrite of_digits_eq by lia; lia.
Qed.

Lemma bcd_dec_bound x k : 0 <= bcd_dec x k <= 65535.
Proof.
  unfold bcd_dec. destruct k as [|k]; [|apply bcd_one_bound]. change (0 <= Z.land x 65535 <= 65535). rewrite land_mask16.
  pose proof (Z.mod_pos_bound x (2 ^ 16) ltac:(lia)). lia.
Qed.

Lemma dec_bound c x k : 0 <= dec c x k < 2 ^ 32.
Proof.
  unfold dec. destruct (bcd c); [pose proof (bcd_dec_bound x k); lia|]. apply wrap_in_width. lia.
Qed.

(** Proves the invariant of an explicit counter. *)
Ltac explicit_inv :=
  split; [split|..]; cbn [mode count reload out bcd state gate] in *; intros; try done; try lia; try (intuition (lia || congruence));
  try (match goal with E : _ = false \/ _ = false |- _ => destruct E; bool_prop; subst; first [done|discriminate|lia] end).

Lemma step_inv c : counter_inv c -> counter_inv (step c).1.
Proof.
  intros [Hw Hd Hr Hs]. pose proof (effective_bound c Hw) as He. destruct Hw as [Hm Hc Hrel].
  assert (Hdec : forall k, 0 <= dec c (count c) k < 2 ^ 32) by (intros; apply dec_bound).
  unfold step, step_counting. destruct c as [m w b v r o g st nc la sl wm rm]. field_simpl.
  set (R := effective_reload _) in *. set (D := dec _) in *.
  assert (m = 0 \/ m = 1 \/ m = 2 \/ m = 3 \/ m = 4 \/ m = 5) as Hms by lia.
  destruct st; field_simpl; [by explicit_inv|by explicit_inv| |by explicit_inv].
  pose proof (Hdec 1%nat) as Hd1. pose proof (Hdec 2%nat) as Hd2. pose proof (Hdec 3%nat) as Hd3. clear Hdec.
  destruct Hms as [-> |[-> |[-> |[-> |[-> | ->]]]]]; unfold periodic; cbn [Z.eqb Pos.eqb orb];
    destruct g; field_simpl; cases; field_simpl; bool_prop; by explicit_inv.
Qed.

Lemma relatch_inv x c : counter_inv c -> counter_inv (relatch x c).
Proof. intros [[] ? ? ?]. split; [split|..]; assumption. Qed.

Lemma set_gate_inv c g : counter_inv c -> counter_inv (set_gate c g).
Proof.
  intros [Hw Hd Hr Hs]. pose proof (effective_bound c Hw) as He. destruct Hw as [Hm Hc Hrel].
  unfold set_gate. destruct c as [m w b v r o g' st nc la sl wm rm]. field_simpl.
  change (effective_reload _) with (if r =? 0 then 65536 else r) in *. set (R := if r =? 0 then _ else r) in *.
  assert (m = 0 \/ m = 1 \/ m = 2 \/ m = 3 \/ m = 4 \/ m = 5) as Hms by lia.
  destruct Hms as [-> |[-> |[-> |[-> |[-> | ->]]]]]; unfold periodic; cbn [Z.eqb Pos.eqb orb];
    destruct g, g'; field_simpl; by explicit_inv.
Qed.

Lemma count_width a v mask : u16 a -> u8 v -> u16 (Z.lor (Z.land a mask) v).
Proof.
  intros Ha Hv. apply lor_width; [lia| |by apply (in_width_mono 8)]. rewrite Z.land_comm. by apply land_width_r.
Qed.

Lemma high_width a v : u16 a -> u16 (Z.lor (Z.land a 255) (wrap 16 (Z.shiftl v 8))).
Proof.
  intros Ha. apply lor_width; [lia| |apply wrap_in_width; lia]. rewrite Z.land_comm. by apply land_width_r.
Qed.

Lemma write_count_inv c v : counter_inv c -> u8 v -> counter_inv (write_count c v).
Proof.
  intros [[Hm Hc Hrel] Hd Hr Hs] Hv. pose proof (count_width (reload c) v 65280 Hrel Hv) as Hlo. pose proof (high_width (reload c) v Hrel) as Hhi.
  unfold write_count, arm. destruct c as [m w b x r o g st nc la sl wm rm]. field_simpl.
  set (lo := Z.lor _ v) in *. set (hi := Z.lor _ (wrap 16 _)) in *.
  assert (m = 0 \/ m = 1 \/ m = 2 \/ m = 3 \/ m = 4 \/ m = 5) as Hms by lia.
  destruct Hms as [-> |[-> |[-> |[-> |[-> | ->]]]]]; cbn [Z.eqb Pos.eqb]; destruct w; try destruct wm; field_simpl;
    destruct (bool_decide (st = Counting)) eqn:Es; field_simpl;
    rewrite ?bool_decide_eq_true, ?bool_decide_eq_false in Es; by explicit_inv.
Qed.

Lemma write_control_inv c v k : counter_inv c -> counter_inv (write_control c v k).
Proof.
  intros Hi. unfold write_control. cbv zeta. destruct (Z.land (Z.shiftr v 4) 3 =? 0).
  - unfold latch_count. destruct (latch c); [done|]. rewrite set_latch. by apply relatch_inv.
  - destruct Hi as [[Hm Hc Hrel] _ _ _].
    set (w := match Z.land (Z.shiftr v 4) 3 with 1 => Lsb | 2 => Msb | _ => LsbThenMsb end).
    pose proof (Z.land_ones (Z.shiftr v 1) 3 ltac:(lia)) as E. change (Z.ones 3) with 7 in E.
    pose proof (Z.mod_pos_bound (Z.shiftr v 1) (2 ^ 3) ltac:(lia)) as Hb. rewrite <- E in Hb. clear E.
    set (f := Z.land (Z.shiftr v 1) 7) in *.
    assert (Hf : exists m, match f with 6 => 2 | 7 => 3 | _ => f end = m /\ 0 <= m <= 5).
    { assert (f = 0 \/ f = 1 \/ f = 2 \/ f = 3 \/ f = 4 \/ f = 5 \/ f = 6 \/ f = 7) as Hfs by lia.
      destruct Hfs as [-> |[-> |[-> |[-> |[-> |[-> |[-> | ->]]]]]]]; eexists; (split; [reflexivity|lia]). }
    destruct Hf as (m & -> & Hm'). split; [split|..]; cbn [mode count reload out bcd state gate update eta_Counter] in *; try done.
    by intros ->.
Qed.

Lemma counter_read_inv c k : counter_inv c -> counter_inv (read c k).2.
Proof.
  intros Hi. unfold read. destruct (status_latch c); [rewrite set_status; by apply relatch_inv|].
  destruct (rw c); [rewrite set_latch; by apply relatch_inv..|].
  destruct (negb (read_msb_next c)); cbn [snd]; [rewrite set_msb|rewrite set_msb_latch]; by apply relatch_inv.
Qed.

Lemma latch_count_inv c k : counter_inv c -> counter_inv (latch_count c k).
Proof. intros Hi. unfold latch_count. destruct (latch c); [done|]. rewrite set_latch. by apply relatch_inv. Qed.

Lemma latch_status_inv c k : counter_inv c -> counter_inv (latch_status c k).
Proof. intros Hi. unfold latch_status. destruct (status_latch c); [done|]. rewrite set_status. by apply relatch_inv. Qed.

Lemma clocked_inv n : forall c, counter_inv c -> counter_inv (clocked n c).1.
Proof.
  induction n as [|n IH]; intros c Hi; [done|]. rewrite clocked_step. apply IH. by apply step_inv.
Qed.

(* ------------------------------------------------------------------ *)
(** ** What the machine does with the chip *)

Inductive Event :=
| Write (port value clocks : Z)
| Read (port clocks : Z)
| Gate (channel : nat) (level : bool)
| Advance (clocks : Z) (watch : option nat) (bulk : bool).

Definition event_ok (e : Event) : Prop :=
  match e with Write _ value _ => u8 value | Advance clocks _ _ => 0 <= clocks < 2 ^ 32 | _ => True end.

Definition occur (p : Pit) (e : Event) : Pit :=
  match e with
  | Write port value clocks => (write_port_at p port value clocks).2
  | Read port clocks => (read_port_at p port clocks).2
  | Gate channel level => chip_set_gate p channel level
  | Advance clocks watch bulk => (tick_with_observer p clocks watch bulk).1.1
  end.

Definition chip_inv (p : Pit) : Prop := length p = 3%nat /\ Forall counter_inv p.

Lemma chip_inv_wf p : chip_inv p -> Forall counter_wf p.
Proof. intros [_ Hi]. eapply Forall_impl; [exact Hi|]. by intros c []. Qed.

Lemma alter_inv (f : Counter -> Counter) i p : (forall c, counter_inv c -> counter_inv (f c)) -> chip_inv p -> chip_inv (alter f i p).
Proof. intros Hf [Hl Hi]. split; [by rewrite length_alter|]. apply Forall_alter; [done|]. intros c ? Hc. by apply Hf. Qed.

Lemma write_control_word_inv p v k : chip_inv p -> chip_inv (write_control_word p v k).
Proof.
  intros [Hl Hi]. unfold write_control_word. destruct (_ =? 3).
  - destruct (_ && _); [done|]. split; [by rewrite length_imap|]. apply Forall_lookup_2. intros i c Hc.
    rewrite list_lookup_imap in Hc. destruct (p !! i) as [c0|] eqn:Ec; [|done]. cbn in Hc. injection Hc as <-.
    assert (counter_inv c0) by (by eapply Forall_lookup_1 in Hi). destruct (has v _); [|done].
    destruct (Z.land v 32 =? 0), (Z.land v 16 =? 0); auto using latch_count_inv, latch_status_inv.
  - apply alter_inv; [|by split]. intros c Hc. by apply write_control_inv.
Qed.

Lemma pit_power_on_inv : chip_inv power_on.
Proof.
  assert (Hd : chip_inv [default; default; default]).
  { split; [done|]. repeat constructor; cbn; try lia; try done. }
  unfold power_on. apply alter_inv; [intros; by apply write_count_inv|].
  apply alter_inv; [intros; by apply write_count_inv|]. by apply write_control_word_inv.
Qed.

Lemma occur_inv p e : event_ok e -> chip_inv p -> chip_inv (occur p e).
Proof.
  intros He Hi. destruct e as [port v k|port k|i g|n watch bulk]; cbn [occur event_ok] in *.
  - unfold write_port_at. destruct (_ && _); [apply alter_inv; [intros; by apply write_count_inv|done]|].
    destruct (_ =? _); [by apply write_control_word_inv|done].
  - unfold read_port_at. destruct ((64 <=? port) && (port <=? 66)) eqn:E; [|done]. bool_prop.
    destruct (read (p !!! Z.to_nat (port - 64)) k) as [x c] eqn:Er. cbn [snd]. destruct Hi as [Hl Hi].
    split; [by rewrite length_insert|]. apply Forall_insert; [done|].
    destruct (lookup_lt_is_Some_2 p (Z.to_nat (port - 64))) as [c0 Ec]; [lia|].
    rewrite (list_lookup_total_correct _ _ _ Ec) in Er. pose proof (counter_read_inv c0 k) as Hr. rewrite Er in Hr. apply Hr.
    by eapply Forall_lookup_1 in Hi.
  - apply alter_inv; [intros; by apply set_gate_inv|done].
  - rewrite observed_advance by (done || by apply chip_inv_wf). cbn [fst]. destruct Hi as [Hl Hi].
    split; [by rewrite length_map|]. apply Forall_map. eapply Forall_impl; [exact Hi|]. intros c Hc. by apply clocked_inv.
Qed.

Lemma reachable_inv es : Forall event_ok es -> chip_inv (foldl occur power_on es).
Proof.
  generalize power_on, pit_power_on_inv. induction es as [|e es IH]; intros p Hp He; [done|]. inversion He; subst. cbn [foldl].
  apply IH; [by apply occur_inv|done].
Qed.

(* ------------------------------------------------------------------ *)
(** ** The next rise *)

(** What one clock does to the estimate [u]. *)
Definition one_clock (u : option Z) (s : Counter * bool) : Prop :=
  match u with
  | Some n => if n =? 1 then s.2 = true else 1 < n /\ s.2 = false /\ clocks_until_out_rise s.1 = Some (n - 1)
  | None => s.2 = false /\ clocks_until_out_rise s.1 = None
  end.

Section Live.
Context (r_w : RwMode) (v r : Z) (o : bool) (nc : bool) (la sl : option Z) (wm rm : bool).
Context (Hv : 0 <= v < 2 ^ 32) (Hr : u16 r).
Abbreviation live m o v := (mkCounter m r_w false v r o true Counting nc la sl wm rm).
Abbreviation R := (if r =? 0 then 65536 else r).

Lemma until_live m o' x : clocks_until_out_rise (live m o' x) = rise_from (live m o' x) x.
Proof. done. Qed.

Lemma rate_until : (o = false -> v = 1) -> one_clock (clocks_until_out_rise (live 2 o v)) (step (live 2 o v)).
Proof.
  intros Ho. pose proof (reload_bound r Hr). rewrite until_live, rate_clock by done. unfold rise_from. field_simpl. rewrite !reload_live.
  destruct o; cbn [negb].
  - destruct (Z.leb_spec 2 v); [|destruct (Z.leb_spec 2 R)]; cbn [one_clock].
    + rewrite (proj2 (Z.eqb_neq v 1)), (proj2 (Z.leb_gt v 1)) by lia. cbn [fst snd]. split; [lia|]. split; [done|].
      rewrite until_live. unfold rise_from. field_simpl. destruct (Z.eqb_spec v 2) as [->|]; [done|]. cbn [negb].
      by rewrite (proj2 (Z.leb_le 2 (v - 1))) by lia.
    + rewrite (proj2 (Z.eqb_neq (1 + R) 1)), (proj2 (Z.leb_le v 1)) by lia. cbn [fst snd]. split; [lia|]. split; [done|].
      rewrite until_live. unfold rise_from. field_simpl. rewrite (proj2 (Z.leb_le 2 R)) by lia. f_equal. lia.
    + rewrite (proj2 (Z.leb_le v 1)) by lia. cbn [fst snd negb]. split; [done|]. rewrite until_live. unfold rise_from. field_simpl.
      rewrite reload_live, (proj2 (Z.leb_gt 2 R)) by lia. done.
  - rewrite (proj2 (Z.leb_le v 1)) by (specialize (Ho eq_refl); lia). done.
Qed.

Lemma square_until : one_clock (clocks_until_out_rise (live 3 o v)) (step (live 3 o v)).
Proof.
  pose proof (reload_bound r Hr). pose proof (trim_bound v o). rewrite until_live, square_clock by done. unfold rise_from. field_simpl. rewrite !reload_live.
  pose proof (half_bounds R false ltac:(lia)). pose proof (half_bounds v o ltac:(lia)).
  destruct (Z.leb_spec v (trim v o)).
  - destruct o; rewrite half_small by lia; cbn [one_clock]; [|done].
    rewrite (proj2 (Z.eqb_neq (1 + _) 1)) by lia. cbn [fst snd negb]. split; [lia|]. split; [done|].
    rewrite until_live. unfold rise_from. field_simpl. f_equal. lia.
  - pose proof (half_bounds (v - trim v o) o ltac:(lia)).
    destruct o; rewrite half_large by lia; cbn [one_clock]; rewrite (proj2 (Z.eqb_neq _ 1)) by lia; cbn [fst snd];
      (split; [lia|]); (split; [done|]); rewrite until_live; unfold rise_from; field_simpl; rewrite ?reload_live; f_equal; lia.
Qed.

Lemma countdown_until m : m = 0 \/ m = 1 -> (o = false -> v <> 0) ->
  one_clock (clocks_until_out_rise (live m o v)) (step (live m o v)).
Proof.
  intros Hm Ho. assert (Hu : forall o' x, clocks_until_out_rise (live m o' x) = if o' || (x =? 0) then None else Some x).
  { intros. rewrite until_live. unfold rise_from. by destruct Hm as [-> | ->]. }
  rewrite Hu, countdown_clock, wrap_pred by done. destruct o; cbn [orb negb one_clock].
  - rewrite andb_false_r. cbn [fst snd]. rewrite Hu. done.
  - specialize (Ho eq_refl). rewrite (proj2 (Z.eqb_neq v 0)) by done. cbn [one_clock]. destruct (Z.eqb_spec v 1); cbn [andb fst snd]; [done|].
    split; [lia|]. split; [done|]. rewrite Hu. cbn [orb]. by rewrite (proj2 (Z.eqb_neq (v - 1) 0)) by lia.
Qed.

Lemma strobe_until m : m = 4 \/ m = 5 -> (o = true -> v <> 0) ->
  one_clock (clocks_until_out_rise (live m o v)) (step (live m o v)).
Proof.
  intros Hm Ho. assert (Hu : forall o' x, clocks_until_out_rise (live m o' x) =
    if negb o' then Some 1 else if x =? 0 then None else Some (x + 1)).
  { intros. rewrite until_live. unfold rise_from. by destruct Hm as [-> | ->]. }
  rewrite Hu, strobe_clock, wrap_pred by done. destruct o; cbn [negb one_clock]; [|done].
  specialize (Ho eq_refl). rewrite (proj2 (Z.eqb_neq v 0)) by done. cbn [one_clock fst snd].
  rewrite (proj2 (Z.eqb_neq (v + 1) 1)) by lia. split; [lia|]. split; [done|]. rewrite Hu.
  destruct (Z.eqb_spec v 1) as [->|]; cbn [negb]; [done|]. rewrite (proj2 (Z.eqb_neq (v - 1) 0)) by lia. f_equal. lia.
Qed.

End Live.

Lemma until_step c : counter_inv c -> bcd c = false -> one_clock (clocks_until_out_rise c) (step c).
Proof.
  intros [Hw Hd Hra Hs] Hb. pose proof (effective_bound c Hw) as He.
  unfold clocks_until_out_rise. rewrite Hb. destruct (state c) eqn:Es.
  - rewrite (surjective_pairing (step c)). unfold step. rewrite Es. cbn. split; [done|]. unfold clocks_until_out_rise. by rewrite Hb, Es.
  - rewrite step_load by done. destruct (gate c) eqn:Eg; cbn [negb].
    + set (c1 := c <| count := _ |> <| null_count := false |> <| state := Counting |>).
      assert (Hu : clocks_until_out_rise c1 = rise_from c (effective_reload c)).
      { unfold clocks_until_out_rise, c1. cbn [bcd state gate update eta_Counter]. by rewrite Hb, Eg. }
      assert (Hpos : forall x, rise_from c (effective_reload c) = Some x -> 0 < x).
      { unfold rise_from. intros x. pose proof (half_bounds (effective_reload c) true ltac:(lia)).
        pose proof (half_bounds (effective_reload c) false ltac:(lia)). cases; bool_prop; intros [= <-]; lia. }
      destruct (rise_from c (effective_reload c)) as [x|]; cbn [fmap option_fmap option_map one_clock fst snd].
      * specialize (Hpos x eq_refl). rewrite (proj2 (Z.eqb_neq (x + 1) 1)) by lia. split; [lia|]. split; [done|].
        rewrite Hu. f_equal. lia.
      * by split.
    + cbn [one_clock fst snd]. split; [done|]. unfold clocks_until_out_rise. cbn [bcd state gate update eta_Counter]. by rewrite Hb, Eg.
  - destruct (gate c) eqn:Eg; cbn [negb].
    + destruct Hw as [Hm Hc Hr]. destruct c as [m w b v r o g st nc la sl wm rm]. field_simpl. subst b g st.
      assert (m = 0 \/ m = 1 \/ m = 2 \/ m = 3 \/ m = 4 \/ m = 5) as [-> |[-> |[-> |[-> |H45]]]] by lia.
      * apply (countdown_until w v r o nc la sl wm rm Hc 0); auto.
      * apply (countdown_until w v r o nc la sl wm rm Hc 1); auto.
      * apply (rate_until w v r o nc la sl wm rm Hc Hr). intros Ho. by apply Hra.
      * apply (square_until w v r o nc la sl wm rm Hc Hr).
      * apply (strobe_until w v r o nc la sl wm rm Hc m H45). auto.
    + cbn [one_clock]. unfold step, step_counting. rewrite Es, Eg. cbn [negb fst snd]. split; [done|].
      unfold clocks_until_out_rise. destruct (periodic (mode c)); cbn [bcd state gate update eta_Counter]; by rewrite Hb, Es, Eg.
  - rewrite (surjective_pairing (step c)). unfold step. rewrite Es. cbn. split; [done|]. unfold clocks_until_out_rise. by rewrite Hb, Es.
Qed.

Lemma until_sound n : forall c, counter_inv c -> bcd c = false ->
  match clocks_until_out_rise c with
  | Some k => 0 < k /\ (Z.of_nat n < k -> (clocked n c).2 = 0) /\ (Z.of_nat n = k -> (clocked n c).2 = 1)
  | None => (clocked n c).2 = 0
  end.
Proof.
  induction n as [|n IH]; intros c Hi Hb; pose proof (until_step c Hi Hb) as Hone; unfold one_clock in Hone.
  - destruct (clocks_until_out_rise c) as [k|]; [|done]. destruct (Z.eqb_spec k 1); [|destruct Hone as [? _]].
    all: split; [lia|]; split; [done|]; cbn; lia.
  - cbn [clocked]. pose proof (step_inv c Hi) as Hi'. assert (Hb' : bcd (step c).1 = false).
    { destruct (step_frame c) as (v & o & s & nc & -> & _). done. }
    specialize (IH _ Hi' Hb'). destruct (step c) as [c' rose]. cbn [fst snd] in *.
    destruct (clocked n c') as [c'' x] eqn:Ec. cbn [snd] in *.
    destruct (clocks_until_out_rise c) as [k|].
    + destruct (Z.eqb_spec k 1) as [Ek|].
      * subst rose k. split; [lia|]. split; [lia|]. intros Hn. assert (n = 0%nat) as -> by lia. by injection Ec as <- <-.
      * destruct Hone as (? & -> & Hu). rewrite Hu in IH. destruct IH as (_ & H1 & H2). cbn [b2z].
        split; [lia|]. split; intros; [rewrite H1|rewrite H2]; lia.
    + destruct Hone as [-> Hu]. rewrite Hu in IH. rewrite IH. done.
Qed.

(** C37.  The predicted interrupt is the next one. In any state the machine can bring the chip
    to from power-on, by port accesses, gate changes and advances in any order, the analytic
    estimate of a channel counting in binary is exact: OUT rises on the predicted clock and on
    none before it, and no prediction means that it never rises however long the chip runs
    untouched. *)
Theorem next_rise_exact es channel c :
  Forall event_ok es ->
  foldl occur power_on es !! channel = Some c -> bcd c = false ->
  match chip_clocks_until_out_rise (foldl occur power_on es) channel with
  | Some k => 0 < k /\ (clocked (Z.to_nat k) c).2 = 1 /\ (clocked (Z.to_nat (k - 1)) c).2 = 0
  | None => forall n, (clocked n c).2 = 0
  end.
Proof.
  intros He Hc Hb. destruct (reachable_inv es He) as [_ Hi]. assert (Hci : counter_inv c) by (by eapply Forall_lookup_1 in Hi).
  unfold chip_clocks_until_out_rise. rewrite Hc. cbn [mbind option_bind].
  pose proof (fun n => until_sound n c Hci Hb) as Hs. destruct (clocks_until_out_rise c) as [k|]; [|exact Hs].
  destruct (Hs 0%nat) as (Hk & _). split; [done|].
  destruct (Hs (Z.to_nat k)) as (_ & _ & H1). destruct (Hs (Z.to_nat (k - 1))) as (_ & H2 & _).
  split; [apply H1; lia|apply H2; lia].
Qed.

(* ------------------------------------------------------------------ *)
(** ** Programmed rates *)

(** A control word for channel 0 in mode [m], low and high byte of [N]. *)
Definition program (p : Pit) (m N : Z) : Pit :=
  let p := (write_port_at p 67 (48 + 2 * m) 0).2 in
  let p := (write_port_at p 64 (N mod 256) 0).2 in
  (write_port_at p 64 (N / 256) 0).2.

Definition period (N : Z) : Z := if N =? 0 then 65536 else N.

Lemma count_bytes r N : u16 N ->
  Z.lor (Z.land (Z.lor (Z.land r 65280) (N mod 256)) 255) (wrap 16 (Z.shiftl (N / 256) 8)) = N.
Proof.
  intros HN. unfold in_width in HN. change (2 ^ 16) with 65536 in HN. pose proof (Z.div_mod N 256 ltac:(lia)).
  pose proof (Z.mod_pos_bound N 256 ltac:(lia)). assert (0 <= N / 256 < 256) by (split; [apply Z.div_pos|apply Z.div_lt_upper_bound]; lia).
  rewrite Z.land_lor_distr_l, <- Z.land_assoc. change (Z.land 65280 255) with 0. rewrite Z.land_0_r, Z.lor_0_l.
  change 255 with (Z.ones 8). rewrite Z.land_ones by lia. change (2 ^ 8) with 256. rewrite Z.mod_mod by lia.
  rewrite wrap_id. 2:{ rewrite Z.shiftl_mul_pow2 by lia. split; [|change (2 ^ 16) with (256 * 256); change (2 ^ 8) with 256]; nia. }
  rewrite lor_shiftl; [change (2 ^ 8) with 256; lia|lia|split; [lia|change (2 ^ 8) with 256; lia]].
Qed.

Lemma programmed p m N : length p = 3%nat -> gate (p !!! 0%nat) = true -> m = 2 \/ m = 3 \/ m = 4 -> u16 N ->
  program p m N !! 0%nat = Some (mkCounter m LsbThenMsb false (count (p !!! 0%nat)) N true true LoadDelay true None None false false).
Proof.
  intros Hl Hg Hm HN. destruct p as [|c p]; [done|]. cbn in Hg. unfold program.
  assert (Hcw : (write_port_at (c :: p) 67 (48 + 2 * m) 0).2 = write_control c (48 + 2 * m) 0 :: p) by (by destruct Hm as [-> |[-> | ->]]).
  assert (Hcount : forall c v, (write_port_at (c :: p) 64 v 0).2 = write_count c v :: p) by done.
  rewrite Hcw, !Hcount. cbn [lookup list_lookup]. f_equal. change ((c :: p) !!! 0%nat) with c.
  destruct c as [m0 w0 b0 v0 r0 o0 g0 st0 nc0 la0 sl0 wm0 rm0]. cbn in Hg. subst g0.
  assert (Hc : write_control (mkCounter m0 w0 b0 v0 r0 o0 true st0 nc0 la0 sl0 wm0 rm0) (48 + 2 * m) 0 =
    mkCounter m LsbThenMsb false v0 r0 true true Inactive true None None false false) by (by destruct Hm as [-> |[-> | ->]]).
  rewrite Hc. unfold write_count at 2. field_simpl. rewrite (proj2 (Z.eqb_neq m 0)) by lia.
  unfold write_count. field_simpl. rewrite count_bytes by done. by destruct Hm as [-> |[-> | ->]].
Qed.

Lemma program_wf p m N : Forall counter_wf p -> length p = 3%nat -> gate (p !!! 0%nat) = true -> m = 2 \/ m = 3 \/ m = 4 -> u16 N ->
  Forall counter_wf (program p m N).
Proof.
  intros Hw Hl Hg Hm HN. apply Forall_lookup_2. intros i c Hc. destruct i as [|i].
  - rewrite (programmed p m N) in Hc by done. injection Hc as <-. destruct p as [|c0 p]; [done|]. inversion Hw as [|? ? [] ?]; subst.
    split; cbn; [lia|done|done].
  - assert (E : program p m N !! S i = p !! S i).
    { unfold program, write_port_at, write_control_word. destruct p as [|c0 p]; [done|].
      by destruct Hm as [-> |[-> | ->]]. }
    rewrite E in Hc. by eapply Forall_lookup_1 in Hw.
Qed.

(** The rises of a freshly programmed periodic counter. *)
Lemma periodic_rises m w v N nc la sl wm rm n : m = 2 \/ m = 3 -> u16 N -> 2 <= period N -> 0 <= v < 2 ^ 32 -> (0 < n)%nat -> Z.of_nat n < 2 ^ 32 ->
  (clocked n (mkCounter m w false v N true true LoadDelay nc la sl wm rm)).2 = (Z.of_nat n - 1) / period N.
Proof.
  intros Hm HN HP Hv Hn Hlt. set (c := mkCounter m w false v N true true LoadDelay nc la sl wm rm).
  assert (Hw : counter_wf c) by (split; cbn; lia || done).
  pose proof (reload_bound N HN) as HR. change (if N =? 0 then 65536 else N) with (period N) in HR.
  assert (Hd : bulk_decline c = None).
  { unfold bulk_decline, c. field_simpl. change (effective_reload _) with (period N). rewrite (proj2 (Z.leb_gt (period N) 1)) by lia.
    by destruct Hm as [-> | ->]. }
  rewrite <- (advance_clocked n c Hw Hd Hlt). unfold advance. rewrite (proj2 (Z.eqb_neq (Z.of_nat n) 0)) by lia.
  unfold c. field_simpl. change (effective_reload _) with (period N). set (k := Z.of_nat n - 1).
  destruct (decide (k = 0)) as [Ek|].
  { rewrite Ek. rewrite Z.div_small by lia. done. }
  assert (Hk : 0 < k) by lia. destruct Hm as [-> | ->].
  - rewrite (rate_after w N false la sl wm rm HN k (period N) true) by (done || lia).
    change (if N =? 0 then 65536 else N) with (period N). rewrite (proj2 (Z.leb_le 2 (period N))) by lia.
    destruct (Z.ltb_spec k (period N)); cbn [snd b2z]; [by rewrite Z.div_small by lia|].
    replace k with (k - period N + 1 * period N) at 2 by lia. rewrite Z.div_add by lia. lia.
  - rewrite (square_after w N false la sl wm rm HN k (period N) true) by (done || lia). cbv zeta.
    change (if N =? 0 then 65536 else N) with (period N).
    pose proof (halves (period N) true HP) as Hh. cbn [negb] in Hh |- *.
    pose proof (half_bounds (period N) false ltac:(lia)). pose proof (half_bounds (period N) true ltac:(lia)).
    destruct (Z.ltb_spec k (mode3_half (period N) true)); [by rewrite Z.div_small by lia|].
    destruct (square_phase _ _ _). cbn [snd]. unfold square_rises. cbv zeta.
    destruct (Z.leb_spec (mode3_half (period N) false) (k - mode3_half (period N) true)); [|by rewrite Z.div_small by lia].
    replace k with (k - period N + 1 * period N) at 2 by lia. rewrite Z.div_add by lia.
    replace (k - mode3_half (period N) true - mode3_half (period N) false) with (k - period N) by lia. lia.
Qed.

(** The programmed rate is the delivered rate. Once channel 0, its gate high, is programmed
    through the ports as a rate generator or a square wave with a legal count N, whatever it
    was doing before, [n] input clocks raise exactly (n - 1) / N interrupts, with a count of
    zero standing for 65536, in whichever way those clocks are batched or computed. *)
Theorem irq0_rate p m N n watch bulk :
  Forall counter_wf p -> length p = 3%nat -> gate (p !!! 0%nat) = true ->
  m = 2 \/ m = 3 -> u16 N -> 2 <= period N -> 0 < n < 2 ^ 32 ->
  (tick_with_observer (program p m N) n watch bulk).1.2 = (n - 1) / period N.
Proof.
  intros Hw Hl Hg Hm HN HP Hn. assert (Hm' : m = 2 \/ m = 3 \/ m = 4) by tauto.
  rewrite observed_advance by (lia || by apply program_wf). cbn [fst snd].
  pose proof (programmed p m N Hl Hg Hm' HN) as Hp. destruct (program p m N) as [|c q]; [done|]. injection Hp as ->. cbn [head_rises].
  rewrite periodic_rises by (done || lia || (destruct p as [|c p]; [done|]; inversion Hw as [|? ? [] ?]; subst; done)).
  by rewrite Z2Nat.id by lia.
Qed.

Lemma irq0_rate_witness :
  Forall counter_wf power_on /\ length power_on = 3%nat /\ gate (power_on !!! 0%nat) = true /\ 2 <= period 11932 /\
  (tick_with_observer (program power_on 3 11932) 1193182 (Some 2%nat) true).1.2 = (1193182 - 1) / period 11932 /\
  (1193182 - 1) / period 11932 = 99.
Proof.
  assert (Hw : Forall counter_wf power_on) by (apply chip_inv_wf, pit_power_on_inv).
  split; [exact Hw|]. split; [reflexivity|]. split; [reflexivity|]. split; [vm_compute; congruence|].
  split; [|vm_compute; reflexivity].
  apply (irq0_rate power_on 3 11932 1193182 (Some 2%nat) true Hw eq_refl eq_refl); [by right|split; lia|vm_compute; congruence|lia].
Defined.

Lemma next_rise_exact_witness :
  let es := [Write 67 52 0; Write 64 5 0; Write 64 0 0; Advance 7 None true; Gate 2 false; Write 67 0 0; Read 64 0] in
  Forall event_ok es /\
  match chip_clocks_until_out_rise (foldl occur power_on es) 0 with
  | Some k => 0 < k /\ (clocked (Z.to_nat k) (foldl occur power_on es !!! 0%nat)).2 = 1 /\
      (clocked (Z.to_nat (k - 1)) (foldl occur power_on es !!! 0%nat)).2 = 0
  | None => forall n, (clocked n (foldl occur power_on es !!! 0%nat)).2 = 0
  end /\
  chip_clocks_until_out_rise (foldl occur power_on es) 0 = Some 4.
Proof.
  set (es := [_; _; _; _; _; _; _]).
  assert (He : Forall event_ok es) by (repeat constructor; vm_compute; congruence).
  split; [exact He|]. split; [|vm_compute; reflexivity].
  apply (next_rise_exact es 0 (foldl occur power_on es !!! 0%nat) He); vm_compute; reflexivity.
Defined.

Lemma find_rise_none n : forall c k, (clocked n c).2 = 0 -> find_rise c n k = None.
Proof.
  induction n as [|n IH]; intros c k Hc; [done|]. cbn [find_rise clocked] in *. destruct (step c) as [c' rose].
  pose proof (clocked_bound n c') as Hb. destruct (clocked n c') as [c'' x] eqn:E. cbn [snd] in *.
  destruct rose; cbn [b2z] in Hc; [lia|]. apply IH. rewrite E. cbn. lia.
Qed.

Lemma head_rises_cons n c q : head_rises n (c :: q) = (clocked n c).2.
Proof. done. Qed.

Lemma observed_edges p clocks watch bulk : Forall counter_wf p -> 0 <= clocks < 2 ^ 32 ->
  (tick_with_observer p clocks watch bulk).1.2 = head_rises (Z.to_nat clocks) p.
Proof. intros Hw Hc. by rewrite (observed_advance p clocks watch bulk Hw Hc). Qed.

Lemma search_cons c q : clocks_until_channel0_irq (c :: q) = find_rise c (Z.to_nat 65537) 1.
Proof. reflexivity. Qed.

(** The halted machine's search for the next timer interrupt misses one. With channel 0
    programmed as a software-triggered strobe of the largest count, the interrupt comes
    65538 clocks later, as the analytic estimate says and the chip does; the search used
    for HLT stops after 65537 and reports that the counter cannot fire. *)
Theorem halt_search_misses_strobe p :
  Forall counter_wf p -> length p = 3%nat -> gate (p !!! 0%nat) = true ->
  let q := program p 4 0 in
  clocks_until_channel0_irq q = None /\ chip_clocks_until_out_rise q 0 = Some 65538 /\
  (tick_with_observer q 65538 None true).1.2 = 1.
Proof.
  intros Hw Hl Hg. assert (H0 : u16 0) by (split; lia). assert (Hm : 4 = 2 \/ 4 = 3 \/ 4 = 4) by auto. cbv zeta.
  pose proof (programmed p 4 0 Hl Hg Hm H0) as Hp. pose proof (program_wf p 4 0 Hw Hl Hg Hm H0) as Hpw.
  destruct (program p 4 0) as [|c q]; [done|]. injection Hp as ->. inversion Hpw as [|? ? Hcw _]; subst.
  set (v := count (p !!! 0%nat)) in *. set (c := mkCounter 4 _ _ v _ _ _ _ _ _ _ _ _) in *.
  assert (Hadv : forall n, Z.of_nat n < 2 ^ 32 -> (clocked n c).2 = (advance c (Z.of_nat n)).2) by (intros; by rewrite advance_clocked).
  assert (Hlive : forall n, 1 < n -> (advance c n).2 = if n - 1 <=? 65536 then 0 else 1).
  { intros n Hn. unfold advance, c. field_simpl. rewrite (proj2 (Z.eqb_neq n 0)) by lia.
    change (effective_reload _) with 65536. rewrite (strobe_after LsbThenMsb 0 false None None false false 4 true 65536 (n - 1)) by (auto || lia).
    rewrite (proj2 (Z.eqb_neq (n - 1) 0)) by lia. cbn [negb Z.eqb]. by destruct (n - 1 <=? 65536). }
  assert (Hrises : forall n, 1 < Z.of_nat n < 2 ^ 32 -> (clocked n c).2 = if Z.of_nat n - 1 <=? 65536 then 0 else 1)
    by (intros; rewrite Hadv, Hlive by lia; done).
  clear Hadv Hlive. split; [|split; [reflexivity|]].
  - assert (Hfind : forall n, Z.of_nat n = 65537 -> find_rise c n 1 = None)
      by (intros n En; apply find_rise_none; rewrite Hrises, En by lia; reflexivity).
    rewrite search_cons. apply Hfind. rewrite Z2Nat.id by lia. reflexivity.
  - assert (Hlast : forall n, Z.of_nat n = 65538 -> head_rises n (c :: q) = 1)
      by (intros n En; rewrite head_rises_cons, Hrises, En by lia; reflexivity).
    rewrite observed_edges by (done || lia). apply Hlast. rewrite Z2Nat.id by lia. reflexivity.
Qed.

Lemma halt_search_misses_strobe_witness :
  Forall counter_wf power_on /\
  clocks_until_channel0_irq (program power_on 4 0) = None /\
  chip_clocks_until_out_rise (program power_on 4 0) 0 = Some 65538 /\
  (tick_with_observer (program power_on 4 0) 65538 None true).1.2 = 1.
Proof.
  assert (Hw : Forall counter_wf power_on) by (apply chip_inv_wf, pit_power_on_inv).
  split; [exact Hw|]. exact (halt_search_misses_strobe power_on Hw eq_refl eq_refl).
Defined.

End Rise.
