(* ===== verification/PitCanonical.v ===== *)
(** * The canonical state of the interval timer

    crates/izarravm-machine/src/pit.rs ([CanonicalPit]).  The 60-byte payload of the three
    counters leaves out the high half of a count that can no longer end, the byte of a
    latched count that has been read, the byte selectors of a single-byte counter, and the
    difference between a counter that is inactive and one that waits for its gate.  This
    file has the payload, the normal form of a counter, and the proof that the clock, the
    gate and the peeks cannot tell a counter from its normal form. *)

From S2P Require Import Prelude Clock Canonical Pit PitAdvance PitPeek PitRise.
Import Pit.Counter Pit.Chip PitAdvance.Advance PitPeek.Peek PitRise.Rise.

Module PitPayload.

(* ------------------------------------------------------------------ *)
(** ** The payload *)

Definition rw_mode_tag (r : RwMode) : Z := match r with Lsb => 0 | Msb => 1 | LsbThenMsb => 2 end.

Definition counter_state_tag (s : CounterState) : Z :=
  match s with Inactive | WaitGate => 0 | LoadDelay => 1 | Counting => 2 end.

(** [counter.state == CounterState::Counting] *)
Definition is_counting (s : CounterState) : bool := match s with Counting => true | _ => false end.

(** [counter.rw == RwMode::LsbThenMsb] *)
Definition is_dual (r : RwMode) : bool := match r with LsbThenMsb => true | _ => false end.

(** [retain_full_count] *)
Definition retain_full_count (c : Counter) : bool :=
  is_counting (state c) &&
  match mode c with 0 | 1 => negb (out c) | 2 | 3 => true | 4 | 5 => out c | _ => false end.

Definition canonical_count (c : Counter) : Z :=
  if retain_full_count c then count c else Z.land (count c) 65535.

Definition canonical_latch (c : Counter) : bool * Z :=
  match latch c with
  | None => (false, 0)
  | Some value =>
      (true, match rw c with
             | Lsb => Z.land value 255
             | Msb => Z.land value 65280
             | LsbThenMsb => if read_msb_next c then Z.land value 65280 else value
             end)
  end.

Definition dual_byte (c : Counter) : bool := is_dual (rw c).

Definition status_value (c : Counter) : bool * Z :=
  match status_latch c with Some v => (true, v) | None => (false, 0) end.

Section Payload.
Context {Alloc : Allocator}.

Definition write_canonical_counter (c : Counter) : FW :=
  let '(latch_present, latch) := canonical_latch c in
  let '(status_present, status) := status_value c in
  Canonical.write_u8 (mode c) >> Canonical.write_u8 (rw_mode_tag (rw c)) >> write_bool (bcd c) >>
  write_u32 (canonical_count c) >> write_u16 (reload c) >> write_bool (out c) >>
  write_bool (gate c) >> Canonical.write_u8 (counter_state_tag (state c)) >>
  write_bool (null_count c) >> write_bool latch_present >> write_u16 latch >>
  write_bool status_present >> Canonical.write_u8 status >>
  write_bool (dual_byte c && write_msb_next c) >> write_bool (dual_byte c && read_msb_next c).

(** [CanonicalPit::write_payload] *)
Definition write_pit_payload (p : Pit) : FW := fw_each write_canonical_counter p.

End Payload.

Definition counter_bytes (c : Counter) : list Z :=
  [mode c] ++ [rw_mode_tag (rw c)] ++ [b2z (bcd c)] ++ le_bytes 4 (canonical_count c) ++
  le_bytes 2 (reload c) ++ [b2z (out c)] ++ [b2z (gate c)] ++ [counter_state_tag (state c)] ++
  [b2z (null_count c)] ++ [b2z (canonical_latch c).1] ++ le_bytes 2 (canonical_latch c).2 ++
  [b2z (status_value c).1] ++ [(status_value c).2] ++
  [b2z (dual_byte c && write_msb_next c)] ++ [b2z (dual_byte c && read_msb_next c)].

Lemma counter_bytes_length c : length (counter_bytes c) = 20%nat.
Proof. unfold counter_bytes. by rewrite !length_app, !le_bytes_length. Qed.

#[export] Instance pit_payload {Alloc : Allocator} : CanonicalPayload Pit.
Proof.
  refine {|
    payload_wf p := length p = 3%nat;
    payload p := concat (counter_bytes <$> p);
    payload_len := 60;
    write_payload := write_pit_payload
  |}.
  - intros p. apply emits_each. intros c. unfold write_canonical_counter, counter_bytes.
    destruct (canonical_latch c), (status_value c).
    repeat (apply emits_seq; [apply emits_append|]); apply emits_append.
  - by intros [|a [|b [|c []]]].
Defined.

(* ------------------------------------------------------------------ *)
(** ** Observational normal form *)

(** What remains of a latched count. *)
Definition latch_left (r : RwMode) (high : bool) (value : Z) : Z :=
  match r with
  | Lsb => Z.land value 255
  | Msb => Z.land value 65280
  | LsbThenMsb => if high then Z.land value 65280 else value
  end.

Definition settled (s : CounterState) : CounterState := match s with WaitGate => Inactive | s => s end.

(** The counting registers and the port registers of the normal form. *)
Definition core (c : Counter) : Counter := c <| count := canonical_count c |> <| state := settled (state c) |>.

Definition with_ports (l : option Z) (wm rm : bool) (c : Counter) : Counter :=
  c <| latch := l |> <| write_msb_next := wm |> <| read_msb_next := rm |>.

Definition ports_left (c : Counter) : Counter -> Counter :=
  with_ports (latch_left (rw c) (read_msb_next c) <$> latch c) (is_dual (rw c) && write_msb_next c)
    (is_dual (rw c) && read_msb_next c).

Definition observed (c : Counter) : Counter := ports_left c (core c).

(** Two counters the payload does not separate. *)
Definition alike (c d : Counter) : Prop := observed c = observed d.
Infix "≈c" := alike (at level 70).

#[export] Instance alike_equivalence : Equivalence alike.
Proof. split; [done|by intros ??|intros ???; unfold alike; congruence]. Qed.

Lemma observed_mode c : mode (observed c) = mode c.
Proof. done. Qed.

Lemma mask_idem x m : Z.land (Z.land x m) m = Z.land x m.
Proof. by rewrite <- Z.land_assoc, Z.land_diag. Qed.

Lemma mask_mod v k : (v mod 2 ^ 16 - k) mod 2 ^ 16 = (v - k) mod 2 ^ 16.
Proof. by rewrite Zminus_mod_idemp_l. Qed.

Lemma mod_16_32 x : (x mod 2 ^ 32) mod 2 ^ 16 = x mod 2 ^ 16.
Proof. apply Z.mod_mod_divide. by exists (2 ^ 16). Qed.

Lemma mask_wrap32 v k : mask16 (wrap32 (Z.land v 65535) k) = mask16 (wrap32 v k).
Proof. unfold mask16. by rewrite !wrap32_eq, !land_mask16, !mod_16_32, mask_mod. Qed.

Definition decrement (b : bool) (v : Z) (k : nat) : Z := if b then bcd_dec v k else wrap 32 (v - Z.of_nat k).

(** The step of a count whose high half no longer matters. *)
Lemma mask_decrement b v k : Z.land (decrement b (Z.land v 65535) k) 65535 = Z.land (decrement b v k) 65535.
Proof.
  unfold decrement. destruct b.
  - unfold bcd_dec. by rewrite mask_idem.
  - unfold wrap. by rewrite !land_mask16, !mod_16_32, mask_mod.
Qed.

Lemma dual_idem r b : is_dual r && (is_dual r && b) = is_dual r && b.
Proof. by destruct r. Qed.

Lemma latch_idem r b (l : option Z) : latch_left r (is_dual r && b) <$> (latch_left r b <$> l) = latch_left r b <$> l.
Proof. by destruct l, r, b; cbn; rewrite ?mask_idem. Qed.

(** Opens a counter of a legal mode. *)
Ltac open_counter c Hm :=
  destruct c as [m w b v r o g st nc la sl wm rm]; cbn [mode] in Hm;
  assert (m = 0 \/ m = 1 \/ m = 2 \/ m = 3 \/ m = 4 \/ m = 5) as [-> |[-> |[-> |[-> |[-> | ->]]]]] by lia.

Ltac core_simpl := unfold core, canonical_count, retain_full_count; field_simpl; cbn [is_counting settled andb].

Lemma core_retained c : retain_full_count c = true -> core c = c.
Proof. intros E. unfold core, canonical_count. rewrite E. destruct c as [? ? ? ? ? ? ? st]. by destruct st. Qed.

Lemma core_idem c : core (core c) = core c.
Proof.
  destruct c as [m w b v r o g st nc la sl wm rm]. unfold core, canonical_count, retain_full_count. field_simpl.
  destruct st; cbn [is_counting settled andb]; rewrite ?mask_idem; try done.
  destruct (match m with 0 | 1 => negb o | 2 | 3 => true | 4 | 5 => o | _ => false end) eqn:E; rewrite ?E, ?mask_idem; done.
Qed.

Lemma step_core c : 0 <= mode c <= 5 ->
  core (step (core c)).1 = core (step c).1 /\ (step (core c)).2 = (step c).2.
Proof.
  intros Hm. destruct (retain_full_count c) eqn:Er; [by rewrite (core_retained c Er)|].
  open_counter c Hm; unfold retain_full_count in Er; cbn [state mode out] in Er; destruct st; try done; destruct o; try done;
    core_simpl; try (by rewrite mask_idem); unfold step, step_counting; field_simpl; destruct g; cbn [periodic Z.eqb Pos.eqb orb]; field_simpl; try (by core_simpl; rewrite ?mask_idem).
  all: rewrite !andb_false_r; core_simpl; change (dec _) with (decrement b); by rewrite mask_decrement.
Qed.

(** ** Operations on the counting registers *)

(** An operation that neither reads nor writes the port registers and does not see what
    the normal form of the counting registers forgets. *)
Record counting_op (f : Counter -> Counter) : Prop := {
  co_ports : forall l wm rm c, f (with_ports l wm rm c) = with_ports l wm rm (f c);
  co_rw : forall c, rw (f c) = rw c;
  co_core : forall c, 0 <= mode c <= 5 -> core (f (core c)) = core (f c)
}.

Lemma with_ports_id c : with_ports (latch c) (write_msb_next c) (read_msb_next c) c = c.
Proof. by destruct c. Qed.

Lemma core_ports l wm rm c : core (with_ports l wm rm c) = with_ports l wm rm (core c).
Proof. done. Qed.

Lemma ports_ports l wm rm l' wm' rm' c : with_ports l wm rm (with_ports l' wm' rm' c) = with_ports l wm rm c.
Proof. done. Qed.

(** Port registers that a counter in access mode [r] does not tell apart. *)
Definition same_ports (r : RwMode) (l : option Z) (wm rm : bool) (l' : option Z) (wm' rm' : bool) : Prop :=
  latch_left r rm <$> l = latch_left r rm' <$> l' /\ is_dual r && wm = is_dual r && wm' /\
  is_dual r && rm = is_dual r && rm'.

Lemma op_observed f c l wm rm l' wm' rm' : counting_op f -> 0 <= mode c <= 5 ->
  same_ports (rw c) l wm rm l' wm' rm' ->
  observed (with_ports l wm rm (f (observed c))) = observed (with_ports l' wm' rm' (f c)).
Proof.
  intros [Hp Hrw Hc] Hm (El & Ew & Er). unfold observed at 2. unfold ports_left. rewrite Hp, ports_ports.
  unfold observed, ports_left. rewrite !core_ports, !ports_ports, Hc by done.
  cbn [latch write_msb_next read_msb_next rw with_ports update eta_Counter]. rewrite !Hrw.
  change (rw (core c)) with (rw c). by rewrite El, Ew, Er.
Qed.

Lemma observed_same_ports c : same_ports (rw c) (latch (observed c)) (write_msb_next (observed c)) (read_msb_next (observed c))
  (latch c) (write_msb_next c) (read_msb_next c).
Proof. split; [apply latch_idem|]. split; apply dual_idem. Qed.

Lemma op_ports f c : counting_op f -> f c = with_ports (latch c) (write_msb_next c) (read_msb_next c) (f c).
Proof. intros [Hp _ _]. by rewrite <- Hp, with_ports_id. Qed.

Lemma counting_op_observed f c : counting_op f -> 0 <= mode c <= 5 -> observed (f (observed c)) = observed (f c).
Proof.
  intros Hf Hm. rewrite (op_ports f (observed c) Hf), (op_ports f c Hf). apply op_observed; [done..|apply observed_same_ports].
Qed.

Lemma id_op : counting_op (fun c => c).
Proof. split; [done|done|]. intros c _. apply core_idem. Qed.

Lemma status_op x : counting_op (fun c => c <| status_latch := x |>).
Proof.
  split; [done|done|]. intros c _.
  assert (E : forall d, core (d <| status_latch := x |>) = (core d) <| status_latch := x |>) by done.
  by rewrite !E, core_idem.
Qed.

Lemma step_ports l wm rm c : step (with_ports l wm rm c) = (with_ports l wm rm (step c).1, (step c).2).
Proof.
  unfold step, step_counting. destruct c as [m w b v r o g st nc la sl wm' rm']. unfold with_ports. field_simpl.
  destruct st; [done|done| |done]. destruct g; cbn [negb]; [|by destruct (periodic m)].
  change (effective_reload _) with (if r =? 0 then 65536 else r). change (dec _) with (decrement b).
  cases; done.
Qed.

Lemma step_op : counting_op (fun c => (step c).1).
Proof.
  split.
  - intros. by rewrite step_ports.
  - intros c. by destruct (step_frame c) as (v & o & s & nc & -> & _).
  - intros c Hm. by apply step_core.
Qed.

Lemma set_gate_op level : counting_op (fun c => set_gate c level).
Proof.
  split.
  - intros. unfold set_gate. destruct c as [m w b v r o g st nc la sl wm' rm']. unfold with_ports. field_simpl. cases; done.
  - intros c. unfold set_gate. destruct c as [m w b v r o g st nc la sl wm' rm']. field_simpl. cases; done.
  - intros c Hm. destruct (retain_full_count c) eqn:Er; [by rewrite (core_retained c Er)|].
    unfold set_gate. open_counter c Hm; unfold retain_full_count in Er; cbn [state mode out] in Er;
      destruct st; try discriminate Er; destruct o; try discriminate Er; destruct g, level;
      core_simpl; cbn [periodic Z.eqb Pos.eqb orb]; field_simpl; by core_simpl; rewrite ?mask_idem.
Qed.

(* ------------------------------------------------------------------ *)
(** ** What a peek sees *)

Lemma forgotten c : 0 <= mode c <= 5 -> retain_full_count c = false ->
  state c = Counting -> (out c = true /\ (mode c = 0 \/ mode c = 1)) \/ (out c = false /\ (mode c = 4 \/ mode c = 5)).
Proof.
  intros Hm Er Es. unfold retain_full_count in Er. rewrite Es in Er. open_counter c Hm; cbn in Er |- *;
    destruct o; try discriminate Er; auto.
Qed.

Lemma masked_count_core c : masked_count (core c) = masked_count c.
Proof.
  unfold masked_count, core, canonical_count, mask16. cbn [count update eta_Counter]. destruct (retain_full_count c); [done|apply mask_idem].
Qed.

Lemma count_after_core c k : 0 <= mode c <= 5 -> count_after (core c) k = count_after c k.
Proof.
  intros Hm. destruct (retain_full_count c) eqn:Er; [by rewrite (core_retained c Er)|].
  pose proof (forgotten c Hm Er) as Hf. pose proof (masked_count_core c) as Hmc. unfold count_after. rewrite Hmc.
  unfold core, canonical_count. rewrite Er. cbn [bcd state gate mode count out update eta_Counter].
  destruct (bcd c); [done|]. destruct (state c); [done|done| |done]. cbn [settled]. destruct (gate c); [|done]. cbn [negb].
  f_equal. unfold counting_count_after. specialize (Hf eq_refl).
  destruct (k =? 0); [apply mask_idem|]. destruct Hf as [[-> [-> | ->]]|[-> [-> | ->]]]; cbn [negb andb];
    [apply mask_wrap32|apply mask_wrap32|apply mask_idem|apply mask_idem].
Qed.

Lemma out_after_core c k : 0 <= mode c <= 5 -> out_after (core c) k = out_after c k.
Proof.
  intros Hm. destruct (retain_full_count c) eqn:Er; [by rewrite (core_retained c Er)|].
  pose proof (forgotten c Hm Er) as Hf. unfold out_after, core, canonical_count. rewrite Er.
  cbn [bcd state gate mode count out update eta_Counter].
  destruct (bcd c); [done|]. destruct (state c); [done|done| |done]. cbn [settled]. destruct (gate c); [|done]. cbn [negb].
  f_equal. unfold counting_out_after. specialize (Hf eq_refl). destruct (k =? 0); [done|].
  by destruct Hf as [[-> [-> | ->]]|[-> [-> | ->]]].
Qed.

Lemma until_core c : 0 <= mode c <= 5 -> clocks_until_out_rise (core c) = clocks_until_out_rise c.
Proof.
  intros Hm. destruct (retain_full_count c) eqn:Er; [by rewrite (core_retained c Er)|].
  pose proof (forgotten c Hm Er) as Hf. unfold clocks_until_out_rise, core, canonical_count. rewrite Er.
  cbn [bcd state gate mode count out update eta_Counter].
  destruct (bcd c); [done|]. destruct (state c); [done|done| |done]. cbn [settled]. destruct (gate c); [|done]. cbn [negb].
  unfold rise_from. specialize (Hf eq_refl). cbn [mode out update eta_Counter].
  by destruct Hf as [[-> [-> | ->]]|[-> [-> | ->]]].
Qed.

Lemma null_count_after_core c k : null_count_after (core c) k = null_count_after c k.
Proof. unfold null_count_after, core. cbn [state null_count update eta_Counter]. by destruct (state c). Qed.

(** [count_after] where there is one, the count register otherwise. *)
Definition live (c : Counter) (k : Z) : Z := from_option id (masked_count c) (count_after c k).

Lemma live_core c k : 0 <= mode c <= 5 -> live (core c) k = live c k.
Proof. intros Hm. unfold live. by rewrite masked_count_core, count_after_core. Qed.

End PitPayload.
