(* ===== verification/PitObserve.v ===== *)
(** * What the timer payload determines

    The port operations of a counter on its normal form, the invariant that keeps the
    latches at their widths, and the theorem that two reachable timers with the same
    canonical payload (crates/izarravm-machine/src/pit.rs, [CanonicalPit]) cannot be told apart. *)

From S2P Require Import Prelude Clock Canonical Pit PitAdvance PitPeek PitRise PitCanonical.
Import Pit.Counter Pit.Chip PitAdvance.Advance PitPeek.Peek PitRise.Rise PitCanonical.PitPayload.

Module PitObserve.

(* ------------------------------------------------------------------ *)
(** ** The port operations *)

Lemma latch_count_observed c k : 0 <= mode c <= 5 -> observed (latch_count (observed c) k) = observed (latch_count c k).
Proof.
  intros Hm. unfold latch_count. change (latch (observed c)) with (latch_left (rw c) (read_msb_next c) <$> latch c).
  destruct (latch c) as [l|] eqn:El; cbn [fmap option_fmap option_map].
  - by apply (counting_op_observed _ _ id_op).
  - change (from_option id (masked_count (observed c)) (count_after (observed c) k)) with (live (core c) k).
    rewrite live_core by done.
    apply (op_observed _ c (Some (live c k)) (write_msb_next (observed c)) (read_msb_next (observed c)) (Some (live c k))
      (write_msb_next c) (read_msb_next c) id_op Hm). split; [|split; apply dual_idem]. cbn [fmap option_fmap option_map].
    change (read_msb_next (observed c)) with (is_dual (rw c) && read_msb_next c). by destruct (rw c), (read_msb_next c).
Qed.

Lemma latch_status_observed c k : 0 <= mode c <= 5 -> observed (latch_status (observed c) k) = observed (latch_status c k).
Proof.
  intros Hm. unfold latch_status. change (status_latch (observed c)) with (status_latch c).
  destruct (status_latch c); [by apply (counting_op_observed _ _ id_op)|].
  change (out_after (observed c) k) with (out_after (core c) k). change (null_count_after (observed c) k) with (null_count_after (core c) k).
  rewrite out_after_core, null_count_after_core by done. by apply (counting_op_observed _ _ (status_op _)).
Qed.

Lemma observed_inactive m w b v v' r o g nc l s wm rm : Z.land v 65535 = Z.land v' 65535 ->
  observed (mkCounter m w b v r o g Inactive nc l s wm rm) = observed (mkCounter m w b v' r o g Inactive nc l s wm rm).
Proof.
  intros E. unfold observed, ports_left, core, canonical_count, retain_full_count.
  cbn [state count is_counting andb]. by rewrite E.
Qed.

Lemma write_control_eq v k : exists m w b o, forall c, write_control c v k =
  if Z.land (Z.shiftr v 4) 3 =? 0 then latch_count c k
  else mkCounter m w b (count c) (reload c) o (gate c) Inactive true None None false false.
Proof.
  exists (match Z.land (Z.shiftr v 1) 7 with 6 => 2 | 7 => 3 | _ => Z.land (Z.shiftr v 1) 7 end),
    (match Z.land (Z.shiftr v 4) 3 with 1 => Lsb | 2 => Msb | _ => LsbThenMsb end), (has v 1),
    (negb (match Z.land (Z.shiftr v 1) 7 with 6 => 2 | 7 => 3 | _ => Z.land (Z.shiftr v 1) 7 end =? 0)).
  intros []. unfold write_control. destruct (_ =? 0); reflexivity.
Qed.

Lemma write_control_observed c v k : 0 <= mode c <= 5 -> observed (write_control (observed c) v k) = observed (write_control c v k).
Proof.
  intros Hm. destruct (write_control_eq v k) as (m & w & b & o & E). rewrite !E. clear E.
  destruct (_ =? 0); [by apply latch_count_observed|]. apply observed_inactive.
  change (count (observed c)) with (canonical_count c). unfold canonical_count. destruct (retain_full_count c); [done|apply mask_idem].
Qed.

(** A count byte that loads the reload register. *)
Definition loads (f : Z -> Z) (c : Counter) : Counter := arm (c <| reload := f (reload c) |>).

(** The first byte of two. *)
Definition loads_first (f : Z -> Z) (c : Counter) : Counter :=
  let c := c <| reload := f (reload c) |> in
  if mode c =? 0 then c <| out := false |> <| state := Inactive |> else c.

Lemma counting_test s : bool_decide (s = Counting) = is_counting s.
Proof. by destruct s. Qed.

Lemma loads_op f : counting_op (loads f).
Proof.
  split.
  - intros. unfold loads, arm. destruct c as [m w b v r o g st nc la sl wm' rm']. unfold with_ports. field_simpl. cases; done.
  - intros c. unfold loads, arm. destruct c as [m w b v r o g st nc la sl wm' rm']. field_simpl. cases; done.
  - intros c Hm. destruct (retain_full_count c) eqn:Er; [by rewrite (core_retained c Er)|].
    unfold loads, arm. rewrite !counting_test. open_counter c Hm; unfold retain_full_count in Er; cbn [state mode out] in Er;
      destruct st; try discriminate Er; destruct o; try discriminate Er;
      core_simpl; generalize (f r); intros F; cbn [is_counting]; field_simpl; by core_simpl; rewrite ?mask_idem.
Qed.

Lemma loads_first_op f : counting_op (loads_first f).
Proof.
  split.
  - intros. unfold loads_first. destruct c as [m w b v r o g st nc la sl wm' rm']. unfold with_ports. field_simpl. cases; done.
  - intros c. unfold loads_first. destruct c as [m w b v r o g st nc la sl wm' rm']. field_simpl. cases; done.
  - intros c Hm. destruct (retain_full_count c) eqn:Er; [by rewrite (core_retained c Er)|].
    unfold loads_first. open_counter c Hm; unfold retain_full_count in Er; cbn [state mode out] in Er;
      destruct st; try discriminate Er; destruct o; try discriminate Er;
      core_simpl; generalize (f r); intros F; cbn [Z.eqb Pos.eqb]; field_simpl; by core_simpl; rewrite ?mask_idem.
Qed.

Definition low_byte (v r : Z) : Z := Z.lor (Z.land r 65280) v.
Definition high_byte (v r : Z) : Z := Z.lor (Z.land r 255) (wrap 16 (Z.shiftl v 8)).

Lemma write_count_eq c v : write_count c v =
  match rw c with
  | Lsb => loads (low_byte v) c
  | Msb => loads (high_byte v) c
  | LsbThenMsb =>
      if negb (write_msb_next c) then with_ports (latch c) true (read_msb_next c) (loads_first (low_byte v) c)
      else with_ports (latch c) false (read_msb_next c) (loads (high_byte v) c)
  end.
Proof.
  unfold write_count, loads, loads_first, arm. destruct c as [m w b x r o g st nc la sl wm rm]. unfold with_ports. field_simpl.
  destruct w; [done|done|]. destruct wm; field_simpl; cases; done.
Qed.

Lemma write_count_observed c v : 0 <= mode c <= 5 -> observed (write_count (observed c) v) = observed (write_count c v).
Proof.
  intros Hm. rewrite !write_count_eq. change (rw (observed c)) with (rw c). destruct (rw c) eqn:Ew.
  - by apply (counting_op_observed _ _ (loads_op _)).
  - by apply (counting_op_observed _ _ (loads_op _)).
  - pose proof (observed_same_ports c) as (El & Ewm & Er). rewrite Ew in El, Ewm, Er. cbn [is_dual andb] in Ewm, Er. rewrite Ewm.
    destruct (write_msb_next c); cbn [negb]; (apply op_observed; [apply loads_op || apply loads_first_op|done|]); rewrite Ew; by split_and!.
Qed.

(** [read] without a latched status. *)
Lemma read_eq c k : status_latch c = None -> read c k =
  let value := from_option id (live c k) (latch c) in
  match rw c with
  | Lsb => (Z.land value 255, with_ports None (write_msb_next c) (read_msb_next c) c)
  | Msb => (Z.shiftr value 8, with_ports None (write_msb_next c) (read_msb_next c) c)
  | LsbThenMsb =>
      if negb (read_msb_next c) then (Z.land value 255, with_ports (latch c) (write_msb_next c) true c)
      else (Z.shiftr value 8, with_ports None (write_msb_next c) false c)
  end.
Proof. intros E. unfold read. rewrite E. by destruct c. Qed.

Lemma shiftr_mask x : u16 x -> Z.shiftr (Z.land x 65280) 8 = Z.shiftr x 8.
Proof.
  intros Hx. rewrite Z.shiftr_land. change (Z.shiftr 65280 8) with (Z.ones 8). rewrite Z.land_ones by lia.
  apply Z.mod_small. rewrite Z.shiftr_div_pow2 by lia. destruct Hx as [? Hx]. split; [by apply Z.div_pos|].
  apply Z.div_lt_upper_bound; [lia|exact Hx].
Qed.

Lemma read_observed c k : 0 <= mode c <= 5 -> from_option u16 True (latch c) ->
  observed (read (observed c) k).2 = observed (read c k).2 /\ (read (observed c) k).1 = (read c k).1.
Proof.
  intros Hm Hl. destruct (status_latch c) as [st|] eqn:Es.
  { unfold read. change (status_latch (observed c)) with (status_latch c). rewrite Es. split; [|done].
    by apply (counting_op_observed _ _ (status_op _)). }
  rewrite !read_eq by done. cbv zeta. change (rw (observed c)) with (rw c). change (live (observed c) k) with (live (core c) k).
  rewrite live_core by done. pose proof (observed_same_ports c) as (El & Ewm & Er).
  change (latch (observed c)) with (latch_left (rw c) (read_msb_next c) <$> latch c).
  set (x := live c k). clearbody x. destruct (rw c) eqn:Ew; cbn [is_dual andb] in *.
  - split; cbn [fst snd]; [apply (op_observed _ c None _ _ None _ _ id_op Hm); rewrite Ew; by split_and!|].
    destruct (latch c); cbn; [apply mask_idem|done].
  - split; cbn [fst snd]; [apply (op_observed _ c None _ _ None _ _ id_op Hm); rewrite Ew; by split_and!|].
    destruct (latch c); cbn in *; [by apply shiftr_mask|done].
  - rewrite Ewm, Er. destruct (read_msb_next c); cbn [negb fst snd]; split.
    + apply (op_observed _ c None _ _ None _ _ id_op Hm); rewrite Ew; by split_and!.
    + destruct (latch c); cbn in *; [by apply shiftr_mask|done].
    + apply (op_observed _ c (_ <$> latch c) _ _ (latch c) _ _ id_op Hm); rewrite Ew. split_and!; [|done..]. by destruct (latch c).
    + by destruct (latch c).
Qed.

(* ------------------------------------------------------------------ *)
(** ** The widths of the latches *)

Definition latched_inv (c : Counter) : Prop := from_option u16 True (latch c) /\ from_option u8 True (status_latch c).

Lemma mask16_width x : u16 (mask16 x).
Proof. apply land_width_r; [lia|split; lia]. Qed.

Ltac masked := lazymatch goal with |- in_width _ (mask16 _) => apply mask16_width | _ => split; lia end.

Lemma counting_width m v r o k : u16 (counting_count_after m v r o k).
Proof. unfold counting_count_after. cases; masked. Qed.

Lemma live_width c k : u16 (live c k).
Proof.
  unfold live, count_after, masked_count. destruct (bcd c); [cbn; masked|].
  destruct (state c); cases; cbn [from_option id]; first [apply counting_width|masked].
Qed.

Lemma status_width o nc (r : RwMode) m b : 0 <= m <= 5 ->
  u8 (Z.lor (Z.lor (Z.lor (Z.lor (Z.shiftl (b2z o) 7) (Z.shiftl (b2z nc) 6)) (Z.shiftl (rw_bits r) 4)) (Z.shiftl m 1)) (b2z b)).
Proof.
  intros Hm. assert (m = 0 \/ m = 1 \/ m = 2 \/ m = 3 \/ m = 4 \/ m = 5) as [-> |[-> |[-> |[-> |[-> | ->]]]]] by lia;
    destruct o, nc, r, b; vm_compute; split; congruence.
Qed.

Lemma latch_count_latched c k : latched_inv c -> latched_inv (latch_count c k).
Proof.
  intros [Hl Hs]. unfold latch_count. destruct (latch c) eqn:E; [by split; rewrite ?E|]. split; [|done]. apply (live_width c k).
Qed.

Lemma latch_status_latched c k : 0 <= mode c <= 5 -> latched_inv c -> latched_inv (latch_status c k).
Proof.
  intros Hm [Hl Hs]. unfold latch_status. destruct (status_latch c) eqn:E; [by split; rewrite ?E|]. split; [done|]. by apply status_width.
Qed.

Lemma op_latched f c : (forall c, latch (f c) = latch c /\ status_latch (f c) = status_latch c) -> latched_inv c -> latched_inv (f c).
Proof. intros Hf. unfold latched_inv. by destruct (Hf c) as [-> ->]. Qed.

Lemma step_latched c : latched_inv c -> latched_inv (step c).1.
Proof. apply (op_latched (fun c => (step c).1)). intros d. by destruct (step_frame d) as (v & o & s & nc & -> & _). Qed.

Lemma set_gate_latched c level : latched_inv c -> latched_inv (set_gate c level).
Proof. apply (op_latched (fun c => set_gate c level)). intros []. unfold set_gate. field_simpl. cases; done. Qed.

Lemma write_count_latched c v : latched_inv c -> latched_inv (write_count c v).
Proof.
  apply (op_latched (fun c => write_count c v)). intros []. unfold write_count, arm. field_simpl. cases; done.
Qed.

Lemma write_control_latched c v k : latched_inv c -> latched_inv (write_control c v k).
Proof.
  intros Hc. destruct (write_control_eq v k) as (m & w & b & o & ->). destruct (_ =? 0); [by apply latch_count_latched|done].
Qed.

Lemma read_latched c k : latched_inv c -> latched_inv (read c k).2.
Proof.
  intros [Hl Hs]. unfold read. destruct (status_latch c) as [|] eqn:E; [by split|]. cbv zeta.
  destruct (rw c), (read_msb_next c); split; cbn; rewrite ?E; done.
Qed.

(* ------------------------------------------------------------------ *)
(** ** The payload holds the normal form *)

Definition fields_inv (c : Counter) : Prop := counter_inv c /\ latched_inv c.

Lemma b2z_eq a b : b2z a = b2z b -> a = b.
Proof. by destruct a, b. Qed.

Lemma rw_mode_tag_inj a b : rw_mode_tag a = rw_mode_tag b -> a = b.
Proof. by destruct a, b. Qed.

Lemma counter_state_tag_settled a b : counter_state_tag a = counter_state_tag b -> settled a = settled b.
Proof. by destruct a, b. Qed.

Lemma canonical_count_width c : counter_wf c -> 0 <= canonical_count c < 256 ^ 4.
Proof.
  intros [_ Hc _]. unfold canonical_count. destruct (retain_full_count c); [exact Hc|].
  pose proof (mask16_width (count c)) as Hx. unfold mask16, in_width in Hx. lia.
Qed.

Lemma canonical_latch_width c : latched_inv c -> 0 <= (canonical_latch c).2 < 256 ^ 2.
Proof.
  intros [Hl _]. unfold canonical_latch. destruct (latch c) as [x|]; [|cbn; lia]. cbn [from_option id snd] in *.
  change (256 ^ 2) with (2 ^ 16). destruct (rw c), (read_msb_next c); first [exact Hl|apply (land_width_r 16); [lia|split; lia]].
Qed.

(** What the payload says of the latches is what the normal form keeps of them. *)
Lemma observed_latch c d : (canonical_latch c).1 = (canonical_latch d).1 -> (canonical_latch c).2 = (canonical_latch d).2 ->
  latch (observed c) = latch (observed d).
Proof.
  assert (E : forall c, canonical_latch c = from_option (fun v => (true, v)) (false, 0) (latch (observed c))).
  { intros x. change (latch (observed x)) with (latch_left (rw x) (read_msb_next x) <$> latch x).
    unfold canonical_latch. by destruct (latch x). }
  rewrite !E. destruct (latch (observed c)), (latch (observed d)); cbn; congruence.
Qed.

Lemma observed_status c d : (status_value c).1 = (status_value d).1 -> (status_value c).2 = (status_value d).2 ->
  status_latch c = status_latch d.
Proof. unfold status_value. destruct (status_latch c), (status_latch d); cbn; congruence. Qed.

(** Splits the leading field off an equation between two payloads. *)
Ltac field E H := apply app_inj_1 in E as [H E]; [|by rewrite ?le_bytes_length].

Lemma counter_bytes_observed c d : fields_inv c -> fields_inv d -> counter_bytes c = counter_bytes d -> alike c d.
Proof.
  intros [[Hcw _ _ _] Hcl] [[Hdw _ _ _] Hdl] E. unfold counter_bytes in E.
  field E Em. field E Et. field E Eb. field E Ec. field E Er. field E Eo. field E Eg. field E Es. field E En.
  field E Elp. field E El. field E Esp. field E Est. field E Ew.
  apply le_bytes_inj in Ec; [|by apply canonical_count_width..].
  apply le_bytes_inj in Er; [|by destruct Hcw|by destruct Hdw].
  apply le_bytes_inj in El; [|by apply canonical_latch_width..].
  injection Em as Em. injection Et as Et%rw_mode_tag_inj. injection Eb as Eb%b2z_eq. injection Eo as Eo%b2z_eq.
  injection Eg as Eg%b2z_eq. injection Es as Es%counter_state_tag_settled. injection En as En%b2z_eq.
  injection Elp as Elp%b2z_eq. injection Esp as Esp%b2z_eq. injection Est as Est. injection Ew as Ew%b2z_eq. injection E as E%b2z_eq.
  pose proof (observed_latch c d Elp El) as HL. pose proof (observed_status c d Esp Est) as HS.
  unfold dual_byte in *. unfold alike, observed, ports_left, core, with_ports in *.
  cbn [update eta_Counter mode rw bcd count reload out gate state null_count latch status_latch write_msb_next read_msb_next] in *.
  by rewrite Em, Eb, Ec, Er, Eo, Eg, Es, En, HS, Ew, E, HL, Et.
Qed.

(* ------------------------------------------------------------------ *)
(** ** The chip *)

Definition pit_inv (p : Pit) : Prop := length p = 3%nat /\ Forall fields_inv p.

Lemma payload_alike {Alloc : Allocator} p q : pit_inv p -> pit_inv q -> payload p = payload q -> Forall2 alike p q.
Proof.
  intros [Hlp Hp] [Hlq Hq] E. cbn [payload pit_payload] in E.
  assert (Hlen : length p = length q) by lia. clear Hlp Hlq. revert q Hlen Hq E.
  induction Hp as [|c p Hc Hp IH]; intros [|d q] Hlen Hq E; [done|done|done|]. inversion Hq as [|? ? Hd Hq']; subst.
  cbn [fmap list_fmap concat] in E. apply app_inj_1 in E as [E1 E]; [|by rewrite !counter_bytes_length].
  constructor; [by apply counter_bytes_observed|]. apply IH; [by injection Hlen|done|done].
Qed.

(** What the machine does with the timer ([Event] of the previous file), and the peeks. *)
Inductive Use :=
| Do (e : Event)
| NextRise (channel : nat)
| NextIrq
| Level (channel : nat) (clocks : Z)
| IsBcd (port : Z).

Inductive Reply :=
| Claimed (b : bool)
| Byte (v : option Z)
| Silent
| Advanced (edges : Z) (seen : option (list OutTransition))
| At (clock : option Z)
| Out (level : option bool)
| Bcd_ (b : bool).

Definition reply (p : Pit) (u : Use) : Reply :=
  match u with
  | Do (Write port value clocks) => Claimed (write_port_at p port value clocks).1
  | Do (Read port clocks) => Byte (read_port_at p port clocks).1
  | Do (Gate channel level) => Silent
  | Do (Advance clocks watch bulk) =>
      let '(_, edges, seen) := tick_with_observer p clocks watch bulk in Advanced edges seen
  | NextRise channel => At (chip_clocks_until_out_rise p channel)
  | NextIrq => At (clocks_until_channel0_irq p)
  | Level channel clocks => Out (chip_out_after p channel clocks)
  | IsBcd port => Bcd_ (counter_is_bcd p port)
  end.

Definition used (p : Pit) (u : Use) : Pit := match u with Do e => occur p e | _ => p end.

Fixpoint replies (p : Pit) (us : list Use) : list Reply :=
  match us with [] => [] | u :: us => reply p u :: replies (used p u) us end.

Definition use_ok (u : Use) : Prop := match u with Do e => event_ok e | _ => True end.

(** An operation that two counters with the same normal form cannot be told apart by. *)
Lemma alike_op f c d : alike c d -> observed (f (observed c)) = observed (f c) -> observed (f (observed d)) = observed (f d) ->
  alike (f c) (f d).
Proof. unfold alike. intros E Ec Ed. by rewrite <- Ec, <- Ed, E. Qed.

Lemma alike_mode c d : alike c d -> mode c = mode d.
Proof. intros E. change (mode c) with (mode (observed c)). by rewrite E. Qed.

Lemma step_observed_rose c : 0 <= mode c <= 5 -> (step (observed c)).2 = (step c).2.
Proof. intros Hm. unfold observed, ports_left. rewrite step_ports. cbn [snd]. by apply step_core. Qed.

Lemma alike_step c d : fields_inv c -> fields_inv d -> alike c d -> alike (step c).1 (step d).1 /\ (step c).2 = (step d).2.
Proof.
  intros [[[Hc _ _] _ _ _] _] [[[Hd _ _] _ _ _] _] E. split.
  - apply (alike_op (fun c => (step c).1)); [done|by apply (counting_op_observed _ _ step_op)..].
  - by rewrite <- (step_observed_rose c), <- (step_observed_rose d), E.
Qed.

Lemma step_fields c : fields_inv c -> fields_inv (step c).1.
Proof. intros [Hi Hl]. split; [by apply step_inv|by apply step_latched]. Qed.

Lemma alike_out c d : alike c d -> out c = out d.
Proof. intros E. change (out c) with (out (observed c)). by rewrite E. Qed.

Lemma clocked_alike n : forall c d, fields_inv c -> fields_inv d -> alike c d ->
  alike (clocked n c).1 (clocked n d).1 /\ (clocked n c).2 = (clocked n d).2 /\ fields_inv (clocked n c).1.
Proof.
  induction n as [|n IH]; intros c d Hc Hd E; [done|]. cbn [clocked].
  destruct (alike_step c d Hc Hd E) as [E' Er]. pose proof (step_fields c Hc) as Hc'. pose proof (step_fields d Hd) as Hd'.
  destruct (step c) as [c' rc], (step d) as [d' rd]. cbn [fst snd] in *. subst rd.
  specialize (IH c' d' Hc' Hd' E') as (IH1 & IH2 & IH3). destruct (clocked n c'), (clocked n d'). cbn [fst snd] in *.
  by subst.
Qed.

Lemma traced_alike n : forall c d t, fields_inv c -> fields_inv d -> alike c d -> traced n c t = traced n d t.
Proof.
  induction n as [|n IH]; intros c d t Hc Hd E; [done|]. cbn [traced].
  destruct (alike_step c d Hc Hd E) as [E' Er]. pose proof (step_fields c Hc) as Hc'. pose proof (step_fields d Hd) as Hd'.
  rewrite (IH _ _ _ Hc' Hd' E'), (alike_out c d E), (alike_out _ _ E'). done.
Qed.

Lemma find_rise_alike n : forall c d t, fields_inv c -> fields_inv d -> alike c d -> find_rise c n t = find_rise d n t.
Proof.
  induction n as [|n IH]; intros c d t Hc Hd E; [done|]. cbn [find_rise].
  destruct (alike_step c d Hc Hd E) as [E' Er]. pose proof (step_fields c Hc) as Hc'. pose proof (step_fields d Hd) as Hd'.
  destruct (step c) as [c' rc], (step d) as [d' rd]. cbn [fst snd] in *. subst rd. destruct rc; [done|]. by apply IH.
Qed.

(** The relation between the counters of two timers with one payload. *)
Definition twin (c d : Counter) : Prop := fields_inv c /\ fields_inv d /\ alike c d.

Definition twins : Pit -> Pit -> Prop := Forall2 twin.

Lemma twin_op f c d : (forall c, fields_inv c -> fields_inv (f c)) ->
  (forall c, 0 <= mode c <= 5 -> from_option u16 True (latch c) -> observed (f (observed c)) = observed (f c)) -> twin c d -> twin (f c) (f d).
Proof.
  intros Hf Ho (Hc & Hd & E). split_and!; [by apply Hf..|].
  apply alike_op; [done|..]; apply Ho; [apply Hc|apply Hc|apply Hd|apply Hd].
Qed.

Lemma fields_op f : (forall c, counter_inv c -> counter_inv (f c)) -> (forall c, 0 <= mode c <= 5 -> latched_inv c -> latched_inv (f c)) ->
  forall c, fields_inv c -> fields_inv (f c).
Proof. intros H1 H2 c [Hc Hl]. split; [by apply H1|apply H2; [apply Hc|done]]. Qed.

Lemma twin_set_gate c d b : twin c d -> twin (set_gate c b) (set_gate d b).
Proof.
  apply (twin_op (fun c => set_gate c b)).
  - apply fields_op; [intros; by apply set_gate_inv|intros; by apply set_gate_latched].
  - intros. by apply (counting_op_observed _ _ (set_gate_op b)).
Qed.

Lemma twin_write_count c d v : u8 v -> twin c d -> twin (write_count c v) (write_count d v).
Proof.
  intros Hv. apply (twin_op (fun c => write_count c v)).
  - apply fields_op; [intros; by apply write_count_inv|intros; by apply write_count_latched].
  - intros. by apply write_count_observed.
Qed.

Lemma twin_write_control c d v k : twin c d -> twin (write_control c v k) (write_control d v k).
Proof.
  apply (twin_op (fun c => write_control c v k)).
  - apply fields_op; [intros; by apply write_control_inv|intros; by apply write_control_latched].
  - intros. by apply write_control_observed.
Qed.

Lemma twin_latch_count c d k : twin c d -> twin (latch_count c k) (latch_count d k).
Proof.
  apply (twin_op (fun c => latch_count c k)).
  - apply fields_op; [intros; by apply latch_count_inv|intros; by apply latch_count_latched].
  - intros. by apply latch_count_observed.
Qed.

Lemma twin_latch_status c d k : twin c d -> twin (latch_status c k) (latch_status d k).
Proof.
  apply (twin_op (fun c => latch_status c k)).
  - apply fields_op; [intros; by apply latch_status_inv|intros; by apply latch_status_latched].
  - intros. by apply latch_status_observed.
Qed.

Lemma twin_read c d k : twin c d -> twin (read c k).2 (read d k).2 /\ (read c k).1 = (read d k).1.
Proof.
  intros H. split.
  - apply (twin_op (fun c => (read c k).2)); [|intros; by apply read_observed|done].
    apply fields_op; [intros; by apply counter_read_inv|intros; by apply read_latched].
  - destruct H as ([[[Hc _ _] _ _ _] [Hlc _]] & [[[Hd _ _] _ _ _] [Hld _]] & E).
    rewrite <- (proj2 (read_observed c k Hc Hlc)), <- (proj2 (read_observed d k Hd Hld)). by rewrite E.
Qed.

Lemma twins_alter (f : Counter -> Counter) i p q : (forall c d, twin c d -> twin (f c) (f d)) -> twins p q -> twins (alter f i p) (alter f i q).
Proof. intros Hf H. apply Forall2_alter; [done|]. intros. by apply Hf. Qed.

Lemma twins_lookup p q i : twins p q -> option_Forall2 twin (p !! i) (q !! i).
Proof. intros H. by apply Forall2_lookup. Qed.

Lemma twin_default : twin default default.
Proof. split_and!; [..|done]; (split; [by explicit_inv|done]). Qed.

Lemma twins_total p q i : twins p q -> twin (p !!! i) (q !!! i).
Proof.
  intros H. rewrite !list_lookup_total_alt. destruct (twins_lookup p q i H) as [c d Hcd|]; [exact Hcd|exact twin_default].
Qed.

Lemma twins_control p q v k : twins p q -> twins (write_control_word p v k) (write_control_word q v k).
Proof.
  intros H. unfold write_control_word. destruct (_ =? 3).
  - destruct (_ && _); [done|]. apply Forall2_lookup. intros i. rewrite !list_lookup_imap.
    destruct (twins_lookup p q i H) as [c d Hcd|]; constructor. destruct (has v _); [|done].
    destruct (Z.land v 32 =? 0), (Z.land v 16 =? 0); auto using twin_latch_count, twin_latch_status.
  - apply twins_alter; [|done]. intros. by apply twin_write_control.
Qed.

Lemma twins_wf p q : twins p q -> Forall counter_wf p /\ Forall counter_wf q.
Proof. intros H. induction H as [|c d p q (Hc & Hd & _) _ [IH1 IH2]]; split; constructor; try done; [apply Hc|apply Hd]. Qed.

Lemma twins_used p q u : use_ok u -> twins p q -> twins (used p u) (used q u).
Proof.
  intros Hu H. destruct u as [[port v k|port k|i b|n watch bulk]| | | |]; [..|done|done|done|done]; cbn [used occur].
  - unfold write_port_at. destruct (_ && _); [|destruct (_ =? _)]; cbn [snd]; [|by apply twins_control|done].
    apply twins_alter; [|done]. intros. by apply twin_write_count.
  - unfold read_port_at. destruct (_ && _); [|done]. pose proof (twin_read _ _ k (twins_total p q (Z.to_nat (port - 64)) H)) as [Ht _].
    destruct (read (p !!! _) k), (read (q !!! _) k). cbn [snd] in *. by apply Forall2_insert.
  - apply twins_alter; [|done]. intros. by apply twin_set_gate.
  - destruct (twins_wf p q H). rewrite !observed_advance by done. cbn [fst].
    apply Forall2_fmap. eapply Forall2_impl; [exact H|]. intros c d (Hc & Hd & E).
    destruct (clocked_alike (Z.to_nat n) c d Hc Hd E) as (E1 & _ & Hc').
    destruct (clocked_alike (Z.to_nat n) d c Hd Hc (symmetry E)) as (_ & _ & Hd'). by split_and!.
Qed.

Lemma twin_peeks c d k : twin c d ->
  out_after c k = out_after d k /\ clocks_until_out_rise c = clocks_until_out_rise d /\ bcd c = bcd d.
Proof.
  intros ([[[Hc _ _] _ _ _] _] & [[[Hd _ _] _ _ _] _] & E). split_and!.
  - rewrite <- (out_after_core c k Hc), <- (out_after_core d k Hd).
    change (out_after (observed c) k = out_after (observed d) k). by rewrite E.
  - rewrite <- (until_core c Hc), <- (until_core d Hd).
    change (clocks_until_out_rise (observed c) = clocks_until_out_rise (observed d)). by rewrite E.
  - change (bcd (observed c) = bcd (observed d)). by rewrite E.
Qed.

Lemma twins_reply p q u : use_ok u -> twins p q -> reply p u = reply q u.
Proof.
  intros Hu H. destruct u as [[port v k|port k|i b|n watch bulk]|i| |i k|port]; cbn [reply].
  - f_equal. unfold write_port_at. by cases.
  - f_equal. unfold read_port_at. destruct (_ && _); [|done].
    pose proof (twin_read _ _ k (twins_total p q (Z.to_nat (port - 64)) H)) as [_ E].
    destruct (read (p !!! _) k), (read (q !!! _) k). cbn [fst] in *. by subst.
  - done.
  - destruct (twins_wf p q H). rewrite !observed_advance by done. f_equal.
    + destruct H as [|c d p q (Hc & Hd & E) _]; [done|]. by apply (clocked_alike _ c d Hc Hd E).
    + f_equal. destruct watch as [i|]; [|done]. cbn. destruct (twins_lookup p q i H) as [c d (Hc & Hd & E)|]; [|done].
      by apply traced_alike.
  - f_equal. unfold chip_clocks_until_out_rise. destruct (twins_lookup p q i H) as [c d Hcd|]; [|done]. by apply (twin_peeks c d 0).
  - f_equal. unfold clocks_until_channel0_irq. destruct (twins_total p q 0%nat H) as (Hc & Hd & E). by apply find_rise_alike.
  - f_equal. unfold chip_out_after. destruct (twins_lookup p q i H) as [c d Hcd|]; [|done]. by apply (twin_peeks c d k).
  - f_equal. unfold counter_is_bcd. destruct (_ && _); [|done]. apply (twin_peeks _ _ 0 (twins_total p q _ H)).
Qed.

Lemma twins_replies us : forall p q, Forall use_ok us -> twins p q -> replies p us = replies q us.
Proof.
  induction us as [|u us IH]; intros p q Hu H; [done|]. inversion Hu; subst. cbn [replies].
  f_equal; [by apply twins_reply|]. apply IH; [done|by apply twins_used].
Qed.

(** Every timer the machine reaches has its fields in their ranges. *)
Lemma reachable_twins es : Forall event_ok es -> twins (foldl occur power_on es) (foldl occur power_on es).
Proof.
  assert (H0 : twins power_on power_on).
  { pose proof pit_power_on_inv as [_ Hi]. assert (Hl : Forall latched_inv power_on) by (repeat constructor).
    apply Forall2_same_length_lookup. split; [done|]. intros i c d Hc Hd. assert (d = c) as -> by congruence.
    assert (fields_inv c) by (split; by eapply Forall_lookup_1). by split_and!. }
  generalize H0. generalize power_on. induction es as [|e es IH]; intros p Hp He; [done|]. inversion He; subst. cbn [foldl].
  apply IH; [by apply (twins_used p p (Do e))|done].
Qed.

Lemma twins_fields p : twins p p -> Forall fields_inv p.
Proof.
  intros H. apply Forall_lookup_2. intros i c Hc. destruct (twins_total p p i H) as [Hi _].
  by rewrite (list_lookup_total_correct _ _ _ Hc) in Hi.
Qed.

Lemma twins_join p q : twins p p -> twins q q -> Forall2 alike p q -> twins p q.
Proof.
  intros Hp Hq Ha. pose proof (twins_fields p Hp) as Fp. pose proof (twins_fields q Hq) as Fq. clear Hp Hq.
  induction Ha as [|c d p q E Ha IH]; [constructor|]. inversion Fp; inversion Fq; subst. constructor; [by split_and!|by apply IH].
Qed.

Lemma written {Alloc : Allocator} p bs : write_pit_payload p [] = (bs, Ok tt) -> bs = payload p.
Proof. exact (emits_Ok _ _ _ _ _ (write_payload_emits (CanonicalPayload := pit_payload) p)). Qed.

(** C36.  The canonical payload determines the timer. Take any two timers the machine can bring
    about from power-on, by port accesses, gate changes and advances in any order. If the code
    writes the same 60 bytes for both, then every later sequence of port reads and writes, gate
    changes, advances and predictions answers the same for both: the bytes read, the interrupts
    raised, the OUT transitions with their clocks, and the predicted deadlines. *)
Theorem pit_payload_determines {Alloc : Allocator} es es' bs us :
  Forall event_ok es -> Forall event_ok es' -> Forall use_ok us ->
  write_pit_payload (foldl occur power_on es) [] = (bs, Ok tt) ->
  write_pit_payload (foldl occur power_on es') [] = (bs, Ok tt) ->
  length bs = 60%nat /\ replies (foldl occur power_on es) us = replies (foldl occur power_on es') us.
Proof.
  intros He He' Hu E E'. pose proof (reachable_twins es He) as Hp. pose proof (reachable_twins es' He') as Hq.
  pose proof (reachable_inv es He) as [Hlp _]. pose proof (reachable_inv es' He') as [Hlq _].
  set (p := foldl occur power_on es) in *. set (q := foldl occur power_on es') in *. clearbody p q.
  apply written in E, E'. split; [rewrite E; by apply (payload_length (CanonicalPayload := pit_payload))|].
  apply twins_replies; [done|]. apply twins_join; [done|done|].
  apply (payload_alike (Alloc := Alloc)); [by split; [|apply twins_fields]..|congruence].
Qed.

(** A one-shot that has run out, once for a short and once for a long time. *)
Lemma pit_payload_determines_witness :
  let expired n := [Write 67 144 0; Write 66 5 0; Advance (6 + n) None true] in
  let us := [Do (Read 66 0); NextRise 2; Do (Advance 100 (Some 2%nat) false); Do (Read 66 0); Level 2 7] in
  exists bs, write_pit_payload (Alloc := fun _ _ => true) (foldl occur power_on (expired 0)) [] = (bs, Ok tt) /\
  foldl occur power_on (expired 0) <> foldl occur power_on (expired (18 * 65536)) /\
  length bs = 60%nat /\
  replies (foldl occur power_on (expired 0)) us = replies (foldl occur power_on (expired (18 * 65536))) us.
Proof.
  cbv zeta. eexists. split; [vm_compute; reflexivity|]. split; [vm_compute; congruence|].
  apply (pit_payload_determines (Alloc := fun _ _ => true)).
  - repeat constructor; vm_compute; congruence.
  - repeat constructor; vm_compute; congruence.
  - repeat constructor; vm_compute; congruence.
  - vm_compute; reflexivity.
  - vm_compute; reflexivity.
Defined.

End PitObserve.
