(* ===== verification/SectorCache.v ===== *)
(** * The sector cache: an LRU list threaded through an array

    izarravm-machine/src/sector_cache.rs.  Module [Cache]: the slots with their
    [prev] and [next] links, the index from block address to slot, and the operations.
    Module [Lru]: what the cache promises, a list of sectors ordered by last use, and the
    proof that the linked array is that list: no operation indexes out of range, the
    entry that goes is always the one least recently used. *)

From stdpp Require Import gmap.
From S2P Require Import Prelude.

Module Cache.

Definition CAPACITY_SECTORS : Z := 32768.

(** [NIL] is [usize::MAX]; here a link is an [option] and [NIL] is [None]. *)
Notation Link := (option nat) (only parsing).
Definition NIL : Link := None.

Record Entry := mkEntry { e_lba : Z; e_data : list Z; e_prev : Link; e_next : Link }.
#[export] Instance eta_Entry : Eta Entry := fun e => mkEntry (e_lba e) (e_data e) (e_prev e) (e_next e).

Record SectorCache := mkCache {
  index : gmap Z nat; entries : list Entry; head : Link; tail : Link;
  enabled : bool; hits : Z; misses : Z
}.
#[export] Instance eta_SectorCache : Eta SectorCache := fun c =>
  mkCache (index c) (entries c) (head c) (tail c) (enabled c) (hits c) (misses c).

Definition new (enabled : bool) : SectorCache := mkCache ∅ [] NIL NIL enabled 0 0.

(** [self.entries[slot].field = v]: out of range it panics, here [None]. *)
Definition set_entry (f : Entry -> Entry) (slot : nat) (c : SectorCache) : option SectorCache :=
  e ← entries c !! slot; Some (c <| entries := <[slot := f e]> (entries c) |>).

Definition set_prev (v : Link) : nat -> SectorCache -> option SectorCache := set_entry (fun e => e <| e_prev := v |>).
Definition set_next (v : Link) : nat -> SectorCache -> option SectorCache := set_entry (fun e => e <| e_next := v |>).

Definition unlink (c : SectorCache) (slot : nat) : option SectorCache :=
  e ← entries c !! slot;
  let prev := e_prev e in
  let next := e_next e in
  c ← match prev with
      | Some p => set_next next p c
      | None => Some (if decide (head c = Some slot) then c <| head := next |> else c)
      end;
  c ← match next with
      | Some n => set_prev prev n c
      | None => Some (if decide (tail c = Some slot) then c <| tail := prev |> else c)
      end;
  c ← set_prev NIL slot c;
  set_next NIL slot c.

Definition push_front (c : SectorCache) (slot : nat) : option SectorCache :=
  c ← set_prev NIL slot c;
  c ← set_next (head c) slot c;
  c ← match head c with Some h => set_prev (Some slot) h c | None => Some c end;
  let c := c <| head := Some slot |> in
  Some (match tail c with None => c <| tail := Some slot |> | Some _ => c end).

Definition touch (c : SectorCache) (slot : nat) : option SectorCache :=
  if decide (head c = Some slot) then Some c else (c ← unlink c slot; push_front c slot).

Definition get (c : SectorCache) (lba : Z) : option (option (list Z) * SectorCache) :=
  if negb (enabled c) then Some (None, c <| misses := saturate 64 (misses c + 1) |>)
  else
    match index c !! lba with
    | Some slot =>
        c ← touch (c <| hits := saturate 64 (hits c + 1) |>) slot;
        e ← entries c !! slot;
        Some (Some (e_data e), c)
    | None => Some (None, c <| misses := saturate 64 (misses c + 1) |>)
    end.

Definition put (c : SectorCache) (lba : Z) (data : list Z) : option SectorCache :=
  if negb (enabled c) then Some c
  else
    match index c !! lba with
    | Some slot =>
        c ← set_entry (fun e => e <| e_data := data |>) slot c;
        touch c slot
    | None =>
        if zlen (entries c) <? CAPACITY_SECTORS then
          let slot := length (entries c) in
          let c := c <| entries := entries c ++ [mkEntry lba data NIL NIL] |> in
          let c := c <| index := <[lba := slot]> (index c) |> in
          push_front c slot
        else
          slot ← tail c;
          c ← unlink c slot;
          old ← e_lba <$> entries c !! slot;
          let c := c <| index := delete old (index c) |> in
          c ← set_entry (fun e => e <| e_lba := lba |> <| e_data := data |>) slot c;
          let c := c <| index := <[lba := slot]> (index c) |> in
          push_front c slot
    end.

End Cache.

Module Lru.
Import Cache.

(* ------------------------------------------------------------------ *)
(** ** The promise: sectors in order of last use *)

(** Most recently used first. *)
Notation Residents := (list (Z * list Z)) (only parsing).

Definition without (lba : Z) (l : Residents) : Residents := filter (fun p => p.1 <> lba) l.

Definition find_lba (lba : Z) (l : Residents) : option (Z * list Z) := List.find (fun p => p.1 =? lba) l.

Definition lookup (lba : Z) (l : Residents) : option (list Z) * Residents :=
  match find_lba lba l with
  | Some p => (Some p.2, p :: without lba l)
  | None => (None, l)
  end.

Definition store (lba : Z) (data : list Z) (l : Residents) : Residents :=
  (lba, data) :: take (Z.to_nat (CAPACITY_SECTORS - 1)) (without lba l).

(** A use of the cache, on the implementation and on the promise. *)
Inductive Use := Get (lba : Z) | Put (lba : Z) (data : list Z).

Fixpoint run (us : list Use) (c : SectorCache) : option (list (option (list Z)) * SectorCache) :=
  match us with
  | [] => Some ([], c)
  | Get lba :: us =>
      '(r, c) ← get c lba; '(rs, c) ← run us c; Some (r :: rs, c)
  | Put lba data :: us => c ← put c lba data; run us c
  end.

Fixpoint promised (us : list Use) (l : Residents) : list (option (list Z)) * Residents :=
  match us with
  | [] => ([], l)
  | Get lba :: us => let '(r, l) := lookup lba l in let '(rs, l) := promised us l in (r :: rs, l)
  | Put lba data :: us => promised us (store lba data l)
  end.

(* ------------------------------------------------------------------ *)
(** ** Chains of slots *)

Definition payload (e : Entry) : Z * list Z := (e_lba e, e_data e).

(** What the slots hold. *)
Definition held (c : SectorCache) : list (Z * list Z) := payload <$> entries c.

(** Everything but the links. *)
Definition view (c : SectorCache) := (held c, index c, enabled c, hits c, misses c).

(** The slots [order] are chained, the first preceded by [p], the last followed by [n]. *)
Fixpoint linked (es : list Entry) (p : option nat) (order : list nat) (n : option nat) : Prop :=
  match order with
  | [] => True
  | s :: rest =>
      (exists e, es !! s = Some e /\ e_prev e = p /\ e_next e = from_option Some n (list.head rest))
      /\ linked es (Some s) rest n
  end.

Record threaded (c : SectorCache) (order : list nat) : Prop := {
  th_nodup : NoDup order;
  th_linked : linked (entries c) None order None;
  th_head : head c = list.head order;
  th_tail : tail c = last order
}.

(** The cache [c] holds the residents [l], in the slots [order]. *)
Record repr (c : SectorCache) (order : list nat) (l : Residents) : Prop := {
  re_threaded : threaded c order;
  re_slots : order ≡ₚ seq 0 (length (entries c));
  re_payload : Forall2 (fun s p => held c !! s = Some p) order l;
  re_index : forall lba s, index c !! lba = Some s <-> exists d, held c !! s = Some (lba, d);
  re_room : zlen (entries c) <= CAPACITY_SECTORS;
  re_enabled : enabled c = true
}.

Lemma linked_frame es s e p order n : s ∉ order -> linked es p order n -> linked (<[s := e]> es) p order n.
Proof.
  revert p. induction order as [|x rest IH]; intros p Hs; cbn; [done|].
  apply not_elem_of_cons in Hs as [Hne Hs]. intros [(e' & ? & ?) ?].
  split; [exists e'; rewrite list_lookup_insert_ne by done; eauto | auto].
Qed.

Lemma linked_app es p o1 o2 n :
  linked es p (o1 ++ o2) n <->
  linked es p o1 (from_option Some n (list.head o2)) /\ linked es (from_option Some p (last o1)) o2 n.
Proof.
  revert p. induction o1 as [|x rest IH]; intros p; [cbn; tauto|].
  cbn [app linked]. rewrite IH.
  replace (from_option Some n (list.head (rest ++ o2)))
    with (from_option Some (from_option Some n (list.head o2)) (list.head rest)) by (destruct rest; reflexivity).
  replace (last (x :: rest)) with (Some (from_option id x (last rest))) by
    (destruct rest using rev_ind; [done|]; rewrite last_snoc, app_comm_cons, last_snoc; done).
  replace (from_option Some (Some x) (last rest)) with (from_option Some p (Some (from_option id x (last rest))))
    by (destruct (last rest); reflexivity).
  tauto.
Qed.

Lemma linked_head es p p' x rest n e : x ∉ rest -> es !! x = Some e ->
  linked es p (x :: rest) n -> linked (<[x := e <| e_prev := p' |>]> es) p' (x :: rest) n.
Proof.
  intros Hx He [(e' & He' & ? & Hn) Hr]. rewrite He in He'. injection He' as <-.
  split; [|by apply linked_frame]. eexists. rewrite list_lookup_insert_eq by eauto using lookup_lt_Some. done.
Qed.

Lemma linked_last es p o x n n' e : x ∉ o -> es !! x = Some e ->
  linked es p (o ++ [x]) n -> linked (<[x := e <| e_next := n' |>]> es) p (o ++ [x]) n'.
Proof.
  intros Hx He. rewrite !linked_app. cbn. intros [Ho [(e' & He' & Hp & _) _]].
  rewrite He in He'. injection He' as <-. split; [by apply linked_frame|].
  split; [|done]. eexists. rewrite list_lookup_insert_eq by eauto using lookup_lt_Some. done.
Qed.

Lemma set_entry_spec f s c e : entries c !! s = Some e ->
  set_entry f s c = Some (c <| entries := <[s := f e]> (entries c) |>).
Proof. unfold set_entry. by intros ->. Qed.

Lemma view_insert f s c e : entries c !! s = Some e -> payload (f e) = payload e ->
  view (c <| entries := <[s := f e]> (entries c) |>) = view c.
Proof.
  intros He Hf. unfold view, held; cbn. f_equal. f_equal. f_equal. f_equal.
  rewrite list_fmap_insert, Hf. apply list_insert_id. by rewrite list_lookup_fmap, He.
Qed.

(* ------------------------------------------------------------------ *)
(** ** The link operations *)

Lemma some_or_none {A} (o : option A) : from_option Some None o = o.
Proof. by destruct o. Qed.

(** [c'] is [c] with other links. *)
Notation relinked c' c := (view c' = view c).

Lemma set_next_spec v s c e : entries c !! s = Some e ->
  set_next v s c = Some (c <| entries := <[s := e <| e_next := v |>]> (entries c) |>)
  /\ relinked (c <| entries := <[s := e <| e_next := v |>]> (entries c) |>) c.
Proof.
  intros He. split; [exact (set_entry_spec _ _ _ _ He)|].
  by apply (view_insert (fun e => e <| e_next := v |>)).
Qed.

Lemma set_prev_spec v s c e : entries c !! s = Some e ->
  set_prev v s c = Some (c <| entries := <[s := e <| e_prev := v |>]> (entries c) |>)
  /\ relinked (c <| entries := <[s := e <| e_prev := v |>]> (entries c) |>) c.
Proof.
  intros He. split; [exact (set_entry_spec _ _ _ _ He)|].
  by apply (view_insert (fun e => e <| e_prev := v |>)).
Qed.

Lemma unlink_before c o1 s o2 e : NoDup (o1 ++ s :: o2) -> linked (entries c) None (o1 ++ s :: o2) None ->
  head c = list.head (o1 ++ s :: o2) -> entries c !! s = Some e ->
  exists c1, match e_prev e with
    | Some p => set_next (e_next e) p c
    | None => Some (if decide (head c = Some s) then c <| head := e_next e |> else c)
    end = Some c1 /\ linked (entries c1) None o1 (list.head o2) /\ linked (entries c1) (Some s) o2 None
    /\ entries c1 !! s = Some e /\ head c1 = list.head (o1 ++ o2) /\ tail c1 = tail c /\ relinked c1 c.
Proof.
  intros Hnd [H1 [(e' & He' & Hp & Hn) H2]]%linked_app Hh He.
  rewrite He in He'. injection He' as <-. rewrite some_or_none in Hn, Hp.
  apply NoDup_app in Hnd as (Hnd1 & Hdis & [Hs Hnd2]%NoDup_cons).
  rewrite Hp, Hn. destruct o1 as [|x o1 _] using rev_ind; cbn.
  - rewrite Hh. cbn. rewrite decide_True by done. eexists. do 6 (split; [done || by destruct o2|]). done.
  - rewrite last_snoc. cbn. pose proof H1 as [_ [(ex & Hx & _) _]]%linked_app.
    assert (Hxo : x ∉ s :: o2) by (apply Hdis; set_solver).
    apply NoDup_app in Hnd1 as (_ & Hx1 & _).
    destruct (set_next_spec (list.head o2) x c ex Hx) as [-> V]. eexists. split; [done|].
    cbn. repeat split.
    + eapply linked_last; eauto. intros Hin. by apply (Hx1 x Hin), list_elem_of_singleton.
    + apply linked_frame; [set_solver|done].
    + rewrite list_lookup_insert_ne; [done|set_solver].
    + rewrite Hh. by destruct o1.
    + exact V.
Qed.

Lemma unlink_after c c1 o1 s o2 e : NoDup (o1 ++ s :: o2) -> e_next e = list.head o2 -> e_prev e = last o1 ->
  linked (entries c1) None o1 (list.head o2) -> linked (entries c1) (Some s) o2 None ->
  entries c1 !! s = Some e -> tail c1 = last (o1 ++ s :: o2) -> relinked c1 c ->
  exists c2, match e_next e with
    | Some n => set_prev (e_prev e) n c1
    | None => Some (if decide (tail c1 = Some s) then c1 <| tail := e_prev e |> else c1)
    end = Some c2 /\ linked (entries c2) None (o1 ++ o2) None
    /\ entries c2 !! s = Some e /\ head c2 = head c1 /\ tail c2 = last (o1 ++ o2) /\ relinked c2 c.
Proof.
  intros Hnd Hn Hp H1 H2 He Ht Hv. rewrite Hn, Hp. apply NoDup_app in Hnd as (_ & Hdis & [Hs Hnd2]%NoDup_cons).
  destruct o2 as [|y o2]; cbn in *.
  - rewrite Ht, last_snoc, decide_True by done. eexists. rewrite app_nil_r. split; [done|]. done.
  - pose proof H2 as [(ey & Hy & _) _]. destruct (set_prev_spec (last o1) y c1 ey Hy) as [-> V].
    eexists. split; [done|]. cbn. apply NoDup_cons in Hnd2 as [Hy2 _].
    assert (Hyo : y ∉ o1) by (intros Hin; apply (Hdis y Hin); set_solver).
    repeat split.
    + apply linked_app. split; cbn [list.head from_option].
      * apply linked_frame; done.
      * rewrite some_or_none. eapply linked_head; eauto.
    + rewrite list_lookup_insert_ne; [done|set_solver].
    + rewrite Ht, !last_app. by destruct o2.
    + by rewrite <- Hv.
Qed.

Lemma unlink_spec c o1 s o2 : threaded c (o1 ++ s :: o2) ->
  exists c', unlink c s = Some c' /\ threaded c' (o1 ++ o2) /\ relinked c' c.
Proof.
  intros [Hnd Hl Hh Ht]. pose proof Hl as [_ [(e & He & Hp & Hn) _]]%linked_app.
  unfold unlink. rewrite He. cbn [mbind option_bind]. cbv zeta.
  destruct (unlink_before c o1 s o2 e) as (c1 & -> & L1 & L2 & He1 & Hh1 & Ht1 & V1); auto. cbn [mbind option_bind].
  destruct (unlink_after c c1 o1 s o2 e) as (c2 & -> & L & He2 & Hh2 & Ht2 & V2); auto.
  { by rewrite Hn, some_or_none. } { by rewrite Hp, some_or_none. } { by rewrite Ht1. }
  assert (Hs : s ∉ o1 ++ o2).
  { intros Hin. apply NoDup_app in Hnd as (_ & Hd & [? _]%NoDup_cons). set_solver. }
  destruct (set_prev_spec NIL s c2 e He2) as [E3 V3]. rewrite <- Hh2 in Hh1. cbn [mbind option_bind]. rewrite E3.
  cbn [mbind option_bind].
  edestruct (set_next_spec NIL s) as [-> V4];
    [cbn; rewrite list_lookup_insert_eq by eauto using lookup_lt_Some; reflexivity|].
  eexists. split; [reflexivity|]. split; [|by rewrite V4, V3].
  split; cbn; [|by apply linked_frame, linked_frame|done|done].
  apply NoDup_app in Hnd as (? & Hd & [? ?]%NoDup_cons). apply NoDup_app. set_solver.
Qed.

Lemma push_front_spec c s o : threaded c o -> s ∉ o -> (s < length (entries c))%nat ->
  exists c', push_front c s = Some c' /\ threaded c' (s :: o) /\ relinked c' c.
Proof.
  intros [Hnd Hl Hh Ht] Hs [e He]%lookup_lt_is_Some. unfold push_front.
  destruct (set_prev_spec NIL s c e He) as [-> V1]. cbn [mbind option_bind].
  set (c1 := c <| entries := _ |>) in *.
  assert (He1 : entries c1 !! s = Some (e <| e_prev := NIL |>)) by (apply list_lookup_insert_eq; eauto using lookup_lt_Some).
  change (head c1) with (head c).
  destruct (set_next_spec (head c) s c1 _ He1) as [-> V2]. cbn [mbind option_bind].
  set (c2 := c1 <| entries := _ |>) in *.
  assert (He2 : entries c2 !! s = Some (e <| e_prev := NIL |> <| e_next := head c |>)).
  { cbn. apply list_lookup_insert_eq. rewrite length_insert. eauto using lookup_lt_Some. }
  assert (Hl2 : linked (entries c2) None o None) by (by apply linked_frame, linked_frame).
  change (head c2) with (head c). rewrite Hh. destruct o as [|h o]; cbn [list.head].
  - eexists. split; [reflexivity|]. change (tail (c2 <| head := Some s |>)) with (tail c). rewrite Ht. cbn [last].
    split; [|exact (eq_trans V2 V1)]. split; cbn; [apply NoDup_singleton| |done|done].
    split; [|done]. exists (e <| e_prev := NIL |> <| e_next := head c |>).
    split; [exact He2|]. cbn. by rewrite Hh.
  - pose proof Hl2 as [(eh & Hhe & _) _]. apply not_elem_of_cons in Hs as [Hne Hs].
    destruct (set_prev_spec (Some s) h c2 eh Hhe) as [-> V3]. cbn [mbind option_bind].
    eexists. split; [reflexivity|].
    match goal with |- threaded (match tail ?x with _ => _ end) _ /\ _ => change (tail x) with (tail c) end.
    rewrite Ht. destruct (last (h :: o)) eqn:El; [|by apply last_None in El].
    split; [|exact (eq_trans V3 (eq_trans V2 V1))].
    split; cbn; [|split| done|].
    + apply NoDup_cons. split; [|done]. by apply not_elem_of_cons.
    + eexists. rewrite list_lookup_insert_ne by done. split; [exact He2|]. cbn. rewrite Hh. done.
    + apply NoDup_cons in Hnd as [? _]. eapply linked_head; eauto.
    + rewrite Ht, El. done.
Qed.

Lemma touch_spec c o1 s o2 : threaded c (o1 ++ s :: o2) ->
  exists c', touch c s = Some c' /\ threaded c' (s :: o1 ++ o2) /\ relinked c' c.
Proof.
  intros T. unfold touch. case_decide as Hd.
  - exists c. split; [done|]. split; [|done]. destruct o1 as [|x o1]; [done|].
    destruct T as [Hnd _ Hh _]. rewrite Hd in Hh. injection Hh as <-.
    apply NoDup_cons in Hnd as [? _]. set_solver.
  - pose proof (th_nodup _ _ T) as Hnd. pose proof (th_linked _ _ T) as [_ [(e & He & _) _]]%linked_app.
    destruct (unlink_spec _ _ _ _ T) as (c1 & -> & T1 & V1). cbn [mbind option_bind].
    destruct (push_front_spec c1 s (o1 ++ o2) T1) as (c2 & -> & T2 & V2); [| |by eauto using eq_trans].
    + intros Hin. apply NoDup_app in Hnd as (_ & Hx & [? _]%NoDup_cons). set_solver.
    + assert (Hl : length (held c1) = length (held c)) by (by injection V1 as ->).
      unfold held in Hl. rewrite !length_fmap in Hl. rewrite Hl. eauto using lookup_lt_Some.
Qed.

(* ------------------------------------------------------------------ *)
(** ** The residents *)

Lemma held_length c : length (held c) = length (entries c).
Proof. apply length_fmap. Qed.

Lemma Forall2_on {A B} (P Q : A -> B -> Prop) o l : Forall2 P o l ->
  (forall s p, s ∈ o -> P s p -> Q s p) -> Forall2 Q o l.
Proof. induction 1; intros HQ; constructor; [apply HQ; [left|done] | set_solver]. Qed.

Lemma find_without lba d l1 l2 : lba ∉ l1.*1 -> lba ∉ l2.*1 ->
  find_lba lba (l1 ++ (lba, d) :: l2) = Some (lba, d) /\ without lba (l1 ++ (lba, d) :: l2) = l1 ++ l2.
Proof.
  assert (Hw : forall l, lba ∉ l.*1 -> without lba l = l).
  { induction l as [|[k x] l IH]; [done|]. rewrite fmap_cons. intros [Hk Hl]%not_elem_of_cons.
    cbn in Hk. unfold without in *. rewrite filter_cons_True by (cbn; congruence). by rewrite IH. }
  intros H1 H2. split.
  - unfold find_lba. induction l1 as [|[k x] l1 IH]; cbn in *; [by rewrite Z.eqb_refl|].
    apply not_elem_of_cons in H1 as [Hk H1]. by rewrite (proj2 (Z.eqb_neq k lba)), IH by congruence.
  - unfold without in *. rewrite filter_app, filter_cons_False by (cbn; tauto). by rewrite (Hw l1), (Hw l2).
Qed.

Lemma find_absent lba l : lba ∉ l.*1 -> find_lba lba l = None /\ without lba l = l.
Proof.
  induction l as [|[k x] l IH]; [done|]. rewrite fmap_cons. intros [Hk Hl]%not_elem_of_cons.
  cbn in Hk. unfold find_lba, without in *. cbn [List.find fst].
  rewrite (proj2 (Z.eqb_neq k lba)) by congruence. rewrite filter_cons_True by (cbn; congruence). destruct (IH Hl) as [-> ->]. done.
Qed.

Lemma resident_elsewhere c o l lba : Forall2 (fun s p => held c !! s = Some p) o l ->
  (forall s d, held c !! s = Some (lba, d) -> s ∉ o) -> lba ∉ l.*1.
Proof.
  intros HF Hs ([k d] & -> & Hin)%list_elem_of_fmap. apply list_elem_of_lookup in Hin as [i Hi].
  destruct (Forall2_lookup_r _ _ _ _ _ HF Hi) as (s & Hs' & Hh).
  apply (Hs s d Hh). eauto using list_elem_of_lookup_2.
Qed.

Lemma repr_hit c order l lba s : repr c order l -> index c !! lba = Some s ->
  exists o1 o2 l1 l2 d, order = o1 ++ s :: o2 /\ l = l1 ++ (lba, d) :: l2 /\ held c !! s = Some (lba, d)
    /\ Forall2 (fun s p => held c !! s = Some p) o1 l1 /\ Forall2 (fun s p => held c !! s = Some p) o2 l2
    /\ s ∉ o1 ++ o2 /\ lba ∉ l1.*1 /\ lba ∉ l2.*1.
Proof.
  intros [[Hnd _ _ _] Hp HF Hi Hr He] Hx. pose proof (proj1 (Hi lba s) Hx) as [d Hd].
  assert (Hin : s ∈ order).
  { rewrite Hp. apply elem_of_seq. apply lookup_lt_Some in Hd. rewrite held_length in Hd. lia. }
  apply list_elem_of_split in Hin as (o1 & o2 & ->).
  apply Forall2_app_inv_l in HF as (l1 & lr & F1 & Fr & ->).
  apply Forall2_cons_inv_l in Fr as (p & l2 & Hs & F2 & ->). rewrite Hd in Hs. injection Hs as <-.
  exists o1, o2, l1, l2, d. do 5 (split; [done|]).
  assert (Hso : s ∉ o1 ++ o2) by (apply NoDup_app in Hnd as (_ & ? & [? _]%NoDup_cons); set_solver).
  split; [done|].
  split; eapply resident_elsewhere; eauto; intros s' d' Hh; (assert (s' = s) as ->
    by (assert (index c !! lba = Some s') by (apply Hi; eauto); congruence)); set_solver.
Qed.

Lemma repr_miss c order l lba : repr c order l -> index c !! lba = None -> lba ∉ l.*1.
Proof.
  intros [_ _ HF Hi _ _] Hx. eapply resident_elsewhere; [eauto|]. intros s d Hh.
  assert (index c !! lba = Some s) by (apply Hi; eauto). congruence.
Qed.

(** Moving a slot to the front and nothing else. *)
Lemma repr_touch c o1 s o2 p l : repr c (o1 ++ s :: o2) l ->
  held c !! s = Some p -> forall l', Forall2 (fun s p => held c !! s = Some p) (o1 ++ o2) l' ->
  exists c', touch c s = Some c' /\ repr c' (s :: o1 ++ o2) (p :: l') /\ relinked c' c.
Proof.
  intros [T Hp HF Hi Hr He] Hs l' HF'. destruct (touch_spec c o1 s o2 T) as (c' & E & T' & V).
  exists c'. split; [done|]. split; [|done]. unfold view in V. injection V as Vh Vi Ve Vhit Vm.
  assert (Hlen : length (entries c') = length (entries c)) by (rewrite <- !held_length; congruence).
  split; [done| | | | |congruence].
  - rewrite Hlen, <- Hp. apply Permutation_middle.
  - rewrite Vh. by constructor.
  - intros lba s'. rewrite Vi, Vh. apply Hi.
  - unfold zlen in *. by rewrite Hlen.
Qed.

(* ------------------------------------------------------------------ *)
(** ** The operations *)

Lemma repr_same_view c c' order l : entries c' = entries c -> index c' = index c -> head c' = head c ->
  tail c' = tail c -> enabled c' = enabled c -> repr c order l -> repr c' order l.
Proof.
  intros E1 E2 E3 E4 E5 [[] ? ? ? ? ?]. split; [split|..]; unfold held in *; rewrite ?E1, ?E2, ?E3, ?E4, ?E5; auto.
Qed.

Definition counted (hit : bool) (c c' : SectorCache) : Prop :=
  if hit then hits c' = saturate 64 (hits c + 1) /\ misses c' = misses c
  else hits c' = hits c /\ misses c' = saturate 64 (misses c + 1).

Lemma cache_get_spec c order l lba : repr c order l -> exists order' c',
  get c lba = Some ((lookup lba l).1, c') /\ repr c' order' (lookup lba l).2
  /\ counted (bool_decide (is_Some (lookup lba l).1)) c c'.
Proof.
  intros R. unfold get, lookup. rewrite (re_enabled _ _ _ R). cbn [negb].
  destruct (index c !! lba) as [s|] eqn:Ei.
  - destruct (repr_hit _ _ _ _ _ R Ei) as (o1 & o2 & l1 & l2 & d & -> & -> & Hs & F1 & F2 & Hso & N1 & N2).
    destruct (find_without lba d l1 l2 N1 N2) as [-> ->].
    apply (repr_same_view c (c <| hits := saturate 64 (hits c + 1) |>)) in R; [|done..].
    destruct (repr_touch _ _ _ _ _ _ R Hs _ (Forall2_app F1 F2)) as (c' & -> & R' & V). cbn [mbind option_bind].
    unfold view in V. injection V as Vh _ _ V1 V2. change (held c' = held c) in Vh. rewrite <- Vh in Hs.
    apply list_lookup_fmap_Some in Hs as (e & Hp & He). rewrite He. cbn [mbind option_bind fst snd].
    exists (s :: o1 ++ o2), c'. unfold payload in Hp. injection Hp as _ ->.
    rewrite bool_decide_eq_true_2 by eauto. done.
  - destruct (find_absent lba l (repr_miss _ _ _ _ R Ei)) as [-> _].
    exists order. eexists. split; [done|]. split; [by apply (repr_same_view c)|].
    rewrite bool_decide_eq_false_2 by (intros [? [=]]). done.
Qed.

Lemma repr_zlen c order l : repr c order l -> zlen l = zlen (entries c).
Proof.
  intros [_ Hp HF _ _ _]. unfold zlen. rewrite <- (Forall2_length _ _ _ HF), Hp, length_seq. done.
Qed.

Lemma threaded_same_links c c' order : (forall s e, entries c !! s = Some e -> exists e', entries c' !! s = Some e'
    /\ e_prev e' = e_prev e /\ e_next e' = e_next e) ->
  head c' = head c -> tail c' = tail c -> threaded c order -> threaded c' order.
Proof.
  intros He Eh Et [Hnd Hl Hh Ht]. split; [done| |by rewrite Eh|by rewrite Et].
  revert Hl. generalize (@None nat) at 1 3 as p. clear -He. induction order as [|s o IH]; intros p; [done|].
  intros [(e & E & Hp & Hn) Hr]. destruct (He s e E) as (e' & E' & Hp' & Hn').
  split; [exists e'; rewrite Hp', Hn'; done|auto].
Qed.

Lemma put_hit c order l lba data s : repr c order l -> index c !! lba = Some s -> exists order' c',
  put c lba data = Some c' /\ repr c' order' (store lba data l) /\ hits c' = hits c /\ misses c' = misses c.
Proof.
  intros R Ei. unfold put. rewrite (re_enabled _ _ _ R), Ei. cbn [negb].
  pose proof (repr_zlen _ _ _ R) as Hz. pose proof (re_room _ _ _ R) as Hroom.
  destruct (repr_hit _ _ _ _ _ R Ei) as (o1 & o2 & l1 & l2 & d & -> & -> & Hs & F1 & F2 & Hso & N1 & N2).
  assert (Hst : store lba data (l1 ++ (lba, d) :: l2) = (lba, data) :: l1 ++ l2).
  { unfold store. rewrite (proj2 (find_without lba d l1 l2 N1 N2)), take_ge; [done|].
    unfold zlen in *. rewrite length_app in *. cbn in *. unfold CAPACITY_SECTORS in *. lia. }
  rewrite Hst. destruct R as [T Hp HF Hi _ He].
  pose proof Hs as (e & Hpe & Ee)%list_lookup_fmap_Some. rewrite (set_entry_spec _ _ _ _ Ee). cbn [mbind option_bind].
  set (c1 := c <| entries := _ |>).
  assert (Hh1 : held c1 = <[s := (lba, data)]> (held c)).
  { unfold held; cbn. rewrite list_fmap_insert. f_equal. unfold payload; cbn. by injection Hpe as <- _. }
  assert (Hss : held c1 !! s = Some (lba, data)) by (rewrite Hh1; apply list_lookup_insert_eq; eauto using lookup_lt_Some).
  assert (HF1 : forall o k, Forall2 (fun s p => held c !! s = Some p) o k -> s ∉ o ->
    Forall2 (fun s p => held c1 !! s = Some p) o k).
  { intros o k Fo So. eapply Forall2_on; [exact Fo|]. intros s' p Hin Hp'.
    rewrite Hh1, list_lookup_insert_ne; [done|set_solver]. }
  apply HF1 in F1, F2; [|set_solver..].
  assert (Hlen : length (entries c1) = length (entries c)) by apply length_insert.
  assert (R1 : repr c1 (o1 ++ s :: o2) (l1 ++ (lba, data) :: l2)).
  { split; [|by rewrite Hlen| | |unfold zlen in *; by rewrite Hlen|done].
    - apply (threaded_same_links c); [|done..|exact T]. intros s' e' E'. cbn.
      destruct (decide (s' = s)) as [->|].
      + rewrite list_lookup_insert_eq by eauto using lookup_lt_Some. rewrite Ee in E'. injection E' as <-. eauto.
      + rewrite list_lookup_insert_ne by done. eauto.
    - by apply Forall2_app; [|constructor].
    - intros k s'. change (index c1) with (index c). rewrite Hi, Hh1. destruct (decide (s' = s)) as [->|].
      + rewrite list_lookup_insert_eq by eauto using lookup_lt_Some. rewrite Hs.
        split; intros [x [= <- <-]]; eauto.
      + by rewrite list_lookup_insert_ne. }
  destruct (repr_touch _ _ _ _ _ _ R1 Hss _ (Forall2_app F1 F2)) as (c' & -> & R' & V).
  exists (s :: o1 ++ o2), c'. unfold view in V. by injection V.
Qed.

Lemma put_fresh c order l lba data : repr c order l -> index c !! lba = None ->
  zlen (entries c) < CAPACITY_SECTORS -> exists order' c',
  put c lba data = Some c' /\ repr c' order' (store lba data l) /\ hits c' = hits c /\ misses c' = misses c.
Proof.
  intros R Ei Hroom. unfold put. rewrite (re_enabled _ _ _ R), Ei. cbn [negb].
  rewrite (proj2 (Z.ltb_lt _ _) Hroom). pose proof (repr_zlen _ _ _ R) as Hz.
  pose proof (repr_miss _ _ _ _ R Ei) as Hl.
  unfold store. rewrite (proj2 (find_absent lba l Hl)), take_ge
    by (unfold zlen, CAPACITY_SECTORS in *; lia).
  destruct R as [T Hp HF Hi _ He]. set (n := length (entries c)) in *.
  set (c1 := c <| entries := _ |> <| index := _ |>).
  assert (Hn : n ∉ order) by (rewrite Hp, elem_of_seq; lia).
  assert (Hh1 : held c1 = held c ++ [(lba, data)]) by 
    (change (held c1) with (payload <$> (entries c ++ [mkEntry lba data NIL NIL])); by rewrite fmap_app).
  assert (Hold : forall s p, s ∈ order -> held c !! s = Some p -> held c1 !! s = Some p)
    by (intros s p _ E; rewrite Hh1; by apply lookup_app_l_Some).
  assert (T1 : threaded c1 order).
  { apply (threaded_same_links c); [|done..|exact T]. intros s e E. exists e. cbn.
    by rewrite (lookup_app_l_Some _ _ _ _ E). }
  destruct (push_front_spec c1 n order T1 Hn) as (c' & -> & T' & V);
    [unfold c1; cbn; rewrite length_app; cbn; lia|].
  exists (n :: order), c'. unfold view in V. injection V as Vh Vi Ve V1 V2.
  split; [done|]. split; [|done].
  assert (Hlen : length (entries c') = S n) by (rewrite <- held_length, Vh, Hh1, length_app, held_length; cbn; lia).
  split; [done| | | | |congruence].
  - rewrite Hlen, seq_S, Hp. cbn. apply Permutation_cons_append.
  - rewrite Vh. constructor; [|by eapply Forall2_on].
    rewrite Hh1. rewrite lookup_app_r by (rewrite held_length; lia).
    by rewrite held_length, Nat.sub_diag.
  - intros k s. rewrite Vi, Vh, Hh1. unfold c1. cbn. destruct (decide (k = lba)) as [->|Hk].
    + rewrite lookup_insert_eq. split.
      * intros [= <-]. exists data. rewrite lookup_app_r by (rewrite held_length; lia).
        by rewrite held_length, Nat.sub_diag.
      * intros [d [Hd|[Hge Hd]]%lookup_app_Some].
        -- assert (index c !! lba = Some s) by (apply Hi; eauto). congruence.
        -- rewrite held_length in *. apply list_lookup_singleton_Some in Hd as [? _]. f_equal. lia.
    + rewrite lookup_insert_ne by congruence. rewrite Hi. split; intros [d Hd]; exists d.
      * by apply lookup_app_l_Some.
      * apply lookup_app_Some in Hd as [Hd|[_ Hd]]; [done|].
        apply list_lookup_singleton_Some in Hd as [_ [= ]]. congruence.
  - unfold zlen in *. rewrite Hlen. lia.
Qed.

(** The index after the slot of [old] is given to [lba]. *)
Lemma reindex c s old lba d data (ix : gmap Z nat) : index c !! lba = None -> held c !! s = Some (old, d) ->
  (forall k t, index c !! k = Some t <-> exists x, held c !! t = Some (k, x)) ->
  ix = <[lba := s]> (delete old (index c)) ->
  forall k t, ix !! k = Some t <-> exists x, <[s := (lba, data)]> (held c) !! t = Some (k, x).
Proof.
  intros Hmiss Hs Hi -> k t. destruct (decide (t = s)) as [->|Ht].
  - rewrite list_lookup_insert_eq by eauto using lookup_lt_Some. destruct (decide (k = lba)) as [->|Hk].
    + rewrite lookup_insert_eq. split; eauto.
    + rewrite lookup_insert_ne by congruence. split; [|intros [x [= ]]; congruence].
      intros [Hne Hk']%lookup_delete_Some. apply Hi in Hk' as [x Hx]. congruence.
  - rewrite list_lookup_insert_ne, <- Hi by done. destruct (decide (k = lba)) as [->|Hk].
    + rewrite lookup_insert_eq. split; [intros [= ]; congruence|]. intros Hx. congruence.
    + rewrite lookup_insert_ne by congruence. rewrite lookup_delete_Some.
      split; [tauto|]. intros Hx. split; [|done]. intros <-. apply Ht.
      assert (index c !! old = Some s) by (apply Hi; eauto). congruence.
Qed.

Lemma put_evict c order l lba data : repr c order l -> index c !! lba = None ->
  CAPACITY_SECTORS <= zlen (entries c) -> exists order' c',
  put c lba data = Some c' /\ repr c' order' (store lba data l) /\ hits c' = hits c /\ misses c' = misses c.
Proof.
  intros R Ei Hfull. unfold put. rewrite (re_enabled _ _ _ R), Ei. cbn [negb].
  rewrite (proj2 (Z.ltb_ge _ _) Hfull). pose proof (repr_zlen _ _ _ R) as Hz.
  unfold store. rewrite (proj2 (find_absent lba l (repr_miss _ _ _ _ R Ei))).
  destruct R as [T Hp HF Hi Hroom He].
  destruct order as [|s o _] using rev_ind.
  { apply Permutation_length in Hp. rewrite length_seq in Hp. unfold zlen, CAPACITY_SECTORS in *. cbn in Hp. lia. }
  apply Forall2_app_inv_l in HF as (l1 & ls & F1 & Fs & ->).
  apply Forall2_cons_inv_l in Fs as ([old d] & ? & Hs & ->%Forall2_nil_inv_l & ->).
  rewrite take_app_length' by (unfold zlen in *; rewrite length_app in Hz; cbn in Hz; lia).
  rewrite (th_tail _ _ T), last_snoc. cbn [mbind option_bind].
  assert (Hso : s ∉ o) by (pose proof (th_nodup _ _ T) as (_ & Hd & _)%NoDup_app; intros Hin; apply (Hd s Hin); set_solver).
  destruct (unlink_spec _ _ _ _ T) as (c1 & -> & T1 & V). rewrite app_nil_r in T1. cbn [mbind option_bind].
  unfold view in V. injection V as Vh Vi Ve V1 V2.
  assert (Hs1 := Hs). rewrite <- Vh in Hs1. apply list_lookup_fmap_Some in Hs1 as (e & Hpe & Ee).
  unfold payload in Hpe. injection Hpe as -> ->. rewrite Ee. cbn [fmap option_fmap option_map mbind option_bind].
  erewrite set_entry_spec by exact Ee. cbn [mbind option_bind]. set (c2 := _ <| index := _ |>).
  assert (Hh2 : held c2 = <[s := (lba, data)]> (held c)) by
    (rewrite <- Vh; exact (list_fmap_insert payload (entries c1) s (e <| e_lba := lba |> <| e_data := data |>))).
  assert (Hlen : length (entries c2) = length (entries c)) by (rewrite <- !held_length, Hh2; apply length_insert).
  assert (T2 : threaded c2 o).
  { apply (threaded_same_links c1); [|done..|exact T1]. intros s' e' E'. unfold c2. cbn.
    destruct (decide (s' = s)) as [->|].
    - rewrite list_lookup_insert_eq by eauto using lookup_lt_Some. rewrite Ee in E'. injection E' as <-. eauto.
    - rewrite list_lookup_insert_ne by done. eauto. }
  assert (Hss : held c2 !! s = Some (lba, data))
    by (rewrite Hh2; apply list_lookup_insert_eq; eauto using lookup_lt_Some).
  destruct (push_front_spec c2 s o T2 Hso) as (c' & -> & T' & V).
  { rewrite <- held_length. eauto using lookup_lt_Some. }
  exists (s :: o), c'. unfold view in V. injection V as Wh Wi We W1 W2.
  change (hits c2) with (hits c1) in W1. change (misses c2) with (misses c1) in W2.
  change (enabled c2) with (enabled c1) in We. rewrite Ve in We. rewrite V1 in W1. rewrite V2 in W2.
  assert (Hlen' : length (entries c') = length (entries c)) by (rewrite <- Hlen, <- !held_length, Wh; done).
  split; [done|]. split; [|by rewrite W1, W2].
  split; [done| | | | |by rewrite We].
  - rewrite Hlen', <- Hp. apply Permutation_cons_append.
  - rewrite Wh. constructor; [done|]. eapply Forall2_on; [exact F1|]. intros s' p Hin Hp'.
    rewrite Hh2, list_lookup_insert_ne; [done|set_solver].
  - rewrite Wi, Wh, Hh2. apply (reindex c s (e_lba e) lba (e_data e)); auto. unfold c2. cbn. by rewrite Vi.
  - unfold zlen in *. by rewrite Hlen'.
Qed.

Lemma cache_put_spec c order l lba data : repr c order l -> exists order' c',
  put c lba data = Some c' /\ repr c' order' (store lba data l) /\ hits c' = hits c /\ misses c' = misses c.
Proof.
  intros R. destruct (index c !! lba) as [s|] eqn:Ei; [by eapply put_hit|].
  destruct (Z.lt_ge_cases (zlen (entries c)) CAPACITY_SECTORS); [by apply put_fresh with order|by apply put_evict with order].
Qed.

Lemma run_spec us c order l : repr c order l -> exists order' c',
  run us c = Some ((promised us l).1, c') /\ repr c' order' (promised us l).2.
Proof.
  revert c order l. induction us as [|[lba|lba data] us IH]; intros c order l R; [eauto| |]; cbn [run promised].
  - destruct (cache_get_spec c order l lba R) as (o1 & c1 & -> & R1 & _). cbn [mbind option_bind].
    destruct (lookup lba l) as [r l1]. cbn [fst snd] in *.
    destruct (IH c1 o1 l1 R1) as (o2 & c2 & -> & R2). cbn [mbind option_bind].
    destruct (promised us l1) as [rs l2]. eauto.
  - destruct (cache_put_spec c order l lba data R) as (o1 & c1 & -> & R1 & _). cbn [mbind option_bind]. eauto.
Qed.

Lemma new_repr : repr (new true) [] [].
Proof.
  split; [split; done || constructor|done|constructor| |done|done].
  intros k s. split; [done|]. intros [d Hd]. by destruct s.
Qed.

(** C26.  The enabled sector cache is its promise: whatever sequence of lookups and stores is run on a
    fresh cache that is switched on, no link or slot is ever out of range, every lookup answers what a plain list of
    sectors in order of last use answers, and the chain of slots from the head is that list:
    a store moves its sector to the front, and when all 32,768 slots are taken the
    sector that leaves is the one used longest ago. *)
Theorem lru_refines (us : list Use) : exists order c,
  run us (new true) = Some ((promised us []).1, c) /\ repr c order (promised us []).2.
Proof. destruct (run_spec us _ _ _ new_repr) as (o & c & E & R). eauto. Qed.


Example lru_order : (promised [Put 1 [10]; Put 2 [20]; Put 3 [30]; Get 1; Get 9; Put 2 [21]] []).2
  = [(2, [21]); (1, [10]); (3, [30])].
Proof. reflexivity. Qed.

Example lru_links : (head <$> (snd <$> run [Put 1 [10]; Put 2 [20]; Put 3 [30]; Get 1] (new true))) = Some (Some 0%nat).
Proof. vm_compute. reflexivity. Qed.

End Lru.
