(* ===== verification/Ata.v ===== *)
(** * The ATA disk of the primary channel

    izarravm-machine/src/ata.rs: the task file behind ports 1F0h-1F7h and 3F6h, the
    commands, the programmed-I/O sector protocol on the master clock, the DMA requests of
    the bus-master engine and the charge model.  The sectors come from a [SectorStore], the
    interface both arms of [Backing] offer; the flat image is the instance
    [image_store].  Every read passes the sector cache, whose operations can panic in the
    model, so the operations that reach it answer [option]; AtaInv.v shows [None] is
    never reached.  [ContentLaws] states what the theorems need of any store, the
    host-folder volume with its degraded reads among them; [StoreLaws] is a stable store. *)

From S2P Require Import Prelude Clock Timeline SectorCache.
Import Clock.Rate SectorCache.Cache.

Module Disk.

Definition PRIMARY_CMD_BASE : Z := 496.
Definition PRIMARY_CTRL : Z := 1014.
Definition PRIMARY_IRQ : Z := 14.
Definition SECTOR : nat := 512.
Definition HEADS : Z := 16.
Definition SECTORS_PER_TRACK : Z := 63.
Definition COMMAND_LATENCY_TICKS : Z := 0.
Definition PIO_WORD_REFERENCE_CLOCKS : Z := 20.

Definition pio_cable_ticks (words : Z) : Z :=
  saturate 64 (words * (PIO_WORD_REFERENCE_CLOCKS * BUS_CLOCK_MASTER_TICKS)).

Definition DMA_COMMAND_LATENCY_TICKS : Z := MASTER_CLOCK_HZ / 10000.
Definition COMMAND_LATENCY_TICKS_PERIOD : Z := MASTER_CLOCK_HZ / 20000.
Definition SEEK_TRACK_TO_TRACK_TICKS : Z := MASTER_CLOCK_HZ / 1000 * 7 / 2.
Definition SEEK_FULL_STROKE_TICKS : Z := MASTER_CLOCK_HZ / 1000 * 28.
Definition ROTATIONAL_LATENCY_TICKS : Z := MASTER_CLOCK_HZ / 100000 * 555.
Definition DRIVE_BUFFER_BYTES : Z := 128 * 1024.
Definition MEDIA_BYTES_PER_SECOND : Z := 5000000.
Definition ATA_POLL_RUN : Z := 16.
Definition ATA_POLL_FLOOR_TICKS : Z := MASTER_CLOCK_HZ / 50000.

Definition pio_sector_ticks : Z := pio_cable_ticks (Z.of_nat (SECTOR / 2)).

(** [mod status] and [mod error] *)
Definition ERR : Z := 1.
Definition DRQ : Z := 8.
Definition DSC : Z := 16.
Definition DRDY : Z := 64.
Definition BSY : Z := 128.
Definition ABRT : Z := 4.

Definition READY : Z := Z.lor DRDY DSC.
Definition READY_DRQ : Z := Z.lor (Z.lor DRDY DRQ) DSC.

(* ------------------------------------------------------------------ *)
(** ** Where the sectors come from *)

Inductive WriteRoute := Pio | Dma.

(** The two arms of [Backing].  A read says whether its bytes stand in for a failed host
    read ([degraded]); a commit or a flush says whether the host failed. *)
Class SectorStore (B : Type) := {
  store_sectors : B -> Z;
  store_read : B -> Z -> option (list Z * bool);
  store_write : B -> Z -> list Z -> option B;
  store_commit : WriteRoute -> B -> B * bool;
  store_flush : B -> B * bool
}.

(** What every store keeps: its size, whole sectors, a place for every sector in range. *)
Class StoreShape (B : Type) `{SectorStore B} := {
  sectors_bound : forall b, 0 <= store_sectors b < 2 ^ 28;
  read_in_range : forall b lba, 0 <= lba < store_sectors b ->
    exists s d, store_read b lba = Some (s, d) /\ length s = SECTOR;
  write_in_range : forall b lba s, 0 <= lba < store_sectors b -> length s = SECTOR ->
    exists b', store_write b lba s = Some b';
  write_sectors_same : forall b lba s b', 0 <= lba -> length s = SECTOR -> store_write b lba s = Some b' -> store_sectors b' = store_sectors b;
  commit_sectors : forall r b, store_sectors (store_commit r b).1 = store_sectors b;
  flush_sectors : forall b, store_sectors (store_flush b).1 = store_sectors b
}.

(** A store that has a content, of which a degraded read says nothing: the host-folder
    volume may answer zeros for a sector it cannot read at the moment (a host file that is
    away, a spilled guest write that cannot be read back). *)
Class ContentLaws (B : Type) `{SectorStore B} := {
  content_shape :: StoreShape B;
  store_content : B -> Z -> option (list Z);
  content_served : forall b lba, match store_read b lba with
    | None => store_content b lba = None
    | Some (s, false) => store_content b lba = Some s
    | Some (_, true) => is_Some (store_content b lba)
    end;
  content_in_range : forall b lba, 0 <= lba < store_sectors b ->
    exists s, store_content b lba = Some s /\ length s = SECTOR;
  write_content_same : forall b lba s b', 0 <= lba -> length s = SECTOR -> store_write b lba s = Some b' ->
    store_content b' lba = Some s;
  write_content_other : forall b lba k s b', 0 <= lba -> 0 <= k -> length s = SECTOR -> k <> lba ->
    store_write b lba s = Some b' -> store_content b' k = store_content b k;
  commit_content : forall r b k, store_content (store_commit r b).1 k = store_content b k;
  flush_content : forall b k, store_content (store_flush b).1 k = store_content b k
}.

(** A stable store, as the image is: every read is the content, and what is written reads back at
    once. *)
Class StoreLaws (B : Type) `{SectorStore B} := {
  store_shape :: StoreShape B;
  write_read_same : forall b lba s b', 0 <= lba -> length s = SECTOR -> store_write b lba s = Some b' ->
    store_read b' lba = Some (s, false);
  write_read_other : forall b lba k s b', 0 <= lba -> 0 <= k -> length s = SECTOR -> k <> lba ->
    store_write b lba s = Some b' -> store_read b' k = store_read b k;
  commit_read : forall r b k, store_read (store_commit r b).1 k = store_read b k;
  flush_read : forall b k, store_read (store_flush b).1 k = store_read b k
}.

(** The content of a stable store is what it reads. *)
#[export] Instance stable_content {B} `{StoreLaws B} : ContentLaws B.
Proof.
  refine {| store_content := fun b lba => fst <$> store_read b lba |}.
  - intros b lba. destruct (store_read b lba) as [[s []]|]; cbn; eauto.
  - intros b lba Hl. destruct (read_in_range b lba Hl) as (s & d & -> & Hs). by exists s.
  - intros b lba s b' Hl Hs Hw. by rewrite (write_read_same b lba s b' Hl Hs Hw).
  - intros b lba k s b' Hl Hk Hs Hne Hw. by rewrite (write_read_other b lba k s b' Hl Hk Hs Hne Hw).
  - intros r b k. by rewrite (commit_read r b k).
  - intros b k. by rewrite (flush_read b k).
Defined.

(** [Backing::Image] *)
Definition image_sectors (image : list Z) : Z :=
  Z.min (wrap 32 (zlen image / Z.of_nat SECTOR)) (2 ^ 28 - 1).

Definition image_read (image : list Z) (lba : Z) : option (list Z * bool) :=
  let off := lba * Z.of_nat SECTOR in
  (fun s => (s, false)) <$> slice image off (off + Z.of_nat SECTOR).

Definition image_write (image : list Z) (lba : Z) (data : list Z) : option (list Z) :=
  let off := lba * Z.of_nat SECTOR in
  if zlen image <? off + Z.of_nat SECTOR then None else Some (splice image off (take SECTOR data)).

#[export] Instance image_store : SectorStore (list Z) := {
  store_sectors := image_sectors;
  store_read := image_read;
  store_write := image_write;
  store_commit := fun _ image => (image, false);
  store_flush := fun image => (image, false)
}.

(* ------------------------------------------------------------------ *)
(** ** State *)

Inductive Phase := Idle | DataIn | DataOut.
#[export] Instance Phase_eq_dec : EqDecision Phase.
Proof. solve_decision. Defined.

Inductive PendingAction :=
| PrepareIdentify | PrepareRead | PrepareWrite | CommitWrite | CompleteOk | Abort
| Initialize (sectors heads : Z) | SetFeatures (feature mode : Z)
| Diagnostic | CheckPower | FlushCache.
#[export] Instance PendingAction_eq_dec : EqDecision PendingAction.
Proof. solve_decision. Defined.

Record PendingCommand := mkPending { ticks_remaining : Z; action : PendingAction }.
#[export] Instance eta_PendingCommand : Eta PendingCommand := fun p => mkPending (ticks_remaining p) (action p).

Inductive AtaDmaDirection := DeviceToMemory | MemoryToDevice.
#[export] Instance AtaDmaDirection_eq_dec : EqDecision AtaDmaDirection.
Proof. solve_decision. Defined.

Inductive DmaMode := NoDma | Multiword (m : Z) | Ultra (m : Z).

Definition bytes_per_second_of (m : DmaMode) : option Z :=
  match m with
  | NoDma => None
  | Multiword 0 => Some 4200000
  | Multiword 1 => Some 13300000
  | Multiword 2 | Ultra 0 => Some 16700000
  | Ultra 1 => Some 25000000
  | Ultra 2 => Some 33300000
  | Multiword _ | Ultra _ => None
  end.

Record AtaDmaRequest := mkRequest { direction : AtaDmaDirection; lba : Z; sectors : Z; bytes_per_second : Z }.

Definition byte_len (r : AtaDmaRequest) : Z := sectors r * Z.of_nat SECTOR.

Definition dma_transfer_ticks (r : AtaDmaRequest) : Z :=
  let data_ticks := div_ceil (byte_len r * MASTER_CLOCK_HZ) (bytes_per_second r) in
  saturate 64 (DMA_COMMAND_LATENCY_TICKS + Z.min data_ticks U64_MAX).

Record AtaDisk (B : Type) := mkDisk {
  backing : B; cylinders : Z; dirty : bool;
  features : Z; sector_count : Z; lba_low : Z; lba_mid : Z; lba_high : Z; drive_head : Z;
  status : Z; error : Z; logical_sectors : Z; logical_heads : Z;
  interrupts_disabled : bool;
  phase : Phase; buffer : list Z; buffer_pos : nat;
  pio_lba : Z; pio_sectors_remaining : Z;
  pending_command : option PendingCommand; irq_pending : bool;
  dma_request : option AtaDmaRequest; dma_mode : DmaMode;
  last_access_bytes : Z; cache : SectorCache;
  alt_status_run : Z; poll_skip_blocked : bool; poll_run_threshold : Z; poll_floor_ticks : Z;
  head_lba : Z; last_transfer_end_lba : option Z
}.
#[global] Arguments mkDisk {B}.
#[global] Arguments backing {B} _.
#[global] Arguments cylinders {B} _.
#[global] Arguments dirty {B} _.
#[global] Arguments features {B} _.
#[global] Arguments sector_count {B} _.
#[global] Arguments lba_low {B} _.
#[global] Arguments lba_mid {B} _.
#[global] Arguments lba_high {B} _.
#[global] Arguments drive_head {B} _.
#[global] Arguments status {B} _.
#[global] Arguments error {B} _.
#[global] Arguments logical_sectors {B} _.
#[global] Arguments logical_heads {B} _.
#[global] Arguments interrupts_disabled {B} _.
#[global] Arguments phase {B} _.
#[global] Arguments buffer {B} _.
#[global] Arguments buffer_pos {B} _.
#[global] Arguments pio_lba {B} _.
#[global] Arguments pio_sectors_remaining {B} _.
#[global] Arguments pending_command {B} _.
#[global] Arguments irq_pending {B} _.
#[global] Arguments dma_request {B} _.
#[global] Arguments dma_mode {B} _.
#[global] Arguments last_access_bytes {B} _.
#[global] Arguments cache {B} _.
#[global] Arguments alt_status_run {B} _.
#[global] Arguments poll_skip_blocked {B} _.
#[global] Arguments poll_run_threshold {B} _.
#[global] Arguments poll_floor_ticks {B} _.
#[global] Arguments head_lba {B} _.
#[global] Arguments last_transfer_end_lba {B} _.
#[export] Instance eta_AtaDisk B : Eta (AtaDisk B) := fun d =>
  mkDisk (backing d) (cylinders d) (dirty d) (features d) (sector_count d) (lba_low d) (lba_mid d)
    (lba_high d) (drive_head d) (status d) (error d) (logical_sectors d) (logical_heads d)
    (interrupts_disabled d) (phase d) (buffer d) (buffer_pos d) (pio_lba d) (pio_sectors_remaining
    d) (pending_command d) (irq_pending d) (dma_request d) (dma_mode d) (last_access_bytes d) (cache
    d) (alt_status_run d) (poll_skip_blocked d) (poll_run_threshold d) (poll_floor_ticks d)
    (head_lba d) (last_transfer_end_lba d).

Section Operations.
Context {B : Type} `{!SectorStore B}.
Implicit Types d : AtaDisk B.

Definition with_backing (cache_enabled : bool) (b : B) (total_sectors : Z) : AtaDisk B :=
  let per_cyl := HEADS * SECTORS_PER_TRACK in
  mkDisk b (Z.max (total_sectors / per_cyl) 1) false
    0 1 1 0 0 0 READY 0 SECTORS_PER_TRACK HEADS false
    Idle [] 0 0 0 None false None (Ultra 2) 0 (Cache.new cache_enabled)
    0 false ATA_POLL_RUN ATA_POLL_FLOOR_TICKS 0 None.

Definition total_sectors d : Z := store_sectors (backing d).

(* ------------------------------------------------------------------ *)
(** ** Sectors by address *)

(** [None]: a panic.  The inner option is the one the function returns. *)
Definition read_lba d (lba : Z) : option (option (list Z) * AtaDisk B) :=
  '(hit, c) ← get (cache d) lba;
  let d := d <| cache := c |> in
  match hit with
  | Some s => Some (Some s, d)
  | None =>
      match store_read (backing d) lba with
      | None => Some (None, d)
      | Some (s, degraded) =>
          if degraded then Some (Some s, d)
          else c ← put (cache d) lba s; Some (Some s, d <| cache := c |>)
      end
  end.

Definition write_lba d (lba : Z) (data : list Z) : option (bool * AtaDisk B) :=
  if zlen data <? Z.of_nat SECTOR then Some (false, d)
  else
    match store_write (backing d) lba data with
    | None => Some (false, d)
    | Some b =>
        c ← put (cache d) lba (take SECTOR data);
        Some (true, d <| backing := b |> <| cache := c |> <| dirty := true |>)
    end.

Definition chs_to_lba d (cyl head sector : Z) : option Z :=
  if (sector =? 0) || (SECTORS_PER_TRACK <? sector) || (HEADS <=? head) || (cylinders d <=? cyl) then None
  else Some (wrap 32 (wrap 32 (wrap 32 (wrap 32 (cyl * HEADS) + head) * SECTORS_PER_TRACK) + (sector - 1))).

Definition task_file_chs_to_lba d (cyl head sector : Z) : option Z :=
  let heads := logical_heads d in
  let sectors := logical_sectors d in
  if (heads =? 0) || (sectors =? 0) || (heads <=? head) || (sector =? 0) || (sectors <? sector) then None
  else
    lba ← checked 32 (cyl * heads);
    lba ← checked 32 (lba + head);
    lba ← checked 32 (lba * sectors);
    lba ← checked 32 (lba + (sector - 1));
    if lba <? total_sectors d then Some lba else None.

Definition take_irq d : bool * AtaDisk B :=
  (irq_pending d && negb (interrupts_disabled d), d <| irq_pending := false |>).

Definition irq_enabled d : bool := negb (interrupts_disabled d).

Definition take_access_bytes d : Z * AtaDisk B := (last_access_bytes d, d <| last_access_bytes := 0 |>).

Definition owns_port (port : Z) : bool :=
  ((PRIMARY_CMD_BASE <=? port) && (port <=? PRIMARY_CMD_BASE + 7)) || (port =? PRIMARY_CTRL).

Definition ticks_until_completion d : option Z := ticks_remaining <$> pending_command d.

Definition ticks_until_irq d : option Z :=
  p ← pending_command d;
  if decide (action p = PrepareWrite) then None else Some (ticks_remaining p).

(* ------------------------------------------------------------------ *)
(** ** Poll skipping *)

Definition note_alt_status_read d : bool * AtaDisk B :=
  match pending_command d with
  | None => (false, d <| alt_status_run := 0 |>)
  | Some _ =>
      if poll_skip_blocked d then (false, d <| alt_status_run := 0 |>)
      else
        let d := d <| alt_status_run := saturate 32 (alt_status_run d + 1) |> in
        if alt_status_run d <? poll_run_threshold d then (false, d)
        else
          let armed := match ticks_until_completion d with
            | Some ticks => poll_floor_ticks d <=? ticks | None => false end in
          (armed, if armed then d <| alt_status_run := 0 |> else d)
  end.

Definition reset_alt_status_run d : AtaDisk B := d <| alt_status_run := 0 |>.
Definition block_poll_skip d : AtaDisk B := d <| poll_skip_blocked := true |>.
Definition clear_poll_skip_block d : AtaDisk B := d <| poll_skip_blocked := false |>.

(* ------------------------------------------------------------------ *)
(** ** What a transfer costs *)

Record PioChargeBreakdown := mkBreakdown {
  sequential : bool; command_ticks : Z; seek_cost : Z; rotation_ticks : Z; transfer_ticks : Z; charged_sectors : Z
}.

Definition total (b : PioChargeBreakdown) : Z :=
  saturate 64 (saturate 64 (saturate 64 (command_ticks b + seek_cost b) + rotation_ticks b) + transfer_ticks b).

Definition seek_ticks d (to_ : Z) : Z :=
  let total := Z.max (total_sectors d) 1 in
  let distance := Z.min (Z.abs (head_lba d - to_)) total in
  if distance =? 0 then 0
  else
    let linear := wrap 64 (distance * SEEK_FULL_STROKE_TICKS / total) in
    Z.max linear SEEK_TRACK_TO_TRACK_TICKS.

(** [ata] is the armed flag of the timing profile. *)
Definition pio_transfer_breakdown d (lba sectors : Z) (ata : bool) : PioChargeBreakdown :=
  if sectors =? 0 then mkBreakdown false 0 0 0 0 0
  else
    let charged := sectors in
    if negb ata then
      mkBreakdown false COMMAND_LATENCY_TICKS 0 0 (saturate 64 (pio_sector_ticks * charged)) charged
    else
      let sequential := bool_decide (last_transfer_end_lba d = Some lba) in
      let '(seek_ticks, rotation_ticks) :=
        if sequential then (0, 0) else (seek_ticks d lba, ROTATIONAL_LATENCY_TICKS) in
      let bytes := saturate 64 (charged * Z.of_nat SECTOR) in
      let '(cable_bytes, media_bytes) :=
        if sequential then (Z.min bytes DRIVE_BUFFER_BYTES, saturate 64 (bytes - DRIVE_BUFFER_BYTES))
        else (0, bytes) in
      let cable_ticks := pio_cable_ticks (div_ceil cable_bytes 2) in
      let media_ticks := wrap 64 (div_ceil (media_bytes * MASTER_CLOCK_HZ) MEDIA_BYTES_PER_SECOND) in
      mkBreakdown sequential COMMAND_LATENCY_TICKS_PERIOD seek_ticks rotation_ticks
        (saturate 64 (cable_ticks + media_ticks)) charged.

Definition charge_pio_transfer d (lba sectors : Z) (ata : bool) : Z * AtaDisk B :=
  let breakdown := pio_transfer_breakdown d lba sectors ata in
  let d :=
    if ata && (0 <? charged_sectors breakdown) then
      let d := d <| head_lba := saturate 32 (lba + sectors) |> in
      d <| last_transfer_end_lba := Some (head_lba d) |>
    else d in
  (total breakdown, d).

(* ------------------------------------------------------------------ *)
(** ** Completion *)

Definition lba_mode d : bool := has (drive_head d) 64.
Definition master_selected d : bool := negb (has (drive_head d) 16).

Definition raise_irq d : AtaDisk B := d <| irq_pending := true |>.

Definition complete_ok d : AtaDisk B :=
  let d := d <| phase := Idle |> <| dma_request := None |> <| pending_command := None |> in
  raise_irq (d <| status := READY |> <| error := 0 |>).

Definition abort d : AtaDisk B :=
  let d := d <| phase := Idle |> <| dma_request := None |> <| pending_command := None |> in
  let d := d <| buffer := [] |> <| buffer_pos := 0%nat |> <| pio_sectors_remaining := 0 |> in
  raise_irq (d <| status := Z.lor DRDY ERR |> <| error := ABRT |>).

Definition schedule_at d (action : PendingAction) (ticks prefix_ticks : Z) : AtaDisk B :=
  let d := d <| poll_skip_blocked := false |> <| phase := Idle |> <| status := BSY |> <| error := 0 |>
    <| irq_pending := false |> in
  d <| pending_command := Some (mkPending (saturate 64 (prefix_ticks + Z.max ticks 1)) action) |>.

Definition set_task_file_address d (lba : Z) : AtaDisk B :=
  if lba_mode d then
    d <| lba_low := wrap 8 lba |> <| lba_mid := wrap 8 (Z.shiftr lba 8) |>
      <| lba_high := wrap 8 (Z.shiftr lba 16) |>
      <| drive_head := Z.lor (Z.land (drive_head d) 240) (Z.land (wrap 8 (Z.shiftr lba 24)) 15) |>
  else
    let cylinder_size := HEADS * SECTORS_PER_TRACK in
    let cylinder := lba / cylinder_size in
    let in_cylinder := lba mod cylinder_size in
    let head := in_cylinder / SECTORS_PER_TRACK in
    let sector := in_cylinder mod SECTORS_PER_TRACK + 1 in
    d <| lba_low := wrap 8 sector |> <| lba_mid := wrap 8 cylinder |>
      <| lba_high := wrap 8 (Z.shiftr cylinder 8) |>
      <| drive_head := Z.lor (Z.land (drive_head d) 240) (wrap 8 head) |>.

Definition advance_pio_task_file d : AtaDisk B :=
  let d := d <| sector_count := wrap 8 (sector_count d - 1) |> in
  let d := d <| pio_lba := saturate 32 (pio_lba d + 1) |> in
  set_task_file_address d (pio_lba d).

Definition advance_dma_task_file d (request : AtaDmaRequest) : AtaDisk B :=
  let d := d <| sector_count := wrap 8 (sector_count d - wrap 8 (sectors request)) |> in
  set_task_file_address d (saturate 32 (lba request + sectors request)).

End Operations.

(* ------------------------------------------------------------------ *)
(** ** IDENTIFY DEVICE *)

(** The words [first..first + n] of [words] from the ASCII [src], high byte first, padded
    with spaces. *)
Definition put_string (words : list Z) (first n : nat) (src : list Z) : list Z :=
  let byte_at i := from_option id 32 (src !! i) in
  foldl (fun ws i => <[(first + i)%nat := Z.lor (Z.shiftl (byte_at (i * 2)%nat) 8) (byte_at (i * 2 + 1)%nat)]> ws)
    words (seq 0 n).

(** "IZARRA-HD-0001", "1.0 " and "Izarra Hard Disk" *)
Definition SERIAL : list Z := [73; 90; 65; 82; 82; 65; 45; 72; 68; 45; 48; 48; 48; 49].
Definition FIRMWARE : list Z := [49; 46; 48; 32].
Definition MODEL : list Z := [73; 122; 97; 114; 114; 97; 32; 72; 97; 114; 100; 32; 68; 105; 115; 107].

Definition identify_words (cylinders heads sectors total_lba : Z) (dma_mode : DmaMode) : list Z :=
  let words := replicate 256 0 in
  let words := <[0%nat := 64]> words in
  let words := <[1%nat := Z.min cylinders 65535]> words in
  let words := <[3%nat := wrap 16 heads]> words in
  let words := <[6%nat := wrap 16 sectors]> words in
  let words := <[49%nat := 768]> words in
  let words := <[53%nat := 5]> words in
  let words := <[54%nat := Z.min cylinders 65535]> words in
  let words := <[55%nat := wrap 16 heads]> words in
  let words := <[56%nat := wrap 16 sectors]> words in
  let current_capacity := saturate 32 (saturate 32 (cylinders * heads) * sectors) in
  let words := <[57%nat := Z.land current_capacity 65535]> words in
  let words := <[58%nat := wrap 16 (Z.shiftr current_capacity 16)]> words in
  let words := <[60%nat := Z.land total_lba 65535]> words in
  let words := <[61%nat := wrap 16 (Z.shiftr total_lba 16)]> words in
  let words := <[63%nat := 7]> words in
  let words := <[80%nat := 16]> words in
  let words := <[88%nat := 7]> words in
  let words := match dma_mode with
    | Multiword mode => alter (fun w => Z.lor w (wrap 16 (Z.shiftl 1 (8 + mode)))) 63%nat words
    | Ultra mode => alter (fun w => Z.lor w (wrap 16 (Z.shiftl 1 (8 + mode)))) 88%nat words
    | NoDma => words
    end in
  let words := put_string words 10 10 SERIAL in
  let words := put_string words 23 4 FIRMWARE in
  put_string words 27 20 MODEL.

Definition identify_block (cylinders heads sectors total_lba : Z) (dma_mode : DmaMode) : list Z :=
  mbind (le_bytes 2) (identify_words cylinders heads sectors total_lba dma_mode).

Section Commands.
Context {B : Type} `{!SectorStore B}.
Implicit Types d : AtaDisk B.

(* ------------------------------------------------------------------ *)
(** ** The stages of a command *)

Definition prepare_identify d : AtaDisk B :=
  let d := d <| buffer := identify_block (cylinders d) HEADS SECTORS_PER_TRACK (total_sectors d) (dma_mode d) |>
    <| buffer_pos := 0%nat |> <| phase := DataIn |> <| status := READY_DRQ |> <| error := 0 |> in
  raise_irq d.

Definition prepare_read_sector d : option (AtaDisk B) :=
  '(sector, d) ← read_lba d (pio_lba d);
  match sector with
  | None => Some (abort d)
  | Some sector =>
      let d := d <| buffer := sector |> <| buffer_pos := 0%nat |> <| phase := DataIn |>
        <| status := READY_DRQ |> <| error := 0 |> in
      Some (raise_irq (d <| last_access_bytes := saturate 64 (last_access_bytes d + Z.of_nat SECTOR) |>))
  end.

Definition prepare_write_sector d (irq : bool) : AtaDisk B :=
  let d := d <| buffer := replicate SECTOR 0 |> <| buffer_pos := 0%nat |> <| phase := DataOut |>
    <| status := READY_DRQ |> <| error := 0 |> in
  if irq then raise_irq d else d.

Definition commit_write_sector d : option (AtaDisk B) :=
  let buffer_ := buffer d in
  let d := d <| buffer := [] |> <| buffer_pos := 0%nat |> in
  '(written, d) ← write_lba d (pio_lba d) buffer_;
  if negb written then Some (abort d)
  else
    let d := d <| last_access_bytes := saturate 64 (last_access_bytes d + Z.of_nat SECTOR) |> in
    let d :=
      if 0 <? pio_sectors_remaining d then
        advance_pio_task_file (d <| pio_sectors_remaining := pio_sectors_remaining d - 1 |>)
      else d in
    if 0 <? pio_sectors_remaining d then Some (prepare_write_sector d true)
    else
      let d := d <| phase := Idle |> <| status := READY |> <| error := 0 |> in
      let '(b, failed) := store_commit Pio (backing d) in
      let d := d <| backing := b |> in
      Some (if failed : bool then abort d else raise_irq d).

Definition apply_set_features d (feature mode : Z) : AtaDisk B :=
  if negb (feature =? 3) then complete_ok d
  else if (mode =? 0) || (mode =? 1) || ((8 <=? mode) && (mode <=? 12)) then complete_ok (d <| dma_mode := NoDma |>)
  else if (32 <=? mode) && (mode <=? 34) then complete_ok (d <| dma_mode := Multiword (mode - 32) |>)
  else if (64 <=? mode) && (mode <=? 66) then complete_ok (d <| dma_mode := Ultra (mode - 64) |>)
  else abort d.

Definition finish_pending d (action : PendingAction) : option (AtaDisk B) :=
  let d := reset_alt_status_run d in
  match action with
  | PrepareIdentify => Some (prepare_identify d)
  | PrepareRead => prepare_read_sector d
  | PrepareWrite => Some (prepare_write_sector d false)
  | CommitWrite => commit_write_sector d
  | CompleteOk => Some (complete_ok d)
  | Abort => Some (abort d)
  | Initialize sectors heads =>
      Some (complete_ok (d <| logical_sectors := sectors |> <| logical_heads := heads |>))
  | SetFeatures feature mode => Some (apply_set_features d feature mode)
  | Diagnostic => Some (raise_irq (d <| error := 1 |> <| status := READY |>))
  | CheckPower => Some (complete_ok (d <| sector_count := 255 |>))
  | FlushCache =>
      let '(b, failed) := store_flush (backing d) in
      let d := d <| backing := b |> in
      Some (if failed : bool then abort d else complete_ok d)
  end.

Definition advance_master_ticks d (ticks : Z) : option (AtaDisk B) :=
  match pending_command d with
  | None => Some d
  | Some pending =>
      if ticks <? ticks_remaining pending then
        Some (d <| pending_command := Some (pending <| ticks_remaining := ticks_remaining pending - ticks |>) |>)
      else finish_pending (d <| pending_command := None |>) (action pending)
  end.

(* ------------------------------------------------------------------ *)
(** ** The command register *)

Definition command_lba d : option (Z * Z) :=
  let count := if sector_count d =? 0 then 256 else sector_count d in
  if lba_mode d then
    Some (Z.lor (Z.lor (Z.lor (lba_low d) (Z.shiftl (lba_mid d) 8)) (Z.shiftl (lba_high d) 16))
      (Z.shiftl (Z.land (drive_head d) 15) 24), count)
  else
    let cyl := Z.lor (lba_mid d) (Z.shiftl (lba_high d) 8) in
    let head := Z.land (drive_head d) 15 in
    lba ← task_file_chs_to_lba d cyl head (lba_low d);
    Some (lba, count).

(** [read_sectors] and [write_sectors] differ in the action they schedule. *)
Definition pio_sectors d (first : PendingAction) (prefix_ticks : Z) : AtaDisk B :=
  match command_lba d with
  | None => schedule_at d Abort COMMAND_LATENCY_TICKS prefix_ticks
  | Some (lba, count) =>
      let end_ := saturate 32 (lba + count) in
      if total_sectors d <? end_ then schedule_at d Abort COMMAND_LATENCY_TICKS prefix_ticks
      else
        let d := d <| pio_lba := lba |> <| pio_sectors_remaining := count |> <| last_access_bytes := 0 |> in
        schedule_at d first COMMAND_LATENCY_TICKS prefix_ticks
  end.

Definition read_sectors d (prefix_ticks : Z) : AtaDisk B := pio_sectors d PrepareRead prefix_ticks.
Definition write_sectors d (prefix_ticks : Z) : AtaDisk B := pio_sectors d PrepareWrite prefix_ticks.

Definition begin_dma d (direction : AtaDmaDirection) : AtaDisk B :=
  match bytes_per_second_of (dma_mode d) with
  | None => abort d
  | Some rate =>
      match command_lba d with
      | None => abort d
      | Some (lba, sectors) =>
          if total_sectors d <? saturate 32 (lba + sectors) then abort d
          else
            let d := d <| phase := Idle |> <| buffer := [] |> <| buffer_pos := 0%nat |> <| error := 0 |>
              <| status := BSY |> <| irq_pending := false |> in
            d <| dma_request := Some (mkRequest direction lba sectors rate) |>
      end
  end.

Definition within (lo hi v : Z) : bool := (lo <=? v) && (v <=? hi).

Definition write_command d (command prefix_ticks : Z) : AtaDisk B :=
  let schedule action := schedule_at d action COMMAND_LATENCY_TICKS prefix_ticks in
  if bool_decide (is_Some (dma_request d)) || bool_decide (is_Some (pending_command d))
    || negb (bool_decide (phase d = Idle)) then d
  else if negb (master_selected d) then schedule Abort
  else if command =? 236 then schedule PrepareIdentify
  else if within 32 33 command then read_sectors d prefix_ticks
  else if within 48 49 command then write_sectors d prefix_ticks
  else if within 200 201 command then begin_dma d DeviceToMemory
  else if within 202 203 command then begin_dma d MemoryToDevice
  else if command =? 196 then read_sectors d prefix_ticks
  else if command =? 197 then write_sectors d prefix_ticks
  else if within 16 31 command then schedule CompleteOk
  else if within 112 127 command then schedule CompleteOk
  else if command =? 145 then schedule (Initialize (sector_count d) (Z.land (drive_head d) 15 + 1))
  else if command =? 239 then schedule (SetFeatures (features d) (sector_count d))
  else if command =? 144 then schedule Diagnostic
  else if command =? 229 then schedule CheckPower
  else if within 226 227 command then schedule CompleteOk
  else if command =? 231 then schedule FlushCache
  else schedule Abort.

(* ------------------------------------------------------------------ *)
(** ** The ports *)

Definition read_data_byte d (prefix_ticks : Z) : Z * AtaDisk B :=
  if negb (bool_decide (phase d = DataIn)) then (0, d)
  else
    let byte := from_option id 0 (buffer d !! buffer_pos d) in
    let d := d <| buffer_pos := S (buffer_pos d) |> in
    if (length (buffer d) <=? buffer_pos d)%nat then
      let d := d <| phase := Idle |> <| buffer := [] |> <| buffer_pos := 0%nat |> in
      let d :=
        if 0 <? pio_sectors_remaining d then
          advance_pio_task_file (d <| pio_sectors_remaining := pio_sectors_remaining d - 1 |>)
        else d in
      if 0 <? pio_sectors_remaining d then
        (byte, schedule_at d PrepareRead COMMAND_LATENCY_TICKS prefix_ticks)
      else (byte, d <| status := READY |>)
    else (byte, d).

Definition write_data_byte d (value prefix_ticks : Z) : AtaDisk B :=
  if negb (bool_decide (phase d = DataOut)) then d
  else
    let d :=
      if (buffer_pos d <? length (buffer d))%nat then
        d <| buffer := <[buffer_pos d := value]> (buffer d) |> <| buffer_pos := S (buffer_pos d) |>
      else d in
    if (length (buffer d) <=? buffer_pos d)%nat then
      schedule_at (d <| phase := Idle |>) CommitWrite COMMAND_LATENCY_TICKS prefix_ticks
    else d.

Definition read_port_at d (port prefix_ticks : Z) : option Z * AtaDisk B :=
  if port =? PRIMARY_CTRL then (Some (status d), d)
  else if negb (within PRIMARY_CMD_BASE (PRIMARY_CMD_BASE + 7) port) then (None, d)
  else
    let d := reset_alt_status_run d in
    match port - PRIMARY_CMD_BASE with
    | 0 => let '(v, d) := read_data_byte d prefix_ticks in (Some v, d)
    | 1 => (Some (error d), d)
    | 2 => (Some (sector_count d), d)
    | 3 => (Some (lba_low d), d)
    | 4 => (Some (lba_mid d), d)
    | 5 => (Some (lba_high d), d)
    | 6 => (Some (drive_head d), d)
    | 7 => (Some (status d), d <| irq_pending := false |>)
    | _ => (Some 255, d)
    end.

Definition soft_reset d : AtaDisk B :=
  let d := block_poll_skip (reset_alt_status_run d) in
  let d := d <| phase := Idle |> <| dma_request := None |> <| pending_command := None |> <| buffer := [] |>
    <| buffer_pos := 0%nat |> <| pio_sectors_remaining := 0 |> <| status := READY |> in
  d <| error := 1 |> <| sector_count := 1 |> <| lba_low := 1 |> <| lba_mid := 0 |> <| lba_high := 0 |>
    <| irq_pending := false |>.

Definition write_port_at d (port value prefix_ticks : Z) : bool * AtaDisk B :=
  let d := block_poll_skip (reset_alt_status_run d) in
  if port =? PRIMARY_CTRL then
    let d := d <| interrupts_disabled := has value 2 |> in
    (true, if has value 4 then soft_reset d else d)
  else if negb (within PRIMARY_CMD_BASE (PRIMARY_CMD_BASE + 7) port) then (false, d)
  else
    let reg := port - PRIMARY_CMD_BASE in
    if has (status d) BSY && negb (reg =? 0) then (true, d)
    else
      (true, match reg with
        | 0 => write_data_byte d value prefix_ticks
        | 1 => d <| features := value |>
        | 2 => d <| sector_count := value |>
        | 3 => d <| lba_low := value |>
        | 4 => d <| lba_mid := value |>
        | 5 => d <| lba_high := value |>
        | 6 => d <| drive_head := value |>
        | 7 => write_command d value prefix_ticks
        | _ => d
        end).

(* ------------------------------------------------------------------ *)
(** ** The bus-master engine's side *)

(** [None] inside: the payload could not be completed. *)
Fixpoint read_sectors_from d (lba : Z) (n : nat) : option (option (list Z) * AtaDisk B) :=
  match n with
  | O => Some (Some [], d)
  | S n =>
      '(bytes, d) ← read_lba d lba;
      match bytes with
      | None => Some (None, d)
      | Some bytes =>
          '(rest, d) ← read_sectors_from d (lba + 1) n;
          Some (option_map (app bytes) rest, d)
      end
  end.

Definition read_dma_payload d : option (option (list Z) * AtaDisk B) :=
  match dma_request d with
  | Some r =>
      if decide (direction r = DeviceToMemory) then read_sectors_from d (lba r) (Z.to_nat (sectors r))
      else Some (None, d)
  | None => Some (None, d)
  end.

Definition complete_dma_read d (bytes : Z) : AtaDisk B :=
  match dma_request d with
  | None => d
  | Some r =>
      if negb (bool_decide (direction r = DeviceToMemory)) || negb (bytes =? byte_len r) then abort d
      else complete_ok (advance_dma_task_file (d <| last_access_bytes := bytes |>) r)
  end.

(** The whole sectors of [data] in turn; [false] when one is refused. *)
Fixpoint write_sectors_from d (lba : Z) (n : nat) (data : list Z) : option (bool * AtaDisk B) :=
  match n with
  | O => Some (true, d)
  | S n =>
      '(written, d) ← write_lba d lba (take SECTOR data);
      if negb written then Some (false, d)
      else write_sectors_from d (wrap 32 (lba + 1)) n (drop SECTOR data)
  end.

Definition complete_dma_write d (data : list Z) : option (bool * AtaDisk B) :=
  match dma_request d with
  | None => Some (false, d)
  | Some r =>
      if negb (bool_decide (direction r = MemoryToDevice)) || negb (zlen data =? byte_len r) then Some (false, abort d)
      else
        '(written, d) ← write_sectors_from d (lba r) (length data / SECTOR) data;
        if negb written then Some (false, abort d)
        else
          let '(b, failed) := store_commit Dma (backing d) in
          let d := d <| backing := b |> in
          if failed : bool then Some (false, abort d)
          else Some (true, complete_ok (advance_dma_task_file (d <| last_access_bytes := zlen data |>) r))
  end.

Definition abort_dma d : AtaDisk B := if dma_request d is Some _ then abort d else d.

End Commands.

End Disk.
