(* ===== verification/AtaInv.v ===== *)
(** * The ATA disk: its protocol invariant and the unobservable cache

    Module [Image]: the flat image keeps what is written to it.  Module [Protocol]: every
    event the machine sends the disk, the invariant of the states they reach, and that no
    operation panics.  Both hold over any store with a content, where a read may be
    degraded at any time; section [Stable] is the special case of a stable store.  Module [Transparent]: the
    disk with the sector cache answers as the disk without it whenever the store reads its
    content.  Module [Reachable]: the claims, with a store that goes away and comes back. *)

From stdpp Require Import relations.
From S2P Require Import Prelude SectorCache Ata.
Import SectorCache.Cache SectorCache.Lru Disk.

Module Image.

Lemma splice_zlen l off v : 0 <= off -> off + zlen v <= zlen l -> zlen (splice l off v) = zlen l.
Proof. intros ? Hl. unfold splice, zlen in *. rewrite !length_app, length_take, length_drop. lia. Qed.

Lemma splice_slice_same l off v : 0 <= off -> off + zlen v <= zlen l ->
  slice (splice l off v) off (off + zlen v) = Some v.
Proof.
  intros Ho Hl. apply slice_Some. rewrite splice_zlen by done. split; [unfold zlen; lia|]. split; [done|].
  unfold splice, zlen in *. rewrite drop_app_length' by (rewrite length_take; lia).
  rewrite take_app_length' by lia. done.
Qed.

Lemma splice_slice_other l off v a n : 0 <= off -> off + zlen v <= zlen l ->
  0 <= a -> a + n <= off \/ off + zlen v <= a -> 0 <= n ->
  slice (splice l off v) a (a + n) = slice l a (a + n).
Proof.
  intros Ho Hl Ha Hd Hn. unfold slice. rewrite splice_zlen by done.
  destruct (_ && _) eqn:E; [|done]. bool_prop. f_equal.
  replace (a + n - a) with n by lia. unfold splice, zlen in *.
  apply list_eq. intros i. rewrite !lookup_take, !lookup_drop. case_decide; [|done]. destruct Hd as [Hd|Hd].
  - rewrite lookup_app_l by (rewrite length_take; lia). rewrite lookup_take, decide_True by lia. done.
  - rewrite lookup_app_r, lookup_app_r by (rewrite ?length_take; lia). rewrite length_take, lookup_drop.
    f_equal. lia.
Qed.

#[export] Instance image_laws : StoreLaws (list Z).
Proof.
  assert (H512 : Z.of_nat SECTOR = 512) by reflexivity.
  assert (Hin : forall b lba, 0 <= lba < image_sectors b -> lba * 512 + 512 <= zlen b).
  { intros b lba Hl. unfold image_sectors in Hl. rewrite H512 in Hl.
    assert (wrap 32 (zlen b / 512) <= zlen b / 512).
    { apply Z.mod_le; [|lia]. apply Z.div_pos; [apply zlen_nonneg|lia]. }
    pose proof (Z.mul_div_le (zlen b) 512). lia. }
  assert (Hw : forall b lba s b', length s = SECTOR -> 0 <= lba -> image_write b lba s = Some b' ->
    lba * 512 + zlen s <= zlen b /\ zlen s = 512 /\ b' = splice b (lba * 512) s).
  { intros b lba s b' Hs Hl. unfold image_write. rewrite H512. cases; [done|]. intros [= <-]. bool_prop.
    rewrite take_ge by lia. assert (zlen s = 512) by (unfold zlen; lia). repeat split; lia. }
  split; [split|..]; unfold store_sectors, store_read, store_write, store_commit, store_flush, image_store.
  - intros b. unfold image_sectors, wrap. pose proof (Z.mod_pos_bound (zlen b / Z.of_nat SECTOR) (2 ^ 32)). lia.
  - intros b lba Hl. unfold image_read. rewrite H512. pose proof (Hin b lba Hl).
    eexists _, false. erewrite (proj2 (slice_Some _ _ _ _)) by (split; [lia|]; split; [lia|]; reflexivity).
    split; [reflexivity|]. rewrite length_take, length_drop. unfold zlen, SECTOR in *. lia.
  - intros b lba s Hl Hs. unfold image_write. rewrite H512. pose proof (Hin b lba Hl). cases; [bool_prop; lia|eauto].
  - intros b lba s b' Hl Hs (Hr & Hz & ->)%Hw; [|done..]. unfold image_sectors. rewrite splice_zlen by lia. done.
  - done.
  - done.
  - intros b lba s b' Hl Hs (Hr & Hz & ->)%Hw; [|done..]. unfold image_read. rewrite H512.
    rewrite <- Hz, splice_slice_same by lia. done.
  - intros b lba k s b' Hl Hk Hs Hne (Hr & Hz & ->)%Hw; [|done..]. unfold image_read. rewrite H512.
    rewrite splice_slice_other by lia. done.
  - done.
  - done.
Qed.

End Image.

Module Protocol.

(* ------------------------------------------------------------------ *)
(** ** What happens to the disk *)

(** [bus.rs] and [run.rs] call the ports, the poll bookkeeping and the clock; the BIOS
    service reads and writes sectors directly and charges them; the bus-master engine moves
    the DMA payload. *)
Inductive Event :=
| ReadPort (port prefix_ticks : Z)
| WritePort (port value prefix_ticks : Z)
| Advance (ticks : Z)
| TakeIrq
| NoteAltStatus
| ResetRun
| BlockSkip
| ClearSkip
| TakeAccess
| ServiceRead (lba : Z)
| ServiceWrite (lba : Z) (data : list Z)
| Charge (lba sectors : Z) (ata : bool)
| DmaPayload
| DmaReadDone (bytes : Z)
| DmaWriteDone (data : list Z)
| DmaAbort.

(** What the caller sees. *)
Inductive Seen := Byte (v : option Z) | Flag (b : bool) | Number (n : Z) | Data (s : option (list Z)) | Nothing.

Definition valid (e : Event) : Prop :=
  match e with
  | ReadPort port prefix => u16 port /\ u64 prefix
  | WritePort port value prefix => u16 port /\ u8 value /\ u64 prefix
  | Advance ticks => u64 ticks
  | ServiceRead lba => u32 lba
  | ServiceWrite lba data => u32 lba /\ length data = SECTOR
  | Charge lba sectors _ => u32 lba /\ u32 sectors
  | DmaReadDone bytes => u64 bytes
  | _ => True
  end.

Section Events.
Context {B : Type} `{!SectorStore B}.
Implicit Types d : AtaDisk B.

Definition occur (e : Event) d : option (Seen * AtaDisk B) :=
  match e with
  | ReadPort port prefix => let '(v, d) := read_port_at d port prefix in Some (Byte v, d)
  | WritePort port value prefix => let '(b, d) := write_port_at d port value prefix in Some (Flag b, d)
  | Advance ticks => (fun d => (Nothing, d)) <$> advance_master_ticks d ticks
  | TakeIrq => let '(b, d) := take_irq d in Some (Flag b, d)
  | NoteAltStatus => let '(b, d) := note_alt_status_read d in Some (Flag b, d)
  | ResetRun => Some (Nothing, reset_alt_status_run d)
  | BlockSkip => Some (Nothing, block_poll_skip d)
  | ClearSkip => Some (Nothing, clear_poll_skip_block d)
  | TakeAccess => let '(n, d) := take_access_bytes d in Some (Number n, d)
  | ServiceRead lba => '(s, d) ← read_lba d lba; Some (Data s, d)
  | ServiceWrite lba data => '(b, d) ← write_lba d lba data; Some (Flag b, d)
  | Charge lba sectors ata => let '(n, d) := charge_pio_transfer d lba sectors ata in Some (Number n, d)
  | DmaPayload => '(s, d) ← read_dma_payload d; Some (Data s, d)
  | DmaReadDone bytes => Some (Nothing, complete_dma_read d bytes)
  | DmaWriteDone data => '(b, d) ← complete_dma_write d data; Some (Flag b, d)
  | DmaAbort => Some (Nothing, abort_dma d)
  end.

Fixpoint run (es : list Event) d : option (list Seen * AtaDisk B) :=
  match es with
  | [] => Some ([], d)
  | e :: es => '(o, d) ← occur e d; '(os, d) ← run es d; Some (o :: os, d)
  end.

(* ------------------------------------------------------------------ *)
(** ** The invariant *)

(** What a pending action finds when it completes. *)
Definition action_ok d (a : PendingAction) : Prop :=
  match a with
  | PrepareRead | PrepareWrite => buffer d = [] /\ 0 < pio_sectors_remaining d
  | CommitWrite => length (buffer d) = SECTOR /\ 0 < pio_sectors_remaining d
  | Initialize sectors heads => u8 sectors /\ u8 heads /\ buffer d = [] /\ pio_sectors_remaining d = 0
  | SetFeatures feature mode => u8 feature /\ u8 mode /\ buffer d = [] /\ pio_sectors_remaining d = 0
  | _ => buffer d = [] /\ pio_sectors_remaining d = 0
  end.

Definition request_ok d (r : AtaDmaRequest) : Prop :=
  0 <= lba r /\ 1 <= sectors r <= 256 /\ lba r + sectors r <= total_sectors d
  /\ bytes_per_second_of (dma_mode d) = Some (bytes_per_second r).

(** Which of command, DMA request and data phase is in flight, and what the status says. *)
Definition stage_ok d : Prop :=
  match pending_command d, dma_request d, phase d with
  | Some p, None, Idle => status d = BSY /\ 1 <= ticks_remaining p < 2 ^ 64 /\ action_ok d (action p)
  | None, Some r, Idle => status d = BSY /\ buffer d = [] /\ pio_sectors_remaining d = 0 /\ request_ok d r
  | None, None, Idle => (status d = READY \/ status d = Z.lor DRDY ERR /\ error d = ABRT)
      /\ buffer d = [] /\ pio_sectors_remaining d = 0
  | None, None, DataIn => status d = READY_DRQ /\ length (buffer d) = SECTOR /\ (buffer_pos d < SECTOR)%nat
  | None, None, DataOut => status d = READY_DRQ /\ length (buffer d) = SECTOR /\ (buffer_pos d < SECTOR)%nat
      /\ 0 < pio_sectors_remaining d
  | _, _, _ => False
  end.

(** The sectors still to move lie on the disk. *)
Definition fits d : Prop :=
  0 <= pio_sectors_remaining d <= 256 /\
  (0 < pio_sectors_remaining d -> 0 <= pio_lba d /\ pio_lba d + pio_sectors_remaining d <= total_sectors d).

Definition regs_ok d : Prop :=
  Forall u8 [features d; sector_count d; lba_low d; lba_mid d; lba_high d; drive_head d; error d;
    logical_sectors d; logical_heads d] /\ u32 (pio_lba d).

Definition mode_ok (m : DmaMode) : Prop :=
  match m with NoDma => True | Multiword m | Ultra m => 0 <= m <= 2 end.

(** Every resident of the sector cache is what the store holds, whatever it reads now. *)
Definition coherent `{!ContentLaws B} d : Prop :=
  enabled (cache d) = true -> exists order l, repr (cache d) order l /\
    forall lba s, (lba, s) ∈ l -> 0 <= lba /\ store_content (backing d) lba = Some s.

Record ata_inv `{!ContentLaws B} d : Prop := {
  ai_regs : regs_ok d;
  ai_mode : mode_ok (dma_mode d);
  ai_fits : fits d;
  ai_stage : stage_ok d;
  ai_coherent : coherent d
}.

End Events.

(* ------------------------------------------------------------------ *)
(** ** Sectors through the cache *)

Section Sectors.
Context {B : Type} `{ContentLaws B}.
Implicit Types d : AtaDisk B.

Lemma lookup_in lba l s : (lookup lba l).1 = Some s -> (lba, s) ∈ l.
Proof.
  unfold lookup, find_lba. destruct (List.find _ l) as [[k x]|] eqn:E; [|done]. intros [= <-].
  apply List.find_some in E as [Hin Hk]. apply Z.eqb_eq in Hk as <-. by apply list_elem_of_In.
Qed.

Lemma lookup_incl lba l : (lookup lba l).2 ⊆ l.
Proof.
  unfold lookup, find_lba. destruct (List.find _ l) as [p|] eqn:E; [|done].
  apply List.find_some in E as [Hin _]. apply list_elem_of_In in Hin.
  intros x [->|Hx]%elem_of_cons; [done|]. by apply list_elem_of_filter in Hx as [_ Hx].
Qed.

Lemma store_incl lba data l k s : (k, s) ∈ store lba data l -> (k = lba /\ s = data) \/ k <> lba /\ (k, s) ∈ l.
Proof.
  unfold store. intros [[= -> ->]|Hx]%elem_of_cons; [by left|right].
  assert (Hw : (k, s) ∈ without lba l)
    by (rewrite <- (take_drop (Z.to_nat (CAPACITY_SECTORS - 1)) (without lba l)); apply elem_of_app; by left).
  by apply list_elem_of_filter in Hw.
Qed.

(** What a read may answer: the content of the sector, or what a degraded read stood in for it. *)
Definition served (b : B) (lba : Z) (s : option (list Z)) : Prop :=
  s = store_content b lba \/ exists f, store_read b lba = Some (f, true) /\ s = Some f.

(** At the moment, every read of the store is its content. *)
Definition reads_content (b : B) : Prop :=
  forall lba s degraded, 0 <= lba -> store_read b lba = Some (s, degraded) -> store_content b lba = Some s.

Lemma served_content b lba s : reads_content b -> 0 <= lba -> served b lba s -> s = store_content b lba.
Proof. intros Hb Hl [->|(f & Hf & ->)]; [done|]. symmetry. by apply (Hb lba f true). Qed.

Lemma served_length b lba s : 0 <= lba < store_sectors b -> served b lba s -> exists x, s = Some x /\ length x = SECTOR.
Proof.
  intros Hl [->|(f & Hf & ->)].
  - destruct (content_in_range b lba Hl) as (x & -> & Hx). by exists x.
  - destruct (read_in_range b lba Hl) as (x & dg & Hx & Hlen). rewrite Hf in Hx. injection Hx as <- <-. by exists f.
Qed.

Lemma content_read b lba : match store_read b lba with
  | None => served b lba None | Some (s, false) => store_content b lba = Some s /\ served b lba (Some s)
  | Some (s, true) => served b lba (Some s) end.
Proof.
  pose proof (content_served b lba) as Hc. destruct (store_read b lba) as [[s []]|] eqn:E; [right; by exists s| |by left].
  split; [done|by left].
Qed.

(** Reading through the cache is reading the store, and remembers content alone. *)
Lemma read_lba_spec d lba : coherent d -> 0 <= lba -> exists s c,
  read_lba d lba = Some (s, d <| cache := c |>) /\ served (backing d) lba s
  /\ coherent (d <| cache := c |>) /\ enabled c = enabled (cache d).
Proof.
  intros Hc Hl. unfold read_lba. pose proof (content_read (backing d) lba) as Hr. destruct (enabled (cache d)) eqn:En.
  - destruct (Hc En) as (o & l & R & Hin).
    destruct (cache_get_spec _ _ _ lba R) as (o1 & c1 & -> & R1 & _). cbn [mbind option_bind].
    assert (Hc1 : forall k s, (k, s) ∈ (lookup lba l).2 -> 0 <= k /\ store_content (backing d) k = Some s)
      by (intros k s Hk; apply Hin; by apply lookup_incl in Hk).
    assert (H1 : coherent (d <| cache := c1 |>)) by (intros _; exists o1, (lookup lba l).2; done).
    destruct (lookup lba l).1 as [s|] eqn:El.
    + exists (Some s), c1. apply lookup_in in El. destruct (Hin _ _ El) as [_ Hs].
      split; [done|]. split; [by left|]. split; [done|exact (re_enabled _ _ _ R1)].
    + change (backing (d <| cache := c1 |>)) with (backing d).
      destruct (store_read (backing d) lba) as [[s []]|] eqn:Es;
        [exists (Some s), c1; split; [done|]; split; [done|]; split; [done|exact (re_enabled _ _ _ R1)]| |
         exists None, c1; split; [done|]; split; [done|]; split; [done|exact (re_enabled _ _ _ R1)]].
      destruct Hr as [Hr1 Hr]. destruct (cache_put_spec _ _ _ lba s R1) as (o2 & c2 & E2 & R2 & _).
      change (cache (d <| cache := c1 |>)) with c1. rewrite E2. cbn [mbind option_bind].
      exists (Some s), c2. split; [done|]. split; [done|]. split; [|exact (re_enabled _ _ _ R2)].
      intros _. exists o2, (store lba s (lookup lba l).2).
      split; [done|]. intros k x [[-> ->]|[_ Hx]]%store_incl; [done|]. by apply Hc1.
  - unfold get. rewrite En. cbn [negb mbind option_bind].
    change (backing (d <| cache := _ |>)) with (backing d).
    destruct (store_read (backing d) lba) as [[s []]|].
    1, 3: do 2 eexists; split; [reflexivity|]; split; [done|]; split; [intros E; cbn in E; congruence|done].
    cbn [mbind option_bind]. unfold put. cbn. rewrite En. cbn.
    do 2 eexists. split; [reflexivity|]. split; [apply Hr|]. split; [intros E; cbn in E; congruence|done].
Qed.

Lemma write_lba_spec d lba data : coherent d -> 0 <= lba -> length data = SECTOR ->
  match store_write (backing d) lba data with
  | None => write_lba d lba data = Some (false, d)
  | Some b => exists c, write_lba d lba data = Some (true, d <| backing := b |> <| cache := c |> <| dirty := true |>)
      /\ coherent (d <| backing := b |> <| cache := c |> <| dirty := true |>) /\ enabled c = enabled (cache d)
  end.
Proof.
  intros Hc Hl Hd. unfold write_lba. rewrite (proj2 (Z.ltb_ge _ _)) by (unfold zlen; lia).
  destruct (store_write (backing d) lba data) as [b|] eqn:Ew; [|done]. rewrite take_ge by lia.
  destruct (enabled (cache d)) eqn:En.
  - destruct (Hc En) as (o & l & R & Hin).
    destruct (cache_put_spec _ _ _ lba data R) as (o2 & c2 & -> & R2 & _). cbn [mbind option_bind].
    exists c2. split; [done|]. split; [|exact (re_enabled _ _ _ R2)].
    intros _. exists o2, (store lba data l). split; [done|].
    intros k x [[-> ->]|[Hk Hx]]%store_incl; cbn.
    + split; [done|]. by apply (write_content_same (backing d) lba).
    + destruct (Hin _ _ Hx) as [Hk0 Hr]. split; [done|].
      by rewrite (write_content_other (backing d) lba k data b).
  - unfold put. rewrite En. cbn [negb mbind option_bind]. eexists. split; [reflexivity|].
    split; [|done]. intros E. cbn in E. congruence.
Qed.

(** The store under [d] may be replaced by one with the same content. *)
Lemma coherent_reads d (d' : AtaDisk B) : cache d' = cache d ->
  (forall k, store_content (backing d') k = store_content (backing d) k) -> coherent d -> coherent d'.
Proof. unfold coherent. intros -> Hr Hc He. destruct (Hc He) as (o & l & R & Hin). exists o, l. split; [done|].
  intros k s Hk. rewrite Hr. by apply Hin. Qed.

End Sectors.

(** Over a stable store, what a read answers is what the store reads. *)
Section Stable.
Context {B : Type} `{StoreLaws B}.

Lemma stable_reads_content (b : B) : reads_content b.
Proof. intros lba s dg _ E. change (fst <$> store_read b lba = Some s). by rewrite E. Qed.

Lemma served_stable (b : B) lba s : 0 <= lba -> served b lba s -> s = fst <$> store_read b lba.
Proof. intros Hl. exact (served_content b lba s (stable_reads_content b) Hl). Qed.

Lemma read_lba_stable (d : AtaDisk B) lba : coherent d -> 0 <= lba -> exists c,
  read_lba d lba = Some (fst <$> store_read (backing d) lba, d <| cache := c |>).
Proof.
  intros Hc Hl. destruct (read_lba_spec d lba Hc Hl) as (s & c & E & Hs & _). exists c.
  by rewrite <- (served_stable _ _ _ Hl Hs).
Qed.

End Stable.

Lemma put_string_length ws f n src : length (put_string ws f n src) = length ws.
Proof.
  unfold put_string. generalize (seq 0 n) as js. intros js. revert ws. induction js as [|j js IH]; intros ws; [done|].
  cbn [foldl]. rewrite IH. apply length_insert.
Qed.

Lemma identify_length c h s t m : length (identify_block c h s t m) = SECTOR.
Proof.
  assert (Hw : length (identify_words c h s t m) = 256%nat).
  { unfold identify_words. rewrite !put_string_length.
    destruct m; rewrite ?length_alter, !length_insert, length_replicate; reflexivity. }
  unfold identify_block. revert Hw. generalize (identify_words c h s t m) as ws. intros ws Hw.
  assert (Hl : forall l : list Z, length (mbind (le_bytes 2) l) = (2 * length l)%nat).
  { induction l as [|x l IH]; [done|]. rewrite bind_cons, length_app, le_bytes_length, IH. cbn [length]. lia. }
  rewrite Hl, Hw. reflexivity.
Qed.

(* ------------------------------------------------------------------ *)
(** ** Every operation keeps the invariant *)

Section Preservation.
Context {B : Type} `{ContentLaws B}.
Implicit Types d : AtaDisk B.

(** The part of the invariant no stage touches. *)
Record base d : Prop := { ba_regs : regs_ok d; ba_mode : mode_ok (dma_mode d); ba_coherent : coherent d }.

Lemma inv_base d : ata_inv d -> base d.
Proof. by intros []. Qed.

Lemma idle_fits d : pio_sectors_remaining d = 0 -> fits d.
Proof. intros E. unfold fits. rewrite E. lia. Qed.

(** Closes what is left of an invariant after the operation is evaluated. *)
Ltac kept := first
  [ assumption
  | solve [apply idle_fits; cbn; first [reflexivity | assumption]]
  | solve [unfold regs_ok in *; cbn in *; rewrite ?Forall_cons in *; unfold ABRT, in_width in *; intuition lia]
  | solve [eapply coherent_reads; [| |eassumption]; reflexivity] ].

Lemma complete_ok_inv d : base d -> buffer d = [] -> pio_sectors_remaining d = 0 -> ata_inv (complete_ok d).
Proof. intros [Hr Hm Hc] Hb Hn. split; kept. Qed.

Lemma abort_inv d : base d -> ata_inv (abort d).
Proof. intros [Hr Hm Hc]. split; kept. Qed.

Lemma action_ok_same d d' a : buffer d' = buffer d -> pio_sectors_remaining d' = pio_sectors_remaining d ->
  action_ok d a -> action_ok d' a.
Proof. intros E1 E2. destruct a; cbn; by rewrite E1, E2. Qed.

Lemma schedule_inv d a ticks prefix : base d -> fits d -> dma_request d = None -> action_ok d a -> 0 <= prefix ->
  ata_inv (schedule_at d a ticks prefix).
Proof.
  intros [Hr Hm Hc] Hf Hn Ha Hp. split; try kept. unfold stage_ok. cbn. rewrite Hn.
  split; [done|]. split; [|by apply (action_ok_same d)].
  unfold saturate. lia.
Qed.

Lemma low_bits_u8 a b : u8 a -> 0 <= b -> u8 (Z.lor (Z.land a 240) (Z.land b 15)).
Proof.
  intros Ha Hb. apply lor_width; [lia|apply land_width_r; [lia|split; [lia|reflexivity]]|].
  apply land_width_r; [lia|split; [lia|reflexivity]].
Qed.

Lemma wrap8 z : u8 (wrap 8 z).
Proof. apply wrap_in_width. lia. Qed.

Lemma task_file_base d l : base d -> 0 <= l -> base (set_task_file_address d l).
Proof.
  intros [Hr Hm Hc] Hl. unfold set_task_file_address.
  assert (Hd : u8 (drive_head d)) by (destruct Hr as [Hr _]; rewrite !Forall_cons in Hr; tauto).
  destruct (lba_mode d); (split; [|done|by eapply coherent_reads; [| |eassumption]]);
    (split; [|apply Hr]); cbn; rewrite ?Forall_cons; destruct Hr as [Hr _]; rewrite !Forall_cons in Hr;
    repeat match goal with |- _ /\ _ => split end; try tauto; try apply wrap8.
  - apply low_bits_u8; [done|]. apply wrap_in_width; lia.
  - apply lor_width; [lia| |apply wrap8]. apply land_width_r; [lia|split; [lia|reflexivity]].
Qed.

Lemma task_file_same d l : let d' := set_task_file_address d l in
  (backing d', buffer d', buffer_pos d', phase d', pio_sectors_remaining d', pio_lba d', dma_request d',
    pending_command d', status d', error d', last_access_bytes d', cache d', irq_pending d', dma_mode d')
  = (backing d, buffer d, buffer_pos d, phase d, pio_sectors_remaining d, pio_lba d, dma_request d,
    pending_command d, status d, error d, last_access_bytes d, cache d, irq_pending d, dma_mode d).
Proof. cbn. unfold set_task_file_address. by destruct (lba_mode d). Qed.

Lemma base_same d d' : features d' = features d -> lba_low d' = lba_low d -> lba_mid d' = lba_mid d ->
  lba_high d' = lba_high d -> drive_head d' = drive_head d -> logical_sectors d' = logical_sectors d ->
  logical_heads d' = logical_heads d -> dma_mode d' = dma_mode d -> cache d' = cache d -> backing d' = backing d ->
  u8 (sector_count d') -> u8 (error d') -> u32 (pio_lba d') -> base d -> base d'.
Proof.
  intros E1 E2 E3 E4 E5 E6 E7 E8 E9 E10 Hs He Hp [[Hr _] Hm Hc]. split; [|by rewrite E8|].
  - split; [|done]. rewrite !Forall_cons in *. rewrite E1, E2, E3, E4, E5, E6, E7. tauto.
  - eapply coherent_reads; [done|intros k; by rewrite E10|done].
Qed.

Lemma advance_pio_spec d : base d -> 0 < pio_sectors_remaining d -> fits d ->
  let d' := advance_pio_task_file (d <| pio_sectors_remaining := pio_sectors_remaining d - 1 |>) in
  base d' /\ pio_sectors_remaining d' = pio_sectors_remaining d - 1 /\ pio_lba d' = pio_lba d + 1 /\
  (backing d', buffer d', buffer_pos d', phase d', dma_request d', pending_command d', status d', error d',
    last_access_bytes d', irq_pending d', cache d') =
  (backing d, buffer d, buffer_pos d, phase d, dma_request d, pending_command d, status d, error d,
    last_access_bytes d, irq_pending d, cache d).
Proof.
  intros Hb Hn [Hf1 Hf2]. unfold advance_pio_task_file. cbv zeta.
  destruct (Hf2 Hn) as [Hp Ht]. pose proof (sectors_bound (backing d)) as Hs. unfold total_sectors in Ht.
  assert (Hw : saturate 32 (pio_lba d + 1) = pio_lba d + 1) by (apply saturate_id; unfold in_width; lia).
  match goal with |- context [set_task_file_address ?x _] => set (d1 := x) end. set (l1 := pio_lba d1).
  assert (Hl1 : l1 = pio_lba d + 1) by exact Hw.
  pose proof (task_file_same d1 l1) as E. cbn zeta in E. injection E as E1 E2 E3 E4 E5 E6 E7 E8 E9 E10 E11 E12 E13 E14.
  rewrite E1, E2, E3, E4, E5, E6, E7, E8, E9, E10, E11, E12, E13.
  split; [|split; [reflexivity|split; [exact Hw|reflexivity]]].
  apply task_file_base; [|lia]. apply (base_same d); try reflexivity; [apply wrap8| | |done].
  - destruct Hb as [[Hr _] _ _]. rewrite !Forall_cons in Hr. cbn. tauto.
  - cbn. rewrite Hw. unfold in_width; lia.
Qed.

Lemma prepare_read_spec d : base d -> 0 < pio_sectors_remaining d -> fits d ->
  exists s c, served (backing d) (pio_lba d) (Some s) /\ length s = SECTOR /\
    coherent (d <| cache := c |>) /\
    prepare_read_sector d = Some (raise_irq (d <| cache := c |> <| buffer := s |> <| buffer_pos := 0%nat |>
      <| phase := DataIn |> <| status := READY_DRQ |> <| error := 0 |>
      <| last_access_bytes := saturate 64 (last_access_bytes d + Z.of_nat SECTOR) |>)).
Proof.
  intros Hb Hn [_ Hf]. destruct (Hf Hn) as [Hp Ht].
  destruct (read_lba_spec d (pio_lba d) (ba_coherent d Hb) Hp) as (x & c & Hr & Hx & Hc & _).
  destruct (served_length (backing d) (pio_lba d) x) as (s & -> & Hl); [unfold total_sectors in Ht; lia|done|].
  exists s, c. split; [done|]. split; [done|]. split; [done|].
  unfold prepare_read_sector. rewrite Hr. reflexivity.
Qed.

Lemma prepare_read_inv d : base d -> 0 < pio_sectors_remaining d -> fits d -> dma_request d = None ->
  pending_command d = None -> exists d', prepare_read_sector d = Some d' /\ ata_inv d'.
Proof.
  intros Hb Hn Hf Hd Hp. destruct (prepare_read_spec d Hb Hn Hf) as (s & c & Hs & Hl & Hc & ->).
  eexists. split; [reflexivity|]. destruct Hb as [Hr Hm _]. split; try kept.
  unfold stage_ok. cbn. rewrite Hp, Hd. split; [done|]. split; [done|]. unfold SECTOR. lia.
Qed.

Lemma prepare_write_inv d irq : base d -> 0 < pio_sectors_remaining d -> fits d -> dma_request d = None ->
  pending_command d = None -> ata_inv (prepare_write_sector d irq).
Proof.
  intros [Hr Hm Hc] Hn Hf Hd Hp. unfold prepare_write_sector. destruct irq; (split; try kept);
    unfold stage_ok; cbn [raise_irq pending_command]; cbn -[SECTOR replicate]; rewrite Hp, Hd, length_replicate;
    (split; [done|]; split; [done|]; split; [unfold SECTOR; lia|done]).
Qed.

(** After the sector is stored: the next one, or the end of the command. *)
Definition after_commit d : AtaDisk B :=
  if 0 <? pio_sectors_remaining d then prepare_write_sector d true
  else
    let d := d <| phase := Idle |> <| status := READY |> <| error := 0 |> in
    let '(b, failed) := store_commit Pio (backing d) in
    let d := d <| backing := b |> in
    if failed : bool then abort d else raise_irq d.

Lemma commit_write_unfold d : commit_write_sector d =
  '(written, d) ← write_lba (d <| buffer := [] |> <| buffer_pos := 0%nat |>) (pio_lba d) (buffer d);
  if negb written then Some (abort d)
  else
    let d := d <| last_access_bytes := saturate 64 (last_access_bytes d + Z.of_nat SECTOR) |> in
    Some (after_commit (if 0 <? pio_sectors_remaining d then
      advance_pio_task_file (d <| pio_sectors_remaining := pio_sectors_remaining d - 1 |>) else d)).
Proof.
  unfold commit_write_sector. destruct (write_lba _ _ _) as [[[] d1]|]; [|reflexivity..].
  cbn [mbind option_bind negb]. cbv zeta. generalize (d1 <| last_access_bytes := saturate 64 (last_access_bytes d1 + Z.of_nat SECTOR) |>).
  intros d2. generalize (if 0 <? pio_sectors_remaining d2 then
    advance_pio_task_file (d2 <| pio_sectors_remaining := pio_sectors_remaining d2 - 1 |>) else d2).
  intros d3. unfold after_commit. destruct (0 <? pio_sectors_remaining d3); [reflexivity|].
  destruct (store_commit _ _) as [b []]; reflexivity.
Qed.

(** What committing a full buffer does. *)
Lemma commit_write_spec d : base d -> 0 < pio_sectors_remaining d -> fits d -> length (buffer d) = SECTOR ->
  exists b c, store_write (backing d) (pio_lba d) (buffer d) = Some b /\
    let d1 := d <| buffer := [] |> <| buffer_pos := 0%nat |> <| backing := b |> <| cache := c |> <| dirty := true |>
      <| last_access_bytes := saturate 64 (last_access_bytes d + Z.of_nat SECTOR) |> in
    base d1 /\ total_sectors d1 = total_sectors d /\
    commit_write_sector d = Some (after_commit
      (advance_pio_task_file (d1 <| pio_sectors_remaining := pio_sectors_remaining d - 1 |>))).
Proof.
  intros Hb Hn [Hf0 Hf] Hl. destruct (Hf Hn) as [Hp Ht].
  destruct (write_in_range (backing d) (pio_lba d) (buffer d)) as [b Hw]; [unfold total_sectors in Ht; lia|done|].
  rewrite commit_write_unfold.
  set (d0 := d <| buffer := [] |> <| buffer_pos := 0%nat |>).
  assert (Hc0 : coherent d0) by (eapply coherent_reads; [| |apply Hb]; reflexivity).
  pose proof (write_lba_spec d0 (pio_lba d) (buffer d) Hc0 Hp Hl) as Hs.
  change (backing d0) with (backing d) in Hs. rewrite Hw in Hs. destruct Hs as (c & -> & Hc & _).
  exists b, c. split; [done|]. cbv zeta. cbn [mbind option_bind negb].
  split; [|split; [exact (write_sectors_same _ _ _ _ Hp Hl Hw)|]].
  - destruct Hb as [Hr Hm _]. split; [exact Hr|exact Hm|]. eapply coherent_reads; [| |exact Hc]; reflexivity.
  - set (d1 := _ <| last_access_bytes := _ |>). change (pio_sectors_remaining d1) with (pio_sectors_remaining d).
    rewrite (proj2 (Z.ltb_lt 0 (pio_sectors_remaining d)) Hn). reflexivity.
Qed.

Lemma after_commit_inv d : base d -> fits d -> dma_request d = None -> pending_command d = None -> buffer d = [] ->
  ata_inv (after_commit d).
Proof.
  intros Hb Hf Hd Hp Hbuf. unfold after_commit. destruct (0 <? pio_sectors_remaining d) eqn:En; bool_prop.
  { by apply prepare_write_inv. }
  cbv zeta. destruct (store_commit Pio _) as [b failed] eqn:Eb. cbn [backing] in Eb.
  pose proof (commit_sectors Pio (backing d)) as Hs. pose proof (commit_content Pio (backing d)) as Hr.
  change (backing (d <| phase := Idle |> <| status := READY |> <| error := 0 |>)) with (backing d) in Eb.
  rewrite Eb in Hs, Hr. cbn in Hs, Hr.
  assert (Hb1 : base (d <| phase := Idle |> <| status := READY |> <| error := 0 |> <| backing := b |>)).
  { destruct Hb as [Hr0 Hm Hc]. split; [kept|exact Hm|]. eapply coherent_reads; [| |exact Hc]; [reflexivity|exact Hr]. }
  destruct failed; [by apply abort_inv|]. destruct Hb1 as [Hr1 Hm1 Hc1], Hf as [Hf _].
  split; [exact Hr1|exact Hm1| | |exact Hc1].
  - apply idle_fits. cbn. lia.
  - unfold stage_ok. cbn. rewrite Hp, Hd. split; [by left|]. split; [done|lia].
Qed.

Lemma commit_write_inv d : base d -> 0 < pio_sectors_remaining d -> fits d -> length (buffer d) = SECTOR ->
  dma_request d = None -> pending_command d = None -> exists d', commit_write_sector d = Some d' /\ ata_inv d'.
Proof.
  intros Hb Hn Hf Hl Hd Hp. destruct (commit_write_spec d Hb Hn Hf Hl) as (b & c & Hw & H1).
  cbv zeta in H1. destruct H1 as (Hb1 & Ht1 & ->). eexists. split; [reflexivity|].
  match type of Hb1 with base ?x => set (d1 := x) in * end.
  assert (Hf1 : fits d1) by (unfold fits; by rewrite Ht1).
  destruct (advance_pio_spec d1 Hb1 Hn Hf1) as (Hb2 & E1 & E2 & E).
  change (pio_sectors_remaining d1) with (pio_sectors_remaining d) in *.
  set (d2 := advance_pio_task_file _) in *. clearbody d2. injection E as E3 E4 _ _ E5 E6 _ _ _ _ _.
  apply after_commit_inv; [done| |by rewrite E5|by rewrite E6|by rewrite E4].
  unfold fits, total_sectors in *. rewrite E1, E2, E3. change (pio_lba d1) with (pio_lba d).
  change (store_sectors b = store_sectors (backing d)) in Ht1. rewrite Ht1. destruct Hf as [? Hf]. lia.
Qed.

Lemma dma_of_mode_ok m r : bytes_per_second_of m = Some r -> mode_ok m.
Proof. destruct m as [|m|m]; cbn; [done| |]; destruct m as [|[[]|[]|]|]; cbn; try done; lia. Qed.

Lemma set_features_inv d f m : base d -> buffer d = [] -> pio_sectors_remaining d = 0 -> u8 m ->
  ata_inv (apply_set_features d f m).
Proof.
  intros [Hr Hm Hc] Hb Hn Hm8. unfold apply_set_features. cases; try (by apply abort_inv);
    apply complete_ok_inv; try done; (split; [exact Hr| |exact Hc]); cbn; bool_prop; lia || done.
Qed.

Lemma finish_inv d p : ata_inv d -> pending_command d = Some p ->
  exists d', finish_pending (d <| pending_command := None |>) (action p) = Some d' /\ ata_inv d'.
Proof.
  intros [Hr Hm Hf Hs Hc] Hp. unfold stage_ok in Hs. rewrite Hp in Hs.
  destruct (dma_request d) eqn:Ed; [done|]. destruct (phase d) eqn:Eph; [|done..].
  destruct Hs as (_ & _ & Ha). unfold finish_pending.
  set (d1 := reset_alt_status_run (d <| pending_command := None |>)).
  assert (Hb1 : base d1) by (by split).
  assert (Hf1 : fits d1) by exact Hf.
  destruct (action p) as [| | | | | |sct hd|ft md| | |]; cbn in Ha;
    try (by eexists; split; [reflexivity|apply abort_inv]).
  - eexists. split; [reflexivity|]. split; [destruct Hb1; kept|exact Hm|apply idle_fits; apply Ha| |exact Hc].
    unfold stage_ok. cbn -[identify_block SECTOR]. rewrite Ed. split; [done|]. rewrite identify_length. unfold SECTOR. lia.
  - destruct Ha as [Hbuf Hn]. by apply prepare_read_inv.
  - destruct Ha as [Hbuf Hn]. eexists. split; [reflexivity|]. by apply prepare_write_inv.
  - destruct Ha as [Hbuf Hn]. by apply commit_write_inv.
  - destruct Ha as [Hbuf Hn]. eexists. split; [reflexivity|]. by apply complete_ok_inv.
  - destruct Ha as (H1 & H2 & Hb & Hn). eexists. split; [reflexivity|]. apply complete_ok_inv; [|done..].
    split; [|exact Hm|exact Hc]. destruct Hr as [Hr ?]. split; [|done]. cbn. rewrite !Forall_cons in *. tauto.
  - destruct Ha as (H1 & H2 & Hb & Hn). eexists. split; [reflexivity|]. by apply set_features_inv.
  - destruct Ha as [Hb Hn]. eexists. split; [reflexivity|]. split; [|exact Hm|exact Hf1| |exact Hc].
    + destruct Hr as [Hr ?]. split; [|done]. cbn. rewrite !Forall_cons in *. unfold in_width in *. intuition lia.
    + unfold stage_ok. cbn. rewrite Ed, Eph. split; [by left|done].
  - destruct Ha as [Hb Hn]. eexists. split; [reflexivity|]. apply complete_ok_inv; [|done..].
    split; [|exact Hm|exact Hc]. destruct Hr as [Hr ?]. split; [|done]. cbn. rewrite !Forall_cons in *. unfold in_width in *. intuition lia.
  - destruct Ha as [Hb Hn]. destruct (store_flush _) as [b failed] eqn:Eb.
    pose proof (flush_content (backing d)) as Hfr. change (backing d1) with (backing d) in Eb. rewrite Eb in Hfr.
    assert (Hb2 : base (d1 <| backing := b |>))
      by (split; [exact Hr|exact Hm|]; eapply coherent_reads; [| |exact Hc]; [reflexivity|exact Hfr]).
    eexists. split; [reflexivity|]. destruct failed; [by apply abort_inv|by apply complete_ok_inv].
Qed.

Lemma advance_inv d ticks : ata_inv d -> 0 <= ticks -> exists d', advance_master_ticks d ticks = Some d' /\ ata_inv d'.
Proof.
  intros Hi Ht. unfold advance_master_ticks. destruct (pending_command d) as [p|] eqn:Ep; [|eauto].
  destruct (ticks <? ticks_remaining p) eqn:El; [|by apply finish_inv]. bool_prop.
  eexists. split; [reflexivity|]. destruct Hi as [Hr Hm Hf Hs Hc]. split; [exact Hr|exact Hm|exact Hf| |exact Hc].
  unfold stage_ok in *. rewrite Ep in Hs. cbn. destruct (dma_request d); [done|]. destruct (phase d); [|done..].
  destruct Hs as (? & ? & Ha). split; [done|]. split; [lia|exact Ha].
Qed.

Lemma command_lba_bound d l n : regs_ok d -> command_lba d = Some (l, n) -> u32 l /\ 1 <= n <= 256.
Proof.
  intros [Hr _] Hc. rewrite !Forall_cons in Hr. destruct Hr as (Hf & Hs & Hl & Hm & Hh & Hd & _).
  assert (Hn : forall z, z = (if sector_count d =? 0 then 256 else sector_count d) -> 1 <= z <= 256).
  { intros z ->. unfold in_width in *. cases; bool_prop; lia. }
  unfold command_lba in Hc. destruct (lba_mode d).
  - injection Hc as <- <-. split; [|by apply Hn].
    assert (Hb : in_width 4 (Z.land (drive_head d) 15)) by (apply land_width_r; [lia|split; [lia|reflexivity]]).
    assert (Hsh : forall w a k, in_width w a -> 0 <= w -> 0 <= k -> w + k <= 32 -> u32 (Z.shiftl a k)).
    { intros w a k [Ha1 Ha2] Hw Hk Hwk. unfold in_width. rewrite Z.shiftl_mul_pow2 by lia.
      assert (2 ^ w * 2 ^ k <= 2 ^ 32) by (rewrite <- Z.pow_add_r by lia; apply Z.pow_le_mono_r; lia). nia. }
    repeat apply lor_width; try lia; try (eapply Hsh; eauto; lia). eapply in_width_mono; [|exact Hl]. lia.
  - destruct (task_file_chs_to_lba d _ _ _) as [l'|] eqn:E; [|done]. injection Hc as <- <-. split; [|by apply Hn].
    unfold task_file_chs_to_lba in E. cbv zeta in E. destruct (_ || _); [done|].
    repeat match type of E with (checked 32 ?e ≫= _) = _ =>
      let z := fresh "z" in let H := fresh "Hz" in
      destruct (checked 32 e) as [z|] eqn:H; [cbn [mbind option_bind] in E; apply checked_Some in H|done] end.
    destruct (_ <? _); [|done]. injection E as <-. destruct_and?; by subst.
Qed.

Lemma command_fits d l n : regs_ok d -> command_lba d = Some (l, n) -> saturate 32 (l + n) <= total_sectors d ->
  0 <= l /\ l + n <= total_sectors d.
Proof.
  intros Hr Hc Hs. destruct (command_lba_bound _ _ _ Hr Hc) as [Hl Hn].
  pose proof (sectors_bound (backing d)) as Ht. unfold total_sectors, saturate, in_width in *. lia.
Qed.

(** The states in which a command is accepted. *)
Record accepting d : Prop := {
  ac_base : base d; ac_pending : pending_command d = None; ac_dma : dma_request d = None; ac_phase : phase d = Idle;
  ac_buffer : buffer d = []; ac_remaining : pio_sectors_remaining d = 0
}.

Lemma inv_accepting d : ata_inv d -> pending_command d = None -> dma_request d = None -> phase d = Idle -> accepting d.
Proof.
  intros Hi Hp Hd Hph. pose proof (ai_stage _ Hi) as Hs. unfold stage_ok in Hs. rewrite Hp, Hd, Hph in Hs.
  destruct Hs as (_ & ? & ?). split; auto using inv_base.
Qed.

Lemma schedule_accepting d a ticks prefix : accepting d -> 0 <= prefix ->
  (buffer d = [] -> pio_sectors_remaining d = 0 -> action_ok d a) -> ata_inv (schedule_at d a ticks prefix).
Proof. intros [Hb Hp Hd Hph Hbuf Hr] Hpre Ha. apply schedule_inv; auto. by apply idle_fits. Qed.

Lemma pio_sectors_inv d first prefix : accepting d -> 0 <= prefix -> first = PrepareRead \/ first = PrepareWrite ->
  ata_inv (pio_sectors d first prefix).
Proof.
  intros Ha Hpre Hfirst. unfold pio_sectors. destruct (command_lba d) as [[l n]|] eqn:El;
    [|by apply schedule_accepting].
  cbv zeta. destruct (_ <? _) eqn:Et; [by apply schedule_accepting|]. bool_prop.
  destruct Ha as [[Hr Hm Hc] Hp Hd Hph Hbuf Hz].
  destruct (command_lba_bound _ _ _ Hr El) as [Hl Hn]. destruct (command_fits _ _ _ Hr El) as [Hl0 Hln]; [lia|].
  apply schedule_inv; [|split; [cbn; lia|intros _; exact (conj Hl0 Hln)]|exact Hd| |done].
  - split; [split; [exact (proj1 Hr)|exact Hl]|exact Hm|exact Hc].
  - destruct Hfirst as [-> | ->]; (split; [exact Hbuf|cbn; lia]).
Qed.

Lemma begin_dma_inv d dir : accepting d -> ata_inv (begin_dma d dir).
Proof.
  intros [Hb Hp Hd Hph Hbuf Hz]. unfold begin_dma.
  destruct (bytes_per_second_of (dma_mode d)) as [rate|] eqn:Er; [|by apply abort_inv].
  destruct (command_lba d) as [[l n]|] eqn:El; [|by apply abort_inv].
  destruct (_ <? _) eqn:Et; [by apply abort_inv|]. bool_prop. destruct Hb as [Hr Hm Hc].
  destruct (command_lba_bound _ _ _ Hr El) as [Hl Hn]. destruct (command_fits _ _ _ Hr El) as [Hl0 Hln]; [lia|].
  split; try kept. unfold stage_ok. cbn. rewrite Hp. unfold request_ok. cbn. split; [done|]. split; [done|]. split; [done|].
  split; [done|]. split; [lia|]. split; [exact Hln|exact Er].
Qed.

Lemma drive_heads_u8 z : u8 (Z.land z 15 + 1).
Proof.
  assert (Hw : in_width 4 (Z.land z 15)) by (apply land_width_r; [lia|split; [lia|reflexivity]]).
  unfold in_width in *. lia.
Qed.

Lemma write_command_inv d command prefix : ata_inv d -> 0 <= prefix -> ata_inv (write_command d command prefix).
Proof.
  intros Hi Hpre. unfold write_command.
  destruct (_ || _) eqn:E; [done|]. apply orb_false_iff in E as [[E1 E2]%orb_false_iff E3].
  apply bool_decide_eq_false in E1, E2. apply negb_false_iff, bool_decide_eq_true in E3.
  apply eq_None_not_Some in E1, E2. pose proof (inv_accepting d Hi E2 E1 E3) as Ha.
  assert (Hr : Forall u8 [sector_count d; features d]).
  { destruct Hi as [[Hr _] _ _ _ _]. rewrite !Forall_cons in *. tauto. }
  rewrite !Forall_cons in Hr. destruct Hr as (Hs & Hfe & _).
  repeat match goal with |- context [if ?b then _ else _] => destruct b eqn:? end;
    first [ by apply schedule_accepting
          | by apply pio_sectors_inv; auto
          | by apply begin_dma_inv
          | apply schedule_accepting; [done|done|cbn; auto using drive_heads_u8] ].
Qed.

Lemma stage_data_in d : ata_inv d -> phase d = DataIn -> pending_command d = None /\ dma_request d = None /\
  status d = READY_DRQ /\ length (buffer d) = SECTOR /\ (buffer_pos d < SECTOR)%nat.
Proof.
  intros Hi Hp. pose proof (ai_stage _ Hi) as Hs. unfold stage_ok in Hs. rewrite Hp in Hs.
  by destruct (pending_command d), (dma_request d).
Qed.

Lemma stage_data_out d : ata_inv d -> phase d = DataOut -> pending_command d = None /\ dma_request d = None /\
  status d = READY_DRQ /\ length (buffer d) = SECTOR /\ (buffer_pos d < SECTOR)%nat /\ 0 < pio_sectors_remaining d.
Proof.
  intros Hi Hp. pose proof (ai_stage _ Hi) as Hs. unfold stage_ok in Hs. rewrite Hp in Hs.
  by destruct (pending_command d), (dma_request d).
Qed.

Lemma stage_request d r : ata_inv d -> dma_request d = Some r -> pending_command d = None /\ phase d = Idle /\
  status d = BSY /\ buffer d = [] /\ pio_sectors_remaining d = 0 /\ request_ok d r.
Proof.
  intros Hi Hp. pose proof (ai_stage _ Hi) as Hs. unfold stage_ok in Hs. rewrite Hp in Hs.
  by destruct (pending_command d), (phase d).
Qed.

(** What reading the last byte of a sector does. *)
Definition sector_drained d (prefix_ticks : Z) : AtaDisk B :=
  let d := d <| phase := Idle |> <| buffer := [] |> <| buffer_pos := 0%nat |> in
  let d := if 0 <? pio_sectors_remaining d then
      advance_pio_task_file (d <| pio_sectors_remaining := pio_sectors_remaining d - 1 |>) else d in
  if 0 <? pio_sectors_remaining d then schedule_at d PrepareRead COMMAND_LATENCY_TICKS prefix_ticks
  else d <| status := READY |>.

Lemma read_data_byte_spec d prefix : ata_inv d -> phase d = DataIn ->
  exists byte, buffer d !! buffer_pos d = Some byte /\
  read_data_byte d prefix = (byte,
    if (S (buffer_pos d) =? SECTOR)%nat then sector_drained (d <| buffer_pos := S (buffer_pos d) |>) prefix
    else d <| buffer_pos := S (buffer_pos d) |>).
Proof.
  intros Hi Hp. destruct (stage_data_in d Hi Hp) as (_ & _ & _ & Hl & Hpos).
  destruct (lookup_lt_is_Some_2 (buffer d) (buffer_pos d)) as [byte Hb]; [lia|].
  exists byte. split; [done|]. unfold read_data_byte. rewrite bool_decide_eq_true_2, Hb by done. cbn [negb from_option]. cbv zeta.
  set (d1 := d <| buffer_pos := S (buffer_pos d) |>).
  change (buffer d1) with (buffer d). change (buffer_pos d1) with (S (buffer_pos d)). rewrite Hl.
  replace (SECTOR <=? S (buffer_pos d))%nat with (S (buffer_pos d) =? SECTOR)%nat
    by (destruct (Nat.eqb_spec (S (buffer_pos d)) SECTOR), (Nat.leb_spec SECTOR (S (buffer_pos d))); done || lia).
  destruct (_ =? _)%nat; [|done]. unfold sector_drained. cbv zeta.
  by destruct (0 <? pio_sectors_remaining (if _ : bool then _ else _)).
Qed.

Lemma sector_drained_inv d prefix : base d -> fits d -> pending_command d = None -> dma_request d = None ->
  0 <= prefix -> ata_inv (sector_drained d prefix).
Proof.
  intros Hb Hf Hp Hd Hpre. unfold sector_drained. set (d1 := d <| phase := Idle |> <| buffer := [] |> <| buffer_pos := 0%nat |>).
  assert (Hb1 : base d1) by (destruct Hb; by split). assert (Hf1 : fits d1) by exact Hf. cbv zeta.
  assert (Hend : forall d2, base d2 -> pio_sectors_remaining d2 = 0 -> buffer d2 = [] -> phase d2 = Idle ->
    dma_request d2 = None -> pending_command d2 = None -> ata_inv (d2 <| status := READY |>)).
  { intros d2 [] Hz Hbuf Hph Hd2 Hp2. split; try kept. unfold stage_ok. cbn. rewrite Hp2, Hd2, Hph. auto. }
  destruct (0 <? pio_sectors_remaining d1) eqn:En; bool_prop.
  - destruct (advance_pio_spec d1 Hb1) as (Hb2 & E1 & E2 & E); [done|done|].
    set (d2 := advance_pio_task_file _) in *. clearbody d2. injection E as E3 E4 _ E7 E5 E6 _ _ _ _ _.
    change (pio_sectors_remaining d1) with (pio_sectors_remaining d) in *. change (pio_lba d1) with (pio_lba d) in *.
    assert (Hf2 : fits d2).
    { unfold fits, total_sectors in *. rewrite E1, E2, E3. destruct Hf as [? Hf]. lia. }
    destruct (0 <? pio_sectors_remaining d2) eqn:En2; bool_prop.
    + apply schedule_inv; [done|done|by rewrite E5| |done]. cbn. by rewrite E4.
    + apply Hend; [done|lia|done|done|congruence|congruence].
  - rewrite (proj2 (Z.ltb_ge 0 (pio_sectors_remaining d1))) by lia. apply Hend; try done. destruct Hf1 as [? _]. lia.
Qed.

Lemma read_data_byte_inv d prefix : ata_inv d -> 0 <= prefix -> ata_inv (read_data_byte d prefix).2.
Proof.
  intros Hi Hpre. destruct (decide (phase d = DataIn)) as [Hp|Hp].
  2: { unfold read_data_byte. by rewrite bool_decide_eq_false_2. }
  destruct (read_data_byte_spec d prefix Hi Hp) as (byte & _ & ->). cbn [snd].
  destruct (stage_data_in d Hi Hp) as (Hpe & Hd & Hs & Hl & Hpos). pose proof (inv_base d Hi) as [].
  destruct (Nat.eqb_spec (S (buffer_pos d)) SECTOR).
  - apply sector_drained_inv; [by split|apply Hi|done..].
  - split; try kept; [apply Hi|]. unfold stage_ok. cbn. rewrite Hpe, Hd, Hp. split; [done|]. split; [done|lia].
Qed.

Lemma write_data_byte_spec d value prefix : ata_inv d -> phase d = DataOut ->
  let d1 := d <| buffer := <[buffer_pos d := value]> (buffer d) |> <| buffer_pos := S (buffer_pos d) |> in
  write_data_byte d value prefix =
    if (S (buffer_pos d) =? SECTOR)%nat then schedule_at (d1 <| phase := Idle |>) CommitWrite COMMAND_LATENCY_TICKS prefix
    else d1.
Proof.
  intros Hi Hp. destruct (stage_data_out d Hi Hp) as (_ & _ & _ & Hl & Hpos & _). cbv zeta.
  unfold write_data_byte. rewrite bool_decide_eq_true_2 by done. cbn [negb]. cbv zeta.
  rewrite (proj2 (Nat.ltb_lt _ _)) by lia.
  set (d1 := d <| buffer := _ |> <| buffer_pos := _ |>).
  change (buffer d1) with (<[buffer_pos d := value]> (buffer d)). change (buffer_pos d1) with (S (buffer_pos d)).
  rewrite length_insert, Hl.
  by destruct (Nat.eqb_spec (S (buffer_pos d)) SECTOR), (Nat.leb_spec SECTOR (S (buffer_pos d))); try lia.
Qed.

Lemma write_data_byte_inv d value prefix : ata_inv d -> 0 <= prefix -> ata_inv (write_data_byte d value prefix).
Proof.
  intros Hi Hpre. destruct (decide (phase d = DataOut)) as [Hp|Hp].
  2: { unfold write_data_byte. by rewrite bool_decide_eq_false_2. }
  rewrite (write_data_byte_spec d value prefix Hi Hp). cbv zeta.
  destruct (stage_data_out d Hi Hp) as (Hpe & Hd & Hs & Hl & Hpos & Hn). pose proof (inv_base d Hi) as [].
  destruct (Nat.eqb_spec (S (buffer_pos d)) SECTOR).
  - apply schedule_inv; [by split|apply Hi|done| |done]. cbn. by rewrite length_insert.
  - split; try kept; [apply Hi|]. unfold stage_ok. cbn. rewrite Hpe, Hd, Hp, length_insert. split; [done|]. split; [done|lia].
Qed.

(** Registers and bookkeeping no stage reads. *)
Lemma inv_same d d' : base d' -> phase d' = phase d -> pending_command d' = pending_command d ->
  dma_request d' = dma_request d -> dma_mode d' = dma_mode d -> status d' = status d ->
  (error d' = error d) -> buffer d' = buffer d -> buffer_pos d' = buffer_pos d ->
  pio_sectors_remaining d' = pio_sectors_remaining d -> pio_lba d' = pio_lba d -> total_sectors d' = total_sectors d ->
  ata_inv d -> ata_inv d'.
Proof.
  intros [Hr Hm Hc] E1 E2 E3 E4 E5 E6 E7 E8 E9 E10 E11 [_ _ Hf Hs _]. split; [done|done| | |done].
  - unfold fits. by rewrite E9, E10, E11.
  - unfold stage_ok, request_ok in *. rewrite E1, E2, E3, E4, E5, E6, E7, E8, E9, E11.
    destruct (pending_command d) as [p|]; [|done]. destruct (dma_request d); [done|]. destruct (phase d); [|done..].
    destruct Hs as (? & ? & Ha). split; [done|]. split; [done|]. by eapply action_ok_same; [| |exact Ha].
Qed.

Lemma soft_reset_inv d : base d -> ata_inv (soft_reset d).
Proof. intros [Hr Hm Hc]. split; kept. Qed.

Ltac same_stage d := apply (inv_same d); try reflexivity; [|done].

Lemma read_port_inv d port prefix : ata_inv d -> 0 <= prefix -> ata_inv (read_port_at d port prefix).2.
Proof.
  intros Hi Hpre. unfold read_port_at. destruct (port =? _); [done|]. destruct (negb _); [done|].
  assert (Hi1 : ata_inv (reset_alt_status_run d)) by (same_stage d; destruct (inv_base d Hi); by split).
  cbv zeta. pose proof (read_data_byte_inv (reset_alt_status_run d) prefix Hi1 Hpre) as Hrd.
  repeat match goal with |- context [match ?z with _ => _ end] => is_var z; destruct z
    | |- context [match port - PRIMARY_CMD_BASE with _ => _ end] => destruct (port - PRIMARY_CMD_BASE) end;
    try exact Hi1; try (destruct (read_data_byte _ _); exact Hrd).
  same_stage (reset_alt_status_run d). destruct (inv_base d Hi); by split.
Qed.

Lemma write_port_inv d port value prefix : ata_inv d -> u8 value -> 0 <= prefix -> ata_inv (write_port_at d port value prefix).2.
Proof.
  intros Hi Hv Hpre. unfold write_port_at.
  set (d1 := block_poll_skip (reset_alt_status_run d)).
  assert (Hb : base d) by by apply inv_base.
  assert (Hi1 : ata_inv d1) by (same_stage d; destruct Hb; by split). cbv zeta.
  destruct (port =? _).
  { cbn [snd]. set (d2 := d1 <| interrupts_disabled := has value 2 |>).
    assert (Hb2 : base d2) by (destruct Hb; by split).
    destruct (has value 4); [by apply soft_reset_inv|same_stage d1; exact Hb2]. }
  destruct (negb _); [done|]. destruct (_ && _); [done|]. cbn [snd].
  pose proof (write_data_byte_inv d1 value prefix Hi1 Hpre) as Hwd.
  pose proof (write_command_inv d1 value prefix Hi1 Hpre) as Hwc.
  destruct Hb as [[Hr Hu] Hm Hc]. rewrite !Forall_cons in Hr.
  repeat match goal with |- context [match ?z with _ => _ end] => is_var z; destruct z
    | |- context [match port - PRIMARY_CMD_BASE with _ => _ end] => destruct (port - PRIMARY_CMD_BASE) end;
    try done; same_stage d1; (split; [|exact Hm|exact Hc]); (split; [|exact Hu]); cbn; rewrite !Forall_cons; tauto.
Qed.

Lemma read_lba_inv d l : ata_inv d -> 0 <= l -> exists s d', read_lba d l = Some (s, d') /\ ata_inv d' /\
  served (backing d) l s /\ exists c, d' = d <| cache := c |>.
Proof.
  intros Hi Hl. destruct (read_lba_spec d l (ai_coherent d Hi) Hl) as (s & c & -> & Hs & Hc & _).
  do 2 eexists. split; [done|]. split; [|split; [done|by exists c]].
  same_stage d. destruct Hi. by split.
Qed.

Lemma stored_inv d b c l s : ata_inv d -> coherent (d <| backing := b |> <| cache := c |> <| dirty := true |>) ->
  0 <= l -> length s = SECTOR -> store_write (backing d) l s = Some b ->
  ata_inv (d <| backing := b |> <| cache := c |> <| dirty := true |>).
Proof.
  intros Hi Hc Hl Hs Hw. pose proof (write_sectors_same _ _ _ _ Hl Hs Hw) as Ht.
  apply (inv_same d); try reflexivity; [|exact Ht|done]. destruct Hi. by split.
Qed.

Lemma write_lba_inv d l s : ata_inv d -> 0 <= l -> length s = SECTOR ->
  exists ok d', write_lba d l s = Some (ok, d') /\ ata_inv d' /\
    if ok : bool then exists b c, store_write (backing d) l s = Some b /\
        d' = d <| backing := b |> <| cache := c |> <| dirty := true |>
    else store_write (backing d) l s = None /\ d' = d.
Proof.
  intros Hi Hl Hs. pose proof (write_lba_spec d l s (ai_coherent d Hi) Hl Hs) as Hw.
  destruct (store_write (backing d) l s) as [b|] eqn:Ew.
  - destruct Hw as (c & -> & Hc & _). exists true. eexists. split; [done|]. split; [by apply (stored_inv d b c l s)|]. by exists b, c.
  - exists false, d. by rewrite Hw.
Qed.

Lemma read_sectors_from_inv d l n : ata_inv d -> 0 <= l -> exists s d', read_sectors_from d l n = Some (s, d') /\ ata_inv d'.
Proof.
  revert d l. induction n as [|n IH]; intros d l Hi Hl; cbn; [eauto|].
  destruct (read_lba_inv d l Hi Hl) as (s & d1 & -> & Hi1 & _). cbn [mbind option_bind].
  destruct s as [s|]; [|eauto]. destruct (IH d1 (l + 1) Hi1) as (r & d2 & -> & Hi2); [lia|]. cbn [mbind option_bind]. eauto.
Qed.

Lemma write_sectors_from_inv d l n data : ata_inv d -> 0 <= l -> (n * SECTOR <= length data)%nat ->
  exists ok d', write_sectors_from d l n data = Some (ok, d') /\ ata_inv d' /\ dma_request d' = dma_request d.
Proof.
  revert d l data. induction n as [|n IH]; intros d l data Hi Hl Hn; cbn -[SECTOR]; [eauto|].
  assert (Ht : length (take SECTOR data) = SECTOR) by (rewrite length_take; lia).
  destruct (write_lba_inv d l _ Hi Hl Ht) as (ok & d1 & -> & Hi1 & Hok). cbn [mbind option_bind].
  destruct ok; cbn [negb]; [|destruct Hok as [_ ->]; eauto]. destruct Hok as (b & c & _ & ->).
  destruct (IH _ (wrap 32 (l + 1)) (drop SECTOR data) Hi1) as (ok & d2 & E2 & Hi2 & Hd2); [|rewrite length_drop; lia|].
  - unfold wrap. apply Z.mod_pos_bound. lia.
  - rewrite E2. eauto.
Qed.

Lemma advance_dma_accept d r : base d -> buffer d = [] -> pio_sectors_remaining d = 0 -> 0 <= lba r ->
  1 <= sectors r ->
  let d' := advance_dma_task_file d r in base d' /\ buffer d' = [] /\ pio_sectors_remaining d' = 0.
Proof.
  intros Hb Hbuf Hz Hl Hn. cbv zeta. unfold advance_dma_task_file.
  set (d1 := d <| sector_count := wrap 8 (sector_count d - wrap 8 (sectors r)) |>).
  assert (Hb1 : base d1).
  { apply (base_same d); try reflexivity; [apply wrap8| | |done]; destruct Hb as [[Hr Hp] _ _]; [|exact Hp].
    rewrite !Forall_cons in Hr. tauto. }
  split; [apply task_file_base; [done|unfold saturate; lia]|].
  pose proof (task_file_same d1 (saturate 32 (lba r + sectors r))) as E. cbv zeta in E. injection E as _ E2 _ _ E5.
  cbv zeta. by rewrite E2, E5.
Qed.

Lemma dma_read_inv d bytes : ata_inv d -> ata_inv (complete_dma_read d bytes).
Proof.
  intros Hi. unfold complete_dma_read. destruct (dma_request d) as [r|] eqn:Ed; [|done].
  destruct (stage_request d r Hi Ed) as (_ & _ & _ & Hbuf & Hz & (Hl & Hn & _)). pose proof (inv_base d Hi) as [].
  destruct (_ || _); [by apply abort_inv|].
  destruct (advance_dma_accept (d <| last_access_bytes := bytes |>) r) as (Hb & Hbuf' & Hz'); try done; try lia.
  by apply complete_ok_inv.
Qed.

Lemma dma_write_inv d data : ata_inv d -> exists ok d', complete_dma_write d data = Some (ok, d') /\ ata_inv d'.
Proof.
  intros Hi. unfold complete_dma_write. destruct (dma_request d) as [r|] eqn:Ed; [|eauto].
  destruct (stage_request d r Hi Ed) as (_ & _ & _ & _ & _ & (Hl & Hn & _)).
  destruct (_ || _); [do 2 eexists; split; [done|apply abort_inv; by apply inv_base]|].
  destruct (write_sectors_from_inv d (lba r) (length data / SECTOR) data Hi Hl) as (ok & d1 & E1 & Hi1 & Hd1).
  { rewrite Nat.mul_comm. apply Nat.Div0.mul_div_le. }
  rewrite E1. cbn [mbind option_bind]. destruct ok; cbn [negb]; [|do 2 eexists; split; [done|apply abort_inv; by apply inv_base]].
  rewrite Ed in Hd1. destruct (stage_request d1 r Hi1 Hd1) as (_ & _ & _ & Hbuf & Hz & _).
  destruct (store_commit Dma (backing d1)) as [b failed] eqn:Eb. pose proof (commit_content Dma (backing d1)) as Hr.
  rewrite Eb in Hr. destruct (inv_base d1 Hi1) as [Hr1 Hm1 Hc1].
  assert (Hb : base (d1 <| backing := b |>)) by (split; [exact Hr1|exact Hm1|]; eapply coherent_reads; [| |exact Hc1]; [done|exact Hr]).
  destruct failed; [do 2 eexists; split; [done|by apply abort_inv]|].
  destruct (advance_dma_accept (d1 <| backing := b |> <| last_access_bytes := zlen data |>) r) as (Hb' & Hbuf' & Hz');
    try done; try lia; [destruct Hb; by split|].
  do 2 eexists. split; [done|]. by apply complete_ok_inv.
Qed.

(** No event panics, and each keeps the invariant. *)
Lemma disk_occur_inv e d : ata_inv d -> valid e -> exists o d', occur e d = Some (o, d') /\ ata_inv d'.
Proof.
  intros Hi Hv. pose proof (inv_base d Hi) as Hb.
  destruct e as [port prefix|port value prefix|ticks| | | | | | |l|l data|l n ata| |bytes|data|]; cbn [occur valid] in *.
  - pose proof (read_port_inv d port prefix Hi ltac:(apply Hv)) as Hr.
    destruct (read_port_at d port prefix) as [v d']. eauto.
  - pose proof (write_port_inv d port value prefix Hi ltac:(apply Hv) ltac:(apply Hv)) as Hr.
    destruct (write_port_at d port value prefix) as [v d']. eauto.
  - destruct (advance_inv d ticks Hi ltac:(apply Hv)) as (d' & -> & Hi'). cbn. eauto.
  - do 2 eexists. split; [done|]. same_stage d. destruct Hb; by split.
  - unfold note_alt_status_read. cbv zeta.
    repeat match goal with |- context [if ?b then _ else _] => destruct b | |- context [match ?x with Some _ => _ | None => _ end] => destruct x end;
      do 2 eexists; (split; [reflexivity|]); (same_stage d; destruct Hb; by split).
  - do 2 eexists. split; [done|]. same_stage d. destruct Hb; by split.
  - do 2 eexists. split; [done|]. same_stage d. destruct Hb; by split.
  - do 2 eexists. split; [done|]. same_stage d. destruct Hb; by split.
  - do 2 eexists. split; [done|]. same_stage d. destruct Hb; by split.
  - destruct (read_lba_inv d l Hi ltac:(apply Hv)) as (s & d' & -> & Hi' & _). cbn. eauto.
  - destruct Hv as [[Hl _] Hs]. destruct (write_lba_inv d l data Hi Hl Hs) as (ok & d' & -> & Hi' & _). cbn. eauto.
  - unfold charge_pio_transfer. cbv zeta. do 2 eexists. split; [done|]. destruct (_ && _); [|done].
    same_stage d. destruct Hb; by split.
  - unfold read_dma_payload. destruct (dma_request d) as [r|] eqn:Ed; [|cbn; eauto]. case_decide; [|cbn; eauto].
    destruct (stage_request d r Hi Ed) as (_ & _ & _ & _ & _ & (Hl & _)).
    destruct (read_sectors_from_inv d (lba r) (Z.to_nat (sectors r)) Hi Hl) as (s & d' & -> & Hi'). cbn. eauto.
  - do 2 eexists. split; [done|]. by apply dma_read_inv.
  - destruct (dma_write_inv d data Hi) as (ok & d' & -> & Hi'). cbn. eauto.
  - do 2 eexists. split; [done|]. unfold abort_dma. destruct (dma_request d); [by apply abort_inv|done].
Qed.

Lemma run_inv es d : ata_inv d -> Forall valid es -> exists os d', run es d = Some (os, d') /\ ata_inv d'.
Proof.
  intros Hi Hv. revert d Hi. induction Hv as [|e es He _ IH]; intros d Hi; cbn; [eauto|].
  destruct (disk_occur_inv e d Hi He) as (o & d1 & -> & Hi1). cbn [mbind option_bind].
  destruct (IH d1 Hi1) as (os & d2 & -> & Hi2). cbn [mbind option_bind]. eauto.
Qed.

Lemma with_backing_inv en (b : B) total : ata_inv (with_backing en b total).
Proof.
  split.
  - split; [|split; cbn; lia]. cbn. rewrite !Forall_cons. unfold in_width, SECTORS_PER_TRACK, HEADS. repeat split; (lia || constructor).
  - cbn. lia.
  - by apply idle_fits.
  - cbn. auto.
  - intros E. exists [], []. split; [|by intros ? ? ?%elem_of_nil]. cbn in E |- *. subst en. apply new_repr.
Qed.

End Preservation.

End Protocol.

Module Transparent.
Import Protocol.

Section Twins.
Context {B : Type} `{ContentLaws B}.
Implicit Types d : AtaDisk B.

(** The same disk around another sector cache. *)
Definition recached (c : SectorCache) d : AtaDisk B := d <| cache := c |>.

Definition on_snd {A} (c : SectorCache) (p : A * AtaDisk B) : A * AtaDisk B := (p.1, recached c p.2).

Ltac both := cbn; repeat match goal with
  | |- context [if ?b then _ else _] => destruct b
  | |- context [match ?x with Some _ => _ | None => _ end] => destruct x as [?|]
  | |- context [match ?x with pair _ _ => _ end] => destruct x as [? ?]
  end; try reflexivity.

Lemma recached_task_file c d l : set_task_file_address (recached c d) l = recached c (set_task_file_address d l).
Proof. destruct d; unfold set_task_file_address, lba_mode; both. Qed.

Lemma recached_advance_pio c d : advance_pio_task_file (recached c d) = recached c (advance_pio_task_file d).
Proof. unfold advance_pio_task_file. cbv zeta. rewrite <- recached_task_file. reflexivity. Qed.

Lemma recached_advance_dma c d r : advance_dma_task_file (recached c d) r = recached c (advance_dma_task_file d r).
Proof. unfold advance_dma_task_file. cbv zeta. rewrite <- recached_task_file. reflexivity. Qed.

Lemma recached_command c d v p : write_command (recached c d) v p = recached c (write_command d v p).
Proof.
  unfold write_command, read_sectors, write_sectors, pio_sectors, begin_dma.
  change (command_lba (recached c d)) with (command_lba d). change (total_sectors (recached c d)) with (total_sectors d).
  change (master_selected (recached c d)) with (master_selected d). change (phase (recached c d)) with (phase d).
  change (pending_command (recached c d)) with (pending_command d). change (dma_request (recached c d)) with (dma_request d).
  change (dma_mode (recached c d)) with (dma_mode d).
  destruct (command_lba d) as [[? ?]|], (bytes_per_second_of (dma_mode d)); cbv zeta;
  repeat match goal with |- context [if ?b then _ else _] => destruct b end; reflexivity.
Qed.

Lemma recached_drained c d p : sector_drained (recached c d) p = recached c (sector_drained d p).
Proof.
  unfold sector_drained. cbv zeta.
  change ((recached c d) <| phase := Idle |> <| buffer := [] |> <| buffer_pos := 0%nat |>)
    with (recached c (d <| phase := Idle |> <| buffer := [] |> <| buffer_pos := 0%nat |>)).
  generalize (d <| phase := Idle |> <| buffer := [] |> <| buffer_pos := 0%nat |>). intros e.
  change (pio_sectors_remaining (recached c e)) with (pio_sectors_remaining e).
  destruct (0 <? pio_sectors_remaining e).
  - change ((recached c e) <| pio_sectors_remaining := pio_sectors_remaining e - 1 |>)
      with (recached c (e <| pio_sectors_remaining := pio_sectors_remaining e - 1 |>)).
    rewrite recached_advance_pio. generalize (advance_pio_task_file (e <| pio_sectors_remaining := pio_sectors_remaining e - 1 |>)).
    intros f. change (pio_sectors_remaining (recached c f)) with (pio_sectors_remaining f). by destruct (0 <? _).
  - change (pio_sectors_remaining (recached c e)) with (pio_sectors_remaining e). by destruct (0 <? _).
Qed.

Lemma recached_read_byte c d p : ata_inv d -> ata_inv (recached c d) ->
  read_data_byte (recached c d) p = on_snd c (read_data_byte d p).
Proof.
  intros Hd Hc. destruct (decide (phase d = DataIn)) as [Hp|Hp].
  - destruct (read_data_byte_spec d p Hd Hp) as (b1 & Hb1 & ->).
    destruct (read_data_byte_spec (recached c d) p Hc Hp) as (b2 & Hb2 & ->).
    change (buffer d !! buffer_pos d = Some b2) in Hb2. rewrite Hb1 in Hb2. injection Hb2 as <-.
    change (buffer_pos (recached c d)) with (buffer_pos d). unfold on_snd. cbn [fst snd]. f_equal.
    destruct (_ =? _)%nat; [|reflexivity]. by rewrite <- recached_drained.
  - unfold read_data_byte. change (phase (recached c d)) with (phase d). by rewrite !bool_decide_eq_false_2.
Qed.

Lemma recached_write_byte c d v p : ata_inv d -> ata_inv (recached c d) ->
  write_data_byte (recached c d) v p = recached c (write_data_byte d v p).
Proof.
  intros Hd Hc. destruct (decide (phase d = DataOut)) as [Hp|Hp].
  - rewrite (write_data_byte_spec d v p Hd Hp), (write_data_byte_spec (recached c d) v p Hc Hp). cbv zeta.
    change (buffer_pos (recached c d)) with (buffer_pos d). by destruct (_ =? _)%nat.
  - unfold write_data_byte. change (phase (recached c d)) with (phase d). by rewrite !bool_decide_eq_false_2.
Qed.

Lemma recached_read_port c d port p : ata_inv d -> ata_inv (recached c d) ->
  read_port_at (recached c d) port p = on_snd c (read_port_at d port p).
Proof.
  intros Hd Hc. unfold read_port_at. destruct (port =? _); [done|]. destruct (negb _); [done|]. cbv zeta.
  assert (Hi : forall e, ata_inv e -> ata_inv (reset_alt_status_run e)).
  { intros e He. apply (inv_same e); try reflexivity; [|done]. destruct (inv_base e He). by split. }
  pose proof (recached_read_byte c (reset_alt_status_run d) p (Hi _ Hd) (Hi _ Hc)) as Hr.
  change (reset_alt_status_run (recached c d)) with (recached c (reset_alt_status_run d)). rewrite Hr.
  destruct (read_data_byte (reset_alt_status_run d) p). unfold on_snd. cbn [fst snd].
  repeat match goal with |- context [match ?z with _ => _ end] => is_var z; destruct z
    | |- context [match port - PRIMARY_CMD_BASE with _ => _ end] => destruct (port - PRIMARY_CMD_BASE) end; reflexivity.
Qed.

Lemma recached_write_port c d port v p : ata_inv d -> ata_inv (recached c d) ->
  write_port_at (recached c d) port v p = on_snd c (write_port_at d port v p).
Proof.
  intros Hd Hc. unfold write_port_at. cbv zeta.
  assert (Hi : forall e, ata_inv e -> ata_inv (block_poll_skip (reset_alt_status_run e))).
  { intros e He. apply (inv_same e); try reflexivity; [|done]. destruct (inv_base e He). by split. }
  apply Hi in Hd, Hc.
  change (block_poll_skip (reset_alt_status_run (recached c d))) with (recached c (block_poll_skip (reset_alt_status_run d))) in *.
  revert Hd Hc. generalize (block_poll_skip (reset_alt_status_run d)). intros e Hd Hc. destruct (port =? _).
  { destruct (has v 4); reflexivity. }
  destruct (negb _); [done|]. change (status (recached c e)) with (status e). destruct (_ && _); [done|].
  rewrite recached_write_byte, recached_command by done. unfold on_snd. cbn [fst snd]. f_equal.
  repeat match goal with |- context [match ?z with _ => _ end] => is_var z; destruct z
    | |- context [match port - PRIMARY_CMD_BASE with _ => _ end] => destruct (port - PRIMARY_CMD_BASE) end; reflexivity.
Qed.

(** The two disks of a step: same answer, and again the same but for the cache. *)
Definition twins {A} (r1 r2 : option (A * AtaDisk B)) : Prop :=
  exists a d c, r1 = Some (a, d) /\ r2 = Some (a, recached c d).

Lemma twins_pure {A} c (p : A * AtaDisk B) : twins (Some p) (Some (on_snd c p)).
Proof. destruct p as [a d]. by exists a, d, c. Qed.

Lemma read_lba_twins c d l : ata_inv d -> ata_inv (recached c d) -> reads_content (backing d) -> 0 <= l ->
  twins (read_lba d l) (read_lba (recached c d) l).
Proof.
  intros Hd Hc Hb Hl. destruct (read_lba_inv d l Hd Hl) as (s1 & d1 & -> & _ & H1 & c1 & ->).
  destruct (read_lba_inv _ l Hc Hl) as (s2 & d2 & -> & _ & H2 & c2 & ->).
  rewrite (served_content _ _ _ Hb Hl H1). change (backing (recached c d)) with (backing d) in H2.
  rewrite (served_content _ _ _ Hb Hl H2).
  exists (store_content (backing d) l), (d <| cache := c1 |>), c2. split; reflexivity.
Qed.

Lemma write_lba_twins c d l s : ata_inv d -> ata_inv (recached c d) -> 0 <= l -> length s = SECTOR ->
  twins (write_lba d l s) (write_lba (recached c d) l s).
Proof.
  intros Hd Hc Hl Hs. pose proof (write_lba_spec d l s (ai_coherent d Hd) Hl Hs) as H1.
  pose proof (write_lba_spec (recached c d) l s (ai_coherent _ Hc) Hl Hs) as H2.
  change (backing (recached c d)) with (backing d) in H2. destruct (store_write (backing d) l s) as [b|].
  - destruct H1 as (c1 & -> & _), H2 as (c2 & -> & _).
    exists true, (d <| backing := b |> <| cache := c1 |> <| dirty := true |>), c2. split; reflexivity.
  - rewrite H1, H2. by exists false, d, c.
Qed.

Lemma recached_after_commit c d : after_commit (recached c d) = recached c (after_commit d).
Proof.
  unfold after_commit. change (pio_sectors_remaining (recached c d)) with (pio_sectors_remaining d).
  destruct (0 <? _); [reflexivity|]. cbv zeta.
  change (backing ((recached c d) <| phase := Idle |> <| status := READY |> <| error := 0 |>)) with (backing d).
  change (backing (d <| phase := Idle |> <| status := READY |> <| error := 0 |>)) with (backing d).
  destruct (store_commit Pio (backing d)) as [b []]; reflexivity.
Qed.

Lemma commit_twins c d : base d -> base (recached c d) -> 0 < pio_sectors_remaining d -> fits d ->
  length (buffer d) = SECTOR -> exists e c', commit_write_sector d = Some e /\ commit_write_sector (recached c d) = Some (recached c' e).
Proof.
  intros Hd Hc Hn Hf Hl. destruct (commit_write_spec d Hd Hn Hf Hl) as (b & c1 & Hw & H1). cbv zeta in H1.
  destruct H1 as (_ & _ & ->).
  destruct (commit_write_spec (recached c d) Hc Hn Hf Hl) as (b2 & c2 & Hw2 & H2). cbv zeta in H2.
  destruct H2 as (_ & _ & ->). change (store_write (backing d) (pio_lba d) (buffer d) = Some b2) in Hw2.
  rewrite Hw in Hw2. injection Hw2 as <-. eexists _, c2. split; [reflexivity|]. f_equal.
  rewrite <- recached_after_commit, <- recached_advance_pio. reflexivity.
Qed.

Lemma finish_twins c d p : ata_inv d -> ata_inv (recached c d) -> reads_content (backing d) -> pending_command d = Some p ->
  exists e c', finish_pending (d <| pending_command := None |>) (action p) = Some e /\
    finish_pending ((recached c d) <| pending_command := None |>) (action p) = Some (recached c' e).
Proof.
  intros Hd Hc Hbk Hp. destruct (inv_base d Hd) as [Hr Hm Hco]. destruct (inv_base _ Hc) as [Hr2 Hm2 Hco2].
  pose proof (ai_fits _ Hd) as Hf. pose proof (ai_stage _ Hd) as Hs. unfold stage_ok in Hs. rewrite Hp in Hs.
  destruct (dma_request d) eqn:Ed; [done|]. destruct (phase d) eqn:Eph; [|done..].
  destruct Hs as (_ & _ & Ha). unfold finish_pending.
  change (reset_alt_status_run ((recached c d) <| pending_command := None |>))
    with (recached c (reset_alt_status_run (d <| pending_command := None |>))).
  set (e := reset_alt_status_run (d <| pending_command := None |>)).
  assert (Hb : base e) by by split. assert (Hb2 : base (recached c e)) by by split.
  destruct (action p) as [| | | | | |sct hd|ft md| | |]; cbn in Ha;
    try (eexists _, c; split; reflexivity).
  - destruct Ha as [_ Hn]. destruct (prepare_read_spec e Hb Hn Hf) as (s & c1 & Hs1 & _ & _ & ->).
    destruct (prepare_read_spec (recached c e) Hb2 Hn Hf) as (s2 & c2 & Hs2 & _ & _ & ->).
    assert (Hl : 0 <= pio_lba e) by (destruct Hf as [_ Hf]; apply Hf; exact Hn).
    change (served (backing e) (pio_lba e) (Some s2)) in Hs2.
    apply (served_content (backing e)) in Hs1, Hs2; try done. rewrite <- Hs1 in Hs2. injection Hs2 as ->.
    eexists _, c2. split; reflexivity.
  - destruct Ha as [Hl Hn]. by apply commit_twins.
  - eexists _, c. split; [reflexivity|]. f_equal. unfold apply_set_features.
    repeat match goal with |- context [if ?b then _ else _] => destruct b end; reflexivity.
  - change (backing (recached c e)) with (backing e). destruct (store_flush (backing e)) as [b failed].
    eexists _, c. split; [reflexivity|]. by destruct failed.
Qed.

Lemma advance_twins c d ticks : ata_inv d -> ata_inv (recached c d) -> reads_content (backing d) ->
  exists e c', advance_master_ticks d ticks = Some e /\ advance_master_ticks (recached c d) ticks = Some (recached c' e).
Proof.
  intros Hd Hc Hb. unfold advance_master_ticks. change (pending_command (recached c d)) with (pending_command d).
  destruct (pending_command d) as [p|] eqn:Ep; [|by exists d, c].
  destruct (ticks <? ticks_remaining p); [eexists _, c; split; reflexivity|]. by apply finish_twins.
Qed.

Lemma read_sectors_twins c d l n : ata_inv d -> ata_inv (recached c d) -> reads_content (backing d) -> 0 <= l ->
  twins (read_sectors_from d l n) (read_sectors_from (recached c d) l n).
Proof.
  revert c d l. induction n as [|n IH]; intros c d l Hd Hc Hb Hl; cbn [read_sectors_from]; [by exists (Some []), d, c|].
  destruct (read_lba_inv d l Hd Hl) as (s1 & d1 & E1 & Hi1 & _ & k1 & Hk1).
  destruct (read_lba_inv _ l Hc Hl) as (s2 & d2 & E2 & Hi2 & _).
  destruct (read_lba_twins c d l Hd Hc Hb Hl) as (s & e & c' & F1 & F2). rewrite E1 in F1. rewrite E2 in F2.
  injection F1 as -> ->. injection F2 as -> ->. rewrite E1, E2. cbn [mbind option_bind].
  destruct s as [s|]; [|by exists None, e, c'].
  destruct (IH c' e (l + 1) Hi1 Hi2 ltac:(by rewrite Hk1) ltac:(lia)) as (r & f & c2 & -> & ->). cbn [mbind option_bind]. by do 3 eexists.
Qed.

Lemma write_sectors_twins c d l n data : ata_inv d -> ata_inv (recached c d) -> 0 <= l -> (n * SECTOR <= length data)%nat ->
  twins (write_sectors_from d l n data) (write_sectors_from (recached c d) l n data).
Proof.
  revert c d l data. induction n as [|n IH]; intros c d l data Hd Hc Hl Hn; cbn [write_sectors_from]; [by exists true, d, c|].
  assert (Ht : length (take SECTOR data) = SECTOR) by (rewrite length_take; lia).
  destruct (write_lba_inv d l _ Hd Hl Ht) as (s1 & d1 & E1 & Hi1 & _).
  destruct (write_lba_inv _ l _ Hc Hl Ht) as (s2 & d2 & E2 & Hi2 & _).
  destruct (write_lba_twins c d l _ Hd Hc Hl Ht) as (s & e & c' & F1 & F2). rewrite E1 in F1. rewrite E2 in F2.
  injection F1 as -> ->. injection F2 as -> ->. rewrite E1, E2. cbn [mbind option_bind].
  destruct s; cbn [negb]; [|by exists false, e, c'].
  apply IH; [done|done| |rewrite length_drop; lia]. unfold wrap. apply Z.mod_pos_bound. lia.
Qed.

Lemma recached_dma_done c d e r : e = recached c d ->
  complete_ok (advance_dma_task_file e r) = recached c (complete_ok (advance_dma_task_file d r)).
Proof. intros ->. rewrite recached_advance_dma. generalize (advance_dma_task_file d r). reflexivity. Qed.

Lemma dma_write_twins c d data : ata_inv d -> ata_inv (recached c d) ->
  twins (complete_dma_write d data) (complete_dma_write (recached c d) data).
Proof.
  intros Hd Hc. unfold complete_dma_write. change (dma_request (recached c d)) with (dma_request d).
  destruct (dma_request d) as [r|] eqn:Ed; [|by exists false, d, c].
  destruct (stage_request d r Hd Ed) as (_ & _ & _ & _ & _ & (Hl & _)).
  destruct (_ || _); [by exists false, (abort d), c|].
  destruct (write_sectors_twins c d (lba r) (length data / SECTOR) data Hd Hc Hl) as (ok & e & c' & -> & ->).
  { rewrite Nat.mul_comm. apply Nat.Div0.mul_div_le. }
  cbn [mbind option_bind]. destruct ok; cbn [negb]; [|by exists false, (abort e), c'].
  change (backing (recached c' e)) with (backing e). destruct (store_commit Dma (backing e)) as [b failed].
  destruct failed; [eexists false, _, c'; split; reflexivity|]. eexists true, _, c'. split; [reflexivity|].
  do 2 f_equal. apply recached_dma_done. reflexivity.
Qed.

(** One event, with and without the cache. *)
Lemma occur_twins c d e : ata_inv d -> ata_inv (recached c d) -> reads_content (backing d) -> valid e -> twins (occur e d) (occur e (recached c d)).
Proof.
  intros Hd Hc Hb Hv.
  destruct e as [port prefix|port value prefix|ticks| | | | | | |l|l data|l n ata| |bytes|data|]; cbn [occur valid] in *;
    try (eexists _, _, c; split; reflexivity).
  - rewrite recached_read_port by done. destruct (read_port_at d port prefix) as [v e]. by exists (Byte v), e, c.
  - rewrite recached_write_port by done. destruct (write_port_at d port value prefix) as [v e]. by exists (Flag v), e, c.
  - destruct (advance_twins c d ticks Hd Hc Hb) as (e & c' & -> & ->). by exists Nothing, e, c'.
  - unfold note_alt_status_read, ticks_until_completion. change (pending_command (recached c d)) with (pending_command d).
    change (poll_skip_blocked (recached c d)) with (poll_skip_blocked d). cbv zeta.
    change (alt_status_run (recached c d)) with (alt_status_run d).
    destruct (pending_command d) as [p|] eqn:Ep; [|eexists _, _, c; split; reflexivity].
    destruct (poll_skip_blocked d); [eexists _, _, c; split; reflexivity|].
    set (x := d <| alt_status_run := saturate 32 (alt_status_run d + 1) |>).
    change ((recached c d) <| alt_status_run := saturate 32 (alt_status_run d + 1) |>) with (recached c x).
    change (alt_status_run (recached c x)) with (alt_status_run x).
    change (poll_run_threshold (recached c x)) with (poll_run_threshold x).
    change (pending_command (recached c x)) with (pending_command x).
    change (poll_floor_ticks (recached c x)) with (poll_floor_ticks x).
    destruct (_ <? _); [eexists _, _, c; split; reflexivity|].
    destruct (match ticks_remaining <$> pending_command x with Some _ => _ | None => _ end); eexists _, _, c; split; reflexivity.
  - destruct (read_lba_twins c d l Hd Hc Hb ltac:(apply Hv)) as (s & e & c' & -> & ->). by exists (Data s), e, c'.
  - destruct Hv as [[Hl _] Hs]. destruct (write_lba_twins c d l data Hd Hc Hl Hs) as (s & e & c' & -> & ->). by exists (Flag s), e, c'.
  - unfold charge_pio_transfer. cbv zeta.
    change (pio_transfer_breakdown (recached c d) l n ata) with (pio_transfer_breakdown d l n ata).
    destruct (_ && _); eexists _, _, c; split; reflexivity.
  - unfold read_dma_payload. change (dma_request (recached c d)) with (dma_request d).
    destruct (dma_request d) as [r|] eqn:Ed; [|by eexists _, d, c].
    destruct (stage_request d r Hd Ed) as (_ & _ & _ & _ & _ & (Hl & _)).
    case_decide; [|by eexists _, d, c].
    destruct (read_sectors_twins c d (lba r) (Z.to_nat (sectors r)) Hd Hc Hb Hl) as (s & e & c' & -> & ->). by exists (Data s), e, c'.
  - unfold complete_dma_read. change (dma_request (recached c d)) with (dma_request d).
    destruct (dma_request d) as [r|]; [|by eexists _, d, c]. destruct (_ || _); [by eexists _, (abort d), c|].
    eexists _, _, c. split; [reflexivity|]. do 2 f_equal.
    apply recached_dma_done. reflexivity.
  - destruct (dma_write_twins c d data Hd Hc) as (s & e & c' & -> & ->). by exists (Flag s), e, c'.
  - unfold abort_dma. change (dma_request (recached c d)) with (dma_request d). destruct (dma_request d); eexists _, _, c; split; reflexivity.
Qed.

Lemma run_twins es c d : (forall b : B, reads_content b) -> ata_inv d -> ata_inv (recached c d) -> Forall valid es -> twins (run es d) (run es (recached c d)).
Proof.
  intros Hb Hd Hc Hv. revert c d Hd Hc. induction Hv as [|e es He _ IH]; intros c d Hd Hc; cbn [run]; [by exists [], d, c|].
  destruct (disk_occur_inv e d Hd He) as (o1 & d1 & E1 & Hi1). destruct (disk_occur_inv e _ Hc He) as (o2 & d2 & E2 & Hi2).
  destruct (occur_twins c d e Hd Hc (Hb _) He) as (o & f & c' & F1 & F2). rewrite E1 in F1. rewrite E2 in F2.
  injection F1 as -> ->. injection F2 as -> ->. rewrite E1, E2. cbn [mbind option_bind].
  destruct (IH c' f Hi1 Hi2) as (os & g & c2 & -> & ->). cbn [mbind option_bind]. by do 3 eexists.
Qed.

(** What happens to a disk over a store whose host side comes and goes: an event of the guest, or a
    change of the host that leaves the content as it is. *)
Inductive disk_step : AtaDisk B -> AtaDisk B -> Prop :=
| GuestStep e o d d' : valid e -> occur e d = Some (o, d') -> disk_step d d'
| HostStep d b : store_sectors b = store_sectors (backing d) ->
    (forall k, store_content b k = store_content (backing d) k) -> disk_step d (d <| backing := b |>).

Lemma disk_steps_inv d d' : rtc disk_step d d' -> ata_inv d -> ata_inv d'.
Proof.
  induction 1 as [d|d d1 d2 Hstep _ IH]; intros Hi; [done|]. apply IH. clear IH.
  destruct Hstep as [e o d d' Hv E|d b Hn Hk].
  - destruct (disk_occur_inv e d Hi Hv) as (o1 & d1 & E1 & Hi1). rewrite E in E1. injection E1 as <- <-. done.
  - apply (inv_same d); try reflexivity; [|exact Hn|done]. destruct (inv_base d Hi) as [Hr Hm Hc].
    split; [exact Hr|exact Hm|]. eapply coherent_reads; [| |exact Hc]; [done|exact Hk].
Qed.

Lemma uncached_inv d : ata_inv d -> ata_inv (recached (Cache.new false) d).
Proof.
  intros Hi. apply (inv_same d); try reflexivity; [|done]. destruct (inv_base d Hi) as [Hr Hm Hc].
  split; [exact Hr|exact Hm|]. intros E. cbn in E. congruence.
Qed.

End Twins.

End Transparent.

Module Reachable.
Import Image Protocol Transparent.

Section Claims.
Context {B : Type} `{ContentLaws B}.

Lemma protocol_facts (d : AtaDisk B) : ata_inv d ->
  has (status d) BSY = bool_decide (is_Some (pending_command d)) || bool_decide (is_Some (dma_request d)) /\
  has (status d) DRQ = negb (bool_decide (phase d = Idle)) /\
  (phase d <> Idle -> length (buffer d) = SECTOR /\ (buffer_pos d < SECTOR)%nat) /\
  (0 < pio_sectors_remaining d -> 0 <= pio_lba d /\ pio_lba d + pio_sectors_remaining d <= total_sectors d) /\
  (forall p, pending_command d = Some p -> 1 <= ticks_remaining p) /\
  (forall r, dma_request d = Some r -> 0 <= lba r /\ lba r + sectors r <= total_sectors d).
Proof.
  intros Hi. pose proof (ai_stage d Hi) as Hs. pose proof (proj2 (ai_fits d Hi)) as Hf. unfold stage_ok in Hs.
  destruct (pending_command d) as [p|], (dma_request d) as [r|]; try done; destruct (phase d); try done.
  - destruct Hs as (-> & Ht & _). repeat split; try done; try (by apply Hf); try congruence. intros p' [= <-]. lia.
  - destruct Hs as (-> & _ & _ & (Hl & _ & Hr & _)).
    repeat split; try done; try (by apply Hf); try congruence; match goal with HE : Some _ = Some _ |- _ => injection HE as <- end; done.
  - destruct Hs as ([-> |[-> _]] & _); (repeat split; try done; by apply Hf).
  - destruct Hs as (-> & ? & ?). repeat split; try done; by apply Hf.
  - destruct Hs as (-> & ? & ? & ?). repeat split; try done; by apply Hf.
Qed.

(** C18.  The register protocol of the disk, for every sequence of port accesses, clock advances, BIOS
    transfers and bus-master steps from power-on, over any store that has a content, its reads degraded or not: no
    step panics, and in the state reached BSY is set exactly while a command or a DMA request
    is pending and DRQ exactly in a data phase, the data port is inside a full 512-byte
    buffer, every pending command has a deadline ahead of it, and the sectors still to be
    transferred lie on the disk. *)
Theorem disk_protocol (es : list Event) (cached : bool) (b : B) (total : Z) (Hv : Forall valid es) :
  exists os d, run es (with_backing cached b total) = Some (os, d) /\
  has (status d) BSY = bool_decide (is_Some (pending_command d)) || bool_decide (is_Some (dma_request d)) /\
  has (status d) DRQ = negb (bool_decide (phase d = Idle)) /\
  (phase d <> Idle -> length (buffer d) = SECTOR /\ (buffer_pos d < SECTOR)%nat) /\
  (0 < pio_sectors_remaining d -> 0 <= pio_lba d /\ pio_lba d + pio_sectors_remaining d <= total_sectors d) /\
  (forall p, pending_command d = Some p -> 1 <= ticks_remaining p) /\
  (forall r, dma_request d = Some r -> 0 <= lba r /\ lba r + sectors r <= total_sectors d).
Proof.
  destruct (run_inv es _ (with_backing_inv cached b total) Hv) as (os & d & E & Hi).
  exists os, d. split; [exact E|by apply protocol_facts].
Qed.

(** C25.  The host-side sector cache never shows, over any store that has a content, degraded reads
    included.  From power-on with the cache enabled, through any valid guest events and any host
    changes that leave size and content as they are, no event panics, and a sector read gives
    the content of the sector or, only while the store's read of it is degraded, the
    fallback bytes of that moment: no fallback is remembered.  As soon as the store again reads its content, the disk
    answers every event as it would without the cache and ends in the same state but for the
    cache.  Over a store whose reads are always its content, as the image's are, whole histories with
    and without the cache give the same answers and the same final state but for the cache. *)
Theorem sector_cache_transparent (b : B) (total : Z) :
  (forall d, rtc disk_step (with_backing true b total) d ->
    (forall e, valid e -> is_Some (occur e d)) /\
    (forall lba, 0 <= lba -> exists s d', read_lba d lba = Some (s, d') /\
      (s = store_content (backing d) lba \/ exists f, store_read (backing d) lba = Some (f, true) /\ s = Some f)) /\
    (reads_content (backing d) -> forall e, valid e -> exists o d' c,
      occur e d = Some (o, d') /\ occur e (d <| cache := Cache.new false |>) = Some (o, d' <| cache := c |>))) /\
  ((forall b' : B, reads_content b') -> forall es, Forall valid es -> exists os d c,
    run es (with_backing true b total) = Some (os, d) /\
    run es (with_backing false b total) = Some (os, d <| cache := c |>)).
Proof.
  split.
  - intros d Hd. pose proof (disk_steps_inv _ _ Hd (with_backing_inv true b total)) as Hi.
    split; [|split].
    + intros e He. destruct (disk_occur_inv e d Hi He) as (o & d' & -> & _). by eexists.
    + intros lba Hl. destruct (read_lba_inv d lba Hi Hl) as (s & d' & -> & _ & Hs & _). by exists s, d'.
    + intros Hb e He. exact (occur_twins (Cache.new false) d e Hi (uncached_inv d Hi) Hb He).
  - intros Hb es Hv. exact (run_twins es (Cache.new false) (with_backing true b total) Hb (with_backing_inv true b total)
      (with_backing_inv false b total) Hv).
Qed.

End Claims.

(** Two sectors; READ SECTORS, the wait, a byte, a reset in the middle of the sector. *)
Definition sample_events : list Event :=
  [WritePort 498 1 0; WritePort 499 1 0; WritePort 502 224 0; WritePort 503 32 0; ReadPort 1014 0; Advance 1;
   ReadPort 496 0; ServiceWrite 0 (replicate SECTOR 7); ServiceRead 0; WritePort 1014 4 0; ReadPort 503 0].

Lemma sample_valid : Forall valid sample_events.
Proof. repeat constructor; cbn; try lia; apply length_replicate. Qed.

Lemma disk_protocol_witness : exists os d, run sample_events (with_backing true (replicate 1024 0) 2) = Some (os, d)
  /\ has (status d) BSY = bool_decide (is_Some (pending_command d)) || bool_decide (is_Some (dma_request d)).
Proof.
  destruct (disk_protocol sample_events true (replicate 1024 0) 2 sample_valid) as (os & d & E & Hb & _).
  exists os, d. exact (conj E Hb).
Defined.

(** An image on a medium that may be away: while it is, every sector reads as zeros, degraded. *)
Record Medium := mkMedium { content : list Z; away : bool }.

#[export] Instance medium_store : SectorStore Medium := {
  store_sectors := fun m => image_sectors (content m);
  store_read := fun m lba =>
    (fun p => if away m then (replicate SECTOR 0, true) else p) <$> image_read (content m) lba;
  store_write := fun m lba data => (fun image => mkMedium image (away m)) <$> image_write (content m) lba data;
  store_commit := fun _ m => (m, away m);
  store_flush := fun m => (m, away m)
}.

Lemma medium_written m lba data m' : store_write m lba data = Some m' ->
  store_write (content m) lba data = Some (content m') /\ away m' = away m.
Proof. cbn. destruct (image_write (content m) lba data); cbn; [by intros [= <-]|done]. Qed.

#[export] Instance medium_laws : ContentLaws Medium.
Proof.
  refine {| store_content := fun m lba => store_content (content m) lba |}.
  - split.
    + intros m. exact (sectors_bound (content m)).
    + intros m lba Hl. change (0 <= lba < store_sectors (content m)) in Hl. destruct (read_in_range (content m) lba Hl) as (s & dg & E & Hs).
      change (image_read (content m) lba = Some (s, dg)) in E. cbn -[SECTOR replicate]. rewrite E. cbn -[SECTOR replicate].
      destruct (away m); do 2 eexists; (split; [reflexivity|]); [apply length_replicate|done].
    + intros m lba s Hl Hs. change (0 <= lba < store_sectors (content m)) in Hl. destruct (write_in_range (content m) lba s Hl Hs) as (i & E).
      change (image_write (content m) lba s = Some i) in E. cbn. rewrite E. by eexists.
    + intros m lba s m' Hl Hs [Hw _]%medium_written. exact (write_sectors_same (content m) lba s _ Hl Hs Hw).
    + done.
    + done.
  - intros m lba. pose proof (content_served (content m) lba) as Hc.
    change (store_read (content m) lba) with (image_read (content m) lba) in Hc. cbn [store_read medium_store].
    destruct (image_read (content m) lba) as [[s dg]|] eqn:E; [|exact Hc]. cbn.
    destruct (away m), dg; try exact Hc; rewrite ?Hc; by eexists.
  - intros m lba Hl. change (0 <= lba < store_sectors (content m)) in Hl. exact (content_in_range (content m) lba Hl).
  - intros m lba s m' Hl Hs [Hw _]%medium_written. exact (write_content_same (content m) lba s _ Hl Hs Hw).
  - intros m lba k s m' Hl Hk Hs Hne [Hw _]%medium_written.
    exact (write_content_other (content m) lba k s _ Hl Hk Hs Hne Hw).
  - done.
  - done.
Defined.

(** The medium is away at power-on, the guest reads sector 1, and the medium comes back. *)
Definition medium : Medium := mkMedium (replicate SECTOR 5 ++ replicate SECTOR 9) true.
Definition faulted : AtaDisk Medium :=
  from_option snd (with_backing true medium 2) (occur (ServiceRead 1) (with_backing true medium 2)).
Definition recovered : AtaDisk Medium := faulted <| backing := mkMedium (content medium) false |>.

Lemma recovered_reachable : rtc disk_step (with_backing true medium 2) recovered.
Proof.
  eapply rtc_l; [apply (GuestStep (ServiceRead 1) (Data (Some (replicate SECTOR 0))) _ faulted); [split; [lia|reflexivity]|]|].
  - vm_compute. reflexivity.
  - apply rtc_once. by apply (HostStep faulted).
Qed.

Lemma sector_cache_transparent_witness :
  (exists d', read_lba recovered 1 = Some (Some (replicate SECTOR 9), d')) /\
  (exists os d c, run sample_events (with_backing true (replicate 1024 0) 2) = Some (os, d) /\
    run sample_events (with_backing false (replicate 1024 0) 2) = Some (os, d <| cache := c |>)).
Proof.
  split.
  - destruct (proj1 (proj2 (proj1 (sector_cache_transparent medium 2) recovered recovered_reachable)) 1 ltac:(lia))
      as (s & d' & E & [->|(f & Hf & ->)]); exists d'; [exact E|]. vm_compute in Hf. discriminate Hf.
  - refine (proj2 (sector_cache_transparent (replicate 1024 0) 2) _ sample_events sample_valid).
    intros b lba s dg _ E. pose proof (content_served b lba) as Hc. rewrite E in Hc.
    destruct dg; [|exact Hc]. change (image_read b lba = Some (s, true)) in E.
    unfold image_read in E. by destruct (slice _ _ _).
Defined.

End Reachable.
