(* ===== verification/AtaPio.v ===== *)
(** * The ATA disk: what a transfer through the ports does

    The scripts a driver runs against the task file, and what the machine gets: READ SECTORS
    delivers the addressed sectors, WRITE SECTORS stores them and nothing else. *)

From S2P Require Import Prelude SectorCache Ata AtaInv.
Import SectorCache.Cache Disk Protocol.

Module Pio.

(** Program an LBA28 address and a count into the task file. *)
Definition address_script (lba n : Z) : list Event :=
  [WritePort 502 (Z.lor 224 (Z.land (Z.shiftr lba 24) 15)) 0; WritePort 498 (wrap 8 n) 0;
   WritePort 499 (wrap 8 lba) 0; WritePort 500 (wrap 8 (Z.shiftr lba 8)) 0; WritePort 501 (wrap 8 (Z.shiftr lba 16)) 0].

(** Wait, then take the 512 bytes of one sector from the data port. *)
Definition take_sector (wait : Z) : list Event := Advance wait :: replicate SECTOR (ReadPort 496 0).

(** READ SECTORS with one wait per sector. *)
Definition read_script (lba n : Z) (waits : list Z) : list Event :=
  address_script lba n ++ WritePort 503 32 0 :: mbind take_sector waits.

(** Give the 512 bytes of one sector to the data port, then wait. *)
Definition give_sector (ws : Z * list Z) : list Event :=
  ((fun v => WritePort 496 v 0) <$> ws.2) ++ [Advance ws.1].

Definition write_script (lba : Z) (wait : Z) (sectors : list (Z * list Z)) : list Event :=
  address_script lba (zlen sectors) ++ WritePort 503 48 0 :: Advance wait :: mbind give_sector sectors.

(** What the script of one sector shows. *)
Definition shown (s : list Z) : list Seen := Nothing :: ((fun v => Byte (Some v)) <$> s).

Section Store.
Context {B : Type} `{StoreLaws B}.
Implicit Types d : AtaDisk B.

Definition sector_at (b : B) (lba : Z) : list Z := from_option fst [] (store_read b lba).

Fixpoint sectors_at (b : B) (lba : Z) (n : nat) : list (list Z) :=
  match n with O => [] | S n => sector_at b lba :: sectors_at b (lba + 1) n end.

Lemma run_app es1 es2 d : run (es1 ++ es2) d = '(os1, d) ← run es1 d; '(os2, d) ← run es2 d; Some (os1 ++ os2, d).
Proof.
  revert d. induction es1 as [|e es1 IH]; intros d; cbn [app run mbind option_bind].
  - by destruct (run es2 d) as [[? ?]|].
  - destruct (occur e d) as [[o d1]|]; cbn [mbind option_bind]; [|done]. rewrite IH.
    destruct (run es1 d1) as [[os1 d2]|]; cbn [mbind option_bind]; [|done].
    by destruct (run es2 d2) as [[? ?]|].
Qed.

Lemma run_seq es1 es2 d os1 d1 os2 d2 : run es1 d = Some (os1, d1) -> run es2 d1 = Some (os2, d2) ->
  run (es1 ++ es2) d = Some (os1 ++ os2, d2).
Proof. intros E1 E2. rewrite run_app, E1. cbn [mbind option_bind]. rewrite E2. done. Qed.

Lemma run_step e es d o d1 os d2 : occur e d = Some (o, d1) -> run es d1 = Some (os, d2) ->
  run (e :: es) d = Some (o :: os, d2).
Proof. intros E1 E2. cbn [run]. rewrite E1. cbn [mbind option_bind]. by rewrite E2. Qed.

(* ------------------------------------------------------------------ *)
(** ** Taking a sector *)

Definition at_pos d (i : nat) : AtaDisk B := reset_alt_status_run d <| buffer_pos := i |>.

Lemma inv_reset d : ata_inv d -> ata_inv (reset_alt_status_run d).
Proof. intros Hi. apply (inv_same d); try reflexivity; [|done]. destruct (inv_base d Hi). by split. Qed.

Lemma read_port_data d p : ata_inv d -> phase d = DataIn -> exists byte, buffer d !! buffer_pos d = Some byte /\
  occur (ReadPort 496 p) d = Some (Byte (Some byte),
    if (S (buffer_pos d) =? SECTOR)%nat then sector_drained (at_pos d (S (buffer_pos d))) p else at_pos d (S (buffer_pos d))).
Proof.
  intros Hi Hp. destruct (read_data_byte_spec (reset_alt_status_run d) p (inv_reset d Hi) Hp) as (byte & Hb & E).
  exists byte. split; [exact Hb|]. cbn [occur]. unfold read_port_at.
  change (496 =? PRIMARY_CTRL) with false. change (negb (within PRIMARY_CMD_BASE (PRIMARY_CMD_BASE + 7) 496)) with false.
  change (496 - PRIMARY_CMD_BASE) with 0. cbv zeta iota. rewrite E. reflexivity.
Qed.

Lemma drain_sector n : forall d, ata_inv d -> phase d = DataIn -> (buffer_pos d + S n = SECTOR)%nat ->
  run (replicate (S n) (ReadPort 496 0)) d =
    Some ((fun v => Byte (Some v)) <$> drop (buffer_pos d) (buffer d), sector_drained (at_pos d SECTOR) 0).
Proof.
  induction n as [|n IH]; intros d Hi Hp Hn;
    destruct (read_port_data d 0 Hi Hp) as (byte & Hb & E);
    destruct (stage_data_in d Hi Hp) as (_ & _ & _ & Hl & _).
  - rewrite (proj2 (Nat.eqb_eq _ _)) in E by lia.
    cbn [replicate run]. rewrite E. cbn [mbind option_bind]. rewrite (drop_S _ _ _ Hb), drop_ge by lia.
    by replace (S (buffer_pos d)) with SECTOR by lia.
  - rewrite (proj2 (Nat.eqb_neq _ _)) in E by lia.
    destruct (disk_occur_inv (ReadPort 496 0) d Hi) as (o & d1 & E1 & Hi1); [cbn; unfold in_width; lia|].
    rewrite E in E1. injection E1 as _ <-.
    change (replicate (S (S n)) (ReadPort 496 0)) with (ReadPort 496 0 :: replicate (S n) (ReadPort 496 0)).
    rewrite (drop_S _ _ _ Hb). cbn [fmap list_fmap]. eapply run_step; [exact E|].
    rewrite (IH _ Hi1 Hp); [|change (buffer_pos (at_pos d (S (buffer_pos d)))) with (S (buffer_pos d)); lia].
    reflexivity.
Qed.

(** A disk about to make the next of [n] sectors from [lba] ready. *)
Record reading d (lba n : Z) : Prop := {
  rd_inv : ata_inv d;
  rd_pending : pending_command d = Some (mkPending 1 PrepareRead);
  rd_lba : pio_lba d = lba;
  rd_remaining : pio_sectors_remaining d = n
}.

(** The task file holds LBA28 address [lba]. *)
Definition addressed d (lba : Z) : Prop :=
  lba_mode d = true /\
  Z.lor (Z.lor (Z.lor (lba_low d) (Z.shiftl (lba_mid d) 8)) (Z.shiftl (lba_high d) 16))
    (Z.shiftl (Z.land (drive_head d) 15) 24) = lba.

(** The disk after a transfer has ended. *)
Record settled d : Prop := {
  se_inv : ata_inv d;
  se_phase : phase d = Idle;
  se_pending : pending_command d = None;
  se_dma : dma_request d = None
}.

Lemma in_range d : ata_inv d -> 0 < pio_sectors_remaining d ->
  0 <= pio_lba d /\ pio_lba d + pio_sectors_remaining d <= total_sectors d.
Proof. intros Hi Hn. exact (proj2 (ai_fits d Hi) Hn). Qed.

Lemma reading_ready d lba n wait : reading d lba n -> 1 <= wait < 2 ^ 64 -> exists d1,
  occur (Advance wait) d = Some (Nothing, d1) /\ ata_inv d1 /\ phase d1 = DataIn /\ buffer_pos d1 = 0%nat /\
  buffer d1 = sector_at (backing d) lba /\ irq_pending d1 = true /\
  (backing d1, pio_lba d1, pio_sectors_remaining d1, sector_count d1, drive_head d1, pending_command d1, dma_request d1)
  = (backing d, pio_lba d, pio_sectors_remaining d, sector_count d, drive_head d, None, None).
Proof.
  intros [Hi Hp Hl Hn] Hw.
  assert (Hv : valid (Advance wait)) by (cbn; unfold in_width; lia).
  destruct (disk_occur_inv _ d Hi Hv) as (o & d1 & E & Hi1). exists d1.
  cbn [occur] in *. unfold advance_master_ticks in *. rewrite Hp in *. cbn [ticks_remaining action] in *.
  rewrite (proj2 (Z.ltb_ge wait 1)) in * by lia. unfold finish_pending in *.
  pose proof (ai_stage d Hi) as Hs. unfold stage_ok in Hs. rewrite Hp in Hs.
  destruct (dma_request d) eqn:Ed; [done|]. destruct (phase d) eqn:Eph; [|done..]. destruct Hs as (_ & _ & _ & Hrem).
  cbn [action] in Hrem. set (e := reset_alt_status_run (d <| pending_command := None |>)) in *.
  assert (Hb : base e) by (destruct (inv_base d Hi); by split).
  destruct (prepare_read_spec e Hb Hrem (ai_fits d Hi)) as (s & c & Hs & Hls & _ & Er).
  rewrite Er in *. cbn [fmap option_fmap option_map] in *. injection E as <- <-.
  apply served_stable in Hs; [|apply (in_range d Hi Hrem)]. change (backing e) with (backing d) in Hs.
  change (pio_lba e) with (pio_lba d) in Hs. rewrite Hl in Hs.
  unfold sector_at. destruct (store_read (backing d) lba) as [[s1 dg]|]; [|discriminate Hs]. injection Hs as ->. split; [done|]. split; [done|]. repeat split; try reflexivity.
  unfold e, reset_alt_status_run, raise_irq. cbn. by rewrite Ed.
Qed.

Lemma lba28_sum a b c e : u8 a -> u8 b -> u8 c -> in_width 4 e ->
  Z.lor (Z.lor (Z.lor a (Z.shiftl b 8)) (Z.shiftl c 16)) (Z.shiftl e 24) = a + 2 ^ 8 * b + 2 ^ 16 * c + 2 ^ 24 * e.
Proof.
  intros Ha Hb Hc He. unfold in_width in *.
  rewrite (lor_shiftl 8 a b), (lor_shiftl 16 _ c), (lor_shiftl 24 _ e) by (unfold in_width; lia). done.
Qed.

Lemma low_nibble a b : Z.land (Z.lor (Z.land a 240) (Z.land b 15)) 15 = Z.land b 15.
Proof.
  rewrite Z.land_lor_distr_l, <- !Z.land_assoc. change (Z.land 240 15) with 0. change (Z.land 15 15) with 15.
  by rewrite Z.land_0_r, Z.lor_0_l.
Qed.

Lemma bit6_kept a b : has (Z.lor (Z.land a 240) (Z.land b 15)) 64 = has a 64.
Proof.
  unfold has. rewrite Z.land_lor_distr_l, <- !Z.land_assoc. change (Z.land 240 64) with 64. change (Z.land 15 64) with 0.
  by rewrite Z.land_0_r, Z.lor_0_r.
Qed.

Lemma bytes_of_lba l : 0 <= l < 2 ^ 28 ->
  wrap 8 l + 2 ^ 8 * wrap 8 (Z.shiftr l 8) + 2 ^ 16 * wrap 8 (Z.shiftr l 16)
    + 2 ^ 24 * Z.land (wrap 8 (Z.shiftr l 24)) 15 = l.
Proof.
  intros Hl. change 15 with (Z.ones 4). rewrite Z.land_ones by lia. unfold wrap. rewrite !Z.shiftr_div_pow2 by lia.
  change (2 ^ 8) with 256. change (2 ^ 16) with 65536. change (2 ^ 24) with 16777216. change (2 ^ 4) with 16.
  change (2 ^ 28) with 268435456 in Hl. Z.to_euclidean_division_equations; lia.
Qed.

Lemma task_file_addressed d l : lba_mode d = true -> 0 <= l < 2 ^ 28 -> addressed (set_task_file_address d l) l.
Proof.
  intros Hm Hl. unfold addressed, set_task_file_address. rewrite Hm. split.
  - unfold lba_mode in *. cbn. by rewrite bit6_kept.
  - cbn. rewrite low_nibble, lba28_sum; [by apply bytes_of_lba|apply wrap_in_width; lia..|].
    apply land_width_r; [lia|split; [lia|reflexivity]].
Qed.

(** The data port after the last byte of a sector. *)
Lemma sector_end d : ata_inv d -> phase d = DataIn -> 0 < pio_sectors_remaining d -> lba_mode d = true ->
  let e := sector_drained (at_pos d SECTOR) 0 in
  ata_inv e /\ backing e = backing d /\ sector_count e = wrap 8 (sector_count d - 1) /\ addressed e (pio_lba d + 1) /\
  if pio_sectors_remaining d =? 1 then settled e /\ status e = READY /\ irq_pending e = irq_pending d
  else reading e (pio_lba d + 1) (pio_sectors_remaining d - 1).
Proof.
  intros Hi Hp Hn Hm. cbv zeta. destruct (stage_data_in d Hi Hp) as (Hpe & Hd & _).
  destruct (in_range d Hi Hn) as [Hl Ht]. pose proof (sectors_bound (backing d)) as Hsb. unfold total_sectors in Ht.
  set (d0 := at_pos d SECTOR).
  assert (Hb0 : base d0) by (destruct (inv_base d Hi); by split).
  pose proof (sector_drained_inv d0 0 Hb0 (ai_fits d Hi) Hpe Hd ltac:(lia)) as He.
  split; [exact He|]. revert He. unfold sector_drained. set (d1 := d0 <| phase := Idle |> <| buffer := [] |> <| buffer_pos := 0%nat |>).
  assert (Hb1 : base d1) by (destruct Hb0; by split). assert (Hf1 : fits d1) by exact (ai_fits d Hi). cbv zeta.
  change (pio_sectors_remaining d1) with (pio_sectors_remaining d). rewrite (proj2 (Z.ltb_lt 0 (pio_sectors_remaining d)) Hn).
  destruct (advance_pio_spec d1 Hb1 Hn Hf1) as (_ & E1 & E2 & E).
  assert (Ha : addressed (advance_pio_task_file (d1 <| pio_sectors_remaining := pio_sectors_remaining d - 1 |>)) (pio_lba d + 1)).
  { rewrite <- (saturate_id 32 (pio_lba d + 1)) by (unfold in_width; lia). apply task_file_addressed; [exact Hm|].
    unfold saturate; cbn; lia. }
  assert (Hsc : sector_count (advance_pio_task_file (d1 <| pio_sectors_remaining := pio_sectors_remaining d - 1 |>))
    = wrap 8 (sector_count d - 1)).
  { unfold advance_pio_task_file, set_task_file_address. cbv zeta. by destruct (lba_mode _). }
  change (pio_sectors_remaining d1) with (pio_sectors_remaining d) in *. change (pio_lba d1) with (pio_lba d) in *.
  set (e := advance_pio_task_file _) in *. clearbody e. injection E as E3 E4 E5 E6 E7 E8 _ _ _ E9 _.
  rewrite E1. destruct (Z.eqb_spec (pio_sectors_remaining d) 1) as [H1|H1].
  - rewrite (proj2 (Z.ltb_ge 0 _)) by lia. intros He. do 2 (split; [done|]). split; [exact Ha|].
    split; [split; [exact He|exact E6|cbn; congruence|cbn; congruence]|]. split; [done|exact E9].
  - rewrite (proj2 (Z.ltb_lt 0 _)) by lia. intros He. do 2 (split; [done|]). split; [exact Ha|].
    split; [exact He|reflexivity|exact E2|exact E1].
Qed.

(** Draining every sector of a command. *)
Lemma read_loop waits : forall d lba, reading d lba (zlen waits) -> lba_mode d = true -> 0 < zlen waits ->
  Forall (fun w => 1 <= w < 2 ^ 64) waits -> exists d',
  run (mbind take_sector waits) d = Some (mbind shown (sectors_at (backing d) lba (length waits)), d') /\
  settled d' /\ status d' = READY /\ irq_pending d' = true /\ backing d' = backing d /\
  sector_count d' = wrap 8 (sector_count d - zlen waits) /\ addressed d' (lba + zlen waits).
Proof.
  induction waits as [|w waits IH]; intros d lba Hr Hm Hpos Hw; [by cbn in Hpos|].
  apply Forall_cons in Hw as [Hw Hws]. destruct (reading_ready d lba _ w Hr Hw) as (d1 & E1 & Hi1 & Hp1 & Hb1 & Hbuf & Hirq & Ef).
  injection Ef as Eb El En Es Edh _ _.
  assert (Hn1 : 0 < pio_sectors_remaining d1) by (rewrite En, (rd_remaining _ _ _ Hr); done).
  assert (Hm1 : lba_mode d1 = true) by (unfold lba_mode in *; by rewrite Edh).
  destruct (sector_end d1 Hi1 Hp1 Hn1 Hm1) as (He & Ebe & Esc & Ha & Hend). set (e := sector_drained _ _) in *.
  assert (Hs : run (take_sector w) d = Some (shown (sector_at (backing d) lba), e)).
  { unfold take_sector, shown. eapply run_step; [exact E1|].
    pose proof (drain_sector 511 d1 Hi1 Hp1 ltac:(rewrite Hb1; reflexivity)) as Ed. change 512%nat with SECTOR in Ed.
    rewrite Ed, Hb1, Hbuf. done. }
  cbn [mbind list_bind]. rewrite El, (rd_lba _ _ _ Hr) in Ha, Hend. rewrite En, (rd_remaining _ _ _ Hr), zlen_cons in Hend.
  rewrite zlen_cons. cbn [length sectors_at]. destruct waits as [|w2 waits].
  - rewrite zlen_nil in *. destruct Hend as (Hset & Hst & Hirq2). exists e.
    cbn [sectors_at mbind list_bind]. rewrite !app_nil_r. split; [exact Hs|]. split; [done|]. split; [done|].
    split; [congruence|]. split; [congruence|]. split; [rewrite Esc, Es; do 2 f_equal; lia|]. by replace (1 + 0) with 1 by lia.
  - assert (Hz : 0 < zlen (w2 :: waits)) by (rewrite zlen_cons; pose proof (zlen_nonneg waits); lia).
    rewrite (proj2 (Z.eqb_neq _ _)) in Hend by lia. replace (1 + zlen (w2 :: waits) - 1) with (zlen (w2 :: waits)) in Hend by lia.
    destruct (IH e (lba + 1) Hend (proj1 Ha) Hz Hws) as (d' & Er & Hset & Hst & Hirq2 & Ebk & Esc2 & Ha2).
    rewrite Ebe, Eb in Er. exists d'. split; [eapply run_seq; [exact Hs|exact Er]|]. split; [done|]. split; [done|]. split; [done|].
    split; [congruence|]. split.
    + rewrite Esc2, Esc, Es. unfold wrap. rewrite Zminus_mod_idemp_l. f_equal. lia.
    + by replace (lba + (1 + zlen (w2 :: waits))) with (lba + 1 + zlen (w2 :: waits)) by lia.
Qed.

(* ------------------------------------------------------------------ *)
(** ** Issuing a command *)

Lemma settled_not_busy d : settled d -> has (status d) BSY = false.
Proof.
  intros [Hi Hph Hp Hd]. pose proof (ai_stage d Hi) as Hs. unfold stage_ok in Hs. rewrite Hp, Hd, Hph in Hs.
  by destruct Hs as ([-> |[-> _]] & _).
Qed.

Lemma write_register d port v : settled d -> u8 v -> 498 <= port <= 502 -> exists d',
  occur (WritePort port v 0) d = Some (Flag true, d') /\ settled d' /\ backing d' = backing d /\
  sector_count d' = (if port =? 498 then v else sector_count d) /\ lba_low d' = (if port =? 499 then v else lba_low d) /\
  lba_mid d' = (if port =? 500 then v else lba_mid d) /\ lba_high d' = (if port =? 501 then v else lba_high d) /\
  drive_head d' = (if port =? 502 then v else drive_head d).
Proof.
  intros Hs Hv Hp. pose proof (settled_not_busy d Hs) as Hb. destruct Hs as [Hi Hph Hpe Hd].
  destruct (disk_occur_inv (WritePort port v 0) d Hi) as (o & d' & E & Hi').
  { cbn. unfold in_width in *. lia. }
  exists d'. pose proof E as E'. cbn [occur] in E'. unfold write_port_at in E'.
  change (status (block_poll_skip (reset_alt_status_run d))) with (status d) in E'. rewrite Hb in E'.
  assert (Hport : port = 498 \/ port = 499 \/ port = 500 \/ port = 501 \/ port = 502) by lia.
  destruct Hport as [-> |[-> |[-> |[-> | -> ]]]]; cbn -[occur] in E'; injection E' as <- <-;
    (split; [exact E|]); (split; [split; assumption|]); repeat split.
Qed.

Lemma drive_byte lba : 0 <= lba < 2 ^ 28 -> u8 (Z.lor 224 (Z.land (Z.shiftr lba 24) 15)) /\
  has (Z.lor 224 (Z.land (Z.shiftr lba 24) 15)) 64 = true /\ has (Z.lor 224 (Z.land (Z.shiftr lba 24) 15)) 16 = false /\
  Z.land (Z.lor 224 (Z.land (Z.shiftr lba 24) 15)) 15 = Z.land (wrap 8 (Z.shiftr lba 24)) 15.
Proof.
  intros Hl. assert (Hb : forall m, 0 <= m < 16 -> u8 (Z.lor 224 m) /\ has (Z.lor 224 m) 64 = true /\
    has (Z.lor 224 m) 16 = false /\ Z.land (Z.lor 224 m) 15 = m).
  { intros m Hm. assert (Hc : m = 0 \/ m = 1 \/ m = 2 \/ m = 3 \/ m = 4 \/ m = 5 \/ m = 6 \/ m = 7 \/ m = 8 \/ m = 9 \/
      m = 10 \/ m = 11 \/ m = 12 \/ m = 13 \/ m = 14 \/ m = 15) by lia.
    repeat destruct Hc as [-> |Hc]; try subst m; by vm_compute. }
  assert (Hs : 0 <= Z.shiftr lba 24 < 16).
  { rewrite Z.shiftr_div_pow2 by lia. change (2 ^ 24) with 16777216. change (2 ^ 28) with 268435456 in Hl.
    Z.to_euclidean_division_equations; lia. }
  change 15 with (Z.ones 4). rewrite !Z.land_ones by lia. change (2 ^ 4) with 16.
  unfold wrap. rewrite (Z.mod_small (Z.shiftr lba 24) (2 ^ 8)) by lia. rewrite (Z.mod_small _ 16) by lia.
  destruct (Hb (Z.shiftr lba 24) Hs) as (H1 & H2 & H3 & H4). repeat split; try done; try apply H1.
  change 15 with (Z.ones 4) in H4. by rewrite Z.land_ones in H4 by lia.
Qed.

Lemma address_sets d lba n : settled d -> 0 <= lba < 2 ^ 28 -> 1 <= n <= 256 -> exists d',
  run (address_script lba n) d = Some (replicate 5 (Flag true), d') /\ settled d' /\ backing d' = backing d /\
  sector_count d' = wrap 8 n /\ master_selected d' = true /\ lba_mode d' = true /\ command_lba d' = Some (lba, n).
Proof.
  intros Hs Hl Hn. destruct (drive_byte lba Hl) as (Hd8 & H64 & H16 & H15).
  destruct (write_register d 502 _ Hs Hd8 ltac:(lia)) as (d1 & E1 & S1 & B1 & _ & _ & _ & _ & R1).
  destruct (write_register d1 498 (wrap 8 n) S1 ltac:(by apply wrap_in_width) ltac:(lia)) as (d2 & E2 & S2 & B2 & C2 & _ & _ & _ & R2).
  destruct (write_register d2 499 (wrap 8 lba) S2 ltac:(by apply wrap_in_width) ltac:(lia)) as (d3 & E3 & S3 & B3 & C3 & L3 & _ & _ & R3).
  destruct (write_register d3 500 (wrap 8 (Z.shiftr lba 8)) S3 ltac:(by apply wrap_in_width) ltac:(lia))
    as (d4 & E4 & S4 & B4 & C4 & L4 & M4 & _ & R4).
  destruct (write_register d4 501 (wrap 8 (Z.shiftr lba 16)) S4 ltac:(by apply wrap_in_width) ltac:(lia))
    as (d5 & E5 & S5 & B5 & C5 & L5 & M5 & H5 & R5).
  cbn [Z.eqb Pos.eqb] in *. exists d5. split.
  { unfold address_script. do 5 (eapply run_step; [eassumption|]). reflexivity. }
  assert (Rd : drive_head d5 = Z.lor 224 (Z.land (Z.shiftr lba 24) 15)) by congruence.
  assert (Cd : sector_count d5 = wrap 8 n) by congruence.
  assert (Hm : lba_mode d5 = true) by (unfold lba_mode; by rewrite Rd).
  split; [done|]. split; [congruence|]. split; [done|]. split; [unfold master_selected; by rewrite Rd, H16|]. split; [done|].
  unfold command_lba. rewrite Hm, Rd, Cd, H15, H5, M5, M4, L5, L4, L3. rewrite lba28_sum; [|apply wrap_in_width; lia..|].
  - rewrite bytes_of_lba by done. do 2 f_equal. unfold wrap. destruct (Z.eq_dec n 256) as [-> |Hne]; [done|].
    rewrite Z.mod_small by lia. by rewrite (proj2 (Z.eqb_neq n 0)) by lia.
  - apply land_width_r; [lia|split; [lia|reflexivity]].
Qed.

(** What an accepted PIO command leaves. *)
Lemma pio_command d cmd first lba n : settled d -> master_selected d = true -> command_lba d = Some (lba, n) ->
  0 <= lba -> 1 <= n <= 256 -> lba + n <= total_sectors d -> (cmd = 32 /\ first = PrepareRead \/ cmd = 48 /\ first = PrepareWrite) ->
  exists d', occur (WritePort 503 cmd 0) d = Some (Flag true, d') /\ ata_inv d' /\
    pending_command d' = Some (mkPending 1 first) /\
    (backing d', pio_lba d', pio_sectors_remaining d', sector_count d', drive_head d', last_access_bytes d') =
    (backing d, lba, n, sector_count d, drive_head d, 0).
Proof.
  intros Hs Hm Hc Hl Hn Ht Hcmd. pose proof (settled_not_busy d Hs) as Hb. destruct Hs as [Hi Hph Hpe Hd].
  destruct (disk_occur_inv (WritePort 503 cmd 0) d Hi) as (o & d' & E & Hi').
  { cbn. unfold in_width in *. destruct Hcmd as [[-> _]|[-> _]]; lia. }
  exists d'. pose proof E as E'. cbn [occur] in E'. unfold write_port_at in E'.
  set (e := block_poll_skip (reset_alt_status_run d)) in *. cbv zeta in E'.
  change (status e) with (status d) in E'. rewrite Hb in E'. cbn -[occur write_command] in E'.
  assert (Hw : write_command e cmd 0 = schedule_at (e <| pio_lba := lba |> <| pio_sectors_remaining := n |>
    <| last_access_bytes := 0 |>) first COMMAND_LATENCY_TICKS 0).
  { unfold write_command. change (dma_request e) with (dma_request d). change (pending_command e) with (pending_command d).
    change (phase e) with (phase d). change (master_selected e) with (master_selected d).
    rewrite Hd, Hpe, Hph, Hm. pose proof (sectors_bound (backing d)) as Hsb. unfold total_sectors in *.
    assert (Hf : store_sectors (backing d) <? saturate 32 (lba + n) = false)
      by (apply Z.ltb_ge; rewrite saturate_id by (unfold in_width; lia); lia).
    destruct Hcmd as [[-> ->]|[-> ->]]; cbn -[pio_sectors schedule_at saturate]; unfold read_sectors, write_sectors, pio_sectors;
      change (command_lba e) with (command_lba d); rewrite Hc; change (total_sectors e) with (store_sectors (backing d));
      cbv zeta; by rewrite Hf. }
  rewrite Hw in E'. injection E' as <- <-. split; [exact E|]. split; [exact Hi'|]. split; reflexivity.
Qed.

Lemma read_script_spec d lba n waits : settled d -> 0 <= lba -> 1 <= n <= 256 -> lba + n <= total_sectors d ->
  zlen waits = n -> Forall (fun w => 1 <= w < 2 ^ 64) waits -> exists d',
  run (read_script lba n waits) d =
    Some (replicate 6 (Flag true) ++ mbind shown (sectors_at (backing d) lba (Z.to_nat n)), d') /\
  settled d' /\ status d' = READY /\ irq_pending d' = true /\ backing d' = backing d /\
  sector_count d' = 0 /\ addressed d' (lba + n).
Proof.
  intros Hs Hl Hn Ht Hz Hw. pose proof (sectors_bound (backing d)) as Hsb. unfold total_sectors in Ht.
  destruct (address_sets d lba n Hs ltac:(lia) Hn) as (d1 & E1 & S1 & B1 & C1 & Hm1 & Hlm1 & Hc1).
  destruct (pio_command d1 32 PrepareRead lba n S1 Hm1 Hc1 Hl Hn) as (d2 & E2 & Hi2 & Hp2 & Ef).
  { unfold total_sectors. by rewrite B1. } { by left. }
  injection Ef as Eb El En Ec Ed _.
  assert (Hr : reading d2 lba (zlen waits)) by (split; [done|done|done|congruence]).
  destruct (read_loop waits d2 lba Hr) as (d' & E3 & Hset & Hst & Hirq & Ebk & Esc & Ha); try done; [|lia|].
  { unfold lba_mode in *. by rewrite Ed. }
  exists d'. split.
  { unfold read_script. rewrite Eb, B1 in E3. replace (length waits) with (Z.to_nat n) in E3 by (unfold zlen in Hz; lia).
    change (replicate 6 (Flag true)) with (replicate 5 (Flag true) ++ [Flag true]). rewrite <- app_assoc.
    eapply run_seq; [exact E1|]. eapply run_step; [exact E2|exact E3]. }
  split; [done|]. split; [done|]. split; [done|]. split; [congruence|]. split; [|by rewrite <- Hz].
  rewrite Esc, Ec, C1, Hz. unfold wrap. rewrite Zminus_mod_idemp_l, Z.sub_diag. done.
Qed.

(* ------------------------------------------------------------------ *)
(** ** Giving a sector *)

(** The sectors [ss] laid over the store from [lba]. *)
Definition overlay (lba : Z) (ss : list (list Z)) (k : Z) : option (list Z) :=
  if lba <=? k then ss !! Z.to_nat (k - lba) else None.

(** [b'] is [b] with the sectors [ss] written from [lba]. *)
Definition wrote (b b' : B) (lba : Z) (ss : list (list Z)) : Prop :=
  store_sectors b' = store_sectors b /\
  forall k, 0 <= k -> store_read b' k =
    match overlay lba ss k with Some s => Some (s, false) | None => store_read b k end.

Lemma wrote_nil b lba : wrote b b lba [].
Proof. split; [done|]. intros k _. unfold overlay. by destruct (lba <=? k). Qed.

Lemma wrote_cons b b1 b2 lba s ss : 0 <= lba -> length s = SECTOR -> store_write b lba s = Some b1 ->
  wrote b1 b2 (lba + 1) ss -> wrote b b2 lba (s :: ss).
Proof.
  intros Hl Hs Hw [E1 E2]. split; [by rewrite E1, (write_sectors_same _ _ _ _ Hl Hs Hw)|]. intros k Hk. rewrite (E2 k Hk).
  unfold overlay. destruct (Z.eq_dec k lba) as [-> |Hne].
  - rewrite (proj2 (Z.leb_gt (lba + 1) lba)), (proj2 (Z.leb_le lba lba)), Z.sub_diag by lia. cbn.
    by apply (write_read_same b lba).
  - destruct (Z.leb_spec (lba + 1) k), (Z.leb_spec lba k); try lia.
    + replace (Z.to_nat (k - lba)) with (S (Z.to_nat (k - (lba + 1)))) by lia. cbn [lookup list_lookup].
      destruct (ss !! _); [done|]. by apply (write_read_other b lba k s b1).
    + by apply (write_read_other b lba k s b1).
Qed.

Record writing d (lba n : Z) : Prop := {
  wr_inv : ata_inv d;
  wr_phase : phase d = DataOut;
  wr_pos : buffer_pos d = 0%nat;
  wr_lba : pio_lba d = lba;
  wr_remaining : pio_sectors_remaining d = n
}.

Definition io_regs d := (backing d, pio_lba d, pio_sectors_remaining d, sector_count d, drive_head d).

Lemma write_port_data d v : ata_inv d -> phase d = DataOut ->
  let e := block_poll_skip (reset_alt_status_run d) in
  let e := e <| buffer := <[buffer_pos d := v]> (buffer d) |> <| buffer_pos := S (buffer_pos d) |> in
  occur (WritePort 496 v 0) d = Some (Flag true,
    if (S (buffer_pos d) =? SECTOR)%nat then schedule_at (e <| phase := Idle |>) CommitWrite COMMAND_LATENCY_TICKS 0 else e).
Proof.
  intros Hi Hp. cbv zeta. cbn [occur]. unfold write_port_at. cbv zeta.
  set (e := block_poll_skip (reset_alt_status_run d)).
  assert (He : ata_inv e) by (apply (inv_same d); try reflexivity; [|done]; destruct (inv_base d Hi); by split).
  change (496 =? PRIMARY_CTRL) with false. change (negb (within PRIMARY_CMD_BASE (PRIMARY_CMD_BASE + 7) 496)) with false.
  change (496 - PRIMARY_CMD_BASE) with 0. change (negb (0 =? 0)) with false. rewrite andb_false_r. cbv iota.
  by rewrite (write_data_byte_spec e v 0 He Hp).
Qed.

Lemma fill_sector s : forall d, ata_inv d -> phase d = DataOut -> (buffer_pos d + length s = SECTOR)%nat -> s <> [] ->
  Forall u8 s -> exists d',
  run ((fun v => WritePort 496 v 0) <$> s) d = Some (replicate (length s) (Flag true), d') /\ ata_inv d' /\
  pending_command d' = Some (mkPending 1 CommitWrite) /\ buffer d' = take (buffer_pos d) (buffer d) ++ s /\
  io_regs d' = io_regs d.
Proof.
  induction s as [|v s IH]; intros d Hi Hp Hl Hne Hu; [done|]. apply Forall_cons in Hu as [Hv Hu]. cbn [length] in Hl.
  pose proof (write_port_data d v Hi Hp) as E. cbv zeta in E.
  destruct (disk_occur_inv (WritePort 496 v 0) d Hi) as (o & d1 & E1 & Hi1); [cbn; unfold in_width in *; lia|].
  match type of E with _ = Some (_, ?x) => set (r := x) in E end.
  rewrite E in E1. injection E1 as <- <-. unfold r in *. clear r.
  destruct (stage_data_out d Hi Hp) as (_ & _ & _ & Hbl & Hpos & _).
  assert (Hins : take (buffer_pos d) (<[buffer_pos d := v]> (buffer d)) = take (buffer_pos d) (buffer d))
    by (apply take_insert_ge; lia).
  cbn [fmap list_fmap length replicate]. destruct s as [|v2 s]; cbn [length] in Hl.
  - rewrite (proj2 (Nat.eqb_eq _ _)) in * by lia. eexists. split; [eapply run_step; [exact E|reflexivity]|].
    split; [exact Hi1|]. split; [reflexivity|]. split; [|reflexivity]. cbn -[take].
    rewrite insert_take_drop, drop_ge by lia. done.
  - rewrite (proj2 (Nat.eqb_neq _ _)) in * by lia.
    destruct (IH _ Hi1 Hp) as (d' & E2 & Hi2 & Hp2 & Hb2 & Hr2); [cbn in *; lia|done|done|].
    exists d'. split; [eapply run_step; [exact E|exact E2]|]. split; [done|]. split; [done|]. split; [|exact Hr2].
    rewrite Hb2. cbn -[take]. rewrite (take_S_r _ _ v) by (apply list_lookup_insert_eq; lia). rewrite Hins, <- app_assoc. done.
Qed.

(** The commit of one sector. *)
Lemma commit_end d lba n s wait : ata_inv d -> pending_command d = Some (mkPending 1 CommitWrite) -> buffer d = s ->
  pio_lba d = lba -> pio_sectors_remaining d = n -> 1 <= wait < 2 ^ 64 -> exists d' b,
  occur (Advance wait) d = Some (Nothing, d') /\ store_write (backing d) lba s = Some b /\ length s = SECTOR /\ 0 <= lba /\
  if n =? 1 then settled d' /\ irq_pending d' = true /\ backing d' = (store_commit Pio b).1 /\
      status d' = (if (store_commit Pio b).2 then Z.lor DRDY ERR else READY)
  else writing d' (lba + 1) (n - 1) /\ backing d' = b.
Proof.
  intros Hi Hp <- <- <- Hw.
  assert (Hv : valid (Advance wait)) by (cbn; unfold in_width; lia).
  destruct (disk_occur_inv _ d Hi Hv) as (o & d' & E & Hi1). exists d'.
  pose proof E as E'. cbn [occur] in E'. unfold advance_master_ticks in E'. rewrite Hp in E'. cbn [ticks_remaining action] in E'.
  rewrite (proj2 (Z.ltb_ge wait 1)) in E' by lia. unfold finish_pending in E'.
  pose proof (ai_stage d Hi) as Hs. unfold stage_ok in Hs. rewrite Hp in Hs.
  destruct (dma_request d) eqn:Ed; [done|]. destruct (phase d) eqn:Eph; [|done..]. destruct Hs as (_ & _ & Hlen & Hrem).
  cbn [action] in *. destruct (in_range d Hi Hrem) as [Hlba _].
  set (e := reset_alt_status_run (d <| pending_command := None |>)) in *.
  assert (Hb : base e) by (destruct (inv_base d Hi); by split).
  destruct (commit_write_spec e Hb Hrem (ai_fits d Hi) Hlen) as (b & c & Hst & Hc). cbv zeta in Hc. destruct Hc as (Hb1 & Ht1 & Ec).
  rewrite Ec in E'. cbn [fmap option_fmap option_map] in E'. injection E' as <- E'. exists b.
  split; [exact E|]. split; [exact Hst|]. split; [exact Hlen|]. split; [exact Hlba|].
  match type of Hb1 with base ?x => set (d1 := x) in * end.
  assert (Hf1 : fits d1) by (unfold fits; rewrite Ht1; exact (ai_fits d Hi)).
  destruct (advance_pio_spec d1 Hb1 Hrem Hf1) as (_ & E1 & E2 & Ef).
  change (pio_sectors_remaining d1) with (pio_sectors_remaining d) in *. change (pio_lba d1) with (pio_lba d) in E2.
  change (pio_sectors_remaining e) with (pio_sectors_remaining d) in E'.
  set (d2 := advance_pio_task_file _) in *. clearbody d2. injection Ef as E3 _ _ _ E5 E6 _ _ _ _ _.
  unfold after_commit in E'. rewrite E1 in E'. destruct (Z.eqb_spec (pio_sectors_remaining d) 1) as [H1|H1].
  - rewrite (proj2 (Z.ltb_ge 0 _)) in E' by lia. cbv zeta in E'.
    change (backing (d2 <| phase := Idle |> <| status := READY |> <| error := 0 |>)) with (backing d2) in E'. rewrite E3 in E'.
    destruct (store_commit Pio b) as [b' failed] eqn:Eb. cbn [fst snd].
    destruct failed; subst d'; (split; [split; [done|reflexivity|cbn; congruence|cbn; congruence]|]); done.
  - rewrite (proj2 (Z.ltb_lt 0 _)) in E' by lia. subst d'. split; [|exact E3].
    split; [exact Hi1|reflexivity|reflexivity|exact E2|exact E1].
Qed.

Lemma write_loop ws : forall d lba, writing d lba (zlen ws) -> ws <> [] ->
  Forall (fun w => 1 <= w.1 < 2 ^ 64 /\ Forall u8 w.2 /\ length w.2 = SECTOR) ws -> exists d' b',
  run (mbind give_sector ws) d = Some (mbind (fun _ => replicate SECTOR (Flag true) ++ [Nothing]) ws, d') /\
  wrote (backing d) b' lba ws.*2 /\ settled d' /\ irq_pending d' = true /\ backing d' = (store_commit Pio b').1 /\
  status d' = (if (store_commit Pio b').2 then Z.lor DRDY ERR else READY).
Proof.
  induction ws as [|[w s] ws IH]; intros d lba Hw Hne Hws; [done|]. apply Forall_cons in Hws as [(Hwait & Hu & Hls) Hws].
  cbn [fst snd] in *. destruct Hw as [Hi Hp Hpos Hl Hn].
  destruct (fill_sector s d Hi Hp) as (d1 & E1 & Hi1 & Hp1 & Hb1 & Hr1); [by rewrite Hpos, Hls|by intros ->|done|].
  unfold io_regs in Hr1. injection Hr1 as Rb Rl Rn _ _. rewrite Hpos, take_0 in Hb1. cbn [app] in Hb1.
  destruct (commit_end d1 lba (zlen ((w, s) :: ws)) s w) as (d2 & b & E2 & Hst & _ & Hlba & Hend); try done; try congruence.
  rewrite Rb in Hst.
  assert (Eg : run (give_sector (w, s)) d = Some (replicate SECTOR (Flag true) ++ [Nothing], d2)).
  { unfold give_sector. cbn [fst snd]. rewrite Hls in E1. eapply run_seq; [exact E1|]. eapply run_step; [exact E2|reflexivity]. }
  cbn [mbind list_bind]. rewrite zlen_cons in Hend. destruct ws as [|w2 ws].
  - rewrite zlen_nil in Hend. cbn [Z.eqb Z.add Pos.eqb] in Hend. destruct Hend as (Hs & Hirq & Hbk & Hstat).
    exists d2, b. cbn [mbind list_bind]. rewrite !app_nil_r. split; [exact Eg|].
    split; [eapply wrote_cons; [done|done|exact Hst|apply wrote_nil]|]. done.
  - assert (Hz : 0 < zlen (w2 :: ws)) by (rewrite zlen_cons; pose proof (zlen_nonneg ws); lia).
    rewrite (proj2 (Z.eqb_neq _ _)) in Hend by lia. destruct Hend as [Hwr Hbk].
    replace (1 + zlen (w2 :: ws) - 1) with (zlen (w2 :: ws)) in Hwr by lia.
    destruct (IH d2 (lba + 1) Hwr ltac:(done) Hws) as (d' & b' & E3 & Hwrote & Hrest). rewrite Hbk in Hwrote.
    exists d', b'. split; [eapply run_seq; [exact Eg|exact E3]|].
    split; [by eapply wrote_cons|done].
Qed.

Lemma write_script_spec d lba wait ws : settled d -> 0 <= lba -> 1 <= zlen ws <= 256 -> lba + zlen ws <= total_sectors d ->
  1 <= wait < 2 ^ 64 -> Forall (fun w => 1 <= w.1 < 2 ^ 64 /\ Forall u8 w.2 /\ length w.2 = SECTOR) ws -> exists d' b',
  run (write_script lba wait ws) d = Some (replicate 6 (Flag true) ++ Nothing ::
    mbind (fun _ => replicate SECTOR (Flag true) ++ [Nothing]) ws, d') /\
  wrote (backing d) b' lba ws.*2 /\ settled d' /\ irq_pending d' = true /\ backing d' = (store_commit Pio b').1 /\
  status d' = (if (store_commit Pio b').2 then Z.lor DRDY ERR else READY).
Proof.
  intros Hs Hl Hn Ht Hwait Hw. pose proof (sectors_bound (backing d)) as Hsb. unfold total_sectors in Ht.
  destruct (address_sets d lba (zlen ws) Hs ltac:(lia) Hn) as (d1 & E1 & S1 & B1 & C1 & Hm1 & Hlm1 & Hc1).
  destruct (pio_command d1 48 PrepareWrite lba (zlen ws) S1 Hm1 Hc1 Hl Hn) as (d2 & E2 & Hi2 & Hp2 & Ef).
  { unfold total_sectors. by rewrite B1. } { by right. }
  injection Ef as Eb El En _ _ _.
  assert (Hv : valid (Advance wait)) by (cbn; unfold in_width; lia).
  destruct (disk_occur_inv _ d2 Hi2 Hv) as (o & d3 & E3 & Hi3).
  pose proof E3 as E'. cbn [occur] in E'. unfold advance_master_ticks in E'. rewrite Hp2 in E'. cbn [ticks_remaining action] in E'.
  rewrite (proj2 (Z.ltb_ge wait 1)) in E' by lia. cbn [finish_pending fmap option_fmap option_map] in E'. injection E' as <- E'.
  assert (Hwr : writing d3 lba (zlen ws)) by (subst d3; split; [done|reflexivity|reflexivity|exact El|exact En]).
  destruct (write_loop ws d3 lba Hwr) as (d' & b' & E4 & Hwrote & Hrest); [intros ->; rewrite zlen_nil in Hn; lia|done|].
  assert (Eb3 : backing d3 = backing d) by (subst d3; rewrite <- B1, <- Eb; reflexivity). rewrite Eb3 in Hwrote.
  exists d', b'. split; [|done]. unfold write_script.
  change (replicate 6 (Flag true)) with (replicate 5 (Flag true) ++ [Flag true]). rewrite <- app_assoc.
  eapply run_seq; [exact E1|]. eapply run_step; [exact E2|]. eapply run_step; [exact E3|exact E4].
Qed.

(* ------------------------------------------------------------------ *)
(** ** Which events change a sector *)

(** The [n] whole sectors of [data]. *)
Fixpoint chunks (n : nat) (data : list Z) : list (list Z) :=
  match n with O => [] | S n => take SECTOR data :: chunks n (drop SECTOR data) end.

Lemma chunks_length n data : length (chunks n data) = n.
Proof. revert data. induction n as [|n IH]; intros data; cbn; [done|]. by rewrite IH. Qed.

Lemma dma_write_content n : forall d l data ok d', ata_inv d -> 0 <= l -> l + Z.of_nat n <= total_sectors d ->
  (n * SECTOR <= length data)%nat -> write_sectors_from d l n data = Some (ok, d') ->
  ok = true /\ wrote (backing d) (backing d') l (chunks n data).
Proof.
  induction n as [|n IH]; intros d l data ok d' Hi Hl Ht Hn E; cbn [write_sectors_from chunks] in *.
  { injection E as <- <-. split; [done|apply wrote_nil]. }
  assert (Hs : length (take SECTOR data) = SECTOR) by (rewrite length_take; lia).
  destruct (write_lba_inv d l _ Hi Hl Hs) as (ok1 & d1 & E1 & Hi1 & Hok). rewrite E1 in E. cbn [mbind option_bind] in E.
  pose proof (sectors_bound (backing d)) as Hsb. unfold total_sectors in *.
  destruct ok1; cbn [negb] in E.
  2: { destruct Hok as [Hw _]. destruct (write_in_range (backing d) l (take SECTOR data)) as [b Hb]; [lia|exact Hs|congruence]. }
  destruct Hok as (b & c & Hw & ->). pose proof (write_sectors_same _ _ _ _ Hl Hs Hw) as Es.
  assert (Hwrap : wrap 32 (l + 1) = l + 1) by (apply wrap_id; unfold in_width; lia). rewrite Hwrap in E.
  apply (IH _ _ _ _ _ Hi1) in E as [-> Hrest];
    [|lia|change (l + 1 + Z.of_nat n <= store_sectors b); lia|rewrite length_drop; lia].
  split; [done|]. eapply wrote_cons; [done|done|exact Hw|exact Hrest].
Qed.

Lemma backing_task_file d l : backing (set_task_file_address d l) = backing d.
Proof. unfold set_task_file_address. by destruct (lba_mode d). Qed.

Lemma backing_drained d p : backing (sector_drained d p) = backing d.
Proof.
  unfold sector_drained. cbv zeta. set (e := d <| phase := Idle |> <| buffer := [] |> <| buffer_pos := 0%nat |>).
  change (backing d) with (backing e). clearbody e. destruct (0 <? pio_sectors_remaining e).
  - assert (Eb : backing (advance_pio_task_file (e <| pio_sectors_remaining := pio_sectors_remaining e - 1 |>)) = backing e)
      by (unfold advance_pio_task_file; cbv zeta; by rewrite backing_task_file).
    destruct (0 <? _); exact Eb.
  - by destruct (0 <? _).
Qed.

Lemma backing_read_port d port p : ata_inv d -> backing (read_port_at d port p).2 = backing d.
Proof.
  intros Hi. unfold read_port_at. destruct (port =? _); [done|]. destruct (negb _); [done|]. cbv zeta.
  assert (Hb : backing (read_data_byte (reset_alt_status_run d) p).2 = backing d).
  { destruct (decide (phase (reset_alt_status_run d) = DataIn)) as [Hp|Hp].
    - destruct (read_data_byte_spec (reset_alt_status_run d) p (inv_reset d Hi) Hp) as (v & _ & ->). cbn [snd].
      destruct (_ =? _)%nat; [by rewrite backing_drained|done].
    - unfold read_data_byte. by rewrite bool_decide_eq_false_2. }
  destruct (read_data_byte (reset_alt_status_run d) p) as [v e].
  repeat match goal with |- context [match ?z with _ => _ end] => is_var z; destruct z
    | |- context [match port - PRIMARY_CMD_BASE with _ => _ end] => destruct (port - PRIMARY_CMD_BASE) end; done.
Qed.

Lemma backing_command d v p : backing (write_command d v p) = backing d.
Proof.
  unfold write_command, read_sectors, write_sectors, pio_sectors, begin_dma.
  destruct (command_lba d) as [[? ?]|], (bytes_per_second_of (dma_mode d)); cbv zeta;
  repeat match goal with |- context [if ?b then _ else _] => destruct b end; reflexivity.
Qed.

Lemma backing_write_port d port v p : ata_inv d -> backing (write_port_at d port v p).2 = backing d.
Proof.
  intros Hi. unfold write_port_at. cbv zeta. set (e := block_poll_skip (reset_alt_status_run d)).
  assert (He : ata_inv e) by (apply (inv_same d); try reflexivity; [|done]; destruct (inv_base d Hi); by split).
  change (backing d) with (backing e). clearbody e. destruct (port =? _); [by destruct (has v 4)|].
  destruct (negb _); [done|]. destruct (_ && _); [done|]. cbn [snd].
  assert (Hb : backing (write_data_byte e v p) = backing e).
  { destruct (decide (phase e = DataOut)) as [Hp|Hp].
    - rewrite (write_data_byte_spec e v p He Hp). cbv zeta. by destruct (_ =? _)%nat.
    - unfold write_data_byte. by rewrite bool_decide_eq_false_2. }
  pose proof (backing_command e v p) as Hc.
  repeat match goal with |- context [match ?z with _ => _ end] => is_var z; destruct z
    | |- context [match port - PRIMARY_CMD_BASE with _ => _ end] => destruct (port - PRIMARY_CMD_BASE) end; done.
Qed.

Lemma dma_payload_store n : forall d l s d', ata_inv d -> 0 <= l -> read_sectors_from d l n = Some (s, d') -> backing d' = backing d.
Proof.
  induction n as [|n IH]; intros d l s d' Hi Hl E; cbn [read_sectors_from] in E; [by injection E as _ <-|].
  destruct (read_lba_inv d l Hi Hl) as (s1 & d1 & E1 & Hi1 & _ & c & Hd1). rewrite E1 in E. cbn [mbind option_bind] in E.
  assert (Hb : backing d1 = backing d) by (by rewrite Hd1). destruct s1 as [s1|]; [|by injection E as _ <-].
  destruct (read_sectors_from d1 (l + 1) n) as [[r d2]|] eqn:E2; cbn [mbind option_bind] in E; [|done].
  injection E as _ <-. rewrite <- Hb. apply (IH d1 (l + 1) r d2); [done|lia|done].
Qed.

(** The only two actions that reach the store, on the clock. *)
Lemma advance_store d ticks d' : ata_inv d -> 0 <= ticks -> advance_master_ticks d ticks = Some d' ->
  forall k, 0 <= k -> store_read (backing d') k = store_read (backing d) k \/
    (exists p, pending_command d = Some p /\ action p = CommitWrite /\ k = pio_lba d /\
      store_read (backing d') k = Some (buffer d, false)).
Proof.
  intros Hi Ht E k Hk. unfold advance_master_ticks in E. destruct (pending_command d) as [p|] eqn:Ep; [|injection E as <-; by left].
  destruct (ticks <? ticks_remaining p); [injection E as <-; by left|].
  destruct (decide (action p = CommitWrite)) as [Ha|Ha].
  - assert (Hw : 1 <= ticks_remaining p) by (pose proof (ai_stage d Hi) as Hs; unfold stage_ok in Hs; rewrite Ep in Hs;
      destruct (dma_request d), (phase d); try done; lia).
    pose proof (ai_stage d Hi) as Hs. unfold stage_ok in Hs. rewrite Ep in Hs.
    destruct (dma_request d) eqn:Ed; [done|]. destruct (phase d) eqn:Eph; [|done..]. destruct Hs as (_ & _ & Hact).
    rewrite Ha in Hact, E. destruct Hact as [Hlen Hrem]. destruct (in_range d Hi Hrem) as [Hlba _]. unfold finish_pending in E.
    set (e := reset_alt_status_run (d <| pending_command := None |>)) in *.
    assert (Hb : base e) by (destruct (inv_base d Hi); by split).
    destruct (commit_write_spec e Hb Hrem (ai_fits d Hi) Hlen) as (b & c & Hst & Hc). cbv zeta in Hc.
    destruct Hc as (Hb1 & Ht1 & Ec). rewrite Ec in E. injection E as <-.
    match type of Hb1 with base ?x => set (d1 := x) in * end.
    assert (Hr : forall x, (forall j, store_read (backing (after_commit x)) j = store_read (backing x) j)).
    { intros x j. unfold after_commit. destruct (0 <? _); [done|]. cbv zeta.
      change (backing (x <| phase := Idle |> <| status := READY |> <| error := 0 |>)) with (backing x).
      pose proof (commit_read Pio (backing x) j) as Hcr. destruct (store_commit Pio (backing x)) as [b' []]; exact Hcr. }
    rewrite Hr. unfold advance_pio_task_file. cbv zeta. rewrite backing_task_file.
    change (store_read b k = store_read (backing d) k \/ exists p0, Some p = Some p0 /\ action p0 = CommitWrite /\
      k = pio_lba d /\ store_read b k = Some (buffer d, false)).
    destruct (Z.eq_dec k (pio_lba d)) as [-> |Hne].
    + right. exists p. repeat split; [done|]. by apply (write_read_same (backing d) (pio_lba d)).
    + left. by apply (write_read_other (backing d) (pio_lba d) k (buffer d) b).
  - left. assert (Hsame : forall x, reset_alt_status_run (d <| pending_command := None |>) = x -> backing x = backing d) by by intros x <-.
    unfold finish_pending in E. set (e := reset_alt_status_run _) in *. specialize (Hsame e eq_refl). rewrite <- Hsame.
    assert (Hc : coherent e) by exact (ai_coherent d Hi).
    assert (Hl : 0 <= pio_lba e) by (destruct (ai_regs d Hi) as [_ [Hl _]]; exact Hl). clearbody e.
    destruct (action p); try done; try (injection E as <-; reflexivity).
    + unfold prepare_read_sector in E. destruct (read_lba_stable e (pio_lba e) Hc Hl) as (c & Er). rewrite Er in E. cbn [mbind option_bind] in E.
      by destruct (store_read (backing e) (pio_lba e)) as [[s dg]|]; injection E as <-.
    + injection E as <-. unfold apply_set_features. repeat match goal with |- context [if ?b then _ else _] => destruct b end; reflexivity.
    + pose proof (flush_read (backing e) k) as Hfr. destruct (store_flush (backing e)) as [b failed]. by destruct failed; injection E as <-.
Qed.

Lemma dma_write_store d data ok d' r : ata_inv d -> dma_request d = Some r -> complete_dma_write d data = Some (ok, d') ->
  forall k, 0 <= k -> store_read (backing d') k = store_read (backing d) k \/
    (direction r = MemoryToDevice /\ zlen data = byte_len r /\ lba r <= k < lba r + sectors r /\
      exists s, chunks (Z.to_nat (sectors r)) data !! Z.to_nat (k - lba r) = Some s /\ store_read (backing d') k = Some (s, false)).
Proof.
  intros Hi Er E k Hk. unfold complete_dma_write in E. rewrite Er in E.
  destruct (stage_request d r Hi Er) as (_ & _ & _ & _ & _ & (Hl & Hn & Ht & _)).
  destruct (_ || _) eqn:Eg; [injection E as _ <-; by left|]. apply orb_false_iff in Eg as [Eg1 Eg2].
  apply negb_false_iff, bool_decide_eq_true in Eg1. apply negb_false_iff, Z.eqb_eq in Eg2.
  assert (Hdiv : (length data / SECTOR)%nat = Z.to_nat (sectors r)).
  { unfold byte_len, zlen in Eg2. apply Nat2Z.inj. rewrite Nat2Z.inj_div, Eg2, Z.div_mul by (unfold SECTOR; lia). lia. }
  rewrite Hdiv in E.
  assert (Hlen : (Z.to_nat (sectors r) * SECTOR <= length data)%nat) by (unfold byte_len, zlen in Eg2; lia).
  destruct (write_sectors_from_inv d (lba r) (Z.to_nat (sectors r)) data Hi Hl Hlen) as (ok1 & d1 & E1 & Hi1 & Hd1).
  rewrite E1 in E. cbn [mbind option_bind] in E.
  assert (Hend : lba r + Z.of_nat (Z.to_nat (sectors r)) <= total_sectors d) by lia.
  destruct (dma_write_content _ d (lba r) data ok1 d1 Hi Hl Hend Hlen E1) as [-> [_ Hw]]. cbn [negb] in E.
  pose proof (commit_read Dma (backing d1) k) as Hcr. destruct (store_commit Dma (backing d1)) as [b failed]. cbn [fst] in Hcr.
  assert (Hbk : backing d' = b).
  { destruct failed; injection E as _ <-; [reflexivity|].
    unfold complete_ok, raise_irq, advance_dma_task_file. cbn [backing update]. cbv zeta. by rewrite backing_task_file. }
  rewrite Hbk, Hcr, (Hw k Hk). unfold overlay. destruct (Z.leb_spec (lba r) k); [|by left].
  destruct (chunks (Z.to_nat (sectors r)) data !! Z.to_nat (k - lba r)) as [s|] eqn:Es; [|by left]. right.
  assert (Hlt := lookup_lt_Some _ _ _ Es). rewrite chunks_length in Hlt. split; [done|]. split; [done|]. split; [lia|]. by exists s.
Qed.

Lemma address_valid lba n : 0 <= lba < 2 ^ 28 -> Forall valid (address_script lba n).
Proof.
  intros Hl. destruct (drive_byte lba Hl) as (H8 & _). unfold address_script. rewrite !Forall_cons. cbn [valid].
  split_and!; first [exact H8 | apply wrap8 | solve [unfold in_width; lia] | lia | constructor].
Qed.

Lemma new_settled cached (b : B) total : settled (with_backing cached b total).
Proof. split; [apply with_backing_inv|done..]. Qed.

(** C19.  READ SECTORS through the ports delivers the addressed sectors: on a disk at rest, programming an
    LBA28 address and a count, writing command 20h and taking 512 bytes from the data port after
    each wait yields exactly the bytes of those sectors in order, leaves the disk at rest with
    DRDY and DSC, an interrupt pending and the sectors untouched, and the task file holds the
    block after the last one with a count of zero. The store is any stable one. *)
Theorem pio_read_delivers (d : AtaDisk B) (lba n : Z) (waits : list Z) (Hrest : settled d) (Hl : 0 <= lba)
  (Hn : 1 <= n <= 256) (Hend : lba + n <= total_sectors d) (Hlen : zlen waits = n)
  (Hw : Forall (fun w => 1 <= w < 2 ^ 64) waits) : exists d',
  run (read_script lba n waits) d =
    Some (replicate 6 (Flag true) ++ mbind shown (sectors_at (backing d) lba (Z.to_nat n)), d') /\
  settled d' /\ status d' = READY /\ irq_pending d' = true /\ backing d' = backing d /\
  sector_count d' = 0 /\ addressed d' (lba + n).
Proof. by apply read_script_spec. Qed.

(** C20.  WRITE SECTORS through the ports stores the bytes given and nothing else: on a disk at rest, the
    addressed sectors become the 512-byte blocks written to the data port, every other
    sector is what it was, and the command ends with DRDY and DSC and an interrupt, or
    with ERR and ABRT exactly when the host refused the commit. The store is any stable one. *)
Theorem pio_write_stores (d : AtaDisk B) (lba wait : Z) (ws : list (Z * list Z)) (Hrest : settled d) (Hl : 0 <= lba)
  (Hn : 1 <= zlen ws <= 256) (Hend : lba + zlen ws <= total_sectors d) (Hwait : 1 <= wait < 2 ^ 64)
  (Hws : Forall (fun w => 1 <= w.1 < 2 ^ 64 /\ Forall u8 w.2 /\ length w.2 = SECTOR) ws) : exists d' b',
  run (write_script lba wait ws) d = Some (replicate 6 (Flag true) ++ Nothing ::
    mbind (fun _ => replicate SECTOR (Flag true) ++ [Nothing]) ws, d') /\
  wrote (backing d) b' lba ws.*2 /\ settled d' /\ irq_pending d' = true /\ backing d' = (store_commit Pio b').1 /\
  status d' = (if (store_commit Pio b').2 then Z.lor DRDY ERR else READY).
Proof. by apply write_script_spec. Qed.

(** What each event does to one sector. *)
Lemma occur_store d d' e o k : ata_inv d -> valid e -> 0 <= k -> occur e d = Some (o, d') ->
  store_read (backing d') k = store_read (backing d) k \/
  (exists data, e = ServiceWrite k data /\ store_read (backing d') k = Some (data, false)) \/
  (exists ticks p, e = Advance ticks /\ pending_command d = Some p /\ action p = CommitWrite /\ k = pio_lba d /\
    store_read (backing d') k = Some (buffer d, false)) \/
  (exists data r s, e = DmaWriteDone data /\ dma_request d = Some r /\ direction r = MemoryToDevice /\
    lba r <= k < lba r + sectors r /\ chunks (Z.to_nat (sectors r)) data !! Z.to_nat (k - lba r) = Some s /\
    store_read (backing d') k = Some (s, false)).
Proof.
  intros Hi Hv Hk E. destruct (decide (store_read (backing d') k = store_read (backing d) k)) as [?|Hdiff]; [by left|right].
  assert (Hsame : backing d' = backing d -> False) by congruence.
  destruct e as [port prefix|port value prefix|ticks| | | | | | |l|l data|l n ata| |bytes|data|]; cbn [occur valid] in *;
    try (exfalso; apply Hsame; by injection E as _ <-).
  - pose proof (backing_read_port d port prefix Hi) as Hb. destruct (read_port_at d port prefix) as [v x].
    exfalso; apply Hsame; by injection E as _ <-.
  - pose proof (backing_write_port d port value prefix Hi) as Hb. destruct (write_port_at d port value prefix) as [v x].
    exfalso; apply Hsame; by injection E as _ <-.
  - right; left. destruct (advance_master_ticks d ticks) as [x|] eqn:Ea; [|done]. injection E as _ <-.
    destruct (advance_store d ticks x Hi (proj1 Hv) Ea k Hk) as [?|(p & ?)]; [done|]. by exists ticks, p.
  - unfold note_alt_status_read in E. cbv zeta in E. exfalso. apply Hsame.
    repeat match type of E with context [if ?b then _ else _] => destruct b
      | context [match ?x with Some _ => _ | None => _ end] => destruct x end; by injection E as _ <-.
  - destruct (read_lba_inv d l Hi ltac:(apply Hv)) as (s & x & Er & _ & _ & c & ->). rewrite Er in E.
    exfalso; apply Hsame; by injection E as _ <-.
  - left. destruct Hv as [[Hl _] Hs]. destruct (write_lba_inv d l data Hi Hl Hs) as (ok & x & Er & _ & Hok).
    rewrite Er in E. injection E as _ <-. destruct ok; [|by destruct Hok as [_ ->]]. destruct Hok as (b & c & Hw & ->).
    destruct (Z.eq_dec k l) as [-> |Hne].
    + exists data. split; [done|]. by apply (write_read_same (backing d) l).
    + destruct Hdiff. by apply (write_read_other (backing d) l k data b).
  - unfold charge_pio_transfer in E. cbv zeta in E. exfalso; apply Hsame. destruct (_ && _); by injection E as _ <-.
  - unfold read_dma_payload in E. exfalso; apply Hsame. destruct (dma_request d) as [r|] eqn:Ed; [|by injection E as _ <-].
    case_decide; [|by injection E as _ <-]. destruct (read_sectors_from d (lba r) _) as [[s x]|] eqn:Ef; [|done].
    injection E as _ <-. apply (dma_payload_store _ _ _ _ _ Hi) in Ef; [done|].
    destruct (stage_request d r Hi Ed) as (_ & _ & _ & _ & _ & (Hl & _)). done.
  - exfalso; apply Hsame. injection E as _ <-. unfold complete_dma_read. destruct (dma_request d); [|done]. destruct (_ || _); [done|].
    unfold complete_ok, raise_irq, advance_dma_task_file. cbn [backing update]. cbv zeta. by rewrite backing_task_file.
  - right; right. destruct (complete_dma_write d data) as [[ok x]|] eqn:Ew; [|done]. injection E as _ <-.
    destruct (dma_request d) as [r|] eqn:Ed.
    + destruct (dma_write_store d data ok x r Hi Ed Ew k Hk) as [?|(? & ? & ? & s & ? & ?)]; [done|]. by exists data, r, s.
    + unfold complete_dma_write in Ew. rewrite Ed in Ew. injection Ew as _ <-. done.
  - exfalso; apply Hsame. injection E as _ <-. unfold abort_dma. by destruct (dma_request d).
Qed.

(** C24.  No sector of a stable store changes behind the guest's back: in any reachable state, an event after which some
    sector reads differently is the BIOS service writing that sector, the clock
    committing the sector buffer of a WRITE SECTORS command at the command's current
    block, or the bus-master engine completing a write DMA whose range covers it; the sector
    then holds the bytes given for it. *)
Theorem sector_changes_accounted (d d' : AtaDisk B) (e : Event) (o : Seen) (k : Z) (Hi : ata_inv d) (Hv : valid e)
  (Hk : 0 <= k) (E : occur e d = Some (o, d')) (Hdiff : store_read (backing d') k <> store_read (backing d) k) :
  (exists data, e = ServiceWrite k data /\ store_read (backing d') k = Some (data, false)) \/
  (exists ticks p, e = Advance ticks /\ pending_command d = Some p /\ action p = CommitWrite /\ k = pio_lba d /\
    store_read (backing d') k = Some (buffer d, false)) \/
  (exists data r s, e = DmaWriteDone data /\ dma_request d = Some r /\ direction r = MemoryToDevice /\
    lba r <= k < lba r + sectors r /\ chunks (Z.to_nat (sectors r)) data !! Z.to_nat (k - lba r) = Some s /\
    store_read (backing d') k = Some (s, false)).
Proof. destruct (occur_store d d' e o k Hi Hv Hk E) as [?|?]; [done|assumption]. Qed.

End Store.

(** Four sectors, the second and third all 7. *)
Definition sample_image : list Z := replicate 512 0 ++ replicate 1024 7 ++ replicate 512 9.
Definition sample_disk : AtaDisk (list Z) := with_backing true sample_image 4.

Import AtaInv.Image.

Lemma pio_read_delivers_witness : exists d',
  run (read_script 1 2 [1; 5]) sample_disk =
    Some (replicate 6 (Flag true) ++ mbind shown (sectors_at sample_image 1 2), d') /\
  settled d' /\ status d' = READY /\ irq_pending d' = true /\ backing d' = sample_image /\
  sector_count d' = 0 /\ addressed d' (1 + 2).
Proof.
  apply (pio_read_delivers sample_disk 1 2 [1; 5]).
  - apply new_settled.
  - lia.
  - lia.
  - vm_compute. discriminate.
  - reflexivity.
  - repeat constructor; lia.
Defined.

Lemma pio_write_stores_witness : exists d' b',
  run (write_script 2 1 [(1, replicate 512 5)]) sample_disk = Some (replicate 6 (Flag true) ++ Nothing ::
    mbind (fun _ => replicate SECTOR (Flag true) ++ [Nothing]) [(1, replicate 512 5)], d') /\
  wrote sample_image b' 2 [replicate 512 5] /\ settled d' /\ irq_pending d' = true /\ backing d' = b' /\ status d' = READY.
Proof.
  destruct (pio_write_stores sample_disk 2 1 [(1, replicate 512 5)]) as (d' & b' & E & Hw & Hs & Hi & Hb & Hst).
  - apply new_settled.
  - lia.
  - vm_compute. split; discriminate.
  - vm_compute. discriminate.
  - lia.
  - apply Forall_singleton. split; [cbn; lia|]. split; [|reflexivity].
    apply Forall_replicate. cbn. unfold in_width. lia.
  - exists d', b'. exact (conj E (conj Hw (conj Hs (conj Hi (conj Hb Hst))))).
Defined.

(** The driver has given the sector; one tick is missing. *)
Definition giving : list Event := take 519 (write_script 2 1 [(1, replicate 512 5)]).
Definition committing_disk : AtaDisk (list Z) := from_option snd sample_disk (run giving sample_disk).
Definition committed_disk : AtaDisk (list Z) := from_option snd sample_disk (occur (Advance 1) committing_disk).

Lemma giving_valid : Forall valid giving.
Proof.
  apply Forall_take. unfold write_script. rewrite !Forall_app, !Forall_cons. cbn [mbind list_bind]. rewrite app_nil_r.
  unfold give_sector. rewrite Forall_app, Forall_fmap, Forall_singleton.
  assert (Ha : Forall valid (address_script 2 (zlen [(1, replicate 512 5)]))) by (apply address_valid; lia).
  split; [exact Ha|]. split; [cbn; unfold in_width; lia|]. split; [cbn; unfold in_width; lia|]. split; [|cbn; unfold in_width; lia].
  apply Forall_replicate. cbn. unfold in_width. lia.
Qed.

Lemma committing_inv : ata_inv committing_disk.
Proof.
  destruct (run_inv giving sample_disk (with_backing_inv true sample_image 4) giving_valid) as (o & d & E & Hi).
  unfold committing_disk. by rewrite E.
Qed.

Lemma sector_changes_accounted_witness :
  (exists data, Advance 1 = ServiceWrite 2 data /\ store_read (backing committed_disk) 2 = Some (data, false)) \/
  (exists ticks p, Advance 1 = Advance ticks /\ pending_command committing_disk = Some p /\ action p = CommitWrite /\
    2 = pio_lba committing_disk /\ store_read (backing committed_disk) 2 = Some (buffer committing_disk, false)) \/
  (exists data r s, Advance 1 = DmaWriteDone data /\ dma_request committing_disk = Some r /\ direction r = MemoryToDevice /\
    lba r <= 2 < lba r + sectors r /\ chunks (Z.to_nat (sectors r)) data !! Z.to_nat (2 - lba r) = Some s /\
    store_read (backing committed_disk) 2 = Some (s, false)).
Proof.
  apply (sector_changes_accounted committing_disk committed_disk (Advance 1) Nothing 2).
  - exact committing_inv.
  - split; [lia|reflexivity].
  - lia.
  - vm_compute. reflexivity.
  - vm_compute. discriminate.
Defined.

End Pio.
