(* ===== verification/Pci.v ===== *)
(** * PCI configuration space

    crates/izarravm-machine/src/pci.rs: configuration mechanism 1 (the address register at
    CF8h, the data window at CFCh-CFFh), the PIIX4 southbridge with its IDE function, and
    the byte-wise configuration accesses the PCI BIOS shares.  The configuration bytes of the
    Distira card belong to vega.rs: [ConfigBytes] is what the router asks of them and
    [distira_config] is the card's own register file. *)

From S2P Require Import Prelude Memory Canonical.

(** What the router asks of the card in slot 10h. *)
Class ConfigBytes (V : Type) := {
  pci_read_config_byte : V -> Z -> Z;
  pci_write_config_byte : V -> Z -> Z -> V
}.

Module Pci.

Definition PIIX_SLOT : Z := 7.
Definition INTEL_VENDOR_ID : Z := 32902.
Definition PIIX4_ISA_DEVICE_ID : Z := 28944.
Definition PIIX4_IDE_DEVICE_ID : Z := 28945.
Definition PIIX4_REVISION : Z := 1.
Definition PIIX4_BMIDE_POWER_ON_BASE : Z := 61440.
Definition PCI_COMMAND_IO : Z := 1.
Definition PCI_COMMAND_BUS_MASTER : Z := 4.
Definition PCI_CONFIG_ADDRESS_PORT : Z := 3320.
Definition PCI_CONFIG_DATA_PORT : Z := 3324.
Definition PCI_CONFIG_DATA_END : Z := 3327.
Definition DISTIRA_PCI_SLOT : Z := 16.

Record PciConfig := mkPci { address : Z; piix_ide_command : Z; piix_ide_bm_base : Z }.
#[export] Instance eta_PciConfig : Eta PciConfig :=
  fun p => mkPci (address p) (piix_ide_command p) (piix_ide_bm_base p).

Definition new : PciConfig :=
  mkPci 0 (Z.lor PCI_COMMAND_IO PCI_COMMAND_BUS_MASTER) PIIX4_BMIDE_POWER_ON_BASE.

Definition port_span_in (port : Z) (w : BusWidth) (start end_ : Z) : bool :=
  (start <=? port) &&
  match checked 16 (port + (width_bytes w - 1)) with Some last => last <=? end_ | None => false end.

Definition owns_io (port : Z) (w : BusWidth) : bool :=
  port_span_in port w PCI_CONFIG_ADDRESS_PORT (PCI_CONFIG_ADDRESS_PORT + 3)
  || port_span_in port w PCI_CONFIG_DATA_PORT PCI_CONFIG_DATA_END.

Definition read_register_bytes (register byte_offset : Z) (w : BusWidth) : Z :=
  Z.land (Z.shiftr register (byte_offset * 8)) (Z.shiftr 4294967295 (32 - width_bytes w * 8)).

Definition write_register_bytes (register byte_offset : Z) (w : BusWidth) (value : Z) : Z :=
  let mask := Z.shiftr 4294967295 (32 - width_bytes w * 8) in
  let shift := byte_offset * 8 in
  Z.lor (Z.ldiff register (wrap 32 (Z.shiftl mask shift))) (wrap 32 (Z.shiftl (Z.land value mask) shift)).

Definition ide_io_enabled (p : PciConfig) : bool := has (piix_ide_command p) PCI_COMMAND_IO.
Definition ide_bus_master_enabled (p : PciConfig) : bool := has (piix_ide_command p) PCI_COMMAND_BUS_MASTER.

(** [None]: the base does not fit the I/O space and nothing is decoded. *)
Definition ide_bus_master_io_base (p : PciConfig) : option Z :=
  if piix_ide_bm_base p <=? 65535 - 15 then Some (wrap 16 (piix_ide_bm_base p)) else None.

(* ------------------------------------------------------------------ *)
(** ** Configuration bytes *)

Definition read_piix4_isa_byte (offset : Z) : Z :=
  match offset with
  | 0 => Z.land INTEL_VENDOR_ID 255
  | 1 => Z.shiftr INTEL_VENDOR_ID 8
  | 2 => Z.land PIIX4_ISA_DEVICE_ID 255
  | 3 => Z.shiftr PIIX4_ISA_DEVICE_ID 8
  | 8 => PIIX4_REVISION
  | 9 => 0
  | 10 => 1
  | 11 => 6
  | 14 => 128
  | _ => 0
  end.

Definition read_piix4_ide_byte (p : PciConfig) (offset : Z) : Z :=
  match offset with
  | 0 => Z.land INTEL_VENDOR_ID 255
  | 1 => Z.shiftr INTEL_VENDOR_ID 8
  | 2 => Z.land PIIX4_IDE_DEVICE_ID 255
  | 3 => Z.shiftr PIIX4_IDE_DEVICE_ID 8
  | 4 => wrap 8 (piix_ide_command p)
  | 5 => wrap 8 (Z.shiftr (piix_ide_command p) 8)
  | 8 => PIIX4_REVISION
  | 9 => 128
  | 10 => 1
  | 11 => 1
  | 14 => 0
  | 32 | 33 | 34 | 35 => Z.land (Z.shiftr (Z.lor (piix_ide_bm_base p) 1) ((offset - 32) * 8)) 255
  | 60 => 255
  | 61 => 0
  | _ => 0
  end.

Definition write_piix4_ide_byte (p : PciConfig) (offset value : Z) : PciConfig :=
  match offset with
  | 4 => p <| piix_ide_command := Z.land value (Z.lor PCI_COMMAND_IO PCI_COMMAND_BUS_MASTER) |>
  | 5 => p
  | 32 | 33 | 34 | 35 =>
      let shift := (offset - 32) * 8 in
      let base := Z.lor (Z.ldiff (piix_ide_bm_base p) (Z.shiftl 255 shift)) (Z.shiftl value shift) in
      p <| piix_ide_bm_base := Z.ldiff base 15 |>
  | _ => p
  end.

Section Router.
Context {V : Type} `{!ConfigBytes V}.
Implicit Types (p : PciConfig) (vega : V).

Definition read_bdf_byte p (bus devfn offset : Z) vega : Z :=
  if (bus =? 0) && (devfn =? Z.shiftl PIIX_SLOT 3) then read_piix4_isa_byte offset
  else if (bus =? 0) && (devfn =? Z.lor (Z.shiftl PIIX_SLOT 3) 1) then read_piix4_ide_byte p offset
  else if (bus =? 0) && (devfn =? Z.shiftl DISTIRA_PCI_SLOT 3) then pci_read_config_byte vega offset
  else 255.

Definition write_bdf_byte p (bus devfn offset value : Z) vega : PciConfig * V :=
  if (bus =? 0) && (devfn =? Z.lor (Z.shiftl PIIX_SLOT 3) 1) then (write_piix4_ide_byte p offset value, vega)
  else if (bus =? 0) && (devfn =? Z.shiftl DISTIRA_PCI_SLOT 3) then (p, pci_write_config_byte vega offset value)
  else (p, vega).

Definition read_bdf p (bus devfn offset : Z) (w : BusWidth) vega : Z :=
  foldl Z.lor 0 ((fun index => Z.shiftl (read_bdf_byte p bus devfn (wrap 8 (offset + index)) vega) (index * 8))
    <$> seqZ 0 (width_bytes w)).

Definition write_bdf p (bus devfn offset : Z) (w : BusWidth) (value : Z) vega : PciConfig * V :=
  foldl (fun '(p, vega) index =>
      write_bdf_byte p bus devfn (wrap 8 (offset + index)) (Z.land (Z.shiftr value (index * 8)) 255) vega)
    (p, vega) (seqZ 0 (width_bytes w)).

(* ------------------------------------------------------------------ *)
(** ** Mechanism 1 *)

Definition read_data p (port_offset : Z) (w : BusWidth) vega : Z :=
  let bus := wrap 8 (Z.shiftr (address p) 16) in
  let devfn := wrap 8 (Z.shiftr (address p) 8) in
  let offset := wrap 8 (wrap 8 (Z.land (address p) 252) + wrap 8 port_offset) in
  if negb (has (address p) 2147483648) then
    match w with Byte => 255 | Word => 65535 | Dword => 4294967295 end
  else read_bdf p bus devfn offset w vega.

Definition write_data p (port_offset : Z) (w : BusWidth) (value : Z) vega : PciConfig * V :=
  if has (address p) 2147483648 then
    let bus := wrap 8 (Z.shiftr (address p) 16) in
    let devfn := wrap 8 (Z.shiftr (address p) 8) in
    let offset := wrap 8 (wrap 8 (Z.land (address p) 252) + wrap 8 port_offset) in
    write_bdf p bus devfn offset w value vega
  else (p, vega).

Definition read_io p (port : Z) (w : BusWidth) vega : option Z :=
  if port_span_in port w PCI_CONFIG_ADDRESS_PORT (PCI_CONFIG_ADDRESS_PORT + 3) then
    Some (read_register_bytes (address p) (port - PCI_CONFIG_ADDRESS_PORT) w)
  else if port_span_in port w PCI_CONFIG_DATA_PORT PCI_CONFIG_DATA_END then
    Some (read_data p (port - PCI_CONFIG_DATA_PORT) w vega)
  else None.

Definition write_io p (port : Z) (w : BusWidth) (value : Z) vega : bool * (PciConfig * V) :=
  if port_span_in port w PCI_CONFIG_ADDRESS_PORT (PCI_CONFIG_ADDRESS_PORT + 3) then
    (true, (p <| address := write_register_bytes (address p) (port - PCI_CONFIG_ADDRESS_PORT) w value |>, vega))
  else if port_span_in port w PCI_CONFIG_DATA_PORT PCI_CONFIG_DATA_END then
    (true, write_data p (port - PCI_CONFIG_DATA_PORT) w value vega)
  else (false, (p, vega)).

End Router.

Definition write_payload {Alloc : Allocator} (p : PciConfig) : FW :=
  Canonical.write_u32 (address p) >>
  Canonical.write_u8 (wrap 8 (Z.land (piix_ide_command p) (Z.lor PCI_COMMAND_IO PCI_COMMAND_BUS_MASTER))) >>
  Canonical.write_u32 (piix_ide_bm_base p).

(* ------------------------------------------------------------------ *)
(** ** The configuration registers of the Distira card *)

Definition DISTIRA_PCI_VENDOR_ID : Z := 4634.
Definition DISTIRA_PCI_DEVICE_ID : Z := 1.
Definition DISTIRA_PCI_REVISION : Z := 2.

Record DistiraConfig := mkDistira { distira_command : Z; distira_mem_base : Z; distira_init_enable : Z }.
#[export] Instance eta_DistiraConfig : Eta DistiraConfig :=
  fun v => mkDistira (distira_command v) (distira_mem_base v) (distira_init_enable v).

Definition distira_read (v : DistiraConfig) (offset : Z) : Z :=
  match offset with
  | 0 => Z.land DISTIRA_PCI_VENDOR_ID 255
  | 1 => Z.shiftr DISTIRA_PCI_VENDOR_ID 8
  | 2 => Z.land DISTIRA_PCI_DEVICE_ID 255
  | 3 => Z.shiftr DISTIRA_PCI_DEVICE_ID 8
  | 4 => wrap 8 (distira_command v)
  | 5 => wrap 8 (Z.shiftr (distira_command v) 8)
  | 8 => DISTIRA_PCI_REVISION
  | 9 => 0
  | 10 => 0
  | 11 => 4
  | 14 => 0
  | 16 | 17 | 18 | 19 => Z.land (Z.shiftr (distira_mem_base v) ((offset - 16) * 8)) 255
  | 64 | 65 | 66 | 67 => Z.land (Z.shiftr (distira_init_enable v) ((offset - 64) * 8)) 255
  | _ => 0
  end.

(** The card is also told the new [distira_init_enable], which is not configuration state. *)
Definition distira_write (v : DistiraConfig) (offset value : Z) : DistiraConfig :=
  match offset with
  | 4 => v <| distira_command := Z.lor (Z.ldiff (distira_command v) 2) (Z.land value 2) |>
  | 19 => v <| distira_mem_base := Z.shiftl value 24 |>
  | 64 | 65 | 66 | 67 =>
      let shift := (offset - 64) * 8 in
      v <| distira_init_enable :=
        Z.lor (Z.ldiff (distira_init_enable v) (Z.shiftl 255 shift)) (Z.shiftl value shift) |>
  | _ => v
  end.

#[export] Instance distira_config : ConfigBytes DistiraConfig :=
  {| pci_read_config_byte := distira_read; pci_write_config_byte := distira_write |}.

End Pci.
