(* ===== verification/BusMaster.v ===== *)
(** * The bus-master IDE engine

    crates/izarravm-machine/src/bmide.rs: the two register banks of the PIIX4 bus master, the
    physical region descriptors its engine reads from guest memory, and the transfer it runs
    against the disk's DMA request.  A slice of memory taken out of range panics, and so do
    the sector operations of a broken cache: the operations that can answer [option], [None]
    for a panic.  BusMasterSound.v shows it is never reached. *)

From S2P Require Import Prelude Memory Canonical SectorCache Ata.

Import Disk.

Module Engine.

Definition COMMAND_START : Z := 1.
Definition COMMAND_READ_FROM_DISK : Z := 8.
Definition STATUS_ACTIVE : Z := 1.
Definition STATUS_ERROR : Z := 2.
Definition STATUS_INTERRUPT : Z := 4.
Definition STATUS_DRIVE0_DMA : Z := 32.
Definition STATUS_DRIVE1_DMA : Z := 64.
Definition PRD_EOT : Z := 2147483648.
Definition PRD_RESERVED : Z := 2147418112.

Record PrdSpan := mkSpan { address : Z; len : Z }.

(** [DmaWriteSpan] *)
Record DmaWriteSpan := mkWritten { written_address : Z; written_len : Z }.

(** [PrdPlan] *)
Record PrdPlan := mkPlan { plan_spans : list PrdSpan; plan_retires_eot : bool }.

Record Transfer := mkTransfer {
  direction : Disk.AtaDmaDirection; spans : list PrdSpan; ticks_remaining : Z; byte_len : Z; retires_eot : bool
}.
#[export] Instance eta_Transfer : Eta Transfer := fun t =>
  mkTransfer (direction t) (spans t) (ticks_remaining t) (byte_len t) (retires_eot t).

Record Channel := mkChannel {
  command : Z; status : Z; prd_address : Z; transfer : option Transfer; completion_waits_for_stop : bool
}.
#[export] Instance eta_Channel : Eta Channel := fun c =>
  mkChannel (command c) (status c) (prd_address c) (transfer c) (completion_waits_for_stop c).

Definition default_channel : Channel := mkChannel 0 0 0 None false.

Record BusMasterIde := mkBmide { primary : Channel; secondary : Channel }.
#[export] Instance eta_BusMasterIde : Eta BusMasterIde := fun b => mkBmide (primary b) (secondary b).

Definition default : BusMasterIde := mkBmide default_channel default_channel.

(* ------------------------------------------------------------------ *)
(** ** Registers *)

Definition owns_io (port : Z) (w : BusWidth) (base : Z) : bool :=
  match checked 16 (port + (width_bytes w - 1)) with
  | None => false
  | Some end_ =>
      match checked 16 (base + 15) with
      | None => false
      | Some block_end => (base <=? port) && (end_ <=? block_end)
      end
  end.

Definition channel_byte (c : Channel) (register : Z) : Z :=
  match register with
  | 0 => command c
  | 2 => status c
  | 4 | 5 | 6 | 7 => wrap 8 (Z.shiftr (prd_address c) ((register - 4) * 8))
  | _ => 0
  end.

Definition read_byte (b : BusMasterIde) (offset : Z) : Z :=
  if offset <? 8 then channel_byte (primary b) offset else channel_byte (secondary b) (offset - 8).

Definition write_channel (c : Channel) (register value : Z) : Channel :=
  match register with
  | 0 => c <| command := Z.land value (Z.lor COMMAND_START COMMAND_READ_FROM_DISK) |>
  | 2 =>
      let drives := Z.lor STATUS_DRIVE0_DMA STATUS_DRIVE1_DMA in
      let st := Z.lor (Z.ldiff (status c) drives) (Z.land value drives) in
      c <| status := Z.ldiff st (Z.land value (Z.lor STATUS_ERROR STATUS_INTERRUPT)) |>
  | 4 | 5 | 6 | 7 =>
      if has (status c) STATUS_ACTIVE then c
      else
        let shift := (register - 4) * 8 in
        let prd := Z.lor (Z.ldiff (prd_address c) (Z.shiftl 255 shift)) (Z.shiftl value shift) in
        c <| prd_address := Z.ldiff prd 3 |>
  | _ => c
  end.

Definition write_byte (b : BusMasterIde) (offset value : Z) : BusMasterIde :=
  if offset <? 8 then b <| primary := write_channel (primary b) offset value |>
  else b <| secondary := write_channel (secondary b) (offset - 8) value |>.

Definition read_io (b : BusMasterIde) (port : Z) (w : BusWidth) (base : Z) : Z :=
  let offset := port - base in
  foldl Z.lor 0 ((fun index => Z.shiftl (read_byte b (offset + index)) (index * 8)) <$> seqZ 0 (width_bytes w)).

Definition write_bytes (b : BusMasterIde) (offset : Z) (w : BusWidth) (value : Z) : BusMasterIde :=
  foldl (fun b index => write_byte b (offset + index) (Z.land (Z.shiftr value (index * 8)) 255))
    b (seqZ 0 (width_bytes w)).

Definition ticks_until_completion (b : BusMasterIde) : option Z := ticks_remaining <$> transfer (primary b).

Definition note_ide_irq (b : BusMasterIde) (is_secondary : bool) : BusMasterIde :=
  let raised c := c <| status := Z.lor (status c) STATUS_INTERRUPT |> in
  if is_secondary then b <| secondary := raised (secondary b) |> else b <| primary := raised (primary b) |>.

Definition reset_primary (b : BusMasterIde) : BusMasterIde := b <| primary := default_channel |>.

(* ------------------------------------------------------------------ *)
(** ** Physical region descriptors *)

(** The checks on one descriptor: the region it names, as address and byte count. *)
Definition descriptor_region (dir : Disk.AtaDmaDirection) (address descriptor : Z) : option (Z * Z) :=
  if has descriptor PRD_RESERVED || has address 1 then None
  else
    let address := match dir with Disk.MemoryToDevice => Z.ldiff address 3 | Disk.DeviceToMemory => address end in
    let encoded_count := wrap 16 descriptor in
    let count := if encoded_count =? 0 then 65536 else encoded_count in
    if has count 1 || (65536 <? Z.land address 65535 + count) then None else Some (address, count).

(** The loop of [parse_prds] from entry [index] on, [n] entries being left. *)
Fixpoint parse_entries (m : Memory) (table table_page_end byte_len : Z) (dir : Disk.AtaDmaDirection)
    (n : nat) (index covered : Z) (spans : list PrdSpan) : option PrdPlan :=
  match n with
  | O => None
  | S n =>
      off ← checked 64 (index * 8);
      entry ← checked 64 (table + off);
      match read_u32 m entry with
      | Err _ => None
      | Ok address =>
          second ← checked 64 (entry + 4);
          match read_u32 m second with
          | Err _ => None
          | Ok descriptor =>
              after ← checked 64 (entry + 8);
              if table_page_end <? after then None
              else
                '(address, count) ← descriptor_region dir address descriptor;
                end_ ← checked 64 (address + count);
                if memory_len m <? end_ then None
                else
                  let used := Z.min count (byte_len - covered) in
                  let spans := spans ++ [mkSpan address used] in
                  let covered := covered + used in
                  if covered =? byte_len then
                    Some (mkPlan spans ((used =? count) && has descriptor PRD_EOT))
                  else if has descriptor PRD_EOT then None
                  else parse_entries m table table_page_end byte_len dir n (index + 1) covered spans
          end
      end
  end.

Definition parse_prds (m : Memory) (table byte_len : Z) (dir : Disk.AtaDmaDirection) : option PrdPlan :=
  if (byte_len =? 0) || has table 3 then None
  else
    table_page_end ← checked 64 (Z.ldiff table 4095 + 4096);
    let max_entries := Z.min ((table_page_end - table) / 8) (div_ceil byte_len 2) in
    parse_entries m table table_page_end byte_len dir (Z.to_nat max_entries) 0 0 [].

(** The copy loop from byte [position] of the payload on. *)
Fixpoint scatter_from (m : Memory) (spans : list PrdSpan) (payload : list Z) (position : Z) : option Memory :=
  match spans with
  | [] => Some m
  | span :: rest =>
      bytes ← slice payload position (position + len span);
      if memory_len m <? address span + len span then None
      else scatter_from (mkMemory (splice (data m) (address span) bytes)) rest payload (position + len span)
  end.

Definition scatter_write (m : Memory) (spans : list PrdSpan) (payload : list Z) : option Memory :=
  scatter_from m spans payload 0.

Fixpoint gather_read (m : Memory) (spans : list PrdSpan) : option (list Z) :=
  match spans with
  | [] => Some []
  | span :: rest =>
      bytes ← slice (data m) (address span) (address span + len span);
      payload ← gather_read m rest;
      Some (bytes ++ payload)
  end.

(* ------------------------------------------------------------------ *)
(** ** The engine *)

Section Operations.
Context {B : Type} `{!Disk.SectorStore B}.
Implicit Types (b : BusMasterIde) (disk : Disk.AtaDisk B) (m : Memory).

Definition fail_primary b disk : BusMasterIde * Disk.AtaDisk B :=
  let c := (primary b) <| transfer := None |> in
  let c := c <| status := Z.ldiff (status c) STATUS_ACTIVE |> in
  let c := c <| status := Z.lor (status c) STATUS_ERROR |> <| completion_waits_for_stop := false |> in
  (b <| primary := c |>, Disk.abort_dma disk).

(** A completion that waited is acknowledged. *)
Definition retire b : BusMasterIde :=
  b <| primary := (primary b) <| status := Z.ldiff (status (primary b)) STATUS_ACTIVE |>
                              <| completion_waits_for_stop := false |> |>.

Definition write_io b (port : Z) (w : BusWidth) (value : Z) (disk : option (Disk.AtaDisk B)) (base : Z) :
    BusMasterIde * option (Disk.AtaDisk B) :=
  let old_command := command (primary b) in
  let was_active := has (status (primary b)) STATUS_ACTIVE in
  let b := write_bytes b (port - base) w value in
  match disk with
  | None => (b, None)
  | Some d =>
      let stopped := has old_command COMMAND_START && negb (has (command (primary b)) COMMAND_START)
        && (was_active || bool_decide (is_Some (Disk.dma_request d))) in
      let changed_direction := was_active
        && has (Z.lxor old_command (command (primary b))) COMMAND_READ_FROM_DISK in
      if stopped && completion_waits_for_stop (primary b) then (retire b, Some d)
      else if stopped || changed_direction then let '(b, d) := fail_primary b d in (b, Some d)
      else (b, Some d)
  end.

Definition synchronize b (bus_master_enabled : bool) m disk (prefix_ticks : Z) : BusMasterIde * Disk.AtaDisk B :=
  if bool_decide (is_Some (transfer (primary b))) then
    if negb bus_master_enabled || negb (bool_decide (is_Some (Disk.dma_request disk))) then fail_primary b disk
    else (b, disk)
  else if completion_waits_for_stop (primary b) then
    (if negb bus_master_enabled then retire b else b, disk)
  else if negb bus_master_enabled || negb (has (command (primary b)) COMMAND_START) then (b, disk)
  else
    match Disk.dma_request disk with
    | None => (b, disk)
    | Some request =>
        let read_from_disk := has (command (primary b)) COMMAND_READ_FROM_DISK in
        if negb (eqb read_from_disk (bool_decide (Disk.direction request = Disk.DeviceToMemory))) then
          fail_primary b disk
        else
          match parse_prds m (prd_address (primary b)) (Disk.byte_len request) (Disk.direction request) with
          | None => fail_primary b disk
          | Some plan =>
              let t := mkTransfer (Disk.direction request) (plan_spans plan)
                (saturate 64 (prefix_ticks + Z.max (Disk.dma_transfer_ticks request) 1))
                (Disk.byte_len request) (plan_retires_eot plan) in
              (b <| primary := (primary b) <| status := Z.lor (status (primary b)) STATUS_ACTIVE |>
                 <| completion_waits_for_stop := false |> <| transfer := Some t |> |>, disk)
          end
    end.

(** The two directions of a completion: whether it succeeded, the memory and the disk. *)
Definition move_data (t : Transfer) m disk : option (bool * Memory * Disk.AtaDisk B) :=
  match direction t with
  | Disk.DeviceToMemory =>
      '(payload, disk) ← Disk.read_dma_payload disk;
      match payload with
      | Some payload =>
          if zlen payload =? byte_len t then
            m ← scatter_write m (spans t) payload;
            Some (true, m, Disk.complete_dma_read disk (zlen payload))
          else Some (false, m, disk)
      | None => Some (false, m, disk)
      end
  | Disk.MemoryToDevice =>
      payload ← gather_read m (spans t);
      '(ok, disk) ← Disk.complete_dma_write disk payload;
      Some (ok, m, disk)
  end.

Definition reported (t : Transfer) : option (list DmaWriteSpan) :=
  if decide (direction t = Disk.DeviceToMemory) then
    Some ((fun span => mkWritten (wrap 32 (address span)) (wrap 32 (len span))) <$> spans t)
  else None.

Definition complete_primary b m disk : option (option (list DmaWriteSpan) * BusMasterIde * Memory * Disk.AtaDisk B) :=
  match transfer (primary b) with
  | None => Some (None, b, m, disk)
  | Some t =>
      let b := b <| primary := (primary b) <| transfer := None |> |> in
      '(ok, m, disk) ← move_data t m disk;
      if negb ok then
        let '(b, disk) := fail_primary b disk in Some (None, b, m, disk)
      else if retires_eot t then Some (reported t, retire b, m, disk)
      else
        Some (reported t, b <| primary := (primary b) <| status := Z.lor (status (primary b)) STATUS_ACTIVE |>
                                                    <| completion_waits_for_stop := true |> |>, m, disk)
  end.

Definition advance_master_ticks_with_writes b (master_ticks : Z) m disk :
    option (option (list DmaWriteSpan) * BusMasterIde * Memory * Disk.AtaDisk B) :=
  match transfer (primary b) with
  | None => Some (None, b, m, disk)
  | Some t =>
      if master_ticks <? ticks_remaining t then
        let t := t <| ticks_remaining := ticks_remaining t - master_ticks |> in
        Some (None, b <| primary := (primary b) <| transfer := Some t |> |>, m, disk)
      else complete_primary b m disk
  end.

End Operations.

(* ------------------------------------------------------------------ *)
(** ** The canonical payload *)

Definition direction_tag (d : Disk.AtaDmaDirection) : Z :=
  match d with Disk.DeviceToMemory => 0 | Disk.MemoryToDevice => 1 end.

Section Payload.
Context {Alloc : Allocator}.

Definition write_span (s : PrdSpan) : FW :=
  Canonical.write_u32 (wrap 32 (address s)) >> Canonical.write_u32 (wrap 32 (len s)).

Definition write_canonical_channel (c : Channel) : FW :=
  let '(present, tag, ticks, n, eot) :=
    match transfer c with
    | None => (false, 0, 0, 0, false)
    | Some t => (true, direction_tag (direction t), ticks_remaining t, wrap 32 (byte_len t), retires_eot t)
    end in
  let ss := match transfer c with Some t => spans t | None => [] end in
  Canonical.write_u8 (command c) >> Canonical.write_u8 (status c) >> Canonical.write_u32 (prd_address c) >>
  write_bool (completion_waits_for_stop c) >> write_bool present >> Canonical.write_u8 tag >>
  write_u64 ticks >> Canonical.write_u32 n >> write_bool eot >>
  Canonical.write_count (zlen ss) >> fw_each write_span ss.

Definition write_payload (b : BusMasterIde) : FW :=
  write_canonical_channel (primary b) >> write_canonical_channel (secondary b).

End Payload.

End Engine.
