(* ===== verification/Storage.v ===== *)
(** * The primary storage channel

    How the machine puts the disk, its bus master, PCI configuration space and guest memory
    together: the I/O arms of bus.rs that reach them and reconcile the bus master afterwards,
    the PCI BIOS write of bios.rs, the clock advance of timing.rs, mounting and ejecting
    (storage.rs), and the precondition canonical_state.rs checks before it captures the
    machine. *)

From S2P Require Import Prelude Memory SectorCache Ata AtaInv Pci BusMaster.
Import Ata.Disk.

Module Channel.

Record Storage (V B : Type) := mkStorage {
  pci : Pci.PciConfig; vega : V; ata : option (AtaDisk B); bmide : Engine.BusMasterIde; memory : Memory
}.
#[global] Arguments mkStorage {V B}.
#[global] Arguments pci {V B} _.
#[global] Arguments vega {V B} _.
#[global] Arguments ata {V B} _.
#[global] Arguments bmide {V B} _.
#[global] Arguments memory {V B} _.
#[export] Instance eta_Storage V B : Eta (Storage V B) := fun s =>
  mkStorage (pci s) (vega s) (ata s) (bmide s) (memory s).

Section Machine.
Context {V : Type} `{!ConfigBytes V} {B : Type} `{!SectorStore B}.
Implicit Types s : Storage V B.

(** Power-on, the drive bay empty. *)
Definition power_on (v : V) (m : Memory) : Storage V B := mkStorage Pci.new v None Engine.default m.

(* ------------------------------------------------------------------ *)
(** ** Port accesses *)

(** The block every write to one of the three ends with. *)
Definition reconcile s (prefix_ticks : Z) : Storage V B :=
  match ata s with
  | None => s
  | Some disk =>
      let '(b, disk) :=
        Engine.synchronize (bmide s) (Pci.ide_bus_master_enabled (pci s)) (memory s) disk prefix_ticks in
      s <| bmide := b |> <| ata := Some disk |>
  end.

(** The bus-master block is decoded where its base register puts it. *)
Definition bus_master_decodes s (port : Z) (w : BusWidth) : option Z :=
  base ← Pci.ide_bus_master_io_base (pci s);
  if Engine.owns_io port w base then Some base else None.

Definition bus_master_write s (port : Z) (w : BusWidth) (value base prefix_ticks : Z) : Storage V B :=
  if Pci.ide_io_enabled (pci s) then
    let '(b, disk) := Engine.write_io (bmide s) port w value (ata s) base in
    reconcile (s <| bmide := b |> <| ata := disk |>) prefix_ticks
  else s.

Definition bus_master_read s (port : Z) (w : BusWidth) (base : Z) : Z :=
  if Pci.ide_io_enabled (pci s) then Engine.read_io (bmide s) port w base
  else match w with Byte => 255 | Word => 65535 | Dword => 4294967295 end.

Definition task_file_write s (port value prefix_ticks : Z) : Storage V B :=
  match ata s with
  | None => s
  | Some disk =>
      reconcile (s <| ata := Some (write_port_at disk port (wrap 8 value) prefix_ticks).2 |>) prefix_ticks
  end.

(** [MachineBus::write_io], as far as it reaches the channel.  A wide write below the first
    two arms comes back byte by byte; a port none of the three arms answers is another
    device's. *)
Definition write_io s (port : Z) (w : BusWidth) (value prefix_ticks : Z) : Storage V B :=
  let '(handled, (p, v)) := Pci.write_io (pci s) port w value (vega s) in
  if handled : bool then reconcile (s <| pci := p |> <| vega := v |>) prefix_ticks
  else
    match bus_master_decodes s port w with
    | Some base => bus_master_write s port w value base prefix_ticks
    | None =>
        if bool_decide (w = Byte) && owns_port port then task_file_write s port value prefix_ticks else s
    end.

(** The PCI BIOS configuration write, which takes no machine time. *)
Definition bios_pci_write s (bus devfn offset : Z) (w : BusWidth) (value : Z) : Storage V B :=
  let '(p, v) := Pci.write_bdf (pci s) bus devfn (wrap 8 offset) w value (vega s) in
  reconcile (s <| pci := p |> <| vega := v |>) 0.

(* ------------------------------------------------------------------ *)
(** ** Time *)

(** What a clock advance tells the rest of the machine: the memory the device wrote, the
    interrupt it requests, the access light. *)
Record Notice := mkNotice {
  device_writes : list Engine.DmaWriteSpan; primary_irq : bool; accessed : bool
}.
Definition silent : Notice := mkNotice [] false false.

(** The disk's clock, then the engine's.  [None]: a panic. *)
Definition advance_channel s (ticks : Z) : option (list Engine.DmaWriteSpan * Storage V B) :=
  match ata s with
  | None => Some ([], s)
  | Some disk =>
      disk ← advance_master_ticks disk ticks;
      '(written, b, m, disk) ← Engine.advance_master_ticks_with_writes (bmide s) ticks (memory s) disk;
      Some (from_option id [] written, s <| bmide := b |> <| memory := m |> <| ata := Some disk |>)
  end.

(** IRQ 14 and the access light. *)
Definition forward_irq s : bool * bool * Storage V B :=
  match ata s with
  | None => (false, false, s)
  | Some disk =>
      let '(irq, disk) := take_irq disk in
      let b := if irq : bool then Engine.note_ide_irq (bmide s) false else bmide s in
      let '(bytes, disk) := take_access_bytes disk in
      (irq, 0 <? bytes, s <| bmide := b |> <| ata := Some disk |>)
  end.

Definition advance_devices s (ticks : Z) : option (Notice * Storage V B) :=
  '(written, s) ← advance_channel s ticks;
  let '(irq, light, s) := forward_irq s in
  Some (mkNotice written irq light, s).

(* ------------------------------------------------------------------ *)
(** ** Media *)

Definition mount s (cache_enabled : bool) (store : B) (total : Z) : Storage V B :=
  s <| bmide := Engine.reset_primary (bmide s) |> <| ata := Some (with_backing cache_enabled store total) |>.

Definition eject s : Storage V B :=
  s <| bmide := Engine.reset_primary (bmide s) |> <| ata := None |>.

(** [MachineCanonicalCaptureError::DanglingBmideTransfer] *)
Definition dangling_transfer s : bool :=
  bool_decide (is_Some (Engine.ticks_until_completion (bmide s))) &&
  negb (bool_decide (is_Some (disk ← ata s; dma_request disk))).

(* ------------------------------------------------------------------ *)
(** ** Everything that happens to the channel *)

Inductive Happening :=
| IoWrite (port : Z) (w : BusWidth) (value prefix_ticks : Z)
| BiosPciWrite (bus devfn offset : Z) (w : BusWidth) (value : Z)
| AdvanceClock (ticks : Z)
| DiskAccess (e : AtaInv.Protocol.Event)
| MemoryWrite (address value : Z)
| PacketIrq
| Mount (cache_enabled : bool) (store : B) (total : Z)
| Eject.

(** The disk accesses that do not go through the arms above: task-file reads, the poll
    bookkeeping, the BIOS disk service. *)
Definition direct (e : AtaInv.Protocol.Event) : bool :=
  match e with
  | Protocol.WritePort _ _ _ | Protocol.Advance _ | Protocol.DmaPayload | Protocol.DmaReadDone _
  | Protocol.DmaWriteDone _ | Protocol.DmaAbort => false
  | _ => true
  end.

Definition happen (h : Happening) s : option (Notice * Storage V B) :=
  match h with
  | IoWrite port w value prefix => Some (silent, write_io s port w value prefix)
  | BiosPciWrite bus devfn offset w value => Some (silent, bios_pci_write s bus devfn offset w value)
  | AdvanceClock ticks => advance_devices s ticks
  | DiskAccess e =>
      match ata s with
      | None => Some (silent, s)
      | Some disk => '(_, disk) ← Protocol.occur e disk; Some (silent, s <| ata := Some disk |>)
      end
  | MemoryWrite address value =>
      match write_u8 (memory s) address value with
      | Ok m => Some (silent, s <| memory := m |>)
      | Err _ => Some (silent, s)
      end
  | PacketIrq => Some (silent, s <| bmide := Engine.note_ide_irq (bmide s) true |>)
  | Mount cache_enabled store total => Some (silent, mount s cache_enabled store total)
  | Eject => Some (silent, eject s)
  end.

Fixpoint history (hs : list Happening) s : option (list Notice * Storage V B) :=
  match hs with
  | [] => Some ([], s)
  | h :: hs => '(n, s) ← happen h s; '(ns, s) ← history hs s; Some (n :: ns, s)
  end.

End Machine.
End Channel.
