(* ===== verification/DiskBytes.v ===== *)
(** * The bytes and the request of the disk

    What the bus master relies on: the sectors and the sector buffer hold bytes, and only
    the command register and a reset touch the DMA request. *)

From S2P Require Import Prelude SectorCache Ata AtaInv AtaPio.
Import Ata.Disk AtaInv.Protocol AtaPio.Pio.

Module Bytes.
Section Bytes.
Context {B : Type} `{StoreLaws B}.
Implicit Types d : AtaDisk B.

(* ------------------------------------------------------------------ *)
(** ** The request *)

(** [d'] has the request of [d], and a buffer of bytes if [d] has one. *)
Definition keeps d d' : Prop := dma_request d' = dma_request d /\ (Forall u8 (buffer d) -> Forall u8 (buffer d')).

Lemma keeps_refl d : keeps d d.
Proof. done. Qed.

Lemma keeps_trans d1 d2 d3 : keeps d1 d2 -> keeps d2 d3 -> keeps d1 d3.
Proof. intros [E1 B1] [E2 B2]. split; [congruence|auto]. Qed.

(** An operation that leaves both fields alone. *)
Lemma keeps_same d d' : dma_request d' = dma_request d -> buffer d' = buffer d -> keeps d d'.
Proof. intros E1 E2. split; [done|by rewrite E2]. Qed.

Lemma keeps_empty d d' : dma_request d' = dma_request d -> buffer d' = [] -> keeps d d'.
Proof. intros E1 E2. split; [done|by rewrite E2]. Qed.

Lemma task_file_keeps d l : keeps d (set_task_file_address d l).
Proof. pose proof (task_file_same d l) as E. cbv zeta in E. injection E as _ E _ _ _ _ E2. by apply keeps_same. Qed.

Lemma advance_pio_keeps d : keeps d (advance_pio_task_file d).
Proof. unfold advance_pio_task_file. cbv zeta. eapply keeps_trans; [|apply task_file_keeps]. by apply keeps_same. Qed.

Lemma read_byte_keeps d p : keeps d (read_data_byte d p).2.
Proof.
  unfold read_data_byte. destruct (negb _); [apply keeps_refl|]. cbv zeta.
  destruct (_ <=? _)%nat; [|by apply keeps_same].
  set (e := _ <| buffer_pos := 0%nat |>).
  assert (He : keeps d e) by by apply keeps_empty. clearbody e.
  set (e' := if 0 <? pio_sectors_remaining e then _ else e).
  assert (He' : keeps d e').
  { unfold e'. destruct (0 <? _); [|done]. eapply keeps_trans; [exact He|]. eapply keeps_trans; [|apply advance_pio_keeps].
    by apply keeps_same. }
  clearbody e'. destruct (0 <? _); (eapply keeps_trans; [exact He'|by apply keeps_same]).
Qed.

Lemma write_byte_keeps d v p : u8 v -> keeps d (write_data_byte d v p).
Proof.
  intros Hv. unfold write_data_byte. destruct (negb _); [apply keeps_refl|]. cbv zeta.
  set (e := if (buffer_pos d <? length (buffer d))%nat then _ else d).
  assert (He : keeps d e).
  { unfold e. destruct (_ <? _)%nat; [|apply keeps_refl]. split; [done|]. intros Hb. by apply Forall_insert. }
  clearbody e. destruct (_ <=? _)%nat; [|done]. eapply keeps_trans; [exact He|by apply keeps_same].
Qed.

Lemma read_port_keeps d port p : keeps d (read_port_at d port p).2.
Proof.
  unfold read_port_at. destruct (port =? _); [apply keeps_refl|]. destruct (negb _); [apply keeps_refl|]. cbv zeta.
  assert (Hr : keeps d (reset_alt_status_run d)) by by apply keeps_same.
  pose proof (keeps_trans _ _ _ Hr (read_byte_keeps (reset_alt_status_run d) p)) as Hb.
  destruct (read_data_byte (reset_alt_status_run d) p) as [v e].
  repeat match goal with |- context [match ?z with _ => _ end] => is_var z; destruct z
    | |- context [match port - PRIMARY_CMD_BASE with _ => _ end] => destruct (port - PRIMARY_CMD_BASE) end;
    first [exact Hb | exact Hr | by apply keeps_same].
Qed.

(* ------------------------------------------------------------------ *)
(** ** The clock *)

Lemma read_lba_keeps d l o d' : read_lba d l = Some (o, d') -> keeps d d'.
Proof.
  unfold read_lba. destruct (Cache.get _ _) as [[hit c]|]; [|done]. cbn [mbind option_bind].
  destruct hit; [by intros [= _ <-]|]. destruct (store_read _ _) as [[? []]|]; [by intros [= _ <-]| |by intros [= _ <-]].
  destruct (Cache.put _ _ _); [by intros [= _ <-]|done].
Qed.

Lemma write_lba_keeps d l s o d' : write_lba d l s = Some (o, d') -> keeps d d'.
Proof.
  unfold write_lba. destruct (_ <? _); [by intros [= _ <-]|]. destruct (store_write _ _ _); [|by intros [= _ <-]].
  destruct (Cache.put _ _ _); [by intros [= _ <-]|done].
Qed.

Lemma prepare_read_request d d' : prepare_read_sector d = Some d' -> dma_request d = None -> dma_request d' = None.
Proof.
  unfold prepare_read_sector. destruct (read_lba d (pio_lba d)) as [[s f]|] eqn:Er; [|done]. cbn [mbind option_bind].
  apply read_lba_keeps in Er as [Er _]. destruct s; intros [= <-] E; [|done]. rewrite <- E, <- Er. reflexivity.
Qed.

Lemma after_commit_request d : dma_request d = None -> dma_request (after_commit d) = None.
Proof.
  intros E. unfold after_commit. destruct (0 <? _); [exact E|]. cbv zeta.
  destruct (store_commit _ _) as [b failed]. by destruct failed.
Qed.

Lemma commit_request d d' : commit_write_sector d = Some d' -> dma_request d = None -> dma_request d' = None.
Proof.
  rewrite commit_write_unfold. destruct (write_lba _ _ _) as [[w f]|] eqn:Ew; [|done]. cbn [mbind option_bind].
  apply write_lba_keeps in Ew as [Ew _]. change (dma_request (d <| buffer := [] |> <| buffer_pos := 0%nat |>)) with (dma_request d) in Ew.
  destruct w; cbn [negb]; [|by intros [= <-]]. cbv zeta. intros [= <-] E. apply after_commit_request.
  generalize (saturate 64 (last_access_bytes f + Z.of_nat SECTOR)). intros n. destruct (0 <? _).
  - match goal with |- context [advance_pio_task_file ?x] => destruct (advance_pio_keeps x) as [Hk _] end.
    rewrite Hk. cbn. congruence.
  - cbn. congruence.
Qed.

Lemma features_request d f m : dma_request (apply_set_features d f m) = None.
Proof. unfold apply_set_features. repeat case_match; reflexivity. Qed.

Lemma finish_request d a d' : finish_pending d a = Some d' -> dma_request d = None -> dma_request d' = None.
Proof.
  unfold finish_pending. cbv zeta. intros E Hd.
  assert (He : dma_request (reset_alt_status_run d) = None) by exact Hd.
  revert E He. generalize (reset_alt_status_run d). clear d Hd. intros e.
  destruct a; intros E He; first
    [ by apply (prepare_read_request e) | by apply (commit_request e)
    | by injection E as <-; apply features_request
    | by destruct (store_flush _) as [b []]; injection E as <-
    | by injection E as <- ].
Qed.

Lemma advance_request d ticks d' : ata_inv d -> advance_master_ticks d ticks = Some d' -> dma_request d' = dma_request d.
Proof.
  intros Hi. unfold advance_master_ticks. destruct (pending_command d) as [p|] eqn:Ep; [|by intros [= <-]].
  pose proof (ai_stage d Hi) as Hs. unfold stage_ok in Hs. rewrite Ep in Hs.
  destruct (dma_request d) eqn:Ed; [done|]. destruct (_ <? _); [by intros [= <-]|].
  intros E. by apply (finish_request _ _ _ E).
Qed.

(** The command register answers no command while a request is outstanding. *)
Lemma write_port_request d port v p r : dma_request d = Some r ->
  dma_request (write_port_at d port v p).2 = Some r \/ dma_request (write_port_at d port v p).2 = None.
Proof.
  intros Hr. unfold write_port_at. cbv zeta.
  assert (He : dma_request (block_poll_skip (reset_alt_status_run d)) = Some r) by exact Hr.
  revert He. generalize (block_poll_skip (reset_alt_status_run d)). clear d Hr. intros d Hr.
  destruct (port =? _); [destruct (has v 4); [by right|by left]|].
  destruct (negb _); [by left|]. destruct (_ && _); [by left|]. left. cbn [snd].
  assert (Hc : dma_request (write_command d v p) = Some r).
  { unfold write_command. cbv zeta. by rewrite (bool_decide_eq_true_2 (is_Some (dma_request d))) by by rewrite Hr. }
  assert (Hb : dma_request (write_data_byte d v p) = Some r).
  { unfold write_data_byte. destruct (negb _); [done|]. cbv zeta. destruct (_ <? _)%nat, (_ <=? _)%nat; exact Hr. }
  repeat match goal with |- context [match ?z with _ => _ end] => is_var z; destruct z
    | |- context [match port - PRIMARY_CMD_BASE with _ => _ end] => destruct (port - PRIMARY_CMD_BASE) end;
    first [exact Hb | exact Hc | exact Hr].
Qed.

(** The disk accesses of Storage.v that bypass the reconciling arms. *)
Lemma direct_request d e o d' : (forall port v p, e <> WritePort port v p) -> (forall t, e <> Advance t) ->
  e <> DmaAbort -> (forall n, e <> DmaReadDone n) -> (forall data, e <> DmaWriteDone data) -> e <> DmaPayload ->
  occur e d = Some (o, d') -> dma_request d' = dma_request d.
Proof.
  intros H1 H2 H3 H4 H5 H6. destruct e as [port p|port v p|t| | | | | | |l|l data|l n a| |n|data|]; cbn [occur];
    try (by intros [= _ <-]); try congruence.
  - destruct (read_port_keeps d port p) as [E _]. destruct (read_port_at d port p) as [v x]. intros [= _ <-]. exact E.
  - unfold note_alt_status_read. cbv zeta.
    repeat match goal with |- context [if ?b then _ else _] => destruct b
      | |- context [match ?x with Some _ => _ | None => _ end] => destruct x end; by intros [= _ <-].
  - destruct (read_lba d l) as [[s x]|] eqn:E; [|done]. intros [= _ <-]. apply (read_lba_keeps _ _ _ _ E).
  - destruct (write_lba d l data) as [[s x]|] eqn:E; [|done]. intros [= _ <-]. apply (write_lba_keeps _ _ _ _ _ E).
  - unfold charge_pio_transfer. cbv zeta. destruct (_ && _); by intros [= _ <-].
Qed.

(* ------------------------------------------------------------------ *)
(** ** The bytes *)

Definition sectors_bytes (b : B) : Prop := forall k s dg, 0 <= k -> store_read b k = Some (s, dg) -> Forall u8 s.

Record bytes_ok d : Prop := { bo_sectors : sectors_bytes (backing d); bo_buffer : Forall u8 (buffer d) }.

Lemma command_buffer d v p : Forall u8 (buffer d) -> Forall u8 (buffer (write_command d v p)).
Proof.
  intros Hb. unfold write_command, read_sectors, write_sectors, pio_sectors, begin_dma.
  destruct (command_lba d) as [[? ?]|], (bytes_per_second_of (dma_mode d)); cbv zeta;
  repeat match goal with |- context [if ?b then _ else _] => destruct b end; first [exact Hb | constructor].
Qed.

Lemma write_port_buffer d port v p : u8 v -> Forall u8 (buffer d) -> Forall u8 (buffer (write_port_at d port v p).2).
Proof.
  intros Hv Hb. unfold write_port_at. cbv zeta.
  assert (He : Forall u8 (buffer (block_poll_skip (reset_alt_status_run d)))) by exact Hb.
  revert He. generalize (block_poll_skip (reset_alt_status_run d)). clear d Hb. intros d Hb.
  destruct (port =? _); [destruct (has v 4); [constructor|exact Hb]|].
  destruct (negb _); [exact Hb|]. destruct (_ && _); [exact Hb|]. cbn [snd].
  pose proof (command_buffer d v p Hb) as Hc. destruct (write_byte_keeps d v p Hv) as [_ Hd]. specialize (Hd Hb).
  repeat match goal with |- context [match ?z with _ => _ end] => is_var z; destruct z
    | |- context [match port - PRIMARY_CMD_BASE with _ => _ end] => destruct (port - PRIMARY_CMD_BASE) end;
    first [exact Hd | exact Hc | exact Hb].
Qed.

(** Sectors and bytes a caller hands in. *)
Definition handed_bytes (e : Event) : Prop :=
  match e with ServiceWrite _ data | DmaWriteDone data => Forall u8 data | _ => True end.

Lemma chunks_bytes n data s : Forall u8 data -> s ∈ chunks n data -> Forall u8 s.
Proof.
  revert data. induction n as [|n IH]; intros data Hd; cbn [chunks]; [by intros ?%elem_of_nil|].
  intros [-> |Hin]%elem_of_cons; [by apply Forall_take|]. apply (IH (drop SECTOR data)); [by apply Forall_drop|done].
Qed.

Lemma occur_sectors d e o d' : ata_inv d -> valid e -> handed_bytes e -> bytes_ok d -> occur e d = Some (o, d') ->
  sectors_bytes (backing d').
Proof.
  intros Hi Hv Hh [Hs Hb] E k s dg Hk Hr.
  destruct (occur_store d d' e o k Hi Hv Hk E)
    as [Es|[(data & -> & Es)|[(t & p & _ & _ & _ & _ & Es)|(data & r & x & -> & _ & _ & _ & Hx & Es)]]].
  - rewrite Es in Hr. by apply (Hs k s dg).
  - rewrite Es in Hr. injection Hr as <- _. exact Hh.
  - rewrite Es in Hr. injection Hr as <- _. exact Hb.
  - rewrite Es in Hr. injection Hr as <- _. apply (chunks_bytes (Z.to_nat (sectors r)) data); [exact Hh|]. by eapply list_elem_of_lookup_2.
Qed.

Lemma identify_bytes c h t n m : Forall u8 (identify_block c h t n m).
Proof. unfold identify_block. generalize (identify_words c h t n m). intros ws. induction ws as [|w ws IH]; [done|].
  rewrite bind_cons. apply Forall_app. split; [apply le_bytes_u8|exact IH]. Qed.

Lemma zero_sector_bytes : Forall u8 (replicate SECTOR 0).
Proof. apply Forall_replicate. unfold in_width. lia. Qed.

Lemma prepare_read_bytes d d' : base d -> bytes_ok d -> prepare_read_sector d = Some d' -> Forall u8 (buffer d').
Proof.
  intros [[_ [Hl _]] _ Hc] [Hs Hb]. unfold prepare_read_sector.
  destruct (read_lba_stable d (pio_lba d) Hc Hl) as (c & ->). cbn [mbind option_bind].
  destruct (store_read _ _) as [[s dg]|] eqn:E; intros [= <-]; [|done]. by apply (Hs (pio_lba d) s dg).
Qed.

Lemma after_commit_bytes d : Forall u8 (buffer d) -> Forall u8 (buffer (after_commit d)).
Proof.
  intros Hb. unfold after_commit. destruct (0 <? _); [exact zero_sector_bytes|]. cbv zeta.
  destruct (store_commit _ _) as [b failed]. by destruct failed.
Qed.

Lemma commit_bytes d d' : commit_write_sector d = Some d' -> Forall u8 (buffer d').
Proof.
  rewrite commit_write_unfold. destruct (write_lba _ _ _) as [[w f]|] eqn:Ew; [|done]. cbn [mbind option_bind].
  apply write_lba_keeps in Ew as [_ Ew]. specialize (Ew (Forall_nil_2 _)).
  destruct w; cbn [negb]; [|by intros [= <-]]. cbv zeta. intros [= <-]. apply after_commit_bytes.
  generalize (saturate 64 (last_access_bytes f + Z.of_nat SECTOR)). intros n. destruct (0 <? _); [|exact Ew].
  match goal with |- context [advance_pio_task_file ?x] => destruct (advance_pio_keeps x) as [_ Hk] end. by apply Hk.
Qed.

Lemma finish_bytes d a d' : base d -> bytes_ok d -> finish_pending d a = Some d' -> Forall u8 (buffer d').
Proof.
  intros Hb Hok. unfold finish_pending. cbv zeta.
  assert (Hb' : base (reset_alt_status_run d)) by (destruct Hb; by split).
  assert (Hok' : bytes_ok (reset_alt_status_run d)) by (destruct Hok; by split).
  revert Hb' Hok'. generalize (reset_alt_status_run d). clear d Hb Hok. intros d Hb Hok.
  pose proof (bo_buffer d Hok) as Hbuf. intros E.
  destruct a; try (injection E as <-; first [exact zero_sector_bytes | apply identify_bytes | exact Hbuf | solve [constructor]]).
  - by apply (prepare_read_bytes d).
  - by apply (commit_bytes d).
  - injection E as <-. unfold apply_set_features. repeat match goal with |- context [if ?b then _ else _] => destruct b end;
      first [exact Hbuf | constructor].
  - destruct (store_flush _) as [b []]; injection E as <-; [constructor|exact Hbuf].
Qed.

Lemma write_sectors_keeps n : forall d l data o d', write_sectors_from d l n data = Some (o, d') -> keeps d d'.
Proof.
  induction n as [|n IH]; intros d l data o d'; cbn [write_sectors_from]; [intros [= _ <-]; apply keeps_refl|].
  destruct (write_lba _ _ _) as [[w f]|] eqn:E; [|done]. cbn [mbind option_bind]. apply write_lba_keeps in E.
  destruct w; cbn [negb]; [|by intros [= _ <-]]. intros Hr. eapply keeps_trans; [exact E|by eapply IH].
Qed.

Lemma write_lba_irq d l s o d' : write_lba d l s = Some (o, d') -> interrupts_disabled d' = interrupts_disabled d.
Proof.
  unfold write_lba. destruct (_ <? _); [by intros [= _ <-]|]. destruct (store_write _ _ _); [|by intros [= _ <-]].
  destruct (Cache.put _ _ _); [by intros [= _ <-]|done].
Qed.

Lemma write_sectors_irq n : forall d l data o d', write_sectors_from d l n data = Some (o, d') ->
  interrupts_disabled d' = interrupts_disabled d.
Proof.
  induction n as [|n IH]; intros d l data o d'; cbn [write_sectors_from]; [by intros [= _ <-]|].
  destruct (write_lba _ _ _) as [[w f]|] eqn:E; [|done]. cbn [mbind option_bind]. apply write_lba_irq in E.
  destruct w; cbn [negb]; [|by intros [= _ <-]]. intros Hr. rewrite <- E. by eapply IH.
Qed.

Lemma read_sectors_keeps n : forall d l o d', read_sectors_from d l n = Some (o, d') -> keeps d d'.
Proof.
  induction n as [|n IH]; intros d l o d'; cbn [read_sectors_from]; [intros [= _ <-]; apply keeps_refl|].
  destruct (read_lba _ _) as [[s f]|] eqn:E; [|done]. cbn [mbind option_bind]. apply read_lba_keeps in E.
  destruct s as [s|]; [|by intros [= _ <-]]. destruct (read_sectors_from f (l + 1) n) as [[r g]|] eqn:Er; [|done].
  cbn [mbind option_bind]. intros [= _ <-]. eapply keeps_trans; [exact E|by eapply IH].
Qed.

Lemma dma_task_file_buffer d r : buffer (advance_dma_task_file d r) = buffer d.
Proof.
  unfold advance_dma_task_file. cbv zeta.
  match goal with |- context [set_task_file_address ?x ?l] => pose proof (task_file_same x l) as E end.
  cbv zeta in E. injection E as _ E. exact E.
Qed.

Lemma dma_done_buffer d r : Forall u8 (buffer d) -> Forall u8 (buffer (complete_ok (advance_dma_task_file d r))).
Proof.
  intros Hb. pose proof (dma_task_file_buffer d r) as E. revert E. generalize (advance_dma_task_file d r). intros e E.
  cbn. by rewrite E.
Qed.

Lemma complete_dma_read_buffer d n : Forall u8 (buffer d) -> Forall u8 (buffer (complete_dma_read d n)).
Proof.
  intros Hb. unfold complete_dma_read. destruct (dma_request d) as [r|]; [|done]. destruct (_ || _); [constructor|].
  by apply dma_done_buffer.
Qed.

Lemma complete_dma_write_buffer d data o d' : complete_dma_write d data = Some (o, d') -> Forall u8 (buffer d) ->
  Forall u8 (buffer d').
Proof.
  unfold complete_dma_write. destruct (dma_request d) as [r|]; [|by intros [= _ <-]].
  destruct (_ || _); [intros [= _ <-]; constructor|].
  destruct (write_sectors_from _ _ _ _) as [[w f]|] eqn:E; [|done]. cbn [mbind option_bind]. intros Hr Hb.
  apply write_sectors_keeps in E as [_ Hf]. destruct w; cbn [negb] in Hr; [|by injection Hr as _ <-].
  destruct (store_commit _ _) as [b failed]. destruct failed; injection Hr as _ <-; [constructor|].
  apply dma_done_buffer. exact (Hf Hb).
Qed.

(** Bytes stay bytes. *)
Lemma occur_bytes d e o d' : ata_inv d -> valid e -> handed_bytes e -> bytes_ok d -> occur e d = Some (o, d') -> bytes_ok d'.
Proof.
  intros Hi Hv Hh Hok E. split; [by apply (occur_sectors d e o d')|]. pose proof (bo_buffer d Hok) as Hb.
  destruct e as [port p|port v p|t| | | | | | |l|l data|l n a| |n|data|]; cbn [occur valid] in E, Hv; try (by injection E as _ <-).
  - destruct (read_port_keeps d port p) as [_ Hk]. destruct (read_port_at d port p) as [v x]. injection E as _ <-. by apply Hk.
  - pose proof (write_port_buffer d port v p) as Hk. destruct (write_port_at d port v p) as [b x]. injection E as _ <-. by apply Hk; [apply Hv|].
  - destruct (advance_master_ticks d t) as [x|] eqn:Ea; [|done]. injection E as _ <-. unfold advance_master_ticks in Ea.
    destruct (pending_command d) as [q|]; [|by injection Ea as <-]. destruct (_ <? _); [by injection Ea as <-|].
    apply (finish_bytes _ _ _) in Ea; [exact Ea| |]; [destruct (inv_base d Hi)|destruct Hok]; by split.
  - unfold note_alt_status_read in E. cbv zeta in E.
    repeat match type of E with context [if ?b then _ else _] => destruct b
      | context [match ?x with Some _ => _ | None => _ end] => destruct x end; by injection E as _ <-.
  - destruct (read_lba d l) as [[s x]|] eqn:Er; [|done]. injection E as _ <-. by apply (read_lba_keeps _ _ _ _ Er).
  - destruct (write_lba d l data) as [[s x]|] eqn:Er; [|done]. injection E as _ <-. by apply (write_lba_keeps _ _ _ _ _ Er).
  - unfold charge_pio_transfer in E. cbv zeta in E. destruct (_ && _); by injection E as _ <-.
  - unfold read_dma_payload in E. destruct (dma_request d) as [r|]; [|by injection E as _ <-].
    case_decide; [|by injection E as _ <-]. destruct (read_sectors_from d (lba r) _) as [[s x]|] eqn:Er; [|done].
    injection E as _ <-. by apply (read_sectors_keeps _ _ _ _ _ Er).
  - injection E as _ <-. by apply complete_dma_read_buffer.
  - destruct (complete_dma_write d data) as [[w x]|] eqn:Er; [|done]. injection E as _ <-.
    by apply (complete_dma_write_buffer _ _ _ _ Er).
  - injection E as _ <-. unfold abort_dma. destruct (dma_request d); [constructor|done].
Qed.

End Bytes.
End Bytes.
