(* ===== verification/BusMasterSound.v ===== *)
(** * The plan of a bus-master transfer

    What the descriptor parser of BusMaster.v accepts, stated over the descriptors as
    numbers, and what the two copies do with an accepted plan. *)

From S2P Require Import Prelude Memory Canonical SectorCache Ata AtaInv BusMaster.
Import Ata.Disk BusMaster.Engine.

Module Plan.

(* ------------------------------------------------------------------ *)
(** ** A descriptor table as the guest writes it *)

(** The region a descriptor names: its first byte, its byte count, whether it ends the table. *)
Record Region := mkRegion { start : Z; count : Z; ends : bool }.

(** Address and count are even, zero counts 64 KiB, bits 16-30 are clear, and the region
    stays in one 64 KiB window; a write to the disk starts at the dword below. *)
Definition region (dir : AtaDmaDirection) (a d : Z) : option Region :=
  let first := match dir with MemoryToDevice => a - a mod 4 | DeviceToMemory => a end in
  let bytes := if d mod 65536 =? 0 then 65536 else d mod 65536 in
  if Z.even a && Z.even bytes && (d mod 2 ^ 31 <? 65536) && (first mod 65536 + bytes <=? 65536)
  then Some (mkRegion first bytes (2 ^ 31 <=? d)) else None.

(** Entry [i] of the table at [table], inside the table's 4 KiB page and the guest's memory. *)
Definition entry (m : Memory) (table i : Z) (dir : AtaDmaDirection) (r : Region) : Prop :=
  table + 8 * i + 8 <= (table / 4096 + 1) * 4096 /\
  exists a d, read_u32 m (table + 8 * i) = Ok a /\ read_u32 m (table + 8 * i + 4) = Ok d /\
    region dir a d = Some r /\ start r + count r <= memory_len m.

(** [describes m table dir i n spans eot]: the entries from [i] on cover [n] bytes by
    [spans], the last of them cut to what is left; [eot] says it was used whole and ends
    the table.  No entry before the last one ends the table. *)
Inductive describes (m : Memory) (table : Z) (dir : AtaDmaDirection) : Z -> Z -> list PrdSpan -> bool -> Prop :=
| describes_last i n r : entry m table i dir r -> 0 < n <= count r ->
    describes m table dir i n [mkSpan (start r) n] ((n =? count r) && ends r)
| describes_more i n r ss eot : entry m table i dir r -> count r < n -> ends r = false ->
    describes m table dir (i + 1) (n - count r) ss eot ->
    describes m table dir i n (mkSpan (start r) (count r) :: ss) eot.

(* ------------------------------------------------------------------ *)
(** ** Bits as numbers *)

Lemma odd_bit a : has a 1 = Z.odd a.
Proof. change 1 with (bit 0). by rewrite has_bit, Z.bit0_odd by lia. Qed.

Lemma low_dword a : Z.ldiff a 3 = a - a mod 4.
Proof.
  change 3 with (Z.ones 2). rewrite Z.ldiff_ones_r, Z.shiftl_mul_pow2, Z.shiftr_div_pow2 by lia.
  change (2 ^ 2) with 4. pose proof (Z.div_mod a 4). lia.
Qed.

Lemma page_end t : Z.ldiff t 4095 + 4096 = (t / 4096 + 1) * 4096.
Proof.
  change 4095 with (Z.ones 12). rewrite Z.ldiff_ones_r, Z.shiftl_mul_pow2, Z.shiftr_div_pow2 by lia.
  change (2 ^ 12) with 4096. lia.
Qed.

Lemma low_bits a : has a 3 = negb (a mod 4 =? 0).
Proof. unfold has. change 3 with (Z.ones 2). by rewrite Z.land_ones by lia. Qed.

Lemma reserved_bits d : has d PRD_RESERVED = negb (d mod 2 ^ 31 <? 65536).
Proof.
  unfold has. f_equal.
  assert (E : Z.land d PRD_RESERVED = Z.shiftl (Z.shiftr (d mod 2 ^ 31) 16) 16).
  { rewrite <- Z.land_ones by lia. apply Z.bits_inj'. intros k Hk. rewrite Z.land_spec.
    change PRD_RESERVED with (Z.shiftl (Z.ones 15) 16). destruct (Z.lt_ge_cases k 16).
    - by rewrite !Z.shiftl_spec_low, andb_false_r by lia.
    - rewrite !Z.shiftl_spec_high, Z.shiftr_spec, Z.land_spec by lia. replace (k - 16 + 16) with k by lia. f_equal.
      destruct (Z.lt_ge_cases k 31); [by rewrite !Z.ones_spec_low by lia|by rewrite !Z.ones_spec_high by lia]. }
  rewrite E, Z.shiftl_mul_pow2, Z.shiftr_div_pow2 by lia. change (2 ^ 16) with 65536.
  pose proof (Z.mod_pos_bound d (2 ^ 31) ltac:(lia)) as Hb. set (x := d mod 2 ^ 31) in *. clearbody x.
  pose proof (Z.div_mod x 65536). pose proof (Z.mod_pos_bound x 65536). pose proof (Z.div_pos x 65536).
  destruct (Z.ltb_spec x 65536); [apply Z.eqb_eq|apply Z.eqb_neq]; nia.
Qed.

Lemma eot_bit d : u32 d -> has d PRD_EOT = (2 ^ 31 <=? d).
Proof.
  intros Hd. change PRD_EOT with (bit 31). rewrite has_bit by lia. rewrite Z.testbit_eqb by lia.
  pose proof (Z.div_mod d (2 ^ 31)). pose proof (Z.mod_pos_bound d (2 ^ 31)). unfold in_width in Hd.
  destruct (Z.leb_spec (2 ^ 31) d).
  - replace (d / 2 ^ 31) with 1 by nia. done.
  - by rewrite Z.div_small by lia.
Qed.

(** The checks on one descriptor are the region. *)
Lemma descriptor_region_exact dir a d : u32 a -> u32 d ->
  descriptor_region dir a d = (fun r => (start r, count r)) <$> region dir a d /\
  (forall r, region dir a d = Some r -> ends r = has d PRD_EOT /\ 2 <= count r <= 65536 /\ 0 <= start r /\ start r + count r <= 2 ^ 32).
Proof.
  intros Ha Hd. unfold descriptor_region, region. rewrite reserved_bits, eot_bit by done. cbv zeta.
  rewrite !odd_bit, low_dword. change 65535 with (Z.ones 16). rewrite Z.land_ones by lia.
  change (wrap 16 d) with (d mod 65536). change (2 ^ 16) with 65536.
  pose proof (Z.mod_pos_bound d 65536 ltac:(lia)) as Hm.
  set (bytes := if d mod 65536 =? 0 then 65536 else d mod 65536).
  assert (Hb : 1 <= bytes <= 65536) by (unfold bytes; destruct (Z.eqb_spec (d mod 65536) 0); lia). clearbody bytes.
  pose proof (Z.mod_pos_bound a 4 ltac:(lia)). pose proof (Z.mod_le a 4 ltac:(apply Ha) ltac:(lia)).
  set (first := match dir with DeviceToMemory => a | MemoryToDevice => a - a mod 4 end).
  assert (Hf : 0 <= first < 2 ^ 32) by (unfold first, in_width in *; destruct dir; lia). clearbody first.
  rewrite <- !Z.negb_even. split.
  - destruct (Z.even a), (Z.even bytes), (d mod 2 ^ 31 <? 65536); cbn; try done.
    + destruct (Z.ltb_spec 65536 (first mod 65536 + bytes)), (Z.leb_spec (first mod 65536 + bytes) 65536); done || lia.
  - intros r. case_step; [|done]. intros [= <-]. cbn. bool_prop. split; [done|].
    assert (bytes <> 1) by (intros ->; done). split; [lia|]. split; [lia|].
    pose proof (Z.div_mod first 65536). assert (first / 65536 < 65536) by (apply Z.div_lt_upper_bound; lia). lia.
Qed.
(* ------------------------------------------------------------------ *)
(** ** The parser *)

Section Parser.
Context (m : Memory) (table : Z) (dir : AtaDmaDirection).
Hypothesis Hbytes : Forall u8 (data m).
Hypothesis Htable : u32 table.

Lemma read_u8_byte a b : read_u8 m a = Ok b -> u8 b.
Proof.
  unfold read_u8. destruct (data m !! Z.to_nat a) as [x|] eqn:E; [|done]. intros [= <-].
  by apply (Forall_lookup_1 _ _ _ _ Hbytes E).
Qed.

Lemma read_u32_width a v : read_u32 m a = Ok v -> u32 v.
Proof.
  unfold read_u32. destruct (read_u8 m a) as [b0|] eqn:E0; [|done]. destruct (read_u8 m (a + 1)) as [b1|] eqn:E1; [|done].
  destruct (read_u8 m (a + 2)) as [b2|] eqn:E2; [|done]. destruct (read_u8 m (a + 3)) as [b3|] eqn:E3; [|done].
  intros [= <-]. apply (le_value_bound [b0; b1; b2; b3]). rewrite !Forall_cons. eauto 10 using read_u8_byte.
Qed.

(** What the parser learns from entry [i]. *)
Definition learned (i : Z) : option Region :=
  match read_u32 m (table + i * 8) with
  | Err _ => None
  | Ok a =>
      match read_u32 m (table + i * 8 + 4) with
      | Err _ => None
      | Ok d => r ← region dir a d; if memory_len m <? start r + count r then None else Some r
      end
  end.

Lemma learned_entry i r : entry m table i dir r <-> table + 8 * i + 8 <= (table / 4096 + 1) * 4096 /\ learned i = Some r.
Proof.
  unfold entry, learned. rewrite (Z.mul_comm i 8). split; intros [Hp H]; (split; [done|]).
  - destruct H as (a & d & -> & -> & -> & Hl). cbn [mbind option_bind]. by rewrite (proj2 (Z.ltb_ge _ _)) by lia.
  - destruct (read_u32 m (table + 8 * i)) as [a|]; [|done]. destruct (read_u32 m (table + 8 * i + 4)) as [d|]; [|done].
    exists a, d. destruct (region dir a d) as [x|]; [|done]. cbn [mbind option_bind] in H.
    destruct (Z.ltb_spec (memory_len m) (start x + count x)); [done|]. by injection H as ->.
Qed.

Lemma learned_bounds i r : learned i = Some r -> 2 <= count r <= 65536 /\ 0 <= start r /\ start r + count r <= 2 ^ 32 /\
  start r + count r <= memory_len m.
Proof.
  unfold learned. destruct (read_u32 m (table + i * 8)) as [a|] eqn:Ea; [|done].
  destruct (read_u32 m (table + i * 8 + 4)) as [d|] eqn:Ed; [|done].
  destruct (region dir a d) as [x|] eqn:Er; [|done]. cbn [mbind option_bind].
  destruct (Z.ltb_spec (memory_len m) (start x + count x)); [done|]. intros [= <-].
  destruct (descriptor_region_exact dir a d) as [_ H1]; [by eapply read_u32_width..|]. by destruct (H1 x Er) as (_ & ? & ? & ?).
Qed.

(** One turn of the loop, its entry being in the page. *)
Lemma parse_turn n i covered total acc :
  0 <= i -> table + 8 * i + 8 <= (table / 4096 + 1) * 4096 ->
  parse_entries m table ((table / 4096 + 1) * 4096) total dir (S n) i covered acc =
  r ← learned i;
  let used := Z.min (count r) (total - covered) in
  if covered + used =? total then Some (mkPlan (acc ++ [mkSpan (start r) used]) ((used =? count r) && ends r))
  else if ends r then None
  else parse_entries m table ((table / 4096 + 1) * 4096) total dir n (i + 1) (covered + used) (acc ++ [mkSpan (start r) used]).
Proof.
  intros Hi Hp. unfold in_width in Htable. assert (Hpage : (table / 4096 + 1) * 4096 <= 2 ^ 32).
  { assert (table / 4096 < 2 ^ 20) by (apply Z.div_lt_upper_bound; lia). lia. }
  assert (Hc : forall z, 0 <= z <= 2 ^ 33 -> checked 64 z = Some z) by (intros; apply checked_Some; unfold in_width; lia).
  cbn [parse_entries]. rewrite (Hc (i * 8)) by lia. cbn [mbind option_bind]. rewrite (Hc (table + i * 8)) by lia.
  cbn [mbind option_bind]. unfold learned. destruct (read_u32 m (table + i * 8)) as [a|] eqn:Ea; [|done].
  rewrite (Hc (table + i * 8 + 4)) by lia. cbn [mbind option_bind].
  destruct (read_u32 m (table + i * 8 + 4)) as [d|] eqn:Ed; [|done]. rewrite (Hc (table + i * 8 + 8)) by lia.
  cbn [mbind option_bind]. rewrite (proj2 (Z.ltb_ge ((table / 4096 + 1) * 4096) _)) by lia.
  destruct (descriptor_region_exact dir a d) as [-> H1]; [by eapply read_u32_width..|].
  destruct (region dir a d) as [r|] eqn:Er; [|done]. cbn [fmap option_fmap option_map mbind option_bind].
  destruct (H1 r eq_refl) as (<- & ? & ? & ?). rewrite (Hc (start r + count r)) by lia. cbn [mbind option_bind].
  by destruct (memory_len m <? start r + count r).
Qed.

Lemma parse_entries_exact total n : forall i covered acc p, 0 <= i -> 2 * i <= covered < total ->
  Z.of_nat n = Z.max 0 (Z.min (((table / 4096 + 1) * 4096 - table) / 8) (div_ceil total 2) - i) ->
  parse_entries m table ((table / 4096 + 1) * 4096) total dir n i covered acc = Some p <->
  exists ss eot, p = mkPlan (acc ++ ss) eot /\ describes m table dir i (total - covered) ss eot.
Proof.
  induction n as [|n IH]; intros i covered acc p Hi Hc Hn.
  - cbn. split; [done|]. intros (ss & eot & _ & Hd). exfalso.
    assert (Hle : table + 8 * i + 8 <= (table / 4096 + 1) * 4096) by (by destruct Hd as [? ? ? [? _]|? ? ? ? ? [? _]]).
    assert (i + 1 <= ((table / 4096 + 1) * 4096 - table) / 8) by (apply le_div; lia).
    assert (div_ceil total 2 <= i) by lia. apply div_ceil_le in H0; lia.
  - assert (Hle : i + 1 <= ((table / 4096 + 1) * 4096 - table) / 8) by lia. apply le_div in Hle; [|lia].
    rewrite parse_turn by lia. destruct (learned i) as [r|] eqn:Hr; cbn [mbind option_bind].
    2: { split; [done|]. intros (ss & eot & _ & Hd). by inversion Hd as [? ? ? He|? ? ? ? ? He]; subst;
      apply learned_entry in He as [_ He]; rewrite Hr in He. }
    destruct (learned_bounds i r Hr) as (Hcr & _). cbv zeta.
    assert (He : entry m table i dir r) by (apply learned_entry; split; [lia|done]).
    assert (Hdet : forall r', entry m table i dir r' -> r' = r) by (intros r' [_ E]%learned_entry; congruence).
    destruct (Z.eqb_spec (covered + Z.min (count r) (total - covered)) total) as [Hl|Hl].
    + replace (Z.min (count r) (total - covered)) with (total - covered) by lia. split.
      * intros [= <-]. eexists _, _. split; [done|]. apply describes_last; [done|lia].
      * intros (ss & eot & -> & Hd). inversion Hd as [? ? r' He'|? ? r' ? ? He' Hlt]; subst;
          apply Hdet in He' as ->; [done|lia].
    + replace (Z.min (count r) (total - covered)) with (count r) by lia. destruct (ends r) eqn:Ee.
      * split; [done|]. intros (ss & eot & _ & Hd). inversion Hd as [? ? r' He' Hr'|? ? r' ? ? He' ? Ee']; subst;
          apply Hdet in He' as ->; [lia|congruence].
      * rewrite IH; [|lia..]. split; intros (ss & eot & -> & Hd).
        -- exists (mkSpan (start r) (count r) :: ss), eot. rewrite <- app_assoc. split; [done|].
           apply describes_more; [done|lia|done|]. by replace (total - covered - count r) with (total - (covered + count r)) by lia.
        -- inversion Hd as [? ? r' He' Hr'|? ? r' ss' ? He' ? Ee' Hd']; subst; apply Hdet in He' as ->; [lia|].
           exists ss', eot. rewrite <- app_assoc. split; [done|].
           by replace (total - (covered + count r)) with (total - covered - count r) by lia.
Qed.

Lemma parsed_plan n ss eot : 0 <= n ->
  parse_prds m table n dir = Some (mkPlan ss eot) <-> 0 < n /\ table mod 4 = 0 /\ describes m table dir 0 n ss eot.
Proof.
  intros Hn.
  unfold parse_prds. rewrite low_bits, page_end. destruct (Z.eqb_spec n 0) as [-> |Hz]; cbn [orb].
  { split; [done|]. intros [? _]. lia. }
  destruct (Z.eqb_spec (table mod 4) 0) as [Ha|Ha]; cbn [negb].
  2: { split; [done|]. by intros (_ & ? & _). }
  unfold in_width in Htable. assert (table / 4096 < 2 ^ 20) by (apply Z.div_lt_upper_bound; lia).
  assert (0 <= table / 4096) by (apply Z.div_pos; lia).
  rewrite (proj2 (checked_Some 64 ((table / 4096 + 1) * 4096) _)) by (unfold in_width; split; [lia|done]).
  cbn [mbind option_bind]. rewrite parse_entries_exact; [|lia..].
  rewrite Z.sub_0_r. split.
  - intros (ss' & eot' & [= -> ->] & Hd). cbn. split; [lia|done].
  - intros (_ & _ & Hd). by exists ss, eot.
Qed.

(** C17.  The descriptor parser accepts exactly the tables it should: [parse_prds] answers a plan if and only if
    the transfer has bytes, the table is dword aligned, and its entries, none of them past the
    table's 4 KiB page or naming memory the guest has not, cover the bytes, the plan being
    their regions in order, the last cut to what is left; the engine's cap on the number of
    entries never refuses a table. *)
Theorem prd_plan_exact (n : Z) (ss : list PrdSpan) (eot : bool) (Hn : 0 <= n) :
  parse_prds m table n dir = Some (mkPlan ss eot) <-> 0 < n /\ table mod 4 = 0 /\ describes m table dir 0 n ss eot.
Proof. by apply parsed_plan. Qed.

End Parser.
(** A table of two entries for 768 bytes, the second used in part. *)
Definition two_entries : Memory :=
  mkMemory (replicate 4096 0 ++ [0; 2; 0; 0; 0; 1; 0; 0; 0; 4; 0; 0; 0; 4; 0; 128]).

Lemma prd_plan_exact_witness : 0 < 768 /\ 4096 mod 4 = 0 /\
  describes two_entries 4096 DeviceToMemory 0 768 [mkSpan 512 256; mkSpan 1024 512] false.
Proof.
  apply (prd_plan_exact two_entries 4096 DeviceToMemory).
  - apply Forall_app. split; [apply Forall_replicate; unfold in_width; lia|]. repeat (constructor; [unfold in_width; lia|]). constructor.
  - unfold in_width. lia.
  - lia.
  - vm_compute. reflexivity.
Defined.

End Plan.

Module Copy.
Import Plan.

(* ------------------------------------------------------------------ *)
(** ** The regions of a plan *)

Definition spans_len (ss : list PrdSpan) : Z := foldr (fun s n => len s + n) 0 ss.

Definition span_fits (m : Memory) (s : PrdSpan) : Prop :=
  0 <= address s /\ 0 < len s <= 65536 /\ address s + len s <= 2 ^ 32 /\ address s + len s <= memory_len m.

Definition within (a : Z) (s : PrdSpan) : Prop := address s <= a < address s + len s.

(** Two regions share no byte. *)
Definition apart (s t : PrdSpan) : Prop := address s + len s <= address t \/ address t + len t <= address s.

(** A plan covers the bytes asked for, by regions inside the memory. *)
Lemma describes_spans m table dir i n ss eot : Forall u8 (data m) -> describes m table dir i n ss eot ->
  ss <> [] /\ Forall (span_fits m) ss /\ spans_len ss = n.
Proof.
  intros Hb. induction 1 as [i n r He Hn|i n r ss eot He Hc _ _ (_ & IHf & IHn)];
    apply (learned_entry m table dir) in He as [_ He]; apply learned_bounds in He; try done; cbn [spans_len foldr len].
  - split; [done|]. split; [|lia]. apply Forall_singleton. unfold span_fits. cbn. lia.
  - split; [done|]. fold (spans_len ss). split; [|lia]. apply Forall_cons. split; [|done]. unfold span_fits. cbn. lia.
Qed.

Lemma spans_len_nonneg m ss : Forall (span_fits m) ss -> 0 <= spans_len ss.
Proof. induction 1 as [|s ss Hs _ IH]; cbn [spans_len foldr]; [lia|]. fold (spans_len ss). unfold span_fits in Hs. lia. Qed.

Lemma span_fits_len m m' s : memory_len m' = memory_len m -> span_fits m s -> span_fits m' s.
Proof. unfold span_fits. by intros ->. Qed.

Lemma splice_lookup_outside l off v i : 0 <= off -> off + zlen v <= zlen l -> (i < Z.to_nat off \/ Z.to_nat off + length v <= i)%nat ->
  splice l off v !! i = l !! i.
Proof.
  unfold splice, zlen. intros Ho Hl [Hi|Hi].
  - by rewrite lookup_app_l, lookup_take, decide_True by (rewrite ?length_take; lia).
  - rewrite lookup_app_r, lookup_app_r, lookup_drop by (rewrite ?length_take; lia). rewrite length_take. f_equal. lia.
Qed.

Lemma splice_bytes l off v : Forall u8 l -> Forall u8 v -> Forall u8 (splice l off v).
Proof. intros Hl Hv. unfold splice. rewrite !Forall_app. split; [by apply Forall_take|]. split; [done|by apply Forall_drop]. Qed.

(* ------------------------------------------------------------------ *)
(** ** The two copies *)

(** [m'] is [m] with some bytes of the regions changed. *)
Record touched (m m' : Memory) (ss : list PrdSpan) : Prop := {
  to_len : memory_len m' = memory_len m;
  to_bytes : Forall u8 (data m) -> Forall u8 (data m');
  to_outside : forall a, 0 <= a -> Forall (fun s => ~ within a s) ss -> read_u8 m' a = read_u8 m a
}.

Lemma touched_slice m m' ss a n : touched m m' ss -> 0 <= a -> 0 <= n ->
  Forall (fun s => a + n <= address s \/ address s + len s <= a) ss ->
  slice (data m') a (a + n) = slice (data m) a (a + n).
Proof.
  intros [Hl _ Ho] Ha Hn Hs. unfold memory_len in Hl. unfold slice, zlen. rewrite Hl. destruct (_ && _) eqn:E; [|done].
  bool_prop. f_equal. apply list_eq. intros i. rewrite !lookup_take, !lookup_drop. case_decide; [|done].
  assert (Hr : read_u8 m' (a + Z.of_nat i) = read_u8 m (a + Z.of_nat i)).
  { apply Ho; [lia|]. eapply Forall_impl; [exact Hs|]. intros s Hx. cbn beta in Hx. unfold within. lia. }
  unfold read_u8, out_of_bounds, memory_len in Hr. rewrite Hl in Hr. replace (Z.to_nat (a + Z.of_nat i)) with (Z.to_nat a + i)%nat in Hr by lia.
  destruct (data m' !! (Z.to_nat a + i)%nat), (data m !! (Z.to_nat a + i)%nat); congruence.
Qed.

(** The scatter never leaves the memory, writes the regions only, and writes the payload
    where no two of them meet. *)
Lemma scatter_from_spec ss : forall m payload pos, Forall (span_fits m) ss -> 0 <= pos -> pos + spans_len ss = zlen payload ->
  Forall u8 payload -> exists m', scatter_from m ss payload pos = Some m' /\ touched m m' ss /\
    (ForallOrdPairs apart ss -> gather_read m' ss = slice payload pos (zlen payload)).
Proof.
  induction ss as [|s ss IH]; intros m payload pos Hf Hp Hs Hb; cbn [scatter_from].
  { exists m. cbn in Hs. split; [done|]. split; [by split|]. intros _. cbn. symmetry. replace pos with (zlen payload) by lia.
    apply slice_Some. unfold zlen. rewrite Z.sub_diag. split; [lia|]. split; [lia|done]. }
  apply Forall_cons in Hf as [(Ha & Hn & _ & Hm) Hf]. cbn [spans_len foldr] in Hs. fold (spans_len ss) in Hs.
  pose proof (spans_len_nonneg m ss Hf) as Hss.
  set (bytes := take (Z.to_nat (len s)) (drop (Z.to_nat pos) payload)).
  assert (Eb : slice payload pos (pos + len s) = Some bytes).
  { apply slice_Some. unfold bytes. replace (pos + len s - pos) with (len s) by lia. split; [lia|]. split; [lia|done]. }
  rewrite Eb. cbn [mbind option_bind]. rewrite (proj2 (Z.ltb_ge _ _)) by lia.
  assert (Hzb : zlen bytes = len s) by (apply Container.slice_length in Eb; lia).
  assert (Hbb : Forall u8 bytes) by (by eapply Container.slice_u8).
  assert (Hlen : zlen (data m) = memory_len m) by done.
  set (m1 := mkMemory (splice (data m) (address s) bytes)).
  assert (Hl1 : memory_len m1 = memory_len m) by (unfold m1, memory_len; cbn; fold (zlen (splice (data m) (address s) bytes));
    rewrite AtaInv.Image.splice_zlen by lia; done).
  destruct (IH m1 payload (pos + len s)) as (m' & E & [Hl' Hb' Ho'] & Hg); [|lia|lia|done|].
  { eapply Forall_impl; [exact Hf|]. intros x. by apply span_fits_len. }
  exists m'. split; [exact E|]. split; [split|].
  - lia.
  - intros Hd. apply Hb'. by apply splice_bytes.
  - intros a Ha0 [Hout Hrest]%Forall_cons. rewrite Ho' by done. unfold read_u8, out_of_bounds. rewrite Hl1. unfold m1. cbn.
    rewrite splice_lookup_outside; [done|lia|lia|]. unfold within in Hout. unfold zlen in Hzb. lia.
  - intros Hord. inversion Hord as [|? ? Hap Hord']; subst. cbn [gather_read].
    assert (Es : slice (data m') (address s) (address s + len s) = Some bytes).
    { rewrite (touched_slice m1 m' ss) by (first [by split | lia | eapply Forall_impl; [exact Hap|]; unfold apart; intros; lia]).
      unfold m1. cbn. rewrite <- Hzb. apply AtaInv.Image.splice_slice_same; lia. }
    rewrite Es. cbn [mbind option_bind]. rewrite (Hg Hord').
    assert (Er : slice payload (pos + len s) (zlen payload) = Some (drop (Z.to_nat (pos + len s)) payload)).
    { apply slice_Some. split; [lia|]. split; [lia|]. rewrite take_ge; [done|]. rewrite length_drop. unfold zlen. lia. }
    rewrite Er. cbn [mbind option_bind]. symmetry. exact (Container.slice_app _ _ _ _ _ _ Eb Er).
Qed.

Lemma scatter_spec m ss payload : Forall (span_fits m) ss -> spans_len ss = zlen payload -> Forall u8 payload ->
  exists m', scatter_write m ss payload = Some m' /\ touched m m' ss /\ (ForallOrdPairs apart ss -> gather_read m' ss = Some payload).
Proof.
  intros Hf Hs Hb. destruct (scatter_from_spec ss m payload 0) as (m' & E & Ht & Hg); [done|lia|lia|done|].
  exists m'. split; [exact E|]. split; [done|]. intros Hord. rewrite (Hg Hord). apply slice_Some.
  split; [unfold zlen; lia|]. split; [lia|]. change (Z.to_nat 0) with 0%nat. rewrite Z.sub_0_r, drop_0, take_ge; [done|]. unfold zlen. lia.
Qed.

Lemma gather_spec m ss : Forall (span_fits m) ss -> Forall u8 (data m) -> exists payload, gather_read m ss = Some payload /\
  zlen payload = spans_len ss /\ Forall u8 payload.
Proof.
  intros Hf Hb. induction Hf as [|s ss (Ha & Hn & _ & Hm) _ (payload & IH & Hl & Hp)]; cbn [gather_read]; [by exists []|].
  assert (E : exists x, slice (data m) (address s) (address s + len s) = Some x).
  { eexists. apply slice_Some. unfold zlen. unfold memory_len in Hm. split; [lia|]. split; [lia|reflexivity]. }
  destruct E as [x E]. rewrite E, IH. cbn [mbind option_bind]. eexists. split; [done|].
  rewrite zlen_app, (Container.slice_length _ _ _ _ E), Hl.
  cbn [spans_len foldr]. fold (spans_len ss). split; [lia|]. apply Forall_app. split; [exact (Container.slice_u8 _ _ _ _ Hb E)|exact Hp].
Qed.

End Copy.
