(* ===== verification/StorageSound.v ===== *)
(** * The primary storage channel is sound

    The invariant that ties the bus master's transfer to the disk's request and to the
    guest's memory, for every interleaving of port accesses, configuration writes, clock
    advances, memory writes and media changes, and what the two directions of a transfer
    move. *)

From S2P Require Import Prelude Memory Canonical SectorCache Ata AtaInv AtaPio DiskBytes Pci BusMaster BusMasterSound Storage.
Import Ata.Disk AtaInv.Protocol AtaPio.Pio DiskBytes.Bytes BusMaster.Engine BusMasterSound.Plan BusMasterSound.Copy Storage.Channel.

Module Bound.

(* ------------------------------------------------------------------ *)
(** ** Register bits *)

(** Evaluates single-bit tests of updated registers. *)
Ltac flag_bits :=
  unfold STATUS_ACTIVE, STATUS_ERROR, STATUS_INTERRUPT, STATUS_DRIVE0_DMA, STATUS_DRIVE1_DMA, COMMAND_START,
    COMMAND_READ_FROM_DISK in *;
  rewrite ?(fun v => has_bit v 0 ltac:(lia) : has v 1 = _), ?(fun v => has_bit v 1 ltac:(lia) : has v 2 = _),
    ?(fun v => has_bit v 2 ltac:(lia) : has v 4 = _), ?(fun v => has_bit v 3 ltac:(lia) : has v 8 = _) in *;
  repeat (progress rewrite ?Z.lor_spec, ?Z.ldiff_spec, ?Z.land_spec, ?Z.lxor_spec in *).

Definition running (c : Channel) : bool := bool_decide (is_Some (transfer c)).

(** Two banks that agree on everything but the command and the latched status bits. *)
Record same_engine (c c' : Channel) : Prop := {
  se_transfer : transfer c' = transfer c;
  se_waits : completion_waits_for_stop c' = completion_waits_for_stop c;
  se_active : has (status c') STATUS_ACTIVE = has (status c) STATUS_ACTIVE;
  se_prd : u32 (prd_address c) -> u32 (prd_address c')
}.

Lemma same_engine_refl c : same_engine c c.
Proof. by split. Qed.

Lemma same_engine_trans c1 c2 c3 : same_engine c1 c2 -> same_engine c2 c3 -> same_engine c1 c3.
Proof. intros [] []. split; [congruence..|auto]. Qed.

Lemma write_channel_same c reg v : u8 v -> same_engine c (write_channel c reg v).
Proof.
  intros Hv. unfold write_channel.
  assert (Hs : forall a b d : Z, has (Z.ldiff (Z.lor (Z.ldiff a (Z.lor STATUS_DRIVE0_DMA STATUS_DRIVE1_DMA))
    (Z.land b (Z.lor STATUS_DRIVE0_DMA STATUS_DRIVE1_DMA))) (Z.land d (Z.lor STATUS_ERROR STATUS_INTERRUPT))) STATUS_ACTIVE = has a STATUS_ACTIVE).
  { intros a b d. flag_bits. by destruct (Z.testbit a 0), (Z.testbit b 0), (Z.testbit d 0). }
  assert (Hp : forall k, 0 <= k <= 24 -> same_engine c (if has (status c) STATUS_ACTIVE then c
    else c <| prd_address := Z.ldiff (Z.lor (Z.ldiff (prd_address c) (Z.shiftl 255 k)) (Z.shiftl v k)) 3 |>)).
  { intros k Hk. destruct (has _ _); [apply same_engine_refl|]. split; try done. cbn. intros Hu.
    apply ldiff_width; [lia|]. apply lor_width; [lia|by apply ldiff_width; [lia|]|].
    rewrite Z.shiftl_mul_pow2 by lia. unfold in_width in *. pose proof (Z.pow_le_mono_r 2 k 24 ltac:(lia)).
    pose proof (Z.pow_pos_nonneg 2 k ltac:(lia) ltac:(lia)). nia. }
  destruct reg as [|p|p]; [by split| |apply same_engine_refl].
  repeat (destruct p as [p|p|]; try apply same_engine_refl);
    first [exact (Hp 24 ltac:(lia)) | exact (Hp 16 ltac:(lia)) | exact (Hp 8 ltac:(lia)) | exact (Hp 0 ltac:(lia))
      | split; [done|done|apply Hs|done]].
Qed.

Lemma write_bytes_same b off w v : same_engine (primary b) (primary (write_bytes b off w v)) /\
  same_engine (secondary b) (secondary (write_bytes b off w v)).
Proof.
  unfold write_bytes. generalize (seqZ 0 (width_bytes w)). intros js. revert b. induction js as [|j js IH]; intros b; cbn [foldl].
  { split; apply same_engine_refl. }
  destruct (IH (write_byte b (off + j) (Z.land (Z.shiftr v (j * 8)) 255))) as [H1 H2].
  assert (Hu : u8 (Z.land (Z.shiftr v (j * 8)) 255)) by (apply land_width_r; [lia|split; [lia|reflexivity]]).
  unfold write_byte in *. destruct (off + j <? 8); cbn in H1, H2; split; try done;
    (eapply same_engine_trans; [by apply write_channel_same|done]).
Qed.

(* ------------------------------------------------------------------ *)
(** ** The invariant *)

(** The transfer [t] is the one the request [r] calls for, and its regions are guest memory. *)
Record serves (m : Memory) (t : Transfer) (r : AtaDmaRequest) : Prop := {
  sv_direction : direction t = Disk.direction r;
  sv_bytes : byte_len t = Disk.byte_len r;
  sv_ticks : 1 <= ticks_remaining t < 2 ^ 64;
  sv_fits : Forall (span_fits m) (spans t);
  sv_total : spans_len (spans t) = Disk.byte_len r
}.

(** The command register calls for a transfer of that direction. *)
Definition commands (c : Channel) (dir : AtaDmaDirection) : Prop :=
  has (command c) COMMAND_START = true /\
  has (command c) COMMAND_READ_FROM_DISK = bool_decide (dir = DeviceToMemory).

Section Invariant.
Context {V : Type} `{!ConfigBytes V} {B : Type} `{StoreLaws B} (size : Z).
Implicit Types (s : Storage V B) (d : AtaDisk B).

Definition disk_ok d : Prop := ata_inv d /\ bytes_ok d.

(** What no engine state depends on. *)
Record core s : Prop := {
  co_size : memory_len (memory s) = size;
  co_bytes : Forall u8 (data (memory s));
  co_disk : forall d, ata s = Some d -> disk_ok d;
  co_prd : u32 (prd_address (primary (bmide s)));
  co_second : transfer (secondary (bmide s)) = None /\ completion_waits_for_stop (secondary (bmide s)) = false /\
    has (status (secondary (bmide s))) STATUS_ACTIVE = false
}.

(** Between a register write and the reconciliation that ends it. *)
Record loose s : Prop := {
  lo_core : core s;
  lo_active : has (status (primary (bmide s))) STATUS_ACTIVE = running (primary (bmide s)) || completion_waits_for_stop (primary (bmide s));
  lo_waits : completion_waits_for_stop (primary (bmide s)) = true ->
    transfer (primary (bmide s)) = None /\ has (command (primary (bmide s))) COMMAND_START = true /\ is_Some (ata s);
  lo_running : forall t, transfer (primary (bmide s)) = Some t -> commands (primary (bmide s)) (direction t) /\
    exists d, ata s = Some d /\ forall r, dma_request d = Some r -> serves (memory s) t r
}.

(** Between events: a transfer has its request and its permission, and a request that may be
    served is. *)
Record channel_inv s : Prop := {
  cv_loose : loose s;
  cv_linked : forall t, transfer (primary (bmide s)) = Some t -> Pci.ide_bus_master_enabled (pci s) = true /\
    exists d r, ata s = Some d /\ dma_request d = Some r;
  cv_armed : forall d r, ata s = Some d -> dma_request d = Some r -> Pci.ide_bus_master_enabled (pci s) = true ->
    has (command (primary (bmide s))) COMMAND_START = true -> completion_waits_for_stop (primary (bmide s)) = false ->
    is_Some (transfer (primary (bmide s)))
}.

Lemma disk_ok_occur d e o d' : disk_ok d -> valid e -> handed_bytes e -> occur e d = Some (o, d') -> disk_ok d'.
Proof.
  intros [Hi Hb] Hv Hh E. destruct (disk_occur_inv e d Hi Hv) as (o1 & d1 & E1 & Hi1).
  rewrite E1 in E. injection E as -> ->. split; [done|]. by apply (occur_bytes d e o d').
Qed.

Lemma abort_ok d : disk_ok d -> disk_ok (abort_dma d).
Proof. intros Hd. by apply (disk_ok_occur d DmaAbort Nothing). Qed.

Lemma abort_request d : dma_request (abort_dma d) = None.
Proof. unfold abort_dma. by destruct (dma_request d) eqn:E. Qed.

(** The core under a new engine state, disk and memory. *)
Lemma core_update s b d m : core s -> memory_len m = size -> Forall u8 (data m) -> disk_ok d ->
  u32 (prd_address (primary b)) -> secondary b = secondary (bmide s) ->
  core (s <| bmide := b |> <| memory := m |> <| ata := Some d |>).
Proof. intros [] Hl Hm Hd Hp Hs. split; cbn; try done; [by intros ? [= <-]|]. by rewrite Hs. Qed.

(** With the engine idle and no request there is nothing left to tie. *)
Lemma idle_inv s d : core s -> ata s = Some d -> dma_request d = None -> transfer (primary (bmide s)) = None ->
  completion_waits_for_stop (primary (bmide s)) = false -> has (status (primary (bmide s))) STATUS_ACTIVE = false -> channel_inv s.
Proof.
  intros Hc Ha Hd Ht Hw Hs. split; [split; [done| | |]| |].
  - unfold running. by rewrite Hs, Hw, Ht.
  - congruence.
  - congruence.
  - congruence.
  - intros d' r E. congruence.
Qed.

(** A failed transfer is taken down on both sides. *)
Lemma fail_inv s d : core s -> ata s = Some d ->
  channel_inv (s <| bmide := (fail_primary (bmide s) d).1 |> <| ata := Some (fail_primary (bmide s) d).2 |>).
Proof.
  intros Hc Ha. pose proof (co_disk s Hc d Ha) as Hd. eapply idle_inv; cbn.
  - destruct Hc as [Hl Hm _ Hp Hs]. split; cbn; try done. intros ? [= <-]. by apply abort_ok.
  - done.
  - apply abort_request.
  - done.
  - done.
  - flag_bits. cbn. by rewrite andb_false_r.
Qed.

Lemma retire_core s : core s -> core (s <| bmide := retire (bmide s) |>).
Proof. intros []. by split. Qed.

Lemma retire_loose s : core s -> transfer (primary (bmide s)) = None -> loose (s <| bmide := retire (bmide s) |>).
Proof.
  intros Hc Ht. split; [by apply retire_core| | |]; cbn; rewrite ?Ht; try done.
  unfold running. cbn. rewrite ?Ht. flag_bits. cbn. by rewrite andb_false_r.
Qed.

(** A plan the parser answers is a transfer that serves the request. *)
Lemma plan_serves m table r ticks plan : Forall u8 (data m) -> u32 table -> 0 <= Disk.byte_len r -> 1 <= ticks < 2 ^ 64 ->
  parse_prds m table (Disk.byte_len r) (Disk.direction r) = Some plan ->
  serves m (mkTransfer (Disk.direction r) (plan_spans plan) ticks (Disk.byte_len r) (plan_retires_eot plan)) r.
Proof.
  intros Hm Ht Hn Hk E. destruct plan as [ss eot]. apply parsed_plan in E; [|done..]. destruct E as (_ & _ & Hd).
  destruct (describes_spans _ _ _ _ _ _ _ Hm Hd) as (_ & Hf & Hl). by split.
Qed.

Lemma sync_ticks p k : 0 <= p -> 0 <= k -> 1 <= saturate 64 (p + Z.max k 1) < 2 ^ 64.
Proof. intros. unfold saturate. lia. Qed.

Lemma reconcile_inv s prefix : loose s -> 0 <= prefix -> channel_inv (reconcile s prefix).
Proof.
  intros Hl Hp. pose proof (lo_core s Hl) as Hc. unfold reconcile. destruct (ata s) as [d|] eqn:Ha.
  2: { split; [done| |congruence]. intros t Ht. destruct (lo_running s Hl t Ht) as (_ & d & E & _). congruence. }
  assert (Hsame : s <| bmide := bmide s |> <| ata := Some d |> = s) by (destruct s; cbn in *; congruence).
  unfold synchronize. destruct (transfer (primary (bmide s))) as [t|] eqn:Ht.
  - rewrite bool_decide_eq_true_2 by done. destruct (Pci.ide_bus_master_enabled (pci s)) eqn:He; cbn [negb orb].
    2: { pose proof (fail_inv s d Hc Ha) as Hf. by destruct (fail_primary (bmide s) d). }
    destruct (dma_request d) as [r|] eqn:Hr.
    2: { rewrite bool_decide_eq_false_2 by (by intros []). pose proof (fail_inv s d Hc Ha) as Hf. by destruct (fail_primary (bmide s) d). }
    rewrite bool_decide_eq_true_2 by done. cbn [negb]. rewrite Hsame. split; [done| |].
    + intros t' _. split; [done|]. by exists d, r.
    + intros. by exists t.
  - rewrite bool_decide_eq_false_2 by (by intros []). destruct (completion_waits_for_stop (primary (bmide s))) eqn:Hw.
    { destruct (Pci.ide_bus_master_enabled (pci s)) eqn:He; cbn [negb].
      - rewrite Hsame. split; [done|congruence|congruence].
      - assert (E : s <| bmide := retire (bmide s) |> <| ata := Some d |> = s <| bmide := retire (bmide s) |>)
          by (destruct s; cbn in *; congruence). rewrite E.
        split; [by apply retire_loose|cbn; congruence|cbn; congruence]. }
    destruct (negb (Pci.ide_bus_master_enabled (pci s)) || negb (has (command (primary (bmide s))) COMMAND_START)) eqn:Hen.
    { rewrite Hsame. split; [done|congruence|]. intros d' r _ _ He Hst. by rewrite He, Hst in Hen. }
    apply orb_false_iff in Hen as [He Hst]. apply negb_false_iff in He, Hst.
    destruct (dma_request d) as [r|] eqn:Hr; [|rewrite Hsame; split; [done|congruence|congruence]].
    destruct (negb (eqb _ _)) eqn:Hdir.
    { pose proof (fail_inv s d Hc Ha) as Hf. by destruct (fail_primary (bmide s) d). }
    apply negb_false_iff, eqb_prop in Hdir.
    destruct (parse_prds _ _ _ _) as [plan|] eqn:Hplan.
    2: { pose proof (fail_inv s d Hc Ha) as Hf. by destruct (fail_primary (bmide s) d). }
    destruct (co_disk s Hc d Ha) as [Hi Hb]. destruct (stage_request d r Hi Hr) as (_ & _ & _ & _ & _ & (Hlba & Hn & _)).
    split; [split| |]; cbn.
    + destruct Hc as [Hsz Hby _ Hprd Hsec]. split; try done. cbn. intros ? [= <-]. by split.
    + unfold running. cbn. flag_bits. cbn. by rewrite orb_true_r.
    + done.
    + intros t [= <-]. split; [by split|]. exists d. split; [done|]. intros r' Hr'. rewrite Hr in Hr'. injection Hr' as <-.
      apply (plan_serves _ (prd_address (primary (bmide s)))); [apply Hc|apply Hc| | |done].
      * unfold Disk.byte_len, SECTOR. lia.
      * apply sync_ticks; [done|]. apply saturate_in_width. lia.
    + intros t _. split; [done|]. by exists d, r.
    + intros. done.
Qed.

(** The store of the disk is untouched by the registers: the state after [b'] alone. *)
Lemma put_disk s b o : ata s = o -> s <| bmide := b |> <| ata := o |> = s <| bmide := b |>.
Proof. intros <-. by destruct s. Qed.

Lemma engine_core s b : core s -> same_engine (primary (bmide s)) (primary b) -> same_engine (secondary (bmide s)) (secondary b) ->
  core (s <| bmide := b |>).
Proof.
  intros [Hl Hb Hd Hp (H1 & H2 & H3)] [_ _ _ Ep] [Et Ew Es _]. split; cbn; auto. by rewrite Et, Ew, Es.
Qed.

(** A register write that neither stops the engine nor turns it around. *)
Lemma engine_loose s b : loose s -> same_engine (primary (bmide s)) (primary b) -> same_engine (secondary (bmide s)) (secondary b) ->
  (has (status (primary (bmide s))) STATUS_ACTIVE = true -> has (command (primary (bmide s))) COMMAND_START = true -> is_Some (ata s) ->
    has (command (primary b)) COMMAND_START = true /\
    has (command (primary b)) COMMAND_READ_FROM_DISK = has (command (primary (bmide s))) COMMAND_READ_FROM_DISK) ->
  loose (s <| bmide := b |>).
Proof.
  intros [Hc Ha Hw Hr] S1 S2 Hcmd. pose proof S1 as [Et Ew Es _]. split; [by apply engine_core| | |]; cbn; unfold running in *; rewrite ?Et, ?Ew, ?Es.
  - exact Ha.
  - intros Hx. destruct (Hw Hx) as (Ht & Hst & Hd). split; [done|]. split; [|done].
    apply Hcmd; [|done|done]. by rewrite Ha, Hx, orb_true_r.
  - intros t Hx. destruct (Hr t Hx) as ([Hst Hdir] & d & Hd & Hs). split; [|by exists d].
    destruct Hcmd as [C1 C2]; [by rewrite Ha, Hx|done|by exists d|]. split; [done|]. by rewrite C2.
Qed.

(** A register write, before the engine is reconciled. *)
Lemma write_io_loose s port w value base : loose s ->
  loose (s <| bmide := (Engine.write_io (bmide s) port w value (ata s) base).1 |>
           <| ata := (Engine.write_io (bmide s) port w value (ata s) base).2 |>).
Proof.
  intros Hl. pose proof (lo_core s Hl) as Hc. unfold Engine.write_io. cbv zeta.
  destruct (write_bytes_same (bmide s) (port - base) w value) as [S1 S2].
  set (b' := Engine.write_bytes (bmide s) (port - base) w value) in *. clearbody b'.
  pose proof (engine_core s b' Hc S1 S2) as Hc'.
  destruct (ata s) as [d|] eqn:Hata.
  2: { rewrite put_disk by done. apply engine_loose; [done..|]. intros _ _ [x Hx]. congruence. }
  destruct (_ && completion_waits_for_stop (primary b')) eqn:Eret.
  { apply andb_true_iff in Eret as [_ Eret]. cbn [fst snd]. rewrite put_disk by done.
    assert (Ht : transfer (primary (bmide (s <| bmide := b' |>))) = None).
    { cbn. rewrite (se_transfer _ _ S1). rewrite (se_waits _ _ S1) in Eret. by destruct (lo_waits s Hl Eret). }
    exact (retire_loose (s <| bmide := b' |>) Hc' Ht). }
  match goal with |- context [(if ?c then (let '(b, d) := fail_primary b' d in (b, Some d)) else _).1] => destruct c eqn:Eout end.
  { pose proof (fail_inv (s <| bmide := b' |>) d Hc' Hata) as Hf. apply cv_loose in Hf.
    change (loose (s <| bmide := (fail_primary b' d).1 |> <| ata := Some (fail_primary b' d).2 |>)) in Hf.
    by destruct (fail_primary b' d). }
  cbn [fst snd]. rewrite put_disk by done. apply engine_loose; [done..|]. intros Hact Hst _.
  apply orb_false_iff in Eout as [E1 E2]. rewrite Hact, Hst in *. cbn [andb orb] in E1, E2. rewrite andb_true_r in E1.
  apply negb_false_iff in E1. split; [done|]. flag_bits.
  by destruct (Z.testbit (command (primary b')) 3), (Z.testbit (command (primary (bmide s))) 3).
Qed.

(* ------------------------------------------------------------------ *)
(** ** Moving the data *)

Definition request_sectors d (r : AtaDmaRequest) : list (list Z) := sectors_at (backing d) (lba r) (Z.to_nat (sectors r)).

Lemma read_content n : forall d l, disk_ok d -> 0 <= l -> l + Z.of_nat n <= total_sectors d -> exists c,
  read_sectors_from d l n = Some (Some (concat (sectors_at (backing d) l n)), d <| cache := c |>) /\ disk_ok (d <| cache := c |>).
Proof.
  induction n as [|n IH]; intros d l Hd Hl Hn; cbn [read_sectors_from sectors_at concat].
  { exists (cache d). by destruct d. }
  destruct (read_in_range (backing d) l) as (x & dg & Hx & _); [unfold total_sectors in Hn; lia|].
  assert (Hr : exists c, read_lba d l = Some (Some x, d <| cache := c |>) /\ disk_ok (d <| cache := c |>)).
  { destruct (read_lba_stable d l) as (c & Er); [apply Hd|done|]. rewrite Hx in Er. exists c. split; [exact Er|].
    apply (disk_ok_occur d (ServiceRead l) (Data (Some x))); [done| |done|by cbn [occur]; rewrite Er].
    pose proof (sectors_bound (backing d)). unfold total_sectors in Hn. cbn. unfold in_width. lia. }
  destruct Hr as (c & -> & Hc). cbn [mbind option_bind].
  destruct (IH (d <| cache := c |>) (l + 1) Hc) as (c' & -> & Hc'); [lia|change (l + 1 + Z.of_nat n <= total_sectors d); lia|].
  cbn [mbind option_bind option_map]. exists c'. split; [|exact Hc']. unfold sector_at at 1. by rewrite Hx.
Qed.

Lemma sectors_at_props n : forall d l, disk_ok d -> 0 <= l -> l + Z.of_nat n <= total_sectors d ->
  zlen (concat (sectors_at (backing d) l n)) = Z.of_nat n * Z.of_nat SECTOR /\ Forall u8 (concat (sectors_at (backing d) l n)).
Proof.
  induction n as [|n IH]; intros d l Hd Hl Hn; cbn [sectors_at concat]; [done|].
  destruct (read_in_range (backing d) l) as (x & dg & Hx & Hlen); [unfold total_sectors in Hn; lia|].
  destruct (IH d (l + 1) Hd) as [H1 H2]; [lia..|]. rewrite zlen_app, H1. unfold sector_at. rewrite Hx. cbn [from_option fst].
  split; [unfold zlen; rewrite Hlen; lia|]. apply Forall_app. split; [|exact H2].
  destruct Hd as [_ [Hs _]]. by apply (Hs l x dg).
Qed.

(** What the disk is left as when a request ends. *)
Record request_done d d' : Prop := {
  rd_ok : disk_ok d';
  rd_request : dma_request d' = None;
  rd_irq : irq_pending d' = true /\ interrupts_disabled d' = interrupts_disabled d
}.

Lemma dma_finish_fields d r : let d' := complete_ok (advance_dma_task_file d r) in
  dma_request d' = None /\ irq_pending d' = true /\ Disk.status d' = READY /\ backing d' = backing d /\
  last_access_bytes d' = last_access_bytes d /\ interrupts_disabled d' = interrupts_disabled d.
Proof.
  cbv zeta. unfold advance_dma_task_file. cbv zeta.
  set (x := d <| sector_count := _ |>). generalize (saturate 32 (lba r + sectors r)). intros l.
  assert (Ei : interrupts_disabled (set_task_file_address x l) = interrupts_disabled x)
    by (unfold set_task_file_address; by destruct (lba_mode x)).
  pose proof (task_file_same x l) as E. cbv zeta in E. set (e := set_task_file_address x l) in *. clearbody e.
  injection E as E1 _ _ _ _ _ _ _ _ _ E2. split_and!; [reflexivity..|exact E1|exact E2|exact Ei].
Qed.

(** A read: the sectors of the request land in the regions. *)
Lemma move_in m t d r : disk_ok d -> dma_request d = Some r -> serves m t r -> direction t = DeviceToMemory -> Forall u8 (data m) ->
  exists m' d', move_data t m d = Some (true, m', d') /\ touched m m' (spans t) /\
    (ForallOrdPairs apart (spans t) -> gather_read m' (spans t) = Some (concat (request_sectors d r))) /\
    request_done d d' /\ backing d' = backing d /\ Disk.status d' = READY /\ last_access_bytes d' = Disk.byte_len r.
Proof.
  intros Hd Hr [Sd Sb St Sf Sl] Hdir Hm. destruct Hd as [Hi Hb]. destruct (stage_request d r Hi Hr) as (_ & _ & _ & _ & _ & (Hl & Hn & Hend & _)).
  assert (Hend' : lba r + Z.of_nat (Z.to_nat (sectors r)) <= total_sectors d) by lia.
  destruct (read_content (Z.to_nat (sectors r)) d (lba r) (conj Hi Hb) Hl Hend') as (c & Ec & Hc).
  destruct (sectors_at_props (Z.to_nat (sectors r)) d (lba r) (conj Hi Hb) Hl Hend') as [Hz Hu].
  fold (request_sectors d r) in Ec, Hz, Hu. assert (Hbl : zlen (concat (request_sectors d r)) = Disk.byte_len r)
    by (unfold Disk.byte_len; rewrite Hz; lia).
  destruct (scatter_spec m (spans t) (concat (request_sectors d r)) Sf) as (m' & Em & Ht & Hg); [congruence|done|].
  set (d1 := d <| cache := c |>) in *. assert (Hr1 : dma_request d1 = Some r) by exact Hr.
  exists m', (complete_dma_read d1 (Disk.byte_len r)). unfold move_data, read_dma_payload. rewrite Hdir, Hr.
  rewrite <- Sd, Hdir, decide_True, Ec by done. cbn [mbind option_bind]. rewrite Hbl, Sb, Z.eqb_refl, Em. cbn [mbind option_bind].
  split; [done|]. split; [done|]. split; [done|].
  assert (Hok : disk_ok (complete_dma_read d1 (Disk.byte_len r))).
  { apply (disk_ok_occur d1 (DmaReadDone (Disk.byte_len r)) Nothing); [exact Hc| |done|done]. cbn. unfold Disk.byte_len, SECTOR, in_width. lia. }
  assert (Ed : complete_dma_read d1 (Disk.byte_len r) = complete_ok (advance_dma_task_file (d1 <| last_access_bytes := Disk.byte_len r |>) r)).
  { unfold complete_dma_read. rewrite Hr1, <- Sd, Hdir, Z.eqb_refl. done. }
  rewrite Ed in *. destruct (dma_finish_fields (d1 <| last_access_bytes := Disk.byte_len r |>) r) as (F1 & F2 & F3 & F4 & F5 & F6).
  split; [by split|]. split; [exact F4|]. split; [exact F3|exact F5].
Qed.

(** A write: the gathered bytes become the sectors of the request, unless the host refuses the commit. *)
Lemma move_out m t d r : disk_ok d -> dma_request d = Some r -> serves m t r -> direction t = MemoryToDevice -> Forall u8 (data m) ->
  exists payload b' d', gather_read m (spans t) = Some payload /\ zlen payload = Disk.byte_len r /\
    wrote (backing d) b' (lba r) (chunks (Z.to_nat (sectors r)) payload) /\
    move_data t m d = Some (negb (store_commit Dma b').2, m, d') /\ backing d' = (store_commit Dma b').1 /\
    request_done d d' /\ Disk.status d' = if (store_commit Dma b').2 then Z.lor DRDY ERR else READY.
Proof.
  intros Hd Hr [Sd Sb St Sf Sl] Hdir Hm. destruct (gather_spec m (spans t) Sf Hm) as (payload & Eg & Hz & Hu). rewrite Sl in Hz.
  destruct Hd as [Hi Hb]. destruct (stage_request d r Hi Hr) as (_ & _ & _ & _ & _ & (Hl & Hn & Hend & _)).
  assert (Hdiv : (length payload / SECTOR)%nat = Z.to_nat (sectors r)).
  { unfold Disk.byte_len, zlen in Hz. apply Nat2Z.inj. rewrite Nat2Z.inj_div, Hz, Z.div_mul by (unfold SECTOR; lia). lia. }
  assert (Hlen : (Z.to_nat (sectors r) * SECTOR <= length payload)%nat) by (unfold Disk.byte_len, zlen in Hz; lia).
  destruct (write_sectors_from_inv d (lba r) (Z.to_nat (sectors r)) payload Hi Hl Hlen) as (ok1 & d1 & E1 & Hi1 & Hd1).
  assert (Hend' : lba r + Z.of_nat (Z.to_nat (sectors r)) <= total_sectors d) by lia.
  destruct (dma_write_content _ d (lba r) payload ok1 d1 Hi Hl Hend' Hlen E1) as [-> Hw].
  destruct (dma_write_inv d payload Hi) as (ok & d' & Ew & Hi'). pose proof Ew as Ew'.
  assert (Hok' : disk_ok d').
  { apply (disk_ok_occur d (DmaWriteDone payload) (Flag ok)); [by split|done|exact Hu|]. cbn [occur]. by rewrite Ew. }
  assert (Hirq : interrupts_disabled d1 = interrupts_disabled d) by by apply write_sectors_irq in E1.
  unfold complete_dma_write in Ew'. rewrite Hr, <- Sd, Hdir, Hz, Z.eqb_refl in Ew'. cbn [orb negb bool_decide] in Ew'.
  rewrite (bool_decide_eq_true_2 (MemoryToDevice = MemoryToDevice)) in Ew' by done. cbn [negb orb] in Ew'.
  rewrite Hdiv, E1 in Ew'. cbn [mbind option_bind negb] in Ew'.
  exists payload, (backing d1), d'. split; [done|]. split; [done|]. split; [exact Hw|].
  unfold move_data. rewrite Hdir, Eg. cbn [mbind option_bind]. rewrite Ew. cbn [mbind option_bind].
  destruct (store_commit Dma (backing d1)) as [b failed]. destruct failed; injection Ew' as <- Ed; cbn [snd fst negb].
  - subst d'. split; [done|]. split; [done|]. split; [|done]. by split.
  - split; [done|]. destruct (dma_finish_fields (d1 <| backing := b |> <| last_access_bytes := Disk.byte_len r |>) r)
      as (F1 & F2 & F3 & F4 & F5 & F6). subst d'. split; [exact F4|]. split; [split; [done|exact F1|]|exact F3].
    split; [exact F2|]. rewrite <- Hirq. exact F6.
Qed.

(* ------------------------------------------------------------------ *)
(** ** Completion *)

(** The regions as the processor is told of them. *)
Definition told (t : Transfer) : list DmaWriteSpan := (fun x => mkWritten (address x) (len x)) <$> spans t.

(** The engine after a transfer that succeeded: it stays active, waiting to be stopped,
    unless its last descriptor was used whole and ended the table. *)
Definition finished (b : BusMasterIde) (t : Transfer) : BusMasterIde :=
  b <| primary := (primary b) <| transfer := None |>
    <| status := if retires_eot t then Z.ldiff (status (primary b)) STATUS_ACTIVE else Z.lor (status (primary b)) STATUS_ACTIVE |>
    <| completion_waits_for_stop := negb (retires_eot t) |> |>.

(** The engine after a transfer that failed. *)
Definition failed (b : BusMasterIde) : BusMasterIde :=
  b <| primary := (primary b) <| transfer := None |>
    <| status := Z.lor (Z.ldiff (status (primary b)) STATUS_ACTIVE) STATUS_ERROR |> <| completion_waits_for_stop := false |> |>.

Lemma told_exact m r t : serves m t r -> direction t = DeviceToMemory -> reported t = Some (told t).
Proof.
  intros [_ _ _ Hf _] Hd. unfold reported, told. rewrite decide_True by done. f_equal.
  apply list_fmap_ext. intros i s Hs. apply (Forall_lookup_1 _ _ _ _ Hf) in Hs. unfold span_fits in Hs.
  rewrite !wrap_id by (unfold in_width; lia). done.
Qed.

Lemma complete_in b m t d r : transfer (primary b) = Some t -> disk_ok d -> dma_request d = Some r -> serves m t r ->
  direction t = DeviceToMemory -> Forall u8 (data m) ->
  exists m' d', complete_primary b m d = Some (Some (told t), finished b t, m', d') /\ touched m m' (spans t) /\
    (ForallOrdPairs apart (spans t) -> gather_read m' (spans t) = Some (concat (request_sectors d r))) /\
    request_done d d' /\ backing d' = backing d /\ Disk.status d' = READY /\ last_access_bytes d' = Disk.byte_len r.
Proof.
  intros Ht Hd Hr Hs Hdir Hm. destruct (move_in m t d r Hd Hr Hs Hdir Hm) as (m' & d' & E & Hrest). exists m', d'. split; [|done].
  unfold complete_primary. rewrite Ht, E. cbn [mbind option_bind negb]. rewrite (told_exact m r t) by done. unfold finished, retire.
  by destruct (retires_eot t).
Qed.

Lemma complete_out b m t d r : transfer (primary b) = Some t -> disk_ok d -> dma_request d = Some r -> serves m t r ->
  direction t = MemoryToDevice -> Forall u8 (data m) ->
  exists payload b' d', gather_read m (spans t) = Some payload /\ zlen payload = Disk.byte_len r /\
    wrote (backing d) b' (lba r) (chunks (Z.to_nat (sectors r)) payload) /\
    complete_primary b m d = Some (None, if (store_commit Dma b').2 then failed b else finished b t, m, d') /\
    backing d' = (store_commit Dma b').1 /\ request_done d d' /\
    Disk.status d' = if (store_commit Dma b').2 then Z.lor DRDY ERR else READY.
Proof.
  intros Ht Hd Hr Hs Hdir Hm. destruct (move_out m t d r Hd Hr Hs Hdir Hm) as (payload & b' & d' & Eg & Hz & Hw & E & Hb & Hdone & Hst).
  exists payload, b', d'. split; [done|]. split; [done|]. split; [done|]. split; [|done].
  unfold complete_primary. rewrite Ht, E. cbn [mbind option_bind]. destruct (store_commit Dma b').2 eqn:Ec; cbn [negb].
  - unfold fail_primary, failed. cbn [primary update]. unfold abort_dma. by rewrite (rd_request d d' Hdone).
  - unfold reported. rewrite decide_False by congruence. unfold finished, retire. by destruct (retires_eot t).
Qed.

(** The channel with the engine in state [b], the memory [m] and the disk [d]. *)
Definition moved s b m d : Storage V B := s <| bmide := b |> <| memory := m |> <| ata := Some d |>.

Lemma finished_inv s t m d : channel_inv s -> transfer (primary (bmide s)) = Some t -> memory_len m = size -> Forall u8 (data m) ->
  disk_ok d -> dma_request d = None -> channel_inv (moved s (finished (bmide s) t) m d).
Proof.
  intros [[Hc Ha Hw Hr] _ _] Ht Hl Hm Hd Hn. destruct (Hr t Ht) as ([Hst _] & _).
  assert (Hcore : core (moved s (finished (bmide s) t) m d)) by (apply core_update; try done; apply Hc).
  split; [split; [done| | |]| |]; cbn; try congruence.
  - unfold running. cbn. destruct (retires_eot t); flag_bits; cbn; [by rewrite andb_false_r|by rewrite orb_true_r].
  - intros _. by split_and!; [|exact Hst|].
Qed.

Lemma failed_inv s m d : channel_inv s -> memory_len m = size -> Forall u8 (data m) ->
  disk_ok d -> dma_request d = None -> channel_inv (moved s (failed (bmide s)) m d).
Proof.
  intros [[Hc Ha Hw Hr] _ _] Hl Hm Hd Hn. eapply (idle_inv _ d); try done.
  - apply core_update; try done; apply Hc.
  - cbn. flag_bits. cbn. by rewrite andb_false_r.
Qed.

(* ------------------------------------------------------------------ *)
(** ** Everything that happens keeps the invariant *)

Lemma replace_disk_inv s d d1 : channel_inv s -> ata s = Some d -> disk_ok d1 -> dma_request d1 = dma_request d ->
  channel_inv (s <| ata := Some d1 |>).
Proof.
  intros [[[Hl Hb Hd Hp Hs] Ha Hw Hr] Hlink Harm] Hata Hd1 Hreq. split; [split; [split| | |]| |]; cbn; try done.
  - by intros ? [= <-].
  - intros Hx. by destruct (Hw Hx) as (? & ? & _).
  - intros t Ht. destruct (Hr t Ht) as (Hc & d0 & E0 & Hsv). rewrite Hata in E0. injection E0 as <-.
    split; [done|]. exists d1. split; [done|]. intros r. rewrite Hreq. apply Hsv.
  - intros t Ht. destruct (Hlink t Ht) as (He & d0 & r & E0 & Hr0). rewrite Hata in E0. injection E0 as <-.
    split; [done|]. exists d1, r. by rewrite Hreq.
  - intros d0 r [= <-]. rewrite Hreq. by apply Harm.
Qed.

Lemma note_inv s sec : channel_inv s -> channel_inv (s <| bmide := note_ide_irq (bmide s) sec |>).
Proof.
  intros [[[Hl Hb Hd Hp (H1 & H2 & H3)] Ha Hw Hr] Hlink Harm].
  assert (Hlor : forall v, has (Z.lor v STATUS_INTERRUPT) STATUS_ACTIVE = has v STATUS_ACTIVE) by (intros v; flag_bits; apply orb_false_r).
  destruct sec; (split; [split; [split| | |]| |]; cbn; rewrite ?Hlor; done).
Qed.

Lemma forward_irq_inv s : channel_inv s -> exists irq light s', forward_irq s = (irq, light, s') /\ channel_inv s'.
Proof.
  intros Hi. unfold forward_irq. destruct (ata s) as [d|] eqn:Ha; [|eauto].
  pose proof (co_disk s (lo_core s (cv_loose s Hi)) d Ha) as Hd. cbn [take_irq take_access_bytes].
  do 3 eexists. split; [reflexivity|].
  assert (Hd1 : disk_ok (take_access_bytes (take_irq d).2).2).
  { apply (disk_ok_occur (take_irq d).2 TakeAccess (Number (last_access_bytes d))); [|done..].
    by apply (disk_ok_occur d TakeIrq (Flag (take_irq d).1)). }
  set (s1 := s <| bmide := if irq_pending d && negb (interrupts_disabled d) then note_ide_irq (bmide s) false else bmide s |>).
  assert (Hs1 : channel_inv s1) by (unfold s1; destruct (_ && _); [by apply note_inv|by destruct s]).
  exact (replace_disk_inv s1 d _ Hs1 Ha Hd1 eq_refl).
Qed.

(** The engine's own step, on a disk that has already had its own. *)
Lemma engine_step_inv s d ticks : channel_inv s -> ata s = Some d -> 0 <= ticks -> exists w b m d',
  advance_master_ticks_with_writes (bmide s) ticks (memory s) d = Some (w, b, m, d') /\ channel_inv (moved s b m d').
Proof.
  intros Hi Ha Hk. unfold advance_master_ticks_with_writes. destruct (transfer (primary (bmide s))) as [t|] eqn:Ht.
  2: { do 4 eexists. split; [reflexivity|]. assert (E : moved s (bmide s) (memory s) d = s) by (unfold moved; destruct s; cbn in *; congruence). by rewrite E. }
  pose proof Hi as [[Hc Hact Hw Hr] Hlink _]. destruct (Hlink t Ht) as (He & d0 & r & E0 & Hreq).
  rewrite Ha in E0. injection E0 as <-. destruct (Hr t Ht) as (Hcmd & d0 & E0 & Hsv). rewrite Ha in E0. injection E0 as <-.
  specialize (Hsv r Hreq). pose proof (co_disk s Hc d Ha) as Hd. pose proof (co_bytes s Hc) as Hm. pose proof (co_size s Hc) as Hsz.
  destruct (Z.ltb_spec ticks (ticks_remaining t)) as [Hlt|Hge].
  - do 4 eexists. split; [reflexivity|]. split; [split| |]; cbn.
    + apply core_update; try done. apply Hc.
    + rewrite Hact. unfold running. by rewrite Ht.
    + intros Hx. destruct (Hw Hx) as [Hx' _]. congruence.
    + intros t' [= <-]. split; [exact Hcmd|]. exists d. split; [done|]. intros r' Hr'. rewrite Hreq in Hr'. injection Hr' as <-.
      destruct Hsv as [S1 S2 S3 S4 S5]. split; try done. cbn. lia.
    + intros t' _. split; [done|]. by exists d, r.
    + intros. by eexists.
  - destruct (direction t) eqn:Hdir.
    + destruct (complete_in (bmide s) (memory s) t d r Ht Hd Hreq Hsv Hdir Hm) as (m' & d' & -> & [Tl Tb _] & _ & [Ro Rr _] & _).
      do 4 eexists. split; [reflexivity|]. apply finished_inv; try done; [congruence|auto].
    + destruct (complete_out (bmide s) (memory s) t d r Ht Hd Hreq Hsv Hdir Hm) as (p & b' & d' & _ & _ & _ & -> & _ & [Ro Rr _] & _).
      do 4 eexists. split; [reflexivity|]. destruct (store_commit Dma b').2; [by apply failed_inv|by apply finished_inv].
Qed.

Lemma advance_channel_inv s ticks : channel_inv s -> u64 ticks -> exists w s', advance_channel s ticks = Some (w, s') /\ channel_inv s'.
Proof.
  intros Hi Hk. unfold advance_channel. destruct (ata s) as [d|] eqn:Ha; [|eauto].
  pose proof (co_disk s (lo_core s (cv_loose s Hi)) d Ha) as Hd.
  destruct (advance_inv d ticks (proj1 Hd) ltac:(apply Hk)) as (d1 & E & _).
  assert (Hd1 : disk_ok d1) by (apply (disk_ok_occur d (Advance ticks) Nothing); [done..|cbn [occur]; by rewrite E]).
  pose proof (advance_request d ticks d1 (proj1 Hd) E) as Hreq.
  rewrite E. cbn [mbind option_bind].
  destruct (engine_step_inv (s <| ata := Some d1 |>) d1 ticks) as (w & b & m & d' & Ew & Hi'); [by apply (replace_disk_inv s d)|done|apply Hk|].
  change (bmide (s <| ata := Some d1 |>)) with (bmide s) in Ew. change (memory (s <| ata := Some d1 |>)) with (memory s) in Ew.
  rewrite Ew. cbn [mbind option_bind]. do 2 eexists. split; [reflexivity|exact Hi'].
Qed.

Definition valid_happening (h : Happening (B := B)) : Prop :=
  match h with
  | IoWrite port _ _ prefix => u16 port /\ u64 prefix
  | AdvanceClock ticks => u64 ticks
  | DiskAccess e => direct e = true /\ valid e /\ handed_bytes e
  | MemoryWrite address value => 0 <= address /\ u8 value
  | Mount _ store _ => sectors_bytes store
  | _ => True
  end.

Lemma write_io_inv s port w value prefix : channel_inv s -> u16 port -> u64 prefix -> channel_inv (write_io s port w value prefix).
Proof.
  intros Hi Hport Hp. pose proof (cv_loose s Hi) as Hl. unfold write_io.
  destruct (Pci.write_io (pci s) port w value (vega s)) as [handled [p v]]. destruct handled.
  { apply reconcile_inv; [|apply Hp]. destruct Hl as [[]]. split; [by split|done..]. }
  destruct (bus_master_decodes s port w) as [base|].
  - unfold bus_master_write. destruct (Pci.ide_io_enabled (pci s)); [|done].
    pose proof (write_io_loose s port w value base Hl) as Hw. destruct (Engine.write_io _ _ _ _ _ _) as [b o].
    apply reconcile_inv; [exact Hw|apply Hp].
  - destruct (_ && _); [|done]. unfold task_file_write. destruct (ata s) as [d|] eqn:Ha; [|done].
    pose proof (co_disk s (lo_core s Hl) d Ha) as Hd. apply reconcile_inv; [|apply Hp].
    assert (Hd1 : disk_ok (write_port_at d port (wrap 8 value) prefix).2).
    { apply (disk_ok_occur d (WritePort port (wrap 8 value) prefix) (Flag (write_port_at d port (wrap 8 value) prefix).1)); [done| |done|].
      - split; [done|]. split; [apply wrap8|done].
      - cbn [occur]. by destruct (write_port_at d port (wrap 8 value) prefix). }
    pose proof Hi as [[[Hsz Hb Hdk Hprd Hs] Hact Hw Hr] Hlink _]. split; [split| | |]; cbn; try done.
    + by intros ? [= <-].
    + intros Hx. by destruct (Hw Hx) as (? & ? & _).
    + intros t Ht. destruct (Hr t Ht) as (Hc & d0 & E0 & Hsv). rewrite Ha in E0. injection E0 as <-. split; [done|].
      eexists. split; [done|]. intros r Hr'. apply Hsv. destruct (Hlink t Ht) as (_ & d0 & r0 & E0 & Hr0). rewrite Ha in E0. injection E0 as <-.
      destruct (write_port_request d port (wrap 8 value) prefix r0 Hr0); congruence.
Qed.

(** The engine at rest, whatever the bay holds. *)
Lemma rest_inv s : core s -> primary (bmide s) = default_channel ->
  (forall d, ata s = Some d -> dma_request d = None) -> channel_inv s.
Proof.
  intros Hc Hp Hd. split; [split; [done| | |]| |]; rewrite ?Hp; try done.
Qed.

Lemma media_inv s o : channel_inv s -> (forall d, o = Some d -> disk_ok d /\ dma_request d = None) ->
  channel_inv (s <| bmide := reset_primary (bmide s) |> <| ata := o |>).
Proof.
  intros Hi Ho. destruct (lo_core s (cv_loose s Hi)) as [Hl Hb _ _ Hs]. apply rest_inv; [|done|].
  - split; try done; cbn. intros d Hd. by destruct (Ho d Hd).
  - intros d Hd. by destruct (Ho d Hd).
Qed.

Lemma fresh_disk cached (store : B) total : sectors_bytes store -> disk_ok (with_backing cached store total).
Proof. intros Hs. split; [apply with_backing_inv|]. by split. Qed.

Lemma memory_write_inv s a v m : channel_inv s -> 0 <= a -> u8 v -> Memory.write_u8 (memory s) a v = Ok m ->
  channel_inv (s <| memory := m |>).
Proof.
  intros [[[Hl Hb Hd Hp Hs] Ha Hw Hr] Hlink Harm] Hpos Hv E. pose proof (write_u8_len _ _ _ _ E) as El.
  assert (Hm : Forall u8 (data m)).
  { unfold Memory.write_u8 in E. destruct (data (memory s) !! Z.to_nat a); [|done]. injection E as <-. by apply Forall_insert. }
  split; [split; [split| | |]| |]; cbn; try done; [congruence|].
  intros t Ht. destruct (Hr t Ht) as (Hc & d & Hata & Hsv). split; [done|]. exists d. split; [done|]. intros r Hreq.
  destruct (Hsv r Hreq) as [S1 S2 S3 S4 S5]. split; try done.
  eapply Forall_impl; [exact S4|]. intros x. by apply span_fits_len.
Qed.

Lemma happen_inv h s : channel_inv s -> valid_happening h -> exists n s', happen h s = Some (n, s') /\ channel_inv s'.
Proof.
  intros Hi Hv. destruct h as [port w value prefix|bus devfn offset w value|ticks|e|a v| |cached store total|]; cbn [happen valid_happening] in *.
  - do 2 eexists. split; [reflexivity|]. destruct Hv. by apply write_io_inv.
  - do 2 eexists. split; [reflexivity|]. unfold bios_pci_write. destruct (Pci.write_bdf _ _ _ _ _ _ _) as [p v].
    apply reconcile_inv; [|lia]. destruct (cv_loose s Hi) as [[]]. split; [by split|done..].
  - destruct (advance_channel_inv s ticks Hi Hv) as (w & s1 & E1 & Hi1). unfold advance_devices. rewrite E1. cbn [mbind option_bind].
    destruct (forward_irq_inv s1 Hi1) as (irq & light & s2 & -> & Hi2). eauto.
  - destruct (ata s) as [d|] eqn:Ha; [|eauto]. destruct Hv as (Hdir & Hve & Hh).
    pose proof (co_disk s (lo_core s (cv_loose s Hi)) d Ha) as Hd.
    destruct (disk_occur_inv e d (proj1 Hd) Hve) as (o & d1 & E & _). rewrite E. cbn [mbind option_bind].
    do 2 eexists. split; [reflexivity|]. apply (replace_disk_inv s d); [done..|by apply (disk_ok_occur d e o)|].
    apply (direct_request d e o d1); try done; intros; by intros ->.
  - destruct (Memory.write_u8 (memory s) a v) as [m|] eqn:E; [|eauto]. do 2 eexists. split; [reflexivity|]. destruct Hv. by apply (memory_write_inv s a v).
  - do 2 eexists. split; [reflexivity|]. by apply note_inv.
  - do 2 eexists. split; [reflexivity|]. apply media_inv; [done|]. intros d [= <-]. split; [by apply fresh_disk|done].
  - do 2 eexists. split; [reflexivity|]. by apply media_inv.
Qed.

Lemma history_inv hs : forall s, channel_inv s -> Forall valid_happening hs ->
  exists ns s', history hs s = Some (ns, s') /\ channel_inv s'.
Proof.
  induction hs as [|h hs IH]; intros s Hi Hv; cbn [history]; [eauto|]. apply Forall_cons in Hv as [Hh Hv].
  destruct (happen_inv h s Hi Hh) as (n & s1 & -> & Hi1). cbn [mbind option_bind].
  destruct (IH s1 Hi1 Hv) as (ns & s2 & -> & Hi2). cbn [mbind option_bind]. eauto.
Qed.

Lemma power_on_channel (v : V) m : memory_len m = size -> Forall u8 (data m) -> channel_inv (power_on v m).
Proof. intros Hl Hb. apply rest_inv; [|done|done]. split; done. Qed.

(* ------------------------------------------------------------------ *)
(** ** One advance of a running transfer *)

Definition irq_raised d : bool := irq_pending d && negb (interrupts_disabled d).

(** After the interrupt and the access count have been collected. *)
Definition collected s b m d : Storage V B :=
  s <| bmide := if irq_raised d then note_ide_irq b false else b |> <| memory := m |>
    <| ata := Some (d <| irq_pending := false |> <| last_access_bytes := 0 |>) |>.

Definition counted s t (ticks : Z) : BusMasterIde :=
  (bmide s) <| primary := (primary (bmide s)) <| transfer := Some (t <| ticks_remaining := ticks_remaining t - ticks |>) |> |>.

Lemma advance_running s t d r ticks : channel_inv s -> transfer (primary (bmide s)) = Some t -> ata s = Some d ->
  dma_request d = Some r ->
  happen (AdvanceClock ticks) s =
  '(w, b, m, d') ← (if ticks <? ticks_remaining t then Some (None, counted s t ticks, memory s, d)
                    else complete_primary (bmide s) (memory s) d);
  Some (mkNotice (from_option id [] w) (irq_raised d') (0 <? last_access_bytes d'), collected s b m d').
Proof.
  intros Hi Ht Ha Hr. pose proof (co_disk s (lo_core s (cv_loose s Hi)) d Ha) as [Hd _].
  destruct (stage_request d r Hd Hr) as (Hp & _).
  cbn [happen]. unfold advance_devices, advance_channel. rewrite Ha. unfold advance_master_ticks. rewrite Hp. cbn [mbind option_bind].
  unfold advance_master_ticks_with_writes. rewrite Ht. fold (counted s t ticks).
  destruct (if ticks <? ticks_remaining t then _ else _) as [[[[w b] m] d']|]; reflexivity.
Qed.

Lemma note_bits b (c : bool) : let b' := if c then note_ide_irq b false else b in
  transfer (primary b') = transfer (primary b) /\
  has (status (primary b')) STATUS_ACTIVE = has (status (primary b)) STATUS_ACTIVE /\
  has (status (primary b')) STATUS_ERROR = has (status (primary b)) STATUS_ERROR.
Proof. cbv zeta. destruct c; [|done]. cbn. split; [done|]. split; flag_bits; apply orb_false_r. Qed.

Lemma finished_bits b t : has (status (primary (finished b t))) STATUS_ACTIVE = negb (retires_eot t) /\
  has (status (primary (finished b t))) STATUS_ERROR = has (status (primary b)) STATUS_ERROR.
Proof.
  cbn. destruct (retires_eot t); split; flag_bits; cbn;
    by rewrite ?andb_false_r, ?andb_true_r, ?orb_true_r, ?orb_false_r.
Qed.

Lemma failed_bits b : has (status (primary (failed b))) STATUS_ACTIVE = false /\
  has (status (primary (failed b))) STATUS_ERROR = true.
Proof. cbn. split; flag_bits; cbn; by rewrite ?andb_false_r, ?orb_true_r. Qed.

Lemma running_serves s t d r : channel_inv s -> transfer (primary (bmide s)) = Some t -> ata s = Some d ->
  dma_request d = Some r -> serves (memory s) t r.
Proof.
  intros Hi Ht Ha Hr. destruct (lo_running s (cv_loose s Hi) t Ht) as (_ & d0 & E & Hs). rewrite Ha in E. injection E as <-. by apply Hs.
Qed.

End Invariant.

(* ------------------------------------------------------------------ *)
(** ** What the channel promises *)

Section Claims.
Context {V : Type} `{!ConfigBytes V} {B : Type} `{StoreLaws B}.

Lemma reached_inv (v : V) (m : Memory) (hs : list (Happening (B := B))) ns s : Forall u8 (data m) -> Forall valid_happening hs ->
  history hs (power_on v m) = Some (ns, s) -> channel_inv (memory_len m) s.
Proof.
  intros Hm Hv E. destruct (history_inv (memory_len m) hs (power_on v m)) as (ns' & s' & E' & Hi); [by apply power_on_channel|done|].
  rewrite E in E'. by injection E' as -> ->.
Qed.

(** C14.  Controller and disk stay in step.  Through any history of port writes of any width, configuration writes
    by ports or BIOS, clock advances, memory writes, disk service calls and media changes,
    nothing panics and the guest's memory keeps its size; the bus master runs a transfer
    exactly while it is permitted to master the bus, started in the right direction and the
    disk has the very request the transfer serves, its regions inside the memory and as
    long as the request (so the state the canonical capture refuses never arises); its
    active bit says that it runs or waits to be stopped; and whichever of the two is
    armed first, a request that meets a started, permitted engine is being served, unless the engine has already
    completed a transfer and still waits for the guest to stop it. The disk's store is any
    stable one. *)
Theorem channel_in_step (v : V) (m : Memory) (hs : list (Happening (B := B))) (Hm : Forall u8 (data m)) (Hv : Forall valid_happening hs) :
  exists ns s, history hs (power_on v m) = Some (ns, s) /\ memory_len (memory s) = memory_len m /\ dangling_transfer s = false /\
  has (status (primary (bmide s))) STATUS_ACTIVE = running (primary (bmide s)) || completion_waits_for_stop (primary (bmide s)) /\
  (forall t, transfer (primary (bmide s)) = Some t -> Pci.ide_bus_master_enabled (pci s) = true /\
    commands (primary (bmide s)) (direction t) /\
    exists d r, ata s = Some d /\ dma_request d = Some r /\ serves (memory s) t r) /\
  (forall d r, ata s = Some d -> dma_request d = Some r -> Pci.ide_bus_master_enabled (pci s) = true ->
    has (command (primary (bmide s))) COMMAND_START = true -> completion_waits_for_stop (primary (bmide s)) = false ->
    exists t, transfer (primary (bmide s)) = Some t /\ serves (memory s) t r).
Proof.
  destruct (history_inv (memory_len m) hs (power_on v m)) as (ns & s & E & Hi); [by apply power_on_channel|done|].
  exists ns, s. pose proof Hi as [[Hc Ha Hw Hr] Hlink Harm]. split; [done|]. split; [apply Hc|].
  assert (Hrun : forall t, transfer (primary (bmide s)) = Some t -> exists d r, ata s = Some d /\ dma_request d = Some r /\ serves (memory s) t r).
  { intros t Ht. destruct (Hlink t Ht) as (_ & d & r & Hd & Hq). exists d, r. split; [done|]. split; [done|]. by apply (running_serves (memory_len m) s t d r). }
  split; [|split; [done|]; split].
  - unfold dangling_transfer, ticks_until_completion. destruct (transfer (primary (bmide s))) as [t|] eqn:Ht; [|done].
    destruct (Hrun t eq_refl) as (d & r & -> & Hq & _). cbn [mbind option_bind]. by rewrite Hq.
  - intros t Ht. split; [apply (Hlink t Ht)|]. split; [apply (Hr t Ht)|by apply Hrun].
  - intros d r Hd Hq He Hs Hx. destruct (Harm d r Hd Hq He Hs Hx) as [t Ht]. exists t. split; [done|]. by apply (running_serves (memory_len m) s t d r).
Qed.

(** C15.  A read transfer delivers the sectors, on time and nowhere else.  When the clock advances in any reachable
    state with a transfer from the disk running, an advance short of its deadline changes
    no byte of memory and only counts down; one that reaches it puts the bytes of the
    requested sectors, in order, into the regions of the descriptors when no two of them
    overlap, changes no byte outside them, reports exactly those regions to the processor,
    leaves the disk's sectors as they were, the disk ready with its interrupt forwarded
    unless disabled, and the engine idle with its error bit as it was, its active bit kept until it is
    stopped unless the last descriptor was used whole and ended the table. The disk's store is
    any stable one. *)
Theorem dma_read_delivers (v : V) (m : Memory) (hs : list (Happening (B := B))) ns s t d r ticks
  (Hm : Forall u8 (data m)) (Hv : Forall valid_happening hs) (Hs : history hs (power_on v m) = Some (ns, s))
  (Ht : transfer (primary (bmide s)) = Some t) (Hd : ata s = Some d) (Hr : dma_request d = Some r)
  (Hdir : direction t = DeviceToMemory) :
  exists n s', happen (AdvanceClock ticks) s = Some (n, s') /\
  if ticks <? ticks_remaining t then
    memory s' = memory s /\ device_writes n = [] /\ ticks_until_completion (bmide s') = Some (ticks_remaining t - ticks)
  else
    touched (memory s) (memory s') (spans t) /\
    (ForallOrdPairs apart (spans t) -> gather_read (memory s') (spans t) = Some (concat (request_sectors d r))) /\
    device_writes n = told t /\ primary_irq n = irq_enabled d /\ accessed n = true /\
    transfer (primary (bmide s')) = None /\
    has (status (primary (bmide s'))) STATUS_ACTIVE = negb (retires_eot t) /\
    has (status (primary (bmide s'))) STATUS_ERROR = has (status (primary (bmide s))) STATUS_ERROR /\
    exists d', ata s' = Some d' /\ backing d' = backing d /\ dma_request d' = None /\ Disk.status d' = READY.
Proof.
  pose proof (reached_inv v m hs ns s Hm Hv Hs) as Hi. pose proof (lo_core _ s (cv_loose _ s Hi)) as Hc.
  pose proof (running_serves _ s t d r Hi Ht Hd Hr) as Hsv. rewrite (advance_running _ s t d r ticks Hi Ht Hd Hr).
  destruct (ticks <? ticks_remaining t).
  { do 2 eexists. split; [reflexivity|]. split; [done|]. split; [done|]. unfold collected. cbn [bmide update].
    unfold ticks_until_completion. destruct (note_bits (counted s t ticks) (irq_raised d)) as [-> _]. done. }
  destruct (complete_in (bmide s) (memory s) t d r Ht (co_disk _ s Hc d Hd) Hr Hsv Hdir (co_bytes _ s Hc))
    as (m' & d' & -> & Htch & Hg & [_ Hreq [Hirq Hdis]] & Hb & Hst & Hacc). cbn [mbind option_bind].
  do 2 eexists. split; [reflexivity|]. unfold collected. cbn [memory bmide ata update device_writes primary_irq accessed from_option id].
  destruct (note_bits (finished (bmide s) t) (irq_raised d')) as (-> & -> & ->). destruct (finished_bits (bmide s) t) as [-> ->].
  split; [exact Htch|]. split; [exact Hg|]. split; [done|].
  split; [unfold irq_raised, irq_enabled; by rewrite Hirq, Hdis|].
  split; [|split; [done|]; split; [done|]; split; [done|]; by eexists].
  rewrite Hacc. destruct (co_disk _ s Hc d Hd) as [Hdi _]. destruct (stage_request d r Hdi Hr) as (_ & _ & _ & _ & _ & (_ & Hn & _)).
  apply Z.ltb_lt. unfold Disk.byte_len, SECTOR. lia.
Qed.

(** C16.  A write transfer stores what the guest's memory holds.  When a running transfer to the disk reaches its
    deadline, the bytes of the descriptors' regions in order become the requested sectors
    and every other sector stays; memory is unchanged and nothing is reported to the
    processor; the request is over and its interrupt forwarded unless disabled. When the
    host refuses the commit, disk and engine both show the error and the engine is idle;
    otherwise the disk is ready, the engine's error bit is as it was, and the active bit stays as after a read.
    The disk's store is any stable one. *)
Theorem dma_write_stores (v : V) (m : Memory) (hs : list (Happening (B := B))) ns s t d r ticks
  (Hm : Forall u8 (data m)) (Hv : Forall valid_happening hs) (Hs : history hs (power_on v m) = Some (ns, s))
  (Ht : transfer (primary (bmide s)) = Some t) (Hd : ata s = Some d) (Hr : dma_request d = Some r)
  (Hdir : direction t = MemoryToDevice) (Hdue : ticks_remaining t <= ticks) :
  exists n s' payload b' d', happen (AdvanceClock ticks) s = Some (n, s') /\
  gather_read (memory s) (spans t) = Some payload /\ zlen payload = Disk.byte_len r /\
  wrote (backing d) b' (lba r) (chunks (Z.to_nat (sectors r)) payload) /\
  ata s' = Some d' /\ backing d' = (store_commit Dma b').1 /\ dma_request d' = None /\
  memory s' = memory s /\ device_writes n = [] /\ primary_irq n = irq_enabled d /\ transfer (primary (bmide s')) = None /\
  let refused := (store_commit Dma b').2 in
  Disk.status d' = (if refused then Z.lor DRDY ERR else READY) /\
  has (status (primary (bmide s'))) STATUS_ERROR = refused || has (status (primary (bmide s))) STATUS_ERROR /\
  has (status (primary (bmide s'))) STATUS_ACTIVE = negb refused && negb (retires_eot t).
Proof.
  pose proof (reached_inv v m hs ns s Hm Hv Hs) as Hi. pose proof (lo_core _ s (cv_loose _ s Hi)) as Hc.
  pose proof (running_serves _ s t d r Hi Ht Hd Hr) as Hsv. rewrite (advance_running _ s t d r ticks Hi Ht Hd Hr).
  rewrite (proj2 (Z.ltb_ge _ _) Hdue).
  destruct (complete_out (bmide s) (memory s) t d r Ht (co_disk _ s Hc d Hd) Hr Hsv Hdir (co_bytes _ s Hc))
    as (p & b' & d' & Hg & Hz & Hw & -> & Hb & [_ Hreq [Hirq Hdis]] & Hst). cbn [mbind option_bind].
  do 2 eexists. exists p, b'. eexists. split; [reflexivity|]. unfold collected. cbn [memory bmide ata update device_writes primary_irq from_option].
  split; [done|]. split; [done|]. split; [done|]. split; [done|]. split; [exact Hb|]. split; [exact Hreq|].
  split; [done|]. split; [done|]. split; [unfold irq_raised, irq_enabled; by rewrite Hirq, Hdis|].
  destruct (note_bits (if (store_commit Dma b').2 then failed (bmide s) else finished (bmide s) t) (irq_raised d')) as (-> & -> & ->).
  split; [by destruct (store_commit Dma b').2|]. cbv zeta. split; [exact Hst|].
  destruct (store_commit Dma b').2; [destruct (failed_bits (bmide s)) as [-> ->]|destruct (finished_bits (bmide s) t) as [-> ->]]; done.
Qed.

End Claims.

(* ------------------------------------------------------------------ *)
(** ** A sector each way *)

#[local] Existing Instances Pci.distira_config AtaInv.Image.image_laws.

Definition card : Pci.DistiraConfig := Pci.mkDistira 2 0 0.
Definition blank : Memory := mkMemory (replicate 4112 0).

(** One region of 512 bytes at 200h, described at 1000h. *)
Definition describe : list (Happening (B := list Z)) :=
  [MemoryWrite 4097 2; MemoryWrite 4101 2; MemoryWrite 4103 128].

(** The guest points the engine at the table, asks for sector [lba] and starts it. *)
Definition arm (lba start cmd : Z) : list (Happening (B := list Z)) :=
  [IoWrite 61444 Dword 4096 0; IoWrite 498 Memory.Byte 1 0; IoWrite 499 Memory.Byte lba 0; IoWrite 502 Memory.Byte 224 0;
   IoWrite 61440 Memory.Byte start 0; IoWrite 503 Memory.Byte cmd 0].

Definition fetch : list (Happening (B := list Z)) := Mount true (replicate 512 0 ++ replicate 512 7) 2 :: describe ++ arm 1 9 200.
Definition store : list (Happening (B := list Z)) :=
  Mount true (replicate 512 0 ++ replicate 512 7) 2 :: MemoryWrite 512 5 :: describe ++ arm 1 1 202.

Definition after (hs : list (Happening (B := list Z))) : list Notice * Storage Pci.DistiraConfig (list Z) :=
  from_option id ([], power_on card blank) (history hs (power_on card blank)).

Definition bay (s : Storage Pci.DistiraConfig (list Z)) : AtaDisk (list Z) := from_option id (with_backing true [] 0) (ata s).

Definition one_sector (dir : AtaDmaDirection) : Transfer := mkTransfer dir [mkSpan 512 512] 632027 512 true.
Definition one_request (dir : AtaDmaDirection) : AtaDmaRequest := mkRequest dir 1 1 33300000.

Ltac numeric := vm_compute; first [done | repeat split; done].

Lemma blank_bytes : Forall u8 (data blank).
Proof. apply Forall_replicate. unfold in_width. lia. Qed.

Lemma store_bytes : sectors_bytes (replicate 512 0 ++ replicate 512 7).
Proof.
  intros k x dg _. unfold store_read, image_store, image_read.
  destruct (slice _ _ _) as [y|] eqn:E; [|done]. cbn. intros [= <- _]. apply slice_Some in E as (_ & _ & ->).
  apply Forall_take, Forall_drop, Forall_app. split; apply Forall_replicate; unfold in_width; lia.
Qed.

Lemma fetch_valid : Forall valid_happening fetch.
Proof. apply Forall_cons. split; [exact store_bytes|]. repeat (apply Forall_cons; split; [numeric|]). constructor. Qed.

Lemma store_valid : Forall valid_happening store.
Proof. apply Forall_cons. split; [exact store_bytes|]. repeat (apply Forall_cons; split; [numeric|]). constructor. Qed.

Lemma channel_in_step_witness : exists ns s, history fetch (power_on card blank) = Some (ns, s) /\ dangling_transfer s = false.
Proof.
  destruct (channel_in_step card blank fetch blank_bytes fetch_valid) as (ns & s & E & _ & Hd & _). exists ns, s. exact (conj E Hd).
Defined.

Lemma dma_read_delivers_witness : exists n s', happen (AdvanceClock 632027) (after fetch).2 = Some (n, s') /\
  gather_read (memory s') [mkSpan 512 512] = Some (concat (request_sectors (bay (after fetch).2) (one_request DeviceToMemory))) /\
  device_writes n = [mkWritten 512 512] /\ primary_irq n = true.
Proof.
  destruct (dma_read_delivers card blank fetch (after fetch).1 (after fetch).2 (one_sector DeviceToMemory)
    (bay (after fetch).2) (one_request DeviceToMemory) 632027) as (n & s' & E & H).
  - exact blank_bytes.
  - exact fetch_valid.
  - vm_compute. reflexivity.
  - vm_compute. reflexivity.
  - vm_compute. reflexivity.
  - vm_compute. reflexivity.
  - reflexivity.
  - exists n, s'. destruct H as (_ & Hg & Hw & Hi & _). split; [exact E|]. split; [apply Hg; repeat constructor|].
    split; [exact Hw|]. rewrite Hi. vm_compute. reflexivity.
Defined.

Lemma dma_write_stores_witness : exists n s' d', happen (AdvanceClock 632027) (after store).2 = Some (n, s') /\
  ata s' = Some d' /\ Disk.status d' = READY /\ memory s' = memory (after store).2.
Proof.
  destruct (dma_write_stores card blank store (after store).1 (after store).2 (one_sector MemoryToDevice)
    (bay (after store).2) (one_request MemoryToDevice) 632027) as (n & s' & p & b' & d' & E & _ & _ & _ & Ha & _ & _ & Hm & _ & _ & _ & Hst & _).
  - exact blank_bytes.
  - exact store_valid.
  - vm_compute. reflexivity.
  - vm_compute. reflexivity.
  - vm_compute. reflexivity.
  - vm_compute. reflexivity.
  - reflexivity.
  - apply Z.le_refl.
  - exists n, s', d'. exact (conj E (conj Ha (conj Hst Hm))).
Defined.

End Bound.
