(* ===== verification/Mouse.v ===== *)
(** * The PS/2 mouse

    crates/izarravm-machine/src/mouse.rs: the auxiliary device of the keyboard controller, a
    wheel mouse whose host-fed motion accumulates until a sample turns it into a packet.
    Motion is a signed 32-bit integer. *)

From S2P Require Import Prelude Clock.
Import Clock.Rate.

Module Mouse.

(** [i32::clamp] and [i32::saturating_add] *)
Definition clamp (lo hi v : Z) : Z := if v <? lo then lo else if hi <? v then hi else v.
Definition sat_add (a b : Z) : Z := clamp (- 2 ^ 31) (2 ^ 31 - 1) (a + b).

Record Ps2Mouse := mkMouse {
  queue : list Z; reporting : bool; sample_rate : Z; resolution : Z; scaling_2to1 : bool; buttons : Z;
  expecting_data : option Z; device_id : Z; intellimouse : bool; rate_history : Z * Z * Z;
  pending_dx : Z; pending_dy : Z; pending_dz : Z; host_buttons : Z
}.
#[export] Instance eta_Ps2Mouse : Eta Ps2Mouse := fun m =>
  mkMouse (queue m) (reporting m) (sample_rate m) (resolution m) (scaling_2to1 m) (buttons m) (expecting_data m)
    (device_id m) (intellimouse m) (rate_history m) (pending_dx m) (pending_dy m) (pending_dz m) (host_buttons m).

Definition default : Ps2Mouse := mkMouse [] false 100 2 false 0 None 0 false (0, 0, 0) 0 0 0 0.

Definition push (m : Ps2Mouse) (bytes : list Z) : Ps2Mouse := m <| queue := queue m ++ bytes |>.

Definition host_update (m : Ps2Mouse) (dx dy dz btns : Z) : Ps2Mouse :=
  m <| pending_dx := sat_add (pending_dx m) dx |> <| pending_dy := sat_add (pending_dy m) dy |>
    <| pending_dz := sat_add (pending_dz m) dz |> <| host_buttons := Z.land btns 7 |>.

Definition state_pending (m : Ps2Mouse) : bool :=
  reporting m && (negb (pending_dx m =? 0) || negb (pending_dy m =? 0) || negb (pending_dz m =? 0)
    || negb (host_buttons m =? buttons m)).

Definition sample_period_ticks (m : Ps2Mouse) : Z := MASTER_CLOCK_HZ / Z.max (sample_rate m) 1.

Definition drop_pending (m : Ps2Mouse) : Ps2Mouse :=
  m <| pending_dx := 0 |> <| pending_dy := 0 |> <| pending_dz := 0 |> <| buttons := host_buttons m |>.

Definition set_reporting (m : Ps2Mouse) (on : bool) : Ps2Mouse :=
  let m := m <| reporting := on |> in if negb on then drop_pending m else m.

Definition queue_movement (m : Ps2Mouse) (dx dy btns dz : Z) : bool * Ps2Mouse :=
  let m := m <| buttons := Z.land btns 7 |> in
  if negb (reporting m) then (false, m)
  else
    let cx := clamp (-256) 255 dx in
    let cy := clamp (-256) 255 (- dy) in
    let byte0 := Z.lor 8 (Z.land btns 7) in
    let byte0 := if cx <? 0 then Z.lor byte0 16 else byte0 in
    let byte0 := if cy <? 0 then Z.lor byte0 32 else byte0 in
    let m := push m [byte0; Z.land cx 255; Z.land cy 255] in
    (true, if intellimouse m then push m [wrap 8 (clamp (-8) 7 dz)] else m).

Definition sample (m : Ps2Mouse) : bool * Ps2Mouse :=
  if negb (reporting m) then (false, drop_pending m)
  else if negb (state_pending m) || negb (bool_decide (queue m = [])) then (false, m)
  else
    let dx := clamp (-256) 255 (pending_dx m) in
    let dy := clamp (-255) 256 (pending_dy m) in
    let m := m <| pending_dx := pending_dx m - dx |> <| pending_dy := pending_dy m - dy |> in
    let dz := if intellimouse m then clamp (-8) 7 (pending_dz m) else 0 in
    let m := m <| pending_dz := if intellimouse m then pending_dz m - dz else 0 |> in
    queue_movement m dx dy (host_buttons m) dz.

Definition enable_wheel (m : Ps2Mouse) : Ps2Mouse := m <| device_id := 3 |> <| intellimouse := true |>.

Definition set_sample_rate (m : Ps2Mouse) (rate : Z) : Ps2Mouse :=
  let '(_, b, c) := rate_history m in
  let m := m <| sample_rate := rate |> <| rate_history := (b, c, rate) |> in
  if (b =? 200) && (c =? 100) && (rate =? 80) then enable_wheel m else m.

Definition set_sample_rate_code (m : Ps2Mouse) (code : Z) : bool * Ps2Mouse :=
  match code with
  | 0 => (true, set_sample_rate m 10)
  | 1 => (true, set_sample_rate m 20)
  | 2 => (true, set_sample_rate m 40)
  | 3 => (true, set_sample_rate m 60)
  | 4 => (true, set_sample_rate m 80)
  | 5 => (true, set_sample_rate m 100)
  | 6 => (true, set_sample_rate m 200)
  | _ => (false, m)
  end.

(** What 0FFh and 0F6h share. *)
Definition set_defaults (m : Ps2Mouse) : Ps2Mouse :=
  (set_reporting m false) <| sample_rate := 100 |> <| resolution := 2 |> <| scaling_2to1 := false |>
    <| device_id := 0 |> <| intellimouse := false |> <| rate_history := (0, 0, 0) |>.

Definition write_byte (m : Ps2Mouse) (value : Z) : Ps2Mouse :=
  match expecting_data m with
  | Some cmd =>
      let m := m <| expecting_data := None |> in
      let m := if cmd =? 243 then set_sample_rate m value else if cmd =? 232 then m <| resolution := value |> else m in
      push m [250]
  | None =>
      match value with
      | 255 => push (set_defaults m) [250; 170; 0]
      | 246 => push (set_defaults m) [250]
      | 244 => push (m <| reporting := true |>) [250]
      | 245 => push (set_reporting m false) [250]
      | 243 | 232 => push (m <| expecting_data := Some value |>) [250]
      | 231 => push (m <| scaling_2to1 := true |>) [250]
      | 230 => push (m <| scaling_2to1 := false |>) [250]
      | 233 =>
          let byte0 := if scaling_2to1 m then 16 else 0 in
          let byte0 := if reporting m then Z.lor byte0 32 else byte0 in
          let byte0 := Z.lor byte0 (Z.land (buttons m) 7) in
          push m [250; byte0; resolution m; sample_rate m]
      | 242 => push m [250; device_id m]
      | _ => push m [250]
      end
  end.

End Mouse.
