(* ===== verification/MouseSound.v ===== *)
(** * The mouse reports the motion it was fed

    Packets decode to the motion that left the accumulators, and sampling until nothing is
    pending reports all of it. *)

From S2P Require Import Prelude Clock Mouse.
Import Mouse.

Module Motion.

(** What a driver reads out of a packet: motion in the host's sense, buttons, wheel. *)
Definition signed (byte : Z) (negative : bool) : Z := if negative then byte - 256 else byte.
Definition packet_dx (p : list Z) : Z := signed (nth 1 p 0) (has (nth 0 p 0) 16).
Definition packet_dy (p : list Z) : Z := - signed (nth 2 p 0) (has (nth 0 p 0) 32).
Definition packet_dz (p : list Z) : Z := signed (nth 3 p 0) (128 <=? nth 3 p 0).
Definition packet_buttons (p : list Z) : Z := Z.land (nth 0 p 0) 7.

Definition drained (m : Ps2Mouse) : Ps2Mouse := m <| Mouse.queue := [] |>.

(** Sample and read out the packet, at most [n] times. *)
Fixpoint report (n : nat) (m : Ps2Mouse) : list (list Z) * Ps2Mouse :=
  match n with
  | O => ([], m)
  | S n =>
      let '(queued, m') := sample m in
      if queued then let '(ps, m'') := report n (drained m') in (Mouse.queue m' :: ps, m'') else ([], m')
  end.

Definition total (f : list Z -> Z) (ps : list (list Z)) : Z := foldr (fun p acc => f p + acc) 0 ps.

(** Packets enough for what is pending. *)
Definition needed (m : Ps2Mouse) : Z := 1 + Z.abs (pending_dx m) / 255 + Z.abs (pending_dy m) / 255 + Z.abs (pending_dz m) / 7.

(** A reporting mouse with nothing on the wire. *)
Record idle (m : Ps2Mouse) : Prop := {
  id_reporting : reporting m = true;
  id_queue : Mouse.queue m = [];
  id_buttons : 0 <= host_buttons m < 8
}.

Lemma byte0_bits b x y : 0 <= b < 8 ->
  let byte0 := Z.lor 8 (Z.land b 7) in
  let byte0 := if x : bool then Z.lor byte0 16 else byte0 in
  let byte0 := if y : bool then Z.lor byte0 32 else byte0 in
  has byte0 16 = x /\ has byte0 32 = y /\ Z.land byte0 7 = b.
Proof.
  intros Hb. assert (b = 0 \/ b = 1 \/ b = 2 \/ b = 3 \/ b = 4 \/ b = 5 \/ b = 6 \/ b = 7) as Hc by lia.
  destruct x, y, Hc as [->|[->|[->|[->|[->|[->|[->| ->]]]]]]]; by vm_compute.
Qed.

Lemma signed_field c : -256 <= c <= 255 -> signed (Z.land c 255) (c <? 0) = c.
Proof.
  intros H. change 255 with (Z.ones 8). rewrite Z.land_ones by lia. unfold signed. destruct (c <? 0) eqn:E.
  - replace (c mod 2 ^ 8) with (c + 256); [lia|]. apply (Z.mod_unique _ _ (-1)); lia.
  - rewrite Z.mod_small; lia.
Qed.

Lemma signed_wheel c : -8 <= c <= 7 -> signed (wrap 8 c) (128 <=? wrap 8 c) = c.
Proof.
  intros H. assert (c < 0 \/ 0 <= c) as [Hc|Hc] by lia.
  - assert (E : wrap 8 c = c + 256) by (unfold wrap; symmetry; apply (Z.mod_unique _ _ (-1)); lia).
    rewrite E. unfold signed. replace (128 <=? c + 256) with true by lia. lia.
  - assert (E : wrap 8 c = c) by (unfold wrap; apply Z.mod_small; lia).
    rewrite E. unfold signed. by replace (128 <=? c) with false by lia.
Qed.

Lemma field_range lo hi v : lo <= hi -> lo <= clamp lo hi v <= hi.
Proof. unfold clamp. intros. destruct (v <? lo) eqn:?, (hi <? v) eqn:?; lia. Qed.

Lemma clamp_id lo hi v : lo <= v <= hi -> clamp lo hi v = v.
Proof. unfold clamp. intros. destruct (v <? lo) eqn:?, (hi <? v) eqn:?; lia. Qed.

(** What one sample puts on the wire, by the motion it takes from the accumulators. *)
Record sampled (m m' : Ps2Mouse) (p : list Z) : Prop := {
  sa_dx : packet_dx p = pending_dx m - pending_dx m';
  sa_dy : packet_dy p = pending_dy m - pending_dy m';
  sa_dz : intellimouse m = true -> packet_dz p = pending_dz m - pending_dz m';
  sa_flat : intellimouse m = false -> pending_dz m' = 0;
  sa_buttons : packet_buttons p = host_buttons m /\ buttons m' = host_buttons m /\ host_buttons m' = host_buttons m;
  sa_takes : pending_dx m' = pending_dx m - clamp (-256) 255 (pending_dx m)
    /\ pending_dy m' = pending_dy m - clamp (-255) 256 (pending_dy m)
    /\ (intellimouse m = true -> pending_dz m' = pending_dz m - clamp (-8) 7 (pending_dz m));
  sa_kept : reporting m' = true /\ intellimouse m' = intellimouse m;
  sa_length : length p = if intellimouse m then 4%nat else 3%nat
}.

Lemma sample_packet m : idle m -> state_pending m = true ->
  exists m', sample m = (true, m') /\ sampled m m' (Mouse.queue m').
Proof.
  intros [Hr Hq Hb] Hp. unfold sample. rewrite Hr, Hp, Hq. cbn [negb orb bool_decide]. rewrite bool_decide_eq_true_2 by done. cbn [negb].
  assert (Hb7 : Z.land (host_buttons m) 7 = host_buttons m).
  { change 7 with (Z.ones 3). rewrite Z.land_ones by lia. apply Z.mod_small. lia. }
  set (dx := clamp (-256) 255 (pending_dx m)). set (dy := clamp (-255) 256 (pending_dy m)).
  pose proof (field_range (-256) 255 (pending_dx m) ltac:(lia)) as Hdx. pose proof (field_range (-255) 256 (pending_dy m) ltac:(lia)) as Hdy.
  pose proof (field_range (-8) 7 (pending_dz m) ltac:(lia)) as Hdz. fold dx in Hdx. fold dy in Hdy.
  destruct (byte0_bits (host_buttons m) (dx <? 0) (- dy <? 0) Hb) as (B1 & B2 & B3).
  unfold queue_movement. cbn -[clamp Z.lor Z.land wrap]. rewrite Hr. cbn -[clamp Z.lor Z.land wrap].
  rewrite (clamp_id (-256) 255 dx), (clamp_id (-256) 255 (- dy)) by lia.
  destruct (intellimouse m) eqn:Ei; eexists; (split; [reflexivity|]); cbn -[clamp Z.lor Z.land wrap]; rewrite Hq; cbn -[clamp Z.lor Z.land wrap].
  all: split; unfold packet_dx, packet_dy, packet_dz, packet_buttons; cbn -[clamp Z.lor Z.land wrap]; rewrite ?B1, ?B2, ?B3, ?Ei, ?Hb7; auto.
  all: rewrite ?signed_field by lia; try lia.
  intros _. rewrite (clamp_id (-8) 7 (clamp _ _ _)), signed_wheel by lia. lia.
Qed.

(** A sample either leaves nothing, or takes a full field's worth. *)
Lemma clamp_progress lo hi v w : lo <= - w -> w <= hi -> 0 < w ->
  v - clamp lo hi v = 0 \/ Z.abs (v - clamp lo hi v) / w + 1 <= Z.abs v / w.
Proof.
  intros Hl Hh Hw. unfold clamp. destruct (v <? lo) eqn:E1; [|destruct (hi <? v) eqn:E2; [|left; lia]]; right.
  - replace (Z.abs v) with (Z.abs v - w + 1 * w) by lia. rewrite Z.div_add by lia.
    pose proof (Z.div_le_mono (Z.abs (v - lo)) (Z.abs v - w) w Hw). lia.
  - replace (Z.abs v) with (Z.abs v - w + 1 * w) by lia. rewrite Z.div_add by lia.
    pose proof (Z.div_le_mono (Z.abs (v - hi)) (Z.abs v - w) w Hw). lia.
Qed.

Lemma abs_div_nonneg v w : 0 < w -> 0 <= Z.abs v / w.
Proof. intros. apply Z.div_pos; lia. Qed.

Lemma not_pending m : idle m -> pending_dx m = 0 -> pending_dy m = 0 -> pending_dz m = 0 -> buttons m = host_buttons m -> state_pending m = false.
Proof. intros [Hr _ _] Hx Hy Hz Hb. unfold state_pending. by rewrite Hr, Hx, Hy, Hz, Hb, !Z.eqb_refl. Qed.

(** After a sample, nothing is left to report or fewer packets are needed. *)
Lemma sample_progress m m' p : idle m -> sampled m m' p -> idle (drained m') /\
  (state_pending (drained m') = false \/ needed (drained m') + 1 <= needed m).
Proof.
  intros Hi [_ _ _ Hf [_ [Hb Hh]] (Hx & Hy & Hz) [Hr Hm] _].
  assert (Hi' : idle (drained m')) by (split; [done|done|cbn; rewrite Hh; apply Hi]). split; [done|].
  pose proof (clamp_progress (-256) 255 (pending_dx m) 255 ltac:(lia) ltac:(lia) ltac:(lia)) as Px. rewrite <- Hx in Px.
  pose proof (clamp_progress (-255) 256 (pending_dy m) 255 ltac:(lia) ltac:(lia) ltac:(lia)) as Py. rewrite <- Hy in Py.
  assert (Pz : pending_dz m' = 0 \/ Z.abs (pending_dz m') / 7 + 1 <= Z.abs (pending_dz m) / 7).
  { destruct (intellimouse m); [|left; by apply Hf]. rewrite (Hz eq_refl). apply clamp_progress; lia. }
  pose proof (abs_div_nonneg (pending_dx m) 255 ltac:(lia)). pose proof (abs_div_nonneg (pending_dy m) 255 ltac:(lia)).
  pose proof (abs_div_nonneg (pending_dz m) 7 ltac:(lia)). 
  assert (Qx : Z.abs (pending_dx m') / 255 <= Z.abs (pending_dx m) / 255) by (destruct Px as [->|]; [done|lia]).
  assert (Qy : Z.abs (pending_dy m') / 255 <= Z.abs (pending_dy m) / 255) by (destruct Py as [->|]; [done|lia]).
  assert (Qz : Z.abs (pending_dz m') / 7 <= Z.abs (pending_dz m) / 7) by (destruct Pz as [->|]; [done|lia]).
  unfold needed. change (pending_dx (drained m')) with (pending_dx m'). change (pending_dy (drained m')) with (pending_dy m').
  change (pending_dz (drained m')) with (pending_dz m').
  destruct Px as [Ex|Px], Py as [Ey|Py], Pz as [Ez|Pz];
    [left; apply not_pending; [done|done|done|done|cbn; congruence]|right; lia..].
Qed.

Lemma sample_idle m : idle m -> state_pending m = false -> sample m = (false, m).
Proof. intros [Hr _ _] Hp. unfold sample. by rewrite Hr, Hp. Qed.

(** The packets [ps] report all that is pending in [m]. *)
Record reports (m : Ps2Mouse) (ps : list (list Z)) (m' : Ps2Mouse) : Prop := {
  re_rest : state_pending m' = false /\ pending_dx m' = 0 /\ pending_dy m' = 0 /\ pending_dz m' = 0;
  re_dx : total packet_dx ps = pending_dx m;
  re_dy : total packet_dy ps = pending_dy m;
  re_dz : intellimouse m = true -> total packet_dz ps = pending_dz m;
  re_buttons : buttons m' = host_buttons m;
  re_packets : Forall (fun p => length p = (if intellimouse m then 4%nat else 3%nat) /\ packet_buttons p = host_buttons m) ps
}.

Lemma report_rest n m : idle m -> state_pending m = false -> let '(ps, m') := report n m in reports m ps m'.
Proof.
  intros Hi Hp. assert (H : reports m [] m).
  { unfold state_pending in Hp. rewrite (id_reporting _ Hi) in Hp. cbn [andb] in Hp.
    apply orb_false_iff in Hp as [Hp Hb]. apply orb_false_iff in Hp as [Hp Hz]. apply orb_false_iff in Hp as [Hx Hy].
    split; [|cbn; lia..|constructor]. split; [|lia]. apply not_pending; [done|lia..]. }
  destruct n as [|n]; [done|]. cbn [report]. by rewrite sample_idle.
Qed.

Lemma total_cons f p ps : total f (p :: ps) = f p + total f ps.
Proof. reflexivity. Qed.

Lemma reports_cons m m1 ps m' : sampled m m1 (Mouse.queue m1) -> reports (drained m1) ps m' -> reports m (Mouse.queue m1 :: ps) m'.
Proof.
  intros [Dx Dy Dz Df (B1 & B2 & B3) _ [Hr Hm] Hl] [R X Y Z B P]. change (pending_dx (drained m1)) with (pending_dx m1) in X.
  change (pending_dy (drained m1)) with (pending_dy m1) in Y. split; [exact R|rewrite total_cons; lia..| | |].
  - intros Hw. specialize (Dz Hw). rewrite total_cons, (Z (eq_trans Hm Hw)), Dz. change (pending_dz (drained m1)) with (pending_dz m1). lia.
  - cbn in B. congruence.
  - constructor; [done|]. cbn in P. rewrite Hm, B3 in P. exact P.
Qed.

(** C13.  The mouse reports exactly the motion it was fed.  A reporting mouse with an empty
    queue, sampled and read out again and again, comes to rest within a number of packets
    that is linear in the motion pending; the packets decode to exactly that motion in both
    axes (in wheel mode also to the detents), nothing is left in the accumulators, each
    packet has the length of the mode, and the buttons reported are the ones the host
    holds. *)
Theorem motion_reported n m : idle m -> needed m <= Z.of_nat n ->
  let '(ps, m') := report n m in reports m ps m'.
Proof.
  revert m. induction n as [|n IH]; intros m Hi Hn.
  - pose proof (abs_div_nonneg (pending_dx m) 255 ltac:(lia)). pose proof (abs_div_nonneg (pending_dy m) 255 ltac:(lia)).
    pose proof (abs_div_nonneg (pending_dz m) 7 ltac:(lia)). unfold needed in Hn. lia.
  - destruct (state_pending m) eqn:Ep; [|by apply report_rest].
    cbn [report]. destruct (sample_packet m Hi Ep) as (m1 & Es & Hs). rewrite Es. destruct (sample_progress _ _ _ Hi Hs) as [Hi1 Hp].
    assert (Hrest : let '(ps, m') := report n (drained m1) in reports (drained m1) ps m').
    { destruct Hp as [Hp|Hp]; [by apply report_rest|apply IH; [done|lia]]. }
    destruct (report n (drained m1)) as [ps m']. by apply (reports_cons _ m1).
Qed.

(** A diagonal flick with two buttons down, on a wheel mouse. *)
Definition flicked : Ps2Mouse := host_update (set_reporting (enable_wheel default) true) 700 (-1000) (-20) 3.

Lemma motion_reported_witness : idle flicked /\ fst (report 9 flicked) = [[11; 255; 255; 248]; [11; 255; 255; 248]; [11; 190; 255; 252]; [11; 0; 235; 0]]
  /\ let '(ps, m') := report 9 flicked in reports flicked ps m'.
Proof.
  assert (Hi : idle flicked) by (split; [done|done|by split]). split; [exact Hi|]. split; [reflexivity|].
  apply (motion_reported 9 flicked); [exact Hi|by vm_compute].
Defined.

End Motion.
