(* ===== verification/Keyboard.v ===== *)
(** * The keyboard controller

    crates/izarravm-machine/src/keyboard.rs: the 8042 with its scancode queue and the
    auxiliary device behind it, the timed handshake of the two ports, and the clock loop
    that runs the controller's input, the serial byte in flight and the mouse's sample clock. *)

From S2P Require Import Prelude Clock Mouse.
Import Clock.Rate.

#[export] Existing Instance Mouse.eta_Ps2Mouse.

Module Controller.

Definition STATUS_OBF : Z := 1.
Definition STATUS_IBF : Z := 2.
Definition STATUS_SYS : Z := 4.
Definition STATUS_CMD : Z := 8.
Definition STATUS_AUX : Z := 32.
Definition CONTROLLER_INPUT_TICKS : Z := MASTER_CLOCK_HZ / 50000.
Definition DEVICE_BYTE_TICKS : Z := MASTER_CLOCK_HZ / 1000.

Inductive PendingInput := Command (v : Z) | Data (v : Z).

Record Keyboard8042 := mkKeyboard {
  queue : list Z; output : option Z; output_is_aux : bool; status : Z; command_byte : Z;
  expecting_command_data : option Z; irq_armed : bool; irq12_armed : bool; output_port : Z;
  kbd_expecting_data : option Z; scan_set : Z; last_byte : Z; mouse : Mouse.Ps2Mouse;
  pending_input : option PendingInput; input_ticks : Z; device_byte_ticks : option Z; device_byte_ready : bool;
  mouse_sample_ticks : option Z
}.
#[export] Instance eta_Keyboard8042 : Eta Keyboard8042 := fun k =>
  mkKeyboard (queue k) (output k) (output_is_aux k) (status k) (command_byte k) (expecting_command_data k)
    (irq_armed k) (irq12_armed k) (output_port k) (kbd_expecting_data k) (scan_set k) (last_byte k) (mouse k)
    (pending_input k) (input_ticks k) (device_byte_ticks k) (device_byte_ready k) (mouse_sample_ticks k).

Definition default : Keyboard8042 :=
  mkKeyboard [] None false STATUS_SYS 1 None false false 3 None 2 0 Mouse.default None 0 None false None.

(* ------------------------------------------------------------------ *)
(** ** The serial byte and the output buffer *)

Definition obf (k : Keyboard8042) : bool := has (status k) STATUS_OBF.

Definition queued_device_byte (k : Keyboard8042) : bool :=
  (negb (has (command_byte k) 16) && negb (bool_decide (queue k = [])))
  || (negb (has (command_byte k) 32) && negb (bool_decide (Mouse.queue (mouse k) = []))).

Definition schedule_device_byte_at (k : Keyboard8042) (prefix_ticks : Z) : Keyboard8042 :=
  if negb (obf k) && negb (device_byte_ready k) && negb (bool_decide (is_Some (device_byte_ticks k)))
    && queued_device_byte k
  then k <| device_byte_ticks := Some (saturate 64 (prefix_ticks + DEVICE_BYTE_TICKS)) |> else k.

Definition schedule_device_byte (k : Keyboard8042) : Keyboard8042 := schedule_device_byte_at k 0.

Definition latch_ready_device_byte (k : Keyboard8042) : Keyboard8042 :=
  if obf k then k
  else
    let kbd_disabled := has (command_byte k) 16 in
    let aux_disabled := has (command_byte k) 32 in
    match (if kbd_disabled then [] else queue k) with
    | code :: rest =>
        let k := k <| queue := rest |> <| output := Some code |> <| output_is_aux := false |> <| last_byte := code |> in
        let k := k <| status := Z.ldiff (Z.lor (status k) STATUS_OBF) STATUS_AUX |> in
        let k := if has (command_byte k) 1 then k <| irq_armed := true |> else k in
        k <| device_byte_ready := false |>
    | [] =>
        match (if aux_disabled then [] else Mouse.queue (mouse k)) with
        | code :: rest =>
            let k := k <| mouse := (mouse k) <| Mouse.queue := rest |> |> <| output := Some code |> <| output_is_aux := true |> in
            let k := k <| status := Z.lor (status k) (Z.lor STATUS_OBF STATUS_AUX) |> in
            let k := if has (command_byte k) 2 then k <| irq12_armed := true |> else k in
            k <| device_byte_ready := false |>
        | [] => k
        end
    end.

Definition latch_if_ready (k : Keyboard8042) : Keyboard8042 :=
  if device_byte_ready k then latch_ready_device_byte k else k.

Definition arm_current_output (k : Keyboard8042) : Keyboard8042 :=
  if negb (obf k) then k
  else if output_is_aux k then (if has (command_byte k) 2 then k <| irq12_armed := true |> else k)
  else if has (command_byte k) 1 then k <| irq_armed := true |> else k.

Definition respond_controller (k : Keyboard8042) (response : Z) : Keyboard8042 :=
  let k :=
    match (if obf k then output k else None) with
    | Some latched =>
        let k := k <| output := None |> in
        let k :=
          if output_is_aux k then k <| mouse := (mouse k) <| Mouse.queue := latched :: Mouse.queue (mouse k) |> |>
          else k <| queue := latched :: queue k |> in
        k <| device_byte_ready := true |>
    | None => k
    end in
  let k := k <| output := Some response |> <| output_is_aux := false |> in
  let k := k <| status := Z.ldiff (Z.lor (status k) STATUS_OBF) STATUS_AUX |> in
  if has (command_byte k) 1 then k <| irq_armed := true |> else k.

(* ------------------------------------------------------------------ *)
(** ** The host's side *)

Definition push_scancodes (k : Keyboard8042) (codes : list Z) : Keyboard8042 :=
  schedule_device_byte (k <| queue := queue k ++ codes |>).

Definition kick_mouse_sample (k : Keyboard8042) : Keyboard8042 :=
  if bool_decide (is_Some (mouse_sample_ticks k)) then k
  else
    let '(queued, m) := Mouse.sample (mouse k) in
    let k := k <| mouse := m |> in
    let k := if queued : bool then schedule_device_byte k else k in
    if Mouse.state_pending (mouse k) then k <| mouse_sample_ticks := Some (Mouse.sample_period_ticks (mouse k)) |> else k.

Definition inject_mouse (k : Keyboard8042) (dx dy btns : Z) : bool * Keyboard8042 :=
  let k := kick_mouse_sample (k <| mouse := Mouse.host_update (mouse k) dx dy 0 btns |>) in
  (Mouse.reporting (mouse k) && irq12_armed k, k).

Definition inject_mouse_wheel (k : Keyboard8042) (dz : Z) : bool * Keyboard8042 :=
  let btns := Mouse.host_buttons (mouse k) in
  let k := kick_mouse_sample (k <| mouse := Mouse.host_update (mouse k) 0 0 dz btns |>) in
  (Mouse.reporting (mouse k) && irq12_armed k, k).

Definition set_mouse_reporting (k : Keyboard8042) (on : bool) : Keyboard8042 :=
  kick_mouse_sample (k <| mouse := Mouse.set_reporting (mouse k) on |>).

Definition enable_mouse_wheel (k : Keyboard8042) : Keyboard8042 := k <| mouse := Mouse.enable_wheel (mouse k) |>.

Definition set_mouse_sample_rate_code (k : Keyboard8042) (code : Z) : bool * Keyboard8042 :=
  let '(ok, m) := Mouse.set_sample_rate_code (mouse k) code in (ok, k <| mouse := m |>).

Definition set_mouse_irq (k : Keyboard8042) (on : bool) : Keyboard8042 :=
  if on then
    let k := arm_current_output (k <| command_byte := Z.lor (command_byte k) 2 |>) in
    schedule_device_byte (latch_if_ready k)
  else k <| command_byte := Z.ldiff (command_byte k) 2 |> <| irq12_armed := false |>.

Definition a20_enabled (k : Keyboard8042) : bool := has (output_port k) 2.

Definition set_a20 (k : Keyboard8042) (enabled : bool) : Keyboard8042 :=
  k <| output_port := if enabled then Z.lor (output_port k) 2 else Z.ldiff (output_port k) 2 |>.

(* ------------------------------------------------------------------ *)
(** ** The guest's commands *)

Definition write_keyboard_byte (k : Keyboard8042) (value : Z) : Keyboard8042 :=
  match kbd_expecting_data k with
  | Some cmd =>
      let k := k <| kbd_expecting_data := None |> in
      let k := k <| queue := queue k ++ [250] |> in
      let k :=
        if cmd =? 240 then
          if value =? 0 then k <| queue := queue k ++ [scan_set k] |>
          else if (1 <=? value) && (value <=? 3) then k <| scan_set := value |> else k
        else k in
      schedule_device_byte k
  | None =>
      match value with
      | 255 => push_scancodes k [250; 170]
      | 238 => push_scancodes k [238]
      | 242 => push_scancodes k [250; 171; 65]
      | 240 | 243 => push_scancodes (k <| kbd_expecting_data := Some value |>) [250]
      | 254 => push_scancodes k [last_byte k]
      | _ => push_scancodes k [250]
      end
  end.

Definition process_data (k : Keyboard8042) (value : Z) : Keyboard8042 :=
  match expecting_command_data k with
  | Some cmd =>
      let k := k <| expecting_command_data := None |> in
      match cmd with
      | 96 => arm_current_output (k <| command_byte := value |>)
      | 212 => kick_mouse_sample (k <| mouse := Mouse.write_byte (mouse k) value |>)
      | 209 => k <| output_port := value |>
      | _ => k
      end
  | None => write_keyboard_byte k value
  end.

Definition process_command (k : Keyboard8042) (value : Z) : Keyboard8042 :=
  match value with
  | 170 => respond_controller k 85
  | 171 | 169 => respond_controller k 0
  | 32 => respond_controller k (command_byte k)
  | 96 | 212 | 209 => k <| expecting_command_data := Some value |>
  | 167 => k <| command_byte := Z.lor (command_byte k) 32 |>
  | 168 => k <| command_byte := Z.ldiff (command_byte k) 32 |>
  | 173 => k <| command_byte := Z.lor (command_byte k) 16 |>
  | 174 => k <| command_byte := Z.ldiff (command_byte k) 16 |>
  | 208 => respond_controller k (output_port k)
  | 192 => respond_controller k 160
  | 224 => respond_controller k 3
  | _ => k
  end.

Definition process_input (k : Keyboard8042) (input : PendingInput) : Keyboard8042 :=
  let k := k <| status := Z.ldiff (status k) STATUS_IBF |> in
  let k := match input with Command c => process_command k c | Data d => process_data k d end in
  schedule_device_byte (latch_if_ready k).

(* ------------------------------------------------------------------ *)
(** ** Deadlines and lines *)

Definition opt_min (a b : option Z) : option Z :=
  match a, b with Some x, Some y => Some (Z.min x y) | Some x, None => Some x | None, y => y end.

Definition ticks_until_event (k : Keyboard8042) : option Z :=
  opt_min (opt_min ((fun _ => input_ticks k) <$> pending_input k) (device_byte_ticks k)) (mouse_sample_ticks k).

Definition ticks_until_irq (k : Keyboard8042) : option Z := ticks_until_event k.
Definition irq1_enabled (k : Keyboard8042) : bool := has (command_byte k) 1.
Definition irq12_enabled (k : Keyboard8042) : bool := has (command_byte k) 2.
Definition irq1_level (k : Keyboard8042) : bool := obf k && negb (output_is_aux k) && irq1_enabled k.
Definition irq12_level (k : Keyboard8042) : bool := obf k && output_is_aux k && irq12_enabled k.

(* ------------------------------------------------------------------ *)
(** ** The clock *)

Definition count_down (k : Keyboard8042) (ticks : Z) : Keyboard8042 :=
  let k := if bool_decide (is_Some (pending_input k)) then k <| input_ticks := input_ticks k - ticks |> else k in
  k <| device_byte_ticks := (fun t => t - ticks) <$> device_byte_ticks k |>
    <| mouse_sample_ticks := (fun t => t - ticks) <$> mouse_sample_ticks k |>.

(** The body of the loop once the next event is reached. *)
Definition fire (k : Keyboard8042) : Keyboard8042 :=
  let k :=
    match (if input_ticks k =? 0 then pending_input k else None) with
    | Some input => process_input (k <| pending_input := None |>) input
    | None => k
    end in
  let k :=
    if bool_decide (device_byte_ticks k = Some 0) then
      latch_ready_device_byte (k <| device_byte_ticks := None |> <| device_byte_ready := true |>)
    else k in
  let k :=
    if bool_decide (mouse_sample_ticks k = Some 0) then
      let k := k <| mouse_sample_ticks := None |> <| mouse := (Mouse.sample (mouse k)).2 |> in
      if Mouse.state_pending (mouse k) then k <| mouse_sample_ticks := Some (Mouse.sample_period_ticks (mouse k)) |> else k
    else k in
  schedule_device_byte k.

(** [None]: out of fuel. *)
Fixpoint advance_loop (fuel : nat) (k : Keyboard8042) (remaining : Z) : option Keyboard8042 :=
  if negb (0 <? remaining) then Some k
  else
    match ticks_until_event k with
    | None => Some k
    | Some next =>
        if remaining <? next then Some (count_down k remaining)
        else
          match fuel with
          | O => None
          | S fuel => advance_loop fuel (fire (count_down k next)) (remaining - next)
          end
    end.

(** Each of the three clocks fires at once at most, and then no more often than every
    [DEVICE_BYTE_TICKS]. *)
Definition advance_fuel (ticks : Z) : nat := Z.to_nat (3 * (1 + ticks / DEVICE_BYTE_TICKS)).

Definition advance_master_ticks (k : Keyboard8042) (ticks : Z) : option Keyboard8042 :=
  advance_loop (advance_fuel ticks) k ticks.

(* ------------------------------------------------------------------ *)
(** ** The ports *)

Definition read_port_at (k : Keyboard8042) (port prefix_ticks : Z) : option Z * Keyboard8042 :=
  if port =? 96 then
    let value := from_option id 0 (output k) in
    let k := k <| status := Z.ldiff (status k) (Z.lor STATUS_OBF STATUS_AUX) |> <| output_is_aux := false |> in
    (Some value, schedule_device_byte_at (latch_if_ready k) prefix_ticks)
  else if port =? 100 then (Some (status k), k)
  else (None, k).

Definition write_port_at (k : Keyboard8042) (port value prefix_ticks : Z) : bool * Keyboard8042 :=
  match (if port =? 96 then Some (Data value) else if port =? 100 then Some (Command value) else None) with
  | None => (false, k)
  | Some input =>
      (true,
        if bool_decide (is_Some (pending_input k)) then k
        else
          let k := k <| pending_input := Some input |>
            <| input_ticks := saturate 64 (prefix_ticks + CONTROLLER_INPUT_TICKS) |> in
          let k := k <| status := Z.lor (status k) STATUS_IBF |> in
          k <| status := if port =? 100 then Z.lor (status k) STATUS_CMD else Z.ldiff (status k) STATUS_CMD |>)
  end.

End Controller.
