(* ===== verification/KeyboardSound.v ===== *)
(** * The keyboard controller is a pair of queues

    What the guest reads from port 60h, for every interleaving of keystrokes, mouse motion,
    port accesses and clock advances: no byte is lost, duplicated or reordered, whatever
    the controller pushes back to make room for a reply. *)

From S2P Require Import Prelude Clock Mouse Keyboard.
Import Clock Keyboard.Controller.

Module Streams.

(* ------------------------------------------------------------------ *)
(** ** What the controller holds for the guest *)

(** The byte waiting in the output buffer. *)
Definition waiting (k : Keyboard8042) : list Z := option_list (output k).

(** The bytes of each device the guest has not read, oldest first. *)
Definition held_kbd (k : Keyboard8042) : list Z :=
  (if obf k && negb (output_is_aux k) then waiting k else []) ++ queue k.
Definition held_aux (k : Keyboard8042) : list Z :=
  (if obf k && output_is_aux k then waiting k else []) ++ Mouse.queue (mouse k).

(** [k'] holds what [k] holds, with the reply [front] put before the scancodes and the
    given bytes added to each stream. *)
Record holds (k k' : Keyboard8042) (front kbd aux : list Z) : Prop := {
  ho_kbd : held_kbd k' = front ++ held_kbd k ++ kbd;
  ho_aux : held_aux k' = held_aux k ++ aux;
  ho_full : (obf k = true -> is_Some (output k)) -> obf k' = true -> is_Some (output k')
}.

Lemma holds_refl k : holds k k [] [] [].
Proof. split; by rewrite ?app_nil_r. Qed.

Lemma holds_trans k1 k2 k3 f1 b1 a1 f2 b2 a2 : holds k1 k2 f1 b1 a1 -> holds k2 k3 f2 b2 a2 ->
  holds k1 k3 (f2 ++ f1) (b1 ++ b2) (a1 ++ a2).
Proof. intros [H1 H2 H3] [H4 H5 H6]. split; [rewrite H4, H1; by rewrite !app_assoc|rewrite H5, H2; by rewrite app_assoc|auto]. Qed.

(** The fields the two streams are made of. *)
Definition content (k : Keyboard8042) := (obf k, output_is_aux k, output k, queue k, Mouse.queue (mouse k)).

Lemma holds_same k k' : content k' = content k -> holds k k' [] [] [].
Proof.
  unfold content. intros [= E1 E2 E3 E4 E5]. split; unfold held_kbd, held_aux, waiting; rewrite ?E1, ?E2, ?E3, ?E4, ?E5, ?app_nil_r; done.
Qed.

Lemma obf_or st : has (Z.lor st STATUS_OBF) STATUS_OBF = true.
Proof. unfold STATUS_OBF. change 1 with (bit 0). by rewrite has_bit, testbit_set, orb_true_r by lia. Qed.

(** Clearing or setting the other status bits leaves OBF. *)
Lemma obf_keep st m : Z.testbit m 0 = false -> has (Z.ldiff st m) STATUS_OBF = has st STATUS_OBF /\
  has (Z.lor st m) STATUS_OBF = has st STATUS_OBF.
Proof.
  intros Hm. unfold STATUS_OBF. change 1 with (bit 0). rewrite !has_bit, Z.ldiff_spec, Z.lor_spec, Hm by lia.
  by rewrite andb_true_r, orb_false_r.
Qed.

Lemma schedule_content k p : content (schedule_device_byte_at k p) = content k.
Proof. unfold schedule_device_byte_at. by destruct (_ && _). Qed.

Lemma arm_content k : content (arm_current_output k) = content k.
Proof. unfold arm_current_output. destruct (negb _); [done|]. destruct (output_is_aux k), (has _ _); done. Qed.

Lemma latch_holds k : holds k (latch_ready_device_byte k) [] [] [].
Proof.
  unfold latch_ready_device_byte. destruct (obf k) eqn:Eo; [apply holds_refl|]. cbv zeta.
  assert (Hs : forall st, has (Z.ldiff (Z.lor st STATUS_OBF) STATUS_AUX) STATUS_OBF = true).
  { intros st. destruct (obf_keep (Z.lor st STATUS_OBF) STATUS_AUX eq_refl) as [-> _]. apply obf_or. }
  assert (Ha : forall st, has (Z.lor st (Z.lor STATUS_OBF STATUS_AUX)) STATUS_OBF = true).
  { intros st. rewrite (Z.lor_comm STATUS_OBF), Z.lor_assoc. apply obf_or. }
  destruct (if has (command_byte k) 16 then [] else queue k) as [|c rest] eqn:Eq.
  - destruct (if has (command_byte k) 32 then [] else Mouse.queue (mouse k)) as [|c rest] eqn:Em; [apply holds_refl|].
    destruct (has (command_byte k) 32); [done|]. destruct (has _ 2); (split; [| |done]);
      unfold held_kbd, held_aux, waiting, obf in *; cbn; rewrite Ha, ?Eo, ?Em, ?app_nil_r; done.
  - destruct (has (command_byte k) 16); [done|]. destruct (has _ 1); (split; [| |done]);
      unfold held_kbd, held_aux, waiting, obf in *; cbn; rewrite Hs, ?Eo, ?Eq, ?app_nil_r; done.
Qed.

Lemma latch_if_ready_holds k : holds k (latch_if_ready k) [] [] [].
Proof. unfold latch_if_ready. destruct (device_byte_ready k); [apply latch_holds|apply holds_refl]. Qed.

Lemma schedule_holds k p : holds k (schedule_device_byte_at k p) [] [] [].
Proof. apply holds_same, schedule_content. Qed.

Lemma respond_holds k r : holds k (respond_controller k r) [r] [] [].
Proof.
  unfold respond_controller. cbv zeta.
  assert (Hs : forall st, has (Z.ldiff (Z.lor st STATUS_OBF) STATUS_AUX) STATUS_OBF = true).
  { intros st. destruct (obf_keep (Z.lor st STATUS_OBF) STATUS_AUX eq_refl) as [-> _]. apply obf_or. }
  destruct (obf k) eqn:Eo.
  - destruct (output k) as [b|] eqn:Eb; [destruct (output_is_aux k) eqn:Ea|]; destruct (has _ 1); (split; [| |done]);
      unfold held_kbd, held_aux, waiting, obf in *; cbn; rewrite Hs, ?Eo, ?Ea, ?Eb, ?app_nil_r; try done; by destruct (output_is_aux k).
  - destruct (has _ 1); (split; [| |done]);
      unfold held_kbd, held_aux, waiting, obf in *; cbn; rewrite Hs, ?Eo, ?app_nil_r; done.
Qed.

(* ------------------------------------------------------------------ *)
(** ** Devices and commands only add *)

(** An operation on the mouse that only queues bytes. *)
Definition adds (m m' : Mouse.Ps2Mouse) : Prop := exists bytes, Mouse.queue m' = Mouse.queue m ++ bytes.

Lemma adds_same m m' : Mouse.queue m' = Mouse.queue m -> adds m m'.
Proof. intros E. exists []. by rewrite app_nil_r. Qed.

Lemma queue_movement_adds m dx dy b dz : adds m (Mouse.queue_movement m dx dy b dz).2.
Proof.
  unfold Mouse.queue_movement. cbv zeta. destruct (negb _); [by apply adds_same|]. cbn [snd].
  match goal with |- context [if Mouse.intellimouse ?x then _ else _] => destruct (Mouse.intellimouse x) end; eexists; cbn;
    [rewrite <- app_assoc|]; reflexivity.
Qed.

Lemma sample_adds m : adds m (Mouse.sample m).2.
Proof.
  unfold Mouse.sample. cbv zeta. destruct (negb (Mouse.reporting m)); [by apply adds_same|].
  destruct (_ || _); [by apply adds_same|].
  match goal with |- adds m (Mouse.queue_movement ?x ?a ?b ?c ?d).2 => destruct (queue_movement_adds x a b c d) as [l E] end.
  exists l. exact E.
Qed.

Lemma write_byte_adds m v : adds m (Mouse.write_byte m v).
Proof.
  unfold Mouse.write_byte. destruct (Mouse.expecting_data m) as [c|].
  - cbv zeta. exists [250]. cbn. f_equal. destruct (c =? 243); [|by destruct (c =? 232)].
    unfold Mouse.set_sample_rate. cbn. destruct (Mouse.rate_history m) as [[? b] c']. by destruct (_ && _).
  - cbv zeta. repeat match goal with |- adds _ (match ?x with _ => _ end) => destruct x end; eexists; reflexivity.
Qed.

(** A new mouse state in the controller. *)
Lemma mouse_holds k m bytes : Mouse.queue m = Mouse.queue (mouse k) ++ bytes -> holds k (k <| mouse := m |>) [] [] bytes.
Proof.
  intros E. split; [by rewrite app_nil_r| |done]. unfold held_aux, waiting. change (obf (k <| mouse := m |>)) with (obf k). cbn.
  by rewrite E, app_assoc.
Qed.

Definition adds_aux (k k' : Keyboard8042) : Prop := exists aux, holds k k' [] [] aux.

Lemma kick_holds k : adds_aux k (kick_mouse_sample k).
Proof.
  unfold kick_mouse_sample. destruct (bool_decide _); [by exists []; apply holds_refl|].
  destruct (sample_adds (mouse k)) as [l E]. destruct (Mouse.sample (mouse k)) as [q m]. cbn [snd] in E. exists l. cbv zeta.
  assert (Hq : holds k (if q then schedule_device_byte (k <| mouse := m |>) else k <| mouse := m |>) [] [] l).
  { destruct q; [|by apply mouse_holds]. rewrite <- (app_nil_r l). apply (holds_trans _ (k <| mouse := m |>) _ [] [] l [] [] []);
      [by apply mouse_holds|apply schedule_holds]. }
  revert Hq. generalize (if q then schedule_device_byte (k <| mouse := m |>) else k <| mouse := m |>). intros k' Hq.
  destruct (Mouse.state_pending _); [|done]. rewrite <- (app_nil_r l). eapply (holds_trans _ k' _ [] [] l [] [] []); [done|by apply holds_same].
Qed.

Lemma push_holds k codes : holds k (push_scancodes k codes) [] codes [].
Proof.
  assert (H : holds k (k <| queue := queue k ++ codes |>) [] codes []).
  { split; [|by rewrite app_nil_r|done]. unfold held_kbd, waiting.
    change (obf (k <| queue := queue k ++ codes |>)) with (obf k). cbn. by rewrite app_assoc. }
  pose proof (holds_trans _ _ _ _ _ _ _ _ _ H (schedule_holds _ 0)) as H'. rewrite !app_nil_r in H'. exact H'.
Qed.

Lemma write_keyboard_holds k v : exists kbd, holds k (write_keyboard_byte k v) [] kbd [].
Proof.
  unfold write_keyboard_byte. destruct (kbd_expecting_data k) as [c|].
  - cbv zeta. set (k1 := k <| kbd_expecting_data := None |> <| queue := _ |>).
    assert (H1 : holds k (push_scancodes k [250]) [] [250] []) by apply push_holds.
    assert (H2 : holds k k1 [] [250] []).
    { split; [|by rewrite app_nil_r|done]. unfold held_kbd, waiting. change (obf k1) with (obf k). unfold k1. cbn. by rewrite app_assoc. }
    match goal with |- context [schedule_device_byte ?x] => set (k2 := x) end.
    assert (H3 : exists l, holds k1 k2 [] l []).
    { unfold k2. destruct (c =? 240); [|by exists []; apply holds_refl]. destruct (v =? 0).
      - exists [scan_set k1]. split; [|by rewrite app_nil_r|done]. unfold held_kbd, waiting.
        change (obf (k1 <| queue := queue k1 ++ [scan_set k1] |>)) with (obf k1). cbn. by rewrite app_assoc.
      - destruct (_ && _); [|by exists []; apply holds_refl]. exists []. by apply holds_same. }
    destruct H3 as [l H3]. exists (([250] ++ l) ++ []). eapply (holds_trans _ k2 _ [] _ [] [] [] []); [|apply schedule_holds].
    by apply (holds_trans _ k1 _ [] [250] [] [] l []).
  - assert (H0 : forall l, exists kbd, holds k (push_scancodes k l) [] kbd []) by (intros l; exists l; apply push_holds).
    assert (H1 : exists kbd, holds k (push_scancodes (k <| kbd_expecting_data := Some v |>) [250]) [] kbd [])
      by (exists [250]; destruct (push_holds (k <| kbd_expecting_data := Some v |>) [250]) as [A B C]; split; [exact A|exact B|exact C]).
    repeat match goal with |- context [holds k (match ?x with _ => _ end)] => destruct x end; first [apply H0 | exact H1].
Qed.

(** What the pending byte may add: a command at most one reply in front of the scancodes,
    data for the keyboard its answer behind them. *)
Definition admits (p : option PendingInput) (front kbd : list Z) : Prop :=
  match p with
  | Some (Command _) => (length front <= 1)%nat /\ kbd = []
  | Some (Data _) => front = []
  | None => front = [] /\ kbd = []
  end.

Lemma process_input_holds k i : exists front kbd aux, holds k (process_input k i) front kbd aux /\ admits (Some i) front kbd.
Proof.
  unfold process_input. cbv zeta. set (k0 := k <| status := _ |>).
  assert (H0 : holds k k0 [] [] []).
  { apply holds_same. unfold content, k0, obf. cbn. by destruct (obf_keep (status k) STATUS_IBF eq_refl) as [-> _]. }
  set (k1 := match i with Command c => process_command k0 c | Data d => process_data k0 d end).
  assert (H1 : exists front kbd aux, holds k0 k1 front kbd aux /\ admits (Some i) front kbd).
  { unfold k1. destruct i as [c|d].
    - unfold process_command.
      repeat match goal with |- context [holds k0 (match ?x with _ => _ end)] => destruct x end;
      first [ solve [eexists [_], [], []; split; [apply respond_holds|]; split; [cbn; lia|done]]
            | solve [exists [], [], []; split; [by apply holds_same|]; split; [cbn; lia|done]] ].
    - exists []. assert (Hd : exists kbd aux, holds k0 (process_data k0 d) [] kbd aux).
      { unfold process_data. destruct (expecting_command_data k0) as [c|]; [|destruct (write_keyboard_holds k0 d) as [l H]; by exists l, []].
        cbv zeta. set (k2 := k0 <| expecting_command_data := None |>).
        assert (Hother : forall k3, content k3 = content k2 -> exists kbd aux, holds k0 k3 [] kbd aux)
          by (intros k3 E; exists [], []; by apply holds_same).
        assert (H96 : exists kbd aux, holds k0 (arm_current_output (k2 <| command_byte := d |>)) [] kbd aux) by (apply Hother; by rewrite arm_content).
        assert (H212 : exists kbd aux, holds k0 (kick_mouse_sample (k2 <| mouse := Mouse.write_byte (mouse k2) d |>)) [] kbd aux).
        { destruct (write_byte_adds (mouse k2) d) as [l E]. destruct (kick_holds (k2 <| mouse := Mouse.write_byte (mouse k2) d |>)) as [l' H].
          exists [], (l ++ l'). apply (holds_trans _ k2 _ [] [] [] [] [] (l ++ l')); [by apply holds_same|].
          apply (holds_trans _ (k2 <| mouse := Mouse.write_byte (mouse k2) d |>) _ [] [] l [] [] l'); [|done].
          apply (mouse_holds k2). exact E. }
        repeat match goal with |- context [holds k0 (match ?x with _ => _ end)] => destruct x end;
          first [exact H96 | exact H212 | by apply Hother]. }
      destruct Hd as (kbd & aux & Hd). exists kbd, aux. by split. }
  destruct H1 as (front & kbd & aux & H1 & Hl). exists front, kbd, aux. split; [|done].
  pose proof (holds_trans _ _ _ _ _ _ _ _ _ H0 H1) as H2. rewrite app_nil_r in H2.
  pose proof (holds_trans _ _ _ _ _ _ _ _ _ H2 (latch_if_ready_holds k1)) as H3.
  pose proof (holds_trans _ _ _ _ _ _ _ _ _ H3 (schedule_holds _ 0)) as H4. cbn [app] in H4. rewrite !app_nil_r in H4. exact H4.
Qed.

(* ------------------------------------------------------------------ *)
(** ** The clocks an operation arms *)

Definition rate_ok (m : Mouse.Ps2Mouse) : Prop := 0 <= Mouse.sample_rate m < 256.

(** A clock left alone, or armed no earlier than a byte time ahead. *)
Definition later (o o' : option Z) : Prop := o' = o \/ (o = None /\ exists t, o' = Some t /\ DEVICE_BYTE_TICKS <= t).

Lemma later_refl o : later o o.
Proof. by left. Qed.

Lemma later_trans o1 o2 o3 : later o1 o2 -> later o2 o3 -> later o1 o3.
Proof. intros [->|(-> & t & -> & H)] [->|(E & t' & -> & H')]; try done; [by left|right; eauto..]. Qed.

(** What an operation between two events does to the three clocks. *)
Record timed (k k' : Keyboard8042) : Prop := {
  ti_input : pending_input k' = pending_input k /\ input_ticks k' = input_ticks k;
  ti_byte : later (device_byte_ticks k) (device_byte_ticks k');
  ti_sample : later (mouse_sample_ticks k) (mouse_sample_ticks k');
  ti_rate : rate_ok (mouse k')
}.

Definition clocks (k : Keyboard8042) :=
  (pending_input k, input_ticks k, device_byte_ticks k, mouse_sample_ticks k, Mouse.sample_rate (mouse k)).

Lemma timed_same k k' : rate_ok (mouse k) -> clocks k' = clocks k -> timed k k'.
Proof.
  unfold clocks. intros Hr [= E1 E2 E3 E4 E5]. split; [by rewrite E1, E2|rewrite E3; apply later_refl|rewrite E4; apply later_refl|].
  unfold rate_ok in *. by rewrite E5.
Qed.

Lemma timed_trans k1 k2 k3 : timed k1 k2 -> timed k2 k3 -> timed k1 k3.
Proof.
  intros [[A1 A2] B C D] [[A1' A2'] B' C' D'].
  split; [by rewrite A1', A2'|by eapply later_trans|by eapply later_trans|done].
Qed.

Lemma period_ge m : rate_ok m -> DEVICE_BYTE_TICKS <= Mouse.sample_period_ticks m.
Proof.
  intros Hr. unfold rate_ok in Hr. unfold Mouse.sample_period_ticks, DEVICE_BYTE_TICKS.
  apply Z.div_le_compat_l; [unfold Rate.MASTER_CLOCK_HZ; lia|lia].
Qed.

Lemma schedule_timed k p : 0 <= p -> rate_ok (mouse k) -> timed k (schedule_device_byte_at k p).
Proof.
  intros Hp Hr. unfold schedule_device_byte_at. destruct (negb _ && _ && _ && _) eqn:E; [|by apply timed_same].
  split; [done| |by left|done]. right. destruct (device_byte_ticks k) eqn:Ed.
  - rewrite (bool_decide_eq_true_2 (is_Some (Some z))) in E by eauto. by rewrite andb_false_r in E.
  - split; [done|]. eexists. split; [reflexivity|]. change DEVICE_BYTE_TICKS with 5478000. unfold saturate. change (2 ^ 64) with 18446744073709551616. lia.
Qed.

Lemma latch_clocks k : clocks (latch_ready_device_byte k) = clocks k.
Proof.
  unfold latch_ready_device_byte. destruct (obf k); [done|]. cbv zeta.
  destruct (if has (command_byte k) 16 then _ else _); [destruct (if has (command_byte k) 32 then _ else _); [done|]|];
    by destruct (has _ _).
Qed.

Lemma latch_if_clocks k : clocks (latch_if_ready k) = clocks k.
Proof. unfold latch_if_ready. destruct (device_byte_ready k); [apply latch_clocks|done]. Qed.

Lemma respond_clocks k r : clocks (respond_controller k r) = clocks k.
Proof.
  unfold respond_controller. cbv zeta. destruct (if obf k then _ else _); destruct (has _ _); unfold clocks; cbn;
    by try destruct (output_is_aux k).
Qed.

Lemma arm_clocks k : clocks (arm_current_output k) = clocks k.
Proof. unfold arm_current_output. destruct (negb _); [done|]. destruct (output_is_aux k), (has _ _); done. Qed.

Lemma sample_rate_same m : Mouse.sample_rate (Mouse.sample m).2 = Mouse.sample_rate m.
Proof.
  unfold Mouse.sample. destruct (negb (Mouse.reporting m)); [done|]. destruct (_ || _); [done|]. cbv zeta.
  unfold Mouse.queue_movement. cbv zeta. destruct (negb _); [done|]. cbn [snd]. by destruct (Mouse.intellimouse _).
Qed.

Lemma kick_timed k : rate_ok (mouse k) -> timed k (kick_mouse_sample k).
Proof.
  intros Hr. unfold kick_mouse_sample. destruct (bool_decide _) eqn:Ed; [by apply timed_same|].
  apply bool_decide_eq_false in Ed. pose proof (sample_rate_same (mouse k)) as Es.
  destruct (Mouse.sample (mouse k)) as [q m]. cbn [snd] in Es. cbv zeta.
  assert (Hq : timed k (if q then schedule_device_byte (k <| mouse := m |>) else k <| mouse := m |>)).
  { assert (H1 : timed k (k <| mouse := m |>)) by (apply timed_same; [done|]; unfold clocks; cbn; by rewrite Es).
    destruct q; [|done]. eapply timed_trans; [exact H1|]. apply schedule_timed; [lia|exact (ti_rate _ _ H1)]. }
  revert Hq. generalize (if q then schedule_device_byte (k <| mouse := m |>) else k <| mouse := m |>). intros k' Hq.
  destruct (Mouse.state_pending _); [|done]. destruct Hq as [Hi Hb Hs Hm]. split; [exact Hi|exact Hb| |exact Hm].
  right. split; [destruct (mouse_sample_ticks k); [by destruct Ed|done]|]. eexists. split; [reflexivity|]. by apply period_ge.
Qed.

Lemma write_byte_rate m v : rate_ok m -> 0 <= v < 256 -> rate_ok (Mouse.write_byte m v).
Proof.
  intros Hr Hv. unfold Mouse.write_byte. destruct (Mouse.expecting_data m) as [c|].
  - cbv zeta. destruct (c =? 243); [|by destruct (c =? 232)].
    unfold Mouse.set_sample_rate. cbn. destruct (Mouse.rate_history m) as [[? b] c']. by destruct (_ && _).
  - cbv zeta. assert (H100 : forall m', Mouse.sample_rate m' = 100 -> rate_ok m') by (intros m' E; unfold rate_ok; rewrite E; lia).
    repeat match goal with |- rate_ok (match ?x with _ => _ end) => destruct x end; first [exact Hr | by apply H100].
Qed.

Definition byte_input (i : PendingInput) : Prop := match i with Command v | Data v => 0 <= v < 256 end.

Lemma push_timed k codes : rate_ok (mouse k) -> timed k (push_scancodes k codes).
Proof. intros Hr. apply (timed_trans _ (k <| queue := queue k ++ codes |>)); [by apply timed_same|]. by apply schedule_timed. Qed.

Lemma write_keyboard_timed k v : rate_ok (mouse k) -> timed k (write_keyboard_byte k v).
Proof.
  intros Hr. assert (Hs : forall k', clocks k' = clocks k -> timed k (schedule_device_byte k')).
  { intros k' E. assert (H : timed k k') by by apply timed_same. eapply timed_trans; [exact H|]. by apply schedule_timed, H. }
  assert (Hp : forall k' l, clocks k' = clocks k -> timed k (push_scancodes k' l)) by (intros k' l E; by apply Hs).
  unfold write_keyboard_byte. destruct (kbd_expecting_data k) as [c|].
  - cbv zeta. apply Hs. destruct (c =? 240); [destruct (v =? 0); [done|by destruct (_ && _)]|done].
  - repeat match goal with |- timed _ (match ?x with _ => _ end) => destruct x end; by apply Hp.
Qed.

Lemma process_input_timed k i : rate_ok (mouse k) -> byte_input i -> timed k (process_input k i).
Proof.
  intros Hr Hi. unfold process_input. cbv zeta. set (k0 := k <| status := _ |>).
  assert (H0 : timed k k0) by by apply timed_same.
  assert (Hsame : forall k', clocks k' = clocks k0 -> timed k k') by (intros k' E; by apply timed_same).
  set (k1 := match i with Command c => process_command k0 c | Data d => process_data k0 d end).
  assert (H1 : timed k k1).
  { unfold k1. destruct i as [c|d].
    - unfold process_command.
      repeat match goal with |- timed k (match ?x with _ => _ end) => destruct x end; apply Hsame; first [apply respond_clocks | reflexivity].
    - unfold process_data. destruct (expecting_command_data k0) as [c|]; [|eapply timed_trans; [exact H0|by apply write_keyboard_timed]].
      cbv zeta. set (k2 := k0 <| expecting_command_data := None |>).
      assert (H96 : timed k (arm_current_output (k2 <| command_byte := d |>))) by (apply Hsame; by rewrite arm_clocks).
      assert (H212 : timed k (kick_mouse_sample (k2 <| mouse := Mouse.write_byte (mouse k2) d |>))).
      { assert (Hm : rate_ok (Mouse.write_byte (mouse k2) d)) by by apply write_byte_rate.
        apply (timed_trans _ (k2 <| mouse := Mouse.write_byte (mouse k2) d |>)); [split; [done|apply later_refl|apply later_refl|done]|].
        by apply kick_timed. }
      repeat match goal with |- timed k (match ?x with _ => _ end) => destruct x end; first [exact H96 | exact H212 | by apply Hsame]. }
  assert (H2 : timed k (latch_if_ready k1)) by (eapply timed_trans; [exact H1|]; apply timed_same; [apply H1|apply latch_if_clocks]).
  eapply timed_trans; [exact H2|]. apply schedule_timed; [lia|apply H2].
Qed.

(* ------------------------------------------------------------------ *)
(** ** The invariant *)

(** Every armed clock has at least the given number of ticks to run. *)
Record inv (input byte sample : Z) (k : Keyboard8042) : Prop := {
  inv_full : obf k = true -> is_Some (output k);
  inv_input : forall i, pending_input k = Some i -> input <= input_ticks k /\ byte_input i;
  inv_byte : forall t, device_byte_ticks k = Some t -> byte <= t;
  inv_sample : forall t, mouse_sample_ticks k = Some t -> sample <= t;
  inv_rate : rate_ok (mouse k)
}.

Definition wf : Keyboard8042 -> Prop := inv 1 1 1.

Lemma later_bound o o' b : later o o' -> b <= DEVICE_BYTE_TICKS -> (forall t, o = Some t -> b <= t) -> forall t, o' = Some t -> b <= t.
Proof. intros [->|(-> & t' & -> & H)] Hb Ho t E; [eauto|]. injection E. lia. Qed.

(** What happens between two events keeps every bound up to a byte time. *)
Lemma inv_step i b s k k' f kb a : b <= DEVICE_BYTE_TICKS -> s <= DEVICE_BYTE_TICKS -> inv i b s k -> holds k k' f kb a ->
  timed k k' -> inv i b s k'.
Proof.
  intros Hb Hs [F I B S R] [_ _ H] [[E1 E2] Lb Ls Hr]. split; [auto| | | |done].
  - intros j. rewrite E1, E2. apply I.
  - by apply (later_bound _ _ _ Lb).
  - by apply (later_bound _ _ _ Ls).
Qed.

(* ------------------------------------------------------------------ *)
(** ** One event of the clock *)

(** How often a clock can fire within [rem] ticks. *)
Definition firings (o : option Z) (rem : Z) : Z :=
  match o with Some t => if t <=? rem then 1 + (rem - t) / DEVICE_BYTE_TICKS else 0 | None => rem / DEVICE_BYTE_TICKS end.

Definition events_left (k : Keyboard8042) (rem : Z) : Z :=
  (if bool_decide (is_Some (pending_input k)) && (input_ticks k <=? rem) then 1 else 0)
    + firings (device_byte_ticks k) rem + firings (mouse_sample_ticks k) rem.

Lemma firings_nonneg o rem : 0 <= rem -> 0 <= firings o rem.
Proof.
  intros H. assert (0 < DEVICE_BYTE_TICKS) by done. unfold firings. destruct o as [t|]; [|by apply Z.div_pos].
  destruct (t <=? rem) eqn:E; [|lia]. pose proof (Z.div_pos (rem - t) DEVICE_BYTE_TICKS). lia.
Qed.

Lemma firings_later o o' rem : 0 <= rem -> later o o' -> firings o' rem <= firings o rem.
Proof.
  intros H [->|(-> & t & -> & Ht)]; [lia|]. assert (HM : 0 < DEVICE_BYTE_TICKS) by done. cbn [firings].
  destruct (t <=? rem) eqn:E; [|by apply Z.div_pos].
  replace (rem / DEVICE_BYTE_TICKS) with (1 + (rem - DEVICE_BYTE_TICKS) / DEVICE_BYTE_TICKS).
  - pose proof (Z.div_le_mono (rem - t) (rem - DEVICE_BYTE_TICKS) _ HM). lia.
  - replace rem with ((rem - DEVICE_BYTE_TICKS) + 1 * DEVICE_BYTE_TICKS) at 2 by lia. rewrite Z.div_add; lia.
Qed.

(** Letting [n] ticks pass fires nothing by itself. *)
Lemma firings_pass o n rem : 0 <= n <= rem -> firings ((fun t => t - n) <$> o) (rem - n) <= firings o rem.
Proof.
  intros H. assert (HM : 0 < DEVICE_BYTE_TICKS) by done. destruct o as [t|]; cbn.
  - replace (t - n <=? rem - n) with (t <=? rem) by lia. by replace (rem - n - (t - n)) with (rem - t) by lia.
  - apply Z.div_le_mono; lia.
Qed.

(** A clock that fires leaves one firing less. *)
Lemma firings_fire o' rem : 0 <= rem -> later None o' -> firings o' rem + 1 <= firings (Some 0) rem.
Proof.
  intros H Hl. pose proof (firings_later None o' rem H Hl) as Hf. cbn in *. replace (0 <=? rem) with true by lia.
  rewrite Z.sub_0_r. lia.
Qed.

Lemma events_later k k' rem : 0 <= rem -> timed k k' -> events_left k' rem <= events_left k rem.
Proof.
  intros H [[E1 E2] B S _]. unfold events_left. rewrite E1, E2.
  pose proof (firings_later _ _ rem H B). pose proof (firings_later _ _ rem H S). lia.
Qed.

(** The three parts of [fire]. *)
Definition fire_input (k : Keyboard8042) : Keyboard8042 :=
  match (if input_ticks k =? 0 then pending_input k else None) with
  | Some input => process_input (k <| pending_input := None |>) input
  | None => k
  end.
Definition fire_byte (k : Keyboard8042) : Keyboard8042 :=
  if bool_decide (device_byte_ticks k = Some 0) then
    latch_ready_device_byte (k <| device_byte_ticks := None |> <| device_byte_ready := true |>)
  else k.
Definition fire_sample (k : Keyboard8042) : Keyboard8042 :=
  if bool_decide (mouse_sample_ticks k = Some 0) then
    let k := k <| mouse_sample_ticks := None |> <| mouse := (Mouse.sample (mouse k)).2 |> in
    if Mouse.state_pending (mouse k) then k <| mouse_sample_ticks := Some (Mouse.sample_period_ticks (mouse k)) |> else k
  else k.

Lemma fire_eq k : fire k = schedule_device_byte (fire_sample (fire_byte (fire_input k))).
Proof. reflexivity. Qed.

Definition due_input (k : Keyboard8042) : Z := if bool_decide (is_Some (pending_input k)) && (input_ticks k =? 0) then 1 else 0.
Definition due (o : option Z) : Z := if bool_decide (o = Some 0) then 1 else 0.

Lemma due_later o o' : (forall t, o = Some t -> 0 <= t) -> later o o' -> due o <= due o'.
Proof. intros Ho [->|(-> & t & -> & Ht)]; [lia|]. unfold due. rewrite bool_decide_eq_false_2 by done. by case_bool_decide. Qed.

Lemma fire_input_sound k rem : 0 <= rem -> inv 0 0 0 k ->
  inv 1 0 0 (fire_input k) /\ events_left (fire_input k) rem + due_input k <= events_left k rem
  /\ due (device_byte_ticks k) <= due (device_byte_ticks (fire_input k))
  /\ due (mouse_sample_ticks k) <= due (mouse_sample_ticks (fire_input k)).
Proof.
  intros H Hk. unfold fire_input, due_input. destruct (input_ticks k =? 0) eqn:E0.
  - destruct (pending_input k) as [i|] eqn:Ei.
    + set (k0 := k <| pending_input := None |>). pose proof Hk as [F I B S R]. destruct (I i Ei) as [_ Hi].
      assert (H0 : inv 1 0 0 k0) by (split; [exact F|by cbn|exact B|exact S|exact R]).
      destruct (process_input_holds k0 i) as (f & kb & a & Hh & _). pose proof (process_input_timed k0 i R Hi) as Ht.
      split; [by eapply (inv_step _ _ _ k0)|]. split; [|split; apply due_later; first [exact B|exact S|apply Ht]].
      pose proof (events_later k0 _ rem H Ht) as He. revert He. generalize (events_left (process_input k0 i) rem).
      intros n. unfold events_left, k0. cbn. rewrite Ei. rewrite !bool_decide_eq_true_2 by eauto. cbn.
      replace (input_ticks k <=? rem) with true by lia. lia.
    + rewrite bool_decide_eq_false_2 by (by intros [? ?]). cbn. pose proof Hk as [F I B S R].
      split; [|lia]. split; [exact F| |exact B|exact S|exact R]. intros i E. by rewrite Ei in E.
  - rewrite andb_false_r. pose proof Hk as [F I B S R]. split; [|lia]. split; [exact F| |exact B|exact S|exact R].
    intros i E. destruct (I i E). split; [lia|done].
Qed.

Lemma fire_byte_sound k rem : 0 <= rem -> inv 1 0 0 k ->
  inv 1 1 0 (fire_byte k) /\ events_left (fire_byte k) rem + due (device_byte_ticks k) <= events_left k rem
  /\ mouse_sample_ticks (fire_byte k) = mouse_sample_ticks k.
Proof.
  intros H [F I B S R]. unfold fire_byte, due. case_bool_decide as Ed.
  - set (k0 := k <| device_byte_ticks := None |> <| device_byte_ready := true |>).
    pose proof (latch_clocks k0) as E. unfold clocks in E. injection E as E1 E2 E3 E4 E5.
    pose proof (latch_holds k0) as [_ _ Hf]. unfold events_left. rewrite E1, E2, E3, E4.
    assert (Hc : forall t, device_byte_ticks (latch_ready_device_byte k0) = Some t -> 1 <= t) by (rewrite E3; by intros t).
    split; [split; [by apply Hf|by rewrite E1, E2|exact Hc|by rewrite E4|unfold rate_ok; by rewrite E5]|]. split; [|done].
    rewrite Ed. pose proof (firings_fire None rem H (later_refl None)) as Hn.
    change (device_byte_ticks k0) with (@None Z). change (pending_input k0) with (pending_input k).
    change (input_ticks k0) with (input_ticks k). change (mouse_sample_ticks k0) with (mouse_sample_ticks k).
    clear - Hn. destruct (_ && _); lia.
  - split; [|split; [lia|done]]. split; [exact F|exact I| |exact S|exact R]. intros t Et. specialize (B t Et). destruct (decide (t = 0)); [by subst|lia].
Qed.

Lemma fire_sample_sound k rem : 0 <= rem -> inv 1 1 0 k ->
  wf (fire_sample k) /\ events_left (fire_sample k) rem + due (mouse_sample_ticks k) <= events_left k rem.
Proof.
  intros H [F I B S R]. unfold fire_sample, due. case_bool_decide as Ed.
  - cbv zeta. set (m := (Mouse.sample (mouse k)).2). set (k0 := k <| mouse_sample_ticks := None |> <| mouse := m |>).
    assert (Hm : rate_ok m) by (unfold rate_ok, m; rewrite sample_rate_same; exact R).
    assert (Hgen : forall o, later None o -> wf (k0 <| mouse_sample_ticks := o |>) /\
      events_left (k0 <| mouse_sample_ticks := o |>) rem + 1 <= events_left k rem).
    { intros o Hl. split; [split; [exact F|exact I|exact B| |exact Hm]; cbn; by apply (later_bound _ _ _ Hl)|].
      pose proof (firings_fire o rem H Hl). unfold events_left. cbn. rewrite Ed. lia. }
    destruct (Mouse.state_pending _); [|exact (Hgen None (later_refl None))].
    apply Hgen. right. split; [done|]. eexists. split; [reflexivity|]. by apply period_ge.
  - split; [|lia]. split; [exact F|exact I|exact B| |exact R]. intros t Et. specialize (S t Et). destruct (decide (t = 0)); [by subst|lia].
Qed.

Lemma opt_min_zero a b : opt_min a b = Some 0 -> a = Some 0 \/ b = Some 0.
Proof. destruct a as [x|], b as [y|]; cbn; intros [= E]; subst; auto. assert (x = 0 \/ y = 0) as [->| ->] by lia; auto. Qed.

Lemma due_event k : ticks_until_event k = Some 0 ->
  1 <= due_input k + due (device_byte_ticks k) + due (mouse_sample_ticks k).
Proof.
  intros H. unfold due_input, due. assert (Hb : forall b : bool, 0 <= (if b then 1 else 0)) by (by intros []).
  pose proof (Hb (bool_decide (is_Some (pending_input k)) && (input_ticks k =? 0))).
  pose proof (Hb (bool_decide (device_byte_ticks k = Some 0))). pose proof (Hb (bool_decide (mouse_sample_ticks k = Some 0))).
  apply opt_min_zero in H as [H|H]; [apply opt_min_zero in H as [H|H]|].
  - destruct (pending_input k) as [i|]; [|done]. injection H as E. rewrite E in *. cbn in *. lia.
  - rewrite (bool_decide_eq_true_2 (device_byte_ticks k = Some 0)) in * by done. lia.
  - rewrite (bool_decide_eq_true_2 (mouse_sample_ticks k = Some 0)) in * by done. lia.
Qed.

(** Serving the clocks that are due uses up an event. *)
Lemma fire_sound k rem : 0 <= rem -> inv 0 0 0 k -> ticks_until_event k = Some 0 ->
  wf (fire k) /\ events_left (fire k) rem + 1 <= events_left k rem.
Proof.
  intros H Hk Hdue. rewrite fire_eq.
  destruct (fire_input_sound k rem H Hk) as (H1 & E1 & B1 & S1).
  destruct (fire_byte_sound (fire_input k) rem H H1) as (H2 & E2 & S2).
  destruct (fire_sample_sound _ rem H H2) as (H3 & E3). rewrite S2 in E3.
  assert (Ht : timed (fire_sample (fire_byte (fire_input k))) (schedule_device_byte (fire_sample (fire_byte (fire_input k)))))
    by (apply schedule_timed; [lia|exact (inv_rate _ _ _ _ H3)]).
  split; [by eapply (inv_step _ _ _ _ _ [] [] []); [done..|apply schedule_holds|]|].
  pose proof (events_later _ _ rem H Ht). enough (1 <= due_input k + due (device_byte_ticks k) + due (mouse_sample_ticks k)) by lia.
  by apply due_event.
Qed.

(* ------------------------------------------------------------------ *)
(** ** The clock loop *)

(** Either the pending byte stays and nothing is added for it, or it is taken up. *)
Definition consumes (k k' : Keyboard8042) (front kbd : list Z) : Prop :=
  (pending_input k' = pending_input k /\ front = [] /\ kbd = []) \/ (pending_input k' = None /\ admits (pending_input k) front kbd).

Lemma consumes_admits k k' f kb : consumes k k' f kb -> admits (pending_input k) f kb.
Proof. intros [(_ & -> & ->)|[_ H]]; [|done]. destruct (pending_input k) as [[]|]; cbn; auto. Qed.

Lemma consumes_trans k1 k2 k3 f1 b1 f2 b2 : consumes k1 k2 f1 b1 -> consumes k2 k3 f2 b2 -> consumes k1 k3 (f2 ++ f1) (b1 ++ b2).
Proof.
  intros [(E1 & -> & ->)|[E1 H1]] H2.
  - rewrite app_nil_r. unfold consumes in *. by rewrite E1 in H2.
  - right. apply consumes_admits in H2 as H2'. rewrite E1 in H2'. destruct H2' as [-> ->]. rewrite app_nil_r. split; [|done].
    destruct H2 as [(E2 & _)|[E2 _]]; congruence.
Qed.

Lemma fire_input_holds k : inv 0 0 0 k -> exists f kb a, holds k (fire_input k) f kb a /\ consumes k (fire_input k) f kb.
Proof.
  intros [_ I _ _ R]. unfold fire_input. destruct (input_ticks k =? 0); [destruct (pending_input k) as [i|] eqn:Ei|];
    [|by exists [], [], []; split; [apply holds_refl|left]..].
  set (k0 := k <| pending_input := None |>). destruct (process_input_holds k0 i) as (f & kb & a & H & Hf).
  exists f, kb, a. split; [by destruct H|]. right. rewrite Ei. split; [|done].
  destruct (I i eq_refl) as [_ Hi]. by destruct (process_input_timed k0 i R Hi) as [[-> _] _ _ _].
Qed.

Lemma fire_byte_holds k : holds k (fire_byte k) [] [] [] /\ pending_input (fire_byte k) = pending_input k.
Proof.
  unfold fire_byte. case_bool_decide; [|by split; [apply holds_refl|]].
  set (k0 := k <| device_byte_ticks := None |> <| device_byte_ready := true |>). split; [destruct (latch_holds k0) as [A B C]; by split|].
  pose proof (latch_clocks k0) as E. unfold clocks in E. by injection E.
Qed.

Lemma fire_sample_holds k : exists a, holds k (fire_sample k) [] [] a /\ pending_input (fire_sample k) = pending_input k.
Proof.
  unfold fire_sample. case_bool_decide; [|by exists []; split; [apply holds_refl|]].
  destruct (sample_adds (mouse k)) as [l E]. exists l. cbv zeta. pose proof (mouse_holds k _ l E) as [A B C].
  destruct (Mouse.state_pending _); by split.
Qed.

Lemma fire_holds k : inv 0 0 0 k -> exists f kb a, holds k (fire k) f kb a /\ consumes k (fire k) f kb.
Proof.
  intros Hk. destruct (fire_input_holds k Hk) as (f & kb & a & H1 & C1). destruct (fire_byte_holds (fire_input k)) as [H2 P2].
  destruct (fire_sample_holds (fire_byte (fire_input k))) as (a' & H3 & P3). rewrite fire_eq. exists f, kb, (a ++ a').
  set (k3 := fire_sample _) in *. assert (P4 : pending_input (schedule_device_byte k3) = pending_input k3).
  { unfold schedule_device_byte, schedule_device_byte_at. by destruct (_ && _). }
  split.
  - pose proof (holds_trans _ _ _ _ _ _ _ _ _ (holds_trans _ _ _ _ _ _ _ _ _ (holds_trans _ _ _ _ _ _ _ _ _ H1 H2) H3) (schedule_holds k3 0)) as H.
    cbn [app] in H. rewrite !app_nil_r in H. exact H.
  - unfold consumes in *. by rewrite P4, P3, P2.
Qed.

(** Letting time pass short of the next event. *)
Lemma count_down_content k n : content (count_down k n) = content k.
Proof. unfold count_down. by destruct (bool_decide _). Qed.

Lemma count_down_pending k n : pending_input (count_down k n) = pending_input k.
Proof. unfold count_down. by destruct (bool_decide _). Qed.

Lemma count_down_event k n : ticks_until_event (count_down k n) = (fun t => t - n) <$> ticks_until_event k.
Proof.
  unfold ticks_until_event, count_down. destruct (pending_input k) as [i|] eqn:E; cbn; rewrite ?E; cbn;
    destruct (device_byte_ticks k), (mouse_sample_ticks k); cbn; f_equal; lia.
Qed.

Lemma count_down_add k a b : count_down (count_down k a) b = count_down k (a + b).
Proof.
  unfold count_down. destruct (pending_input k) as [i|] eqn:E; cbn; rewrite ?E; cbn.
  all: destruct k as [q o oa st cb ec ia i12 op ke ss lb m p it bt br ms]; cbn; f_equal; try lia; destruct bt, ms; cbn; f_equal; lia.
Qed.

Lemma opt_min_le a b n : opt_min a b = Some n -> (forall t, a = Some t -> n <= t) /\ (forall t, b = Some t -> n <= t).
Proof. destruct a, b; cbn; intros [= <-]; split; intros t [= <-]; lia. Qed.

(** No clock runs out before the next event. *)
Lemma event_bound k n : ticks_until_event k = Some n ->
  (forall i, pending_input k = Some i -> n <= input_ticks k) /\ (forall t, device_byte_ticks k = Some t -> n <= t)
  /\ (forall t, mouse_sample_ticks k = Some t -> n <= t).
Proof.
  intros H. apply opt_min_le in H as [H Hs]. destruct (opt_min _ _) as [m|] eqn:E.
  - pose proof (H m eq_refl). apply opt_min_le in E as [Hi Hb]. split; [|split; [intros t Et; specialize (Hb t Et); lia|done]].
    intros i Ei. specialize (Hi (input_ticks k)). rewrite Ei in Hi. specialize (Hi eq_refl). lia.
  - destruct (pending_input k), (device_byte_ticks k); done.
Qed.

Lemma event_positive k n : wf k -> ticks_until_event k = Some n -> 1 <= n.
Proof.
  intros [_ I B S _] H. unfold ticks_until_event in H.
  assert (Hm : forall a b m, (forall t, a = Some t -> 1 <= t) -> (forall t, b = Some t -> 1 <= t) -> opt_min a b = Some m -> 1 <= m).
  { intros [x|] [y|] m Ha Hb [= <-]; [specialize (Ha x eq_refl); specialize (Hb y eq_refl); lia|by apply Ha|by apply Hb]. }
  apply (Hm _ _ n) in H; [done| |done]. intros t. apply Hm; [|done]. intros x. destruct (pending_input k) as [i|]; [|done].
  intros [= <-]. by apply (I i).
Qed.

Lemma count_down_inv k n m : wf k -> ticks_until_event k = Some n -> 0 <= m <= n -> inv (n - m) (n - m) (n - m) (count_down k m).
Proof.
  intros [F I _ _ R] Hn Hm. destruct (event_bound k n Hn) as (Bi & Bb & Bs). destruct (holds_same _ _ (count_down_content k m)) as [_ _ E].
  split.
  - by apply E.
  - intros i Hi. rewrite count_down_pending in Hi. destruct (I i Hi). specialize (Bi i Hi). unfold count_down.
    rewrite bool_decide_eq_true_2 by eauto. cbn. split; [lia|done].
  - unfold count_down. destruct (bool_decide _); cbn; destruct (device_byte_ticks k) as [t|]; cbn; intros ? [= <-]; specialize (Bb t eq_refl); lia.
  - unfold count_down. destruct (bool_decide _); cbn; destruct (mouse_sample_ticks k) as [t|]; cbn; intros ? [= <-]; specialize (Bs t eq_refl); lia.
  - unfold count_down. by destruct (bool_decide _).
Qed.

Lemma inv_weaken a b k : a <= b -> inv b b b k -> inv a a a k.
Proof.
  intros H [F I B S R]. split; [done| | | |done].
  - intros i Hi. destruct (I i Hi). split; [lia|done].
  - intros t Ht. specialize (B t Ht). lia.
  - intros t Ht. specialize (S t Ht). lia.
Qed.

Lemma count_down_events k n rem : 0 <= n <= rem -> events_left (count_down k n) (rem - n) <= events_left k rem.
Proof.
  intros H. pose proof (firings_pass (device_byte_ticks k) n rem H). pose proof (firings_pass (mouse_sample_ticks k) n rem H).
  unfold events_left, count_down. destruct (bool_decide (is_Some (pending_input k))) eqn:E; cbn; rewrite E; cbn; [|lia].
  replace (input_ticks k - n <=? rem - n) with (input_ticks k <=? rem) by lia. lia.
Qed.

Lemma loop_unfold fuel k rem : advance_loop fuel k rem =
  if negb (0 <? rem) then Some k
  else match ticks_until_event k with
       | None => Some k
       | Some next =>
           if rem <? next then Some (count_down k rem)
           else match fuel with O => None | S fuel => advance_loop fuel (fire (count_down k next)) (rem - next) end
       end.
Proof. by destruct fuel. Qed.

Lemma events_nonneg k rem : 0 <= rem -> 0 <= events_left k rem.
Proof.
  intros H. unfold events_left. pose proof (firings_nonneg (device_byte_ticks k) rem H). pose proof (firings_nonneg (mouse_sample_ticks k) rem H).
  destruct (_ && _); lia.
Qed.

(** With fuel for the events left, the loop ends. *)
Lemma loop_sound fuel : forall k rem, wf k -> 0 <= rem -> events_left k rem <= Z.of_nat fuel ->
  exists k' f kb a, advance_loop fuel k rem = Some k' /\ wf k' /\ holds k k' f kb a /\ consumes k k' f kb.
Proof.
  induction fuel as [|fuel IH]; intros k rem Hk Hr Hf; rewrite loop_unfold;
    (destruct (negb (0 <? rem)) eqn:E0; [exists k, [], [], []; split; [done|]; split; [done|]; split; [apply holds_refl|by left]|]);
    (destruct (ticks_until_event k) as [n|] eqn:En; [|exists k, [], [], []; split; [done|]; split; [done|]; split; [apply holds_refl|by left]]);
    (destruct (rem <? n) eqn:El;
      [exists (count_down k rem), [], [], []; split; [done|]; split; [apply (inv_weaken 1 (n - rem)); [lia|]; apply count_down_inv; [done|done|lia]|];
       split; [apply holds_same, count_down_content|left; by rewrite count_down_pending]|]);
    pose proof (event_positive k n Hk En) as Hn;
    assert (H0 : inv 0 0 0 (count_down k n)) by (replace 0 with (n - n) by lia; apply count_down_inv; [done|done|lia]);
    assert (Hd : ticks_until_event (count_down k n) = Some 0) by (rewrite count_down_event, En; cbn; f_equal; lia);
    destruct (fire_sound _ (rem - n) ltac:(lia) H0 Hd) as [H1 He]; pose proof (count_down_events k n rem ltac:(lia)) as Hc.
  - pose proof (events_nonneg (fire (count_down k n)) (rem - n)). lia.
  - destruct (fire_holds _ H0) as (f & kb & a & Hh & Hp).
    destruct (IH (fire (count_down k n)) (rem - n) H1 ltac:(lia) ltac:(lia)) as (k' & f' & kb' & a' & Hl & Hw & Hh' & Hp').
    exists k', (f' ++ f), (kb ++ kb'), (a ++ a'). split; [done|]. split; [done|].
    assert (Hh0 : holds k (fire (count_down k n)) f kb a).
    { pose proof (holds_trans _ _ _ _ _ _ _ _ _ (holds_same _ _ (count_down_content k n)) Hh) as H. rewrite app_nil_r in H. exact H. }
    split; [by eapply holds_trans|]. apply (consumes_trans _ (fire (count_down k n))); [|done].
    unfold consumes in *. by rewrite count_down_pending in Hp.
Qed.

Lemma firings_bound o rem : 0 <= rem -> (forall t, o = Some t -> 1 <= t) -> firings o rem <= 1 + rem / DEVICE_BYTE_TICKS.
Proof.
  intros H Ho. assert (HM : 0 < DEVICE_BYTE_TICKS) by done. pose proof (Z.div_pos rem DEVICE_BYTE_TICKS H HM).
  unfold firings. destruct o as [t|]; [|lia]. specialize (Ho t eq_refl). destruct (t <=? rem); [|lia].
  pose proof (Z.div_le_mono (rem - t) rem _ HM). lia.
Qed.

(** The fuel of the model covers every event of the interval. *)
Lemma advance_fuel_enough k ticks : wf k -> 0 <= ticks -> events_left k ticks <= Z.of_nat (advance_fuel ticks).
Proof.
  intros [_ _ B S _] H. pose proof (firings_bound _ ticks H B). pose proof (firings_bound _ ticks H S).
  assert (0 <= ticks / DEVICE_BYTE_TICKS) by (by apply Z.div_pos). unfold advance_fuel, events_left.
  rewrite Z2Nat.id by lia. destruct (_ && _); lia.
Qed.

Lemma advance_sound k ticks : wf k -> 0 <= ticks -> exists k' f kb a,
  advance_master_ticks k ticks = Some k' /\ wf k' /\ holds k k' f kb a /\ consumes k k' f kb.
Proof. intros Hk H. by apply loop_sound; [| |apply advance_fuel_enough]. Qed.

Lemma loop_more fuel : forall k rem k' more, advance_loop fuel k rem = Some k' -> advance_loop (fuel + more) k rem = Some k'.
Proof.
  induction fuel as [|fuel IH]; intros k rem k' more; rewrite loop_unfold, (loop_unfold (_ + more));
    (destruct (negb _); [done|]); (destruct (ticks_until_event k); [|done]); (destruct (_ <? _); [done|]); [done|]. apply IH.
Qed.

(** Stopping short of the next event and going on. *)
Lemma split_short k a b next m k2 : ticks_until_event k = Some next -> 0 < a < next -> 0 <= b ->
  advance_loop m (count_down k a) b = Some k2 -> advance_loop m k (a + b) = Some k2.
Proof.
  intros En Ha Hb. rewrite loop_unfold, (loop_unfold m k), count_down_event, En. cbn [fmap option_fmap option_map].
  replace (negb (0 <? a + b)) with false by lia. destruct (negb (0 <? b)) eqn:E0.
  - replace (a + b) with a by lia. by replace (a <? next) with true by lia.
  - replace (a + b <? next) with (b <? next - a) by lia. destruct (b <? next - a); [by rewrite count_down_add|].
    destruct m; [done|]. rewrite count_down_add. by replace (a + (next - a)) with next by lia; replace (a + b - next) with (b - (next - a)) by lia.
Qed.

Lemma loop_split fuel : forall k a k1, 0 <= a -> advance_loop fuel k a = Some k1 -> forall b m k2, 0 <= b ->
  advance_loop m k1 b = Some k2 -> exists n, advance_loop n k (a + b) = Some k2.
Proof.
  induction fuel as [|fuel IH]; intros k a k1 Ha Hl b m k2 Hb Hm; rewrite loop_unfold in Hl;
    (destruct (negb (0 <? a)) eqn:E0; [injection Hl as <-; exists m; by replace (a + b) with b by lia|]);
    (destruct (ticks_until_event k) as [next|] eqn:En;
      [|injection Hl as <-; exists O; rewrite loop_unfold in Hm |- *; rewrite En in *; destruct (negb (0 <? a + b)), (negb (0 <? b)); done]);
    (destruct (a <? next) eqn:El; [injection Hl as <-; exists m; by apply (split_short _ _ _ next); [|lia|..]|]); [done|].
  assert (Hr : 0 <= a - next) by lia. destruct (IH _ _ _ Hr Hl b m k2 Hb Hm) as [n Hn]. exists (S n). rewrite loop_unfold, En.
  replace (negb (0 <? a + b)) with false by lia. replace (a + b <? next) with false by lia.
  by replace (a + b - next) with (a - next + b) by lia.
Qed.

Lemma loop_det n m k rem x y : advance_loop n k rem = Some x -> advance_loop m k rem = Some y -> x = y.
Proof.
  intros Hx Hy. apply (loop_more _ _ _ _ m) in Hx. apply (loop_more _ _ _ _ n) in Hy.
  rewrite Nat.add_comm, Hx in Hy. by injection Hy.
Qed.

End Streams.
