(* ===== verification/KeyboardGuest.v ===== *)
(** * What the guest and the host see of the keyboard controller

    Every call the rest of the machine makes on the controller as an event, histories of
    them, and what holds across a history: the two byte streams stay in order, the clock
    can be run in any stride, and the mouse reports exactly the motion it was fed. *)

From S2P Require Import Prelude Clock Mouse Keyboard KeyboardSound.
Import Keyboard.Controller KeyboardSound.Streams.

Module Guest.

Inductive Event :=
  | PushScancodes (codes : list Z)
  | InjectMouse (dx dy buttons : Z)
  | InjectWheel (dz : Z)
  | SetReporting (on : bool)
  | EnableWheel
  | SampleRateCode (code : Z)
  | SetMouseIrq (on : bool)
  | SetA20 (enabled : bool)
  | ReadPort (port prefix : Z)
  | WritePort (port value prefix : Z)
  | Advance (ticks : Z).

Definition valid (e : Event) : Prop :=
  match e with
  | ReadPort _ prefix => 0 <= prefix
  | WritePort _ value prefix => 0 <= value < 256 /\ 0 <= prefix
  | Advance ticks => 0 <= ticks
  | _ => True
  end.

(** The fresh bytes the event gives the guest, each with the device it came from ([true]
    for the mouse), and the controller after it. *)
Definition act (k : Keyboard8042) (e : Event) : option (list (bool * Z) * Keyboard8042) :=
  match e with
  | PushScancodes codes => Some ([], push_scancodes k codes)
  | InjectMouse dx dy buttons => Some ([], (inject_mouse k dx dy buttons).2)
  | InjectWheel dz => Some ([], (inject_mouse_wheel k dz).2)
  | SetReporting on => Some ([], set_mouse_reporting k on)
  | EnableWheel => Some ([], enable_mouse_wheel k)
  | SampleRateCode code => Some ([], (set_mouse_sample_rate_code k code).2)
  | SetMouseIrq on => Some ([], set_mouse_irq k on)
  | SetA20 enabled => Some ([], set_a20 k enabled)
  | ReadPort port prefix =>
      let '(v, k') := read_port_at k port prefix in
      Some (if (port =? 96) && obf k then (fun b => (output_is_aux k, b)) <$> option_list v else [], k')
  | WritePort port value prefix => Some ([], (write_port_at k port value prefix).2)
  | Advance ticks => (fun k' => ([], k')) <$> advance_master_ticks k ticks
  end.

Fixpoint run (k : Keyboard8042) (es : list Event) : option (list (bool * Z) * Keyboard8042) :=
  match es with
  | [] => Some ([], k)
  | e :: es =>
      '(out, k') ← act k e;
      '(rest, k'') ← run k' es;
      Some (out ++ rest, k'')
  end.

Definition from_kbd (out : list (bool * Z)) : list Z := snd <$> filter (fun b => b.1 = false) out.
Definition from_aux (out : list (bool * Z)) : list Z := snd <$> filter (fun b => b.1 = true) out.
Definition pushed (e : Event) : list Z := match e with PushScancodes codes => codes | _ => [] end.

(* ------------------------------------------------------------------ *)
(** ** One event *)

Lemma default_keyboard_wf : wf default.
Proof. by split. Qed.

(** The effect of one event on the two streams. *)
Record streams (k k' : Keyboard8042) (e : Event) (out : list (bool * Z)) (front kbd aux : list Z) : Prop := {
  st_kbd : from_kbd out ++ held_kbd k' = front ++ held_kbd k ++ kbd;
  st_aux : from_aux out ++ held_aux k' = held_aux k ++ aux;
  st_added : match e with Advance _ => consumes k k' front kbd | _ => front = [] /\ kbd = pushed e end;
  st_pending : match e with WritePort _ _ _ => True | Advance _ => True | _ => pending_input k' = pending_input k end
}.

Lemma wf_step k k' f kb a : wf k -> holds k k' f kb a -> timed k k' -> wf k'.
Proof. by apply inv_step. Qed.

(** An event that reads nothing, by its effect on the content and the clocks. *)
Lemma quiet_streams k k' e a : wf k -> holds k k' [] (pushed e) a -> timed k k' ->
  match e with Advance _ => False | _ => True end -> wf k' /\ exists f kb aux, streams k k' e [] f kb aux.
Proof.
  intros Hk Hh Ht He. split; [by eapply wf_step|]. exists [], (pushed e), a. pose proof Hh as [A B _]. pose proof Ht as [[E _] _ _ _].
  split; [done|done|by destruct e|by destruct e].
Qed.

Lemma kick_quiet k k0 e a0 : wf k -> holds k k0 [] [] a0 -> timed k k0 -> pushed e = [] ->
  match e with Advance _ => False | _ => True end ->
  wf (kick_mouse_sample k0) /\ exists f kb aux, streams k (kick_mouse_sample k0) e [] f kb aux.
Proof.
  intros Hk Hh Ht Hp He. destruct (kick_holds k0) as [a1 H1]. pose proof (holds_trans _ _ _ _ _ _ _ _ _ Hh H1) as H.
  apply (quiet_streams k _ e (a0 ++ a1)); [done|by rewrite Hp| |done]. eapply timed_trans; [exact Ht|]. apply kick_timed, Ht.
Qed.

(** A new mouse state that keeps the queue and the sample rate. *)
Lemma mouse_step k m : wf k -> Mouse.queue m = Mouse.queue (mouse k) -> rate_ok m ->
  holds k (k <| mouse := m |>) [] [] [] /\ timed k (k <| mouse := m |>).
Proof.
  intros Hk Hq Hr. split; [apply mouse_holds; by rewrite app_nil_r|]. split; [done|apply later_refl|apply later_refl|done].
Qed.

Lemma sample_rate_code_ok m code : rate_ok m -> rate_ok (Mouse.set_sample_rate_code m code).2
  /\ Mouse.queue (Mouse.set_sample_rate_code m code).2 = Mouse.queue m.
Proof.
  intros Hr. unfold Mouse.set_sample_rate_code.
  assert (H : forall r, 0 <= r < 256 -> rate_ok (Mouse.set_sample_rate m r) /\ Mouse.queue (Mouse.set_sample_rate m r) = Mouse.queue m).
  { intros r Hr'. unfold Mouse.set_sample_rate. destruct (Mouse.rate_history m) as [[? b] c]. by destruct (_ && _). }
  repeat match goal with |- context [(match ?x with _ => _ end).2] => destruct x end; first [done | apply H; lia].
Qed.

Lemma set_irq_step k on : wf k -> holds k (set_mouse_irq k on) [] [] [] /\ timed k (set_mouse_irq k on).
Proof.
  intros Hk. unfold set_mouse_irq. destruct on; [|split; [by apply holds_same|by apply timed_same; [apply Hk|]]]. cbv zeta.
  set (k0 := k <| command_byte := _ |>). set (k1 := arm_current_output k0).
  assert (H1 : holds k k1 [] [] []) by (apply holds_same; unfold k1; by rewrite arm_content).
  assert (T1 : timed k (latch_if_ready k1)).
  { apply timed_same; [apply Hk|]. rewrite latch_if_clocks. unfold k1. by rewrite arm_clocks. }
  split.
  - exact (holds_trans _ _ _ _ _ _ _ _ _ (holds_trans _ _ _ _ _ _ _ _ _ H1 (latch_if_ready_holds k1)) (schedule_holds _ 0)).
  - eapply timed_trans; [exact T1|]. apply schedule_timed; [lia|apply T1].
Qed.

(** Reading port 60h takes the waiting byte out of its stream, once. *)
Lemma read_port_step k port prefix : wf k -> 0 <= prefix -> exists out k', act k (ReadPort port prefix) = Some (out, k') /\
  wf k' /\ exists f kb a, streams k k' (ReadPort port prefix) out f kb a.
Proof.
  intros Hk Hp. cbn [act]. unfold read_port_at. destruct (port =? 96) eqn:E.
  - cbv zeta. set (k0 := k <| status := _ |> <| output_is_aux := false |>).
    assert (Ho : obf k0 = false).
    { unfold obf, k0. cbn. unfold STATUS_OBF, STATUS_AUX. change 1 with (bit 0). rewrite has_bit, Z.ldiff_spec, Z.lor_spec by lia.
      cbn. by rewrite andb_false_r. }
    set (k1 := latch_if_ready k0).
    assert (T1 : timed k k1) by (apply timed_same; [apply Hk|]; unfold k1; by rewrite latch_if_clocks).
    assert (T2 : timed k (schedule_device_byte_at k1 prefix)) by (eapply timed_trans; [exact T1|]; apply schedule_timed; [done|apply T1]).
    pose proof (holds_trans _ _ _ _ _ _ _ _ _ (latch_if_ready_holds k0) (schedule_holds k1 prefix)) as [A B C]. fold k1 in A, B, C.
    eexists _, _. split; [reflexivity|]. cbn [andb]. pose proof Hk as [F I Bt S R]. pose proof T2 as [[P Q] Lb Ls Rr].
    split.
    + split; [apply C; by rewrite Ho|intros i; rewrite P, Q; apply I|apply (later_bound _ _ _ Lb); [done|exact Bt]
        |apply (later_bound _ _ _ Ls); [done|exact S]|done].
    + exists [], [], []. split; [| |done|done].
      * rewrite A. unfold held_kbd, waiting. rewrite Ho. change (queue k0) with (queue k). cbn [andb app]. rewrite !app_nil_r.
        destruct (obf k) eqn:Ek; [|done]. destruct (F eq_refl) as [v Ev]. rewrite Ev. cbn. by destruct (output_is_aux k).
      * rewrite B. unfold held_aux, waiting. rewrite Ho. change (Mouse.queue (mouse k0)) with (Mouse.queue (mouse k)). cbn [andb app].
        rewrite !app_nil_r. destruct (obf k) eqn:Ek; [|done]. destruct (F eq_refl) as [v Ev]. rewrite Ev. cbn. by destruct (output_is_aux k).
  - assert (H : forall v, exists out k', (let '(x, k') := (v, k) in Some (if false && obf k then (fun b => (output_is_aux k, b)) <$> option_list x else [], k'))
      = Some (out, k') /\ wf k' /\ exists f kb a, streams k k' (ReadPort port prefix) out f kb a).
    { intros v. exists [], k. split; [done|]. apply (quiet_streams k k (ReadPort port prefix) []); [done|apply holds_refl|by apply timed_same; [apply Hk|]|done]. }
    destruct (port =? 100); [apply (H (Some (status k)))|apply (H None)].
Qed.

(** Accepting a byte in a port adds nothing to either stream yet. *)
Lemma write_step k port value prefix : wf k -> 0 <= value < 256 -> 0 <= prefix ->
  wf (write_port_at k port value prefix).2 /\ exists f kb a,
    streams k (write_port_at k port value prefix).2 (WritePort port value prefix) [] f kb a.
Proof.
  intros Hk Hv Hp. set (e := WritePort port value prefix).
  assert (Hn : wf k /\ exists f kb a, streams k k e [] f kb a).
  { apply (quiet_streams k k e []); [done|apply holds_refl|by apply timed_same; [apply Hk|]|done]. }
  unfold write_port_at. destruct (if port =? 96 then _ else _) as [i|] eqn:Ei; [|exact Hn]. cbn [snd].
  case_bool_decide as Ep; [exact Hn|]. cbv zeta. clear Hn.
  assert (Hb : byte_input i) by (destruct (port =? 96); [|destruct (port =? 100); [|done]]; injection Ei as <-; exact Hv).
  match goal with |- wf ?x /\ _ => set (k' := x) end.
  assert (Hh : holds k k' [] [] []).
  { apply holds_same. unfold content, obf, k'. cbn. destruct (obf_keep (status k) STATUS_IBF eq_refl) as [_ E1].
    destruct (obf_keep (Z.lor (status k) STATUS_IBF) STATUS_CMD eq_refl) as [E2 E3].
    destruct (port =? 100); by rewrite ?E2, ?E3, E1. }
  pose proof Hh as [A B C]. pose proof Hk as [F I Bt S R]. split.
  - split; [by apply C| |exact Bt|exact S|exact R]. unfold k'. cbn. intros j [= <-]. split; [|done].
    unfold saturate. change CONTROLLER_INPUT_TICKS with 109560. change (2 ^ 64) with 18446744073709551616. lia.
  - exists [], [], []. by split.
Qed.

Lemma act_sound k e : wf k -> valid e -> exists out k', act k e = Some (out, k') /\ wf k' /\ exists f kb a, streams k k' e out f kb a.
Proof.
  intros Hk Hv. pose proof (inv_rate _ _ _ _ Hk) as Hr.
  assert (Hquiet : forall k' a, match e with Advance _ => False | ReadPort _ _ => False | _ => True end ->
    act k e = Some ([], k') -> holds k k' [] (pushed e) a -> timed k k' -> exists out k', act k e = Some (out, k') /\
    wf k' /\ exists f kb a, streams k k' e out f kb a).
  { intros k' a He Ha Hh Ht. exists [], k'. split; [done|]. apply (quiet_streams k k' e a); [done|done|done|by destruct e]. }
  assert (Hkick : forall m, pushed e = [] -> match e with Advance _ => False | ReadPort _ _ => False | _ => True end ->
    act k e = Some ([], kick_mouse_sample (k <| mouse := m |>)) -> Mouse.queue m = Mouse.queue (mouse k) -> rate_ok m ->
    exists out k', act k e = Some (out, k') /\ wf k' /\ exists f kb a, streams k k' e out f kb a).
  { intros m Hp He Ha Hq Hm. eexists _, _. split; [exact Ha|]. destruct (mouse_step k m Hk Hq Hm).
    apply (kick_quiet k _ e []); [done|done|done|done|by destruct e]. }
  destruct e as [codes|dx dy b|dz|on| |code|on|en|port prefix|port value prefix|ticks]; cbn [valid] in Hv.
  - by apply (Hquiet (push_scancodes k codes) []); [| |apply push_holds|apply push_timed].
  - by apply (Hkick (Mouse.host_update (mouse k) dx dy 0 b)).
  - by apply (Hkick (Mouse.host_update (mouse k) 0 0 dz (Mouse.host_buttons (mouse k)))).
  - apply (Hkick (Mouse.set_reporting (mouse k) on)); try done; by destruct on.
  - destruct (mouse_step k (Mouse.enable_wheel (mouse k)) Hk eq_refl Hr). by apply (Hquiet (enable_mouse_wheel k) []).
  - destruct (sample_rate_code_ok (mouse k) code Hr) as [Hm Hq]. destruct (mouse_step k _ Hk Hq Hm) as [A B].
    apply (Hquiet (set_mouse_sample_rate_code k code).2 []); [done|done|..]; unfold set_mouse_sample_rate_code;
      by destruct (Mouse.set_sample_rate_code (mouse k) code).
  - destruct (set_irq_step k on Hk). by apply (Hquiet (set_mouse_irq k on) []).
  - by apply (Hquiet (set_a20 k en) []); [| |apply holds_same|apply timed_same].
  - by apply read_port_step.
  - destruct Hv as [Hv Hp]. eexists [], _. split; [reflexivity|]. by apply write_step.
  - destruct (advance_sound k ticks Hk Hv) as (k' & f & kb & a & Ha & Hw & [A B _] & Hc). exists [], k'. cbn [act]. rewrite Ha.
    split; [done|]. split; [done|]. exists f, kb, a. by split.
Qed.

(* ------------------------------------------------------------------ *)
(** ** Histories *)

Lemma from_kbd_app a b : from_kbd (a ++ b) = from_kbd a ++ from_kbd b.
Proof. unfold from_kbd. by rewrite filter_app, fmap_app. Qed.
Lemma from_aux_app a b : from_aux (a ++ b) = from_aux a ++ from_aux b.
Proof. unfold from_aux. by rewrite filter_app, fmap_app. Qed.

Lemma run_cons k e es out k1 : act k e = Some (out, k1) -> forall rest k2, run k1 es = Some (rest, k2) ->
  run k (e :: es) = Some (out ++ rest, k2).
Proof. intros Ha rest k2 Hr. cbn. rewrite Ha. cbn. by rewrite Hr. Qed.

(** What one event gives and keeps holds everything that was there and was pushed. *)
Lemma streams_sub k k' e out f kb a : streams k k' e out f kb a ->
  sublist (held_kbd k ++ pushed e) (from_kbd out ++ held_kbd k').
Proof.
  intros [-> _ Hadd _]. apply sublist_inserts_l, sublist_app; [done|].
  destruct e; try (by destruct Hadd as [_ ->]). apply sublist_nil_l.
Qed.

Definition is_write (e : Event) : Prop := match e with WritePort _ _ _ => True | _ => False end.

(** Without a byte in the input buffer and without port writes the scancodes are exact. *)
Lemma streams_exact k k' e out f kb a : streams k k' e out f kb a -> pending_input k = None -> ~ is_write e ->
  from_kbd out ++ held_kbd k' = held_kbd k ++ pushed e /\ pending_input k' = None.
Proof.
  intros [-> _ Hadd Hp] Hn Hw. destruct e; cbn in Hw; try done; try (destruct Hadd as [-> ->]; by rewrite Hp).
  destruct Hadd as [(E & -> & ->)|[E Hadd]]; [by rewrite E|]. rewrite Hn in Hadd. by destruct Hadd as [-> ->].
Qed.

(** C11.  No byte is lost or reordered on the way to the guest.  From any state that satisfies
    the invariant, any history of host input, port reads and writes and clock advances runs
    to its end and keeps the invariant.  What the controller held for the mouse at the start
    comes out first and in order; the scancodes it held, followed by those pushed since, are
    a subsequence of what the guest read and can still read from the keyboard, whatever
    replies the controller put in front of them; and they are exactly that when nothing was
    written to the ports. *)
Theorem streams_in_order k es : wf k -> Forall valid es -> exists out k', run k es = Some (out, k') /\ wf k' /\
  held_aux k `prefix_of` (from_aux out ++ held_aux k') /\
  sublist (held_kbd k ++ concat (pushed <$> es)) (from_kbd out ++ held_kbd k') /\
  (pending_input k = None -> Forall (fun e => ~ is_write e) es ->
    from_kbd out ++ held_kbd k' = held_kbd k ++ concat (pushed <$> es)).
Proof.
  revert k. induction es as [|e es IH]; intros k Hk Hv.
  - exists [], k. cbn. rewrite app_nil_r. split; [done|]. split; [done|]. split; [done|]. split; [reflexivity|done].
  - apply Forall_cons in Hv as [He Hv]. destruct (act_sound k e Hk He) as (o1 & k1 & Ha & Hk1 & f & kb & a & Hs).
    destruct (IH k1 Hk1 Hv) as (o2 & k2 & Hr & Hk2 & Haux & Hsub & Hex).
    exists (o1 ++ o2), k2. split; [by eapply run_cons|]. split; [done|]. rewrite from_aux_app, from_kbd_app, <- !app_assoc. cbn [fmap list_fmap concat].
    split; [|split].
    + destruct Haux as [l Hl]. rewrite Hl, (app_assoc (from_aux o1)), (st_aux _ _ _ _ _ _ _ Hs), <- !app_assoc. by eexists.
    + etrans; [|apply sublist_app; [reflexivity|exact Hsub]]. rewrite !app_assoc. apply sublist_app; [by eapply streams_sub|reflexivity].
    + intros Hn Hw. apply Forall_cons in Hw as [Hw1 Hw]. destruct (streams_exact _ _ _ _ _ _ _ Hs Hn Hw1) as [E1 E2].
      rewrite (Hex E2 Hw), app_assoc, E1. by rewrite <- app_assoc.
Qed.

(** A keystroke, a self test while its scancode waits, and the reads that follow. *)
Definition typing : list Event :=
  [PushScancodes [30; 158]; Advance 5478000; WritePort 100 170 0; Advance 109560; ReadPort 96 0; Advance 1; ReadPort 96 0;
   Advance 5478000; ReadPort 96 0].

Lemma streams_in_order_witness : (exists k', run default typing = Some ([(false, 85); (false, 30); (false, 158)], k')) /\
  exists out k', run default typing = Some (out, k') /\ wf k' /\
  held_aux default `prefix_of` (from_aux out ++ held_aux k') /\
  sublist (held_kbd default ++ concat (pushed <$> typing)) (from_kbd out ++ held_kbd k') /\
  (pending_input default = None -> Forall (fun e => ~ is_write e) typing ->
    from_kbd out ++ held_kbd k' = held_kbd default ++ concat (pushed <$> typing)).
Proof.
  split; [eexists; vm_compute; reflexivity|]. apply (streams_in_order default typing).
  - exact default_keyboard_wf.
  - unfold typing. repeat (apply Forall_cons; split); cbn; try lia; done.
Defined.

(** C12.  The controller can be advanced in any stride.  From any state that satisfies the
    invariant the clock loop ends within its fuel, and advancing by two intervals in turn
    gives the state that advancing by their sum gives, however the keyboard byte in flight,
    the byte in the input buffer and the mouse's sample clock fall into them. *)
Theorem advance_any_stride k a b : wf k -> 0 <= a -> 0 <= b -> exists k',
  run k [Advance a; Advance b] = Some ([], k') /\ run k [Advance (a + b)] = Some ([], k').
Proof.
  intros Hk Ha Hb. destruct (advance_sound k a Hk Ha) as (k1 & ? & ? & ? & H1 & Hk1 & _).
  destruct (advance_sound k1 b Hk1 Hb) as (k2 & ? & ? & ? & H2 & _).
  destruct (advance_sound k (a + b) Hk ltac:(lia)) as (k3 & ? & ? & ? & H3 & _).
  assert (E : k3 = k2).
  { unfold advance_master_ticks in *. destruct (loop_split _ _ _ _ Ha H1 _ _ _ Hb H2) as [n Hn]. by eapply loop_det. }
  subst k3. exists k2. split.
  - apply (run_cons k (Advance a) _ [] k1 (f_equal _ H1) [] k2).
    by apply (run_cons k1 (Advance b) _ [] k2 (f_equal _ H2) [] k2).
  - by apply (run_cons k (Advance (a + b)) _ [] k2 (f_equal _ H3) [] k2).
Qed.

(** A reporting mouse that has just been moved, and a byte in the input buffer. *)
Definition busy : Keyboard8042 :=
  (write_port_at (inject_mouse (set_mouse_reporting default true) 700 (-20) 1).2 100 170 0).2.

Lemma busy_wf : wf busy.
Proof.
  split; [done| | | |by split].
  - intros i [= <-]. split; [by vm_compute|by split].
  - intros t [= <-]. vm_compute. discriminate.
  - intros t [= <-]. vm_compute. discriminate.
Qed.

Lemma advance_any_stride_witness : wf busy /\ (ticks_until_event busy = Some 109560) /\ exists k',
  run busy [Advance 100000; Advance 200000000] = Some ([], k') /\ run busy [Advance (100000 + 200000000)] = Some ([], k').
Proof.
  split; [exact busy_wf|]. split; [reflexivity|]. apply (advance_any_stride busy 100000 200000000); [exact busy_wf|lia|lia].
Defined.

(* ------------------------------------------------------------------ *)
(** ** A byte that completes while its stream is masked *)

(** The mouse is masked (command A7h) while one of its bytes is on the wire, and a key is
    pressed a while later. *)
Definition masked_in_flight : list Event :=
  [SetReporting true; InjectMouse 5 0 0; WritePort 100 167 0; Advance 6000000; PushScancodes [30]].

(** Time alone never brings a byte that no clock is armed for. *)
Lemma advance_quiet k ticks : ticks_until_event k = None -> advance_master_ticks k ticks = Some k.
Proof. intros H. unfold advance_master_ticks. rewrite loop_unfold, H. by destruct (negb _). Qed.

(** [schedule_device_byte_at] refuses while [device_byte_ready] is set, and nothing but a
    port access looks at that flag again: the keyboard is enabled, its scancode is queued
    and the output buffer is empty, but IRQ 1 is never raised, however long the guest
    waits. *)
Lemma masked_byte_blocks_keyboard : exists k, run default masked_in_flight = Some ([], k) /\
  queue k = [30] /\ has (command_byte k) 16 = false /\ obf k = false /\ device_byte_ready k = true /\
  forall ticks, exists k', advance_master_ticks k ticks = Some k' /\ irq1_level k' = false.
Proof.
  eexists. split; [vm_compute; reflexivity|]. repeat (split; [reflexivity|]).
  intros ticks. eexists. by split; [apply advance_quiet|].
Qed.

End Guest.
